(* ===== verification/_CoqProject ===== *)
-Q . S2P
Prelude.v
Mem.v
Sys.v
Ulib.v
Printf.v
ShParse.v
ShLex.v
ShGrammar.v
ShParseSpec.v
ShRun.v
ShRunSpec.v
Tools.v
ToolsSpec.v
Grep.v
Ls.v
Tests.v
TestsSpec.v
Ringbuf.v
Umalloc.v
UmallocSpec.v
Grind.v
GrindSpec.v
Kmem.v
KmemSpec.v
KmemUser.v
Boundary.v
KRing.v
KRingSpec.v
KRingUser.v
Bio.v
BioSpec.v
Fslog.v
FslogSpec.v
FslogCrash.v
FslogQuota.v
Pipe.v
PipeSpec.v
Utests.v
UtFiles.v
UtDirs.v
UtProcs.v
UtMem.v
UtSpec.v
Unix.v
UtAccept.v
KProc.v
KProcSpec.v
KProcHist.v
KFile.v
KFileSpec.v
KFileCalls.v
KFileUser.v
KFileRuns.v
KInode.v
KInodeSpec.v
KInodeIO.v
KInodeMain.v
KInodeLife.v
KInodeCrash.v
KDir.v
KDirSpec.v
KDirMain.v
KInodeRuns.v
KConsole.v
KConsoleSpec.v
KConsoleMain.v
KLock.v
KLockSpec.v
KSleep.v
KDisk.v
KDiskSpec.v
KDiskMain.v
KUvm.v
KUvmSpec.v
KExec.v
KExecSpec.v
KExecMain.v
KForkSpec.v
KExecRuns.v
RbDemos.v
