(* ===== verification/Prelude.v ===== *)
(** * zigmaos: a verification development

    zigmaos is a port of the xv6 teaching system to RISC-V.  Its kernel
    (src/kernel) is written in Zig, its user programs (src/user) in C over a small
    C library, with a second library in Zig.  This development models the user
    programs, the library they are linked with, the shared-memory ring buffer two
    of them communicate through, and the parts of the kernel that they rest on:
    processes, memory, exec and fork, pipes, open files, files and directories on a
    disk that may lose power, the console, the driver of the disk, and locks.

    ** How the parts interact

    A user program is a process that computes on its own memory and makes system
    calls.  [Sys.v] makes that the interface of the development: a program is an
    interaction tree whose events are the calls of src/user/user.h, and an
    environment is a contract on the replies, which may depend on the calls already
    made.  Theorems about a program hold under every environment, or under every
    environment that meets a class of the file that needs it ([Contract], [Plain],
    [Descriptors], [Sbrk]).  The kernel's own promises discharge such a class:
    [KmemUser.v] proves that the [sbrk] of the kernel meets the one the user
    allocator is verified against.

    The kernel is modelled in layers, each over what the one below promises.  The
    driver of the disk makes a device of blocks ([KDisk.v]); the log makes an
    operation on such a disk atomic ([Fslog.v]); inodes and directories are
    operations on the blocks that the log is given ([KInode.v], [KDir.v], joined
    with the log in [KInodeCrash.v]); the calls on files hold references and locks of
    inodes ([KFile.v]); exec reads an inode into the pages of a new page table
    ([KExec.v] over [KInode.v], [Boundary.v] and [KUvm.v]).

    ** Files

    - [Prelude.v]: machine integers as [Z] with their wrap-around ([u8], [u32],
      [u64], [s32], [s64]), characters, lists updated by index, tactics.
    - [Mem.v]: byte memory of a process ([load], [store], [cstr]) up to
      extensional equality, for which the operations are [Proper].
    - [Sys.v]: system calls, programs, histories; [exec] is what a program can do
      under an environment, [wpt] and [twp] are the logics of partial and of
      total correctness, proved sound for it, [play] runs a program against a
      script of replies.
    - [Ulib.v]: src/user/ulib/ulib.c.  [Printf.v]: src/user/ulib/printf.c and the
      [printf] of src/user/ulib/ulog.zig, which is the one the C programs call.
    - [ShParse.v], [ShRun.v]: src/user/sh.c, the parser and the interpreter.
      [ShLex.v] reads a line as a stream of tokens, [ShGrammar.v] states the
      grammar and proves the parser sound and complete for it on token streams,
      [ShParseSpec.v] and [ShRunSpec.v] carry that to the code.
    - [Tools.v], [ToolsSpec.v]: cat.c, wc.c, echo.c, ln.c, rm.c, mkdir.c, kill.c,
      zombie.c.  [Grep.v]: grep.c.  [Ls.v]: ls.c.
    - [Tests.v], [TestsSpec.v]: init.c, forktest.c, stressfs.c, pb.c and the
      ring-buffer tests.  [Grind.v], [GrindSpec.v]: grind.c.  [RbDemos.v]:
      rb_basic.c and rb_wipe.c.
    - [Utests.v] (the driver), [UtFiles.v], [UtDirs.v], [UtProcs.v], [UtMem.v]
      (the tests and their two tables): src/user/usertests.c.  [UtSpec.v]: a test
      that complains fails, and what the verdict of the driver means.
      [Unix.v]: an executable specification of the system calls; [UtAccept.v]: the
      tests run on it, and on kernels that break it.
    - [Ringbuf.v]: src/user/ulib/uringbuf.zig under the benchmark src/user/rb.c,
      as a step relation on shared memory.
    - [Umalloc.v], [UmallocSpec.v]: src/user/ulib/umalloc.c.
    - [Kmem.v], [KmemSpec.v], [KmemUser.v]: the page allocator, the page table of
      a process and its growth: src/kernel/memory and [changeProcessSize] of
      src/kernel/execution/process.zig.
      [Boundary.v]: the copies between a process and the kernel, boundary.zig.
      [KUvm.v], [KUvmSpec.v]: page tables made, copied and destroyed as a whole.
    - [KExec.v]: exec, src/kernel/filesystem/exec.zig and elf.zig, on page tables,
      free pages, bytes of memory and the inode of the program, and the call of
      src/kernel/traps/sysfile.zig around it.  [KExecSpec.v]: the process while it is
      made, its arguments, segments and stack.  [KExecMain.v]: all of exec and of the
      call.  [KForkSpec.v]: the memory of a child.  [KExecRuns.v]: a program of two
      segments started, and a fork.
    - [KRing.v], [KRingSpec.v], [KRingUser.v]: the ring-buffer system call,
      src/kernel/datastructures/ringbuf.zig, over the page tables, the free pages
      and the bytes of memory of all processes.
    - [Bio.v], [BioSpec.v]: blocks, a disk that loses power, the buffer cache
      (buffer.zig and buffer_cache.zig in src/kernel/filesystem) and a logic for
      programs that may be cut short.  [Fslog.v], [FslogSpec.v]: log.zig over
      them and what a disk with a log stands for.  [FslogCrash.v]: atomicity and
      recovery.  [FslogQuota.v]: the space reserved for operations in progress.
    - [Pipe.v], [PipeSpec.v]: src/kernel/filesystem/pipe.zig, the turns of its
      readers and writers and a step relation for processes that sleep and wake.
    - [KProc.v]: the table of processes, src/kernel/execution/process.zig and the
      sleeping and waking of scheduler.zig, with what a process does between two
      places where others can run as one step.  [KProcSpec.v]: the invariant of
      the table.  [KProcHist.v]: what is true of the births, exits and reports of
      a whole run.
    - [KFile.v]: open files, the ends of pipes, the references and locks of
      inodes, paths and every call of src/kernel/traps/sysfile.zig but exec and
      the ring buffers: programs over what the code does under one lock, which
      processes interleave.  [KFileSpec.v]: what an operation takes and gives of
      references, locks and operations of the log, and that this keeps the tables
      right.  [KFileCalls.v]: each call follows these rules.  [KFileUser.v]: what
      that means for all processes together.  [KFileRuns.v]: what a call does to
      the descriptors of its process, the names of a path, and [open] without a
      free descriptor.
    - [KInode.v]: the bitmap of blocks, inodes and the contents of files
      (diskblock.zig, inode.zig), as programs of one thread that keep a trace of what
      they give the log.  [KInodeSpec.v], [KInodeIO.v]: what makes an inode sound, and
      each operation on it.  [KInodeMain.v]: files as sequences of bytes.
      [KInodeLife.v]: blocks and inodes given back.  [KInodeCrash.v]: a write and a
      loss of power.
    - [KDir.v], [KDirSpec.v], [KDirMain.v]: directory.zig and the
      removal of an entry, over the files of [KInode.v].  [KInodeRuns.v]: the
      theorems about files and directories on a small disk.
    - [KConsole.v], [KConsoleSpec.v], [KConsoleMain.v]: the console,
      src/kernel/drivers/console.zig, and the processes that read it.
    - [KLock.v], [KLockSpec.v], [KSleep.v]: src/kernel/concurrency, with every access
      to shared memory as a step of one of several processors.
    - [KDisk.v], [KDiskSpec.v], [KDiskMain.v]: src/kernel/drivers/virtio, the turns of
      processes, the interrupt, and a device that serves what it finds in the rings, in
      any order and at any time.

    A definition has the name of the function it models.  A C string is a list of
    characters where the code only reads it, and bytes of [mem] where it is
    written or shared.  A pointer is the address it holds.  A shared static
    buffer is passed from call to call where a later call can see it.

    ** What the theorems show

    - The shell.  [parseline] ends on every line; it accepts exactly the lines of
      an unambiguous grammar and returns the command the grammar derives;
      [parsecmd] leaves its words NUL-terminated, or dies with one of five
      messages.  A child forked for a line becomes only programs named in it, and
      the main loop does nothing but prompt, read, change directory, fork, wait.
    - Memory.  [malloc] hands out exactly bytes that were free, [free] puts them
      back in order and coalesced, the two undo each other; growing a process
      maps fresh pages or undoes everything; the kernel's [sbrk] is what [malloc]
      needs; where a request near 4 GiB breaks [malloc] is a theorem too.
    - Programs.  exec gives a process exactly the segments of the file, a page it
      cannot touch, and the strings its caller named on an aligned stack; fork gives
      a child what its parent has, page by page; neither loses a page, and a call
      that fails leaves the process as it was.  For exec the headers of the file
      must hold numbers that the kernel can work with ([sane]); the findings say what
      others do.
    - The ring buffers.  Under every interleaving the reader gets the bytes the
      writer wrote, the two never touch a byte at the same time, and the reader
      ends.  In the kernel, no call or exit of any process breaks the table of
      buffers or loses a page, but for one that stops the kernel; after any run of
      them the two owners see the same bytes, twice in a row, as the first theorems
      take for granted, and nobody else reaches them, if no open failed halfway; a
      new buffer shows nothing of what its pages held.
    - Files.  A file is a sequence of bytes and a directory a finite map, whatever
      the layout of their blocks; a write stops short only on a full disk; an inode
      that is allocated, written, read and dropped leaves nothing behind; a write
      of at most three blocks that is cut by a loss of power is there as a whole or
      not at all.
      An operation on the file system happens as a whole or not at all,
      wherever power fails and however often it fails again during recovery;
      recovery comes to an end; nine blocks an operation can never overflow the
      log, and ten can.
    - Processes.  Under every interleaving of fork, exit, wait and kill the live
      and exited processes are a tree under the first one; each exit is reported
      at most once, with its status, and is kept until then; no parent sleeps in
      wait beside a child that has exited; kill finds the one process of its id.
    - Open files.  Under every interleaving of the calls on files no count is ever
      wrong and no lock is released that is not held, if no process opens a file
      without a free descriptor; when no call runs, the counts are the numbers of
      descriptors, directories and files.  [open], [dup] and [pipe] give the lowest
      free descriptors, and a call that fails leaves those of its process alone.
    - Devices.  The console is an editor of one line before a queue of finished
      ones, and what is read is what was edited; a line of 128 characters can only be
      erased.  The driver makes a block device of rings, interrupts and processes
      that sleep: each request moves its block once, between its call and its return,
      and from every state all requests can return.
    - Locks.  A spin lock has one holder at every access to memory of any number of
      processors, and interrupts come back as they were; a sleep lock has one holder
      and its release leaves nobody asleep.
    - Pipes.  Under every schedule what comes out is what went in, in order; no
      process sleeps that could go on, unless a writer is killed; the counters
      last for 4 GiB.  What is copied out to a process can be copied in again.
    - The filters and tools.  What each prints is a function of what it read
      (grep: exactly the matching lines, for the usual meaning of a pattern),
      however the reads cut the input.
    - The test suite.  ALL TESTS PASSED means that every chosen test was run and
      reported 0 and that no page was lost; in all tests but four a process that
      has complained does not pass.  A specification of the system calls passes
      49 of the tests, run step by step; nine kernels that break one promise are
      caught, and one that loses the end of long files is not.
    - The library.  Strings, memory, numbers and formatted output against
      reference definitions, with overlap and overflow.
    - Faults.  Theorems that state what the code does where it seems not to be
      what it means to do: the status of the ring-buffer tests, short reads in pb,
      [%l] in ls, truncation in [malloc], the log one block short, the counters
      of a pipe, the wakeup a killed writer owes, the ring buffer a failing open
      takes from its owner, the pages another one keeps, the process [kill(0)] marks before it is made, the
      kill that comes between the test for it and the sleep, the failed copy that
      a later read sees, the line that is too long to be entered, the inode an [open]
      without a free descriptor puts twice, the process that makes a [.] and waits
      for itself, the program without flags that stops the kernel.

    ** Loops, fuel and termination

    A loop whose bound is in its arguments is structural.  A loop that stops at a
    NUL or at a pointer, the parser and the walks over the free list take fuel, and
    answer [None] (or the error of lacking fuel) only when it runs out: the
    theorem about each says which fuel is enough (the length of the string, that
    of the line, the number of blocks or pages) and that the result does not depend on it.
    A loop over system calls is the iteration of interaction trees, without fuel;
    it ends by total correctness where the environment makes it end (a finite input,
    an out-of-processes error), and only safety is stated where it runs for ever.

    ** What is not modelled

    The hardware and machine set-up, the uart, writing to the console and the
    registers of the virtio device: inline assembly and memory-mapped registers.
    Traps and the dispatch of calls: saving registers, and a table from numbers to the
    functions modelled here.  The kernel's own page table, set up once at the start, and
    the reading of the super block then.  The Zig user programs, which do what the C
    ones do over wrappers of the same calls, and the scripts of the build.  An
    operation of the kernel done under its lock is one step, outside of the files
    about locks.  malloc is taken to succeed in the shell, which does not test it.
    What directories and inodes hold is an answer from outside in [KFile.v], and
    given in [KInode.v] and [KDir.v] by one thread with the inode locked; the
    junk that the page allocator writes to free pages is left out. *)

From Stdlib Require Export String Ascii.
From Stdlib Require Export ZArith List Lia Bool.
Export ListNotations.

#[export] Set Default Goal Selector "!".

Declare Scope zm_scope.
Delimit Scope zm_scope with zm.
Open Scope Z_scope.

(** * Machine integers

    An [int] is kept as a mathematical integer in [-2^31, 2^31), an unsigned
    one in [0, 2^w); [s32], [u32] and [u64] are the conversions the C code
    performs when it stores a wider value. *)

Definition u8 (x : Z) : Z := x mod 2 ^ 8.
Definition u32 (x : Z) : Z := x mod 2 ^ 32.
Definition u64 (x : Z) : Z := x mod 2 ^ 64.
Definition s32 (x : Z) : Z := (x + 2 ^ 31) mod 2 ^ 32 - 2 ^ 31.
Definition s64 (x : Z) : Z := (x + 2 ^ 63) mod 2 ^ 64 - 2 ^ 63.

Lemma u32_range x : 0 <= u32 x < 2 ^ 32.
Proof. unfold u32. apply Z.mod_pos_bound. lia. Qed.

Lemma u64_range x : 0 <= u64 x < 2 ^ 64.
Proof. unfold u64. apply Z.mod_pos_bound. lia. Qed.

Lemma s32_range x : - 2 ^ 31 <= s32 x < 2 ^ 31.
Proof. unfold s32. pose proof (Z.mod_pos_bound (x + 2 ^ 31) (2 ^ 32)). lia. Qed.

Lemma u32_small x : 0 <= x < 2 ^ 32 -> u32 x = x.
Proof. intros. unfold u32. apply Z.mod_small. lia. Qed.

Lemma u64_small x : 0 <= x < 2 ^ 64 -> u64 x = x.
Proof. intros. unfold u64. apply Z.mod_small. lia. Qed.

Lemma s32_small x : - 2 ^ 31 <= x < 2 ^ 31 -> s32 x = x.
Proof. intros. unfold s32. rewrite Z.mod_small; lia. Qed.

(** * Bytes and literals *)

Definition is_byte (c : Z) : Prop := 0 <= c < 256.

(** The bytes of a C string literal, without its terminating NUL. *)
Definition lit (s : string) : list Z :=
  map (fun a => Z.of_nat (nat_of_ascii a)) (list_ascii_of_string s).

Definition chr (a : ascii) : Z := Z.of_nat (nat_of_ascii a).

Definition newline : Z := 10.

Notation "'$' s" := (lit s%string) (at level 1, s at level 0, only parsing) : zm_scope.
Notation "'#' a" := (chr a%char) (at level 1, a at level 0, only parsing) : zm_scope.
Abbreviation len l := (Z.of_nat (length l)) (only parsing).

(** [nonul l]: the bytes before the terminating NUL of a C string. *)
Definition nonul (l : list Z) : Prop := Forall (fun c => c <> 0) l.

(** * Tactics *)

Ltac inv H := inversion H; subst; clear H.

Ltac deex :=
  repeat match goal with
         | H : ex _ |- _ => let x := fresh in destruct H as [x H]
         | H : _ /\ _ |- _ => let H' := fresh in destruct H as [H H']
         end.

(** Destruct the scrutinee of a conditional, remembering the equation as a
    proposition when it is an integer comparison. *)
Ltac case_if :=
  match goal with
  | |- context [if ?b then _ else _] =>
      let E := fresh "E" in destruct b eqn:E
  end.

Ltac breflect :=
  repeat match goal with
         | H : (_ && _)%bool = true |- _ => apply andb_prop in H; destruct H
         | H : (_ || _)%bool = true |- _ => apply orb_prop in H
         | H : (_ || _)%bool = false |- _ => apply orb_false_elim in H; destruct H
         | H : negb _ = true |- _ => apply negb_true_iff in H
         | H : negb _ = false |- _ => apply negb_false_iff in H
         | H : (_ =? _) = true |- _ => apply Z.eqb_eq in H
         | H : (_ =? _) = false |- _ => apply Z.eqb_neq in H
         | H : (_ <? _) = true |- _ => apply Z.ltb_lt in H
         | H : (_ <? _) = false |- _ => apply Z.ltb_ge in H
         | H : (_ <=? _) = true |- _ => apply Z.leb_le in H
         | H : (_ <=? _) = false |- _ => apply Z.leb_gt in H
         end.

Create HintDb zm.
Create Rewrite HintDb zmlen.
Create Rewrite HintDb zmmem.
#[export] Hint Resolve u32_range u64_range s32_range : zm.
#[export] Hint Rewrite @length_app @length_map @length_rev @length_firstn @length_skipn
  @repeat_length @app_nil_r : zmlen.

Ltac len_solve := autorewrite with zmlen in *; cbn [length] in *; lia.

(** * Lists *)

Section Lists.
Context {A : Type}.
Implicit Types l : list A.

Lemma skipn_nth_cons n l d : (n < length l)%nat -> skipn n l = nth n l d :: skipn (S n) l.
Proof.
  revert l. induction n as [|n IH]; intros [|x l] H; cbn in *; try lia; auto.
  apply IH. lia.
Qed.

Lemma firstn_snoc n l d : (n < length l)%nat -> firstn (S n) l = firstn n l ++ [nth n l d].
Proof.
  revert l. induction n as [|n IH]; intros [|x l] H; cbn in *; try lia; auto.
  f_equal. apply IH. lia.
Qed.

Lemma nth_app_at l l' n d : n = length l -> nth n (l ++ l') d = nth 0 l' d.
Proof. intros ->. rewrite app_nth2, Nat.sub_diag; auto. Qed.

Lemma app_inj_len l l' r r' : l ++ r = l' ++ r' -> length l = length l' -> l = l' /\ r = r'.
Proof.
  revert l'. induction l as [|x l IH]; intros [|x' l'] E L; cbn in *; try discriminate; auto.
  injection E as -> E. destruct (IH l' E ltac:(lia)). subst. auto.
Qed.

Lemma list_eq_nth l l' d :
  length l = length l' -> (forall i, (i < length l)%nat -> nth i l d = nth i l' d) -> l = l'.
Proof. intros. eapply nth_ext; eauto. Qed.
End Lists.

(** Updating a C array: nothing else changes, and an index outside the array
    is not written (the callers prove theirs inside). *)
Fixpoint list_set {A} (l : list A) (i : nat) (v : A) : list A :=
  match l, i with
  | [], _ => []
  | _ :: l', O => v :: l'
  | x :: l', S i' => x :: list_set l' i' v
  end.

Lemma list_set_length {A} (l : list A) i v : length (list_set l i v) = length l.
Proof. revert i. induction l; destruct i; cbn; auto. Qed.

Lemma list_set_nth {A} (l : list A) i j v d :
  nth j (list_set l i v) d = if (Nat.eqb i j && Nat.ltb i (length l))%bool then v else nth j l d.
Proof.
  revert i j. induction l as [|x l IH]; intros i j.
  - destruct i; cbn; rewrite ?andb_false_r; reflexivity.
  - destruct i, j; cbn; auto.
Qed.

Lemma nth_set_eq {A} (l : list A) i v d : (i < length l)%nat -> nth i (list_set l i v) d = v.
Proof. intros H. rewrite list_set_nth, Nat.eqb_refl, (proj2 (Nat.ltb_lt _ _) H). reflexivity. Qed.

Lemma nth_set_ne {A} (l : list A) i j v d : i <> j -> nth j (list_set l i v) d = nth j l d.
Proof. intros H. rewrite list_set_nth, (proj2 (Nat.eqb_neq _ _) H). reflexivity. Qed.

Lemma set_set {A} (l : list A) i v w : list_set (list_set l i v) i w = list_set l i w.
Proof. revert i. induction l as [|x l IH]; intros [|i]; cbn; f_equal; auto. Qed.

Lemma set_same {A} (l : list A) i d : list_set l i (nth i l d) = l.
Proof. revert i. induction l as [|x l IH]; intros [|i]; cbn; f_equal; auto. Qed.

#[export] Hint Rewrite @list_set_length : zmlen.

(** * Bytes of memory *)

(** [l] copied over [d] from position [i]. *)
Definition splice (d : list Z) (i : nat) (l : list Z) : list Z := firstn i d ++ l ++ skipn (i + length l) d.

Lemma splice_length d i l : (i + length l <= length d)%nat -> length (splice d i l) = length d.
Proof. intros B. unfold splice. rewrite !length_app, length_firstn, length_skipn. lia. Qed.

Lemma splice_nth d i l j : (i + length l <= length d)%nat ->
  nth j (splice d i l) 0 = if (i <=? j)%nat && (j <? i + length l)%nat then nth (j - i) l 0 else nth j d 0.
Proof.
  intros B. unfold splice. destruct (Nat.leb_spec i j); cbn [andb].
  - rewrite app_nth2, length_firstn by (rewrite length_firstn; lia). replace (Nat.min i (length d)) with i by lia.
    destruct (Nat.ltb_spec j (i + length l)).
    + rewrite app_nth1 by lia. reflexivity.
    + rewrite app_nth2, nth_skipn by lia. f_equal. lia.
  - rewrite app_nth1, nth_firstn by (rewrite length_firstn; lia). destruct (Nat.ltb_spec j i); [reflexivity|lia].
Qed.

(** A number as bytes, the lowest first. *)
Fixpoint le_bytes (n : nat) (v : Z) : list Z :=
  match n with O => [] | S n => v mod 256 :: le_bytes n (v / 256) end.
Fixpoint of_le (l : list Z) : Z := match l with [] => 0 | b :: l => b + 256 * of_le l end.

Lemma of_le_bytes n : forall v, 0 <= v < 256 ^ Z.of_nat n -> of_le (le_bytes n v) = v.
Proof.
  induction n as [|n IH]; intros v B; cbn [le_bytes of_le]; [change (256 ^ Z.of_nat 0) with 1 in B; lia|].
  rewrite Nat2Z.inj_succ, Z.pow_succ_r in B by lia. rewrite IH by (Z.to_euclidean_division_equations; lia).
  rewrite (Z.div_mod v 256) at 3 by lia. lia.
Qed.
