(* ===== verification/Mem.v ===== *)
(** Byte memory of a user process, with extensional equality as its
    equivalence: arrays, C strings and the writes that reach them. *)

From S2P Require Import Prelude.
From Stdlib Require Import Morphisms Setoid.

Definition mem : Type := Z -> Z.

Definition upd (m : mem) (a v : Z) : mem := fun x => if x =? a then v else m x.

(** The [n] bytes from address [a]. *)
Fixpoint load (m : mem) (a : Z) (n : nat) : list Z :=
  match n with
  | O => []
  | S n => m a :: load m (a + 1) n
  end.

(** Memory [m] with the bytes [l] stored from address [a]. *)
Definition store (m : mem) (a : Z) (l : list Z) : mem :=
  fun x => if (a <=? x) && (x <? a + len l) then nth (Z.to_nat (x - a)) l 0 else m x.

Definition mem_of (a : Z) (l : list Z) : mem := store (fun _ => 0) a l.

(** The string [s] lies at address [a], followed by its NUL. *)
Definition cstr (m : mem) (a : Z) (s : list Z) : Prop :=
  nonul s /\ load m a (length s) = s /\ m (a + len s) = 0.

(** * Equality of memories *)

Definition meq (m m' : mem) : Prop := forall a, m a = m' a.
Infix "=m=" := meq (at level 70) : zm_scope.
Local Open Scope zm_scope.

#[export] Instance meq_equiv : Equivalence meq.
Proof. unfold meq. split; red; intros; auto. etransitivity; eauto. Qed.

#[export] Instance upd_proper : Proper (meq ==> eq ==> eq ==> meq) upd.
Proof. intros m m' H a ? <- v ? <- x. unfold upd. destruct (x =? a); auto. Qed.

#[export] Instance load_proper : Proper (meq ==> eq ==> eq ==> eq) load.
Proof.
  intros m m' H a ? <- n ? <-. revert a. induction n; cbn; intros; auto. rewrite H, IHn. auto.
Qed.

#[export] Instance store_proper : Proper (meq ==> eq ==> eq ==> meq) store.
Proof. intros m m' H a ? <- l ? <- x. unfold store. destruct (_ && _); auto. Qed.

#[export] Instance cstr_proper : Proper (meq ==> eq ==> eq ==> iff) cstr.
Proof. intros m m' H a ? <- l ? <-. unfold cstr. rewrite H, (load_proper _ _ H _ _ eq_refl _ _ eq_refl). tauto. Qed.

(** * Reading and writing *)

Lemma upd_eq m a v : upd m a v a = v.
Proof. unfold upd. rewrite Z.eqb_refl. reflexivity. Qed.

Lemma upd_ne m a v x : x <> a -> upd m a v x = m x.
Proof. intros. unfold upd. destruct (Z.eqb_spec x a); congruence. Qed.

Lemma load_length m a n : length (load m a n) = n.
Proof. revert a. induction n; cbn; auto. Qed.

Lemma load_nth m a n i : (i < n)%nat -> nth i (load m a n) 0 = m (a + Z.of_nat i).
Proof.
  revert a i. induction n; intros a i H; [lia|]. destruct i; cbn [load nth].
  - f_equal. lia.
  - rewrite IHn by lia. f_equal. lia.
Qed.

Lemma load_app m a n k : load m a (n + k) = load m a n ++ load m (a + Z.of_nat n) k.
Proof.
  revert a. induction n; intros a; cbn [Nat.add load app].
  - f_equal. lia.
  - rewrite IHn. do 3 f_equal. lia.
Qed.

Lemma load_ext m m' a n :
  (forall x, a <= x < a + Z.of_nat n -> m x = m' x) -> load m a n = load m' a n.
Proof.
  revert a. induction n; intros a H; cbn; auto. rewrite H by lia. f_equal. apply IHn.
  intros. apply H. lia.
Qed.

Lemma store_in m a l x : a <= x < a + len l -> store m a l x = nth (Z.to_nat (x - a)) l 0.
Proof. intros. unfold store. destruct (Z.leb_spec a x), (Z.ltb_spec x (a + len l)); auto; lia. Qed.

Lemma store_out m a l x : x < a \/ a + len l <= x -> store m a l x = m x.
Proof. intros. unfold store. destruct (Z.leb_spec a x), (Z.ltb_spec x (a + len l)); auto; lia. Qed.

Lemma store_nil m a : store m a [] =m= m.
Proof. intros x. apply store_out. cbn. lia. Qed.

Lemma store_cons m a v l : store m a (v :: l) =m= store (upd m a v) (a + 1) l.
Proof.
  intros x. cbn [length]. destruct (Z.eq_dec x a) as [->|N].
  - rewrite store_in, store_out, upd_eq by (cbn [length]; lia). rewrite Z.sub_diag. reflexivity.
  - destruct (Z_lt_dec x a); [rewrite !store_out, upd_ne by (cbn [length]; lia); auto|].
    destruct (Z_lt_dec x (a + 1 + len l)).
    + rewrite !store_in by (cbn [length]; lia).
      replace (Z.to_nat (x - a)) with (S (Z.to_nat (x - (a + 1)))) by lia. reflexivity.
    + rewrite !store_out, upd_ne by (cbn [length]; lia). auto.
Qed.

(** Storing the last byte last. *)
Lemma store_snoc m a l v : store m a (l ++ [v]) =m= upd (store m a l) (a + len l) v.
Proof.
  intros x. unfold upd. destruct (Z.eqb_spec x (a + len l)) as [->|N].
  - rewrite store_in by len_solve. rewrite app_nth2 by lia.
    replace (Z.to_nat _ - _)%nat with O by lia. reflexivity.
  - unfold store. autorewrite with zmlen. cbn [length].
    destruct (Z.leb_spec a x); cbn [andb]; auto.
    destruct (Z.ltb_spec x (a + len l)), (Z.ltb_spec x (a + Z.of_nat (length l + 1))); auto; try lia.
    apply app_nth1. lia.
Qed.

Lemma load_store_same m a l : load (store m a l) a (length l) = l.
Proof.
  apply list_eq_nth with (d := 0); rewrite load_length; auto. intros i Hi.
  rewrite load_nth, store_in by lia. f_equal. lia.
Qed.

Lemma load_mem_of a l : load (mem_of a l) a (length l) = l.
Proof. apply load_store_same. Qed.

(** * Strings *)

Lemma cstr_cons m a c s : cstr m a (c :: s) <-> c <> 0 /\ m a = c /\ cstr m (a + 1) s.
Proof.
  unfold cstr, nonul. rewrite Forall_cons_iff. cbn [length load].
  replace (a + Z.of_nat (S (length s))) with (a + 1 + len s) by lia.
  split.
  - intros ((N & Ns) & L & Z0). injection L as L1 L2. repeat split; auto.
  - intros (N & L1 & Ns & L2 & Z0). repeat split; auto. congruence.
Qed.

Lemma cstr_nil m a : cstr m a [] <-> m a = 0.
Proof.
  unfold cstr, nonul. cbn. rewrite Z.add_0_r. intuition.
Qed.

(** A string is determined by the memory and its address. *)
Lemma cstr_inj m a s s' : cstr m a s -> cstr m a s' -> s = s'.
Proof.
  revert a s'. induction s as [|c s IH]; intros a [|c' s'] H H';
    rewrite ?cstr_cons, ?cstr_nil in *; intuition congruence || auto.
  f_equal; [intuition congruence|]. eapply IH; intuition eauto.
Qed.

Lemma cstr_ext m m' a s :
  (forall x, a <= x <= a + len s -> m x = m' x) -> cstr m a s -> cstr m' a s.
Proof.
  intros H (N & L & Z0). split; [|split]; auto.
  - rewrite <- L at 2. symmetry. apply load_ext. intros; apply H; lia.
  - rewrite <- H by lia. auto.
Qed.

Lemma cstr_mem_of a s : nonul s -> cstr (mem_of a s) a s.
Proof.
  split; auto. split; [apply load_mem_of|]. unfold mem_of. apply store_out. lia.
Qed.

Lemma cstr_store m a s : nonul s -> cstr (store m a (s ++ [0])) a s.
Proof.
  intros N. pose proof (load_store_same m a (s ++ [0])) as L.
  rewrite length_app, load_app in L. cbn [length load] in L. apply app_inj_tail in L as [L1 L2].
  repeat split; auto.
Qed.

#[export] Hint Rewrite upd_eq load_length : zmmem.
#[export] Hint Resolve cstr_mem_of : zm.
