(* ===== verification/Sys.v ===== *)
(** The system-call interface of user programs.

    A user program is an interaction tree over [sysE]: every [Sys c] node is
    one system call of src/user/user.h, its continuation takes the reply the
    kernel gives.  An environment is a contract on replies that may depend on
    the history of the calls already answered; [exec] is the behaviour of a
    program under an environment, [wpt] (partial) and [twp] (total) are the
    program logics the other files use, and [play] runs a program against a
    script of replies. *)

From S2P Require Import Prelude.
From ITree Require Import ITree ITreeFacts.
From ITree Require Import Eq.Shallow.
Import ITreeNotations.

Local Open Scope itree_scope.

(** * Calls and replies *)

Inductive call : Type :=
| CFork
| CExit (status : Z)
| CWait (want_status : bool)
| CPipe
| CWrite (fd : Z) (data : list Z)
| CRead (fd n : Z)
| CClose (fd : Z)
| CKill (pid : Z)
| CExec (path : list Z) (argv : list (list Z))
| COpen (path : list Z) (mode : Z)
| CMknod (path : list Z) (major minor : Z)
| CUnlink (path : list Z)
| CFstat (fd : Z)
| CLink (old new : list Z)
| CMkdir (path : list Z)
| CChdir (path : list Z)
| CDup (fd : Z)
| CGetpid
| CSbrk (n : Z)
| CSleep (n : Z)
| CUptime
| CRingbuf (name : list Z) (op : Z) (addr : Z)
(** A system call by its number and the registers, for a program that passes a
    pointer to memory it does not have. *)
| CRaw (num : Z) (args : list Z)
(** Not system calls: a load ([None]) or a store of [n] bytes through a pointer
    into memory the program may not have, answered by the value, or by -1 for a
    fault; and the stop of the process by a trap ([abort] below). *)
| CAccess (addr n : Z) (store : option Z)
| CTrap.

(** What the kernel gives back: the value in register a0, and what it stored
    through the pointer argument, if there is one: the bytes of a [read], the
    status of a [wait], the two descriptors of a [pipe], the fields of struct
    stat in their order for [fstat], the address for [ringbuf]. *)
Record reply : Type := Reply { r_ret : Z; r_out : list Z }.

Definition ok (v : Z) : reply := Reply v [].

Variant sysE : Type -> Type :=
| Sys (c : call) : sysE reply.

Definition prog : Type -> Type := itree sysE.

Abbreviation event := (call * reply)%type.
Abbreviation history := (list (call * reply)).

(** * Stubs: src/user/user.h, one per system call *)

Definition sys (c : call) : prog reply := ITree.trigger (Sys c).
Definition sysret (c : call) : prog Z := r <- sys c ;; Ret (r_ret r).

Definition exit_ {R} (n : Z) : prog R := Vis (Sys (CExit n)) (fun _ => ITree.spin).
Definition abort {R} : prog R := Vis (Sys CTrap) (fun _ => ITree.spin).

(** * One step of a program *)

Variant node (R : Type) : Type :=
| NRet (r : R)
| NTau (t : prog R)
| NSys (c : call) (k : reply -> prog R).
Arguments NRet {R}.
Arguments NTau {R}.
Arguments NSys {R}.

Definition view {R} (t : prog R) : node R :=
  match observe t with
  | RetF r => NRet r
  | TauF t' => NTau t'
  | VisF e k =>
      match e in sysE X return (X -> prog R) -> node R with
      | Sys c => fun k => NSys c k
      end k
  end.

Lemma view_bind {R S} (t : prog R) (k : R -> prog S) :
  view (ITree.bind t k) =
  match view t with
  | NRet r => view (k r)
  | NTau t' => NTau (ITree.bind t' k)
  | NSys c kk => NSys c (fun x => ITree.bind (kk x) k)
  end.
Proof.
  unfold view. rewrite observe_bind. destruct (observe t) as [r|t'|X e kk]; cbn; auto.
  destruct e. reflexivity.
Qed.

Lemma view_iter {I R} (f : I -> prog (I + R)) (i : I) :
  view (ITree.iter f i) =
  view (ITree.bind (f i) (fun lr => match lr with inl l => Tau (ITree.iter f l) | inr r => Ret r end)).
Proof. unfold view. rewrite (observing_observe (unfold_aloop_ f i)). reflexivity. Qed.

(** * Behaviour under an environment *)

Variant outcome (R : Type) : Type :=
| Done (r : R)                                    (* the program returned *)
| Exited (status : Z)                             (* exit(status) *)
| Replaced (path : list Z) (argv : list (list Z)) (* a successful exec *)
| Trapped.                                        (* stopped by a trap *)
Arguments Done {R}.
Arguments Exited {R}.
Arguments Replaced {R}.
Arguments Trapped {R}.

(** An outcome that is not a return ends the whole program. *)
Definition relay {R S} (o : outcome R) : outcome S :=
  match o with
  | Done _ => Trapped
  | Exited n => Exited n
  | Replaced p a => Replaced p a
  | Trapped => Trapped
  end.

Definition is_done {R} (o : outcome R) : bool :=
  match o with Done _ => true | _ => false end.

Definition env : Type := history -> call -> reply -> Prop.

(** Calls that can return to the program: not exit, and exec only on failure. *)
Definition returning (c : call) (r : reply) : bool :=
  match c with
  | CExit _ | CTrap => false
  | CExec _ _ => r_ret r <? 0
  | _ => true
  end.

Inductive exec (E : env) {R} : nat -> history -> prog R -> history -> outcome R -> Prop :=
| exec_ret n h t r :
    view t = NRet r -> exec E n h t h (Done r)
| exec_tau n h t t' h' o :
    view t = NTau t' -> exec E n h t' h' o -> exec E (S n) h t h' o
| exec_exit n h t s k :
    view t = NSys (CExit s) k -> exec E n h t h (Exited s)
| exec_trap n h t k :
    view t = NSys CTrap k -> exec E n h t h Trapped
| exec_replaced n h t p a k r :
    view t = NSys (CExec p a) k -> E h (CExec p a) r -> r_ret r >= 0 ->
    exec E n h t (h ++ [(CExec p a, r)]) (Replaced p a)
| exec_sys n h t c k r h' o :
    view t = NSys c k -> E h c r -> returning c r = true ->
    exec E n (h ++ [(c, r)]) (k r) h' o -> exec E (S n) h t h' o.

(** Partial correctness: every run that ends satisfies [Q]. *)
Definition wpt (E : env) {R} (h : history) (t : prog R)
  (Q : outcome R -> history -> Prop) : Prop :=
  forall n h' o, exec E n h t h' o -> Q o h'.

(** Total correctness: every run ends, whatever the replies, and satisfies [Q]. *)
Inductive twp (E : env) {R} (Q : outcome R -> history -> Prop) : history -> prog R -> Prop :=
| twp_ret_v h t r :
    view t = NRet r -> Q (Done r) h -> twp E Q h t
| twp_tau_v h t t' :
    view t = NTau t' -> twp E Q h t' -> twp E Q h t
| twp_exit_v h t s k :
    view t = NSys (CExit s) k -> Q (Exited s) h -> twp E Q h t
| twp_trap_v h t k :
    view t = NSys CTrap k -> Q Trapped h -> twp E Q h t
| twp_sys_v h t c k :
    view t = NSys c k ->
    (forall r, E h c r -> returning c r = true -> twp E Q (h ++ [(c, r)]) (k r)) ->
    (forall r p a, c = CExec p a -> E h c r -> r_ret r >= 0 ->
       Q (Replaced p a) (h ++ [(c, r)])) ->
    (forall s, c <> CExit s) -> c <> CTrap ->
    twp E Q h t.

Section Logic.
Context (E : env).

Ltac views := repeat match goal with
  | H1 : view ?t = _, H2 : view ?t = _ |- _ => rewrite H1 in H2; inv H2
  | H : _ /\ _ |- _ => destruct H
  end.

Lemma twp_sound {R} Q h (t : prog R) : twp E Q h t -> wpt E h t Q.
Proof.
  unfold wpt. induction 1; intros m h' o X; inv X; views; auto; try congruence; eauto.
  all: try (exfalso; match goal with H : forall s, _ <> _ |- _ => eapply H; reflexivity end).
  all: try discriminate.
Qed.

(** When the environment always answers, a total program has a run. *)
Lemma twp_runs {R} Q h (t : prog R) :
  (forall h c, exists r, E h c r) -> twp E Q h t -> exists n h' o, exec E n h t h' o.
Proof.
  intros L. induction 1 as [h t r V|h t t' V _ IH|h t s k V|h t k V|h t c k V _ IH _ Hx Ht].
  - exists O, h, (Done r). eapply exec_ret; eauto.
  - destruct IH as (n & h' & o & X). exists (S n), h', o. eapply exec_tau; eauto.
  - exists O, h, (Exited s). eapply exec_exit; eauto.
  - exists O, h, Trapped. eapply exec_trap; eauto.
  - destruct (L h c) as [r Er]. destruct (returning c r) eqn:Rt.
    + destruct (IH r Er Rt) as (n & h' & o & X).
      exists (S n), h', o. eapply exec_sys; eauto.
    + destruct c; cbn in Rt; try discriminate; try congruence.
      exists O, (h ++ [(CExec path argv, r)]), (Replaced path argv).
      eapply exec_replaced; eauto. apply Z.ltb_ge in Rt. lia.
Qed.

(** ** Rules for total correctness *)

Lemma twp_mono {R} (Q Q' : outcome R -> history -> Prop) h t :
  twp E Q h t -> (forall o h', Q o h' -> Q' o h') -> twp E Q' h t.
Proof.
  induction 1; intros M.
  - eapply twp_ret_v; eauto.
  - eapply twp_tau_v; eauto.
  - eapply twp_exit_v; eauto.
  - eapply twp_trap_v; eauto.
  - eapply twp_sys_v; eauto.
Qed.

(** What is left to prove after the first part of a sequence. *)
Definition seqpost {R S} (Q : outcome S -> history -> Prop) (k : R -> prog S)
  (o : outcome R) (h : history) : Prop :=
  match o with
  | Done r => twp E Q h (k r)
  | Exited n => Q (Exited n) h
  | Replaced p a => Q (Replaced p a) h
  | Trapped => Q Trapped h
  end.

(** Only the first step of a program matters. *)
Lemma twp_view {R} Q h (t t' : prog R) : view t = view t' -> twp E Q h t -> twp E Q h t'.
Proof.
  intros V T. inv T; rewrite V in *.
  - eapply twp_ret_v; eauto.
  - eapply twp_tau_v; eauto.
  - eapply twp_exit_v; eauto.
  - eapply twp_trap_v; eauto.
  - eapply twp_sys_v; eauto.
Qed.

Lemma twp_bind {R S} Q h (t : prog R) (k : R -> prog S) :
  twp E (seqpost Q k) h t -> twp E Q h (ITree.bind t k).
Proof.
  induction 1 as [h t r V HQ|h t t' V _ IH|h t s kk V HQ|h t kk V HQ|h t c kk V _ IH HR Hx Ht];
    pose proof (view_bind t k) as VB; rewrite V in VB.
  - eapply twp_view; [symmetry; exact VB|exact HQ].
  - eapply twp_tau_v; eauto.
  - eapply twp_exit_v; eauto.
  - eapply twp_trap_v; eauto.
  - eapply twp_sys_v; eauto.
Qed.

Lemma twp_ret {R} (Q : outcome R -> history -> Prop) h r : Q (Done r) h -> twp E Q h (Ret r).
Proof. intros. eapply twp_ret_v; eauto. reflexivity. Qed.

Lemma twp_exit {R} (Q : outcome R -> history -> Prop) h n :
  Q (Exited n) h -> twp E Q h (exit_ n).
Proof. intros. eapply twp_exit_v; eauto. reflexivity. Qed.

Lemma twp_abort {R} (Q : outcome R -> history -> Prop) h : Q Trapped h -> twp E Q h abort.
Proof. intros. eapply twp_trap_v; eauto. reflexivity. Qed.

(** Calls that always return to the caller. *)
Definition plain (c : call) : Prop := forall r, returning c r = true.

Lemma twp_sys (Q : outcome reply -> history -> Prop) h c :
  plain c -> (forall r, E h c r -> Q (Done r) (h ++ [(c, r)])) -> twp E Q h (sys c).
Proof.
  intros P H. eapply twp_sys_v; [reflexivity| | | |].
  - intros r Er _. eapply twp_ret_v; [reflexivity|]. auto.
  - intros r p a -> _ Hr. specialize (P r). cbn in P. apply Z.ltb_lt in P. lia.
  - intros s ->. specialize (P (ok 0)). discriminate.
  - intros ->. specialize (P (ok 0)). discriminate.
Qed.

Lemma twp_sysret (Q : outcome Z -> history -> Prop) h c :
  plain c -> (forall r, E h c r -> Q (Done (r_ret r)) (h ++ [(c, r)])) -> twp E Q h (sysret c).
Proof.
  intros P H. unfold sysret. apply twp_bind, twp_sys; auto.
  intros r Er. cbn. apply twp_ret; auto.
Qed.

(** A call of exec: it replaces the process, or returns a negative value. *)
Lemma twp_exec (Q : outcome Z -> history -> Prop) h p a :
  (forall r, E h (CExec p a) r -> r_ret r >= 0 -> Q (Replaced p a) (h ++ [(CExec p a, r)])) ->
  (forall r, E h (CExec p a) r -> r_ret r < 0 -> Q (Done (r_ret r)) (h ++ [(CExec p a, r)])) ->
  twp E Q h (sysret (CExec p a)).
Proof.
  intros H1 H2. unfold sysret. apply twp_bind. eapply twp_sys_v; [reflexivity| | | |].
  - intros r Er Hr. apply Z.ltb_lt in Hr. eapply twp_ret_v; [reflexivity|].
    cbn. apply twp_ret; auto.
  - intros r p' a' [= <- <-] Er Hr. cbn. auto.
  - discriminate.
  - discriminate.
Qed.

(** A loop with an invariant and a decreasing measure. *)
Lemma twp_iter {I R} (body : I -> prog (I + R)) (Q : outcome R -> history -> Prop)
  (Inv : I -> history -> Prop) (m : I -> history -> nat) i h :
  (forall i h, Inv i h ->
     twp E (fun o h' => match o with
                        | Done (inl i') => Inv i' h' /\ (m i' h' < m i h)%nat
                        | Done (inr r) => Q (Done r) h'
                        | Exited n => Q (Exited n) h'
                        | Replaced p a => Q (Replaced p a) h'
                        | Trapped => Q Trapped h'
                        end) h (body i)) ->
  Inv i h -> twp E Q h (ITree.iter body i).
Proof.
  intros B. remember (m i h) as w eqn:W. revert i h W.
  induction w as [w IH] using lt_wf_ind. intros i h -> HI.
  assert (T : twp E Q h (ITree.bind (body i) (fun lr => match lr with
            | inl l => Tau (ITree.iter body l) | inr r => Ret r end))).
  { apply twp_bind. eapply twp_mono; [apply B; auto|]. intros [[i'|r]|s|p a|] h'; cbn; auto.
    - intros [HI' Hm]. eapply twp_tau_v; [reflexivity|]. eapply IH; eauto.
    - intros HQ. apply twp_ret; auto. }
  eapply twp_view; [symmetry; apply view_iter|exact T].
Qed.

(** ** Rules for partial correctness *)

Lemma exec_view {R} n h (t t' : prog R) h' o :
  view t = view t' -> exec E n h t h' o -> exec E n h t' h' o.
Proof.
  intros V X. inv X; rewrite V in *;
    eauto using exec_ret, exec_tau, exec_exit, exec_trap, exec_replaced, exec_sys.
Qed.

(** A run of a sequence is a run of its first part followed by a run of the
    second one, or a run of the first part that ends the program. *)
Lemma exec_bind_inv {R S0} n h (t : prog R) (k : R -> prog S0) h' o :
  exec E n h (ITree.bind t k) h' o ->
  (exists r h1 n1 n2, exec E n1 h t h1 (Done r) /\ exec E n2 h1 (k r) h' o /\ (n2 <= n)%nat) \/
  (exists o1, exec E n h t h' o1 /\ is_done o1 = false /\ o = relay o1).
Proof.
  revert h t. induction n as [n IH] using lt_wf_ind. intros h t X.
  pose proof (view_bind t k) as VB. destruct (view t) as [r|t'|c kk] eqn:V.
  - left. exists r, h, n, n. split; [eapply exec_ret; eauto|]. split; [|lia].
    eapply exec_view; eauto.
  - inv X; rewrite VB in *; try discriminate. match goal with H : NTau _ = NTau _ |- _ => inv H end.
    destruct (IH n0 ltac:(lia) h t') as [(r & h1 & n1 & n2 & X1 & X2 & L)|(o1 & X1 & D & ->)]; auto.
    + left. exists r, h1, (S n1), n2. split; [eapply exec_tau; eauto|split; [auto|lia]].
    + right. exists o1. repeat split; auto. eapply exec_tau; eauto.
  - inv X; rewrite VB in *; try discriminate;
      match goal with H : NSys _ _ = NSys _ _ |- _ => inv H end.
    + right. exists (Exited s). repeat split. eapply exec_exit; eauto.
    + right. exists Trapped. repeat split. eapply exec_trap; eauto.
    + right. exists (Replaced p a). repeat split. eapply exec_replaced; eauto.
    + destruct (IH n0 ltac:(lia) (h ++ [(c0, r)]) (kk r))
        as [(r' & h1 & n1 & n2 & X1 & X2 & L)|(o1 & X1 & D & ->)]; auto.
      * left. exists r', h1, (S n1), n2. split; [eapply exec_sys; eauto|split; [auto|lia]].
      * right. exists o1. repeat split; auto. eapply exec_sys; eauto.
Qed.

Definition wseqpost {R S} (Q : outcome S -> history -> Prop) (k : R -> prog S)
  (o : outcome R) (h : history) : Prop :=
  match o with
  | Done r => wpt E h (k r) Q
  | Exited n => Q (Exited n) h
  | Replaced p a => Q (Replaced p a) h
  | Trapped => Q Trapped h
  end.

Lemma wpt_mono {R} (Q Q' : outcome R -> history -> Prop) h t :
  wpt E h t Q -> (forall o h', Q o h' -> Q' o h') -> wpt E h t Q'.
Proof. unfold wpt. eauto. Qed.

Lemma wpt_bind {R S} Q h (t : prog R) (k : R -> prog S) :
  wpt E h t (wseqpost Q k) -> wpt E h (ITree.bind t k) Q.
Proof.
  intros W n h' o X. apply exec_bind_inv in X.
  destruct X as [(r & h1 & n1 & n2 & X1 & X2 & _)|(o1 & X1 & D & ->)].
  - apply W in X1. eapply X1; eauto.
  - apply W in X1. destruct o1; cbn in *; auto. discriminate.
Qed.

Lemma wpt_ret {R} (Q : outcome R -> history -> Prop) h r : Q (Done r) h -> wpt E h (Ret r) Q.
Proof. intros H. eapply twp_sound, twp_ret; eauto. Qed.

Lemma wpt_exit {R} (Q : outcome R -> history -> Prop) h n : Q (Exited n) h -> wpt E h (exit_ n) Q.
Proof. intros H. eapply twp_sound, twp_exit; eauto. Qed.

Lemma wpt_sys (Q : outcome reply -> history -> Prop) h c :
  plain c -> (forall r, E h c r -> Q (Done r) (h ++ [(c, r)])) -> wpt E h (sys c) Q.
Proof. intros. eapply twp_sound, twp_sys; eauto. Qed.

Lemma wpt_sysret (Q : outcome Z -> history -> Prop) h c :
  plain c -> (forall r, E h c r -> Q (Done (r_ret r)) (h ++ [(c, r)])) -> wpt E h (sysret c) Q.
Proof. intros. eapply twp_sound, twp_sysret; eauto. Qed.

Lemma wpt_exec (Q : outcome Z -> history -> Prop) h p a :
  (forall r, E h (CExec p a) r -> r_ret r >= 0 -> Q (Replaced p a) (h ++ [(CExec p a, r)])) ->
  (forall r, E h (CExec p a) r -> r_ret r < 0 -> Q (Done (r_ret r)) (h ++ [(CExec p a, r)])) ->
  wpt E h (sysret (CExec p a)) Q.
Proof. intros. eapply twp_sound, twp_exec; eauto. Qed.

(** What one turn of a loop must establish. *)
Definition turnpost {I R} (Inv : I -> history -> Prop) (Q : outcome R -> history -> Prop)
  (o : outcome (I + R)) (h : history) : Prop :=
  match o with
  | Done (inl i) => Inv i h
  | Done (inr r) => Q (Done r) h
  | Exited n => Q (Exited n) h
  | Replaced p a => Q (Replaced p a) h
  | Trapped => Q Trapped h
  end.

Lemma wpt_iter {I R} (body : I -> prog (I + R)) (Q : outcome R -> history -> Prop)
  (Inv : I -> history -> Prop) i h :
  (forall i h, Inv i h -> wpt E h (body i) (turnpost Inv Q)) ->
  Inv i h -> wpt E h (ITree.iter body i) Q.
Proof.
  intros B HI n. revert i h HI. induction n as [n IH] using lt_wf_ind. intros i h HI h' o X.
  eapply exec_view in X; [|apply view_iter].
  apply exec_bind_inv in X. destruct X as [(r & h1 & n1 & n2 & X1 & X2 & L)|(o1 & X1 & D & ->)].
  - apply B in X1; auto. destruct r as [i'|r]; cbn in X1.
    + inv X2; cbn in *; try discriminate.
      match goal with H : NTau _ = NTau _ |- _ => inv H end. eapply IH; [|exact X1|eauto]. lia.
    + inv X2; cbn in *; try discriminate. match goal with H : NRet _ = NRet _ |- _ => inv H end. auto.
  - apply B in X1; auto. destruct o1 as [[|]| | |]; cbn in *; auto; discriminate.
Qed.
End Logic.

(** * Running against a script of replies *)

(** [play n t rs]: the first [n] steps of [t], the kernel answering with the
    replies [rs] in order; [None] when the steps or the replies run out. *)
Fixpoint play {R} (n : nat) (t : prog R) (rs : list reply) : option (history * outcome R) :=
  match n with
  | O => None
  | S n =>
      match view t with
      | NRet r => Some ([], Done r)
      | NTau t' => play n t' rs
      | NSys (CExit s) _ => Some ([], Exited s)
      | NSys CTrap _ => Some ([], Trapped)
      | NSys c k =>
          match rs with
          | [] => None
          | r :: rs =>
              if returning c r
              then match play n (k r) rs with
                   | Some (tr, o) => Some ((c, r) :: tr, o)
                   | None => None
                   end
              else match c with
                   | CExec p a => Some ([(c, r)], Replaced p a)
                   | _ => None
                   end
          end
      end
  end.

(** Every reply of the trace is one the environment allows. *)
Fixpoint allowed (E : env) (h tr : history) : Prop :=
  match tr with
  | [] => True
  | (c, r) :: tr => E h c r /\ allowed E (h ++ [(c, r)]) tr
  end.

Lemma play_exec {R} (E : env) n h (t : prog R) rs tr o :
  play n t rs = Some (tr, o) -> allowed E h tr -> exec E n h t (h ++ tr) o.
Proof.
  revert h t rs tr o. induction n as [|n IH]; cbn; [discriminate|]. intros h t rs tr o P A.
  destruct (view t) as [r|t'|c k] eqn:V.
  - inv P. rewrite app_nil_r. eapply exec_ret; eauto.
  - eapply exec_tau; eauto.
  - assert (X : (exists s, c = CExit s /\ tr = [] /\ o = Exited s) \/
                (c = CTrap /\ tr = [] /\ o = Trapped) \/
                (exists r p a, c = CExec p a /\ tr = [(c, r)] /\ o = Replaced p a /\ r_ret r >= 0) \/
                (exists r rs' tr', returning c r = true /\ tr = (c, r) :: tr' /\
                   play n (k r) rs' = Some (tr', o))).
    { destruct c; try (destruct rs as [|r rs]; [discriminate|]); try (inv P; eauto 10; fail);
        cbn [returning] in P; try (destruct (r_ret r <? 0) eqn:Er);
        try (destruct (play n (k r) rs) as [[tr' o']|] eqn:Pk; [|discriminate]; inv P;
             right; right; right; exists r, rs, tr'; repeat split; auto; cbn; lia);
        inv P. right; right; left. exists r, path, argv. apply Z.ltb_ge in Er. repeat split. lia. }
    destruct X as [(s & -> & -> & ->)|[(-> & -> & ->)|[(r & p & a & -> & -> & -> & Hr)|
      (r & rs' & tr' & Rt & -> & Pk)]]].
    + rewrite app_nil_r. eapply exec_exit; eauto.
    + rewrite app_nil_r. eapply exec_trap; eauto.
    + destruct A. eapply exec_replaced; eauto.
    + destruct A as [A1 A2]. eapply exec_sys; eauto.
      replace (h ++ (c, r) :: tr') with ((h ++ [(c, r)]) ++ tr') by (rewrite <- app_assoc; reflexivity).
      eapply IH; eauto.
Qed.

Lemma allowed_app E h tr tr' : allowed E h tr -> allowed E (h ++ tr) tr' -> allowed E h (tr ++ tr').
Proof.
  revert h. induction tr as [|[c r] tr IH]; cbn; intros h A A'; [rewrite app_nil_r in A'; auto|].
  destruct A as [A1 A2]. split; auto. apply IH; auto. rewrite <- app_assoc. auto.
Qed.

(** What happens during a run is allowed by the environment. *)
Lemma twp_allowed E {R} (Q : outcome R -> history -> Prop) h t :
  twp E Q h t -> twp E (fun o h' => Q o h' /\ exists tr, h' = h ++ tr /\ allowed E h tr) h t.
Proof.
  assert (N : forall h, exists tr : history, h = h ++ tr /\ allowed E h tr)
    by (intros; exists []; rewrite app_nil_r; cbn; auto).
  induction 1 as [h t r V HQ|h t t' V _ IH|h t s k V HQ|h t k V HQ|h t c k V _ IH HR Hx Ht].
  - eapply twp_ret_v; eauto.
  - eapply twp_tau_v; eauto.
  - eapply twp_exit_v; eauto.
  - eapply twp_trap_v; eauto.
  - eapply twp_sys_v; eauto.
    + intros r Er Rt. eapply twp_mono; [apply (IH r Er Rt)|]. intros o h' (HQ & tr & -> & A).
      split; auto. exists ((c, r) :: tr). rewrite <- app_assoc. cbn. auto.
    + intros r p a -> Er Hr. split; [eapply HR; eauto|]. exists [(CExec p a, r)]. cbn. auto.
Qed.

(** * Observations and the contract of the kernel *)

(** The bytes the kernel accepted on descriptor [fd], in order. *)
Definition ev_written (fd : Z) (e : event) : list Z :=
  match e with
  | (CWrite fd' d, r) => if fd' =? fd then firstn (Z.to_nat (r_ret r)) d else []
  | _ => []
  end.
Definition written (fd : Z) (h : history) : list Z := flat_map (ev_written fd) h.

(** The bytes the kernel delivered from descriptor [fd], in order. *)
Definition ev_received (fd : Z) (e : event) : list Z :=
  match e with
  | (CRead fd' _, r) => if fd' =? fd then firstn (Z.to_nat (r_ret r)) (r_out r) else []
  | _ => []
  end.
Definition received (fd : Z) (h : history) : list Z := flat_map (ev_received fd) h.

(** What the system calls promise to every program: a read returns -1 or the
    number of bytes it stored, at most as many as asked for; a write returns -1
    or the number of bytes it took, at most as many as it was given; fork and
    wait return -1 or a process id. *)
Class Contract (E : env) : Prop := {
  ct_read h fd n r : E h (CRead fd n) r -> 0 <= n ->
    -1 <= r_ret r <= n /\ (0 <= r_ret r -> len (r_out r) = r_ret r) /\
    Forall is_byte (r_out r);
  ct_write h fd d r : E h (CWrite fd d) r -> -1 <= r_ret r <= len d;
  ct_fork h r : E h CFork r -> -1 <= r_ret r;
}.

(** The environment that allows exactly what the contract does. *)
Definition xv6 : env := fun _ c r =>
  match c with
  | CRead _ n =>
      0 <= n -> -1 <= r_ret r <= n /\ (0 <= r_ret r -> len (r_out r) = r_ret r) /\
      Forall is_byte (r_out r)
  | CWrite _ d => -1 <= r_ret r <= len d
  | CFork => -1 <= r_ret r
  | _ => True
  end.

#[export] Instance xv6_contract : Contract xv6.
Proof. split; cbn; auto. Qed.

(** Every write is taken whole. *)
Definition full_writes (E : env) : Prop :=
  forall h fd d r, E h (CWrite fd d) r -> r_ret r = len d.

Lemma written_app fd h h' : written fd (h ++ h') = written fd h ++ written fd h'.
Proof. apply flat_map_app. Qed.

Lemma received_app fd h h' : received fd (h ++ h') = received fd h ++ received fd h'.
Proof. apply flat_map_app. Qed.

Lemma written_full fd h d r :
  r_ret r = len d -> written fd (h ++ [(CWrite fd d, r)]) = written fd h ++ d.
Proof.
  intros H. rewrite written_app. cbn. rewrite Z.eqb_refl, H, Nat2Z.id, firstn_all, app_nil_r.
  reflexivity.
Qed.

Lemma plain_write fd d : plain (CWrite fd d). Proof. intros r. reflexivity. Qed.
Lemma plain_read fd n : plain (CRead fd n). Proof. intros r. reflexivity. Qed.
Lemma plain_fork : plain CFork. Proof. intros r. reflexivity. Qed.
Lemma plain_open p m : plain (COpen p m). Proof. intros r. reflexivity. Qed.
Lemma plain_close fd : plain (CClose fd). Proof. intros r. reflexivity. Qed.

Ltac plain_tac := intros ?; reflexivity.

(** One step of a proof in the program logics: the rule is chosen by the shape
    of the program. *)
Ltac tstep :=
  lazymatch goal with
  | |- twp _ _ _ (Ret _) => apply twp_ret
  | |- twp _ _ _ (exit_ _) => apply twp_exit
  | |- twp _ _ _ abort => apply twp_abort
  | |- twp _ _ _ (ITree.bind _ _) => apply twp_bind
  | |- twp _ _ _ (sysret (CExec _ _)) => apply twp_exec; intros ?r ? ?
  | |- twp _ _ _ (sysret _) => apply twp_sysret; [plain_tac|intros ?r ?]
  | |- twp _ _ _ (sys _) => apply twp_sys; [plain_tac|intros ?r ?]
  end; cbn [seqpost].

Ltac wstep :=
  lazymatch goal with
  | |- wpt _ _ (Ret _) _ => apply wpt_ret
  | |- wpt _ _ (exit_ _) _ => apply wpt_exit
  | |- wpt _ _ (ITree.bind _ _) _ => apply wpt_bind
  | |- wpt _ _ (sysret (CExec _ _)) _ => apply wpt_exec; intros ?r ? ?
  | |- wpt _ _ (sysret _) _ => apply wpt_sysret; [plain_tac|intros ?r ?]
  | |- wpt _ _ (sys _) _ => apply wpt_sys; [plain_tac|intros ?r ?]
  end; cbn [wseqpost].

(** What a read delivers, and the special case of one byte. *)
Definition delivered (r : reply) : list Z := firstn (Z.to_nat (r_ret r)) (r_out r).

Lemma received_read fd n h r : received fd (h ++ [(CRead fd n, r)]) = received fd h ++ delivered r.
Proof. rewrite received_app. cbn. rewrite Z.eqb_refl, app_nil_r. reflexivity. Qed.

Lemma delivered_none r : r_ret r <= 0 -> delivered r = [].
Proof. intros. unfold delivered. replace (Z.to_nat (r_ret r)) with 0%nat by lia. reflexivity. Qed.

Lemma read_delivers E (K : Contract E) h fd n r :
  E h (CRead fd n) r -> 0 <= n -> 0 <= r_ret r ->
  delivered r = r_out r /\ len (delivered r) = r_ret r /\ r_ret r <= n /\ Forall is_byte (delivered r).
Proof.
  intros R N P. destruct (ct_read _ _ _ _ R N) as (B & L & F). specialize (L P).
  assert (D : delivered r = r_out r).
  { unfold delivered. rewrite <- L, Nat2Z.id. apply firstn_all. }
  rewrite D. repeat split; auto; lia.
Qed.

Lemma read_one E (K : Contract E) h fd r :
  E h (CRead fd 1) r ->
  (r_ret r < 1 /\ delivered r = []) \/
  (exists c, r_ret r = 1 /\ r_out r = [c] /\ delivered r = [c] /\ is_byte c).
Proof.
  intros R. destruct (Z_lt_dec (r_ret r) 1) as [L|L].
  - left. split; auto. apply delivered_none. lia.
  - right. destruct (read_delivers E K _ _ _ _ R) as (D & Ln & B & F); try lia.
    destruct (delivered r) as [|c [|]]; cbn in Ln; try lia. inv F.
    exists c. repeat split; auto; apply H1.
Qed.

(** * Programs that always make the same calls *)

Definition calls (h : history) : list call := List.map (fun e => Datatypes.fst e) h.

(** [emits E t cs]: from any history, under [E], [t] returns after making
    exactly the calls [cs], whatever the replies. *)
Definition emits (E : env) (t : prog unit) (cs : list call) : Prop :=
  forall h, twp E (fun o h' => o = Done tt /\ calls h' = calls h ++ cs) h t.

Lemma emits_ret E : emits E (Ret tt) [].
Proof. intros h. tstep. rewrite app_nil_r. auto. Qed.

Lemma emits_seq E t t' cs cs' :
  emits E t cs -> emits E t' cs' -> emits E (t ;; t') (cs ++ cs').
Proof.
  intros H H' h. tstep. eapply twp_mono; [apply H|]. intros o h1 (-> & M). cbn [seqpost].
  eapply twp_mono; [apply H'|]. intros o h2 (-> & M'). split; auto.
  rewrite M', M, app_assoc. reflexivity.
Qed.

Lemma emits_call E c : plain c -> emits E (sysret c ;; Ret tt) [c].
Proof.
  intros P h. tstep. apply twp_sysret; auto. intros r Hr. cbn. tstep.
  split; auto. apply map_app.
Qed.

(** The bytes [l] written to [fd] one by one. *)
Definition byte_writes (fd : Z) (l : list Z) : list call := List.map (fun c => CWrite fd [c]) l.

Lemma byte_writes_app fd l l' : byte_writes fd (l ++ l') = byte_writes fd l ++ byte_writes fd l'.
Proof. apply map_app. Qed.

(** When writes are taken whole, the bytes arrive. *)
Lemma written_byte_writes E fd l tr h :
  full_writes E -> calls tr = byte_writes fd l -> allowed E h tr -> written fd tr = l.
Proof.
  intros F. revert h tr. induction l as [|c l IH]; intros h [|[c' r] tr] C A; try discriminate; auto.
  cbn in C, A. injection C as -> C. destruct A as [A1 A2]. apply F in A1.
  change (written fd ((CWrite fd [c], r) :: tr)) with (ev_written fd (CWrite fd [c], r) ++ written fd tr).
  rewrite (IH _ _ C A2). cbn. rewrite Z.eqb_refl, A1. reflexivity.
Qed.

(** Histories only grow. *)
Lemma exec_extends E {R} n h (t : prog R) h' o : exec E n h t h' o -> exists tr, h' = h ++ tr.
Proof.
  induction 1 as [n h t r V|n h t t' h' o V _ IH|n h t s k V|n h t k V|n h t p a k r V Er Hr|
    n h t c k r h' o V Er Rt _ IH]; eauto; try (exists []; rewrite app_nil_r; reflexivity).
  destruct IH as (tr & ->). exists ((c, r) :: tr). rewrite <- app_assoc. reflexivity.
Qed.

Lemma twp_extends E {R} (Q : outcome R -> history -> Prop) h t :
  twp E Q h t -> twp E (fun o h' => Q o h' /\ exists tr, h' = h ++ tr) h t.
Proof.
  intros T. eapply twp_mono; [apply twp_allowed, T|]. intros o h' (HQ & tr & -> & _). eauto.
Qed.

(** The history belongs to a child: it returned 0 from a fork. *)
Definition child (h : history) : Prop := exists r, In (CFork, r) h /\ r_ret r = 0.

Lemma child_wpt E {R} h (t : prog R) (Q : outcome R -> history -> Prop) :
  child h -> (forall o h', child h' -> Q o h') -> wpt E h t Q.
Proof.
  intros (r & I & Z0) H n h' o X. apply exec_extends in X as (tr & ->). apply H.
  exists r. auto using in_or_app.
Qed.

Lemma wpt_extends E {R} (Q : outcome R -> history -> Prop) h t :
  wpt E h t Q -> wpt E h t (fun o h' => Q o h' /\ exists tr, h' = h ++ tr).
Proof. intros W n h' o X. split; [eapply W; eauto|eapply exec_extends; eauto]. Qed.
