(* ===== verification/Ulib.v ===== *)
(** The C library of user programs: src/user/ulib/ulib.c.

    The string and memory routines are functions on [mem]; a loop that stops at
    a NUL takes fuel and answers [None] only when the fuel runs out, and each
    specification says how much is enough.  [gets] and [stat] make system calls
    and are programs. *)

From S2P Require Import Prelude Mem Sys.
From ITree Require Import ITree.
Import ITreeNotations.
Local Open Scope itree_scope.
Local Open Scope zm_scope.

(** * Definitions *)

(** [_main]: the entry point; a [main] that returns exits with status 0. *)
Definition _main (main : prog Z) : prog unit := ITree.bind main (fun _ => exit_ 0).

Fixpoint strcpy_loop (fuel : nat) (m : mem) (s t : Z) : option mem :=
  match fuel with
  | O => None
  | S f =>
      let c := m t in
      let m' := upd m s c in
      if negb (c =? 0) then strcpy_loop f m' (s + 1) (t + 1) else Some m'
  end.

Definition strcpy (fuel : nat) (m : mem) (s t : Z) : option (mem * Z) :=
  match strcpy_loop fuel m s t with
  | Some m' => Some (m', s)
  | None => None
  end.

Fixpoint strcmp (fuel : nat) (m : mem) (p q : Z) : option Z :=
  match fuel with
  | O => None
  | S f =>
      if negb (m p =? 0) && (m p =? m q) then strcmp f m (p + 1) (q + 1)
      else Some (u8 (m p) - u8 (m q))
  end.

Fixpoint strlen_loop (fuel : nat) (m : mem) (s n : Z) : option Z :=
  match fuel with
  | O => None
  | S f => if m (s + n) =? 0 then Some (u32 n) else strlen_loop f m s (s32 (n + 1))
  end.

Definition strlen (fuel : nat) (m : mem) (s : Z) : option Z := strlen_loop fuel m s 0.

Fixpoint memset_loop (fuel : nat) (m : mem) (cdst i c n : Z) : option mem :=
  match fuel with
  | O => None
  | S f =>
      if u32 i <? n then memset_loop f (upd m (cdst + i) (u8 c)) cdst (s32 (i + 1)) c n
      else Some m
  end.

Definition memset (fuel : nat) (m : mem) (dst c n : Z) : option (mem * Z) :=
  match memset_loop fuel m dst 0 c n with
  | Some m' => Some (m', dst)
  | None => None
  end.

Fixpoint strchr (fuel : nat) (m : mem) (s c : Z) : option Z :=
  match fuel with
  | O => None
  | S f => if m s =? 0 then Some 0 else if m s =? c then Some s else strchr f m (s + 1) c
  end.

(** One character read by [gets]: the loop body; [inr] when the loop is left. *)
Definition gets_turn (max : Z) (st : Z * list Z) : prog ((Z * list Z) + (Z * list Z)) :=
  let '(i, buf) := st in
  if i + 1 <? max then
    r <- sys (CRead 0 1) ;;
    if r_ret r <? 1 then Ret (inr (i, buf))
    else
      let c := nth 0 (r_out r) 0 in
      let buf := list_set buf (Z.to_nat i) c in
      let i := i + 1 in
      if (c =? #"010") || (c =? #"013") then Ret (inr (i, buf)) else Ret (inl (i, buf))
  else Ret (inr (i, buf)).

Definition gets (buf : list Z) (max : Z) : prog (list Z) :=
  '(i, buf) <- ITree.iter (gets_turn max) (0, buf) ;;
  Ret (list_set buf (Z.to_nat i) 0).

(** [stat]: the value returned and what fstat stored in [*st]. *)
Definition stat (n : list Z) : prog (Z * list Z) :=
  fd <- sysret (COpen n 0) ;;
  if fd <? 0 then Ret (-1, [])
  else
    r <- sys (CFstat fd) ;;
    _ <- sysret (CClose fd) ;;
    Ret (r_ret r, r_out r).

Fixpoint atoi_loop (fuel : nat) (m : mem) (s n : Z) : option Z :=
  match fuel with
  | O => None
  | S f =>
      if (#"0" <=? m s) && (m s <=? #"9")
      then atoi_loop f m (s + 1) (s32 (n * 10 + m s - #"0"))
      else Some n
  end.

Definition atoi (fuel : nat) (m : mem) (s : Z) : option Z := atoi_loop fuel m s 0.

(** The two copying loops of [memmove], run [k] times. *)
Fixpoint copy_up (k : nat) (m : mem) (dst src : Z) : mem :=
  match k with
  | O => m
  | S k => copy_up k (upd m dst (m src)) (dst + 1) (src + 1)
  end.

Fixpoint copy_down (k : nat) (m : mem) (dst src : Z) : mem :=
  match k with
  | O => m
  | S k => copy_down k (upd m (dst - 1) (m (src - 1))) (dst - 1) (src - 1)
  end.

Definition memmove (m : mem) (vdst vsrc n : Z) : mem :=
  if vdst <? vsrc then copy_up (Z.to_nat n) m vdst vsrc
  else copy_down (Z.to_nat n) m (vdst + n) (vsrc + n).

Fixpoint memcmp_loop (k : nat) (m : mem) (p1 p2 : Z) : Z :=
  match k with
  | O => 0
  | S k => if negb (m p1 =? m p2) then m p1 - m p2 else memcmp_loop k m (p1 + 1) (p2 + 1)
  end.

Definition memcmp (m : mem) (s1 s2 n : Z) : Z := memcmp_loop (Z.to_nat n) m s1 s2.

(** [memcpy] hands its unsigned count to the int parameter of [memmove]. *)
Definition memcpy (m : mem) (dst src n : Z) : mem := memmove m dst src (s32 n).

(** * Reference definitions *)

(** Lexicographic comparison of strings. *)
Fixpoint bcompare (a b : list Z) : comparison :=
  match a, b with
  | [], [] => Eq
  | [], _ :: _ => Lt
  | _ :: _, [] => Gt
  | x :: a, y :: b => match x ?= y with Eq => bcompare a b | c => c end
  end.

(** The sign of an integer result, as a comparison. *)
Definition sign (r : Z) : comparison := r ?= 0.

(** The number written by a list of decimal digits, after [n]. *)
Definition dec_value (n : Z) (ds : list Z) : Z := fold_left (fun n c => n * 10 + (c - #"0")) ds n.

Definition is_digit (c : Z) : bool := (#"0" <=? c) && (c <=? #"9").

(** * Lemmas *)

Lemma bcompare_eq a b : bcompare a b = Eq <-> a = b.
Proof.
  revert b. induction a as [|x a IH]; intros [|y b]; cbn; try (split; congruence).
  destruct (Z.compare_spec x y).
  - subst. rewrite IH. split; congruence.
  - split; [discriminate|intros [= -> ->]; lia].
  - split; [discriminate|intros [= -> ->]; lia].
Qed.

Lemma is_byte_u8 c : is_byte c -> u8 c = c.
Proof. intros. unfold u8. apply Z.mod_small. auto. Qed.

(** [s32 x] differs from [x] by a multiple of 2^32. *)
Lemma s32_shift x k : s32 (x + k * 2 ^ 32) = s32 x.
Proof.
  unfold s32. f_equal. replace (x + k * 2 ^ 32 + 2 ^ 31) with (x + 2 ^ 31 + k * 2 ^ 32) by lia.
  apply Z_mod_plus_full.
Qed.

Lemma s32_split x : exists k, x = s32 x + k * 2 ^ 32.
Proof.
  exists ((x + 2 ^ 31) / 2 ^ 32). unfold s32.
  pose proof (Z.div_mod (x + 2 ^ 31) (2 ^ 32) ltac:(lia)). lia.
Qed.

Lemma s32_add_idemp x y : s32 (s32 x + y) = s32 (x + y).
Proof.
  destruct (s32_split x) as [k K]. rewrite K at 2.
  replace (s32 x + k * 2 ^ 32 + y) with (s32 x + y + k * 2 ^ 32) by lia.
  symmetry. apply s32_shift.
Qed.

Lemma s32_mul_idemp x y : s32 (s32 x * y) = s32 (x * y).
Proof.
  destruct (s32_split x) as [k K]. rewrite K at 2.
  replace ((s32 x + k * 2 ^ 32) * y) with (s32 x * y + k * y * 2 ^ 32) by lia.
  symmetry. apply s32_shift.
Qed.

Lemma strcpy_loop_spec m s t str fuel :
  cstr m t str -> s <= t \/ t + len str < s -> (length str < fuel)%nat ->
  exists m', strcpy_loop fuel m s t = Some m' /\ m' =m= store m s (str ++ [0]).
Proof.
  revert m s t fuel. induction str as [|c str IH]; intros m s t [|fuel] C D F;
    cbn [length] in *; try lia; cbn [strcpy_loop].
  - apply cstr_nil in C. rewrite C. cbn. exists (upd m s 0). split; auto.
    cbn [app]. rewrite store_cons, store_nil. reflexivity.
  - apply cstr_cons in C as (N & Hc & C). rewrite Hc.
    replace (c =? 0) with false by (symmetry; apply Z.eqb_neq; auto). cbn [negb].
    destruct (IH (upd m s c) (s + 1) (t + 1) fuel) as (m' & -> & E); try lia.
    + eapply cstr_ext; [|exact C]. intros x Hx. symmetry. apply upd_ne. lia.
    + exists m'. split; auto. rewrite E. cbn [app]. rewrite store_cons. reflexivity.
Qed.

Lemma memset_loop_spec m dst c n fuel i :
  0 <= i <= n -> n < 2 ^ 31 -> (Z.to_nat (n - i) < fuel)%nat ->
  exists m', memset_loop fuel m dst i c n = Some m' /\
    m' =m= store m (dst + i) (repeat (u8 c) (Z.to_nat (n - i))).
Proof.
  revert m i. induction fuel as [|fuel IH]; intros m i I N F; [lia|]. cbn [memset_loop].
  rewrite u32_small by lia. destruct (Z.ltb_spec i n).
  - rewrite s32_small by lia.
    destruct (IH (upd m (dst + i) (u8 c)) (i + 1)) as (m' & -> & E); try lia.
    exists m'. split; auto. rewrite E.
    replace (Z.to_nat (n - i)) with (S (Z.to_nat (n - (i + 1)))) by lia.
    cbn [repeat]. rewrite store_cons, Z.add_assoc. reflexivity.
  - exists m. split; auto. replace (Z.to_nat (n - i)) with O by lia. cbn. symmetry. apply store_nil.
Qed.

Lemma copy_up_spec k m dst src :
  dst <= src -> copy_up k m dst src =m= store m dst (load m src k).
Proof.
  revert m dst src. induction k as [|k IH]; intros m dst src D; cbn [copy_up load].
  - symmetry. apply store_nil.
  - rewrite IH by lia. rewrite store_cons. erewrite load_ext; [reflexivity|].
    intros x Hx. apply upd_ne. lia.
Qed.

Lemma copy_down_spec k m dst src :
  src <= dst ->
  copy_down k m (dst + Z.of_nat k) (src + Z.of_nat k) =m= store m dst (load m src k).
Proof.
  revert m. induction k as [|k IH]; intros m D; cbn [copy_down].
  - cbn. symmetry. apply store_nil.
  - replace (dst + Z.of_nat (S k) - 1) with (dst + Z.of_nat k) by lia.
    replace (src + Z.of_nat (S k) - 1) with (src + Z.of_nat k) by lia.
    rewrite IH by lia. rewrite <- (Nat.add_1_r k), (load_app m). cbn [load].
    rewrite store_snoc, load_length.
    erewrite (load_ext (upd _ _ _)); [|intros x Hx; apply upd_ne; lia].
    intros x. unfold upd, store. rewrite load_length.
    destruct (Z.leb_spec dst x), (Z.ltb_spec x (dst + Z.of_nat k)), (Z.eqb_spec x (dst + Z.of_nat k));
      cbn; auto; lia.
Qed.

Lemma memcmp_loop_spec k m p q :
  sign (memcmp_loop k m p q) = bcompare (load m p k) (load m q k).
Proof.
  revert p q. induction k as [|k IH]; intros p q; cbn; auto.
  destruct (Z.eqb_spec (m p) (m q)) as [->|N]; cbn [negb].
  - rewrite IH, Z.compare_refl. reflexivity.
  - unfold sign. destruct (Z.compare_spec (m p) (m q)), (Z.compare_spec (m p - m q) 0); auto; lia.
Qed.

Lemma strlen_loop_spec m s str fuel n :
  cstr m (s + n) str -> 0 <= n -> n + len str < 2 ^ 31 -> (length str < fuel)%nat ->
  strlen_loop fuel m s n = Some (n + len str).
Proof.
  revert fuel n. induction str as [|c str IH]; intros [|fuel] n C N B F; cbn [length] in *; try lia;
    cbn [strlen_loop].
  - apply cstr_nil in C. rewrite C. cbn. rewrite u32_small by lia. f_equal. lia.
  - apply cstr_cons in C as (Nc & Hc & C). rewrite Hc.
    replace (c =? 0) with false by (symmetry; apply Z.eqb_neq; auto).
    rewrite s32_small by lia. rewrite IH; try lia.
    + f_equal. lia.
    + replace (s + (n + 1)) with (s + n + 1) by lia. auto.
Qed.

Lemma atoi_loop_spec m s ds rest fuel n :
  load m s (length ds + 1) = ds ++ [rest] -> forallb is_digit ds = true -> is_digit rest = false ->
  (length ds < fuel)%nat -> atoi_loop fuel m s (s32 n) = Some (s32 (dec_value n ds)).
Proof.
  revert fuel s n. induction ds as [|d ds IH]; intros [|fuel] s n L D R F; cbn [length] in *; try lia;
    cbn [atoi_loop].
  - cbn in L. injection L as ->. unfold is_digit in R. rewrite R. reflexivity.
  - cbn in L. injection L as Ld L. cbn in D. apply andb_prop in D as [D0 D]. rewrite Ld.
    unfold is_digit in D0. rewrite D0.
    replace (s32 (s32 n * 10 + d - #"0")) with (s32 (n * 10 + (d - #"0"))).
    + apply IH; auto. lia.
    + rewrite <- (s32_add_idemp (n * 10)), <- (s32_mul_idemp n 10), s32_add_idemp. f_equal. lia.
Qed.

(** * Theorems *)

(** [memmove] copies correctly whatever the overlap of the two regions:
    afterwards the destination holds the [n] bytes that were at the source
    before the call, and every other byte of memory is unchanged. *)
Theorem memmove_overlap m vdst vsrc n :
  memmove m vdst vsrc n =m= store m vdst (load m vsrc (Z.to_nat n)).
Proof.
  unfold memmove. destruct (Z.ltb_spec vdst vsrc) as [L|L].
  - apply copy_up_spec. lia.
  - destruct (Z_le_dec 0 n) as [P|P].
    + rewrite <- (Z2Nat.id n P) at 2 3. apply copy_down_spec. lia.
    + replace (Z.to_nat n) with O by lia. cbn. symmetry. apply store_nil.
Qed.

(** [strcpy] copies the string with its NUL when the destination does not
    start inside the source string after its first byte; it returns its first
    argument, and [length str + 1] iterations are enough. *)
Theorem strcpy_copies m s t str fuel :
  cstr m t str -> s <= t \/ t + len str < s -> (length str < fuel)%nat ->
  exists m', strcpy fuel m s t = Some (m', s) /\ m' =m= store m s (str ++ [0]) /\
    cstr m' s str.
Proof.
  intros C D F. destruct (strcpy_loop_spec m s t str fuel C D F) as (m' & L & E).
  exists m'. unfold strcpy. rewrite L. split; [|split]; auto.
  rewrite E. apply cstr_store. apply C.
Qed.

Lemma strcpy_copies_witness : exists m', strcpy 3 (mem_of 100 [104; 105]) 200 100 = Some (m', 200) /\
  m' =m= store (mem_of 100 [104; 105]) 200 ([104; 105] ++ [0]) /\ cstr m' 200 [104; 105].
Proof.
  apply strcpy_copies.
  - apply cstr_mem_of. repeat constructor; discriminate.
  - right. cbn. lia.
  - cbn. lia.
Defined.

(** [strcmp] orders strings: its result is zero exactly on equal strings,
    negative when the first comes before the second in lexicographic order of
    bytes and positive when it comes after. *)
Theorem strcmp_order m p q a b fuel :
  cstr m p a -> cstr m q b -> Forall is_byte a -> Forall is_byte b -> (length a < fuel)%nat ->
  exists r, strcmp fuel m p q = Some r /\ sign r = bcompare a b /\ (r = 0 <-> a = b).
Proof.
  intros Ca Cb Ba Bb F.
  assert (exists r, strcmp fuel m p q = Some r /\ sign r = bcompare a b) as (r & Hr & Hs).
  { revert p q b fuel Ca Cb Bb F. induction Ba as [|x a Bx Ba IH]; intros p q b [|fuel] Ca Cb Bb F;
      cbn [length] in *; try lia; cbn [strcmp].
    - apply cstr_nil in Ca. rewrite Ca. cbn [Z.eqb negb andb]. eexists. split; [reflexivity|].
      destruct b as [|y b].
      + apply cstr_nil in Cb. rewrite Cb. reflexivity.
      + apply cstr_cons in Cb as (N & -> & _). inv Bb. change (u8 0) with 0.
        rewrite is_byte_u8 by auto. unfold is_byte in *. unfold sign. apply Z.compare_lt_iff. lia.
    - apply cstr_cons in Ca as (N & Hx & Ca). rewrite Hx.
      destruct (Z.eqb_spec x 0) as [->|_]; [congruence|]. cbn [negb andb].
      destruct b as [|y b].
      + apply cstr_nil in Cb. rewrite Cb. destruct (Z.eqb_spec x 0); [congruence|].
        eexists. split; [reflexivity|]. rewrite is_byte_u8 by auto. unfold is_byte in *.
        unfold sign. apply Z.compare_gt_iff. change (u8 0) with 0. lia.
      + apply cstr_cons in Cb as (N' & Hy & Cb). rewrite Hy.
        apply Forall_cons_iff in Bb as [By Bb]. cbn [bcompare].
        destruct (Z.eqb_spec x y) as [<-|NE].
        * rewrite Z.compare_refl. apply IH; auto. lia.
        * eexists. split; [reflexivity|]. rewrite !is_byte_u8 by auto. unfold sign.
          destruct (Z.compare_spec x y), (Z.compare_spec (x - y) 0); auto; lia. }
  exists r. split; [|split]; auto. rewrite <- bcompare_eq, <- Hs. unfold sign.
  symmetry. apply Z.compare_eq_iff.
Qed.

Lemma strcmp_order_witness :
  exists r, strcmp 3 (store (mem_of 100 [97; 98]) 200 [97; 99]) 100 200 = Some r /\
    sign r = bcompare [97; 98] [97; 99] /\ (r = 0 <-> [97; 98] = [97; 99]).
Proof.
  apply strcmp_order.
  - apply cstr_ext with (mem_of 100 [97; 98]).
    + intros x Hx. symmetry. apply store_out. cbn in *. lia.
    + apply cstr_mem_of. repeat constructor; discriminate.
  - split; [repeat constructor; discriminate|]. split; reflexivity.
  - repeat constructor; discriminate.
  - repeat constructor; discriminate.
  - cbn. lia.
Defined.

Lemma atoi_digits m s ds rest fuel :
  load m s (length ds + 1) = ds ++ [rest] -> forallb is_digit ds = true -> is_digit rest = false ->
  (length ds < fuel)%nat ->
  atoi fuel m s = Some (s32 (dec_value 0 ds)) /\
  (dec_value 0 ds < 2 ^ 31 -> atoi fuel m s = Some (dec_value 0 ds)).
Proof.
  intros L D R F. pose proof (atoi_loop_spec m s ds rest fuel 0 L D R F) as A.
  rewrite s32_small in A by lia. unfold atoi. split; auto. intros B. rewrite A, s32_small; auto.
  split; auto. enough (forall n, 0 <= n -> 0 <= dec_value n ds) by (specialize (H 0); lia).
  clear -D. induction ds as [|d ds IH]; cbn in *; auto. intros n N. apply andb_prop in D as [D0 D].
  unfold is_digit in D0. breflect. apply IH; auto. lia.
Qed.

(** The leading digits of a string. *)
Fixpoint digit_prefix (str : list Z) : list Z :=
  match str with
  | c :: str => if is_digit c then c :: digit_prefix str else []
  | [] => []
  end.

Lemma digit_prefix_split str :
  exists rest, str ++ [0] = digit_prefix str ++ rest /\ is_digit (hd 0 rest) = false /\
    rest <> [] /\ forallb is_digit (digit_prefix str) = true.
Proof.
  induction str as [|c str (rest & E & H & N & F)]; [exists [0]; repeat split; discriminate|].
  cbn [digit_prefix]. destruct (is_digit c) eqn:D.
  - exists rest. cbn. rewrite E, D, F. auto.
  - exists ((c :: str) ++ [0]). repeat split; auto. discriminate.
Qed.

Lemma atoi_prefix m s str fuel :
  cstr m s str -> (length str < fuel)%nat ->
  atoi fuel m s = Some (s32 (dec_value 0 (digit_prefix str))).
Proof.
  intros (_ & L & Z0) F. destruct (digit_prefix_split str) as (rest & E & H & N & D).
  destruct rest as [|r rest]; [congruence|]. apply (atoi_digits m s _ r fuel); auto.
  - assert (W : load m s (length str + 1) = str ++ [0]) by (rewrite load_app, L; cbn; congruence).
    rewrite E in W. assert (Ln : (length str + 1 = length (digit_prefix str) + 1 + length rest)%nat).
    { apply (f_equal (@length Z)) in E. rewrite !length_app in E. cbn in E. lia. }
    rewrite Ln, load_app in W. change (r :: rest) with ([r] ++ rest) in W. rewrite app_assoc in W.
    apply app_inj_len in W; [tauto|]. rewrite load_length, length_app. reflexivity.
  - apply (f_equal (@length Z)) in E. rewrite !length_app in E. cbn in E. lia.
Qed.

Lemma dec_value_nonneg n ds : 0 <= n -> forallb is_digit ds = true -> 0 <= dec_value n ds.
Proof.
  revert n. induction ds as [|d ds IH]; cbn; auto. intros n N D. apply andb_prop in D as [D0 D].
  unfold is_digit in D0. breflect. apply IH; auto. lia.
Qed.

(** [atoi] of any string gives the number its leading digits write, reduced
    to an int (0 when it starts with something else, a sign included): exactly
    that number when it is below 2^31. *)
Theorem atoi_value m s str fuel :
  cstr m s str -> (length str < fuel)%nat ->
  atoi fuel m s = Some (s32 (dec_value 0 (digit_prefix str))) /\
  (dec_value 0 (digit_prefix str) < 2 ^ 31 ->
   atoi fuel m s = Some (dec_value 0 (digit_prefix str))).
Proof.
  intros C F. rewrite (atoi_prefix m s str fuel C F). split; auto. intros B.
  destruct (digit_prefix_split str) as (_ & _ & _ & _ & D).
  rewrite s32_small; auto. pose proof (dec_value_nonneg 0 _ ltac:(lia) D). lia.
Qed.

Lemma atoi_value_witness :
  atoi 9 (mem_of 64 ($"2048 b")) 64 = Some (s32 (dec_value 0 (digit_prefix ($"2048 b")))) /\
  (dec_value 0 (digit_prefix ($"2048 b")) < 2 ^ 31 ->
   atoi 9 (mem_of 64 ($"2048 b")) 64 = Some (dec_value 0 (digit_prefix ($"2048 b")))).
Proof.
  apply atoi_value; [apply cstr_mem_of; repeat constructor; discriminate|cbn; lia].
Defined.

(** [strchr] finds the first occurrence of [c] before the NUL and answers
    its address; it answers the null pointer when there is none, in particular
    when [c] is itself NUL. *)
Lemma strchr_first m s c str fuel :
  cstr m s str -> (length str < fuel)%nat ->
  (exists pre post, str = pre ++ c :: post /\ ~ In c pre /\ strchr fuel m s c = Some (s + len pre)) \/
  (~ In c str /\ strchr fuel m s c = Some 0).
Proof.
  revert s fuel. induction str as [|x str IH]; intros s [|fuel] C F; cbn [length] in *; try lia;
    cbn [strchr].
  - apply cstr_nil in C. rewrite C. right. auto.
  - apply cstr_cons in C as (N & Hx & C). rewrite Hx.
    replace (x =? 0) with false by (symmetry; apply Z.eqb_neq; auto).
    destruct (Z.eqb_spec x c) as [->|NE].
    + left. exists [], str. cbn. rewrite Z.add_0_r. auto.
    + destruct (IH (s + 1) fuel C ltac:(lia)) as [(pre & post & -> & Hp & ->)|[Hn ->]].
      * left. exists (x :: pre), post. cbn [length In]. repeat split; [tauto|f_equal; lia].
      * right. cbn. tauto.
Qed.

Definition is_eol (c : Z) : bool := (c =? #"010") || (c =? #"013").

(** A line as [gets] reads it: an end of line only as its last character. *)
Definition one_line (l : list Z) : Prop :=
  forall i, (S i < length l)%nat -> is_eol (nth i l 0) = false.

Definition no_eol (l : list Z) : Prop := Forall (fun c => is_eol c = false) l.

Lemma no_eol_one_line l : no_eol l -> one_line l.
Proof. intros H i Hi. apply (proj1 (Forall_nth _ _) H). lia. Qed.

Lemma no_eol_snoc l c : no_eol l -> one_line (l ++ [c]).
Proof.
  intros H i Hi. autorewrite with zmlen in Hi. cbn in Hi. rewrite app_nth1 by lia.
  apply (proj1 (Forall_nth _ _) H). lia.
Qed.

(** [tr] is a run of one-byte reads of descriptor 0 that delivered [line]. *)
Definition reads_line (tr : history) (line : list Z) : Prop :=
  Forall (fun e => Datatypes.fst e = CRead 0 1) tr /\ received 0 tr = line /\ Forall is_byte line.

Lemma reads_snoc tr line r :
  reads_line tr line -> Forall is_byte (delivered r) ->
  reads_line (tr ++ [(CRead 0 1, r)]) (line ++ delivered r).
Proof.
  intros (F & R & B) D. split; [apply Forall_app; auto|]. rewrite received_read, R, Forall_app. auto.
Qed.

Section Gets.
Context (E : env) {K : Contract E}.
Context (h0 : history) (buf0 : list Z) (max : Z).
Hypothesis Hmax : 1 <= max.
Hypothesis Hlen : length buf0 = Z.to_nat max.

(** The array after [line] has been stored at its beginning. *)
Definition gets_buf (line : list Z) : list Z := line ++ skipn (length line) buf0.

Lemma gets_buf_set line c :
  (length line < length buf0)%nat ->
  list_set (gets_buf line) (length line) c = gets_buf (line ++ [c]).
Proof.
  intros L. unfold gets_buf. rewrite (skipn_nth_cons _ _ 0) by auto.
  rewrite length_app. cbn [length]. rewrite Nat.add_1_r, <- app_assoc. cbn [app].
  clear L. generalize (skipn (S (length line)) buf0). generalize (nth (length line) buf0 0).
  intros z l. induction line; cbn; f_equal; auto.
Qed.

(** The loop invariant of [gets]. *)
Definition gets_inv (st : Z * list Z) (h : history) : Prop :=
  exists line, st = (len line, gets_buf line) /\ len line + 1 <= max /\ no_eol line /\
    exists tr, h = h0 ++ tr /\ reads_line tr line.

Definition gets_post (o : outcome (Z * list Z)) (h : history) : Prop :=
  exists line, o = Done (len line, gets_buf line) /\ len line + 1 <= max /\ one_line line /\
    exists tr, h = h0 ++ tr /\ reads_line tr line.

Lemma gets_turn_spec i b h :
  gets_inv (i, b) h ->
  twp E (fun o h' => match o with
                     | Done (inl (i', b')) => gets_inv (i', b') h' /\
                         (Z.to_nat (max - i') < Z.to_nat (max - i))%nat
                     | Done (inr r) => gets_post (Done r) h'
                     | _ => False
                     end) h (gets_turn max (i, b)).
Proof.
  intros (line & [= -> ->] & L & N & tr & -> & R). unfold gets_turn.
  assert (Stop : forall tr, reads_line tr line -> gets_post (Done (len line, gets_buf line)) (h0 ++ tr)).
  { exists line. repeat split; auto using no_eol_one_line. exists tr0. auto. }
  destruct (Z.ltb_spec (len line + 1) max); [|tstep; auto].
  tstep. tstep. pose proof (reads_snoc tr line r R) as R'. rewrite <- app_assoc.
  destruct (read_one E K _ _ _ H0) as [[Lt D]|(c & O1 & Out & D & Bc)]; rewrite D in R'.
  { specialize (R' (Forall_nil _)). rewrite app_nil_r in R'.
    rewrite (proj2 (Z.ltb_lt _ _) Lt). tstep. apply Stop. auto. }
  specialize (R' (Forall_cons _ Bc (Forall_nil _))).
  rewrite O1, Out. cbn [Z.ltb Z.compare Pos.compare Pos.compare_cont nth].
  rewrite Nat2Z.id, gets_buf_set by lia. replace (len line + 1) with (len (line ++ [c])) by len_solve.
  destruct ((c =? #"010") || (c =? #"013")) eqn:Eol; tstep.
  - exists (line ++ [c]). split; auto. split; [len_solve|]. split; [apply no_eol_snoc; auto|eauto].
  - split; [|len_solve]. exists (line ++ [c]). split; auto. split; [len_solve|]. split; [|eauto].
    apply Forall_app. split; auto.
Qed.
End Gets.

Lemma gets_spec E (K : Contract E) h buf max :
  1 <= max -> length buf = Z.to_nat max ->
  twp E (fun o h' => exists line tr,
           o = Done (line ++ 0 :: skipn (S (length line)) buf) /\ len line < max /\
           one_line line /\ h' = h ++ tr /\ reads_line tr line)
    h (gets buf max).
Proof.
  intros M L. unfold gets. tstep.
  apply twp_mono with (Q := gets_post h buf max).
  - apply (twp_iter E _ _ (gets_inv h buf max) (fun st _ => Z.to_nat (max - fst st))).
    + intros [i b] h' I. eapply twp_mono; [apply gets_turn_spec; eauto|].
      intros [[[i' b']|r]|s|p a|] h''; cbn; tauto.
    + exists []. split; [reflexivity|]. split; [cbn; lia|]. split; [constructor|].
      exists []. rewrite app_nil_r. repeat split; constructor.
  - intros o h' (line & -> & B & N & tr & -> & R). cbn [seqpost]. tstep. exists line, tr.
    rewrite Nat2Z.id, gets_buf_set by lia. unfold gets_buf.
    autorewrite with zmlen. rewrite Nat.add_1_r, <- app_assoc. cbn [app].
    split; [auto|]. split; [lia|auto].
Qed.

(** [gets] always ends, whatever the kernel answers; it stores at the start
    of the buffer exactly the bytes it read from descriptor 0 followed by a
    NUL, leaves the rest of the buffer unchanged and never writes outside its
    [max] bytes; it reads one byte at a time, makes no other call, and reads
    nothing after an end of line. *)
Theorem gets_line E (K : Contract E) h buf max :
  1 <= max -> length buf = Z.to_nat max ->
  twp E (fun o h' => exists line tr,
           o = Done (line ++ 0 :: skipn (S (length line)) buf) /\ len line < max /\
           one_line line /\ h' = h ++ tr /\ reads_line tr line)
    h (gets buf max).
Proof. apply gets_spec; auto. Qed.

Lemma gets_line_witness :
  twp xv6 (fun o h' => exists line tr,
           o = Done (line ++ 0 :: skipn (S (length line)) (repeat 7 4)) /\ len line < 4 /\
           one_line line /\ h' = [] ++ tr /\ reads_line tr line)
    [] (gets (repeat 7 4) 4).
Proof. apply gets_line; [apply xv6_contract|lia|reflexivity]. Defined.

(** A concrete run: two characters, an end of line, and a byte left unread. *)
Example gets_run :
  play 20 (gets (repeat 7 5) 5) [Reply 1 [104]; Reply 1 [105]; Reply 1 [10]; Reply 1 [120]] =
  Some ([(CRead 0 1, Reply 1 [104]); (CRead 0 1, Reply 1 [105]); (CRead 0 1, Reply 1 [10])],
        Done [104; 105; 10; 0; 7]).
Proof. reflexivity. Qed.
