(* ===== verification/Printf.v ===== *)
(** Formatted output: src/user/ulib/printf.c, and the [printf] of
    src/user/ulib/ulog.zig that the C programs are linked with.

    [vprintf] writes one byte per system call; [vformat] is the text it is meant
    to produce.  The Zig [printf] writes a whole conversion per call and stops
    the process when a write is not taken whole. *)

From S2P Require Import Prelude Mem Sys Ulib.
From ITree Require Import ITree.
Import ITreeNotations.
Local Open Scope itree_scope.
Local Open Scope zm_scope.

(** * src/user/ulib/printf.c *)

Definition digits : list Z := $"0123456789ABCDEF".

Definition putc (fd c : Z) : prog unit := sysret (CWrite fd [u8 c]) ;; Ret tt.

(** The do-while of [printint]: [buf] holds the characters stored so far, its
    length is the index [i]. *)
Fixpoint printint_loop (fuel : nat) (x base : Z) (buf : list Z) : option (list Z) :=
  match fuel with
  | O => None
  | S f =>
      let buf := buf ++ [nth (Z.to_nat (x mod base)) digits 0] in
      let x := x / base in
      if negb (x =? 0) then printint_loop f x base buf else Some buf
  end.

(** The contents of [buf] when the digits are all stored; 32 iterations are
    enough for any base from 2. *)
Definition printint_buf (xx base : Z) (sgn : bool) : option (list Z) :=
  let neg := sgn && (xx <? 0) in
  let x := u32 (if neg then - xx else xx) in
  match printint_loop 32 x base [] with
  | Some buf => Some (if neg then buf ++ [#"-"] else buf)
  | None => None
  end.

(** [while(--i >= 0) putc(fd, buf[i])]. *)
Fixpoint put_down (fd : Z) (buf : list Z) (i : nat) : prog unit :=
  match i with
  | O => Ret tt
  | S i => putc fd (nth i buf 0) ;; put_down fd buf i
  end.

Definition printint (fd xx base : Z) (sgn : bool) : prog unit :=
  match printint_buf xx base sgn with
  | Some buf => put_down fd buf (length buf)
  | None => abort
  end.

Fixpoint printptr_loop (fd : Z) (n : nat) (x : Z) : prog unit :=
  match n with
  | O => Ret tt
  | S n => putc fd (nth (Z.to_nat (Z.shiftr x (64 - 4))) digits 0) ;;
           printptr_loop fd n (u64 (Z.shiftl x 4))
  end.

Definition printptr (fd x : Z) : prog unit :=
  putc fd (#"0") ;; putc fd (#"x") ;; printptr_loop fd 16 x.

(** An argument after the format: an integer as the caller passed it, or a
    pointer to a string ([None] for the null pointer). *)
Variant arg : Type :=
| AInt (v : Z)
| AStr (s : option (list Z)).

Fixpoint putstr (fd : Z) (s : list Z) : prog unit :=
  match s with
  | [] => Ret tt
  | c :: s => putc fd c ;; putstr fd s
  end.

(** [vprintf]: [pct] is the state, true after a percent sign. A conversion whose
    argument is missing or of another kind is undefined behaviour: [abort]. *)
Fixpoint vprintf (fd : Z) (fmt : list Z) (pct : bool) (ap : list arg) : prog unit :=
  match fmt with
  | [] => Ret tt
  | c :: fmt =>
      if negb pct then
        if c =? #"%" then vprintf fd fmt true ap
        else putc fd c ;; vprintf fd fmt false ap
      else if c =? #"d" then
        match ap with
        | AInt v :: ap => printint fd (s32 v) 10 true ;; vprintf fd fmt false ap
        | _ => abort
        end
      else if c =? #"l" then
        match ap with
        | AInt v :: ap => printint fd (s32 (u64 v)) 10 false ;; vprintf fd fmt false ap
        | _ => abort
        end
      else if c =? #"x" then
        match ap with
        | AInt v :: ap => printint fd (s32 v) 16 false ;; vprintf fd fmt false ap
        | _ => abort
        end
      else if c =? #"p" then
        match ap with
        | AInt v :: ap => printptr fd (u64 v) ;; vprintf fd fmt false ap
        | _ => abort
        end
      else if c =? #"s" then
        match ap with
        | AStr s :: ap =>
            putstr fd (match s with None => $"(null)" | Some s => s end) ;;
            vprintf fd fmt false ap
        | _ => abort
        end
      else if c =? #"c" then
        match ap with
        | AInt v :: ap => putc fd (u32 v) ;; vprintf fd fmt false ap
        | _ => abort
        end
      else if c =? #"%" then putc fd c ;; vprintf fd fmt false ap
      else putc fd (#"%") ;; putc fd c ;; vprintf fd fmt false ap
  end.

Definition fprintf (fd : Z) (fmt : list Z) (ap : list arg) : prog unit := vprintf fd fmt false ap.

(** * The text a format stands for *)

(** Numerals, most significant digit first. *)
Fixpoint numeral (fuel : nat) (tbl : list Z) (base n : Z) : list Z :=
  match fuel with
  | O => []
  | S f =>
      (if n / base =? 0 then [] else numeral f tbl base (n / base)) ++
      [nth (Z.to_nat (n mod base)) tbl 0]
  end.

Definition signed_text (tbl : list Z) (base v : Z) : list Z :=
  (if v <? 0 then [#"-"] else []) ++ numeral 32 tbl base (Z.abs v).

Fixpoint hex16 (n : nat) (x : Z) : list Z :=
  match n with
  | O => []
  | S n => nth (Z.to_nat (x / 16 ^ Z.of_nat n mod 16)) digits 0 :: hex16 n x
  end.

(** One conversion of printf.c: its text, from its letter and its argument. *)
Definition convert (c : Z) (a : arg) : option (list Z) :=
  match a with
  | AInt v =>
      if c =? #"d" then Some (signed_text digits 10 (s32 v))
      else if c =? #"l" then Some (numeral 32 digits 10 (u32 v))
      else if c =? #"x" then Some (numeral 32 digits 16 (u32 v))
      else if c =? #"p" then Some ([#"0"; #"x"] ++ hex16 16 (u64 v))
      else if c =? #"c" then Some [u8 v]
      else None
  | AStr s => if c =? #"s" then Some (match s with None => $"(null)" | Some s => s end) else None
  end.

Definition is_conv (c : Z) : bool :=
  (c =? #"d") || (c =? #"l") || (c =? #"x") || (c =? #"p") || (c =? #"c") || (c =? #"s").

(** The text of a format with its arguments; [None] when they do not fit. *)
Fixpoint vformat (fmt : list Z) (ap : list arg) : option (list Z) :=
  match fmt with
  | [] => Some []
  | c :: fmt =>
      if c =? #"%" then
        match fmt with
        | [] => Some []
        | d :: fmt =>
            if is_conv d then
              match ap with
              | a :: ap =>
                  match convert d a, vformat fmt ap with
                  | Some t, Some u => Some (t ++ u)
                  | _, _ => None
                  end
              | [] => None
              end
            else option_map (fun u => (if d =? #"%" then [d] else [c; d]) ++ u) (vformat fmt ap)
        end
      else option_map (cons c) (vformat fmt ap)
  end.

(** A format made of bytes. *)
Definition bytes (l : list Z) : Prop := Forall is_byte l.
Definition arg_ok (a : arg) : Prop := match a with AStr (Some s) => bytes s | _ => True end.

(** * src/user/ulib/ulog.zig

    The library's own code calls [@panic] on an error, which is a trap in this
    freestanding build. The text of ["{p}"] is the Zig library's. *)

Section ZigPrintf.
Variable fmt_ptr : Z -> list Z.

Definition lower_digits : list Z := $"0123456789abcdef".

(** [sys.write(1, buf) catch @panic(..)]: user.zig reports a short write as an error. *)
Definition zwrite (data : list Z) : prog unit :=
  n <- sysret (CWrite 1 data) ;;
  if (n <? 0) || (n <? len data) then abort else Ret tt.

(** [print]: the text must fit the 512-byte buffer. *)
Definition zprint (text : list Z) : prog unit :=
  if 512 <? len text then abort else zwrite text.

Fixpoint zprintf_loop (fmt : list Z) (ap : list arg) : prog unit :=
  match fmt with
  | [] => Ret tt
  | byte :: fmt =>
      if negb (byte =? #"%") then zwrite [byte] ;; zprintf_loop fmt ap
      else
        match fmt with
        | [] => Ret tt
        | ch :: fmt =>
            if ch =? #"d" then
              match ap with
              | AInt v :: ap => zprint (signed_text lower_digits 10 (s32 v)) ;; zprintf_loop fmt ap
              | _ => abort
              end
            else if ch =? #"x" then
              match ap with
              | AInt v :: ap => zprint (signed_text lower_digits 16 (s32 v)) ;; zprintf_loop fmt ap
              | _ => abort
              end
            else if ch =? #"p" then
              match ap with
              | AInt v :: ap => zprint (fmt_ptr (u64 v)) ;; zprintf_loop fmt ap
              | _ => abort
              end
            else if ch =? #"s" then
              match ap with
              | AStr (Some s) :: ap => zprint s ;; zprintf_loop fmt ap
              | _ => abort
              end
            else if ch =? #"%" then zwrite [#"%"] ;; zprintf_loop fmt ap
            else zwrite [#"%"] ;; zwrite [ch] ;; zprintf_loop fmt ap
        end
  end.

Definition printf (fmt : list Z) (ap : list arg) : prog unit :=
  match fmt with
  | [] => abort
  | _ => zprintf_loop fmt ap
  end.
End ZigPrintf.

(** * Numerals *)

(** The value of a digit character of either table, and of a numeral. *)
Definition digit_val (c : Z) : Z :=
  if c <=? #"9" then c - #"0" else if c <=? #"F" then c - 55 else c - 87.

Definition value (base n : Z) (ds : list Z) : Z :=
  fold_left (fun n c => n * base + digit_val c) ds n.

Lemma value_app base n l l' : value base n (l ++ l') = value base (value base n l) l'.
Proof. apply fold_left_app. Qed.

(** A table of sixteen characters whose values are their indices. *)
Definition good_table (tbl : list Z) : Prop :=
  forall i, 0 <= i < 16 ->
    digit_val (nth (Z.to_nat i) tbl 0) = i /\ is_byte (nth (Z.to_nat i) tbl 0) /\
    (i < 10 -> nth (Z.to_nat i) tbl 0 = #"0" + i).

Lemma good_by_cases (tbl : list Z) :
  forallb (fun k => let c := nth k tbl 0 in
     (digit_val c =? Z.of_nat k) && ((0 <=? c) && (c <? 256)) &&
     ((10 <=? Z.of_nat k) || (c =? #"0" + Z.of_nat k))) (seq 0 16) = true -> good_table tbl.
Proof.
  intros H i Hi. rewrite forallb_forall in H. specialize (H (Z.to_nat i)).
  rewrite Z2Nat.id in H by lia. cbn zeta in H.
  assert (In (Z.to_nat i) (seq 0 16)) as Hin by (apply in_seq; lia).
  apply H in Hin. breflect. split; [auto|]. split; [split; auto|].
  intros L. match goal with H : _ \/ _ |- _ => destruct H; breflect; [lia|auto] end.
Qed.

Lemma digits_good : good_table digits.
Proof. apply good_by_cases. reflexivity. Qed.

Lemma lower_digits_good : good_table lower_digits.
Proof. apply good_by_cases. reflexivity. Qed.

Section Numeral.
Context (tbl : list Z) (Ht : good_table tbl) (base : Z) (Hb : 2 <= base <= 16).

Lemma mod_digit n : 0 <= n mod base < 16.
Proof. pose proof (Z.mod_pos_bound n base). lia. Qed.

Lemma half_smaller n f : 0 <= n < 2 ^ Z.of_nat (S f) -> 0 <= n / base < 2 ^ Z.of_nat f.
Proof.
  intros N. rewrite Nat2Z.inj_succ, Z.pow_succ_r in N by lia.
  split; [apply Z.div_pos; lia|]. apply Z.div_lt_upper_bound; [lia|]. nia.
Qed.

Lemma numeral_value f n : 0 <= n < 2 ^ Z.of_nat f -> value base 0 (numeral f tbl base n) = n.
Proof.
  revert n. induction f as [|f IH]; intros n N; [cbn in *; lia|].
  cbn [numeral]. rewrite value_app. cbn.
  rewrite (proj1 (Ht _ (mod_digit n))).
  pose proof (Z.div_mod n base ltac:(lia)). pose proof (half_smaller n f N).
  destruct (Z.eqb_spec (n / base) 0) as [Z0|]; [cbn; lia|].
  rewrite IH by auto. lia.
Qed.

Lemma numeral_bytes f n : bytes (numeral f tbl base n).
Proof.
  revert n. induction f as [|f IH]; intros n; cbn; [constructor|].
  apply Forall_app. split; [|repeat constructor; apply (Ht _ (mod_digit n))].
  destruct (_ =? 0); [constructor|apply IH].
Qed.

(** No leading zero, except in the numeral of zero. *)
Lemma numeral_head f n :
  0 < n < 2 ^ Z.of_nat f -> exists d l, numeral f tbl base n = d :: l /\ digit_val d <> 0.
Proof.
  revert n. induction f as [|f IH]; intros n N; [cbn in *; lia|]. cbn [numeral].
  pose proof (Z.div_mod n base ltac:(lia)). pose proof (half_smaller n f ltac:(lia)).
  destruct (Z.eqb_spec (n / base) 0) as [Z0|NZ].
  - eexists _, _. split; [reflexivity|]. rewrite (proj1 (Ht _ (mod_digit n))). lia.
  - destruct (IH (n / base) ltac:(lia)) as (d & l & -> & D). exists d. eexists. split; [reflexivity|auto].
Qed.

Lemma numeral_length f n k :
  0 <= n < base ^ Z.of_nat (S k) -> (length (numeral f tbl base n) <= S k)%nat.
Proof.
  revert n k. induction f as [|f IH]; intros n k N; cbn [numeral length]; [lia|].
  rewrite length_app. cbn [length]. destruct (Z.eqb_spec (n / base) 0) as [Z0|NZ]; [cbn; lia|].
  destruct k as [|k].
  - rewrite Z.div_small in NZ by (cbn in N; lia). lia.
  - specialize (IH (n / base) k). enough (0 <= n / base < base ^ Z.of_nat (S k)) by lia.
    rewrite (Nat2Z.inj_succ (S k)), Z.pow_succ_r in N by lia. split; [apply Z.div_pos; lia|].
    apply Z.div_lt_upper_bound; lia.
Qed.

Lemma numeral_decimal f n :
  base = 10 -> forallb is_digit (numeral f tbl base n) = true /\
  forall a, value base a (numeral f tbl base n) = dec_value a (numeral f tbl base n).
Proof.
  intros B. assert (G : Forall (fun c => is_digit c = true) (numeral f tbl base n)).
  { revert n. induction f as [|f IH]; intros n; cbn; [constructor|].
    apply Forall_app. split; [destruct (_ =? 0); [constructor|apply IH]|].
    repeat constructor. pose proof (Z.mod_pos_bound n base ltac:(lia)).
    rewrite (proj2 (proj2 (Ht _ (mod_digit n)))) by lia. unfold is_digit.
    change (#"0") with 48. change (#"9") with 57.
    apply andb_true_intro. split; apply Z.leb_le; lia. }
  split; [apply forallb_forall; apply Forall_forall; auto|].
  unfold value, dec_value. induction G as [|c l Hc _ IHl]; intros a; cbn; auto.
  rewrite IHl. f_equal. rewrite B. unfold is_digit in Hc. breflect.
  unfold digit_val. rewrite (proj2 (Z.leb_le _ _)) by lia. reflexivity.
Qed.
End Numeral.

(** The loop of [printint] stores the numeral, least significant digit first. *)
Lemma printint_loop_spec f x base buf :
  2 <= base <= 16 -> (0 < f)%nat -> 0 <= x < 2 ^ Z.of_nat f ->
  printint_loop f x base buf = Some (buf ++ rev (numeral f digits base x)).
Proof.
  intros B. revert x buf. induction f as [|f IH]; intros x buf F X; [lia|].
  pose proof (half_smaller base B x f X) as S.
  cbn [printint_loop numeral]. rewrite rev_app_distr. cbn [rev app].
  destruct (Z.eqb_spec (x / base) 0) as [E|NE]; cbn [negb rev app]; auto.
  rewrite IH; [|destruct f; [cbn in S|]; lia|auto]. rewrite <- app_assoc. reflexivity.
Qed.

Lemma printint_buf_signed xx base :
  2 <= base <= 16 -> - 2 ^ 31 <= xx < 2 ^ 31 ->
  printint_buf xx base true = Some (rev (signed_text digits base xx)).
Proof.
  intros B X. unfold printint_buf, signed_text. cbn [andb].
  replace (u32 (if xx <? 0 then - xx else xx)) with (Z.abs xx)
    by (destruct (Z.ltb_spec xx 0); rewrite u32_small; lia).
  rewrite printint_loop_spec; [|auto|lia|change (2 ^ Z.of_nat 32) with (2 ^ 32); lia].
  destruct (xx <? 0); cbn [app rev]; reflexivity.
Qed.

Lemma printint_buf_unsigned xx base :
  2 <= base <= 16 -> printint_buf xx base false = Some (rev (numeral 32 digits base (u32 xx))).
Proof.
  intros B. unfold printint_buf. cbn [andb].
  rewrite printint_loop_spec; auto; [lia|apply u32_range].
Qed.

(** * Theorems *)

Lemma rev_length_le {A} (l : list A) n : (length l <= n)%nat -> (length (rev l) <= n)%nat.
Proof. rewrite length_rev. auto. Qed.

Lemma printint_buf_decimal xx :
  - 2 ^ 31 <= xx < 2 ^ 31 ->
  exists buf ds, printint_buf xx 10 true = Some buf /\ (length buf <= 11)%nat /\
    rev buf = (if xx <? 0 then [#"-"] else []) ++ ds /\ forallb is_digit ds = true /\
    dec_value 0 ds = Z.abs xx /\ (hd 0 ds = #"0" -> xx = 0).
Proof.
  intros X. rewrite printint_buf_signed by lia. eexists _, (numeral 32 digits 10 (Z.abs xx)).
  split; [reflexivity|]. rewrite length_rev, rev_involutive. unfold signed_text.
  destruct (numeral_decimal digits digits_good 10 ltac:(lia) 32 (Z.abs xx) eq_refl) as [D V].
  split; [|split; [|split; [|split]]]; auto.
  - rewrite length_app.
    pose proof (numeral_length digits 10 ltac:(lia) 32 (Z.abs xx) 9 ltac:(cbn; lia)).
    destruct (xx <? 0); cbn [length]; lia.
  - rewrite <- V. apply numeral_value; auto using digits_good; [lia|]. cbn. lia.
  - intros H0. destruct (Z.eq_dec xx 0); auto.
    destruct (numeral_head digits digits_good 10 ltac:(lia) 32 (Z.abs xx)) as (d & l & E & N).
    { cbn. lia. }
    rewrite E in H0. cbn in H0. subst d. contradiction N. reflexivity.
Qed.

(** [printint] in base 10 never stores more than 11 characters in its
    16-byte buffer, for any int, INT_MIN included; what it prints is the decimal
    numeral of its argument: a minus sign exactly for negative numbers, then
    digits with no leading zero whose value is the absolute value.  [atoi] reads
    a non-negative one back. *)
Theorem printint_decimal xx :
  - 2 ^ 31 <= xx < 2 ^ 31 ->
  exists buf ds, printint_buf xx 10 true = Some buf /\ (length buf <= 11)%nat /\
    rev buf = (if xx <? 0 then [#"-"] else []) ++ ds /\ forallb is_digit ds = true /\
    dec_value 0 ds = Z.abs xx /\ (hd 0 ds = #"0" -> xx = 0) /\
    (0 <= xx -> forall m s fuel, cstr m s (rev buf) -> (length buf < fuel)%nat ->
       atoi fuel m s = Some xx).
Proof.
  intros X. destruct (printint_buf_decimal xx X) as (buf & ds & B & L & R & D & V & H).
  exists buf, ds. repeat split; auto. intros P m s fuel C F.
  rewrite (proj2 (Z.ltb_ge _ _)) in R by lia. cbn in R.
  rewrite R in C. rewrite <- (length_rev buf), R in F. rewrite Z.abs_eq in V by lia.
  destruct C as (_ & Ld & Z0). edestruct (atoi_digits m s ds 0 fuel) as [_ A]; auto.
  - rewrite load_app, Ld. cbn. rewrite Z0. reflexivity.
  - rewrite V in A. apply A. lia.
Qed.

Lemma printint_decimal_witness :
  exists buf ds, printint_buf 61 10 true = Some buf /\ (length buf <= 11)%nat /\
    rev buf = (if 61 <? 0 then [#"-"] else []) ++ ds /\ forallb is_digit ds = true /\
    dec_value 0 ds = Z.abs 61 /\ (hd 0 ds = #"0" -> 61 = 0) /\
    (0 <= 61 -> forall m s fuel, cstr m s (rev buf) -> (length buf < fuel)%nat ->
       atoi fuel m s = Some 61).
Proof. apply printint_decimal. lia. Defined.

Lemma u8_byte c : is_byte c -> u8 c = c.
Proof. apply is_byte_u8. Qed.

Lemma bytes_app l l' : bytes (l ++ l') <-> bytes l /\ bytes l'.
Proof. apply Forall_app. Qed.

Lemma putc_emits E fd c : is_byte c -> emits E (putc fd c) (byte_writes fd [c]).
Proof. intros B. unfold putc. rewrite u8_byte by auto. apply emits_call. plain_tac. Qed.

Lemma putstr_emits E fd s : bytes s -> emits E (putstr fd s) (byte_writes fd s).
Proof.
  induction 1; cbn [putstr]; [apply emits_ret|].
  change (byte_writes fd (x :: l)) with (byte_writes fd [x] ++ byte_writes fd l).
  apply emits_seq; auto using putc_emits.
Qed.

Lemma put_down_emits E fd buf i :
  bytes buf -> (i <= length buf)%nat -> emits E (put_down fd buf i) (byte_writes fd (rev (firstn i buf))).
Proof.
  intros B. induction i as [|i IH]; intros L; cbn [put_down]; [apply emits_ret|].
  rewrite (firstn_snoc _ _ 0), rev_app_distr by lia. cbn [rev app].
  change (byte_writes fd (?x :: ?l)) with (byte_writes fd [x] ++ byte_writes fd l).
  apply emits_seq; [|apply IH; lia]. apply putc_emits.
  apply (proj1 (Forall_nth _ _) B). lia.
Qed.

Lemma printint_emits E fd xx base sgn t :
  printint_buf xx base sgn = Some (rev t) -> bytes t -> emits E (printint fd xx base sgn) (byte_writes fd t).
Proof.
  intros P B. unfold printint. rewrite P.
  pose proof (put_down_emits E fd (rev t) (length (rev t)) (Forall_rev B) (Nat.le_refl _)) as D.
  rewrite firstn_all, rev_involutive in D. exact D.
Qed.

Lemma printptr_loop_emits E fd n x :
  0 <= x < 2 ^ 64 -> (n <= 16)%nat ->
  emits E (printptr_loop fd n (u64 (x * 16 ^ Z.of_nat (16 - n)))) (byte_writes fd (hex16 n x)).
Proof.
  intros X. induction n as [|n IH]; intros L; cbn [printptr_loop hex16]; [apply emits_ret|].
  change (byte_writes fd (?x :: ?l)) with (byte_writes fd [x] ++ byte_writes fd l).
  set (y := x * 16 ^ Z.of_nat (16 - S n)).
  assert (Y : y = x * 16 ^ (15 - Z.of_nat n)) by (unfold y; do 2 f_equal; lia).
  apply emits_seq.
  - replace (Z.shiftr (u64 y) (64 - 4)) with (x / 16 ^ Z.of_nat n mod 16).
    + apply putc_emits. apply digits_good. apply Z.mod_pos_bound. lia.
    + rewrite Z.shiftr_div_pow2 by lia. change (64 - 4) with 60. unfold u64.
      assert (P : 2 ^ 60 = 16 ^ Z.of_nat n * 16 ^ (15 - Z.of_nat n)).
      { rewrite <- Z.pow_add_r by lia. replace (Z.of_nat n + (15 - Z.of_nat n)) with 15 by lia.
        reflexivity. }
      change (2 ^ 64) with (2 ^ 60 * 16). rewrite Z.rem_mul_r by lia.
      rewrite Z.mul_comm, Z.div_add by lia.
      rewrite (Z.div_small (y mod 2 ^ 60)) by (apply Z.mod_pos_bound; lia). cbn [Z.add].
      rewrite P, Y, Z.div_mul_cancel_r; auto; apply Z.pow_nonzero; lia.
  - replace (u64 (Z.shiftl (u64 y) 4)) with (u64 (x * 16 ^ Z.of_nat (16 - n))); [apply IH; lia|].
    rewrite Z.shiftl_mul_pow2 by lia. unfold u64. rewrite Z.mul_mod_idemp_l by lia.
    f_equal. rewrite Y. change (2 ^ 4) with (16 ^ 1). rewrite <- Z.mul_assoc, <- Z.pow_add_r by lia.
    do 2 f_equal. lia.
Qed.

Lemma printptr_emits E fd x :
  0 <= x < 2 ^ 64 ->
  emits E (printptr fd x) (byte_writes fd ([#"0"; #"x"] ++ hex16 16 x)).
Proof.
  intros X. unfold printptr. cbn [app].
  change (byte_writes fd (?x :: ?y :: ?l)) with
    (byte_writes fd [x] ++ byte_writes fd [y] ++ byte_writes fd l).
  repeat apply emits_seq; [apply putc_emits; cbv; split; congruence..|].
  pose proof (printptr_loop_emits E fd 16 x X ltac:(lia)) as P. rewrite u64_small in P.
  - rewrite Z.mul_1_r in P. exact P.
  - change (16 ^ Z.of_nat (16 - 16)) with 1. lia.
Qed.

(** ** From formats to writes *)

Lemma u32_mod_eq x y : (x - y) mod 2 ^ 32 = 0 -> u32 x = u32 y.
Proof.
  intros H. unfold u32. apply Z.mod_divide in H as [k K]; [|lia].
  replace x with (y + k * 2 ^ 32) by lia. apply Z_mod_plus_full.
Qed.

Lemma u32_s32 x : u32 (s32 x) = u32 x.
Proof.
  destruct (s32_split x) as [k K]. apply u32_mod_eq.
  replace (s32 x - x) with (- k * 2 ^ 32) by lia. apply Z_mod_mult.
Qed.

Lemma u32_u64 x : u32 (u64 x) = u32 x.
Proof.
  apply u32_mod_eq. unfold u64. pose proof (Z.div_mod x (2 ^ 64) ltac:(lia)).
  replace (x mod 2 ^ 64 - x) with (- (x / 2 ^ 64) * 2 ^ 32 * 2 ^ 32) by lia. apply Z_mod_mult.
Qed.

Lemma u8_u32 x : u8 (u32 x) = u8 x.
Proof.
  unfold u8, u32. change (2 ^ 32) with (2 ^ 8 * 2 ^ 24).
  rewrite Z.rem_mul_r by lia. rewrite Z.mul_comm, Z_mod_plus_full. apply Zmod_mod.
Qed.

Lemma signed_text_bytes tbl base v : good_table tbl -> 2 <= base <= 16 -> bytes (signed_text tbl base v).
Proof.
  intros T B. apply bytes_app. split; [|apply numeral_bytes; auto].
  destruct (v <? 0); repeat constructor. discriminate.
Qed.

Lemma is_conv_cases d :
  is_conv d = true ->
  d = #"d" \/ d = #"l" \/ d = #"x" \/ d = #"p" \/ d = #"c" \/ d = #"s".
Proof. unfold is_conv. intros H. breflect. rewrite !orb_true_iff, !Z.eqb_eq in H. tauto. Qed.

#[local] Arguments numeral : simpl never.
#[local] Arguments hex16 : simpl never.
#[local] Arguments signed_text : simpl never.
#[local] Arguments printint : simpl never.
#[local] Arguments printptr : simpl never.
#[local] Arguments putstr : simpl never.
#[local] Arguments putc : simpl never.
#[local] Arguments emits : simpl never.
#[local] Arguments byte_writes : simpl never.

Lemma conversion_emits E fd d a t fmt ap cs :
  is_conv d = true -> convert d a = Some t -> arg_ok a ->
  emits E (vprintf fd fmt false ap) cs ->
  emits E (vprintf fd (d :: fmt) true (a :: ap)) (byte_writes fd t ++ cs).
Proof.
  intros D C A R. destruct a as [v|s].
  - destruct (is_conv_cases d D) as [->|[->|[->|[->|[->| ->]]]]]; cbn in C; try discriminate; injection C as <-;
      (apply emits_seq; [|exact R]).
    + apply printint_emits; [apply printint_buf_signed; [lia|apply s32_range]|].
      apply signed_text_bytes; [apply digits_good|lia].
    + apply printint_emits; [|apply numeral_bytes; [apply digits_good|lia]].
      rewrite printint_buf_unsigned, u32_s32, u32_u64 by lia. reflexivity.
    + apply printint_emits; [|apply numeral_bytes; [apply digits_good|lia]].
      rewrite printint_buf_unsigned, u32_s32 by lia. reflexivity.
    + apply printptr_emits. apply u64_range.
    + unfold putc. rewrite u8_u32. apply emits_call. plain_tac.
  - assert (d = #"s") as ->.
    { unfold convert in C. destruct (Z.eqb_spec d (#"s")); [auto|discriminate]. }
    cbn in C. injection C as <-. apply emits_seq; [|exact R]. apply putstr_emits. destruct s; [exact A|].
    repeat constructor; discriminate.
Qed.

Lemma vprintf_emits E fd fmt ap out :
  bytes fmt -> Forall arg_ok ap -> vformat fmt ap = Some out ->
  emits E (fprintf fd fmt ap) (byte_writes fd out).
Proof.
  unfold fprintf. remember (length fmt) as n eqn:N. revert fmt ap out N.
  induction n as [n IH] using lt_wf_ind. intros [|c fmt] ap out -> B A V; cbn [vformat] in V.
  { inv V. apply emits_ret. }
  apply Forall_cons_iff in B as [Bc B]. cbn [vprintf negb].
  destruct (Z.eqb_spec c (#"%")) as [->|NE].
  2:{ destruct (vformat fmt ap) as [u|] eqn:V'; inv V.
      change (byte_writes fd (c :: u)) with (byte_writes fd [c] ++ byte_writes fd u).
      apply emits_seq; [apply putc_emits; auto|].
      apply (IH (length fmt)); auto. }
  destruct fmt as [|d fmt]; [inv V; apply emits_ret|].
  apply Forall_cons_iff in B as [Bd B]. destruct (is_conv d) eqn:D.
  - destruct ap as [|a ap]; [discriminate|]. apply Forall_cons_iff in A as [Aa A].
    destruct (convert d a) as [t|] eqn:C; [|discriminate].
    destruct (vformat fmt ap) as [u|] eqn:V'; inv V. rewrite byte_writes_app.
    apply conversion_emits; auto. apply (IH (length fmt)); auto. cbn. lia.
  - destruct (vformat fmt ap) as [u|] eqn:V'; inv V. rewrite byte_writes_app.
    assert (R : emits E (vprintf fd fmt false ap) (byte_writes fd u)).
    { apply (IH (length fmt)); auto. cbn. lia. }
    unfold is_conv in D. breflect.
    cbn [vprintf negb]. repeat rewrite (proj2 (Z.eqb_neq _ _)) by assumption.
    destruct (Z.eqb_spec d (#"%")) as [->|NP].
    + apply emits_seq; auto. apply putc_emits. auto.
    + change (byte_writes fd [#"%"; d]) with (byte_writes fd [#"%"] ++ byte_writes fd [d]).
      rewrite <- app_assoc. apply emits_seq; [apply putc_emits; auto|].
      apply emits_seq; auto. apply putc_emits; auto.
Qed.

(** Text a format copies: bytes other than the percent sign. *)
Definition plain_text (l : list Z) : bool :=
  forallb (fun c => (0 <=? c) && (c <? 256) && negb (c =? #"%")) l.

Lemma vformat_plain pre fmt ap :
  plain_text pre = true -> vformat (pre ++ fmt) ap = option_map (app pre) (vformat fmt ap).
Proof.
  induction pre as [|c pre IH]; cbn [app plain_text forallb]; intros P.
  - destruct (vformat fmt ap); reflexivity.
  - apply andb_prop in P as [Pc P]. breflect. cbn [vformat]. rewrite (proj2 (Z.eqb_neq _ _)) by auto.
    rewrite IH by auto. destruct (vformat fmt ap); reflexivity.
Qed.

Lemma plain_bytes l : plain_text l = true -> bytes l.
Proof.
  induction l as [|c l IH]; cbn [plain_text forallb]; intros P; constructor.
  - apply andb_prop in P as [Pc _]. breflect. split; lia.
  - apply andb_prop in P as [_ P]. apply IH, P.
Qed.

(** A message with one string in it. *)
Lemma fprintf_str E fd pre s post :
  plain_text pre = true -> plain_text post = true -> bytes s ->
  emits E (fprintf fd (pre ++ $"%s" ++ post) [AStr (Some s)]) (byte_writes fd (pre ++ s ++ post)).
Proof.
  intros P Q B. apply vprintf_emits.
  - rewrite !bytes_app. repeat split; auto using plain_bytes. repeat constructor; discriminate.
  - repeat constructor. exact B.
  - rewrite vformat_plain by auto. cbn. rewrite <- (app_nil_r post), vformat_plain by auto. reflexivity.
Qed.

(** A message that is only text. *)
Lemma fprintf_text E fd s :
  plain_text s = true -> emits E (fprintf fd s []) (byte_writes fd s).
Proof.
  intros P. apply vprintf_emits; auto using plain_bytes.
  rewrite <- (app_nil_r s) at 1. rewrite vformat_plain by auto. cbn. rewrite app_nil_r. reflexivity.
Qed.

(** C40: [fprintf] realises its format: for a format whose conversions fit the
    arguments it always returns, having made exactly one one-byte write on its
    descriptor for each byte of the formatted text, in order, whatever the
    kernel answers to them; when the kernel takes every write, the text has been
    written. *)
Theorem vprintf_writes E fd fmt ap out h :
  bytes fmt -> Forall arg_ok ap -> vformat fmt ap = Some out ->
  twp E (fun o h' => o = Done tt /\ calls h' = calls h ++ byte_writes fd out /\
           (full_writes E -> written fd h' = written fd h ++ out)) h (fprintf fd fmt ap).
Proof.
  intros B A V. eapply twp_mono; [apply twp_allowed, (vprintf_emits E fd fmt ap out B A V)|].
  intros o h' ((-> & C) & tr & -> & Al). repeat split; auto. intros F. rewrite written_app. f_equal.
  unfold calls in C. rewrite map_app in C. apply app_inv_head in C.
  eapply written_byte_writes; eauto.
Qed.

Lemma vprintf_writes_witness :
  twp xv6 (fun o h' => o = Done tt /\
      calls h' = calls [] ++ byte_writes 2 ($"exec ls failed: -12") /\
      (full_writes xv6 -> written 2 h' = written 2 [] ++ $"exec ls failed: -12"))
    [] (fprintf 2 ($"exec %s failed: %d") [AStr (Some ($"ls")); AInt (-12)]).
Proof.
  apply vprintf_writes.
  - repeat constructor; discriminate.
  - repeat constructor; discriminate.
  - reflexivity.
Defined.

(** ** The printf the C programs are linked with *)

Section ZigText.
Variable fmt_ptr : Z -> list Z.

Definition zconvert (c : Z) (a : arg) : option (list Z) :=
  match a with
  | AInt v =>
      if c =? #"d" then Some (signed_text lower_digits 10 (s32 v))
      else if c =? #"x" then Some (signed_text lower_digits 16 (s32 v))
      else if c =? #"p" then Some (fmt_ptr (u64 v))
      else None
  | AStr (Some s) => if c =? #"s" then Some s else None
  | AStr None => None
  end.

Definition is_zconv (c : Z) : bool :=
  (c =? #"d") || (c =? #"x") || (c =? #"p") || (c =? #"s").

(** The text Zig's [printf] writes; a conversion must fit its 512-byte buffer. *)
Fixpoint zformat (fmt : list Z) (ap : list arg) : option (list Z) :=
  match fmt with
  | [] => Some []
  | c :: fmt =>
      if c =? #"%" then
        match fmt with
        | [] => Some []
        | d :: fmt =>
            if is_zconv d then
              match ap with
              | a :: ap =>
                  match zconvert d a, zformat fmt ap with
                  | Some t, Some u => if 512 <? len t then None else Some (t ++ u)
                  | _, _ => None
                  end
              | [] => None
              end
            else option_map (fun u => (if d =? #"%" then [d] else [c; d]) ++ u) (zformat fmt ap)
        end
      else option_map (cons c) (zformat fmt ap)
  end.

(** [prints E t out]: [t] returns, after writing [out] to descriptor 1 and
    making no other calls. *)
Definition is_stdout (e : event) : Prop := exists d, Datatypes.fst e = CWrite 1 d.

Definition prints (E : env) (t : prog unit) (out : list Z) : Prop :=
  forall h, twp E (fun o h' => o = Done tt /\ exists tr,
    h' = h ++ tr /\ written 1 tr = out /\ Forall is_stdout tr) h t.

Lemma prints_seq E t t' out out' :
  prints E t out -> prints E t' out' -> prints E (t ;; t') (out ++ out').
Proof.
  intros H H' h. tstep. eapply twp_mono; [apply H|]. intros o h1 (-> & tr & -> & W & A). cbn [seqpost].
  eapply twp_mono; [apply H'|]. intros o h2 (-> & tr' & -> & W' & A'). split; auto.
  exists (tr ++ tr'). rewrite <- app_assoc, written_app, W, W', Forall_app. auto.
Qed.

Lemma prints_ret E : prints E (Ret tt) [].
Proof. intros h. tstep. split; auto. exists []. rewrite app_nil_r. auto. Qed.

Context (E : env) (F : full_writes E).

Lemma zwrite_prints data : prints E (zwrite data) data.
Proof.
  intros h. unfold zwrite. tstep. tstep. pose proof (F _ _ _ _ H) as R. rewrite R.
  rewrite (proj2 (Z.ltb_ge _ _)), (proj2 (Z.ltb_ge _ _)) by lia. cbn. tstep.
  split; auto. exists [(CWrite 1 data, r)]. split; auto. split; [apply (written_full 1 [] data r R)|].
  repeat constructor. eexists. reflexivity.
Qed.

Lemma zprint_prints text : len text <= 512 -> prints E (zprint text) text.
Proof. intros L. unfold zprint. rewrite (proj2 (Z.ltb_ge _ _)) by lia. apply zwrite_prints. Qed.

Lemma zconversion_prints d a t fmt ap u :
  zconvert d a = Some t -> len t <= 512 -> prints E (zprintf_loop fmt_ptr fmt ap) u ->
  prints E (zprintf_loop fmt_ptr (#"%" :: d :: fmt) (a :: ap)) (t ++ u).
Proof.
  intros C L R. cbn [zprintf_loop]. rewrite Z.eqb_refl. cbn [negb].
  destruct a as [v|[s|]]; cbn [zconvert] in C; [| |discriminate].
  - destruct (d =? #"d"); [injection C as <-; auto using prints_seq, zprint_prints|].
    destruct (d =? #"x"); [injection C as <-; auto using prints_seq, zprint_prints|].
    destruct (d =? #"p"); [injection C as <-; auto using prints_seq, zprint_prints|discriminate].
  - destruct (Z.eqb_spec d (#"s")) as [->|]; [|discriminate]. injection C as <-.
    apply prints_seq; auto using zprint_prints.
Qed.

Lemma zprintf_loop_prints fmt ap out :
  zformat fmt ap = Some out -> prints E (zprintf_loop fmt_ptr fmt ap) out.
Proof.
  remember (length fmt) as n eqn:N. revert fmt ap out N.
  induction n as [n IH] using lt_wf_ind. intros [|c fmt] ap out -> V; cbn [zformat] in V.
  { inv V. apply prints_ret. }
  destruct (Z.eqb_spec c (#"%")) as [->|NE].
  2:{ destruct (zformat fmt ap) as [u|] eqn:V'; inv V. cbn [zprintf_loop].
      rewrite (proj2 (Z.eqb_neq _ _)) by auto. change (c :: u) with ([c] ++ u).
      apply prints_seq; [apply zwrite_prints|]. apply (IH (length fmt)); auto. }
  destruct fmt as [|d fmt]; [inv V; apply prints_ret|]. destruct (is_zconv d) eqn:D.
  - destruct ap as [|a ap]; [discriminate|].
    destruct (zconvert d a) as [t|] eqn:C; [|discriminate].
    destruct (zformat fmt ap) as [u|] eqn:V'; [|discriminate].
    destruct (Z.ltb_spec 512 (len t)); inv V.
    apply zconversion_prints; auto. apply (IH (length fmt)); auto. cbn. lia.
  - destruct (zformat fmt ap) as [u|] eqn:V'; inv V.
    assert (R : prints E (zprintf_loop fmt_ptr fmt ap) u).
    { apply (IH (length fmt)); auto. cbn. lia. }
    unfold is_zconv in D. breflect. cbn [zprintf_loop]. rewrite Z.eqb_refl. cbn [negb].
    repeat rewrite (proj2 (Z.eqb_neq d _)) by assumption.
    destruct (Z.eqb_spec d (#"%")) as [->|NP]; [apply prints_seq; auto using zwrite_prints|].
    change ([#"%"; d] ++ u) with ([#"%"] ++ [d] ++ u). auto using prints_seq, zwrite_prints.
Qed.
End ZigText.

Lemma numeral_tables f n : numeral f lower_digits 10 n = numeral f digits 10 n.
Proof.
  revert n. induction f as [|f IH]; intros n; [reflexivity|].
  change (numeral (S f) ?t 10 n) with
    ((if n / 10 =? 0 then [] else numeral f t 10 (n / 10)) ++ [nth (Z.to_nat (n mod 10)) t 0]).
  rewrite IH. do 2 f_equal. pose proof (Z.mod_pos_bound n 10 ltac:(lia)).
  rewrite (proj2 (proj2 (lower_digits_good (n mod 10) ltac:(lia)))) by lia.
  rewrite (proj2 (proj2 (digits_good (n mod 10) ltac:(lia)))) by lia. reflexivity.
Qed.

(** Formats on which the two printfs agree: the conversions are [%d] and [%s]
    of a string of at most 512 bytes; [%%] and unknown letters are free. *)
Fixpoint portable (fmt : list Z) (ap : list arg) : Prop :=
  match fmt with
  | [] => True
  | c :: fmt =>
      if c =? #"%" then
        match fmt with
        | [] => True
        | d :: fmt =>
            match ap with
            | AInt v :: ap' => if d =? #"d" then portable fmt ap' else is_conv d = false /\ portable fmt ap
            | AStr (Some s) :: ap' =>
                if d =? #"s" then len s <= 512 /\ portable fmt ap'
                else is_conv d = false /\ portable fmt ap
            | _ => is_conv d = false /\ portable fmt ap
            end
        end
      else portable fmt ap
  end.

Lemma is_conv_zconv d : is_conv d = false -> is_zconv d = false.
Proof.
  unfold is_conv, is_zconv. intros H. breflect.
  repeat rewrite (proj2 (Z.eqb_neq d _)) by assumption. reflexivity.
Qed.

Lemma signed_text_short v : - 2 ^ 31 <= v < 2 ^ 31 -> len (signed_text lower_digits 10 v) <= 512.
Proof.
  intros V. unfold signed_text.
  pose proof (numeral_length lower_digits 10 ltac:(lia) 32 (Z.abs v) 9 ltac:(cbn; lia)).
  rewrite length_app. destruct (v <? 0); cbn [length]; lia.
Qed.

Lemma portable_zformat p fmt ap : portable fmt ap -> zformat p fmt ap = vformat fmt ap.
Proof.
  remember (length fmt) as n eqn:N. revert fmt ap N.
  induction n as [n IH] using lt_wf_ind. intros [|c fmt] ap -> P; auto.
  cbn [zformat vformat portable] in *. destruct (Z.eqb_spec c (#"%")) as [->|NE].
  2:{ rewrite (IH (length fmt)); auto. }
  destruct fmt as [|d fmt]; auto.
  assert (Skip : forall ap, is_conv d = false /\ portable fmt ap ->
     zformat p fmt ap = vformat fmt ap /\ is_conv d = false /\ is_zconv d = false).
  { intros ap' [D Q]. rewrite (IH (length fmt)) by (cbn; auto). auto using is_conv_zconv. }
  destruct ap as [|[v|[s|]] ap].
  - destruct (Skip _ P) as (-> & -> & ->). reflexivity.
  - destruct (Z.eqb_spec d (#"d")) as [->|ND]; [|destruct (Skip _ P) as (-> & -> & ->); reflexivity].
    cbn [is_conv is_zconv zconvert convert Z.eqb Pos.eqb chr orb].
    change (is_conv (#"d")) with true. change (is_zconv (#"d")) with true.
    change (#"d" =? #"d") with true. cbn iota.
    rewrite (IH (length fmt)) by (cbn; auto). destruct (vformat fmt ap); auto.
    rewrite (proj2 (Z.ltb_ge _ _)) by apply signed_text_short, s32_range.
    unfold signed_text. rewrite numeral_tables. reflexivity.
  - destruct (Z.eqb_spec d (#"s")) as [->|ND]; [|destruct (Skip _ P) as (-> & -> & ->); reflexivity].
    change (is_conv (#"s")) with true. change (is_zconv (#"s")) with true. cbn [zconvert convert].
    change (#"s" =? #"s") with true. cbn iota. destruct P as [L P].
    rewrite (IH (length fmt)) by (cbn; auto). destruct (vformat fmt ap); auto.
    rewrite (proj2 (Z.ltb_ge _ _)) by lia. reflexivity.
  - destruct (Skip _ P) as (-> & -> & ->). reflexivity.
Qed.

Lemma printf_prints E p fmt ap out :
  full_writes E -> fmt <> [] -> zformat p fmt ap = Some out -> prints E (printf p fmt ap) out.
Proof.
  intros F N Z0. destruct fmt as [|c fmt]; [congruence|]. apply zprintf_loop_prints; auto.
Qed.

Lemma prints_written E t out h :
  prints E t out -> twp E (fun o h' => o = Done tt /\ written 1 h' = written 1 h ++ out) h t.
Proof.
  intros P. eapply twp_mono; [apply P|]. intros o h' (-> & tr & -> & W & _).
  split; auto. rewrite written_app, W. reflexivity.
Qed.

(** where the two implementations of printf can be exchanged: for a
    non-empty format that uses only [%d] and [%s] on strings of at most 512
    bytes, the Zig [printf] returns and puts on standard output exactly the text
    that printf.c's formatting defines, provided the kernel takes writes whole. *)
Theorem zig_printf_agrees p E fmt ap out h :
  full_writes E -> fmt <> [] -> portable fmt ap -> vformat fmt ap = Some out ->
  twp E (fun o h' => o = Done tt /\ written 1 h' = written 1 h ++ out) h (printf p fmt ap).
Proof.
  intros F NE P V. eapply prints_written, printf_prints; auto. rewrite portable_zformat; auto.
Qed.

(** The environment where every write is whole. *)
Definition all_taken : env := fun h c r =>
  match c with CWrite _ d => r_ret r = len d | _ => True end.

Lemma zig_printf_agrees_witness :
  twp all_taken (fun o h' => o = Done tt /\ written 1 h' = written 1 [] ++ $"write -7 ok")
    [] (printf (fun _ => []) ($"write %d %s") [AInt (-7); AStr (Some ($"ok"))]).
Proof.
  apply zig_printf_agrees; [|discriminate| |reflexivity].
  - intros h fd d r H. exact H.
  - cbn. split; [lia|exact I].
Defined.

Lemma zformat_char p c fmt ap :
  c <> #"%" -> zformat p (c :: fmt) ap = option_map (cons c) (zformat p fmt ap).
Proof. intros N. cbn [zformat]. rewrite (proj2 (Z.eqb_neq _ _)) by auto. reflexivity. Qed.

Lemma zformat_conv p d fmt a ap t :
  is_zconv d = true -> zconvert p d a = Some t -> len t <= 512 ->
  zformat p (#"%" :: d :: fmt) (a :: ap) = option_map (app t) (zformat p fmt ap).
Proof.
  intros D C L. cbn [zformat]. rewrite Z.eqb_refl, D, C, (proj2 (Z.ltb_ge _ _)) by lia.
  destruct (zformat p fmt ap); reflexivity.
Qed.

(** [%l] is a conversion of printf.c only. The line that ls.c prints for a
    file, with its size under [%l], comes out of the linked Zig [printf] with
    the two characters %l in the place of the size, whatever the size. *)
Theorem zig_printf_no_long p E name type ino size h :
  full_writes E -> len name <= 512 -> 0 <= type < 10 -> 0 <= ino < 10 ->
  twp E (fun o h' => o = Done tt /\
           written 1 h' = written 1 h ++ name ++ [#" "; #"0" + type; #" "; #"0" + ino] ++ $" %l" ++ [newline])
    h (printf p ($"%s %d %d %l" ++ [newline]) [AStr (Some name); AInt type; AInt ino; AInt size]).
Proof.
  intros F L T I. eapply prints_written, printf_prints; [auto|discriminate|].
  assert (D : forall v, 0 <= v < 10 -> signed_text lower_digits 10 (s32 v) = [#"0" + v]).
  { intros v V. rewrite s32_small by lia. unfold signed_text. rewrite (proj2 (Z.ltb_ge _ _)) by lia.
    rewrite Z.abs_eq by lia. change (numeral 32 lower_digits 10 v) with
      ((if v / 10 =? 0 then [] else numeral 31 lower_digits 10 (v / 10)) ++
       [nth (Z.to_nat (v mod 10)) lower_digits 0]).
    rewrite Z.div_small, Z.mod_small by lia. cbn [Z.eqb app].
    rewrite (proj2 (proj2 (lower_digits_good v ltac:(lia)))) by lia. reflexivity. }
  assert (C : forall v, 0 <= v < 10 -> zconvert p (#"d") (AInt v) = Some [#"0" + v]).
  { intros v V. cbn [zconvert]. rewrite D by auto. reflexivity. }
  change ($"%s %d %d %l" ++ [newline]) with
    (#"%" :: #"s" :: #" " :: #"%" :: #"d" :: #" " :: #"%" :: #"d" :: $" %l" ++ [newline]).
  rewrite (zformat_conv p _ _ _ _ name) by (auto; reflexivity).
  rewrite zformat_char by discriminate.
  rewrite (zformat_conv p _ _ _ _ [#"0" + type]) by (auto; cbn; lia || reflexivity).
  rewrite zformat_char by discriminate.
  rewrite (zformat_conv p _ _ _ _ [#"0" + ino]) by (auto; cbn; lia || reflexivity).
  reflexivity.
Qed.

Lemma zig_printf_no_long_witness :
  twp all_taken (fun o h' => o = Done tt /\ written 1 h' = written 1 [] ++
       $"README.md" ++ [#" "; #"0" + 2; #" "; #"0" + 3] ++ $" %l" ++ [newline])
    [] (printf (fun _ => []) ($"%s %d %d %l" ++ [newline])
          [AStr (Some ($"README.md")); AInt 2; AInt 3; AInt 2226]).
Proof.
  apply zig_printf_no_long; [|cbn; lia|lia|lia].
  intros h fd d r H. exact H.
Defined.
