(* ===== verification/ShParse.v ===== *)
(** The command parser of the shell: src/user/sh.c, from the constructors to
    [nulterminate].

    The command line is a NUL-terminated string in [mem]; a command holds
    pointers into it, as the C structures do.  The parser does not change the
    line; [nulterminate] then puts a NUL at the end of each word.  The nodes
    come from malloc, which is taken to succeed (the C code does not test it).
    [parseexec] fills the argument arrays of a node that may already lie under
    redirections: [set_arg] writes through that path. *)

From S2P Require Import Prelude Mem Sys Ulib Printf.
From ITree Require Import ITree.
Import ITreeNotations.
Local Open Scope itree_scope.
Local Open Scope zm_scope.

(** * Commands *)

Definition MAXARGS : Z := 10.

Inductive cmd : Type :=
| EXEC (argv eargv : list Z)
| REDIR (c : cmd) (file efile mode fd : Z)
| PIPE (left right : cmd)
| LIST (left right : cmd)
| BACK (c : cmd).

(** A node fresh from malloc and memset: null pointers everywhere. *)
Definition execcmd : cmd := EXEC (repeat 0 10) (repeat 0 10).
Definition redircmd (subcmd : cmd) (file efile mode fd : Z) : cmd := REDIR subcmd file efile mode fd.
Definition pipecmd (left right : cmd) : cmd := PIPE left right.
Definition listcmd (left right : cmd) : cmd := LIST left right.
Definition backcmd (subcmd : cmd) : cmd := BACK subcmd.

(** [cmd->argv[argc] = q; cmd->eargv[argc] = eq] where [ret] is the EXEC node
    [cmd] or a chain of redirections that ends in it. *)
Fixpoint set_arg (ret : cmd) (argc q eq : Z) : cmd :=
  match ret with
  | EXEC argv eargv => EXEC (list_set argv (Z.to_nat argc) q) (list_set eargv (Z.to_nat argc) eq)
  | REDIR c file efile mode fd => REDIR (set_arg c argc q eq) file efile mode fd
  | c => c
  end.

(** * Tokens *)

Definition whitespace : list Z := [#" "; 9; 13; 10; 11].
Definition symbols : list Z := $"<|>&;()".

(** [strchr(set, c) != 0] for a constant string [set]. *)
Definition in_set (set : list Z) (c : Z) : bool := existsb (Z.eqb c) set.

Definition is_ws (c : Z) : bool := in_set whitespace c.
Definition is_word (c : Z) : bool := negb (is_ws c) && negb (in_set symbols c).

(** [while(s < es && p( *s )) s++], where [n] is [es - s]. *)
Fixpoint skip_while (p : Z -> bool) (n : nat) (m : mem) (s : Z) : Z :=
  match n with
  | O => s
  | S n => if p (m s) then skip_while p n m (s + 1) else s
  end.

Definition skip (p : Z -> bool) (m : mem) (s es : Z) : Z := skip_while p (Z.to_nat (es - s)) m s.

(** The token at [s]: its code, its two ends, and the new value of [*ps]. *)
Definition gettoken (m : mem) (s es : Z) : Z * Z * Z * Z :=
  let s := skip is_ws m s es in
  let q := s in
  let c := m s in
  let '(ret, s) :=
    if c =? 0 then (c, s)
    else if in_set ($"|();&<") c then (c, s + 1)
    else if c =? #">" then
      let s := s + 1 in
      if m s =? #">" then (#"+", s + 1) else (c, s)
    else (#"a", skip is_word m s es) in
  let eq := s in
  (ret, q, eq, skip is_ws m s es).

Definition peek (m : mem) (s es : Z) (toks : list Z) : bool * Z :=
  let s := skip is_ws m s es in
  (negb (m s =? 0) && in_set toks (m s), s).

(** * The parser *)

Definition O_RDONLY : Z := 0.
Definition O_WRONLY : Z := 1.
Definition O_RDWR : Z := 2.
Definition O_CREATE : Z := 512.
Definition O_TRUNC : Z := 1024.

(** A parsing function returns its command and the new [*ps], or has called
    [panic]; [PFuel] only stands for fuel that was too small. *)
Inductive pres : Type :=
| POk (c : cmd) (s : Z)
| PPanic (msg : list Z)
| PFuel.

Definition pbind (r : pres) (k : cmd -> Z -> pres) : pres :=
  match r with
  | POk c s => k c s
  | PPanic msg => PPanic msg
  | PFuel => PFuel
  end.
Notation "'let*' ( c , s ) := r 'in' k" :=
  (pbind r (fun c s => k)) (at level 10, c name, s name, r at level 100, k at level 200) : zm_scope.

Fixpoint parseredirs (fuel : nat) (m : mem) (es : Z) (c : cmd) (s : Z) : pres :=
  match fuel with
  | O => PFuel
  | S f =>
      let '(b, s) := peek m s es ($"<>") in
      if b then
        let '(tok, _, _, s) := gettoken m s es in
        let '(t, q, eq, s) := gettoken m s es in
        if negb (t =? #"a") then PPanic ($"missing file for redirection")
        else
          let c :=
            if tok =? #"<" then redircmd c q eq O_RDONLY 0
            else if tok =? #">" then
              redircmd c q eq (Z.lor (Z.lor O_WRONLY O_CREATE) O_TRUNC) 1
            else if tok =? #"+" then redircmd c q eq (Z.lor O_WRONLY O_CREATE) 1
            else c in
          parseredirs f m es c s
      else POk c s
  end.

(** The argument loop of [parseexec]. *)
Fixpoint parseargs (fuel : nat) (m : mem) (es : Z) (argc : Z) (ret : cmd) (s : Z) : pres :=
  match fuel with
  | O => PFuel
  | S f =>
      let '(b, s) := peek m s es ($"|)&;") in
      if b then POk (set_arg ret argc 0 0) s
      else
        let '(tok, q, eq, s) := gettoken m s es in
        if tok =? 0 then POk (set_arg ret argc 0 0) s
        else if negb (tok =? #"a") then PPanic ($"syntax")
        else
          let ret := set_arg ret argc q eq in
          let argc := argc + 1 in
          if MAXARGS <=? argc then PPanic ($"too many args")
          else
            let* (ret, s) := parseredirs f m es ret s in
            parseargs f m es argc ret s
  end.

(** [while(peek(ps, es, "&"))] of [parseline]. *)
Fixpoint parsebacks (fuel : nat) (m : mem) (es : Z) (c : cmd) (s : Z) : pres :=
  match fuel with
  | O => PFuel
  | S f =>
      let '(b, s) := peek m s es ($"&") in
      if b then
        let '(_, _, _, s) := gettoken m s es in
        parsebacks f m es (backcmd c) s
      else POk c s
  end.

Fixpoint parseline (fuel : nat) (m : mem) (es s : Z) : pres :=
  match fuel with
  | O => PFuel
  | S f =>
      let* (c, s) := parsepipe f m es s in
      let* (c, s) := parsebacks f m es c s in
      let '(b, s) := peek m s es ($";") in
      if b then
        let '(_, _, _, s) := gettoken m s es in
        let* (r, s) := parseline f m es s in
        POk (listcmd c r) s
      else POk c s
  end
with parsepipe (fuel : nat) (m : mem) (es s : Z) : pres :=
  match fuel with
  | O => PFuel
  | S f =>
      let* (c, s) := parseexec f m es s in
      let '(b, s) := peek m s es ($"|") in
      if b then
        let '(_, _, _, s) := gettoken m s es in
        let* (r, s) := parsepipe f m es s in
        POk (pipecmd c r) s
      else POk c s
  end
with parseexec (fuel : nat) (m : mem) (es s : Z) : pres :=
  match fuel with
  | O => PFuel
  | S f =>
      let '(b, s) := peek m s es ($"(") in
      if b then parseblock f m es s
      else
        let* (ret, s) := parseredirs f m es execcmd s in
        parseargs f m es 0 ret s
  end
with parseblock (fuel : nat) (m : mem) (es s : Z) : pres :=
  match fuel with
  | O => PFuel
  | S f =>
      let '(b, s) := peek m s es ($"(") in
      if negb b then PPanic ($"parseblock")
      else
        let '(_, _, _, s) := gettoken m s es in
        let* (c, s) := parseline f m es s in
        let '(b, s) := peek m s es ($")") in
        if negb b then PPanic ($"syntax - missing )")
        else
          let '(_, _, _, s) := gettoken m s es in
          parseredirs f m es c s
  end.

(** * nulterminate *)

(** [for(i=0; ecmd->argv[i]; i++) *ecmd->eargv[i] = 0]; [None] past the arrays. *)
Fixpoint nul_args (argv eargv : list Z) (m : mem) : option mem :=
  match argv, eargv with
  | a :: argv, e :: eargv => if a =? 0 then Some m else nul_args argv eargv (upd m e 0)
  | _, _ => None
  end.

Fixpoint nulterminate (c : cmd) (m : mem) : option mem :=
  match c with
  | EXEC argv eargv => nul_args argv eargv m
  | REDIR c _ efile _ _ =>
      match nulterminate c m with
      | Some m => Some (upd m efile 0)
      | None => None
      end
  | PIPE l r | LIST l r =>
      match nulterminate l m with
      | Some m => nulterminate r m
      | None => None
      end
  | BACK c => nulterminate c m
  end.

(** * parsecmd *)

(** [panic]: a message on descriptor 2, then exit(1). *)
Definition panic {R} (s : list Z) : prog R :=
  fprintf 2 ($"%s" ++ [newline]) [AStr (Some s)] ;; exit_ 1.

(** Enough fuel for a line of [n] characters. *)
Definition parse_fuel (n : nat) : nat := (4 * n + 8)%nat.

(** [parsecmd(s)] on the line at address [s] whose text is [line]: the command
    and the memory after [nulterminate]. *)
Definition parsecmd (m : mem) (s : Z) (line : list Z) : prog (cmd * mem) :=
  let es := s + len line in
  match parseline (parse_fuel (length line)) m es s with
  | POk c s' =>
      let '(_, s') := peek m s' es [] in
      if negb (s' =? es) then
        fprintf 2 ($"leftovers: %s" ++ [newline])
          [AStr (Some (load m s' (Z.to_nat (es - s'))))] ;;
        panic ($"syntax")
      else
        match nulterminate c m with
        | Some m => Ret (c, m)
        | None => abort
        end
  | PPanic msg => panic msg
  | PFuel => abort
  end.
