(* ===== verification/ShLex.v ===== *)
(** The command line of the shell as a stream of tokens.

    [lexes s toks] says which tokens [gettoken] delivers from position [s] on;
    [peek] only looks at the first of them, so the parser of ShParse.v can be
    reasoned about as a parser of token lists. *)

From S2P Require Import Prelude Mem Sys Ulib Printf ShParse.
Local Open Scope zm_scope.

(** * Tokens *)

Record tok : Type := Tok { t_code : Z; t_q : Z; t_eq : Z }.

Definition is_wordtok (t : tok) : bool := t_code t =? #"a".

(** The character a token starts with, for a token that is not a word. *)
Definition first_char (t : tok) : Z := if t_code t =? #"+" then #">" else t_code t.

(** * Skipping *)

Lemma skip_while_spec p n m s :
  let k := skip_while p n m s in
  s <= k <= s + Z.of_nat n /\ (forall x, s <= x < k -> p (m x) = true) /\
  (k = s + Z.of_nat n \/ p (m k) = false).
Proof.
  revert s. induction n as [|n IH]; intros s; cbn [skip_while].
  - split; [lia|]. split; [intros; lia|]. left. lia.
  - destruct (p (m s)) eqn:P.
    + destruct (IH (s + 1)) as (B & A & S). split; [lia|]. split.
      * intros x Hx. destruct (Z.eq_dec x s) as [->|]; auto. apply A. lia.
      * destruct S as [S|S]; [left; lia|auto].
    + split; [lia|]. split; [intros; lia|auto].
Qed.

Lemma skip_spec p m s es :
  s <= es ->
  s <= skip p m s es <= es /\ (forall x, s <= x < skip p m s es -> p (m x) = true) /\
  (skip p m s es = es \/ p (m (skip p m s es)) = false).
Proof.
  intros L. unfold skip. pose proof (skip_while_spec p (Z.to_nat (es - s)) m s) as (B & A & S).
  split; [lia|]. split; auto. destruct S as [S|S]; [left; lia|auto].
Qed.

(** Where skipping stops is determined by the memory. *)
Lemma skip_unique p m s es k :
  s <= k <= es -> (forall x, s <= x < k -> p (m x) = true) ->
  k = es \/ p (m k) = false -> skip p m s es = k.
Proof.
  intros B A S. destruct (skip_spec p m s es ltac:(lia)) as (B' & A' & S').
  destruct (Z_lt_dec k (skip p m s es)) as [L|L].
  - destruct S as [->|S]; [lia|]. rewrite A' in S by lia. discriminate.
  - destruct (Z_lt_dec (skip p m s es) k) as [L'|L']; [|lia].
    destruct S' as [S'|S']; [lia|]. rewrite A in S' by lia. discriminate.
Qed.

Lemma skip_idem p m s es : s <= es -> skip p m (skip p m s es) es = skip p m s es.
Proof.
  intros L. destruct (skip_spec p m s es L) as (B & A & S). apply skip_unique; [lia| |auto].
  intros; lia.
Qed.

Lemma is_word_not_ws c : is_word c = true -> is_ws c = false.
Proof. unfold is_word. intros H. breflect. auto. Qed.

Lemma in_set_In set c : in_set set c = true <-> In c set.
Proof.
  unfold in_set. rewrite existsb_exists. split.
  - intros (x & I & E). apply Z.eqb_eq in E. congruence.
  - intros I. exists c. rewrite Z.eqb_refl. auto.
Qed.

(** [strchr] of ulib.c decides membership in a constant set, as [in_set] does. *)
Lemma strchr_in_set m a set c fuel p :
  0 < a -> cstr m a set -> strchr fuel m a c = Some p -> (length set < fuel)%nat ->
  (p <> 0 <-> in_set set c = true).
Proof.
  intros A C P F. rewrite in_set_In.
  destruct (strchr_first m a c set fuel C F) as [(pre & post & -> & N & E)|[N E]];
    rewrite E in P; injection P as <-.
  - split; [intros _; apply in_elt|lia].
  - tauto.
Qed.

(** * Token streams *)

Section Lex.
Context (m : mem) (lo es : Z).
Hypothesis Hlo : lo <= es.
Hypothesis Hend : m es = 0.
Hypothesis Hline : forall x, lo <= x < es -> m x <> 0.

(** What [gettoken] promises about one token. *)
Definition tok_ok (t : tok) : Prop :=
  lo <= t_q t /\ t_q t < t_eq t <= es /\
  if is_wordtok t
  then (forall x, t_q t <= x < t_eq t -> is_word (m x) = true) /\
       (t_eq t = es \/ is_word (m (t_eq t)) = false)
  else in_set symbols (first_char t) = true /\ m (t_q t) = first_char t.

Inductive lexes : Z -> list tok -> Prop :=
| lexes_nil s :
    lo <= s <= es -> skip is_ws m s es = es -> lexes s []
| lexes_cons s t s' ts :
    lo <= s <= es -> t_q t = skip is_ws m s es -> tok_ok t ->
    gettoken m s es = (t_code t, t_q t, t_eq t, s') ->
    t_eq t <= s' -> lexes s' ts -> lexes s (t :: ts).

Lemma lexes_bound s ts : lexes s ts -> lo <= s <= es.
Proof. destruct 1; auto. Qed.

Lemma in_symbols_cases c :
  in_set symbols c = true -> c = #"<" \/ c = #"|" \/ c = #">" \/ c = #"&" \/ c = #";" \/ c = #"(" \/ c = #")".
Proof. rewrite in_set_In. cbn. intuition. Qed.

Lemma gettoken_ok s :
  lo <= s <= es -> skip is_ws m s es < es ->
  exists t s', gettoken m s es = (t_code t, t_q t, t_eq t, s') /\ tok_ok t /\
    t_q t = skip is_ws m s es /\ t_eq t <= s' <= es.
Proof.
  intros B Lt. destruct (skip_spec is_ws m s es ltac:(lia)) as (Bk & _ & Sk).
  destruct Sk as [Sk|Sk]; [lia|]. unfold gettoken.
  set (k := skip is_ws m s es) in *. pose proof (Hline k ltac:(lia)) as NZ.
  assert (Sp : forall x, x <= es -> x <= skip is_ws m x es <= es).
  { intros x Hx. apply skip_spec. auto. }
  rewrite (proj2 (Z.eqb_neq _ _) NZ).
  destruct (in_set ($"|();&<") (m k)) eqn:Sy.
  { exists (Tok (m k) k (k + 1)), (skip is_ws m (k + 1) es). cbn. split; [auto|].
    split; [|split; [auto|apply Sp; lia]]. unfold tok_ok, is_wordtok, first_char. cbn.
    apply in_set_In in Sy. split; [lia|]. split; [lia|].
    repeat (destruct Sy as [Sy|Sy]; [rewrite <- Sy; split; reflexivity|]). destruct Sy. }
  destruct (Z.eqb_spec (m k) (#">")) as [G|NG].
  - pose proof (Hline (k + 1)) as NZ1.
    destruct (Z.eqb_spec (m (k + 1)) (#">")) as [G1|NG1].
    + assert (k + 1 < es).
      { destruct (Z.eq_dec (k + 1) es) as [E|]; [|lia]. rewrite E, Hend in G1. discriminate. }
      exists (Tok (#"+") k (k + 1 + 1)), (skip is_ws m (k + 1 + 1) es). cbn. split; [auto|].
      split; [|split; [auto|apply Sp; lia]]. unfold tok_ok. cbn. rewrite G. repeat split; lia.
    + rewrite G. exists (Tok (#">") k (k + 1)), (skip is_ws m (k + 1) es). cbn. split; [auto|].
      split; [|split; [auto|apply Sp; lia]]. unfold tok_ok. cbn. rewrite G. repeat split; lia.
  - assert (W : is_word (m k) = true).
    { unfold is_word. rewrite Sk. cbn [negb andb]. apply negb_true_iff.
      destruct (in_set symbols (m k)) eqn:Y; auto. exfalso.
      apply in_symbols_cases in Y.
      repeat (destruct Y as [Y|Y]; [rewrite Y in *; solve [discriminate|congruence]|]).
      rewrite Y in *. discriminate. }
    destruct (skip_spec is_word m k es ltac:(lia)) as (Be & Ae & Se).
    assert (k < skip is_word m k es).
    { destruct (Z.eq_dec (skip is_word m k es) k) as [E|]; [|lia]. rewrite E in Se.
      destruct Se; [lia|congruence]. }
    eexists (Tok (#"a") k (skip is_word m k es)), _. cbn. split; [reflexivity|].
    split; [|split; [auto|apply Sp; lia]]. unfold tok_ok. cbn. repeat split; auto; lia.
Qed.

(** Every position starts a stream, with at most one token per character. *)
Lemma lexes_total s : lo <= s <= es -> exists ts, lexes s ts /\ len ts <= es - s.
Proof.
  remember (Z.to_nat (es - s)) as n eqn:N. revert s N.
  induction n as [n IH] using lt_wf_ind. intros s -> B.
  destruct (skip_spec is_ws m s es ltac:(lia)) as (Bk & _ & _).
  destruct (Z.eq_dec (skip is_ws m s es) es) as [E|NE].
  - exists []. split; [constructor; auto|cbn; lia].
  - destruct (gettoken_ok s B ltac:(lia)) as (t & s' & G & T & Q & S'). destruct T as (T1 & T2 & T3).
    destruct (IH (Z.to_nat (es - s')) ltac:(lia) s' eq_refl ltac:(lia)) as (ts & L & Ln).
    exists (t :: ts). split; [|cbn [length]; lia]. econstructor; eauto; [|lia].
    repeat split; auto; lia.
Qed.

(** Leading blanks do not matter. *)
Lemma gettoken_skip s : s <= es -> gettoken m (skip is_ws m s es) es = gettoken m s es.
Proof. intros L. unfold gettoken. rewrite skip_idem by auto. reflexivity. Qed.

Lemma lexes_skip s ts : lexes s ts -> lexes (skip is_ws m s es) ts.
Proof.
  intros X. pose proof (lexes_bound s ts X) as B.
  destruct (skip_spec is_ws m s es ltac:(lia)) as (Bk & _ & _).
  inv X; econstructor; eauto; rewrite ?skip_idem, ?gettoken_skip by lia; auto; lia.
Qed.

Lemma get_cons s t ts :
  lexes s (t :: ts) ->
  exists s', gettoken m s es = (t_code t, t_q t, t_eq t, s') /\ lexes s' ts.
Proof. intros X. inv X. eauto. Qed.

Lemma get_nil s : lexes s [] -> gettoken m s es = (0, es, es, es) /\ lexes es [].
Proof.
  intros X. inv X. unfold gettoken. rewrite H0, Hend. cbn [Z.eqb].
  assert (E : skip is_ws m es es = es) by (apply skip_unique; [lia|intros; lia|auto]).
  rewrite E. split; auto. constructor; auto; lia.
Qed.

(** [peek] tests the first token. *)
Definition next_in (set : list Z) (ts : list tok) : bool :=
  match ts with
  | [] => false
  | t :: _ => in_set set (first_char t)
  end.

Lemma peek_next s ts set :
  lexes s ts -> incl set symbols ->
  exists k, peek m s es set = (next_in set ts, k) /\ lexes k ts.
Proof.
  intros X I. exists (skip is_ws m s es). split; [|apply lexes_skip; auto].
  unfold peek. f_equal. inv X.
  - rewrite H0, Hend. reflexivity.
  - cbn [next_in]. destruct H1 as (T1 & T2 & T3). rewrite <- H0.
    rewrite (proj2 (Z.eqb_neq _ _)) by (apply Hline; lia). cbn [negb andb].
    destruct (is_wordtok t) eqn:W.
    + destruct T3 as [T3 _]. specialize (T3 (t_q t) ltac:(lia)).
      unfold is_wordtok in W. apply Z.eqb_eq in W. unfold first_char. rewrite W. cbn.
      transitivity false; [|symmetry].
      * apply not_true_iff_false. rewrite in_set_In. intros J. apply I in J.
        apply in_set_In in J. unfold is_word in T3. rewrite J, andb_false_r in T3. discriminate.
      * apply not_true_iff_false. rewrite in_set_In. intros J. apply I in J.
        cbn in J. intuition discriminate.
    + destruct T3 as [_ ->]. reflexivity.
Qed.

Lemma lexes_nil_iff s ts : lexes s ts -> (skip is_ws m s es = es <-> ts = []).
Proof.
  intros X. inv X; [tauto|]. destruct H1 as (_ & T & _). rewrite <- H0.
  split; [intros; exfalso; lia|discriminate].
Qed.

(** The tokens of a stream follow each other, and two words never touch. *)
Fixpoint spaced (lb : Z) (ts : list tok) : Prop :=
  match ts with
  | [] => True
  | t :: ts =>
      lb <= t_q t /\ tok_ok t /\ spaced (t_eq t) ts /\
      match ts with
      | u :: _ => is_wordtok t = true -> is_wordtok u = true -> t_eq t < t_q u
      | [] => True
      end
  end.

Lemma lexes_spaced s ts : lexes s ts -> spaced s ts.
Proof.
  induction 1 as [|s t s' ts B Q T G S X IH]; cbn [spaced]; auto.
  destruct (skip_spec is_ws m s es ltac:(lia)) as (Bk & _ & _). rewrite Q. split; [lia|].
  split; auto. pose proof T as (T1 & T2 & T3).
  assert (Hs' : s' = skip is_ws m (t_eq t) es).
  { unfold gettoken in G. clear -G.
    repeat match type of G with context [if ?b then _ else _] => destruct b end;
      inv G; cbn in *; subst; reflexivity. }
  destruct ts as [|u ts]; [auto|]. inv X. cbn [spaced] in *. destruct IH as (I1 & I2 & I3 & I4).
  split; [split; [lia|auto]|]. intros W1 W2.
  destruct (Z.eq_dec (t_eq t) (t_q u)) as [E|]; [|lia]. exfalso.
  rewrite W1 in T3. destruct T3 as [_ [T3|T3]].
  - destruct I2 as (_ & I2 & _). lia.
  - destruct I2 as (_ & J2 & J3). rewrite W2 in J3. rewrite E in T3.
    rewrite (proj1 J3) in T3 by lia. discriminate.
Qed.
End Lex.
