(* ===== verification/ShGrammar.v ===== *)
(** The grammar of command lines, and the parser of sh.c as its decision
    procedure: the parser always ends, every command it returns is derived by
    the grammar from the tokens it consumed, and it finds every derivation. *)

From S2P Require Import Prelude Mem Sys Ulib Printf ShParse ShLex.
Local Open Scope zm_scope.

(** * The grammar *)

(** The open mode and the descriptor of a redirection operator. *)
Definition redir_mode (t : tok) : option (Z * Z) :=
  if t_code t =? #"<" then Some (O_RDONLY, 0)
  else if t_code t =? #">" then Some (Z.lor (Z.lor O_WRONLY O_CREATE) O_TRUNC, 1)
  else if t_code t =? #"+" then Some (Z.lor O_WRONLY O_CREATE, 1)
  else None.

Definition sym (c : Z) (t : tok) : Prop := t_code t = c.

(** redirs ::= (("<" | ">" | ">>") word)*, each wrapping the command so far. *)
Inductive g_redirs : cmd -> list tok -> cmd -> Prop :=
| gr_nil c : g_redirs c [] c
| gr_cons c op w mode fd ts c' :
    redir_mode op = Some (mode, fd) -> is_wordtok w = true ->
    g_redirs (REDIR c (t_q w) (t_eq w) mode fd) ts c' ->
    g_redirs c (op :: w :: ts) c'.

(** args ::= (word redirs)*, at most nine words; [argc] are already stored. *)
Inductive g_args : Z -> cmd -> list tok -> cmd -> Prop :=
| ga_nil argc ret : g_args argc ret [] (set_arg ret argc 0 0)
| ga_cons argc ret w rs ret' ts c :
    is_wordtok w = true -> argc + 1 < MAXARGS ->
    g_redirs (set_arg ret argc (t_q w) (t_eq w)) rs ret' ->
    g_args (argc + 1) ret' ts c ->
    g_args argc ret (w :: rs ++ ts) c.

(** ("&")*, each making a background command. *)
Inductive g_backs : cmd -> list tok -> cmd -> Prop :=
| gb_nil c : g_backs c [] c
| gb_cons c a ts c' : sym (#"&") a -> g_backs (BACK c) ts c' -> g_backs c (a :: ts) c'.

(** exec ::= "(" line ")" redirs | redirs args
    pipe ::= exec | exec "|" pipe
    line ::= pipe backs | pipe backs ";" line *)
Inductive g_exec : list tok -> cmd -> Prop :=
| ge_block op ts cl rs c c' :
    sym (#"(") op -> g_line ts c -> sym (#")") cl -> g_redirs c rs c' ->
    g_exec (op :: ts ++ cl :: rs) c'
| ge_simple rs ret ts c :
    g_redirs execcmd rs ret -> g_args 0 ret ts c -> g_exec (rs ++ ts) c
with g_pipe : list tok -> cmd -> Prop :=
| gp_one ts c : g_exec ts c -> g_pipe ts c
| gp_more ts c b us d : g_exec ts c -> sym (#"|") b -> g_pipe us d -> g_pipe (ts ++ b :: us) (PIPE c d)
with g_line : list tok -> cmd -> Prop :=
| gl_one ts c bs c' : g_pipe ts c -> g_backs c bs c' -> g_line (ts ++ bs) c'
| gl_more ts c bs c' b us d :
    g_pipe ts c -> g_backs c bs c' -> sym (#";") b -> g_line us d ->
    g_line (ts ++ bs ++ b :: us) (LIST c' d).

Scheme g_exec_ind' := Induction for g_exec Sort Prop
with g_pipe_ind' := Induction for g_pipe Sort Prop
with g_line_ind' := Induction for g_line Sort Prop.
Combined Scheme g_mutind from g_exec_ind', g_pipe_ind', g_line_ind'.

(** What may come after a phrase: the end, or a token of [set]. *)
Definition follow (set : list Z) (ts : list tok) : bool :=
  match ts with
  | [] => true
  | t :: _ => in_set set (first_char t)
  end.

Lemma incl_symbols set : forallb (in_set symbols) set = true -> incl set symbols.
Proof. rewrite forallb_forall. intros H x I. apply in_set_In. auto. Qed.

(** * More fuel gives the same answer *)

Definition ple (r r' : pres) : Prop := r = PFuel \/ r = r'.

Lemma ple_refl r : ple r r.
Proof. right. reflexivity. Qed.

Lemma ple_bind r r' k k' :
  ple r r' -> (forall c s, ple (k c s) (k' c s)) -> ple (pbind r k) (pbind r' k').
Proof. intros [->| ->] H; [left; reflexivity|]. destruct r'; cbn; auto using ple_refl. Qed.

Create HintDb ple.
#[local] Hint Resolve ple_refl ple_bind : ple.

Ltac ple_tac :=
  repeat match goal with
         | |- ple PFuel _ => left; reflexivity
         | |- ple (match gettoken ?m ?s ?e with _ => _ end) _ =>
             destruct (gettoken m s e) as [[[? ?] ?] ?]
         | |- ple (match peek ?m ?s ?e ?t with _ => _ end) _ => destruct (peek m s e t) as [[] ?]
         | |- ple (if ?b then _ else _) _ => destruct b
         | |- ple (pbind _ _) (pbind _ _) => apply ple_bind; intros
         | |- ple _ _ => solve [auto with ple arith]
         end.

Section Mono.
Context (m : mem) (es : Z).

Lemma redirs_mono f f' c s : (f <= f')%nat -> ple (parseredirs f m es c s) (parseredirs f' m es c s).
Proof.
  revert f' c s. induction f as [|f IH]; intros [|f'] c s L; try lia; cbn [parseredirs]; ple_tac.
Qed.

Lemma backs_mono f f' c s : (f <= f')%nat -> ple (parsebacks f m es c s) (parsebacks f' m es c s).
Proof.
  revert f' c s. induction f as [|f IH]; intros [|f'] c s L; try lia; cbn [parsebacks]; ple_tac.
Qed.

#[local] Hint Resolve redirs_mono backs_mono : ple.

Lemma args_mono f f' argc ret s :
  (f <= f')%nat -> ple (parseargs f m es argc ret s) (parseargs f' m es argc ret s).
Proof.
  revert f' argc ret s. induction f as [|f IH]; intros [|f'] argc ret s L; try lia;
    cbn [parseargs]; ple_tac.
Qed.

#[local] Hint Resolve args_mono : ple.

Lemma parse_mono f f' s :
  (f <= f')%nat ->
  ple (parseline f m es s) (parseline f' m es s) /\ ple (parsepipe f m es s) (parsepipe f' m es s) /\
  ple (parseexec f m es s) (parseexec f' m es s) /\ ple (parseblock f m es s) (parseblock f' m es s).
Proof.
  revert f' s. induction f as [|f IH]; intros [|f'] s L; try lia;
    cbn [parseline parsepipe parseexec parseblock].
  1,2: repeat split; left; reflexivity.
  assert (I : forall s, ple (parseline f m es s) (parseline f' m es s) /\
    ple (parsepipe f m es s) (parsepipe f' m es s) /\ ple (parseexec f m es s) (parseexec f' m es s) /\
    ple (parseblock f m es s) (parseblock f' m es s)) by (intros; apply IH; lia).
  repeat split; ple_tac; apply I.
Qed.
End Mono.

(** * Soundness *)

Section Sound.
Context (m : mem) (lo es : Z).
Hypothesis Hlo : lo <= es.
Hypothesis Hend : m es = 0.
Hypothesis Hline : forall x, lo <= x < es -> m x <> 0.

Abbreviation lexes := (lexes m lo es).

(** The tokens [us] are consumed when the position becomes [s']. *)
Definition consumes (s' : Z) (ts : list tok) (P : list tok -> list tok -> Prop) : Prop :=
  exists us rest, ts = us ++ rest /\ lexes s' rest /\ P us rest.

Lemma peek_at s ts set b k :
  lexes s ts -> forallb (in_set symbols) set = true -> peek m s es set = (b, k) ->
  b = next_in set ts /\ lexes k ts.
Proof.
  intros X I P. destruct (peek_next m lo es Hlo Hend Hline s ts set X (incl_symbols _ I)) as (k' & E & L).
  rewrite E in P. inv P. auto.
Qed.

Lemma lexes_tok_ok s t ts : lexes s (t :: ts) -> tok_ok m lo es t.
Proof. intros X. inv X. auto. Qed.

Lemma tok_code_nonzero t : tok_ok m lo es t -> t_code t <> 0.
Proof.
  intros (_ & _ & T) E. unfold is_wordtok in T. rewrite E in T. cbn in T.
  destruct T as [T _]. unfold first_char in T. rewrite E in T. discriminate.
Qed.

(** The first character tells which symbol token it is. *)
Lemma first_char_sym c t : c <> #">" -> first_char t = c -> t_code t = c.
Proof. unfold first_char. destruct (t_code t =? #"+"); congruence. Qed.

Lemma sym_first_char c t : sym c t -> c <> #"+" -> first_char t = c.
Proof. unfold sym, first_char. intros -> N. rewrite (proj2 (Z.eqb_neq _ _) N). reflexivity. Qed.

Lemma next_in_one c ts :
  c <> #">" -> next_in [c] ts = true -> exists t ts', ts = t :: ts' /\ sym c t.
Proof.
  intros N. destruct ts as [|t ts]; cbn; [discriminate|]. rewrite orb_false_r. intros E.
  apply Z.eqb_eq in E. exists t, ts. split; auto. apply first_char_sym; auto.
Qed.

Lemma next_in_redir t ts :
  next_in ($"<>") (t :: ts) = true <-> redir_mode t <> None.
Proof.
  cbn. unfold redir_mode, first_char. destruct (Z.eqb_spec (t_code t) (#"+")) as [->|N]; cbn.
  - split; [discriminate|auto].
  - change (Z.of_nat (Pos.to_nat 60)) with (#"<"). change (Z.of_nat (Pos.to_nat 62)) with (#">").
    destruct (t_code t =? #"<"), (t_code t =? #">"); cbn; split; congruence || discriminate.
Qed.

Ltac peek_step X :=
  match goal with
  | H : context [peek m ?s es ?set] |- _ =>
      let b := fresh "b" in let k := fresh "k" in let P := fresh "P" in let Eb := fresh "Eb" in
      let X' := fresh "X" in
      destruct (peek m s es set) as [b k] eqn:P;
      destruct (peek_at s _ set b k X eq_refl P) as [Eb X']
  end.

Lemma redirs_sound f c s ts c' s' :
  lexes s ts -> parseredirs f m es c s = POk c' s' ->
  consumes s' ts (fun us rest => g_redirs c us c' /\ next_in ($"<>") rest = false).
Proof.
  revert c s ts. induction f as [|f IH]; intros c s ts X E; cbn [parseredirs] in E; [discriminate|].
  peek_step X. destruct b.
  2:{ inv E. exists [], ts. repeat split; auto. constructor. }
  destruct ts as [|op ts]; [discriminate|].
  destruct (get_cons _ _ _ _ _ _ X0) as (s1 & G1 & X1). rewrite G1 in E.
  destruct (gettoken m s1 es) as [[[t q] eq] s2] eqn:G2.
  destruct (Z.eqb_spec t (#"a")) as [->|N]; cbn [negb] in E; [|discriminate].
  destruct ts as [|w ts].
  { destruct (get_nil _ _ _ Hlo Hend _ X1) as [G _]. rewrite G2 in G. discriminate. }
  destruct (get_cons _ _ _ _ _ _ X1) as (s2' & G & X2). rewrite G2 in G. inv G.
  symmetry in Eb. apply next_in_redir in Eb. unfold redir_mode in Eb.
  destruct (redir_mode op) as [[mode fd]|] eqn:M; [|unfold redir_mode in M; congruence].
  assert (C : (if t_code op =? #"<" then redircmd c (t_q w) (t_eq w) O_RDONLY 0
    else if t_code op =? #">" then
      redircmd c (t_q w) (t_eq w) (Z.lor (Z.lor O_WRONLY O_CREATE) O_TRUNC) 1
    else if t_code op =? #"+" then redircmd c (t_q w) (t_eq w) (Z.lor O_WRONLY O_CREATE) 1
    else c) = REDIR c (t_q w) (t_eq w) mode fd).
  { unfold redir_mode in M. unfold redircmd.
    repeat match type of M with context [if ?b then _ else _] => destruct b end; inv M; auto. }
  rewrite C in E. destruct (IH _ _ _ X2 E) as (us & rest & -> & X3 & G & F).
  exists (op :: w :: us), rest. repeat split; auto. econstructor; eauto.
  unfold is_wordtok. rewrite <- H0. reflexivity.
Qed.

Lemma args_sound f argc ret s ts c s' :
  lexes s ts -> parseargs f m es argc ret s = POk c s' ->
  consumes s' ts (fun us rest => g_args argc ret us c /\ follow ($"|)&;") rest = true).
Proof.
  revert argc ret s ts. induction f as [|f IH]; intros argc ret s ts X E; cbn [parseargs] in E;
    [discriminate|].
  peek_step X. destruct b.
  { inv E. exists [], ts. repeat split; auto; [constructor|]. destruct ts; auto. }
  destruct ts as [|w ts].
  { destruct (get_nil _ _ _ Hlo Hend _ X0) as [G X1]. rewrite G in E. cbn in E. inv E.
    exists [], []. repeat split; auto. constructor. }
  destruct (get_cons _ _ _ _ _ _ X0) as (s1 & G1 & X1). rewrite G1 in E.
  pose proof (tok_code_nonzero w (lexes_tok_ok _ _ _ X0)) as NZ.
  rewrite (proj2 (Z.eqb_neq _ _) NZ) in E.
  destruct (Z.eqb_spec (t_code w) (#"a")) as [W|N]; cbn [negb] in E; [|discriminate].
  destruct (Z.leb_spec MAXARGS (argc + 1)) as [|Lt]; [discriminate|].
  destruct (parseredirs f m es (set_arg ret argc (t_q w) (t_eq w)) s1) as [ret' s2| |] eqn:R;
    cbn [pbind] in E; try discriminate.
  destruct (redirs_sound _ _ _ _ _ _ X1 R) as (rs & ts' & -> & X2 & G & _).
  destruct (IH _ _ _ _ X2 E) as (us & rest & -> & X3 & A & F).
  exists (w :: rs ++ us), rest. split; [cbn; rewrite app_assoc; auto|]. split; auto. split; auto.
  econstructor; eauto. unfold is_wordtok. rewrite W. reflexivity.
Qed.

Lemma backs_sound f c s ts c' s' :
  lexes s ts -> parsebacks f m es c s = POk c' s' ->
  consumes s' ts (fun us rest => g_backs c us c' /\ next_in ($"&") rest = false).
Proof.
  revert c s ts. induction f as [|f IH]; intros c s ts X E; cbn [parsebacks] in E; [discriminate|].
  peek_step X. destruct b.
  2:{ inv E. exists [], ts. repeat split; auto. constructor. }
  symmetry in Eb. apply next_in_one in Eb as (a & ts' & -> & A); [|discriminate].
  destruct (get_cons _ _ _ _ _ _ X0) as (s1 & G1 & X1). rewrite G1 in E.
  destruct (IH _ _ _ X1 E) as (us & rest & -> & X2 & G & F).
  exists (a :: us), rest. repeat split; auto. econstructor; eauto.
Qed.

Lemma parse_sound f :
  (forall s ts c s', lexes s ts -> parseline f m es s = POk c s' ->
     consumes s' ts (fun us _ => g_line us c)) /\
  (forall s ts c s', lexes s ts -> parsepipe f m es s = POk c s' ->
     consumes s' ts (fun us _ => g_pipe us c)) /\
  (forall s ts c s', lexes s ts -> parseexec f m es s = POk c s' ->
     consumes s' ts (fun us _ => g_exec us c)) /\
  (forall s ts c s', lexes s ts -> parseblock f m es s = POk c s' ->
     consumes s' ts (fun us _ => g_exec us c)).
Proof.
  induction f as [|f (IHl & IHp & IHe & IHb)]; [repeat split; discriminate|].
  repeat split; intros s ts c s' X E; cbn [parseline parsepipe parseexec parseblock] in E.
  - destruct (parsepipe f m es s) as [c1 s1| |] eqn:P1; cbn [pbind] in E; try discriminate.
    destruct (IHp _ _ _ _ X P1) as (us1 & r1 & -> & X1 & G1).
    destruct (parsebacks f m es c1 s1) as [c2 s2| |] eqn:P2; cbn [pbind] in E; try discriminate.
    destruct (backs_sound _ _ _ _ _ _ X1 P2) as (us2 & r2 & -> & X2 & G2 & _).
    peek_step X2. destruct b.
    2:{ inv E. exists (us1 ++ us2), r2. rewrite app_assoc. repeat split; auto. eapply gl_one; eauto. }
    symmetry in Eb. apply next_in_one in Eb as (b & ts' & -> & Sb); [|discriminate].
    destruct (get_cons _ _ _ _ _ _ X0) as (s3 & G3 & X3). rewrite G3 in E.
    destruct (parseline f m es s3) as [d s4| |] eqn:P4; cbn [pbind] in E; try discriminate. inv E.
    destruct (IHl _ _ _ _ X3 P4) as (us4 & r4 & -> & X4 & G4).
    exists (us1 ++ us2 ++ b :: us4), r4. split; [rewrite <- !app_assoc; auto|]. split; auto.
    eapply gl_more; eauto.
  - destruct (parseexec f m es s) as [c1 s1| |] eqn:P1; cbn [pbind] in E; try discriminate.
    destruct (IHe _ _ _ _ X P1) as (us1 & r1 & -> & X1 & G1).
    peek_step X1. destruct b.
    2:{ inv E. exists us1, r1. repeat split; auto. constructor; auto. }
    symmetry in Eb. apply next_in_one in Eb as (b & ts' & -> & Sb); [|discriminate].
    destruct (get_cons _ _ _ _ _ _ X0) as (s3 & G3 & X3). rewrite G3 in E.
    destruct (parsepipe f m es s3) as [d s4| |] eqn:P4; cbn [pbind] in E; try discriminate. inv E.
    destruct (IHp _ _ _ _ X3 P4) as (us4 & r4 & -> & X4 & G4).
    exists (us1 ++ b :: us4), r4. split; [rewrite <- !app_assoc; auto|]. split; auto.
    eapply gp_more; eauto.
  - peek_step X. destruct b; [eauto|].
    destruct (parseredirs f m es execcmd k) as [ret s1| |] eqn:P1; cbn [pbind] in E; try discriminate.
    destruct (redirs_sound _ _ _ _ _ _ X0 P1) as (rs & r1 & -> & X1 & G1 & _).
    destruct (args_sound _ _ _ _ _ _ _ X1 E) as (us & rest & -> & X2 & G2 & _).
    exists (rs ++ us), rest. rewrite app_assoc. repeat split; auto. eapply ge_simple; eauto.
  - peek_step X. destruct b; cbn [negb] in E; [|discriminate].
    symmetry in Eb. apply next_in_one in Eb as (op & ts' & -> & So); [|discriminate].
    destruct (get_cons _ _ _ _ _ _ X0) as (s1 & G1 & X1). rewrite G1 in E.
    destruct (parseline f m es s1) as [c1 s2| |] eqn:P2; cbn [pbind] in E; try discriminate.
    destruct (IHl _ _ _ _ X1 P2) as (us2 & r2 & -> & X2 & G2).
    peek_step X2. destruct b; cbn [negb] in E; [|discriminate].
    symmetry in Eb. apply next_in_one in Eb as (cl & ts'' & -> & Sc); [|discriminate].
    destruct (get_cons _ _ _ _ _ _ X3) as (s3 & G3 & X4). rewrite G3 in E.
    destruct (redirs_sound _ _ _ _ _ _ X4 E) as (rs & rest & -> & X5 & G5 & _).
    exists (op :: us2 ++ cl :: rs), rest. split; [cbn; rewrite <- !app_assoc; auto|].
    split; auto. eapply ge_block; eauto.
Qed.
(** ** The parser always ends *)

Ltac next_of Eb :=
  symmetry in Eb; apply next_in_one in Eb as (?t & ?ts' & -> & ?St); [|discriminate].

Ltac gpeek X X' Eb :=
  match goal with
  | |- context [peek m ?s es ?set] =>
      let P := fresh "P" in let b := fresh "b" in let k := fresh "k" in
      destruct (peek m s es set) as [b k] eqn:P;
      destruct (peek_at s _ set b k X eq_refl P) as [Eb X']; destruct b
  end.

Ltac bind_step P :=
  match goal with
  | |- pbind ?r _ <> PFuel =>
      let c := fresh "c" in let s := fresh "s" in
      destruct r as [c s| |] eqn:P; cbn [pbind]; [|discriminate|]
  end.

Lemma redirs_total f c s ts : lexes s ts -> (length ts < f)%nat -> parseredirs f m es c s <> PFuel.
Proof.
  revert c s ts. induction f as [|f IH]; intros c s ts X L; [lia|]. cbn [parseredirs].
  gpeek X X0 Eb; [|discriminate].
  destruct ts as [|op ts]; [discriminate|].
  destruct (get_cons _ _ _ _ _ _ X0) as (s1 & G1 & X1). rewrite G1.
  destruct (gettoken m s1 es) as [[[t q] eq] s2] eqn:G2.
  destruct (Z.eqb_spec t (#"a")) as [->|N]; cbn [negb]; [|discriminate].
  destruct ts as [|w ts].
  { destruct (get_nil _ _ _ Hlo Hend _ X1) as [G _]. rewrite G2 in G. discriminate. }
  destruct (get_cons _ _ _ _ _ _ X1) as (s2' & G & X2). rewrite G2 in G. inv G.
  eapply IH; eauto. cbn in L. lia.
Qed.

Lemma args_total f argc ret s ts :
  lexes s ts -> (length ts < f)%nat -> parseargs f m es argc ret s <> PFuel.
Proof.
  revert argc ret s ts. induction f as [|f IH]; intros argc ret s ts X L; [lia|]. cbn [parseargs].
  gpeek X X0 Eb; [discriminate|].
  destruct ts as [|w ts].
  { destruct (get_nil _ _ _ Hlo Hend _ X0) as [G X1]. rewrite G. discriminate. }
  destruct (get_cons _ _ _ _ _ _ X0) as (s1 & G1 & X1). rewrite G1. cbn in L.
  destruct (t_code w =? 0), (negb (t_code w =? #"a")), (MAXARGS <=? argc + 1); try discriminate.
  bind_step R.
  - destruct (redirs_sound _ _ _ _ _ _ X1 R) as (rs & ts' & -> & X2 & _).
    eapply IH; eauto. rewrite length_app in L. lia.
  - exfalso. eapply redirs_total; [exact X1| |exact R]. lia.
Qed.

Lemma backs_total f c s ts : lexes s ts -> (length ts < f)%nat -> parsebacks f m es c s <> PFuel.
Proof.
  revert c s ts. induction f as [|f IH]; intros c s ts X L; [lia|]. cbn [parsebacks].
  gpeek X X0 Eb; [|discriminate].
  next_of Eb. destruct (get_cons _ _ _ _ _ _ X0) as (s1 & G1 & X1). rewrite G1.
  eapply IH; eauto. cbn in L. lia.
Qed.

Lemma parse_total f :
  (forall s ts, lexes s ts -> (4 * length ts + 4 <= f)%nat -> parseline f m es s <> PFuel) /\
  (forall s ts, lexes s ts -> (4 * length ts + 3 <= f)%nat -> parsepipe f m es s <> PFuel) /\
  (forall s ts, lexes s ts -> (4 * length ts + 2 <= f)%nat -> parseexec f m es s <> PFuel) /\
  (forall s ts, lexes s ts -> (4 * length ts + 1 <= f)%nat -> parseblock f m es s <> PFuel).
Proof.
  induction f as [|f (IHl & IHp & IHe & IHb)]; [repeat split; lia|].
  destruct (parse_sound f) as (Sl & Sp & Se & _).
  repeat split; intros s ts X L; cbn [parseline parsepipe parseexec parseblock].
  - bind_step P1; [|exfalso; eapply IHp; eauto; lia].
    destruct (Sp _ _ _ _ X P1) as (us1 & r1 & -> & X1 & _). rewrite length_app in L.
    bind_step P2; [|exfalso; eapply backs_total; [exact X1| |exact P2]; lia].
    destruct (backs_sound _ _ _ _ _ _ X1 P2) as (us2 & r2 & -> & X2 & _). rewrite length_app in L.
    gpeek X2 X3 Eb; [|discriminate].
    next_of Eb. destruct (get_cons _ _ _ _ _ _ X3) as (s3 & G3 & X4). rewrite G3. cbn in L.
    bind_step P3; [discriminate|exfalso; eapply IHl; eauto; lia].
  - bind_step P1; [|exfalso; eapply IHe; eauto; lia].
    destruct (Se _ _ _ _ X P1) as (us1 & r1 & -> & X1 & _). rewrite length_app in L.
    gpeek X1 X3 Eb; [|discriminate].
    next_of Eb. destruct (get_cons _ _ _ _ _ _ X3) as (s3 & G3 & X4). rewrite G3. cbn in L.
    bind_step P3; [discriminate|exfalso; eapply IHp; eauto; lia].
  - gpeek X X1 Eb; [eapply IHb; eauto; lia|].
    bind_step P1; [|exfalso; eapply redirs_total; [exact X1| |exact P1]; lia].
    destruct (redirs_sound _ _ _ _ _ _ X1 P1) as (rs & r1 & -> & X2 & _).
    eapply args_total; eauto. rewrite length_app in L. lia.
  - gpeek X X1 Eb; cbn [negb]; [|discriminate].
    next_of Eb. destruct (get_cons _ _ _ _ _ _ X1) as (s1 & G1 & X2). rewrite G1. cbn in L.
    bind_step P1; [|exfalso; eapply IHl; eauto; lia].
    destruct (Sl _ _ _ _ X2 P1) as (us2 & r2 & -> & X3 & _). rewrite length_app in L.
    gpeek X3 X4 Eb; cbn [negb]; [|discriminate].
    next_of Eb. destruct (get_cons _ _ _ _ _ _ X4) as (s3 & G3 & X5). rewrite G3. cbn in L.
    eapply redirs_total; eauto. lia.
Qed.

(** * Completeness *)

(** What a derivation gives: some fuel is enough for the parser to follow it. *)
Definition reaches (p : nat -> pres) (c : cmd) (rest : list tok) : Prop :=
  exists f s', p f = POk c s' /\ lexes s' rest.

Lemma peek_is s ts set :
  lexes s ts -> forallb (in_set symbols) set = true ->
  exists k, peek m s es set = (next_in set ts, k) /\ lexes k ts.
Proof.
  intros X I. apply (peek_next m lo es Hlo Hend Hline); auto using incl_symbols.
Qed.

Lemma redirs_complete c us c' rest s :
  g_redirs c us c' -> lexes s (us ++ rest) -> next_in ($"<>") rest = false ->
  reaches (fun f => parseredirs f m es c s) c' rest.
Proof.
  intros G. revert s. induction G as [c|c op w mode fd us c' M W G IH]; intros s X F.
  - destruct (peek_is s _ ($"<>") X eq_refl) as (k & P & X'). exists 1%nat, k.
    cbn [parseredirs]. rewrite P. cbn [app] in *. rewrite F. auto.
  - cbn [app] in X. destruct (peek_is s _ ($"<>") X eq_refl) as (k & P & X0).
    destruct (get_cons _ _ _ _ _ _ X0) as (s1 & G1 & X1).
    destruct (get_cons _ _ _ _ _ _ X1) as (s2 & G2 & X2).
    destruct (IH s2 X2 F) as (f & s' & E & X'). exists (S f), s'. split; auto.
    cbn [parseredirs]. rewrite P.
    rewrite (proj2 (next_in_redir op _)) by congruence. rewrite G1, G2.
    unfold is_wordtok in W. rewrite W. cbn [negb].
    unfold redir_mode in M.
    repeat match type of M with context [if ?b then _ else _] => destruct b end; inv M; auto.
Qed.

Lemma word_first w set : is_wordtok w = true -> in_set set (#"a") = false -> in_set set (first_char w) = false.
Proof. unfold is_wordtok, first_char. intros W N. apply Z.eqb_eq in W. rewrite W. auto. Qed.

Lemma follow_next set set' rest :
  follow set rest = true -> forallb (fun c => negb (in_set set' c)) set = true ->
  next_in set' rest = false.
Proof.
  destruct rest as [|t rest]; auto. cbn [follow next_in]. intros F D.
  rewrite forallb_forall in D. apply in_set_In in F. apply D in F. apply negb_true_iff in F. auto.
Qed.

Lemma follow_not_redir rest : follow ($"|)&;") rest = true -> next_in ($"<>") rest = false.
Proof. intros F. eapply follow_next; [exact F|reflexivity]. Qed.

Lemma args_head_not_redir argc ret us c rest :
  g_args argc ret us c -> follow ($"|)&;") rest = true -> next_in ($"<>") (us ++ rest) = false.
Proof.
  intros G F. inv G; [apply follow_not_redir; auto|]. cbn [app next_in].
  apply word_first; auto.
Qed.

Lemma args_complete argc ret us c rest s :
  g_args argc ret us c -> lexes s (us ++ rest) -> follow ($"|)&;") rest = true ->
  reaches (fun f => parseargs f m es argc ret s) c rest.
Proof.
  intros G. revert s. induction G as [argc ret|argc ret w rs ret' us c W B R G IH]; intros s X F.
  - cbn [app] in X. destruct (peek_is s _ ($"|)&;") X eq_refl) as (k & P & X').
    destruct rest as [|t rest].
    + destruct (get_nil _ _ _ Hlo Hend _ X') as [Gt X1]. exists 1%nat, es.
      cbn [parseargs]. rewrite P. cbn [next_in]. rewrite Gt. auto.
    + exists 1%nat, k. cbn [parseargs]. rewrite P. cbn [next_in follow] in *. rewrite F. auto.
  - cbn [app] in X. destruct (peek_is s _ ($"|)&;") X eq_refl) as (k & P & X0).
    destruct (get_cons _ _ _ _ _ _ X0) as (s1 & G1 & X1). rewrite <- app_assoc in X1.
    destruct (redirs_complete _ _ _ _ _ R X1 (args_head_not_redir _ _ _ _ _ G F)) as (f1 & s2 & E1 & X2).
    destruct (IH s2 X2 F) as (f2 & s' & E2 & X'). exists (S (f1 + f2)), s'. split; auto.
    cbn [parseargs]. rewrite P. cbn [next_in]. rewrite word_first, G1 by auto.
    unfold is_wordtok in W. apply Z.eqb_eq in W. rewrite W. cbn [Z.eqb negb].
    change (#"a" =? 0) with false. rewrite Z.eqb_refl. cbn [negb].
    rewrite (proj2 (Z.leb_gt _ _)) by lia.
    destruct (redirs_mono m es f1 (f1 + f2) (set_arg ret argc (t_q w) (t_eq w)) s1 ltac:(lia)) as [N|N];
      [congruence|]. rewrite <- N, E1. cbn [pbind].
    destruct (args_mono m es f2 (f1 + f2) (argc + 1) ret' s2 ltac:(lia)) as [N'|N']; congruence.
Qed.

Lemma backs_complete c us c' rest s :
  g_backs c us c' -> lexes s (us ++ rest) -> next_in ($"&") rest = false ->
  reaches (fun f => parsebacks f m es c s) c' rest.
Proof.
  intros G. revert s. induction G as [c|c a us c' A G IH]; intros s X F.
  - destruct (peek_is s _ ($"&") X eq_refl) as (k & P & X'). exists 1%nat, k.
    cbn [parsebacks]. rewrite P. cbn [app] in *. rewrite F. auto.
  - cbn [app] in X. destruct (peek_is s _ ($"&") X eq_refl) as (k & P & X0).
    destruct (get_cons _ _ _ _ _ _ X0) as (s1 & G1 & X1).
    destruct (IH s1 X1 F) as (f & s' & E & X'). exists (S f), s'. split; auto.
    cbn [parsebacks]. rewrite P. cbn [next_in]. rewrite (sym_first_char _ _ A), G1 by discriminate. auto.
Qed.

Lemma follow_incl set set' rest :
  follow set rest = true -> incl set set' -> follow set' rest = true.
Proof.
  destruct rest as [|t rest]; auto. cbn. rewrite !in_set_In. auto.
Qed.

Lemma ple_ok r r' c s : ple r r' -> r = POk c s -> r' = POk c s.
Proof. intros [->| ->]; congruence. Qed.

Lemma more_fuel f f' s c s' :
  (f <= f')%nat ->
  (parseline f m es s = POk c s' -> parseline f' m es s = POk c s') /\
  (parsepipe f m es s = POk c s' -> parsepipe f' m es s = POk c s') /\
  (parseexec f m es s = POk c s' -> parseexec f' m es s = POk c s') /\
  (parseblock f m es s = POk c s' -> parseblock f' m es s = POk c s').
Proof.
  intros L. destruct (parse_mono m es f f' s L) as (A & B & C & D).
  repeat split; apply ple_ok; auto.
Qed.

Lemma exec_head_simple rs ret us c rest :
  g_redirs execcmd rs ret -> g_args 0 ret us c -> follow ($"|)&;") rest = true ->
  next_in ($"(") ((rs ++ us) ++ rest) = false.
Proof.
  intros R A F. inv R; cbn [app].
  - inv A; cbn [app]; [eapply follow_next; [exact F|reflexivity]|]. apply word_first; auto.
  - cbn [next_in]. unfold redir_mode in H. unfold first_char.
    destruct (Z.eqb_spec (t_code op) (#"<")) as [->|]; [reflexivity|].
    destruct (Z.eqb_spec (t_code op) (#">")) as [->|]; [reflexivity|].
    destruct (Z.eqb_spec (t_code op) (#"+")) as [_|]; [reflexivity|discriminate].
Qed.

Lemma next_sym b set t ts : sym b t -> b <> #"+" -> next_in set (t :: ts) = in_set set b.
Proof. intros S N. cbn. rewrite (sym_first_char _ _ S N). reflexivity. Qed.

Definition exec_ok (us : list tok) (c : cmd) : Prop :=
  forall rest s, lexes s (us ++ rest) -> follow ($"|)&;") rest = true ->
    reaches (fun f => parseexec f m es s) c rest.
Definition pipe_ok (us : list tok) (c : cmd) : Prop :=
  forall rest s, lexes s (us ++ rest) -> follow ($")&;") rest = true ->
    reaches (fun f => parsepipe f m es s) c rest.
Definition line_ok (us : list tok) (c : cmd) : Prop :=
  forall rest s, lexes s (us ++ rest) -> follow ($")") rest = true ->
    reaches (fun f => parseline f m es s) c rest.

Lemma block_complete op us cl rs c c' :
  sym (#"(") op -> line_ok us c -> sym (#")") cl -> g_redirs c rs c' ->
  exec_ok (op :: us ++ cl :: rs) c'.
Proof.
  intros So IH Sc R rest s X F. cbn [app] in X. rewrite <- app_assoc in X. cbn [app] in X.
  destruct (peek_is s _ ($"(") X eq_refl) as (k & P & X0).
  destruct (peek_is k _ ($"(") X0 eq_refl) as (k' & P' & X1).
  rewrite (next_sym _ _ _ _ So) in P, P' by discriminate.
  destruct (get_cons _ _ _ _ _ _ X1) as (s1 & G1 & X2).
  destruct (IH (cl :: rs ++ rest) s1 X2) as (f1 & s2 & E1 & X3).
  { cbn. rewrite (sym_first_char _ _ Sc) by discriminate. reflexivity. }
  destruct (peek_is s2 _ ($")") X3 eq_refl) as (k2 & P2 & X4).
  rewrite (next_sym _ _ _ _ Sc) in P2 by discriminate.
  destruct (get_cons _ _ _ _ _ _ X4) as (s3 & G3 & X5).
  destruct (redirs_complete _ _ _ _ _ R X5 (follow_not_redir _ F)) as (f2 & s4 & E2 & X6).
  exists (S (S (f1 + f2))), s4. split; auto. cbn [parseexec]. rewrite P. cbn iota.
  change (in_set ($"(") (#"(")) with true. cbn iota. cbn [parseblock]. rewrite P'.
  change (in_set ($"(") (#"(")) with true. cbn [negb]. rewrite G1.
  rewrite (proj1 (more_fuel f1 (f1 + f2) s1 c s2 ltac:(lia)) E1). cbn [pbind]. rewrite P2.
  change (in_set ($")") (#")")) with true. cbn [negb]. rewrite G3.
  eapply ple_ok; [apply redirs_mono|exact E2]. lia.
Qed.

Lemma simple_complete rs ret us c :
  g_redirs execcmd rs ret -> g_args 0 ret us c -> exec_ok (rs ++ us) c.
Proof.
  intros R A rest s X F. pose proof (exec_head_simple _ _ _ _ _ R A F) as H.
  destruct (peek_is s _ ($"(") X eq_refl) as (k & P & X0). rewrite H in P. rewrite <- app_assoc in X0.
  destruct (redirs_complete _ _ _ _ _ R X0 (args_head_not_redir _ _ _ _ _ A F)) as (f1 & s1 & E1 & X1).
  destruct (args_complete _ _ _ _ _ _ A X1 F) as (f2 & s2 & E2 & X2).
  exists (S (f1 + f2)), s2. split; auto. cbn [parseexec]. rewrite P.
  rewrite (ple_ok _ _ _ _ (redirs_mono m es f1 (f1 + f2) execcmd k ltac:(lia)) E1). cbn [pbind].
  eapply ple_ok; [apply args_mono|exact E2]. lia.
Qed.

Lemma parse_complete :
  (forall us c, g_exec us c -> exec_ok us c) /\ (forall us c, g_pipe us c -> pipe_ok us c) /\
  (forall us c, g_line us c -> line_ok us c).
Proof.
  apply g_mutind; intros.
  - eapply block_complete; eauto.
  - eapply simple_complete; eauto.
  - intros rest s X F.
    destruct (H rest s X (follow_incl _ ($"|)&;") _ F ltac:(intros x; cbn; intuition))) as (f & s1 & E1 & X1).
    destruct (peek_is s1 _ ($"|") X1 eq_refl) as (k & P & X2).
    exists (S f), k. split; auto. cbn [parsepipe]. rewrite E1. cbn [pbind]. rewrite P.
    rewrite (follow_next _ ($"|") _ F eq_refl). reflexivity.
  - intros rest s0 X F. rewrite <- app_assoc in X. cbn [app] in X.
    destruct (H (b :: us ++ rest) s0 X) as (f1 & s1 & E1 & X1).
    { cbn. rewrite (sym_first_char _ _ s) by discriminate. reflexivity. }
    destruct (peek_is s1 _ ($"|") X1 eq_refl) as (k & P & X2).
    rewrite (next_sym _ _ _ _ s) in P by discriminate.
    destruct (get_cons _ _ _ _ _ _ X2) as (s2 & G & X3).
    destruct (H0 rest s2 X3 F) as (f2 & s3 & E2 & X4). exists (S (f1 + f2)), s3. split; auto.
    cbn [parsepipe]. rewrite (proj1 (proj2 (proj2 (more_fuel f1 (f1 + f2) s0 c s1 ltac:(lia)))) E1).
    cbn [pbind]. rewrite P. change (in_set ($"|") (#"|")) with true. cbn iota. rewrite G.
    rewrite (proj1 (proj2 (more_fuel f2 (f1 + f2) s2 d s3 ltac:(lia))) E2). reflexivity.
  - intros rest s X F. rewrite <- app_assoc in X.
    destruct (H (bs ++ rest) s X) as (f1 & s1 & E1 & X1).
    { inv g0; cbn [app]; [eapply follow_incl; [exact F|intros x; cbn; intuition]|].
      cbn. rewrite (sym_first_char _ _ H0) by discriminate. reflexivity. }
    destruct (backs_complete _ _ _ _ _ g0 X1 (follow_next _ ($"&") _ F eq_refl)) as (f2 & s2 & E2 & X2).
    destruct (peek_is s2 _ ($";") X2 eq_refl) as (k & P & X3).
    exists (S (f1 + f2)), k. split; auto. cbn [parseline].
    rewrite (proj1 (proj2 (more_fuel f1 (f1 + f2) s c s1 ltac:(lia))) E1). cbn [pbind].
    rewrite (ple_ok _ _ _ _ (backs_mono m es f2 (f1 + f2) c s1 ltac:(lia)) E2). cbn [pbind].
    rewrite P, (follow_next _ ($";") _ F eq_refl). reflexivity.
  - intros rest s0 X F. rewrite <- !app_assoc in X. cbn [app] in X.
    destruct (H (bs ++ b :: us ++ rest) s0 X) as (f1 & s1 & E1 & X1).
    { inv g0; cbn [app follow].
      - rewrite (sym_first_char _ _ s) by discriminate. reflexivity.
      - rewrite (sym_first_char _ _ H1) by discriminate. reflexivity. }
    destruct (backs_complete _ _ _ (b :: us ++ rest) s1 g0 X1) as (f2 & s2 & E2 & X2).
    { rewrite (next_sym _ _ _ _ s) by discriminate. reflexivity. }
    destruct (peek_is s2 _ ($";") X2 eq_refl) as (k & P & X3).
    rewrite (next_sym _ _ _ _ s) in P by discriminate.
    destruct (get_cons _ _ _ _ _ _ X3) as (s3 & G & X4).
    destruct (H0 rest s3 X4 F) as (f3 & s4 & E3 & X5). exists (S (f1 + f2 + f3)), s4. split; auto.
    cbn [parseline]. set (F' := (f1 + f2 + f3)%nat).
    rewrite (proj1 (proj2 (more_fuel f1 F' s0 c s1 ltac:(lia))) E1). cbn [pbind].
    rewrite (ple_ok _ _ _ _ (backs_mono m es f2 F' c s1 ltac:(lia)) E2). cbn [pbind].
    rewrite P. change (in_set ($";") (#";")) with true. cbn iota. rewrite G.
    rewrite (proj1 (more_fuel f3 F' s3 d s4 ltac:(lia)) E3). reflexivity.
Qed.
End Sound.
