(* ===== verification/ShParseSpec.v ===== *)
(** What parsing a command line achieves: theorems about [parseline],
    [nulterminate] and [parsecmd] of src/user/sh.c. *)

From S2P Require Import Prelude Mem Sys Ulib Printf ShParse ShLex ShGrammar.
From ITree Require Import ITree.
Local Open Scope zm_scope.

(** * The words of a command *)

(** The pointer pairs of the arguments, up to the null pointer. *)
Fixpoint argpairs (argv eargv : list Z) : list (Z * Z) :=
  match argv, eargv with
  | a :: argv, e :: eargv => if a =? 0 then [] else (a, e) :: argpairs argv eargv
  | _, _ => []
  end.

Fixpoint words (c : cmd) : list (Z * Z) :=
  match c with
  | EXEC argv eargv => argpairs argv eargv
  | REDIR c file efile _ _ => words c ++ [(file, efile)]
  | PIPE l r | LIST l r => words l ++ words r
  | BACK c => words c
  end.

(** Argument arrays as [parseexec] leaves them: [ps] stored, then nulls. *)
Definition stored (argv eargv : list Z) (ps : list (Z * Z)) : Prop :=
  (length ps < 10)%nat /\
  argv = map fst ps ++ repeat 0 (10 - length ps) /\
  eargv = map snd ps ++ repeat 0 (10 - length ps) /\
  Forall (fun p => fst p <> 0) ps.

Fixpoint wf_cmd (c : cmd) : Prop :=
  match c with
  | EXEC argv eargv => exists ps, stored argv eargv ps
  | REDIR c _ _ _ _ => wf_cmd c
  | PIPE l r | LIST l r => wf_cmd l /\ wf_cmd r
  | BACK c => wf_cmd c
  end.

(** A simple command with [argc] arguments so far. *)
Fixpoint chain (c : cmd) (argc : Z) : Prop :=
  match c with
  | EXEC argv eargv => exists ps, stored argv eargv ps /\ argc = len ps
  | REDIR c _ _ _ _ => chain c argc
  | _ => False
  end.

Lemma argpairs_stored argv eargv ps : stored argv eargv ps -> argpairs argv eargv = ps.
Proof.
  intros (L & -> & -> & N). revert L. generalize 10%nat as k. induction N as [|[q e] ps Q N IH].
  - intros k L. cbn. destruct k; [lia|]. reflexivity.
  - intros k L. cbn in *. rewrite (proj2 (Z.eqb_neq _ _) Q). destruct k; [lia|]. cbn.
    rewrite IH by lia. reflexivity.
Qed.

Lemma list_set_app {A} (l l' : list A) n v :
  n = length l -> list_set (l ++ l') n v = l ++ list_set l' 0 v.
Proof. intros ->. induction l; cbn; f_equal; auto. Qed.

Lemma stored_snoc argv eargv ps q e :
  stored argv eargv ps -> len ps + 1 < MAXARGS -> q <> 0 ->
  stored (list_set argv (length ps) q) (list_set eargv (length ps) e) (ps ++ [(q, e)]).
Proof.
  intros (L & -> & -> & N) B Q. unfold MAXARGS in B.
  assert (R : repeat 0 (10 - length ps) = 0 :: repeat 0 (9 - length ps)).
  { replace (10 - length ps)%nat with (S (9 - length ps)) by lia. reflexivity. }
  rewrite R, !list_set_app by (rewrite length_map; auto). cbn [list_set]. unfold stored.
  rewrite length_app, !map_app, <- !app_assoc. cbn [length map fst snd app].
  replace (10 - (length ps + 1))%nat with (9 - length ps)%nat by lia.
  split; [lia|]. rewrite Forall_app. repeat split; auto.
Qed.

Lemma chain_set c argc q e :
  chain c argc -> argc + 1 < MAXARGS -> q <> 0 ->
  chain (set_arg c argc q e) (argc + 1) /\
  (forall p, In p (words (set_arg c argc q e)) -> In p (words c) \/ p = (q, e)).
Proof.
  intros C B Q. induction c as [argv eargv|c IH f ef mo fd| | |]; cbn [chain set_arg words] in *; try tauto.
  - destruct C as (ps & S & ->). pose proof (stored_snoc _ _ _ q e S B Q) as S'.
    rewrite Nat2Z.id. split; [exists (ps ++ [(q, e)]); split; auto; len_solve|].
    rewrite (argpairs_stored _ _ _ S), (argpairs_stored _ _ _ S'). intros p I.
    apply in_app_or in I. cbn in I. intuition.
  - destruct (IH C) as [IH1 IH2]. split; auto. intros p I. apply in_app_or in I as [I|I].
    + apply IH2 in I as [I|I]; auto. left. apply in_or_app. auto.
    + left. apply in_or_app. auto.
Qed.

(** Storing the final null pointers changes nothing: they are there already. *)
Lemma chain_finish c argc : chain c argc -> set_arg c argc 0 0 = c.
Proof.
  intros C. induction c as [argv eargv|c IH f ef mo fd| | |]; cbn [chain set_arg] in *; try tauto.
  - destruct C as (ps & (L & -> & -> & _) & ->). rewrite Nat2Z.id.
    rewrite !list_set_app by (rewrite length_map; auto). do 2 f_equal;
      (replace (10 - length ps)%nat with (S (9 - length ps)) by lia; reflexivity).
  - rewrite IH; auto.
Qed.

Lemma chain_wf c argc : chain c argc -> wf_cmd c.
Proof.
  induction c as [argv eargv|c IH f ef mo fd| | |]; cbn; try tauto.
  intros (ps & S & _). eauto.
Qed.

Lemma chain_execcmd : chain execcmd 0.
Proof. exists []. repeat split; auto. cbn. lia. Qed.

(** * Words come from word tokens *)

Definition from_tokens (ts : list tok) (ps : list (Z * Z)) : Prop :=
  forall p, In p ps -> exists t, In t ts /\ is_wordtok t = true /\ p = (t_q t, t_eq t).

Lemma from_mono ts ts' ps : from_tokens ts ps -> incl ts ts' -> from_tokens ts' ps.
Proof. intros F I p Hp. destruct (F p Hp) as (t & It & W). exists t. auto. Qed.

Lemma from_app ts ps ps' : from_tokens ts ps -> from_tokens ts ps' -> from_tokens ts (ps ++ ps').
Proof. intros F F' p Hp. apply in_app_or in Hp as [Hp|Hp]; auto. Qed.

Lemma from_app_iff ts ps ps' :
  from_tokens ts (ps ++ ps') <-> from_tokens ts ps /\ from_tokens ts ps'.
Proof.
  split; [|intros []; apply from_app; auto].
  intros F. split; intros p Hp; apply F, in_or_app; auto.
Qed.

Definition pos_words (ts : list tok) : Prop :=
  forall t, In t ts -> is_wordtok t = true -> t_q t <> 0.

(** All grammar phrases keep commands well formed and take words from [all]. *)
Section Words.
Context (all : list tok) (Hpos : pos_words all).

Lemma redirs_words c ts c' :
  g_redirs c ts c' -> incl ts all -> from_tokens all (words c) ->
  from_tokens all (words c') /\ (wf_cmd c -> wf_cmd c') /\ (forall n, chain c n -> chain c' n).
Proof.
  induction 1 as [c|c op w mode fd ts c' M W G IH]; intros I F; [auto|].
  apply incl_cons_inv in I as [I1 I]. apply incl_cons_inv in I as [I2 I].
  destruct IH as (A & B & C); auto. cbn [words]. apply from_app; auto.
  intros p [<-|[]]. eauto.
Qed.

Lemma args_words argc ret ts c :
  g_args argc ret ts c -> incl ts all -> from_tokens all (words ret) -> chain ret argc ->
  from_tokens all (words c) /\ wf_cmd c.
Proof.
  induction 1 as [argc ret|argc ret w rs ret' ts c W B R G IH]; intros I F C.
  - rewrite chain_finish by auto. split; auto. eapply chain_wf; eauto.
  - apply incl_cons_inv in I as [I1 I]. apply incl_app_inv in I as [I2 I].
    destruct (chain_set ret argc (t_q w) (t_eq w) C B (Hpos _ I1 W)) as [C1 F1].
    assert (F2 : from_tokens all (words (set_arg ret argc (t_q w) (t_eq w)))).
    { intros p Hp. destruct (F1 p Hp) as [Hp'| ->]; eauto. }
    destruct (redirs_words _ _ _ R I2 F2) as (F3 & _ & C3). auto.
Qed.

Lemma backs_words c ts c' :
  g_backs c ts c' -> from_tokens all (words c) -> wf_cmd c ->
  from_tokens all (words c') /\ wf_cmd c'.
Proof. induction 1; auto. Qed.

Lemma line_words :
  (forall ts c, g_exec ts c -> incl ts all -> from_tokens all (words c) /\ wf_cmd c) /\
  (forall ts c, g_pipe ts c -> incl ts all -> from_tokens all (words c) /\ wf_cmd c) /\
  (forall ts c, g_line ts c -> incl ts all -> from_tokens all (words c) /\ wf_cmd c).
Proof.
  apply g_mutind; intros;
    repeat match goal with
           | H : incl (_ :: _) _ |- _ => apply incl_cons_inv in H as [? H]
           | H : incl (_ ++ _) _ |- _ => apply incl_app_inv in H as [? H]
           | H : incl ?ts all -> _, H' : incl ?ts all |- _ => specialize (H H')
           | H : _ /\ _ |- _ => destruct H
           end; auto.
  - destruct (redirs_words _ _ _ g0) as (A & B & _); auto.
  - assert (F : from_tokens all (words execcmd)) by (intros p []).
    destruct (redirs_words _ _ _ g) as (A & B & C); auto.
    eapply args_words; eauto. apply C, chain_execcmd.
  - cbn [words wf_cmd]. rewrite from_app_iff. auto.
  - eapply backs_words; eauto.
  - destruct (backs_words _ _ _ g0); auto. cbn [words wf_cmd]. rewrite from_app_iff. auto.
Qed.
End Words.

(** * nulterminate *)

(** Memory after a NUL was put at the end of every word of [ps]. *)
Definition nul_at (ps : list (Z * Z)) (m : mem) : mem := fold_left (fun m p => upd m (snd p) 0) ps m.

Lemma nul_args_stored argv eargv ps m :
  stored argv eargv ps -> nul_args argv eargv m = Some (nul_at ps m).
Proof.
  intros (L & -> & -> & N). unfold nul_at. revert L m. generalize 10%nat as k.
  induction N as [|[q e] ps Q N IH]; intros k L m; cbn in *.
  - destruct k; [lia|]. reflexivity.
  - rewrite (proj2 (Z.eqb_neq _ _) Q). destruct k; [lia|]. apply IH. lia.
Qed.

(** [nulterminate] is total on parsed commands: it never runs past the end of
    an argument array. *)
Lemma nulterminate_words c m : wf_cmd c -> nulterminate c m = Some (nul_at (words c) m).
Proof.
  unfold nul_at. revert m. induction c as [argv eargv|c IH f ef mo fd|l IHl r IHr|l IHl r IHr|c IH];
    intros m W; cbn [wf_cmd nulterminate words] in *; rewrite ?fold_left_app; auto.
  - destruct W as (ps & S). rewrite (argpairs_stored _ _ _ S). apply nul_args_stored. auto.
  - rewrite IH by auto. reflexivity.
  - destruct W as [Wl Wr]. rewrite IHl by auto. auto.
  - destruct W as [Wl Wr]. rewrite IHl by auto. auto.
Qed.

Lemma nul_at_spec ps m x :
  nul_at ps m x = if existsb (fun p => snd p =? x) ps then 0 else m x.
Proof.
  unfold nul_at. revert m. induction ps as [|p ps IH]; intros m; cbn; auto.
  rewrite IH. unfold upd. rewrite (Z.eqb_sym x). destruct (snd p =? x); cbn; auto.
  destruct (existsb _ ps); auto.
Qed.

Lemma nul_at_hit ps m p : In p ps -> nul_at ps m (snd p) = 0.
Proof.
  intros I. rewrite nul_at_spec. replace (existsb _ ps) with true; auto. symmetry.
  apply existsb_exists. exists p. rewrite Z.eqb_refl. auto.
Qed.

Lemma nul_at_miss ps m x : (forall p, In p ps -> snd p <> x) -> nul_at ps m x = m x.
Proof.
  intros N. rewrite nul_at_spec. destruct (existsb _ ps) eqn:B; auto. exfalso.
  apply existsb_exists in B as (p & I & E). apply Z.eqb_eq in E. eapply N; eauto.
Qed.

Section Line.
Context (m : mem) (s : Z) (line : list Z).
Hypothesis Hs : 0 < s.
Hypothesis Hstr : cstr m s line.

Let es : Z := s + len line.
Abbreviation lexes := (lexes m s es).

Lemma line_lo : s <= es. Proof using. clear. subst es. lia. Qed.
Lemma line_end : m es = 0. Proof using Hstr. apply Hstr. Qed.
Lemma line_nz x : s <= x < es -> m x <> 0.
Proof using Hstr.
  intros B. destruct Hstr as (N & L & _). unfold nonul in N. rewrite Forall_forall in N. apply N.
  rewrite <- L. replace (m x) with (nth (Z.to_nat (x - s)) (load m s (length line)) 0).
  - apply nth_In. rewrite load_length. subst es. lia.
  - rewrite load_nth by (subst es; lia). f_equal. lia.
Qed.

Lemma line_lexes : exists ts, lexes s ts /\ (length ts <= length line)%nat.
Proof using Hstr.
  destruct (lexes_total m s es line_end line_nz s) as (ts & L & N); [subst es; lia|].
  exists ts. split; auto. subst es. lia.
Qed.

(** Two words of a stream are separated by at least one character. *)
Lemma spaced_lb lb ts t : spaced m s es lb ts -> In t ts -> lb <= t_q t /\ tok_ok m s es t.
Proof using.
  revert lb. induction ts as [|u ts IH]; intros lb Sp I; [destruct I|].
  destruct Sp as (B & T & Sp & _), I as [->|I]; [auto|].
  destruct (IH _ Sp I). destruct T as (_ & T & _). split; [lia|auto].
Qed.

Lemma spaced_words lb ts t u :
  spaced m s es lb ts -> In t ts -> In u ts -> is_wordtok t = true -> is_wordtok u = true ->
  t = u \/ t_eq t < t_q u \/ t_eq u < t_q t.
Proof using.
  assert (After : forall lb t ts u, spaced m s es lb (t :: ts) -> In u ts -> is_wordtok t = true ->
            is_wordtok u = true -> t_eq t < t_q u).
  { intros lb' t' ts' u' (_ & _ & Sp & G) I Wt Wu. destruct ts' as [|v ts']; [destruct I|].
    destruct I as [->|I]; [auto|]. pose proof (spaced_lb _ _ v Sp (or_introl eq_refl)) as [Bv (_ & Tv & _)].
    destruct Sp as (_ & _ & Sp & _). destruct (spaced_lb _ _ u' Sp I). lia. }
  revert lb. induction ts as [|v ts IH]; intros lb Sp It Iu Wt Wu; [destruct It|].
  destruct It as [->|It], Iu as [->|Iu]; auto.
  - right; left. eapply After; eauto.
  - right; right. eapply After; eauto.
  - destruct Sp as (_ & _ & Sp & _). eauto.
Qed.

(** The text of a word, as the line has it. *)
Definition word_text (p : Z * Z) : list Z := load m (fst p) (Z.to_nat (snd p - fst p)).

Lemma word_place ts ps p :
  lexes s ts -> from_tokens ts ps -> In p ps -> s <= fst p < snd p /\ snd p <= es.
Proof using.
  intros X F I. pose proof (lexes_spaced _ _ _ _ _ X) as Sp.
  destruct (F p I) as (t & It & _ & ->). cbn [fst snd].
  destruct (spaced_lb _ _ _ Sp It) as [_ (T1 & T2 & _)]. lia.
Qed.

(** Terminating words terminates exactly them: each word reads as its text. *)
Lemma words_terminated ts ps p :
  lexes s ts -> from_tokens ts ps -> In p ps -> cstr (nul_at ps m) (fst p) (word_text p).
Proof using Hstr.
  intros X F I. pose proof (lexes_spaced _ _ _ _ _ X) as Sp.
  destruct (F p I) as (t & It & Wt & ->). cbn [fst snd]. unfold word_text. cbn [fst snd].
  destruct (spaced_lb _ _ _ Sp It) as [_ (T1 & T2 & T3)].
  assert (K : forall x, t_q t <= x < t_eq t -> nul_at ps m x = m x).
  { intros x Hx. apply nul_at_miss. intros p' I'. destruct (F p' I') as (u & Iu & Wu & ->). cbn [snd].
    destruct (spaced_lb _ _ _ Sp Iu) as [_ (_ & U2 & _)].
    destruct (spaced_words _ _ _ _ Sp It Iu Wt Wu) as [<-|[?|?]]; lia. }
  split; [|split].
  - apply Forall_forall. intros c Ic. apply In_nth with (d := 0) in Ic as (i & Hi & <-).
    rewrite load_length in Hi. rewrite load_nth by auto. apply line_nz. lia.
  - rewrite load_length. apply load_ext. intros x Hx. apply K. lia.
  - rewrite load_length, Z2Nat.id by lia. replace (t_q t + (t_eq t - t_q t)) with (t_eq t) by lia.
    apply (nul_at_hit ps m (t_q t, t_eq t)). auto.
Qed.
End Line.

(** * The messages of a rejected line *)

Definition messages : list (list Z) :=
  [$"missing file for redirection"; $"syntax"; $"too many args"; $"parseblock"; $"syntax - missing )"].

Definition panic_ok (r : pres) : Prop :=
  match r with PPanic msg => In msg messages | _ => True end.

Lemma panic_ok_bind r k : panic_ok r -> (forall c s, panic_ok (k c s)) -> panic_ok (pbind r k).
Proof. destruct r; cbn; auto. Qed.

Create HintDb panics.
#[local] Hint Resolve panic_ok_bind : panics.

Ltac panic_tac :=
  repeat match goal with
         | |- panic_ok PFuel => exact I
         | |- panic_ok (POk _ _) => exact I
         | |- panic_ok (PPanic _) => cbn; tauto
         | |- panic_ok (match gettoken ?m ?s ?e with _ => _ end) =>
             destruct (gettoken m s e) as [[[? ?] ?] ?]
         | |- panic_ok (match peek ?m ?s ?e ?t with _ => _ end) => destruct (peek m s e t) as [[] ?]
         | |- panic_ok (if ?b then _ else _) => destruct b
         | |- panic_ok (pbind _ _) => apply panic_ok_bind; intros
         | |- panic_ok _ => solve [auto with panics]
         end.

Lemma redirs_panic f m es c s : panic_ok (parseredirs f m es c s).
Proof. revert c s. induction f as [|f IH]; intros; cbn [parseredirs]; panic_tac. Qed.
#[local] Hint Resolve redirs_panic : panics.

Lemma backs_panic f m es c s : panic_ok (parsebacks f m es c s).
Proof. revert c s. induction f as [|f IH]; intros; cbn [parsebacks]; panic_tac. Qed.
#[local] Hint Resolve backs_panic : panics.

Lemma args_panic f m es argc ret s : panic_ok (parseargs f m es argc ret s).
Proof. revert argc ret s. induction f as [|f IH]; intros; cbn [parseargs]; panic_tac. Qed.
#[local] Hint Resolve args_panic : panics.

Lemma parse_panic f m es s :
  panic_ok (parseline f m es s) /\ panic_ok (parsepipe f m es s) /\
  panic_ok (parseexec f m es s) /\ panic_ok (parseblock f m es s).
Proof.
  revert s. induction f as [|f IH]; intros s; [repeat split; exact I|].
  repeat split; cbn [parseline parsepipe parseexec parseblock]; panic_tac; apply IH.
Qed.

Lemma messages_bytes msg : In msg messages -> bytes msg.
Proof. cbn. intros H. repeat destruct H as [<-|H]; try (repeat constructor; discriminate). destruct H. Qed.

Lemma panic_spec {R} E msg h (Q : outcome R -> history -> Prop) :
  bytes msg ->
  (forall h', calls h' = calls h ++ byte_writes 2 (msg ++ [newline]) -> Q (Exited 1) h') ->
  twp E Q h (panic msg).
Proof.
  intros B H. unfold panic. tstep. eapply twp_mono.
  - apply (vprintf_emits E 2 ($"%s" ++ [newline]) [AStr (Some msg)] (msg ++ [newline])).
    + repeat constructor; discriminate.
    + repeat constructor. exact B.
    + reflexivity.
  - intros o h' (-> & C). cbn [seqpost]. tstep. auto.
Qed.

(** * Theorems *)

Section Theorems.
Context (m : mem) (s : Z) (line : list Z).
Hypothesis Hs : 0 < s.
Hypothesis Hstr : cstr m s line.
Let es : Z := s + len line.

Lemma parse_enough ts :
  lexes m s es s ts -> (length ts <= length line)%nat ->
  parseline (parse_fuel (length line)) m es s <> PFuel.
Proof using Hstr.
  intros X L.
  apply (parse_total m s es (line_lo s line) (line_end m s line Hstr) (line_nz m s line Hstr)
           (parse_fuel (length line))) with (ts := ts); auto.
  unfold parse_fuel. lia.
Qed.

(** The parser accepts exactly the derivable lines, with the derived command. *)
Lemma parse_iff ts c :
  lexes m s es s ts -> (length ts <= length line)%nat ->
  ((exists s', parseline (parse_fuel (length line)) m es s = POk c s' /\ skip is_ws m s' es = es)
   <-> g_line ts c).
Proof using Hstr.
  intros X L.
  pose proof (line_lo s line) as Lo. pose proof (line_end m s line Hstr) as En.
  pose proof (line_nz m s line Hstr) as Nz. fold es in Lo, En, Nz. split.
  - intros (s' & P & K).
    destruct (proj1 (parse_sound m s es Lo En Nz _) s ts c s' X P) as (us & rest & -> & X' & G).
    apply (lexes_nil_iff m s es s' rest) in K; auto. subst rest. rewrite app_nil_r. auto.
  - intros G.
    destruct (proj2 (proj2 (parse_complete m s es Lo En Nz)) ts c G [] s) as (f & s' & P & X');
      [rewrite app_nil_r; auto|reflexivity|].
    exists s'. split; [|apply (lexes_nil_iff m s es s' []); auto].
    set (f0 := parse_fuel (length line)). pose proof (parse_enough ts X L) as NF. fold f0 in NF.
    destruct (proj1 (parse_mono m es f0 (max f f0) s ltac:(lia))) as [Z0|E1]; [congruence|].
    destruct (proj1 (parse_mono m es f (max f f0) s ltac:(lia))) as [Z0|E2]; [congruence|].
    congruence.
Qed.

(** The parser stops inside the line. *)
Lemma parsed_bound ts f c s' :
  lexes m s es s ts -> parseline f m es s = POk c s' -> s <= skip is_ws m s' es <= es.
Proof using Hstr.
  intros X P. pose proof (line_lo s line) as Lo. pose proof (line_end m s line Hstr) as En.
  pose proof (line_nz m s line Hstr) as Nz. fold es in Lo, En, Nz.
  destruct (proj1 (parse_sound m s es Lo En Nz f) s ts c s' X P) as (us & rest & _ & X' & _).
  apply lexes_bound in X'. destruct (skip_spec is_ws m s' es) as (K & _ & _); lia.
Qed.

Lemma leftover_bytes k : bytes line -> s <= k -> bytes (load m k (Z.to_nat (es - k))).
Proof using Hstr.
  intros B K. destruct Hstr as (_ & L & _).
  destruct (Z_le_dec k es) as [Le|]; [|replace (Z.to_nat (es - k)) with O by lia; constructor].
  replace (length line) with (Z.to_nat (k - s) + Z.to_nat (es - k))%nat in L by (subst es; lia).
  rewrite load_app in L. replace (s + Z.of_nat (Z.to_nat (k - s))) with k in L by lia.
  rewrite <- L, bytes_app in B. apply B.
Qed.

Lemma pos_words_line ts : lexes m s es s ts -> pos_words ts.
Proof using Hs.
  intros X t I _. apply lexes_spaced in X.
  destruct (spaced_lb m s line s ts t X I) as [B _]. lia.
Qed.
End Theorems.

(** C1: the parser of the shell decides its grammar.  On any NUL-terminated
    line it ends within fuel linear in the length of the line, the line has a
    token stream, and the parser succeeds having consumed the whole line, with
    command [c], exactly when the grammar derives [c] from the tokens; the
    grammar is unambiguous. *)
Theorem sh_parse_grammar m s line :
  cstr m s line ->
  let es := s + len line in
  let r := parseline (parse_fuel (length line)) m es s in
  exists ts, lexes m s es s ts /\ r <> PFuel /\
    (forall c, (exists s', r = POk c s' /\ skip is_ws m s' es = es) <-> g_line ts c) /\
    (forall c c', g_line ts c -> g_line ts c' -> c = c').
Proof.
  intros C es r. destruct (line_lexes m s line C) as (ts & X & L). exists ts.
  split; [auto|]. split; [eapply parse_enough; eauto|]. split.
  - intros c. apply parse_iff; auto.
  - intros c c' G G'. apply (parse_iff m s line C ts _ X L) in G, G'.
    destruct G as (s1 & P1 & _), G' as (s2 & P2 & _). congruence.
Qed.

Lemma sh_parse_grammar_witness :
  let line := $"(ls -l | wc) > out & ; echo hi" in
  let es := 100 + len line in
  let r := parseline (parse_fuel (length line)) (mem_of 100 line) es 100 in
  exists ts, lexes (mem_of 100 line) 100 es 100 ts /\ r <> PFuel /\
    (forall c, (exists s', r = POk c s' /\ skip is_ws (mem_of 100 line) s' es = es) <-> g_line ts c) /\
    (forall c c', g_line ts c -> g_line ts c' -> c = c').
Proof.
  apply sh_parse_grammar, cstr_mem_of. repeat constructor; discriminate.
Defined.

(** What [parsecmd] leaves: the parsed command and its terminated words, or a
    message and status 1 for a line outside the grammar. *)
Definition parsed (m : mem) (s : Z) (line : list Z) (ts : list tok) (h : history)
  (o : outcome (cmd * mem)) (h' : history) : Prop :=
  match o with
  | Done (c, m') =>
      h' = h /\ g_line ts c /\ wf_cmd c /\
      (forall p, In p (words c) ->
         s <= fst p < snd p /\ snd p <= s + len line /\ cstr m' (fst p) (word_text m p)) /\
      (forall x, m' x = if existsb (fun p => snd p =? x) (words c) then 0 else m x)
  | Exited n =>
      n = 1 /\ (forall c, ~ g_line ts c) /\
      exists pre msg, In msg messages /\ calls h' = calls h ++ byte_writes 2 (pre ++ msg ++ [newline])
  | _ => False
  end.

Lemma parsecmd_spec E h m s line ts :
  0 < s -> cstr m s line -> bytes line -> lexes m s (s + len line) s ts ->
  (length ts <= length line)%nat ->
  twp E (parsed m s line ts h) h (parsecmd m s line).
Proof.
  intros Hs C B X L. unfold parsed.
  pose proof (parse_iff m s line C ts) as I. pose proof (parse_enough m s line C ts X L) as NF.
  pose proof (parse_panic (parse_fuel (length line)) m (s + len line) s) as [PM _].
  unfold parsecmd, peek.
  destruct (parseline _ m (s + len line) s) as [c s'|msg|] eqn:P; [| |congruence].
  - destruct (Z.eqb_spec (skip is_ws m s' (s + len line)) (s + len line)) as [K|K]; cbn [negb].
    + assert (G : g_line ts c) by (apply I; eauto).
      destruct (line_words ts (pos_words_line m s line Hs ts X)) as (_ & _ & W).
      destruct (W ts c G (incl_refl _)) as [F Wf]. rewrite nulterminate_words by auto. tstep.
      split; [auto|]. split; [auto|]. split; [auto|]. split.
      * intros p Hp. split; [|split].
        -- eapply word_place; eauto.
        -- eapply word_place; eauto.
        -- eapply words_terminated; eauto.
      * intros x. apply nul_at_spec.
    + pose proof (parsed_bound m s line C ts _ _ _ X P).
      assert (N : forall c, ~ g_line ts c).
      { intros c' G. apply I in G; auto. destruct G as (s2 & P2 & K2). congruence. }
      set (rest := load m _ _). tstep. eapply twp_mono.
      * apply (vprintf_emits E 2 ($"leftovers: %s" ++ [newline]) [AStr (Some rest)]
                 ($"leftovers: " ++ rest ++ [newline])).
        -- repeat constructor; discriminate.
        -- repeat constructor. apply (leftover_bytes m s line C _ B). lia.
        -- reflexivity.
      * intros o h1 (-> & Cl). cbn [seqpost]. apply panic_spec; [repeat constructor; discriminate|].
        intros h' Cl'. repeat split; auto. exists ($"leftovers: " ++ rest ++ [newline]), ($"syntax").
        split; [cbn; tauto|]. rewrite Cl', Cl, <- app_assoc, <- byte_writes_app. reflexivity.
  - assert (N : forall c, ~ g_line ts c).
    { intros c' G. apply I in G; auto. destruct G as (s2 & P2 & K2). congruence. }
    apply panic_spec; [apply messages_bytes; auto|]. intros h' Cl. repeat split; auto.
    exists [], msg. auto.
Qed.

(** [parsecmd] on any line always ends, after no system call, with the
    command the grammar derives, argument arrays with at most nine words and a
    null pointer after them, and each of its words a NUL-terminated string
    equal to the text of its token while the rest of the memory is unchanged;
    or, when the line is not in the grammar, with a message on descriptor 2
    that ends in one of five phrases and status 1. *)
Theorem sh_parsecmd E h m s line :
  0 < s -> cstr m s line -> bytes line ->
  exists ts, lexes m s (s + len line) s ts /\ twp E (parsed m s line ts h) h (parsecmd m s line).
Proof.
  intros Hs C B. destruct (line_lexes m s line C) as (ts & X & L). exists ts. split; auto.
  apply parsecmd_spec; auto.
Qed.

Lemma sh_parsecmd_witness :
  let line := $"cat < in | grep x >> out" in
  exists ts, lexes (mem_of 64 line) 64 (64 + len line) 64 ts /\
    twp xv6 (parsed (mem_of 64 line) 64 line ts []) [] (parsecmd (mem_of 64 line) 64 line).
Proof.
  apply sh_parsecmd; [lia|apply cstr_mem_of; repeat constructor; discriminate|].
  repeat constructor; discriminate.
Defined.
