(* ===== verification/ShRun.v ===== *)
(** The shell's command interpreter: [runcmd], [getcmd], [main] and [fork1] of
    src/user/sh.c.

    A process that forks goes on once with the reply 0 (the child) and once
    with the child's id (the parent): the tree has both continuations, and a
    run follows the one its environment replies for.  [runcmd] does not return
    in C; here every one of its paths ends in [exit_] or in a successful
    [exec]. *)

From S2P Require Import Prelude Mem Sys Ulib Printf ShParse.
From ITree Require Import ITree.
Import ITreeNotations.
Local Open Scope itree_scope.
Local Open Scope zm_scope.

(** * Strings the kernel reads *)

(** The string at [p], of at most [n] characters. *)
Fixpoint str_at (n : nat) (m : mem) (p : Z) : list Z :=
  match n with
  | O => []
  | S n => if m p =? 0 then [] else m p :: str_at n m (p + 1)
  end.

(** The argument strings, up to the null pointer. *)
Fixpoint args_at (n : nat) (m : mem) (argv : list Z) : list (list Z) :=
  match argv with
  | [] => []
  | a :: argv => if a =? 0 then [] else str_at n m a :: args_at n m argv
  end.

(** * Running commands *)

Definition fork1 : prog Z :=
  pid <- sysret CFork ;;
  (if pid =? -1 then panic ($"fork") else Ret tt) ;;
  Ret pid.

(** What the child of [PIPE] does before it runs its side: end [end_] of the
    pipe [p] becomes descriptor [fd]. *)
Definition pipe_child (fd end_ p0 p1 : Z) : prog unit :=
  sysret (CClose fd) ;;
  sysret (CDup end_) ;;
  sysret (CClose p0) ;;
  sysret (CClose p1) ;;
  Ret tt.

(** [runcmd(cmd)]; [n] bounds the length of the strings (the line buffer). *)
Fixpoint runcmd (n : nat) (m : mem) (c : cmd) : prog unit :=
  match c with
  | EXEC argv _ =>
      (if nth 0 argv 0 =? 0 then exit_ 1 else Ret tt) ;;
      sysret (CExec (str_at n m (nth 0 argv 0)) (args_at n m argv)) ;;
      fprintf 2 ($"exec %s failed" ++ [newline]) [AStr (Some (str_at n m (nth 0 argv 0)))] ;;
      exit_ 0
  | REDIR c file _ mode fd =>
      sysret (CClose fd) ;;
      r <- sysret (COpen (str_at n m file) mode) ;;
      (if r <? 0 then
         fprintf 2 ($"open %s failed" ++ [newline]) [AStr (Some (str_at n m file))] ;; exit_ 1
       else Ret tt) ;;
      runcmd n m c ;;
      exit_ 0
  | LIST lcmd rcmd =>
      pid <- fork1 ;;
      (if pid =? 0 then runcmd n m lcmd else Ret tt) ;;
      sysret (CWait false) ;;
      runcmd n m rcmd ;;
      exit_ 0
  | PIPE lcmd rcmd =>
      r <- sys CPipe ;;
      let p0 := nth 0 (r_out r) 0 in
      let p1 := nth 1 (r_out r) 0 in
      (if r_ret r <? 0 then panic ($"pipe") else Ret tt) ;;
      pid <- fork1 ;;
      (if pid =? 0 then pipe_child 1 p1 p0 p1 ;; runcmd n m lcmd else Ret tt) ;;
      pid <- fork1 ;;
      (if pid =? 0 then pipe_child 0 p0 p0 p1 ;; runcmd n m rcmd else Ret tt) ;;
      sysret (CClose p0) ;;
      sysret (CClose p1) ;;
      sysret (CWait false) ;;
      sysret (CWait false) ;;
      exit_ 0
  | BACK c =>
      pid <- fork1 ;;
      (if pid =? 0 then runcmd n m c else Ret tt) ;;
      exit_ 0
  end.

(** * The command loop *)

(** [getcmd(buf, nbuf)]: -1 at end of input; the memory has the new line. *)
Definition getcmd (m : mem) (buf nbuf : Z) : prog (Z * mem) :=
  sysret (CWrite 2 ($"$ ")) ;;
  match memset (S (Z.to_nat nbuf)) m buf 0 nbuf with
  | Some (m, _) =>
      l <- gets (load m buf (Z.to_nat nbuf)) nbuf ;;
      let m := store m buf l in
      Ret (if m buf =? 0 then -1 else 0, m)
  | None => abort
  end.

(** [while((fd = open("console", O_RDWR)) >= 0)]: one turn. *)
Definition console_turn (_ : unit) : prog (unit + unit) :=
  fd <- sysret (COpen ($"console") O_RDWR) ;;
  if fd >=? 0 then
    if fd >=? 3 then sysret (CClose fd) ;; Ret (inr tt) else Ret (inl tt)
  else Ret (inr tt).

(** [chdir] must be called by the shell itself, not by a child. *)
Definition is_cd (m : mem) (buf : Z) : bool :=
  (m buf =? #"c") && (m (buf + 1) =? #"d") && (m (buf + 2) =? #" ").

Definition cd_turn (m : mem) (buf : Z) (n : nat) : prog mem :=
  match strlen (S n) m buf with
  | Some len =>
      let m := upd m (buf + u32 (len - 1)) 0 in
      r <- sysret (CChdir (str_at n m (buf + 3))) ;;
      (if r <? 0 then fprintf 2 ($"cannot cd %s" ++ [newline]) [AStr (Some (str_at n m (buf + 3)))]
       else Ret tt) ;;
      Ret m
  | None => abort
  end.

(** One turn of the command loop, on the static buffer [buf] of [nbuf] bytes. *)
Definition main_turn (buf nbuf : Z) (m : mem) : prog (mem + unit) :=
  '(r, m) <- getcmd m buf nbuf ;;
  if r >=? 0 then
    let n := Z.to_nat nbuf in
    if is_cd m buf then m <- cd_turn m buf n ;; Ret (inl m)
    else
      pid <- fork1 ;;
      (if pid =? 0 then
         '(c, m) <- parsecmd m buf (str_at n m buf) ;;
         runcmd n m c
       else Ret tt) ;;
      sysret (CWait false) ;;
      Ret (inl m)
  else Ret (inr tt).

Definition main (buf : Z) (m : mem) : prog unit :=
  ITree.iter console_turn tt ;;
  ITree.iter (main_turn buf 100) m ;;
  exit_ 0.
