(* ===== verification/ShRunSpec.v ===== *)
(** What the shell does with a command and with a line: theorems about
    [runcmd] and [main] of src/user/sh.c. *)

From S2P Require Import Prelude Mem Sys Ulib Printf ShParse ShLex ShGrammar ShParseSpec ShRun.
From ITree Require Import ITree.
Local Open Scope zm_scope.

(** The programs a command may become, with their arguments. *)
Fixpoint execs (n : nat) (m : mem) (c : cmd) : list (list Z * list (list Z)) :=
  match c with
  | EXEC argv _ =>
      if nth 0 argv 0 =? 0 then [] else [(str_at n m (nth 0 argv 0), args_at n m argv)]
  | REDIR c _ _ _ _ | BACK c => execs n m c
  | LIST l r | PIPE l r => execs n m l ++ execs n m r
  end.

Definition byte_mem (m : mem) : Prop := forall x, is_byte (m x).

Lemma str_at_bytes n m p : byte_mem m -> bytes (str_at n m p).
Proof.
  intros B. revert p. induction n as [|n IH]; intros p; cbn; [constructor|].
  destruct (m p =? 0); [constructor|constructor; [apply B|apply IH]].
Qed.

Lemma str_at_cstr n m p s : cstr m p s -> (length s < n)%nat -> str_at n m p = s.
Proof.
  revert n p. induction s as [|c s IH]; intros [|n] p C L; cbn [length] in L; try lia; cbn [str_at].
  - apply cstr_nil in C. rewrite C. reflexivity.
  - apply cstr_cons in C as (N & -> & C). rewrite (proj2 (Z.eqb_neq _ _) N). f_equal. apply IH; auto. lia.
Qed.

(** The descriptor is tested before it is used: a failed fork ends the process. *)
Lemma fork1_spec E h :
  twp E (fun o h' =>
    match o with
    | Done pid => pid <> -1 /\ exists r, h' = h ++ [(CFork, r)] /\ pid = r_ret r /\ E h CFork r
    | Exited n => n = 1 /\ exists r tr, h' = h ++ (CFork, r) :: tr /\ r_ret r = -1
    | _ => False
    end) h fork1.
Proof.
  unfold fork1. tstep. tstep. destruct (Z.eqb_spec (r_ret r) (-1)) as [E1|N].
  - tstep. eapply twp_mono.
    + apply twp_extends, (panic_spec E ($"fork") _ (fun o _ => o = Exited 1));
        [repeat constructor; discriminate|auto].
    + intros o h' (-> & tr & ->). cbn. split; auto. exists r, tr. rewrite <- app_assoc. auto.
  - repeat tstep. split; eauto.
Qed.

(** How a process that runs a command can end. *)
Definition run_ends (n : nat) (m : mem) (c : cmd) (o : outcome unit) (h : history) : Prop :=
  match o with
  | Exited s => s = 0 \/ s = 1
  | Replaced p a => In (p, a) (execs n m c)
  | _ => False
  end.

Lemma run_ends_mono n m c c' o h :
  incl (execs n m c) (execs n m c') -> run_ends n m c o h -> run_ends n m c' o h.
Proof. destruct o; cbn; auto. Qed.

(** A step of [runcmd] that forks: both continuations are run. *)
Lemma fork_twp E (Q : outcome unit -> history -> Prop) h (k : Z -> prog unit) :
  (forall h, Q (Exited 1) h) -> (forall pid h, twp E Q h (k pid)) -> twp E Q h (ITree.bind fork1 k).
Proof.
  intros X K. tstep. eapply twp_mono; [apply fork1_spec|]. intros [pid|s|p a|] h' F; cbn [seqpost].
  - auto.
  - destruct F as (-> & _). auto.
  - destruct F.
  - destruct F.
Qed.

Lemma run_twp n m c E h t (k : unit -> prog unit) (Q : outcome unit -> history -> Prop) :
  twp E (run_ends n m c) h t ->
  (forall h, Q (Exited 0) h) -> (forall h, Q (Exited 1) h) ->
  (forall p a h, In (p, a) (execs n m c) -> Q (Replaced p a) h) ->
  twp E Q h (ITree.bind t k).
Proof.
  intros T X0 X1 R. tstep. eapply twp_mono; [exact T|]. intros [[]|s|p a|] h'; cbn; intuition; subst; auto.
Qed.

Ltac call_step := first [apply twp_bind, twp_sysret; [plain_tac|]; intros ?r _; cbn [seqpost]
                        |apply twp_bind, twp_sys; [plain_tac|]; intros ?r _; cbn [seqpost]].

(** A child's part, which does not return, and what the parent does after. *)
Lemma branch_ends E n m c c' h (b : bool) (t k : prog unit) :
  incl (execs n m c) (execs n m c') ->
  (forall h, twp E (run_ends n m c) h t) -> (forall h, twp E (run_ends n m c') h k) ->
  twp E (run_ends n m c') h (ITree.bind (if b then t else Ret tt) (fun _ => k)).
Proof.
  intros I T K. destruct b; [|tstep; tstep; apply K].
  eapply run_twp; [apply T| | |]; cbn; auto.
Qed.

Lemma child_ends E n m c fd e p0 p1 :
  (forall h, twp E (run_ends n m c) h (runcmd n m c)) ->
  forall h, twp E (run_ends n m c) h (ITree.bind (pipe_child fd e p0 p1) (fun _ => runcmd n m c)).
Proof.
  intros R h. unfold pipe_child. tstep. repeat call_step. tstep. apply R.
Qed.

Lemma runcmd_ends E n m c h : byte_mem m -> twp E (run_ends n m c) h (runcmd n m c).
Proof.
  intros B. revert h. induction c as [argv eargv|c IH f ef mo fd|l IHl r IHr|l IHl r IHr|c IH];
    intros h; cbn [runcmd].
  - tstep. destruct (Z.eqb_spec (nth 0 argv 0) 0) as [Z0|N]; [tstep; right; reflexivity|tstep].
    tstep. apply twp_exec; intros rp Hr Neg; cbn [seqpost run_ends execs].
    + rewrite (proj2 (Z.eqb_neq _ _) N). left. reflexivity.
    + tstep. eapply twp_mono; [apply (fprintf_str E 2 ($"exec ") _ ($" failed" ++ [newline]));
        auto using str_at_bytes|].
      intros o h' (-> & _). cbn [seqpost]. tstep. left. reflexivity.
  - call_step. tstep. tstep. tstep. destruct (_ <? 0).
    + tstep. eapply twp_mono; [apply (fprintf_str E 2 ($"open ") _ ($" failed" ++ [newline]));
        auto using str_at_bytes|].
      intros o h' (-> & _). cbn [seqpost]. tstep. right. reflexivity.
    + tstep. eapply run_twp; [apply IH| | |]; cbn; auto.
  - call_step. tstep. destruct (r_ret r0 <? 0).
    { apply panic_spec; [repeat constructor; discriminate|]. intros h' _. right. reflexivity. }
    tstep. apply fork_twp; [right; reflexivity|]. intros pid h1.
    apply branch_ends with l; [cbn; auto with datatypes|apply child_ends, IHl|]. intros h2.
    apply fork_twp; [right; reflexivity|]. intros pid' h3.
    apply branch_ends with r; [cbn; auto with datatypes|apply child_ends, IHr|]. intros h4.
    repeat call_step. tstep. left. reflexivity.
  - apply fork_twp; [right; reflexivity|]. intros pid h1.
    apply branch_ends with l; [cbn; auto with datatypes|apply IHl|]. intros h2. call_step.
    eapply run_twp; [apply IHr| | |]; cbn; auto using in_or_app.
  - apply fork_twp; [right; reflexivity|]. intros pid h1.
    apply branch_ends with c; [apply incl_refl|apply IH|]. intros h2. tstep. left. reflexivity.
Qed.

(** * From the line to the program *)

(** The argument words of the simple commands of [c]. *)
Fixpoint simple_words (c : cmd) : list (list (Z * Z)) :=
  match c with
  | EXEC argv eargv => [argpairs argv eargv]
  | REDIR c _ _ _ _ | BACK c => simple_words c
  | LIST l r | PIPE l r => simple_words l ++ simple_words r
  end.

Lemma args_at_stored n m argv eargv ps :
  stored argv eargv ps -> args_at n m argv = map (fun p => str_at n m (fst p)) ps.
Proof.
  intros (L & -> & _ & N). revert L. generalize 10%nat as k.
  induction N as [|[q e] ps Q N IH]; intros k L; cbn in *.
  - destruct k; [lia|]. reflexivity.
  - rewrite (proj2 (Z.eqb_neq _ _) Q). f_equal. destruct k; [lia|]. apply IH. lia.
Qed.

(** The program run is named by the words of one simple command of the line. *)
Lemma execs_words n m c p a :
  wf_cmd c -> In (p, a) (execs n m c) ->
  exists ps, In ps (simple_words c) /\ p :: tl a = a /\ a = map (fun w => str_at n m (fst w)) ps /\
    incl ps (words c).
Proof.
  induction c as [argv eargv|c IH f ef mo fd|l IHl r IHr|l IHl r IHr|c IH];
    cbn [wf_cmd execs simple_words words]; intros W I; auto.
  - destruct W as (ps & S). pose proof (argpairs_stored _ _ _ S) as A. exists ps. rewrite A.
    split; [left; auto|]. rewrite (args_at_stored n m _ _ _ S) in I.
    destruct S as (L & -> & _ & N). destruct ps as [|[q e] ps]; [destruct I|].
    inv N. cbn in I. rewrite (proj2 (Z.eqb_neq _ _)) in I by auto. destruct I as [[= <- <-]|[]].
    repeat split; auto. apply incl_refl.
  - destruct (IH W I) as (ps & A & B & C & D). exists ps. repeat split; auto using incl_appl.
  - destruct W as [Wl Wr]. apply in_app_or in I as [I|I].
    + destruct (IHl Wl I) as (ps & A & B & C & D). exists ps. auto using in_or_app, incl_appl.
    + destruct (IHr Wr I) as (ps & A & B & C & D). exists ps. auto using in_or_app, incl_appr.
  - destruct W as [Wl Wr]. apply in_app_or in I as [I|I].
    + destruct (IHl Wl I) as (ps & A & B & C & D). exists ps. auto using in_or_app, incl_appl.
    + destruct (IHr Wr I) as (ps & A & B & C & D). exists ps. auto using in_or_app, incl_appr.
Qed.

(** C2: what the child process the shell forks for a line does.  Whatever the
    kernel answers, it ends; a line outside the grammar makes it write a message
    and exit with status 1 before any other call; otherwise it exits with status
    0 or 1, or becomes a program whose arguments are, character for character,
    the words of one simple command of the parsed line, the first of them naming
    the program. *)
Theorem sh_child_runs E h m s line :
  0 < s -> cstr m s line -> byte_mem m ->
  exists ts, lexes m s (s + len line) s ts /\
  twp E (fun o h' =>
    match o with
    | Replaced p a =>
        exists c ps, g_line ts c /\ In ps (simple_words c) /\ a = map (word_text m) ps /\
          p :: tl a = a
    | Exited n =>
        (exists c, g_line ts c) /\ (n = 0 \/ n = 1) \/
        (forall c, ~ g_line ts c) /\ n = 1 /\
        exists pre msg, In msg messages /\ calls h' = calls h ++ byte_writes 2 (pre ++ msg ++ [newline])
    | _ => False
    end) h (ITree.bind (parsecmd m s line) (fun '(c, m') => runcmd (S (length line)) m' c)).
Proof.
  intros Hs C B. destruct (line_lexes m s line C) as (ts & X & L). exists ts. split; auto.
  assert (Bl : bytes line).
  { destruct C as (_ & <- & _). clear -B. unfold bytes. revert s. induction (length line); cbn; constructor; auto. }
  tstep. eapply twp_mono; [apply (parsecmd_spec E h m s line ts); auto|].
  intros [[c m']|n|p a|] h'; cbn [parsed seqpost]; [|tauto|tauto|tauto].
  intros (-> & G & W & T & K). eapply twp_mono; [apply runcmd_ends|].
  - intros x. rewrite K. destruct (existsb _ _); [split; lia|apply B].
  - intros [|n|p a|] h'; cbn [run_ends]; [tauto|left; eauto| |tauto]. intros I.
    destruct (execs_words _ _ _ _ _ W I) as (ps & Ip & Hp & -> & Inc).
    exists c, ps. repeat split; auto. apply map_ext_in. intros w Iw.
    destruct (T w (Inc w Iw)) as (P1 & P2 & P3). apply str_at_cstr; auto.
    unfold word_text. rewrite load_length. lia.
Qed.

Lemma byte_mem_of a l : bytes l -> byte_mem (mem_of a l).
Proof.
  intros B x. unfold mem_of, store. destruct (_ && _); [|split; lia].
  destruct (nth_in_or_default (Z.to_nat (x - a)) l 0) as [I| ->]; [|split; lia].
  unfold bytes in B. rewrite Forall_forall in B. auto.
Qed.

Lemma sh_child_runs_witness :
  let line := $"cat < in | grep x >> out" in let m := mem_of 64 line in
  exists ts, lexes m 64 (64 + len line) 64 ts /\
  twp xv6 (fun o h' =>
    match o with
    | Replaced p a =>
        exists c ps, g_line ts c /\ In ps (simple_words c) /\ a = map (word_text m) ps /\
          p :: tl a = a
    | Exited n =>
        (exists c, g_line ts c) /\ (n = 0 \/ n = 1) \/
        (forall c, ~ g_line ts c) /\ n = 1 /\
        exists pre msg, In msg messages /\ calls h' = calls [] ++ byte_writes 2 (pre ++ msg ++ [newline])
    | _ => False
    end) [] (ITree.bind (parsecmd m 64 line) (fun '(c, m') => runcmd (S (length line)) m' c)).
Proof.
  apply sh_child_runs; [lia|apply cstr_mem_of; repeat constructor; discriminate|].
  apply byte_mem_of. repeat constructor; discriminate.
Defined.

(** * The command loop *)

(** The C string at the start of a buffer that holds [l] and then a NUL. *)
Fixpoint cut0 (l : list Z) : list Z :=
  match l with
  | [] => []
  | c :: l => if c =? 0 then [] else c :: cut0 l
  end.

Lemma cut0_cstr m a l rest : cstr (store m a (l ++ 0 :: rest)) a (cut0 l).
Proof.
  revert m a. induction l as [|c l IH]; intros m a; cbn [app cut0].
  - apply cstr_nil. rewrite store_in by len_solve. rewrite Z.sub_diag. reflexivity.
  - destruct (Z.eqb_spec c 0) as [->|N].
    + apply cstr_nil. rewrite store_in by len_solve. rewrite Z.sub_diag. reflexivity.
    + apply cstr_cons. split; [auto|]. split; [|rewrite store_cons; apply IH].
      rewrite (store_cons m a c _ a), store_out, upd_eq by lia. reflexivity.
Qed.

Lemma cut0_length l : (length (cut0 l) <= length l)%nat.
Proof. induction l as [|c l]; cbn; [lia|]. destruct (c =? 0); cbn; lia. Qed.

Lemma cstr_skip m a p s : cstr m a (p ++ s) -> cstr m (a + len p) s.
Proof.
  revert a. induction p as [|c p IH]; intros a C; cbn [app length] in *.
  - rewrite Z.add_0_r. auto.
  - apply cstr_cons in C as (_ & _ & C). apply IH in C.
    replace (a + Z.of_nat (S (length p))) with (a + 1 + len p) by lia. auto.
Qed.

Lemma cstr_chop m a l c : cstr m a (l ++ [c]) -> cstr (upd m (a + len l) 0) a l.
Proof.
  revert a. induction l as [|x l IH]; intros a C; cbn [app length] in *.
  - apply cstr_nil. rewrite Z.add_0_r, upd_eq. reflexivity.
  - apply cstr_cons in C as (N & Hx & C). apply cstr_cons. split; [auto|]. split; [rewrite upd_ne; auto; lia|].
    apply IH in C. replace (a + Z.of_nat (S (length l))) with (a + 1 + len l) by lia. auto.
Qed.

Definition cd_prefix : list Z := $"cd ".

(** The directory of a line that starts with "cd ": the rest of it, less its
    last character. *)
Definition cd_dir (l : list Z) : list Z := skipn 3 (removelast l).

Lemma cd_dir_at m buf l :
  cstr m buf (cd_prefix ++ l) ->
  cstr (upd m (buf + u32 (len (cd_prefix ++ l) - 1)) 0) (buf + 3) (cd_dir (cd_prefix ++ l)) \/
  2 ^ 31 <= len (cd_prefix ++ l).
Proof.
  intros C. destruct (Z_lt_dec (len (cd_prefix ++ l)) (2 ^ 31)) as [B|]; [|right; lia]. left.
  destruct l as [|c l _] using rev_ind.
  - apply cstr_skip in C. cbn in C |- *. apply cstr_nil in C. apply cstr_nil.
    rewrite upd_ne; [auto|]. change (u32 _) with 2. lia.
  - rewrite app_assoc in C |- *. unfold cd_dir. rewrite removelast_last.
    replace (u32 (len ((cd_prefix ++ l) ++ [c]) - 1)) with (len (cd_prefix ++ l)).
    2:{ rewrite u32_small; len_solve. }
    apply cstr_chop in C. apply (cstr_skip _ buf cd_prefix l) in C. exact C.
Qed.

Lemma is_cd_prefix m buf l :
  cstr m buf l -> (is_cd m buf = true <-> exists l', l = cd_prefix ++ l').
Proof.
  intros C. unfold is_cd. split.
  - change (#"c") with 99. change (#"d") with 100. change (#" ") with 32.
    intros H. breflect. destruct l as [|a [|b [|c l]]];
      rewrite ?cstr_cons, ?cstr_nil in C; try replace (buf + 1 + 1) with (buf + 2) in C by lia;
      try (intuition congruence).
    exists l. change cd_prefix with [99; 100; 32]. cbn.
    destruct C as (_ & <- & _ & <- & _ & <- & _). congruence.
  - intros (l' & ->). cbn [cd_prefix app] in C. unfold cd_prefix in C. cbn in C.
    rewrite !cstr_cons in C. destruct C as (_ & A & _ & B & _ & D & _).
    change (#"c") with 99. change (#"d") with 100. change (#" ") with 32.
    replace (buf + 1 + 1) with (buf + 2) in D by lia. rewrite A, B, D. reflexivity.
Qed.

(** What the shell itself does for one line. *)
Definition read_cmd (rw : reply) (rds : history) (line : list Z) (rest : history) : history :=
  (CWrite 2 ($"$ "), rw) :: rds ++ rest.

Definition cd_complaint (dir : list Z) : list Z := $"cannot cd " ++ dir ++ [newline].

Variant turn : history -> Prop :=
| turn_cd rw rds line l r msgs :
    reads_line rds line -> len line < 100 -> one_line line -> cut0 line = cd_prefix ++ l ->
    (r_ret r >= 0 /\ msgs = [] \/
     r_ret r < 0 /\ calls msgs = byte_writes 2 (cd_complaint (cd_dir (cut0 line)))) ->
    turn (read_cmd rw rds line ((CChdir (cd_dir (cut0 line)), r) :: msgs))
| turn_run rw rds line r w :
    reads_line rds line -> len line < 100 -> one_line line ->
    cut0 line <> [] -> (forall l, cut0 line <> cd_prefix ++ l) ->
    r_ret r <> 0 -> r_ret r <> -1 ->
    turn (read_cmd rw rds line [(CFork, r); (CWait false, w)]).

(** The end of input: an empty line, or one that starts with NUL. *)
Definition at_eof (tr : history) : Prop :=
  exists rw rds line, reads_line rds line /\ cut0 line = [] /\ tr = read_cmd rw rds line [].

Definition fork_failed (tr : history) : Prop :=
  exists rw rds line r msgs, reads_line rds line /\ r_ret r = -1 /\
    tr = read_cmd rw rds line ((CFork, r) :: msgs).

Definition turn_post (h : history) (o : outcome (mem + unit)) (h' : history) : Prop :=
  child h' \/
  exists tr, h' = h ++ tr /\
  match o with
  | Done (inl _) => turn tr
  | Done (inr _) => at_eof tr
  | Exited n => n = 1 /\ fork_failed tr
  | _ => False
  end.

Lemma getcmd_spec E (K : Contract E) m buf h :
  twp E (fun o h' => exists rw rds line r m',
     o = Done (r, m') /\ h' = h ++ read_cmd rw rds line [] /\ reads_line rds line /\
     len line < 100 /\ one_line line /\ cstr m' buf (cut0 line) /\
     (r = if m' buf =? 0 then -1 else 0)) h (getcmd m buf 100).
Proof.
  unfold getcmd. tstep. tstep.
  destruct (memset_loop_spec m buf 0 100 (S (Z.to_nat 100)) 0) as (m1 & M & _); [lia..|].
  unfold memset. rewrite M. tstep.
  eapply twp_mono; [apply gets_spec; [auto|lia|apply load_length]|].
  intros o h' (line & tr & -> & B & L & -> & R). cbn [seqpost]. tstep.
  exists r, tr, line. eexists _, _. split; [reflexivity|]. unfold read_cmd. rewrite app_nil_r, <- app_assoc.
  split; [reflexivity|].
  refine (conj R (conj B (conj L (conj _ eq_refl)))). apply cut0_cstr.
Qed.

Lemma cut0_bytes l : bytes l -> bytes (cut0 l).
Proof. induction 1 as [|c l B F IH]; cbn; [constructor|]. destruct (c =? 0); constructor; auto. Qed.

Lemma sublist_bytes (l : list Z) p : bytes l -> (forall x, In x p -> In x l) -> bytes p.
Proof. unfold bytes. rewrite !Forall_forall. auto. Qed.

Lemma cd_dir_bytes l : bytes l -> bytes (cd_dir l).
Proof.
  intros B. eapply sublist_bytes; [exact B|]. intros x I. unfold cd_dir in I.
  assert (J : In x (removelast l)).
  { rewrite <- (firstn_skipn 3 (removelast l)). apply in_or_app. auto. }
  destruct l as [|a l _] using rev_ind; [destruct J|]. rewrite removelast_last in J.
  apply in_or_app. auto.
Qed.

Lemma cd_turn_spec E m buf l h :
  cstr m buf (cd_prefix ++ l) -> len (cd_prefix ++ l) < 100 -> bytes (cd_prefix ++ l) ->
  twp E (fun o h' => (exists m', o = Done m') /\ exists r msgs,
     h' = h ++ (CChdir (cd_dir (cd_prefix ++ l)), r) :: msgs /\
     (r_ret r >= 0 /\ msgs = [] \/
      r_ret r < 0 /\ calls msgs = byte_writes 2 (cd_complaint (cd_dir (cd_prefix ++ l)))))
    h (cd_turn m buf 100).
Proof.
  intros C L B. unfold cd_turn, strlen.
  rewrite (strlen_loop_spec m buf (cd_prefix ++ l) _ 0); [|rewrite Z.add_0_r; auto|lia|lia|lia].
  rewrite Z.add_0_l. set (m' := upd m _ 0).
  assert (S : str_at 100 m' (buf + 3) = cd_dir (cd_prefix ++ l)).
  { apply str_at_cstr; [destruct (cd_dir_at m buf l C); [auto|lia]|]. unfold cd_dir.
    assert (X : (length (removelast (cd_prefix ++ l)) <= length (cd_prefix ++ l))%nat).
    { clear. generalize (cd_prefix ++ l) as k. intros k. destruct k as [|a k _] using rev_ind; [cbn; lia|].
      rewrite removelast_last. len_solve. }
    len_solve. }
  rewrite S. tstep. tstep. destruct (Z.ltb_spec (r_ret r) 0).
  - tstep. eapply twp_mono; [apply twp_extends, (fprintf_str E 2 ($"cannot cd ") _ [newline]);
      auto using cd_dir_bytes|].
    intros o h' ((-> & Cl) & tr & ->). cbn [seqpost]. tstep. split; [eauto|]. exists r, tr.
    rewrite <- app_assoc. split; auto. right. split; [lia|].
    unfold calls in Cl. rewrite map_app in Cl. apply app_inv_head in Cl. exact Cl.
  - repeat tstep. split; [eauto|]. exists r, []. split; auto. left. split; [lia|auto].
Qed.

Lemma main_turn_spec E (K : Contract E) buf m h :
  wpt E h (main_turn buf 100 m) (turn_post h).
Proof.
  unfold main_turn. wstep. eapply wpt_mono; [apply twp_sound, getcmd_spec; auto|].
  intros o h1 (rw & rds & line & r & m' & -> & -> & R & L & One & C & Hr). cbn [wseqpost].
  destruct (cut0 line) as [|c0 l0] eqn:Cut.
  { apply cstr_nil in C. rewrite C in Hr. rewrite Hr. cbn. wstep. right.
    eexists. split; [reflexivity|]. exists rw, rds, line. auto. }
  rewrite <- Cut in *. assert (NZ : m' buf <> 0).
  { rewrite Cut in C. apply cstr_cons in C as (N & -> & _). auto. }
  apply Z.eqb_neq in NZ. rewrite NZ in Hr. rewrite Hr.
  change (0 >=? 0) with true. cbn iota.
  pose proof (is_cd_prefix m' buf (cut0 line) C) as Cd. pose proof (cut0_length line) as Lc.
  assert (B : bytes (cut0 line)) by (apply cut0_bytes, R).
  assert (App : forall rest, (h ++ read_cmd rw rds line []) ++ rest = h ++ read_cmd rw rds line rest).
  { intros. unfold read_cmd. rewrite app_nil_r, <- app_assoc. reflexivity. }
  destruct (is_cd m' buf).
  - destruct (proj1 Cd eq_refl) as (l & E'). rewrite E' in C, B. wstep.
    eapply wpt_mono; [apply twp_sound, (cd_turn_spec E m' buf l); auto; rewrite <- E'; lia|].
    intros o h1 ((m2 & ->) & rc & msgs & -> & H). cbn [wseqpost]. wstep. right.
    eexists. rewrite App. split; [reflexivity|]. rewrite <- E'. rewrite <- E' in H. eapply turn_cd; eauto.
  - wstep. eapply wpt_mono; [apply twp_sound, fork1_spec|].
    intros [pid|n|p a|] h1 F; cbn [wseqpost]; [|destruct F as (-> & rf & tr & -> & Hf)|tauto|tauto].
    2:{ right. eexists. rewrite App. split; [reflexivity|]. split; auto. exists rw, rds, line. eauto. }
    destruct F as (N & rf & -> & -> & _). wstep. destruct (Z.eqb_spec (r_ret rf) 0) as [Z0|NZ0].
    + apply child_wpt; [exists rf; split; auto; apply in_or_app; right; left; auto|].
      intros [u|n|p a|] h2 Ch; cbn [wseqpost]; try (left; exact Ch).
      apply child_wpt; auto. intros; left; auto.
    + wstep. wstep. wstep. wstep. right. rewrite <- !app_assoc. cbn [app].
      eexists. rewrite app_assoc, App. split; [reflexivity|]. apply turn_run; auto; [congruence|].
      intros l E'. discriminate (proj2 Cd (ex_intro _ l E')).
Qed.

(** The opening of the console, before the first prompt. *)
Definition console_open (e : event) : Prop :=
  match Datatypes.fst e with
  | COpen p mode => p = $"console" /\ mode = O_RDWR
  | CClose fd => fd >= 3
  | _ => False
  end.

Lemma console_spec E h :
  wpt E h (ITree.iter console_turn tt)
    (fun o h' => o = Done tt /\ exists tr, h' = h ++ tr /\ Forall console_open tr).
Proof.
  apply wpt_iter with (Inv := fun _ h' => exists tr, h' = h ++ tr /\ Forall console_open tr).
  2:{ exists []. rewrite app_nil_r. auto. }
  intros [] h' (tr & -> & F). unfold console_turn. wstep. wstep.
  assert (F' : Forall console_open (tr ++ [(COpen ($"console") O_RDWR, r)])).
  { apply Forall_app. split; auto. repeat constructor. }
  destruct (Z.geb_spec (r_ret r) 0); [|wstep; split; auto; eexists; rewrite <- app_assoc; eauto].
  destruct (Z.geb_spec (r_ret r) 3).
  - wstep. wstep. wstep. split; auto. eexists. rewrite <- !app_assoc. split; [reflexivity|].
    rewrite app_assoc. apply Forall_app. split; auto. repeat constructor. cbn. lia.
  - wstep. cbn. eexists. rewrite <- app_assoc. eauto.
Qed.

(** C36: what the shell process does, for as long as it runs.  Apart from its
    children (the histories with a fork that returned 0), it opens the console,
    then takes one line at a time: after each prompt it reads one line, of at
    most 99 bytes, byte by byte; a line starting with "cd " makes it change
    directory itself, to the rest of the line less its last character, with a
    message exactly when that fails; any other line makes it fork and wait.  It
    never execs: it ends only with status 0 on an empty line, or with status 1
    when a fork fails. *)
Theorem sh_main_lines E (K : Contract E) buf m :
  wpt E [] (main buf m) (fun o h =>
    child h \/
    exists cs turns last, h = cs ++ concat turns ++ last /\
      Forall console_open cs /\ Forall turn turns /\
      (o = Exited 0 /\ at_eof last \/ o = Exited 1 /\ fork_failed last)).
Proof.
  unfold main. wstep. eapply wpt_mono; [apply console_spec|].
  intros o h (-> & cs & -> & F). cbn [wseqpost app]. wstep.
  apply wpt_iter with (Inv := fun _ h => child h \/ exists turns, h = cs ++ concat turns /\ Forall turn turns).
  - intros m' h [Ch|(turns & -> & T)].
    { apply child_wpt; auto. intros [[|]| | |] h' Ch'; cbn [turnpost wseqpost]; auto.
      apply child_wpt; auto. }
    eapply wpt_mono; [apply main_turn_spec; auto|].
    intros o h' [Ch|(tr & -> & H)]; destruct o as [[m2|[]]|n|p a|]; cbn [turnpost wseqpost]; auto;
      try contradiction.
    + apply child_wpt; auto.
    + right. exists (turns ++ [tr]). rewrite concat_app, app_assoc. cbn. rewrite app_nil_r. split; auto.
      apply Forall_app. auto.
    + wstep. right. exists cs, turns, tr. rewrite app_assoc. auto 6.
    + right. exists cs, turns, tr. destruct H as [-> H]. rewrite app_assoc. auto 7.
  - right. exists []. rewrite app_nil_r. auto.
Qed.

Lemma sh_main_lines_witness :
  wpt xv6 [] (main 4096 (fun _ => 0)) (fun o h =>
    child h \/
    exists cs turns last, h = cs ++ concat turns ++ last /\
      Forall console_open cs /\ Forall turn turns /\
      (o = Exited 0 /\ at_eof last \/ o = Exited 1 /\ fork_failed last)).
Proof. apply sh_main_lines, xv6_contract. Defined.
