(* ===== verification/Tools.v ===== *)
(** Filters and small file tools of src/user: cat, wc, echo, ln, rm, mkdir,
    kill and zombie, each with its [main].

    [argv] is the list of the arguments, the program's name first; the loops
    over [argv] run over the rest of that list.  [delivered r] is the part of
    the static buffer that a read filled. *)

From S2P Require Import Prelude Mem Sys Ulib Printf.
From ITree Require Import ITree.
Import ITreeNotations.
Local Open Scope itree_scope.
Local Open Scope zm_scope.

(** [fprintf(2, msg); exit(1)] *)
Definition die {R} (fmt : list Z) (ap : list arg) : prog R := fprintf 2 fmt ap ;; exit_ 1.

(** * cat.c *)

Definition cat_turn (fd : Z) (_ : unit) : prog (unit + Z) :=
  r <- sys (CRead fd 512) ;;
  let n := r_ret r in
  if n >? 0 then
    w <- sysret (CWrite 1 (delivered r)) ;;
    if negb (w =? n) then die ($"cat: write error" ++ [newline]) [] else Ret (inl tt)
  else Ret (inr n).

Definition cat (fd : Z) : prog unit :=
  n <- ITree.iter (cat_turn fd) tt ;;
  if n <? 0 then die ($"cat: read error" ++ [newline]) [] else Ret tt.

Fixpoint cat_files (args : list (list Z)) : prog unit :=
  match args with
  | [] => Ret tt
  | a :: args =>
      fd <- sysret (COpen a 0) ;;
      (if fd <? 0 then die ($"cat: cannot open %s" ++ [newline]) [AStr (Some a)] else Ret tt) ;;
      cat fd ;;
      sysret (CClose fd) ;;
      cat_files args
  end.

Definition cat_main (argv : list (list Z)) : prog unit :=
  if len argv <=? 1 then cat 0 ;; exit_ 0
  else cat_files (tl argv) ;; exit_ 0.

(** * wc.c *)

Section Wc.
Variable fmt_ptr : Z -> list Z.

(** The counters [l], [w], [c] and [inword]. *)
Record counts : Type := Counts { n_l : Z; n_w : Z; n_c : Z; inword : bool }.

Definition wc_spaces : list Z := [#" "; 13; 9; 10; 11].

(** One character of the buffer; [strchr] finds no NUL. *)
Definition wc_char (k : counts) (ch : Z) : counts :=
  let c := s32 (n_c k + 1) in
  let l := if ch =? 10 then s32 (n_l k + 1) else n_l k in
  if negb (ch =? 0) && existsb (Z.eqb ch) wc_spaces then Counts l (n_w k) c false
  else if negb (inword k) then Counts l (s32 (n_w k + 1)) c true
  else Counts l (n_w k) c (inword k).

Definition wc_turn (fd : Z) (k : counts) : prog (counts + counts * Z) :=
  r <- sys (CRead fd 512) ;;
  if r_ret r >? 0 then Ret (inl (fold_left wc_char (delivered r) k))
  else Ret (inr (k, r_ret r)).

Definition wc (fd : Z) (name : list Z) : prog unit :=
  '(k, n) <- ITree.iter (wc_turn fd) (Counts 0 0 0 false) ;;
  (if n <? 0 then printf fmt_ptr ($"wc: read error" ++ [newline]) [] ;; exit_ 1 else Ret tt) ;;
  printf fmt_ptr ($"%d %d %d %s" ++ [newline])
    [AInt (n_l k); AInt (n_w k); AInt (n_c k); AStr (Some name)].

Fixpoint wc_files (args : list (list Z)) : prog unit :=
  match args with
  | [] => Ret tt
  | a :: args =>
      fd <- sysret (COpen a 0) ;;
      (if fd <? 0 then printf fmt_ptr ($"wc: cannot open %s" ++ [newline]) [AStr (Some a)] ;; exit_ 1
       else Ret tt) ;;
      wc fd a ;;
      sysret (CClose fd) ;;
      wc_files args
  end.

Definition wc_main (argv : list (list Z)) : prog unit :=
  if len argv <=? 1 then wc 0 [] ;; exit_ 0
  else wc_files (tl argv) ;; exit_ 0.
End Wc.

(** * echo.c *)

Fixpoint echo_args (args : list (list Z)) : prog unit :=
  match args with
  | [] => Ret tt
  | a :: args =>
      sysret (CWrite 1 a) ;;
      sysret (CWrite 1 (match args with [] => [newline] | _ => [#" "] end)) ;;
      echo_args args
  end.

Definition echo_main (argv : list (list Z)) : prog unit := echo_args (tl argv) ;; exit_ 0.

(** * ln.c, rm.c, mkdir.c, kill.c, zombie.c *)

Definition ln_main (argv : list (list Z)) : prog unit :=
  (if negb (len argv =? 3) then die ($"Usage: ln old new" ++ [newline]) [] else Ret tt) ;;
  let a := nth 1 argv [] in
  let b := nth 2 argv [] in
  r <- sysret (CLink a b) ;;
  (if r <? 0 then fprintf 2 ($"link %s %s: failed" ++ [newline]) [AStr (Some a); AStr (Some b)]
   else Ret tt) ;;
  exit_ 0.

(** The loop of rm and mkdir: stop at the first failure. *)
Fixpoint until_failure (op : list Z -> Sys.call) (fmt : list Z) (args : list (list Z)) : prog unit :=
  match args with
  | [] => Ret tt
  | a :: args =>
      r <- sysret (op a) ;;
      if r <? 0 then fprintf 2 fmt [AStr (Some a)] else until_failure op fmt args
  end.

Definition rm_main (argv : list (list Z)) : prog unit :=
  (if len argv <? 2 then die ($"Usage: rm files..." ++ [newline]) [] else Ret tt) ;;
  until_failure CUnlink ($"rm: %s failed to delete" ++ [newline]) (tl argv) ;;
  exit_ 0.

Definition mkdir_main (argv : list (list Z)) : prog unit :=
  (if len argv <? 2 then die ($"Usage: mkdir files..." ++ [newline]) [] else Ret tt) ;;
  until_failure CMkdir ($"mkdir: %s failed to create" ++ [newline]) (tl argv) ;;
  exit_ 0.

Fixpoint kill_args (args : list (list Z)) : prog unit :=
  match args with
  | [] => Ret tt
  | a :: args =>
      match atoi (S (length a)) (mem_of 0 a) 0 with
      | Some pid => sysret (CKill pid) ;; kill_args args
      | None => abort
      end
  end.

Definition kill_main (argv : list (list Z)) : prog unit :=
  (if len argv <? 2 then die ($"usage: kill pid..." ++ [newline]) [] else Ret tt) ;;
  kill_args (tl argv) ;;
  exit_ 0.

Definition zombie_main : prog unit :=
  pid <- sysret CFork ;;
  (if pid >? 0 then sysret (CSleep 5) ;; Ret tt else Ret tt) ;;
  exit_ 0.
