(* ===== verification/ToolsSpec.v ===== *)
(** What the filters and file tools do: theorems about Tools.v. *)

From ITree Require Import ITree.
From S2P Require Import Prelude Mem Sys Ulib Printf Tools.
Local Open Scope zm_scope.

(** * Observations *)

(** Everything a program read, on any descriptor, in order. *)
Definition ev_read (e : event) : list Z :=
  match e with (CRead _ _, r) => delivered r | _ => [] end.
Definition all_read (h : history) : list Z := flat_map ev_read h.

(** The paths it opened with success, in order. *)
Definition ev_opened (e : event) : list (list Z) :=
  match e with (COpen p _, r) => if r_ret r <? 0 then [] else [p] | _ => [] end.
Definition opened (h : history) : list (list Z) := flat_map ev_opened h.

Lemma all_read_app h h' : all_read (h ++ h') = all_read h ++ all_read h'.
Proof. apply flat_map_app. Qed.
Lemma opened_app h h' : opened (h ++ h') = opened h ++ opened h'.
Proof. apply flat_map_app. Qed.

(** Messages on another descriptor do not show. *)
Lemma byte_writes_quiet fd fd' l tr :
  calls tr = byte_writes fd l -> fd <> fd' ->
  written fd' tr = [] /\ all_read tr = [] /\ opened tr = [].
Proof.
  intros C N. revert tr C. induction l as [|c l IH]; intros [|[c' r] tr] C; try discriminate; auto.
  cbn in C. injection C as -> C. destruct (IH _ C) as (A & B & D).
  unfold written, all_read, opened in *. cbn [flat_map ev_written ev_read ev_opened app].
  rewrite (proj2 (Z.eqb_neq _ _) N). auto.
Qed.

Lemma die_spec {R} E fmt ap out h (Q : outcome R -> history -> Prop) :
  emits E (fprintf 2 fmt ap) (byte_writes 2 out) ->
  (forall tr, calls tr = byte_writes 2 out -> Q (Exited 1) (h ++ tr)) -> twp E Q h (die fmt ap).
Proof.
  intros Em H. unfold die. tstep. eapply twp_mono; [apply twp_extends, Em|].
  intros o h' ((-> & C) & tr & ->). cbn [seqpost]. tstep. apply H.
  unfold calls in C. rewrite map_app in C. apply app_inv_head in C. exact C.
Qed.

(** * cat *)

Section Cat.
Context (E : env) {K : Contract E}.

Definition prefix_of (l l' : list Z) : Prop := exists rest, l' = l ++ rest.

(** What was written on standard output is what was read. *)
Definition copied (h : history) : Prop := written 1 h = all_read h.

Definition cat_ends {R} (Done_ok : R -> history -> Prop) (o : outcome R) (h : history) : Prop :=
  match o with
  | Done r => copied h /\ Done_ok r h
  | Exited n => n = 1 /\ prefix_of (written 1 h) (all_read h)
  | _ => False
  end.

Lemma die_cat {R} fmt ap out h (P : R -> history -> Prop) :
  emits E (fprintf 2 fmt ap) (byte_writes 2 out) -> prefix_of (written 1 h) (all_read h) ->
  twp E (cat_ends P) h (die fmt ap).
Proof.
  intros Em (rest & Pr). eapply die_spec; eauto. intros tr C. split; auto. exists rest.
  destruct (byte_writes_quiet _ 1 _ _ C) as (A & B & _); [lia|].
  rewrite written_app, all_read_app, A, B, !app_nil_r. auto.
Qed.

Lemma cat_turn_spec fd h :
  copied h ->
  twp E (cat_ends (fun lr h' => opened h' = opened h)) h (cat_turn fd tt).
Proof.
  intros I. unfold cat_turn. tstep. tstep.
  assert (O1 : opened (h ++ [(CRead fd 512, r)]) = opened h) by (rewrite opened_app, app_nil_r; auto).
  assert (R1 : all_read (h ++ [(CRead fd 512, r)]) = all_read h ++ delivered r).
  { rewrite all_read_app. cbn. rewrite app_nil_r. auto. }
  assert (W1 : written 1 (h ++ [(CRead fd 512, r)]) = written 1 h).
  { rewrite written_app. cbn. rewrite app_nil_r. auto. }
  destruct (Z.gtb_spec (r_ret r) 0) as [P|P].
  - tstep. tstep. destruct (read_delivers E K _ _ _ _ H) as (D & L & _); [lia|lia|].
    pose proof (ct_write _ _ _ _ H0) as B.
    set (h2 := _ ++ [(CWrite 1 _, _)]).
    assert (R2 : all_read h2 = all_read h ++ delivered r).
    { unfold h2. rewrite all_read_app, R1. cbn. rewrite app_nil_r. auto. }
    assert (W2 : written 1 h2 = written 1 h ++ firstn (Z.to_nat (r_ret r0)) (delivered r)).
    { unfold h2. rewrite written_app, W1. cbn. rewrite app_nil_r. auto. }
    destruct (Z.eqb_spec (r_ret r0) (r_ret r)) as [Eq|Ne]; cbn [negb].
    + tstep. split; [|unfold h2; rewrite opened_app, O1, app_nil_r; auto]. unfold copied.
      rewrite R2, W2, Eq, I, <- L, Nat2Z.id, firstn_all. auto.
    + eapply die_cat; [apply fprintf_text; reflexivity|].
      exists (skipn (Z.to_nat (r_ret r0)) (delivered r)).
      rewrite R2, W2, <- app_assoc, firstn_skipn, I. auto.
  - tstep. split; auto. unfold copied. rewrite R1, W1, delivered_none, app_nil_r by lia. auto.
Qed.

Lemma cat_spec fd h :
  copied h -> wpt E h (cat fd) (cat_ends (fun _ h' => opened h' = opened h)).
Proof.
  intros I. unfold cat. wstep.
  apply wpt_iter with (Inv := fun _ h' => copied h' /\ opened h' = opened h); auto.
  intros [] h' (I' & O). eapply wpt_mono; [apply twp_sound, cat_turn_spec; auto|].
  intros [[[]|n]|n|p a|] h1; cbn [cat_ends turnpost wseqpost]; auto.
  - intros []. split; auto. congruence.
  - intros [C O1]. destruct (n <? 0); [|wstep; split; auto; congruence].
    apply twp_sound. eapply die_cat; [apply fprintf_text; reflexivity|].
    exists []. rewrite app_nil_r. auto.
Qed.

Lemma copied_quiet h c r :
  copied h -> ev_written 1 (c, r) = [] -> ev_read (c, r) = [] -> copied (h ++ [(c, r)]).
Proof.
  unfold copied. intros C A B. rewrite written_app, all_read_app. unfold written at 2, all_read at 2.
  cbn [flat_map]. rewrite A, B, !app_nil_r. auto.
Qed.

Lemma cat_files_spec args h :
  Forall bytes args -> copied h ->
  wpt E h (cat_files args) (cat_ends (fun _ h' => opened h' = opened h ++ args)).
Proof.
  intros B. revert h. induction B as [|a args Ba B IH]; intros h I; cbn [cat_files].
  - wstep. rewrite app_nil_r. split; auto.
  - wstep. wstep. assert (I1 : copied (h ++ [(COpen a 0, r)])) by (apply copied_quiet; auto).
    destruct (Z.ltb_spec (r_ret r) 0) as [L|L].
    + wstep. apply twp_sound. eapply twp_mono.
      * eapply (die_cat (R := unit) _ _ _ _ (fun _ _ => False)); [apply (fprintf_str E 2 ($"cat: cannot open ") a [newline]); auto|].
        exists []. rewrite app_nil_r. auto.
      * intros [u|n|p x|] h'; cbn [cat_ends wseqpost]; tauto.
    + wstep. wstep. wstep. eapply wpt_mono; [apply cat_spec; auto|].
      intros [u|n|p x|] h'; cbn [cat_ends wseqpost]; auto. intros [C O].
      wstep. wstep. eapply wpt_mono; [apply IH, copied_quiet; auto|].
      intros [u'|n|p x|] h2; cbn [cat_ends]; auto. intros [C2 O2]. split; auto.
      rewrite O2, !opened_app, O, opened_app. cbn. rewrite (proj2 (Z.ltb_ge _ _) L), app_nil_r, <- app_assoc.
      reflexivity.
Qed.
End Cat.

(** [cat] copies: whatever sizes the reads and writes have, at every end
    what is on standard output is a prefix of what was read; when it exits with
    status 0 it is all of it, and every file argument was opened, in order.  The
    only other status is 1. *)
Theorem cat_copies E (K : Contract E) argv :
  Forall bytes argv ->
  wpt E [] (cat_main argv) (fun o h =>
    match o with
    | Exited n =>
        (n = 0 /\ written 1 h = all_read h /\ opened h = tl argv) \/
        (n = 1 /\ prefix_of (written 1 h) (all_read h))
    | _ => False
    end).
Proof.
  intros B. unfold cat_main. destruct (Z.leb_spec (len argv) 1) as [L|L].
  - wstep. eapply wpt_mono; [apply cat_spec; [auto|reflexivity]|].
    intros [u|n|p a|] h; cbn [cat_ends wseqpost]; auto. intros [C O]. wstep. left.
    destruct argv as [|x [|]]; cbn in *; auto; lia.
  - wstep. eapply wpt_mono; [apply cat_files_spec; [auto| |reflexivity]|].
    + destruct B; cbn; auto.
    + intros [u|n|p a|] h; cbn [cat_ends wseqpost]; auto. intros [C O]. wstep. left. auto.
Qed.

Lemma cat_copies_witness :
  wpt xv6 [] (cat_main [$"cat"; $"README"]) (fun o h =>
    match o with
    | Exited n =>
        (n = 0 /\ written 1 h = all_read h /\ opened h = [$"README"]) \/
        (n = 1 /\ prefix_of (written 1 h) (all_read h))
    | _ => False
    end).
Proof.
  apply (cat_copies xv6 xv6_contract [$"cat"; $"README"]).
  repeat constructor; discriminate.
Defined.

(** * wc *)

Definition is_blank (ch : Z) : bool := negb (ch =? 0) && existsb (Z.eqb ch) wc_spaces.

(** The pieces of a text between the characters of [p]. *)
Fixpoint split_on (p : Z -> bool) (l : list Z) : list (list Z) :=
  match l with
  | [] => [[]]
  | c :: l =>
      if p c then [] :: split_on p l
      else match split_on p l with
           | [] => [[c]]
           | w :: ws => (c :: w) :: ws
           end
  end.

Definition words_of (l : list Z) : list (list Z) :=
  filter (fun w => match w with [] => false | _ => true end) (split_on is_blank l).
Definition lines_of (l : list Z) : Z := Z.of_nat (count_occ Z.eq_dec l 10).

(** Words still to be counted, when [b] says a word has already started. *)
Definition more_words (b : bool) (l : list Z) : Z :=
  len (words_of l) -
  match split_on is_blank l with (_ :: _) :: _ => if b then 1 else 0 | _ => 0 end.

Lemma s32_add a b : s32 (s32 a + b) = s32 (a + b).
Proof.
  unfold s32. f_equal. replace ((a + 2 ^ 31) mod 2 ^ 32 - 2 ^ 31 + b + 2 ^ 31) with
    ((a + 2 ^ 31) mod 2 ^ 32 + b) by lia.
  rewrite Zplus_mod_idemp_l. f_equal. lia.
Qed.

Definition in_word (b : bool) (l : list Z) : bool :=
  fold_left (fun _ c => negb (is_blank c)) l b.

Lemma more_words_cons b c l :
  more_words b (c :: l) =
  (if negb (is_blank c) && negb b then 1 else 0) + more_words (negb (is_blank c)) l.
Proof.
  unfold more_words, words_of. cbn [split_on]. destruct (is_blank c); cbn [negb andb].
  - cbn [filter]. destruct (split_on is_blank l) as [|[|] ?], b; cbn; lia.
  - destruct (split_on is_blank l) as [|[|x w] ws], b; cbn [filter length negb andb]; try lia.
Qed.

(** The loop over any text, split into buffers or not. *)
Lemma wc_chars_spec l w c b text :
  fold_left wc_char text (Counts (s32 l) (s32 w) (s32 c) b) =
  Counts (s32 (l + lines_of text)) (s32 (w + more_words b text)) (s32 (c + len text)) (in_word b text).
Proof.
  revert l w c b. induction text as [|ch text IH]; intros l w c b.
  - unfold lines_of, more_words, in_word. cbn. f_equal; f_equal; lia.
  - cbn [fold_left]. rewrite more_words_cons.
    assert (Step : wc_char (Counts (s32 l) (s32 w) (s32 c) b) ch =
      Counts (s32 (l + if ch =? 10 then 1 else 0))
        (s32 (w + if negb (is_blank ch) && negb b then 1 else 0)) (s32 (c + 1)) (negb (is_blank ch))).
    { unfold wc_char. cbn [n_l n_w n_c inword]. rewrite !s32_add.
      fold (is_blank ch). destruct (ch =? 10), (is_blank ch), b; cbn [negb andb];
        rewrite ?Z.add_0_r; reflexivity. }
    rewrite Step, IH. unfold in_word. cbn [fold_left]. f_equal; f_equal; try len_solve.
    unfold lines_of. cbn [count_occ]. destruct (Z.eq_dec ch 10) as [->|N].
    + rewrite Z.eqb_refl. lia.
    + rewrite (proj2 (Z.eqb_neq _ _) N). lia.
Qed.

Lemma more_words_start text : more_words false text = len (words_of text).
Proof. unfold more_words. destruct (split_on is_blank text) as [|[|] ?]; lia. Qed.

(** The line [wc] prints for a text. *)
Definition wc_line (text name : list Z) : list Z :=
  let dec n := signed_text lower_digits 10 (s32 n) in
  dec (lines_of text) ++ $" " ++ dec (len (words_of text)) ++ $" " ++ dec (len text) ++ $" " ++ name ++
  [newline].

Section WcSpec.
Context (E : env) (F : full_writes E) (fmt_ptr : Z -> list Z).

Lemma short v : len (signed_text lower_digits 10 (s32 v)) <= 512.
Proof. apply signed_text_short, s32_range. Qed.

Lemma wc_format l w c name :
  len name <= 512 ->
  zformat fmt_ptr ($"%d %d %d %s" ++ [newline])
    [AInt (s32 l); AInt (s32 w); AInt (s32 c); AStr (Some name)] =
  Some (signed_text lower_digits 10 (s32 l) ++ $" " ++ signed_text lower_digits 10 (s32 w) ++ $" " ++
        signed_text lower_digits 10 (s32 c) ++ $" " ++ name ++ [newline]).
Proof.
  intros L.
  assert (D : forall x, zconvert fmt_ptr (#"d") (AInt (s32 x)) = Some (signed_text lower_digits 10 (s32 x))).
  { intros x. cbn. rewrite (s32_small (s32 x)) by apply s32_range. reflexivity. }
  change (lit "%d %d %d %s" ++ [newline]) with
    (#"%" :: #"d" :: #" " :: #"%" :: #"d" :: #" " :: #"%" :: #"d" :: #" " :: #"%" :: #"s" :: [newline]).
  rewrite (zformat_conv _ (#"d") _ _ _ _ eq_refl (D l)) by apply short.
  rewrite zformat_char by discriminate. rewrite (zformat_conv _ (#"d") _ _ _ _ eq_refl (D w)) by apply short.
  rewrite zformat_char by discriminate. rewrite (zformat_conv _ (#"d") _ _ _ _ eq_refl (D c)) by apply short.
  rewrite zformat_char by discriminate.
  rewrite (zformat_conv _ (#"s") _ (AStr (Some name)) _ name eq_refl eq_refl L).
  cbn [option_map]. rewrite zformat_char by discriminate. cbn [zformat option_map].
  rewrite <- ?app_assoc. reflexivity.
Qed.

Lemma stdout_quiet tr : Forall is_stdout tr -> forall fd, received fd tr = [].
Proof.
  intros F0 fd. induction F0 as [|[c r] tr (d & Ed) F0 IH]; auto. cbn in Ed. subst c. exact IH.
Qed.

Lemma opened_stdout tr : Forall is_stdout tr -> opened tr = [].
Proof.
  induction 1 as [|[c r] tr (d & Ed) F0 IH]; auto. cbn in Ed. subst c. exact IH.
Qed.

Lemma wc_spec fd name h :
  len name <= 512 ->
  wpt E h (wc fmt_ptr fd name) (fun o h' => exists tr,
    h' = h ++ tr /\
    (o = Done tt /\ written 1 tr = wc_line (received fd tr) name \/
     o = Exited 1 /\ written 1 tr = $"wc: read error" ++ [newline])).
Proof.
  intros L. unfold wc. wstep.
  apply wpt_iter with (Inv := fun k h' => exists tr, h' = h ++ tr /\ written 1 tr = [] /\
    k = fold_left wc_char (received fd tr) (Counts 0 0 0 false)).
  2:{ exists []. rewrite app_nil_r. auto. }
  intros k h' (tr & -> & W & ->). unfold wc_turn. wstep. wstep.
  assert (R1 : received fd (tr ++ [(CRead fd 512, r)]) = received fd tr ++ delivered r)
    by apply received_read.
  assert (W1 : written 1 (tr ++ [(CRead fd 512, r)]) = []).
  { rewrite written_app, W. reflexivity. }
  rewrite <- app_assoc. destruct (Z.gtb_spec (r_ret r) 0) as [P|P]; wstep; cbn [turnpost wseqpost].
  - eexists. split; [reflexivity|]. rewrite R1, fold_left_app. auto.
  - rewrite delivered_none, app_nil_r in R1 by lia. rewrite <- R1. clear R1. set (tr1 := tr ++ _) in *.
    destruct (Z.ltb_spec (r_ret r) 0).
    + wstep. wstep. eapply wpt_mono.
      { apply twp_sound, (printf_prints E fmt_ptr _ [] ($"wc: read error" ++ [newline]));
          [auto|discriminate|reflexivity]. }
      intros o h' (-> & tr2 & -> & Wo & _). cbn [wseqpost]. wstep. exists (tr1 ++ tr2).
      rewrite app_assoc, written_app, W1, Wo. auto.
    + wstep. wstep. pose proof (wc_chars_spec 0 0 0 false (received fd tr1)) as Spec.
      change (Counts 0 0 0 false) with (Counts (s32 0) (s32 0) (s32 0) false). rewrite Spec.
      cbn [n_l n_w n_c]. eapply wpt_mono.
      { apply twp_sound, printf_prints; [auto|discriminate|apply wc_format; auto]. }
      intros o h' (-> & tr2 & -> & Wo & A). exists (tr1 ++ tr2).
      rewrite app_assoc, written_app, received_app, W1, Wo, (stdout_quiet _ A), app_nil_r, more_words_start.
      auto.
Qed.
End WcSpec.

(** [wc] counts: however the reads cut its input, when it returns it has
    printed the number of newlines, of maximal runs of non-blank characters and
    of characters of everything it received, as ints, and the name; otherwise a
    read failed, and it printed that and exited with status 1. *)
Theorem wc_counts E fmt_ptr fd name h :
  full_writes E -> len name <= 512 ->
  wpt E h (wc fmt_ptr fd name) (fun o h' => exists tr,
    h' = h ++ tr /\
    (o = Done tt /\ written 1 tr = wc_line (received fd tr) name \/
     o = Exited 1 /\ written 1 tr = $"wc: read error" ++ [newline])).
Proof. intros F L. apply wc_spec; auto. Qed.

Lemma wc_counts_witness :
  wpt all_taken [] (wc (fun _ => []) 0 ($"in")) (fun o h' => exists tr,
    h' = [] ++ tr /\
    (o = Done tt /\ written 1 tr = wc_line (received 0 tr) ($"in") \/
     o = Exited 1 /\ written 1 tr = $"wc: read error" ++ [newline])).
Proof. apply wc_counts; [intros h fd d r H; exact H|cbn; lia]. Defined.

(** * echo *)

Fixpoint joined (args : list (list Z)) : list Z :=
  match args with
  | [] => []
  | [a] => a ++ [newline]
  | a :: args => a ++ [#" "] ++ joined args
  end.

Fixpoint echo_writes (args : list (list Z)) : list (list Z) :=
  match args with
  | [] => []
  | [a] => [a; [newline]]
  | a :: args => a :: [#" "] :: echo_writes args
  end.

Lemma echo_writes_joined args : concat (echo_writes args) = joined args.
Proof.
  induction args as [|a [|b args] IH]; auto.
  change (a ++ [#" "] ++ concat (echo_writes (b :: args)) = a ++ [#" "] ++ joined (b :: args)).
  rewrite IH. reflexivity.
Qed.

(** Whole writes of a list of pieces leave their concatenation. *)
Lemma written_pieces E fd ds tr h :
  full_writes E -> calls tr = map (CWrite fd) ds -> allowed E h tr -> written fd tr = concat ds.
Proof.
  intros F. revert h tr. induction ds as [|d ds IH]; intros h [|[c' r] tr] C A; try discriminate; auto.
  cbn in C, A. injection C as -> C. destruct A as [A1 A2]. apply F in A1.
  change (written fd ((CWrite fd d, r) :: tr)) with (ev_written fd (CWrite fd d, r) ++ written fd tr).
  rewrite (IH _ _ C A2). cbn. rewrite Z.eqb_refl, A1, Nat2Z.id, firstn_all. reflexivity.
Qed.

Lemma echo_emits E args : emits E (echo_args args) (map (CWrite 1) (echo_writes args)).
Proof.
  assert (One : forall d k cs, emits E k cs ->
            emits E (ITree.bind (sysret (CWrite 1 d)) (fun _ => k)) (CWrite 1 d :: cs)).
  { intros d k cs H h. tstep. tstep. eapply twp_mono; [apply H|]. intros o h' (-> & C). split; auto.
    rewrite C. unfold calls. rewrite map_app, <- app_assoc. reflexivity. }
  induction args as [|a args IH]; [apply emits_ret|]. cbn [echo_args].
  destruct args as [|b args]; apply One, One; [apply emits_ret|exact IH].
Qed.

(** [echo] always ends with status 0, having written its arguments one by
    one, a space after each but the last and a newline after that; when the
    kernel takes every write, its output is the arguments joined by spaces and
    ended by a newline, and nothing when there are none. *)
Theorem echo_output E argv h :
  twp E (fun o h' => o = Exited 0 /\ exists tr, h' = h ++ tr /\
           calls tr = map (CWrite 1) (echo_writes (tl argv)) /\
           (full_writes E -> written 1 tr = joined (tl argv))) h (echo_main argv).
Proof.
  unfold echo_main. tstep. eapply twp_mono; [apply twp_allowed, echo_emits|].
  intros o h' ((-> & C) & tr & -> & A). cbn [seqpost]. tstep. split; auto. exists tr. split; auto.
  unfold calls in C. rewrite map_app in C. apply app_inv_head in C. split; auto. intros F.
  rewrite <- echo_writes_joined. eapply written_pieces; eauto.
Qed.

(** * rm, mkdir *)

(** The arguments up to and including the first one whose call fails. *)
Fixpoint tried (op : list Z -> Sys.call) (args : list (list Z)) (tr : history) : Prop :=
  match args with
  | [] => tr = []
  | a :: args =>
      exists r tr', tr = (op a, r) :: tr' /\
        if r_ret r <? 0 then exists msg, calls tr' = byte_writes 2 msg else tried op args tr'
  end.

Lemma until_failure_spec E op pre post args h :
  (forall a, plain (op a)) -> plain_text pre = true -> plain_text post = true -> Forall bytes args ->
  twp E (fun o h' => o = Done tt /\ exists tr, h' = h ++ tr /\ tried op args tr)
    h (until_failure op (pre ++ $"%s" ++ post) args).
Proof.
  intros P Pp Pq B. revert h. induction B as [|a args Ba B IH]; intros h; cbn [until_failure tried].
  - tstep. split; auto. exists []. rewrite app_nil_r. auto.
  - tstep. apply twp_sysret; auto. intros r Hr. cbn [seqpost].
    destruct (r_ret r <? 0) eqn:L.
    + eapply twp_mono; [apply twp_extends, fprintf_str; auto|].
      intros o h' ((-> & C) & tr & ->). split; auto. exists ((op a, r) :: tr). rewrite <- app_assoc.
      split; auto. exists r, tr. rewrite L. split; auto. eexists.
      unfold calls in C. rewrite map_app in C. apply app_inv_head in C. exact C.
    + eapply twp_mono; [apply IH|]. intros o h' (-> & tr & -> & T). split; auto.
      exists ((op a, r) :: tr). rewrite <- app_assoc. split; auto. exists r, tr. rewrite L. auto.
Qed.

(** [rm] with at least one file argument always exits with status 0, having
    asked to unlink exactly the arguments up to and including the first one
    that cannot be, in order, and it complains about that one only. *)
Theorem rm_unlinks E argv h :
  2 <= len argv -> Forall bytes argv ->
  twp E (fun o h' => o = Exited 0 /\ exists tr, h' = h ++ tr /\ tried CUnlink (tl argv) tr)
    h (rm_main argv).
Proof.
  intros L B. unfold rm_main. rewrite (proj2 (Z.ltb_ge _ _)) by lia. tstep. tstep. tstep.
  eapply twp_mono.
  - apply (until_failure_spec E CUnlink ($"rm: ") ($" failed to delete" ++ [newline]));
      [intros a r; reflexivity|reflexivity|reflexivity|destruct B; cbn; auto].
  - intros o h' (-> & H). cbn [seqpost]. tstep. auto.
Qed.

Lemma rm_unlinks_witness :
  twp xv6 (fun o h' => o = Exited 0 /\ exists tr, h' = [] ++ tr /\ tried CUnlink [$"a"; $"b"] tr)
    [] (rm_main [$"rm"; $"a"; $"b"]).
Proof.
  apply (rm_unlinks xv6 [$"rm"; $"a"; $"b"]); [cbn; lia|]. repeat constructor; discriminate.
Defined.

Lemma mkdir_makes E argv h :
  2 <= len argv -> Forall bytes argv ->
  twp E (fun o h' => o = Exited 0 /\ exists tr, h' = h ++ tr /\ tried CMkdir (tl argv) tr)
    h (mkdir_main argv).
Proof.
  intros L B. unfold mkdir_main. rewrite (proj2 (Z.ltb_ge _ _)) by lia. tstep. tstep. tstep.
  eapply twp_mono.
  - apply (until_failure_spec E CMkdir ($"mkdir: ") ($" failed to create" ++ [newline]));
      [intros a r; reflexivity|reflexivity|reflexivity|destruct B; cbn; auto].
  - intros o h' (-> & H). cbn [seqpost]. tstep. auto.
Qed.

(** * kill: the numbers of its arguments *)

Lemma kill_args_spec E args h :
  Forall nonul args ->
  twp E (fun o h' => o = Done tt /\ calls h' =
           calls h ++ map (fun a => CKill (s32 (dec_value 0 (digit_prefix a)))) args)
    h (kill_args args).
Proof.
  intros N. revert h. induction N as [|a args Na N IH]; intros h; cbn [kill_args map].
  - tstep. rewrite app_nil_r. auto.
  - rewrite (atoi_prefix _ 0 a (S (length a)) (cstr_mem_of 0 a Na) ltac:(lia)).
    tstep. tstep. eapply twp_mono; [apply IH|]. intros o h' (-> & ->). split; auto.
    unfold calls. rewrite map_app, <- app_assoc. reflexivity.
Qed.
