(* ===== verification/Grep.v ===== *)
(** grep: src/user/grep.c.  The regular-expression matcher, its meaning, and
    the loop that cuts the input into lines.

    A C string is the list of its characters, a pointer into it a suffix of
    that list: [re[0] == 0] and [*text == 0] are the empty list. *)

From ITree Require Import ITree.
From S2P Require Import Prelude Mem Sys Ulib Printf Tools ToolsSpec.
Import ITreeNotations.
Local Open Scope itree_scope.
Local Open Scope zm_scope.

(** * The matcher *)

(** [matchstar(c, re, text)], with [here] for [matchhere(re, _)]. *)
Fixpoint matchstar (here : list Z -> bool) (c : Z) (text : list Z) : bool :=
  if here text then true
  else match text with
       | [] => false
       | x :: text => if (x =? c) || (c =? #".") then matchstar here c text else false
       end.

Fixpoint matchhere (re text : list Z) : bool :=
  match re with
  | [] => true
  | c :: re' =>
      let rest :=
        if (c =? #"$") && match re' with [] => true | _ => false end
        then match text with [] => true | _ => false end
        else match text with
             | x :: text' => if (c =? #".") || (c =? x) then matchhere re' text' else false
             | [] => false
             end in
      match re' with
      | s :: re'' => if s =? #"*" then matchstar (fun t => matchhere re'' t) c text else rest
      | [] => rest
      end
  end.

(** The unanchored search of [match]. *)
Fixpoint match_anywhere (re text : list Z) : bool :=
  if matchhere re text then true
  else match text with
       | [] => false
       | _ :: text => match_anywhere re text
       end.

Definition match_ (re text : list Z) : bool :=
  match re with
  | c :: re' => if c =? #"^" then matchhere re' text else match_anywhere re text
  | [] => match_anywhere re text
  end.

(** * The loop over lines *)

(** [strchr(p, '\n')] in the NUL-terminated buffer: the line before the first
    newline and what follows it. *)
Fixpoint find_newline (p : list Z) : option (list Z * list Z) :=
  match p with
  | [] => None
  | c :: p =>
      if c =? 0 then None
      else if c =? newline then Some ([], p)
      else match find_newline p with
           | Some (line, rest) => Some (c :: line, rest)
           | None => None
           end
  end.

(** The inner loop: the part of the buffer from [p] on is the argument, and
    what is left of it when no newline is found is the result. *)
Fixpoint grep_lines (fuel : nat) (pattern p : list Z) : prog (list Z) :=
  match fuel with
  | O => abort
  | S fuel =>
      match find_newline p with
      | Some (line, rest) =>
          (if match_ pattern line then sysret (CWrite 1 (line ++ [newline])) ;; Ret tt else Ret tt) ;;
          grep_lines fuel pattern rest
      | None => Ret p
      end
  end.

(** One turn of the outer loop; [pend] is the first [m] bytes of [buf]. *)
Definition grep_turn (pattern : list Z) (fd : Z) (pend : list Z) : prog (list Z + unit) :=
  r <- sys (CRead fd (1024 - len pend - 1)) ;;
  if r_ret r >? 0 then
    let buf := pend ++ delivered r in
    p <- grep_lines (S (length buf)) pattern buf ;;
    Ret (inl p)
  else Ret (inr tt).

Definition grep (pattern : list Z) (fd : Z) : prog unit := ITree.iter (grep_turn pattern fd) [].

Section Main.
Variable fmt_ptr : Z -> list Z.

Fixpoint grep_files (pattern : list Z) (args : list (list Z)) : prog unit :=
  match args with
  | [] => Ret tt
  | a :: args =>
      fd <- sysret (COpen a 0) ;;
      (if fd <? 0 then printf fmt_ptr ($"grep: cannot open %s" ++ [newline]) [AStr (Some a)] ;; exit_ 1
       else Ret tt) ;;
      grep pattern fd ;;
      sysret (CClose fd) ;;
      grep_files pattern args
  end.

Definition grep_main (argv : list (list Z)) : prog unit :=
  (if len argv <=? 1 then die ($"usage: grep pattern [file ...]" ++ [newline]) [] else Ret tt) ;;
  let pattern := nth 1 argv [] in
  (if len argv <=? 2 then grep pattern 0 ;; exit_ 0 else Ret tt) ;;
  grep_files pattern (skipn 2 argv) ;;
  exit_ 0.
End Main.

(** * What a pattern means *)

(** A pattern is a list of items and an optional anchor at the end. *)
Variant item : Type :=
| One (c : Z)
| Many (c : Z).

Fixpoint compile (re : list Z) : list item * bool :=
  match re with
  | [] => ([], false)
  | c :: re' =>
      let one :=
        if (c =? #"$") && match re' with [] => true | _ => false end then ([], true)
        else let '(its, e) := compile re' in (One c :: its, e) in
      match re' with
      | s :: re'' => if s =? #"*" then let '(its, e) := compile re'' in (Many c :: its, e) else one
      | [] => one
      end
  end.

Definition fits (c x : Z) : Prop := c = #"." \/ c = x.

(** The strings an item, and a sequence of items, stand for. *)
Definition item_lang (i : item) (w : list Z) : Prop :=
  match i with
  | One c => exists x, w = [x] /\ fits c x
  | Many c => Forall (fits c) w
  end.

Fixpoint items_lang (its : list item) (w : list Z) : Prop :=
  match its with
  | [] => w = []
  | i :: its => exists w1 w2, w = w1 ++ w2 /\ item_lang i w1 /\ items_lang its w2
  end.

Definition lang_here (p : list item * bool) (text : list Z) : Prop :=
  exists w post, text = w ++ post /\ items_lang (fst p) w /\ (snd p = true -> post = []).

(** [text] has an occurrence of the pattern: anywhere, or at its start when the
    pattern begins with a caret. *)
Definition occurs (re text : list Z) : Prop :=
  exists pre rest, text = pre ++ rest /\
  match re with
  | c :: re' => if c =? #"^" then pre = [] /\ lang_here (compile re') rest
                else lang_here (compile re) rest
  | [] => True
  end.

Lemma fits_eqb c x : (c =? #".") || (c =? x) = true <-> fits c x.
Proof. unfold fits. rewrite orb_true_iff, !Z.eqb_eq. tauto. Qed.

Lemma matchstar_spec here P c text :
  (forall t, here t = true <-> P t) ->
  (matchstar here c text = true <-> exists w t, text = w ++ t /\ Forall (fits c) w /\ P t).
Proof.
  intros H. induction text as [|x text IH]; cbn [matchstar].
  - destruct (here []) eqn:B.
    + split; auto. intros _. exists [], []. rewrite <- H. auto.
    + split; [discriminate|]. intros (w & t & E & _ & Pt). symmetry in E. apply app_eq_nil in E as [_ ->].
      apply H in Pt. congruence.
  - destruct (here (x :: text)) eqn:B.
    + split; auto. intros _. exists [], (x :: text). rewrite <- H. auto.
    + split.
      * destruct ((x =? c) || (c =? #".")) eqn:F; [|discriminate]. intros M. apply IH in M.
        destruct M as (w & t & -> & Fw & Pt). exists (x :: w), t. repeat split; auto. constructor; auto.
        rewrite orb_comm, (Z.eqb_sym x) in F. apply fits_eqb. auto.
      * intros ([|y w] & t & E & Fw & Pt); cbn in E.
        -- subst t. apply H in Pt. congruence.
        -- injection E as <- ->. inv Fw. rewrite orb_comm, (Z.eqb_sym x), (proj2 (fits_eqb c x)) by auto.
           apply IH. exists w, t. auto.
Qed.

Lemma lang_here_many c its e text :
  lang_here (Many c :: its, e) text <->
  exists w t, text = w ++ t /\ Forall (fits c) w /\ lang_here (its, e) t.
Proof.
  unfold lang_here. cbn [fst snd items_lang item_lang]. split.
  - intros (w & post & -> & (w1 & w2 & -> & F & I) & E). exists w1, (w2 ++ post).
    rewrite app_assoc. repeat split; auto. exists w2, post. auto.
  - intros (w & t & -> & F & w2 & post & -> & I & E). exists (w ++ w2), post.
    rewrite app_assoc. repeat split; auto. exists w, w2. auto.
Qed.

Lemma lang_here_one c its e text :
  lang_here (One c :: its, e) text <->
  exists x t, text = x :: t /\ fits c x /\ lang_here (its, e) t.
Proof.
  unfold lang_here. cbn [fst snd items_lang item_lang]. split.
  - intros (w & post & -> & (w1 & w2 & -> & (x & -> & F) & I) & E). exists x, (w2 ++ post).
    repeat split; auto. exists w2, post. auto.
  - intros (x & t & -> & F & w2 & post & -> & I & E). exists ([x] ++ w2), post.
    repeat split; auto. exists [x], w2. repeat split; auto. exists x. auto.
Qed.

Lemma matchhere_spec re text : matchhere re text = true <-> lang_here (compile re) text.
Proof.
  revert text. remember (length re) as n eqn:N. revert re N.
  induction n as [n IH] using lt_wf_ind. intros [|c re] -> text.
  { split; auto. intros _. exists [], text. repeat split; discriminate. }
  assert (One_case :
    match text with
    | x :: text' => if (c =? #".") || (c =? x) then matchhere re text' else false
    | [] => false
    end = true <-> lang_here (let '(its, e) := compile re in (One c :: its, e)) text).
  { pose proof (IH (length re) ltac:(cbn; lia) re eq_refl) as H.
    destruct (compile re) as [its e]. rewrite lang_here_one. destruct text as [|x text].
    - split; [discriminate|]. intros (x & t & E & _). discriminate.
    - destruct ((c =? #".") || (c =? x)) eqn:F.
      + rewrite H. split; [intros L; exists x, text; rewrite <- fits_eqb; auto|].
        intros (y & t & [= <- <-] & _ & L). auto.
      + split; [discriminate|]. intros (y & t & [= <- <-] & Fx & _). apply fits_eqb in Fx. congruence. }
  assert (End_case : match text with [] => true | _ => false end = true <-> lang_here ([], true) text).
  { unfold lang_here. cbn. split.
    - destruct text; [|discriminate]. intros _. exists [], []. auto.
    - intros (w & post & -> & -> & Ep). rewrite Ep; auto. }
  destruct re as [|s re]; cbn [matchhere compile].
  - destruct (c =? #"$"); cbn [andb]; auto.
  - rewrite andb_false_r. destruct (s =? #"*").
    + pose proof (IH (length re) ltac:(cbn; lia) re eq_refl) as H.
      destruct (compile re) as [its e] eqn:C. rewrite lang_here_many. apply matchstar_spec. exact H.
    + exact One_case.
Qed.

Lemma match_anywhere_spec re text :
  match_anywhere re text = true <-> exists pre rest, text = pre ++ rest /\ lang_here (compile re) rest.
Proof.
  induction text as [|x text IH]; cbn [match_anywhere].
  - destruct (matchhere re []) eqn:M.
    + apply matchhere_spec in M. split; auto. intros _. exists [], []. auto.
    + split; [discriminate|]. intros (pre & rest & E & L). symmetry in E.
      apply app_eq_nil in E as [_ ->]. apply matchhere_spec in L. congruence.
  - destruct (matchhere re (x :: text)) eqn:M.
    + apply matchhere_spec in M. split; auto. intros _. exists [], (x :: text). auto.
    + rewrite IH. split.
      * intros (pre & rest & -> & L). exists (x :: pre), rest. auto.
      * intros ([|y pre] & rest & E & L); cbn in E.
        -- subst rest. apply matchhere_spec in L. congruence.
        -- injection E as <- ->. exists pre, rest. auto.
Qed.

(** [match] decides the meaning of patterns: it answers true exactly when
    the text has an occurrence of the pattern, read as a sequence of characters,
    dots and starred characters, at the start of the text when it begins with a
    caret and up to its end when it ends with a dollar. *)
Theorem match_occurs re text : match_ re text = true <-> occurs re text.
Proof.
  unfold match_, occurs. destruct re as [|c re].
  - rewrite match_anywhere_spec. split; intros (pre & rest & E & _); exists pre, rest; split; auto.
    exists [], rest. repeat split; discriminate.
  - destruct (c =? #"^").
    + rewrite matchhere_spec. split; [intros L; exists [], text; auto|].
      intros (pre & rest & -> & -> & L). auto.
    + apply match_anywhere_spec.
Qed.

(** * What the loop prints *)

(** The complete lines of a text, without their newlines, and the rest. *)
Fixpoint cut_lines (l : list Z) : list (list Z) * list Z :=
  match l with
  | [] => ([], [])
  | c :: l =>
      let '(ls, rest) := cut_lines l in
      if c =? newline then ([] :: ls, rest)
      else match ls with
           | [] => ([], c :: rest)
           | w :: ls => ((c :: w) :: ls, rest)
           end
  end.

Definition matching (pattern text : list Z) : list Z :=
  concat (map (fun w => w ++ [newline]) (filter (match_ pattern) (fst (cut_lines text)))).

Lemma cut_lines_line w l :
  ~ In newline w -> cut_lines (w ++ newline :: l) = (w :: fst (cut_lines l), snd (cut_lines l)).
Proof.
  induction w as [|c w IH]; intros N; cbn [app cut_lines].
  - destruct (cut_lines l). reflexivity.
  - rewrite IH by (cbn in N; tauto). destruct (Z.eqb_spec c newline) as [->|]; [cbn in N; tauto|].
    reflexivity.
Qed.

Lemma cut_lines_none l : ~ In newline l -> cut_lines l = ([], l).
Proof.
  induction l as [|c l IH]; intros N; cbn [cut_lines]; auto. rewrite IH by (cbn in N; tauto).
  destruct (Z.eqb_spec c newline) as [->|]; [cbn in N; tauto|]. reflexivity.
Qed.

Lemma cut_lines_app l l' :
  snd (cut_lines l) = [] ->
  cut_lines (l ++ l') = (fst (cut_lines l) ++ fst (cut_lines l'), snd (cut_lines l')).
Proof.
  induction l as [|c l IH]; cbn [app cut_lines]; intros R; [destruct (cut_lines l'); auto|].
  destruct (cut_lines l) as [ls rest]. cbn [fst snd] in *.
  destruct (c =? newline); cbn [snd] in R.
  - rewrite IH by auto. reflexivity.
  - destruct ls as [|w ls]; cbn [snd] in R; [discriminate|]. rewrite IH by auto. reflexivity.
Qed.

Lemma matching_app pattern l l' :
  snd (cut_lines l) = [] -> matching pattern (l ++ l') = matching pattern l ++ matching pattern l'.
Proof.
  intros R. unfold matching. rewrite cut_lines_app by auto. cbn [fst].
  rewrite filter_app, map_app, concat_app. reflexivity.
Qed.

Lemma find_newline_spec p :
  nonul p ->
  match find_newline p with
  | Some (line, rest) => p = line ++ newline :: rest /\ ~ In newline line
  | None => ~ In newline p
  end.
Proof.
  induction 1 as [|c p N _ IH]; cbn [find_newline]; [auto|].
  rewrite (proj2 (Z.eqb_neq _ _) N). destruct (Z.eqb_spec c newline) as [->|Ne]; [auto|].
  destruct (find_newline p) as [[line rest]|].
  - destruct IH as [-> I]. split; auto. cbn. tauto.
  - cbn. tauto.
Qed.

Section GrepSpec.
Context (E : env) (F : full_writes E).

(** The lines of a buffer: all complete ones are dealt with. *)
Lemma grep_lines_spec fuel pattern p h :
  nonul p -> (length p < fuel)%nat ->
  twp E (fun o h' => exists done rest tr, o = Done rest /\ h' = h ++ tr /\ p = done ++ rest /\
           snd (cut_lines done) = [] /\ ~ In newline rest /\
           written 1 tr = matching pattern done /\ all_read tr = []) h (grep_lines fuel pattern p).
Proof.
  revert p h. induction fuel as [|fuel IH]; intros p h N L; [lia|]. cbn [grep_lines].
  pose proof (find_newline_spec p N) as S. destruct (find_newline p) as [[line rest]|].
  2:{ tstep. exists [], p, []. rewrite app_nil_r. auto 8. }
  destruct S as [-> NL]. apply Forall_app in N as [Nl Nr]. apply Forall_cons_iff in Nr as [_ Nr].
  rewrite length_app in L. cbn [length] in L.
  assert (Line : forall h1 tr1, h1 = h ++ tr1 ->
      written 1 tr1 = (if match_ pattern line then line ++ [newline] else []) -> all_read tr1 = [] ->
      twp E (fun o h' => exists done rest0 tr, o = Done rest0 /\ h' = h ++ tr /\
         line ++ newline :: rest = done ++ rest0 /\ snd (cut_lines done) = [] /\ ~ In newline rest0 /\
         written 1 tr = matching pattern done /\ all_read tr = []) h1 (grep_lines fuel pattern rest)).
  { intros h1 tr1 -> W A. eapply twp_mono; [apply IH; auto; lia|].
    intros o h' (done & rest' & tr & -> & -> & -> & S1 & S2 & S3 & S4).
    exists (line ++ newline :: done), rest', (tr1 ++ tr).
    rewrite <- !app_assoc, written_app, all_read_app, W, A, S3, S4.
    unfold matching. rewrite cut_lines_line by auto. cbn [fst snd filter].
    destruct (match_ pattern line); cbn; rewrite <- ?app_assoc; auto 10. }
  tstep. destruct (match_ pattern line).
  - tstep. tstep. tstep. eapply Line; [reflexivity| |reflexivity].
    apply (written_full 1 [] _ r). eapply F; eauto.
  - tstep. apply (Line h []); auto. rewrite app_nil_r. auto.
Qed.

(** What has been read is whole lines, whose matches are on standard output,
    and the pending bytes of the buffer. *)
Definition grep_state (pattern : list Z) (fd : Z) (tr : history) (pend : list Z) : Prop :=
  exists done, received fd tr = done ++ pend /\ snd (cut_lines done) = [] /\ ~ In newline pend /\
    written 1 tr = matching pattern done /\ len pend <= 1023.

Lemma quiet_received fd tr : all_read tr = [] -> received fd tr = [].
Proof.
  induction tr as [|[c r] tr IH]; intros A; auto.
  change (all_read ((c, r) :: tr)) with (ev_read (c, r) ++ all_read tr) in A.
  apply app_eq_nil in A as [A1 A2]. unfold received in *. cbn [flat_map]. rewrite IH by auto.
  rewrite app_nil_r. destruct c; auto. cbn in *. destruct (_ =? _); auto.
Qed.

(** The files have no NUL. *)
Definition text_input : Prop := forall h fd n r, E h (CRead fd n) r -> nonul (r_out r).

Lemma grep_turn_spec {K : Contract E} pattern fd h tr pend :
  text_input -> nonul pend -> grep_state pattern fd tr pend ->
  twp E (fun o h' => exists tr', h' = h ++ tr' /\
      match o with
      | Done (inl pend') => nonul pend' /\ grep_state pattern fd tr' pend'
      | Done (inr _) => grep_state pattern fd tr' pend
      | _ => False
      end) (h ++ tr) (grep_turn pattern fd pend).
Proof.
  intros T Np (done & R & S & NL & W & L). unfold grep_turn. tstep. tstep.
  set (n := 1024 - len pend - 1) in *. set (ev := [(CRead fd n, r)]).
  assert (R1 : received fd (tr ++ ev) = done ++ pend ++ delivered r).
  { unfold ev. rewrite received_read, R, app_assoc. reflexivity. }
  assert (W1 : written 1 (tr ++ ev) = matching pattern done) by (rewrite written_app, W, app_nil_r; auto).
  rewrite <- app_assoc. destruct (Z.gtb_spec (r_ret r) 0) as [P|P].
  - destruct (read_delivers E K _ _ _ _ H) as (D & Ln & B & _); [unfold n; lia|lia|].
    tstep. eapply twp_mono.
    + apply grep_lines_spec; [|lia]. apply Forall_app. split; auto. rewrite D. eapply T; eauto.
    + intros o h' (done2 & rest & tr2 & -> & -> & Eq & S2 & NL2 & W2 & A2). cbn [seqpost]. tstep.
      exists ((tr ++ ev) ++ tr2). rewrite !app_assoc. split; auto.
      assert (Nr : nonul rest).
      { assert (X : nonul (pend ++ delivered r)).
        { apply Forall_app. split; auto. rewrite D. eapply T; eauto. }
        rewrite Eq in X. apply Forall_app in X. tauto. }
      split; auto. exists (done ++ done2).
      rewrite received_app, R1, (quiet_received _ _ A2), app_nil_r, Eq, app_assoc.
      rewrite written_app, W1, W2, matching_app by auto.
      rewrite cut_lines_app by auto. cbn [snd]. repeat split; auto.
      apply (f_equal (@length Z)) in Eq. rewrite !length_app in Eq. unfold n in *. lia.
  - tstep. exists (tr ++ ev). split; auto. exists done. rewrite R1, W1.
    rewrite delivered_none, app_nil_r by lia. auto.
Qed.

Lemma grep_spec {K : Contract E} pattern fd h :
  text_input ->
  wpt E h (grep pattern fd) (fun o h' => o = Done tt /\ exists tr pend,
    h' = h ++ tr /\ grep_state pattern fd tr pend).
Proof.
  intros T. unfold grep.
  apply wpt_iter with (Inv := fun pend h' => nonul pend /\ exists tr, h' = h ++ tr /\
    grep_state pattern fd tr pend).
  - intros pend h' (N & tr & -> & S). eapply wpt_mono; [apply twp_sound, grep_turn_spec; eauto|].
    intros o h' (tr' & -> & H). destruct o as [[pend'|[]]|n|p a|]; cbn [turnpost]; try tauto.
    + destruct H. eauto.
    + eauto.
  - split; [constructor|]. exists []. rewrite app_nil_r. split; auto. exists []. cbn. repeat split; auto. lia.
Qed.
End GrepSpec.

(** C39: [grep] prints the matching lines.  On input without NULs, however the
    reads cut it, whenever [grep] returns it has received some whole lines and
    fewer than 1024 bytes with no newline after them, and what it has written is
    those of the whole lines that match the pattern, each with its newline, in
    order.  (A last line without a newline is never printed.) *)
Theorem grep_prints E (K : Contract E) pattern fd h :
  full_writes E -> text_input E ->
  wpt E h (grep pattern fd) (fun o h' => o = Done tt /\ exists tr whole pend,
    h' = h ++ tr /\ received fd tr = whole ++ pend /\ snd (cut_lines whole) = [] /\
    ~ In newline pend /\ len pend <= 1023 /\ written 1 tr = matching pattern whole).
Proof.
  intros F T. eapply wpt_mono; [apply grep_spec; auto|].
  intros o h' (-> & tr & pend & -> & whole & R & S & NL & W & L). split; auto.
  exists tr, whole, pend. auto 8.
Qed.

(** Replies that carry text and take every write. *)
Definition text_env : env := fun h c r =>
  xv6 h c r /\ all_taken h c r /\ match c with CRead _ _ => nonul (r_out r) | _ => True end.

Lemma grep_prints_witness :
  wpt text_env [] (grep ($"a.c") 0) (fun o h' => o = Done tt /\ exists tr whole pend,
    h' = [] ++ tr /\ received 0 tr = whole ++ pend /\ snd (cut_lines whole) = [] /\
    ~ In newline pend /\ len pend <= 1023 /\ written 1 tr = matching ($"a.c") whole).
Proof.
  apply grep_prints.
  - split; intros; match goal with H : text_env _ _ _ |- _ => destruct H as (H & _) end;
      [apply H; auto|apply H|apply H].
  - intros h fd d r (_ & H & _). exact H.
  - intros h fd n r (_ & _ & H). exact H.
Defined.
