(* ===== verification/Ls.v ===== *)
(** ls: src/user/ls.c, with the constants of fs.h and stat.h it uses.

    A path is the list of its characters.  The static buffer of [fmtname] is
    overwritten in full before it is returned, so that [fmtname] is a function
    of the path. *)

From ITree Require Import ITree.
From S2P Require Import Prelude Mem Sys Ulib Printf Tools ToolsSpec.
Import ITreeNotations.
Local Open Scope itree_scope.
Local Open Scope zm_scope.

(** fs.h and stat.h *)
Definition DIRSIZ : Z := 14.
Definition T_DIR : Z := 1.
Definition T_FILE : Z := 2.
Definition T_DEVICE : Z := 3.

(** The fields of struct stat that ls uses, by position. *)
Definition st_ino (st : list Z) : Z := nth 1 st 0.
Definition st_type (st : list Z) : Z := nth 2 st 0.
Definition st_size (st : list Z) : Z := nth 4 st 0.

(** * fmtname *)

(** [for(p = path+strlen(path); p >= path && *p != '/'; p--)]: the offset of
    [p] in [path] when it stops, from offset [k - 1] down. *)
Fixpoint last_slash (k : nat) (path : list Z) : Z :=
  match k with
  | O => -1
  | S k => if nth k path 0 =? #"/" then Z.of_nat k else last_slash k path
  end.

Definition fmtname (path : list Z) : list Z :=
  let p := skipn (Z.to_nat (last_slash (S (length path)) path + 1)) path in
  if len p >=? DIRSIZ then p
  else p ++ repeat (#" ") (Z.to_nat (DIRSIZ - len p)).

(** * ls *)

Section Ls.
Variable fmt_ptr : Z -> list Z.

(** The string in a buffer: up to its first NUL. *)
Fixpoint until_nul (l : list Z) : list Z :=
  match l with
  | [] => []
  | c :: l => if c =? 0 then [] else c :: until_nul l
  end.

(** One directory entry; [buf] holds [path], a slash and then the name. *)
Definition ls_turn (fd : Z) (path : list Z) (_ : unit) : prog (unit + unit) :=
  r <- sys (CRead fd 16) ;;
  let de := delivered r in
  if negb (r_ret r =? 16) then Ret (inr tt)
  else
    let inum := nth 0 de 0 + 256 * nth 1 de 0 in
    if inum =? 0 then Ret (inl tt)
    else
      let buf := path ++ [#"/"] ++ until_nul (firstn (Z.to_nat DIRSIZ) (skipn 2 de)) in
      '(s, st) <- stat buf ;;
      if s <? 0 then
        printf fmt_ptr ($"ls: cannot stat %s" ++ [newline]) [AStr (Some buf)] ;; Ret (inl tt)
      else
        printf fmt_ptr ($"%s %d %d %d" ++ [newline])
          [AStr (Some (fmtname buf)); AInt (st_type st); AInt (st_ino st); AInt (st_size st)] ;;
        Ret (inl tt).

Definition ls (path : list Z) : prog unit :=
  fd <- sysret (COpen path 0) ;;
  if fd <? 0 then fprintf 2 ($"ls: cannot open %s" ++ [newline]) [AStr (Some path)]
  else
    r <- sys (CFstat fd) ;;
    if r_ret r <? 0 then
      fprintf 2 ($"ls: cannot stat %s" ++ [newline]) [AStr (Some path)] ;;
      sysret (CClose fd) ;; Ret tt
    else
      let st := r_out r in
      (if (st_type st =? T_DEVICE) || (st_type st =? T_FILE) then
         printf fmt_ptr ($"%s %d %d %l" ++ [newline])
           [AStr (Some (fmtname path)); AInt (st_type st); AInt (st_ino st); AInt (st_size st)]
       else if st_type st =? T_DIR then
         if len path + 1 + DIRSIZ + 1 >? 512 then printf fmt_ptr ($"ls: path too long" ++ [newline]) []
         else ITree.iter (ls_turn fd path) tt
       else Ret tt) ;;
      sysret (CClose fd) ;;
      Ret tt.

Fixpoint ls_args (args : list (list Z)) : prog unit :=
  match args with
  | [] => Ret tt
  | a :: args => ls a ;; ls_args args
  end.

Definition ls_main (argv : list (list Z)) : prog unit :=
  if len argv <? 2 then ls ($".") ;; exit_ 0 else ls_args (tl argv) ;; exit_ 0.
End Ls.

(** * fmtname finds the last component *)

Lemma last_slash_none name k :
  ~ In (#"/") name -> (k <= S (length name))%nat -> last_slash k name = -1.
Proof.
  intros N. induction k as [|k IH]; intros L; cbn [last_slash]; auto.
  destruct (Z.eqb_spec (nth k name 0) (#"/")) as [E|_]; [|apply IH; lia].
  exfalso. destruct (Nat.lt_ge_cases k (length name)) as [Lt|Ge].
  - apply N. rewrite <- E. apply nth_In. auto.
  - rewrite nth_overflow in E by auto. discriminate.
Qed.

Lemma last_slash_at pre name k :
  ~ In (#"/") name -> (length pre < k <= S (S (length pre + length name)))%nat ->
  last_slash k (pre ++ #"/" :: name) = len pre.
Proof.
  intros N. induction k as [|k IH]; intros L; [lia|]. cbn [last_slash].
  destruct (Nat.eq_dec k (length pre)) as [->|Ne].
  - rewrite nth_middle, Z.eqb_refl. reflexivity.
  - rewrite app_nth2 by lia. destruct (k - length pre)%nat as [|i] eqn:Ei; [lia|]. cbn [nth].
    destruct (Z.eqb_spec (nth i name 0) (#"/")) as [E|_]; [|apply IH; lia].
    exfalso. destruct (Nat.lt_ge_cases i (length name)) as [Lt|Ge].
    + apply N. rewrite <- E. apply nth_In. auto.
    + rewrite nth_overflow in E by auto. discriminate.
Qed.

(** A path ends in [name]. *)
Definition last_component (path name : list Z) : Prop :=
  ~ In (#"/") name /\ (path = name \/ exists dir, path = dir ++ #"/" :: name).

Lemma fmtname_padded path name :
  last_component path name ->
  fmtname path = name ++ repeat (#" ") (Z.to_nat (DIRSIZ - len name)).
Proof.
  intros (N & H). unfold fmtname.
  assert (P : skipn (Z.to_nat (last_slash (S (length path)) path + 1)) path = name).
  { destruct H as [->|(dir & ->)].
    - rewrite last_slash_none by auto. reflexivity.
    - rewrite last_slash_at by (auto; len_solve). rewrite skipn_app, skipn_all2 by lia.
      replace (Z.to_nat (len dir + 1) - length dir)%nat with 1%nat by lia. reflexivity. }
  rewrite P. destruct (Z.geb_spec (len name) DIRSIZ); auto.
  replace (Z.to_nat (DIRSIZ - len name)) with O by lia. rewrite app_nil_r. reflexivity.
Qed.

(** * What ls prints for a directory entry *)

(** A directory entry with a name of at most 14 characters. *)
Definition dirent (inum : Z) (name : list Z) : list Z :=
  [inum mod 256; inum / 256] ++ name ++ repeat 0 (Z.to_nat (DIRSIZ - len name)).

Lemma until_nul_dirent inum name :
  nonul name -> len name <= DIRSIZ ->
  until_nul (firstn (Z.to_nat DIRSIZ) (skipn 2 (dirent inum name))) = name.
Proof.
  intros N L. unfold dirent, DIRSIZ in *. cbn [app skipn].
  rewrite firstn_all2 by (rewrite length_app, repeat_length; lia).
  generalize (Z.to_nat (14 - len name)) as k. clear L.
  induction N as [|c name Nc N IH]; intros k; cbn [app until_nul].
  - destruct k; reflexivity.
  - rewrite (proj2 (Z.eqb_neq _ _) Nc), IH. reflexivity.
Qed.

Definition ls_line (name : list Z) (ty ino size : Z) : list Z :=
  let dec n := signed_text lower_digits 10 (s32 n) in
  (name ++ repeat (#" ") (Z.to_nat (DIRSIZ - len name))) ++ $" " ++ dec ty ++ $" " ++ dec ino ++ $" " ++
  dec size ++ [newline].

Lemma ls_format fmt_ptr s ty ino size :
  len s <= 512 ->
  zformat fmt_ptr ($"%s %d %d %d" ++ [newline]) [AStr (Some s); AInt ty; AInt ino; AInt size] =
  Some (s ++ $" " ++ signed_text lower_digits 10 (s32 ty) ++ $" " ++
        signed_text lower_digits 10 (s32 ino) ++ $" " ++ signed_text lower_digits 10 (s32 size) ++ [newline]).
Proof.
  intros L.
  assert (D : forall x, zconvert fmt_ptr (#"d") (AInt x) = Some (signed_text lower_digits 10 (s32 x)))
    by reflexivity.
  change (lit "%s %d %d %d" ++ [newline]) with
    (#"%" :: #"s" :: #" " :: #"%" :: #"d" :: #" " :: #"%" :: #"d" :: #" " :: #"%" :: #"d" :: [newline]).
  rewrite (zformat_conv _ (#"s") _ (AStr (Some s)) _ s eq_refl eq_refl L).
  rewrite zformat_char by discriminate.
  rewrite (zformat_conv _ (#"d") _ _ _ _ eq_refl (D ty)) by apply short.
  rewrite zformat_char by discriminate. rewrite (zformat_conv _ (#"d") _ _ _ _ eq_refl (D ino)) by apply short.
  rewrite zformat_char by discriminate. rewrite (zformat_conv _ (#"d") _ _ _ _ eq_refl (D size)) by apply short.
  rewrite zformat_char by discriminate. cbn [zformat option_map].
  rewrite <- ?app_assoc. reflexivity.
Qed.

(** A kernel that serves one directory entry and one file status. *)
Record serves (E : env) (fd inum : Z) (name st : list Z) : Prop := {
  sv_entry h r : E h (CRead fd 16) r -> r_ret r = 16 /\ r_out r = dirent inum name;
  sv_open h p r : E h (COpen p 0) r -> 0 <= r_ret r;
  sv_stat h f r : E h (CFstat f) r -> r_ret r = 0 /\ r_out r = st;
}.

Lemma dirent_length inum name : len name <= DIRSIZ -> len (dirent inum name) = 16.
Proof.
  unfold dirent, DIRSIZ. intros L. rewrite !length_app, repeat_length. cbn [length]. lia.
Qed.

(** one entry of a directory listing: for an entry with a file number and a
    name of 1 to 14 characters without a slash, [ls] looks up the file under
    the directory's path and prints its name padded with spaces to 14
    characters, its type, its number and its size; for an entry without a file
    number it prints nothing and asks nothing. *)
Theorem ls_entry E fmt_ptr fd path inum name st h :
  full_writes E -> serves E fd inum name st -> 0 <= inum < 2 ^ 16 ->
  nonul name -> ~ In (#"/") name -> len name <= DIRSIZ ->
  twp E (fun o h' => o = Done (inl tt) /\ exists tr, h' = h ++ tr /\
           written 1 tr =
             (if inum =? 0 then [] else ls_line name (st_type st) (st_ino st) (st_size st)) /\
           opened tr = (if inum =? 0 then [] else [path ++ [#"/"] ++ name]))
    h (ls_turn fmt_ptr fd path tt).
Proof.
  intros F S I N NS L. unfold ls_turn. tstep. tstep.
  destruct (sv_entry _ _ _ _ _ S _ _ H) as [R Out].
  assert (D : delivered r = dirent inum name).
  { unfold delivered. rewrite R, Out. rewrite firstn_all2; auto.
    pose proof (dirent_length inum name L). lia. }
  rewrite R, D, Z.eqb_refl. cbn [negb].
  replace (nth 0 (dirent inum name) 0 + 256 * nth 1 (dirent inum name) 0) with inum.
  2:{ cbn [dirent app nth]. pose proof (Z.div_mod inum 256). lia. }
  destruct (Z.eqb_spec inum 0) as [E0|N0].
  { tstep. split; auto. eexists. split; [reflexivity|]. auto. }
  rewrite until_nul_dirent by auto. set (buf := path ++ [#"/"] ++ name).
  assert (Fn : fmtname buf = name ++ repeat (#" ") (Z.to_nat (DIRSIZ - len name))).
  { apply fmtname_padded. split; auto. right. exists path. reflexivity. }
  tstep. unfold stat. tstep. tstep. pose proof (sv_open _ _ _ _ _ S _ _ _ H0) as O.
  rewrite (proj2 (Z.ltb_ge _ _)) by lia. tstep. tstep. destruct (sv_stat _ _ _ _ _ S _ _ _ H1) as [R1 Out1].
  tstep. tstep. tstep. rewrite R1, Out1. cbn [Z.ltb Z.compare]. tstep.
  eapply twp_mono.
  { apply printf_prints; [auto|discriminate|apply ls_format]. rewrite Fn. unfold DIRSIZ in *. len_solve. }
  intros o h' (-> & tr & -> & W & A). cbn [seqpost]. tstep. split; auto.
  rewrite <- !app_assoc. eexists. split; [reflexivity|]. rewrite !written_app, !opened_app, W, Fn.
  rewrite (opened_stdout _ A), app_nil_r. unfold opened. cbn [flat_map ev_opened].
  rewrite (proj2 (Z.ltb_ge _ _)) by lia. split; [|reflexivity]. unfold ls_line.
  cbn [written flat_map ev_written app]. rewrite <- ?app_assoc. reflexivity.
Qed.

Definition one_entry_env (fd inum : Z) (name st : list Z) : env := fun h c r =>
  all_taken h c r /\
  match c with
  | CRead fd' 16 => fd' = fd -> r = Reply 16 (dirent inum name)
  | COpen _ _ => r_ret r = 3
  | CFstat _ => r = Reply 0 st
  | _ => True
  end.

Lemma ls_entry_witness :
  twp (one_entry_env 5 258 ($"README.md") [1; 258; 2; 1; 2226])
    (fun o h' => o = Done (inl tt) /\ exists tr, h' = [] ++ tr /\
       written 1 tr = (if 258 =? 0 then [] else ls_line ($"README.md") 2 258 2226) /\
       opened tr = (if 258 =? 0 then [] else [$"." ++ [#"/"] ++ $"README.md"]))
    [] (ls_turn (fun _ => []) 5 ($".") tt).
Proof.
  apply (ls_entry _ _ 5 ($".") 258 ($"README.md") [1; 258; 2; 1; 2226]).
  - intros h fd d r [H _]. exact H.
  - split.
    + intros h r [_ H]. rewrite (H eq_refl). split; reflexivity.
    + intros h p r [_ H]. rewrite H. lia.
    + intros h f r [_ H]. rewrite H. split; reflexivity.
  - lia.
  - repeat constructor; discriminate.
  - cbn. intros I. repeat destruct I as [I|I]; try discriminate I. destruct I.
  - cbn. unfold DIRSIZ. lia.
Defined.
