(* ===== verification/Tests.v ===== *)
(** Test and demonstration programs of src/user: forktest, stressfs, pb (the
    pipe benchmark), rb_open_close, rb_spsc_test, rb_failtest, and init.

    [ringbuf(name, op, &addr)] is [CRingbuf name op a], where [a] is what [addr]
    holds before the call; the reply brings the new value.  The output of
    [printf] goes through the Zig library of Printf.v. *)

From ITree Require Import ITree.
From S2P Require Import Prelude Mem Sys Ulib Printf Tools ToolsSpec.
Import ITreeNotations.
Local Open Scope itree_scope.
Local Open Scope zm_scope.

Section Programs.
Variable fmt_ptr : Z -> list Z.
Abbreviation printf := (printf fmt_ptr).

(** * init.c *)

(** [while(wait(0) != pid)]: one turn. *)
Definition init_wait_turn (pid : Z) (_ : unit) : prog (unit + unit) :=
  wpid <- sysret (CWait false) ;;
  if wpid =? pid then Ret (inr tt)
  else if wpid <? 0 then printf ($"init: wait returned an error" ++ [newline]) [] ;; exit_ 1
  else Ret (inl tt).

Definition init_turn (_ : unit) : prog (unit + unit) :=
  printf ($"init: starting sh" ++ [newline]) [] ;;
  pid <- sysret CFork ;;
  (if pid <? 0 then printf ($"init: fork failed" ++ [newline]) [] ;; exit_ 1 else Ret tt) ;;
  (if pid =? 0 then
     sysret (CExec ($"sh") [$"sh"]) ;;
     printf ($"init: exec sh failed" ++ [newline]) [] ;;
     exit_ 1
   else Ret tt) ;;
  ITree.iter (init_wait_turn pid) tt ;;
  Ret (inl tt).

Definition CONSOLE : Z := 1.

Definition init_main : prog unit :=
  fd <- sysret (COpen ($"console") 2) ;;
  (if fd <? 0 then
     sysret (CMknod ($"console") CONSOLE 0) ;;
     sysret (COpen ($"console") 2) ;;
     Ret tt
   else Ret tt) ;;
  sysret (CDup 0) ;;
  sysret (CDup 0) ;;
  ITree.iter init_turn tt.

(** * forktest.c *)

Definition N : Z := 1000.

Definition print (s : list Z) : prog unit := sysret (CWrite 1 s) ;; Ret tt.

(** The loop [for(n=0; n<N; n++)], with [k] turns left: the final [n]. *)
Fixpoint fork_all (k : nat) (n : Z) : prog Z :=
  match k with
  | O => Ret n
  | S k =>
      pid <- sysret CFork ;;
      if pid <? 0 then Ret n
      else if pid =? 0 then exit_ 0
      else fork_all k (n + 1)
  end.

(** [for(; n > 0; n--)]: wait [k] times. *)
Fixpoint wait_all (k : nat) : prog unit :=
  match k with
  | O => Ret tt
  | S k =>
      w <- sysret (CWait false) ;;
      if w <? 0 then print ($"wait stopped early" ++ [newline]) ;; exit_ 1 else wait_all k
  end.

Definition forktest : prog unit :=
  print ($"fork test" ++ [newline]) ;;
  n <- fork_all (Z.to_nat N) 0 ;;
  (if n =? N then print ($"fork claimed to work N times!" ++ [newline]) ;; exit_ 1 else Ret tt) ;;
  wait_all (Z.to_nat n) ;;
  w <- sysret (CWait false) ;;
  (if negb (w =? -1) then print ($"wait got too many" ++ [newline]) ;; exit_ 1 else Ret tt) ;;
  print ($"fork test OK" ++ [newline]).

Definition forktest_main : prog unit := forktest ;; exit_ 0.

(** * stressfs.c *)

(** [for(i = 0; i < 4; i++) if(fork() > 0) break]: the final [i]. *)
Fixpoint stress_forks (k : nat) (i : Z) : prog Z :=
  match k with
  | O => Ret i
  | S k => pid <- sysret CFork ;; if pid >? 0 then Ret i else stress_forks k (i + 1)
  end.

Fixpoint repeat_call (k : nat) (c : Sys.call) : prog unit :=
  match k with
  | O => Ret tt
  | S k => sysret c ;; repeat_call k c
  end.

Definition stress_path (i : Z) : list Z := $"stressfs" ++ [#"0" + i].
Definition stress_data : list Z := repeat (#"a") 512.

Definition stressfs_main : prog unit :=
  printf ($"stressfs starting" ++ [newline]) [] ;;
  i <- stress_forks 4 0 ;;
  printf ($"write %d" ++ [newline]) [AInt i] ;;
  fd <- sysret (COpen (stress_path i) (Z.lor 512 2)) ;;
  repeat_call 20 (CWrite fd stress_data) ;;
  sysret (CClose fd) ;;
  printf ($"read" ++ [newline]) [] ;;
  fd <- sysret (COpen (stress_path i) 0) ;;
  repeat_call 20 (CRead fd 512) ;;
  sysret (CClose fd) ;;
  sysret (CWait false) ;;
  exit_ 0.

(** * pb.c *)

Definition CHUNK_LEN : Z := 510.
Definition WRITE_AMT : Z := 10 * 1024 * 1024.

Definition pb_chunk : list Z := List.map (fun i => #"a" + Z.of_nat i mod 26) (seq 0 (Z.to_nat CHUNK_LEN)).

(** [memcmp(read_buf, chunk, CHUNK_LEN)] with the arrays at two addresses. *)
Definition pb_memcmp (read_buf : list Z) : Z :=
  memcmp (store (mem_of 0 read_buf) 4096 pb_chunk) 0 4096 CHUNK_LEN.

(** A read fills the beginning of the buffer. *)
Definition pb_fill (buf data : list Z) : list Z := data ++ skipn (length data) buf.

Definition pb_read_turn (fd : Z) (st : list Z * Z) : prog (list Z * Z + unit) :=
  let '(buf, n_read) := st in
  if n_read <? WRITE_AMT then
    r <- sys (CRead fd CHUNK_LEN) ;;
    (if r_ret r <? 0 then printf ($"read failed" ++ [newline]) [] ;; exit_ 1 else Ret tt) ;;
    let buf := pb_fill buf (delivered r) in
    if negb (pb_memcmp buf =? 0) then
      printf ($"The byte stream read did not match written stream!" ++ [newline]) [] ;; exit_ 1
    else Ret (inl (buf, s32 (n_read + r_ret r)))
  else Ret (inr tt).

Definition pb_write_turn (fd : Z) (n_written : Z) : prog (Z + unit) :=
  if n_written <? WRITE_AMT then
    w <- sysret (CWrite fd pb_chunk) ;;
    if w <? 0 then printf ($"write failed" ++ [newline]) [] ;; exit_ 1
    else Ret (inl (s32 (n_written + w)))
  else Ret (inr tt).

(** The parent's check of its child, at the end of pb and of rb. *)
Definition check_child (pid : Z) (cleanup : prog unit) : prog Z :=
  r <- sys (CWait true) ;;
  let status := nth 0 (r_out r) 0 in
  (if negb (pid =? r_ret r) then
     printf ($"Unexpected child PID for wait" ++ [newline]) [] ;; cleanup ;; exit_ 1
   else Ret tt) ;;
  Ret status.

Definition bad_status (status : Z) (cleanup : prog unit) : prog unit :=
  if negb (status =? 0) then
    printf ($"Child returned bad exit status: %d" ++ [newline]) [AInt status] ;; cleanup ;; exit_ 1
  else Ret tt.

(** [read_buf] is not initialised: [garbage]. *)
Definition pb_main (garbage : list Z) : prog unit :=
  printf ($"Running benchmark..." ++ [newline]) [] ;;
  r <- sys CPipe ;;
  (if negb (r_ret r =? 0) then printf ($"failed pipe call" ++ [newline]) [] ;; exit_ 1 else Ret tt) ;;
  let fd0 := nth 0 (r_out r) 0 in
  let fd1 := nth 1 (r_out r) 0 in
  pid <- sysret CFork ;;
  (if negb (pid =? 0) then
     sysret (CClose fd1) ;;
     t_before <- sysret CUptime ;;
     ITree.iter (pb_read_turn fd0) (garbage, 0) ;;
     t_after <- sysret CUptime ;;
     printf ($"Elapsed ticks: %d" ++ [newline]) [AInt (s32 (t_after - t_before))] ;;
     status <- check_child pid (Ret tt) ;;
     bad_status status (Ret tt) ;;
     sysret (CClose fd0) ;;
     Ret tt
   else
     sysret (CClose fd0) ;;
     ITree.iter (pb_write_turn fd1) 0 ;;
     sysret (CClose fd1) ;;
     Ret tt) ;;
  exit_ 0.

(** * rb_failtest.c *)

Definition rb_failtest_main : prog Z :=
  let bad := printf ($"System call didn't fail when it should have" ++ [newline]) [] ;; Ret (-1) in
  r <- sys (CRingbuf [] 1 0) ;;
  if r_ret r >=? 0 then bad
  else
    r <- sys (CRingbuf ($"0123456789ABCDEF") 1 0) ;;
    if r_ret r >=? 0 then bad
    else
      r <- sys (CRingbuf ($"test") 0 0) ;;
      if r_ret r >=? 0 then bad else Ret 0.

(** * rb_open_close.c *)

Definition MAX_BUFS : Z := 16.

Definition error (msg : list Z) : prog unit := printf msg [] ;; exit_ (-1).

Definition rb_names : list (list Z) :=
  [$"buf1"; $"buf2"; $"buf3"; $"buf4"; $"buf5"; $"buf6"; $"buf7"; $"buf8"; $"buf9"; $"buf10";
   $"buf11"; $"buf12"; $"buf13"; $"buf14"; $"buf15"; $"buf16"].

(** The value of the address variable after a call. *)
Definition rb_addr (r : reply) (old : Z) : Z := nth 0 (r_out r) old.

Fixpoint reopen (k : nat) : prog unit :=
  match k with
  | O => Ret tt
  | S k =>
      r <- sys (CRingbuf ($"reopen") 1 0) ;;
      (if r_ret r <? 0 then error ($"System call failed when it shouldn't have" ++ [newline]) else Ret tt) ;;
      r <- sys (CRingbuf ($"reopen") 0 (rb_addr r 0)) ;;
      (if r_ret r <? 0 then error ($"System call failed when it shouldn't have" ++ [newline]) else Ret tt) ;;
      reopen k
  end.

(** Open buffers until one fails: those opened, with their addresses. *)
Fixpoint open_all (names : list (list Z)) : prog (list (list Z * Z)) :=
  match names with
  | [] => Ret []
  | n :: names =>
      r <- sys (CRingbuf n 1 0) ;;
      if r_ret r <? 0 then Ret []
      else opened <- open_all names ;; Ret ((n, rb_addr r 0) :: opened)
  end.

Fixpoint close_all (bufs : list (list Z * Z)) : prog unit :=
  match bufs with
  | [] => Ret tt
  | (n, a) :: bufs =>
      r <- sys (CRingbuf n 0 a) ;;
      (if r_ret r <? 0 then error ($"Unable to close allocated ringbuf" ++ [newline]) else Ret tt) ;;
      close_all bufs
  end.

Fixpoint open_close_rounds (k : nat) : prog unit :=
  match k with
  | O => Ret tt
  | S k =>
      bufs <- open_all rb_names ;;
      (if len bufs =? 0 then error ($"Unable to allocate any ringbufs" ++ [newline]) else Ret tt) ;;
      close_all bufs ;;
      open_close_rounds k
  end.

Definition rb_open_close_main : prog Z :=
  reopen (Z.to_nat 10000) ;;
  printf ($"Passed test rapid open/close test" ++ [newline]) [] ;;
  open_close_rounds (Z.to_nat 1000) ;;
  printf ($"Passed full open/close test" ++ [newline]) [] ;;
  pid <- sysret CFork ;;
  (if pid <? 0 then error ($"Fork error") else Ret tt) ;;
  (if pid =? 0 then
     open_all (List.map (fun n => #"x" :: List.tl n) rb_names) ;;
     exit_ 0
   else
     sysret (CWait false) ;;
     r <- sys (CRingbuf ($"parent_ringbuf") 1 0) ;;
     (if r_ret r <? 0 then error ($"Parent unable to allocate new ringbuf" ++ [newline]) else Ret tt)) ;;
  printf ($"Passed fork and exit without closing test" ++ [newline]) [] ;;
  Ret 0.

(** * rb_spsc_test.c *)

Definition owned_name : list Z := $"double_own".

Definition unexpected (msgs : list (list Z)) : prog Z :=
  List.fold_right (fun m k => printf (m ++ [newline]) [] ;; k) (Ret (-1)) msgs.

Definition call_failed : list Z := $"System call failed when it shouldn't have".
Definition call_succeeded : list Z := $"System call didn't fail when it should have".

(** A parent waits for its child and looks at its status: [Some] is a return. *)
Definition wait_child : prog (option Z) :=
  r <- sys (CWait true) ;;
  if nth 0 (r_out r) 0 <? 0 then Ret (Some (-1)) else Ret None.

(** A child that expects [ringbuf(name, 1, _)] to succeed, and returns. *)
Definition owner_child (name : list Z) (msgs : list (list Z)) : prog Z :=
  r <- sys (CRingbuf name 1 0) ;;
  if r_ret r <? 0 then unexpected msgs else Ret 0.

(** The third process. *)
Definition third_owner : prog Z :=
  r <- sys (CRingbuf owned_name 1 0) ;;
  if r_ret r >=? 0
  then unexpected [call_succeeded; $"Should not be ownable by a different proc (3 owners)"]
  else Ret 0.

Definition second_owner : prog Z :=
  r <- sys (CRingbuf owned_name 1 0) ;;
  if r_ret r <? 0 then unexpected [call_failed; $"Should be ownable by a different proc"]
  else
    pid <- sysret CFork ;;
    if pid >? 0 then
      w <- wait_child ;;
      match w with Some v => Ret v | None => Ret 0 end
    else third_owner.

(** From [pid3] on: the hand-off of a second buffer. *)
Definition handoff : prog Z :=
  r <- sys (CRingbuf ($"second") 1 0) ;;
  if r_ret r <? 0 then unexpected [call_failed]
  else
    pid3 <- sysret CFork ;;
    if negb (pid3 >? 0) then owner_child ($"second") [call_failed]
    else
      sysret (CSleep 5) ;;
      sys (CRingbuf ($"second") 0 (rb_addr r 0)) ;;
      pid4 <- sysret CFork ;;
      if pid4 >? 0 then
        w <- wait_child ;;
        match w with Some v => Ret v | None => Ret 0 end
      else owner_child ($"second") [call_failed; $"Should be ownable by a different proc"].

Definition rb_spsc_main : prog Z :=
  r <- sys (CRingbuf owned_name 1 0) ;;
  if r_ret r <? 0 then unexpected [call_failed]
  else
    r2 <- sys (CRingbuf owned_name 1 (rb_addr r 0)) ;;
    if r_ret r2 >=? 0
    then unexpected [call_succeeded; $"Should not be ownable by the same proc twice"]
    else
      pid <- sysret CFork ;;
      if negb (pid >? 0) then second_owner
      else
        w <- wait_child ;;
        match w with
        | Some v => Ret v
        | None =>
            pid2 <- sysret CFork ;;
            if negb (pid2 >? 0)
            then owner_child owned_name
                   [call_failed; $"Should be re-ownable by a different proc (2 owners)"]
            else
              w <- wait_child ;;
              match w with Some v => Ret v | None => handoff end
        end.
End Programs.
