(* ===== verification/TestsSpec.v ===== *)
(** What init and the test programs do: theorems about Tests.v. *)

From ITree Require Import ITree.
From S2P Require Import Prelude Mem Sys Ulib Printf Tools ToolsSpec Tests.
Local Open Scope zm_scope.

(** * forktest *)

Definition forked (e : event) : Prop := Datatypes.fst e = CFork /\ 0 < r_ret (snd e).
Definition waited (e : event) : Prop := Datatypes.fst e = CWait false /\ 0 <= r_ret (snd e).

Lemma fork_all_spec E (K : Contract E) k n h :
  twp E (fun o h' => child h' /\ o = Exited 0 \/
     exists forks, Forall forked forks /\
       (o = Done (n + Z.of_nat k) /\ h' = h ++ forks /\ length forks = k \/
        exists r, r_ret r < 0 /\ o = Done (n + len forks) /\ h' = h ++ forks ++ [(CFork, r)] /\
          (length forks < k)%nat)) h (fork_all k n).
Proof.
  revert n h. induction k as [|k IH]; intros n h; cbn [fork_all].
  - tstep. right. exists []. split; [constructor|]. left. rewrite app_nil_r. repeat split. f_equal. lia.
  - tstep. tstep. destruct (Z.ltb_spec (r_ret r) 0).
    + tstep. right. exists []. split; [constructor|]. right. exists r. cbn.
      repeat split; auto; [f_equal; lia|lia].
    + destruct (Z.eqb_spec (r_ret r) 0) as [Z0|NZ].
      * tstep. left. split; auto. exists r. split; auto. apply in_or_app. right. left. auto.
      * eapply twp_mono; [apply IH|]. intros o h' [[C ->]|(forks & F & H1)]; [auto|]. right.
        exists ((CFork, r) :: forks). split; [constructor; auto; split; cbn; auto; lia|].
        destruct H1 as [(-> & -> & L)|(r2 & N2 & -> & -> & L)].
        -- left. rewrite <- app_assoc. cbn [length]. repeat split; auto. f_equal. lia.
        -- right. exists r2. rewrite <- app_assoc. cbn [length]. repeat split; auto; [f_equal; lia|lia].
Qed.

Lemma wait_all_spec E k h :
  twp E (fun o h' => exists waits, Forall waited waits /\
     (o = Done tt /\ h' = h ++ waits /\ length waits = k \/ o = Exited 1)) h (wait_all k).
Proof.
  revert h. induction k as [|k IH]; intros h; cbn [wait_all].
  - tstep. exists []. rewrite app_nil_r. auto.
  - tstep. tstep. destruct (Z.ltb_spec (r_ret r) 0).
    + unfold print. repeat tstep. exists []. auto.
    + eapply twp_mono; [apply IH|]. intros o h' (waits & F & H1).
      exists ((CWait false, r) :: waits). split; [constructor; auto; split; auto|].
      destruct H1 as [(-> & -> & L)| ->]; auto. left. rewrite <- app_assoc. cbn [length]. auto.
Qed.

(** The trace of a successful test: as many waits as forks, then one that fails. *)
Definition forktest_ok (tr : history) : Prop :=
  exists w1 forks rf waits rw w2,
    tr = (CWrite 1 ($"fork test" ++ [newline]), w1) :: forks ++ (CFork, rf) :: waits ++
         [(CWait false, rw); (CWrite 1 ($"fork test OK" ++ [newline]), w2)] /\
    Forall forked forks /\ r_ret rf < 0 /\ Forall waited waits /\ length waits = length forks /\
    len forks < N /\ r_ret rw = -1.

(** [forktest] always ends.  Each child exits at once with status 0; the
    parent exits with status 0 only after fork has succeeded some n < 1000
    times and then failed, exactly n waits have succeeded and one more has
    returned -1; in every other case its status is 1. *)
Theorem forktest_result E (K : Contract E) :
  twp E (fun o h => child h /\ o = Exited 0 \/
                    o = Exited 0 /\ forktest_ok h \/ o = Exited 1) [] forktest_main.
Proof.
  unfold forktest_main, forktest, print. do 5 tstep. cbn [app].
  tstep. eapply twp_mono; [apply fork_all_spec; auto|].
  intros o h [[C ->]|(forks & F & H1)]; cbn [seqpost]; [auto|].
  destruct H1 as [(-> & -> & L)|(rf & Nf & -> & -> & L)]; cbn [seqpost].
  - rewrite Z2Nat.id by (unfold N; lia). rewrite Z.add_0_l, Z.eqb_refl. repeat tstep. auto.
  - rewrite Z.add_0_l, (proj2 (Z.eqb_neq _ _)) by (unfold N in *; lia). tstep. tstep.
    rewrite Nat2Z.id. tstep. eapply twp_mono; [apply wait_all_spec|].
    intros o h (waits & Fw & [(-> & -> & Lw)| ->]); cbn [seqpost]; [|auto].
    do 2 tstep. destruct (Z.eqb_spec (r_ret r0) (-1)) as [Eq|Ne]; cbn [negb].
    + tstep. tstep. tstep. tstep. tstep. tstep. right. left. split; auto.
      exists r, forks, rf, waits, r0, r1. rewrite <- !app_assoc. cbn [app].
      repeat split; auto. unfold N in *. lia.
    + repeat tstep. auto.
Qed.

Lemma forktest_result_witness :
  twp xv6 (fun o h => child h /\ o = Exited 0 \/
                      o = Exited 0 /\ forktest_ok h \/ o = Exited 1) [] forktest_main.
Proof. apply forktest_result, xv6_contract. Defined.

(** * init *)

Section Init.
Context (E : env) (F : full_writes E) (fmt_ptr : Z -> list Z).

Definition starting : list Z := $"init: starting sh" ++ [newline].

(** One life of the shell, seen from init: started once, waited for to the end. *)
Definition shell_life (tr : history) : Prop :=
  exists pr r waits last,
    tr = pr ++ (CFork, r) :: waits ++ [(CWait false, last)] /\
    Forall is_stdout pr /\ written 1 pr = starting /\ 0 < r_ret r /\
    Forall (fun e => waited e /\ r_ret (snd e) <> r_ret r) waits /\ r_ret last = r_ret r.

(** How the child ends: as the shell, or with status 1. *)
Definition shell_child (o : outcome unit) : Prop := o = Replaced ($"sh") [$"sh"] \/ o = Exited 1.

Lemma complaint_spec {R} fmt h (Q : outcome R -> history -> Prop) :
  fmt <> [] -> zformat fmt_ptr fmt [] = Some fmt ->
  (forall h', (exists tr, h' = h ++ tr) -> Q (Exited 1) h') ->
  twp E Q h (ITree.bind (printf fmt_ptr fmt []) (fun _ => exit_ 1)).
Proof.
  intros Ne Z0 H. tstep. eapply twp_mono; [apply printf_prints; eauto|].
  intros o h' (-> & tr & -> & _). cbn [seqpost]. tstep. eauto.
Qed.

Lemma init_wait_spec pid h :
  0 < pid ->
  wpt E h (ITree.iter (init_wait_turn fmt_ptr pid) tt) (fun o h' => o = Exited 1 \/
    o = Done tt /\ exists waits last, h' = h ++ waits ++ [(CWait false, last)] /\
      Forall (fun e => waited e /\ r_ret (snd e) <> pid) waits /\ r_ret last = pid).
Proof.
  intros P. apply wpt_iter with (Inv := fun _ h' => exists waits, h' = h ++ waits /\
    Forall (fun e => waited e /\ r_ret (snd e) <> pid) waits).
  2:{ exists []. rewrite app_nil_r. auto. }
  intros [] h' (waits & -> & W). unfold init_wait_turn. wstep. wstep.
  destruct (Z.eqb_spec (r_ret r) pid) as [Eq|Ne].
  - wstep. right. split; auto. exists waits, r. rewrite app_assoc. auto.
  - destruct (Z.ltb_spec (r_ret r) 0).
    + apply twp_sound, complaint_spec; [discriminate|reflexivity|]. intros. cbn. auto.
    + wstep. exists (waits ++ [(CWait false, r)]). rewrite app_assoc. split; auto.
      apply Forall_app. split; auto. repeat constructor; auto.
Qed.

Lemma init_turn_spec h :
  wpt E h (init_turn fmt_ptr tt) (fun o h' =>
    o = Exited 1 \/ child h' /\ shell_child match o with Done _ => Trapped | Exited n => Exited n
                       | Replaced p a => Replaced p a | Trapped => Trapped end \/
    o = Done (inl tt) /\ exists tr, h' = h ++ tr /\ shell_life tr).
Proof.
  unfold init_turn. wstep. eapply wpt_mono.
  { apply twp_sound, (printf_prints E fmt_ptr _ [] starting); [auto|discriminate|reflexivity]. }
  intros o h' (-> & pr & -> & W & A). cbn [wseqpost]. wstep. wstep. wstep.
  destruct (Z.ltb_spec (r_ret r) 0).
  { apply twp_sound, complaint_spec; [discriminate|reflexivity|]. intros; left; auto. }
  wstep. wstep. destruct (Z.eqb_spec (r_ret r) 0) as [Z0|NZ].
  - assert (C : forall tr, child (((h ++ pr) ++ [(CFork, r)]) ++ tr)).
    { intros tr. exists r. split; auto. apply in_or_app. left. apply in_or_app. right. left. auto. }
    wstep. wstep.
    + right. left. split; [apply C|left; reflexivity].
    + apply twp_sound, complaint_spec; [discriminate|reflexivity|]. intros; left; auto.
  - wstep. wstep. eapply wpt_mono; [apply init_wait_spec; lia|].
    intros o h' [->|(-> & waits & last & -> & Wa & L)]; cbn [wseqpost]; [auto|].
    wstep. right. right. split; auto. exists (pr ++ (CFork, r) :: waits ++ [(CWait false, last)]).
    rewrite <- !app_assoc. cbn [app]. split; auto. exists pr, r, waits, last. repeat split; auto. lia.
Qed.

(** The calls before the first shell. *)
Definition setup_call (e : event) : Prop :=
  match Datatypes.fst e with
  | COpen p 2 => p = $"console"
  | CMknod p 1 0 => p = $"console"
  | CDup 0 => True
  | _ => False
  end.

Definition init_end (o : outcome unit) (h : history) : Prop :=
  (o = Exited 1 \/ child h /\ o = Replaced ($"sh") [$"sh"]) /\
  exists setup lives last, h = setup ++ concat lives ++ last /\
    Forall setup_call setup /\ Forall shell_life lives.

Lemma init_loop_spec setup h :
  Forall setup_call setup -> h = setup ->
  wpt E h (ITree.iter (init_turn fmt_ptr) tt) init_end.
Proof.
  intros S ->.
  apply wpt_iter with (Inv := fun _ h' => exists lives, h' = setup ++ concat lives /\ Forall shell_life lives).
  2:{ exists []. cbn. rewrite app_nil_r. auto. }
  intros [] h (lives & -> & L). eapply wpt_mono; [apply wpt_extends, init_turn_spec|].
  intros o h' (H & tr & ->). rewrite <- app_assoc in *.
  assert (T : exists setup0 lives0 last, setup ++ concat lives ++ tr = setup0 ++ concat lives0 ++ last /\
      Forall setup_call setup0 /\ Forall shell_life lives0) by (exists setup, lives, tr; auto).
  destruct H as [->|[(C & [H|H])|(-> & tr1 & Eq & Lf)]].
  - cbn. split; auto.
  - destruct o as [u|n|p a|]; try discriminate. split; [right; auto|exact T].
  - destruct o as [u|n|p a|]; try discriminate. injection H as ->. split; [auto|exact T].
  - cbn. exists (lives ++ [tr1]). rewrite concat_app. cbn. rewrite app_nil_r.
    rewrite <- app_assoc in Eq. split; auto. apply Forall_app. auto.
Qed.
End Init.

(** [init] keeps a shell running.  It never returns: after opening the
    console it starts a shell, waits until exactly that process has been
    waited for, and starts the next one, for any number of shells; its child
    becomes [sh]; the only other end is status 1, for init itself when a fork
    or a wait fails and for a child whose exec failed. *)
Theorem init_respawns E fmt_ptr :
  full_writes E -> wpt E [] (init_main fmt_ptr) init_end.
Proof.
  intros F. unfold init_main. wstep. wstep. wstep.
  assert (S1 : Forall setup_call [(COpen ($"console") 2, r)]) by (repeat constructor).
  assert (Rest : forall h, Forall setup_call h -> wpt E h
    (ITree.bind (sysret (CDup 0)) (fun _ => ITree.bind (sysret (CDup 0))
       (fun _ => ITree.iter (init_turn fmt_ptr) tt))) init_end).
  { intros h S. do 4 wstep. eapply init_loop_spec; [auto| |reflexivity].
    apply Forall_app. split; [apply Forall_app; split; auto|]; repeat constructor. }
  destruct (r_ret r <? 0).
  - do 4 wstep. wstep. apply Rest. cbn. repeat constructor.
  - wstep. apply Rest. auto.
Qed.

Lemma init_respawns_witness : wpt all_taken [] (init_main (fun _ => [])) init_end.
Proof. apply init_respawns. intros h fd d r H. exact H. Defined.

(** * Tests that return their verdict *)

Section Verdict.
Context (E : env) (F : full_writes E) (fmt_ptr : Z -> list Z).

(** A program that returns, without exiting on its own. *)
Definition returns (t : prog Z) : Prop := forall h, twp E (fun o _ => exists v, o = Done v) h t.

Lemma returns_bind {R} (t : prog R) (k : R -> prog Z) :
  (forall h, twp E (fun o _ => exists v, o = Done v) h t) -> (forall r, returns (k r)) ->
  returns (ITree.bind t k).
Proof.
  intros T K h. tstep. eapply twp_mono; [apply T|]. intros o h' (v & ->). apply K.
Qed.

Lemma returns_ret v : returns (Ret v).
Proof. intros h. tstep. eauto. Qed.

Lemma sys_returns c : plain c -> forall h, twp E (fun o _ => exists v, o = Done v) h (sys c).
Proof. intros P h. apply twp_sys; eauto. Qed.

Lemma sysret_returns c : plain c -> forall h, twp E (fun o _ => exists v, o = Done v) h (sysret c).
Proof. intros P h. apply twp_sysret; eauto. Qed.

Definition plain_line (m : list Z) : Prop := zformat fmt_ptr (m ++ [newline]) [] = Some (m ++ [newline]).

Lemma unexpected_returns msgs : Forall plain_line msgs -> returns (unexpected fmt_ptr msgs).
Proof.
  induction 1 as [|m msgs P Ms IH]; cbn [unexpected fold_right]; [apply returns_ret|].
  intros h. tstep. eapply twp_mono.
  - apply printf_prints; [auto| |exact P]. destruct m; discriminate.
  - intros o h' (-> & _). cbn [seqpost]. apply IH.
Qed.

Create HintDb returns.
#[local] Hint Resolve returns_ret unexpected_returns sys_returns sysret_returns : returns.

Ltac returns_tac :=
  repeat first
    [ apply returns_ret
    | apply unexpected_returns; repeat constructor; reflexivity
    | apply returns_bind; [apply sys_returns; plain_tac|intros ?]
    | apply returns_bind; [apply sysret_returns; plain_tac|intros ?]
    | match goal with
      | |- returns (if ?b then _ else _) => destruct b
      | |- returns (match ?w with Some _ => _ | None => _ end) => destruct w
      end ].

Lemma wait_child_returns h : twp E (fun o _ => exists v, o = Done v) h wait_child.
Proof. unfold wait_child. tstep. tstep. destruct (_ <? 0); tstep; eauto. Qed.

Lemma owner_child_returns name msgs : Forall plain_line msgs -> returns (owner_child fmt_ptr name msgs).
Proof.
  intros P. unfold owner_child. apply returns_bind; [apply sys_returns; plain_tac|]. intros r.
  destruct (_ <? 0); auto with returns.
Qed.

Ltac children :=
  repeat first [ progress returns_tac
               | apply returns_bind; [apply wait_child_returns|intros ?]
               | apply owner_child_returns; repeat constructor; reflexivity ].

Lemma rb_spsc_returns : returns (rb_spsc_main fmt_ptr).
Proof. unfold rb_spsc_main, second_owner, third_owner, handoff. children. Qed.

Lemma rb_failtest_returns : returns (rb_failtest_main fmt_ptr).
Proof.
  unfold rb_failtest_main.
  assert (B : returns (ITree.bind (printf fmt_ptr (call_succeeded ++ [newline]) []) (fun _ => Ret (-1)))).
  { apply (unexpected_returns [call_succeeded]). repeat constructor. }
  repeat first [apply B | progress returns_tac].
Qed.
End Verdict.

(** The ring-buffer tests cannot report a failure to the process that waits
    for them: they return -1 from [main], and the entry point [_main] discards
    what [main] returns.  Whatever the kernel does, every process of
    rb_spsc_test and of rb_failtest ends with status 0, in particular a child
    that found a violation, whose parent tests for a negative status. *)
Theorem rb_tests_status E fmt_ptr h :
  full_writes E ->
  twp E (fun o _ => o = Exited 0) h (_main (rb_spsc_main fmt_ptr)) /\
  twp E (fun o _ => o = Exited 0) h (_main (rb_failtest_main fmt_ptr)).
Proof.
  intros F. split; unfold _main; tstep.
  - eapply twp_mono; [apply rb_spsc_returns; auto|]. intros o h' (v & ->). cbn [seqpost]. tstep. auto.
  - eapply twp_mono; [apply rb_failtest_returns; auto|]. intros o h' (v & ->). cbn [seqpost]. tstep. auto.
Qed.

Lemma rb_tests_status_witness :
  twp all_taken (fun o _ => o = Exited 0) [] (_main (rb_spsc_main (fun _ => []))) /\
  twp all_taken (fun o _ => o = Exited 0) [] (_main (rb_failtest_main (fun _ => []))).
Proof. apply rb_tests_status. intros h fd d r H. exact H. Defined.

(** * pb *)

(** Replies for the parent of pb: the pipe has descriptors 3 and 4, and the
    stream of chunks arrives in reads of 510, 2 and 508 bytes. *)
Definition pb_replies : list reply :=
  repeat (ok 1) 21 ++ [Reply 0 [3; 4]; ok 7; ok 0; ok 0;
    Reply 510 pb_chunk; Reply 2 (firstn 2 pb_chunk); Reply 508 (skipn 2 pb_chunk)] ++ repeat (ok 1) 60.

(** The pipe benchmark rejects a correct stream that a read delivers in
    parts: it compares a whole chunk with its buffer after every read, however
    short.  Two chunks that arrive as 510, 2 and 508 bytes, as the kernel's
    512-byte pipe can deliver them, make the parent report a mismatch and exit
    with status 1, although what it received is exactly what is written. *)
Theorem pb_rejects_short_reads :
  exists tr, play 1000 (pb_main (fun _ => []) (repeat 0 510)) pb_replies = Some (tr, Exited 1) /\
    received 3 tr = pb_chunk ++ pb_chunk /\
    written 1 tr = $"Running benchmark..." ++ [newline] ++
      $"The byte stream read did not match written stream!" ++ [newline].
Proof.
  eexists. split; [vm_compute; reflexivity|]. split; vm_compute; reflexivity.
Qed.
