(* ===== verification/Ringbuf.v ===== *)
(** The shared-memory ring buffer of user programs and its benchmark:
    src/user/ulib/uringbuf.zig and src/user/rb.c.

    Two processes map the same pages: the book with its two counters, and the
    buffer, mapped twice in a row.  They are modelled as a step relation on
    shared memory: every step of a process is one atomic access to a counter or
    one byte of the buffer, and the steps of the two interleave freely.  The
    assertions of [finishRead] and [finishWrite] read both counters in one step:
    a process's own counter cannot change between its two loads.  A
    failed assertion, a slice out of bounds or a division by zero is the state
    [WStuck] or [RStuck]. *)

From S2P Require Import Prelude.
Local Open Scope zm_scope.

(** * The generators of rb.c *)

Definition xorshift_init (seed : Z) : Z := u32 seed.

(** The three statements of [xorshift_generate_char] on the state. *)
Definition xorshift_next (x : Z) : Z :=
  let x := u32 (Z.lxor x (u32 (Z.shiftl x 13))) in
  let x := u32 (Z.lxor x (Z.shiftr x 17)) in
  u32 (Z.lxor x (u32 (Z.shiftl x 5))).

(** The new state and the character. *)
Definition xorshift_generate_char (x : Z) : Z * Z :=
  let x := xorshift_next x in (x, Z.land x 255).

Definition xorshift_uint64_init (seed : Z) : Z := u64 seed.

Definition xorshift_generate_uint64 (x : Z) : Z :=
  let x := u64 (Z.lxor x (u64 (Z.shiftl x 13))) in
  let x := u64 (Z.lxor x (Z.shiftr x 7)) in
  u64 (Z.lxor x (u64 (Z.shiftl x 17))).

Definition SEED : Z := 42.
Definition WRITE_AMT : Z := 10 * 1024 * 1024.

(** * The mapped pages *)

Definition BUF_CAPACITY : Z := 16 * 4096.

Record shared : Type := Shared {
  read_done : Z;
  write_done : Z;
  cell : Z -> Z;          (* the physical bytes, below [BUF_CAPACITY] *)
}.

(** [buf[a]] through the double mapping. *)
Definition magic (a : Z) : Z := a mod BUF_CAPACITY.

Definition set_cell (s : shared) (a v : Z) : shared :=
  Shared (read_done s) (write_done s) (fun x => if x =? magic a then v else cell s x).
Definition add_read (s : shared) (n : Z) : shared :=
  Shared (u64 (read_done s + n)) (write_done s) (cell s).
Definition add_write (s : shared) (n : Z) : shared :=
  Shared (read_done s) (u64 (write_done s + n)) (cell s).

(** * The writer: the child of rb.c *)

Variant wpc : Type :=
| WLoop
| WStart (rd : Z)                  (* startWrite: read_done loaded *)
| WFill (base amt i : Z)           (* the loop over the buffer, at [i] *)
| WAssert (amt : Z)                (* finishWrite: before its assertion *)
| WAdd (amt : Z)                   (* finishWrite: before fetchAdd *)
| WDone
| WStuck.

Record writer : Type := Writer { w_gen : Z; w_size : Z; n_written : Z; w_pc : wpc }.

(** The benchmark moves [WRITE_AMT] bytes; the steps take the amount as [lim]. *)
Definition w_goto (w : writer) (p : wpc) : writer := Writer (w_gen w) (w_size w) (n_written w) p.

Definition writer_step (lim : Z) (s : shared) (w : writer) : shared * writer :=
  match w_pc w with
  | WLoop =>
      if n_written w <? lim then (s, w_goto w (WStart (read_done s))) else (s, w_goto w WDone)
  | WStart rd =>
      (* write_done is loaded; then the slice, its bounds, and the amount *)
      let wd := write_done s in
      let base := wd mod BUF_CAPACITY in
      let bytes := BUF_CAPACITY - (wd - rd) in
      if (wd <? rd) || (bytes <? 0) || (2 * BUF_CAPACITY <? base + bytes) || (bytes =? 0)
      then (s, w_goto w WStuck)
      else
        let size := xorshift_generate_uint64 (w_size w) in
        (s, Writer (w_gen w) size (n_written w) (WFill base (size mod bytes) 0))
  | WFill base amt i =>
      if i <? amt then
        let '(g, c) := xorshift_generate_char (w_gen w) in
        (set_cell s (base + i) c, Writer g (w_size w) (n_written w) (WFill base amt (i + 1)))
      else (s, Writer (w_gen w) (w_size w) (s32 (n_written w + amt)) (WAssert amt))
  | WAssert amt =>
      if (write_done s + amt <? read_done s) || (BUF_CAPACITY <? write_done s + amt - read_done s)
      then (s, w_goto w WStuck)
      else (s, w_goto w (WAdd amt))
  | WAdd amt => (add_write s amt, w_goto w WLoop)
  | WDone => (s, w)
  | WStuck => (s, w)
  end.

(** * The reader: the parent of rb.c *)

Variant rpc : Type :=
| RLoop
| RStart (rd : Z)                  (* startRead: read_done loaded *)
| RScan (base bytes i : Z)
| RAssert (bytes : Z)
| RAdd (bytes : Z)
| RDone
| RMismatch                        (* "did not match written stream" *)
| RStuck.

Record reader : Type := Reader { r_gen : Z; n_read : Z; r_pc : rpc }.

Definition r_goto (r : reader) (p : rpc) : reader := Reader (r_gen r) (n_read r) p.

Definition reader_step (lim : Z) (s : shared) (r : reader) : shared * reader :=
  match r_pc r with
  | RLoop =>
      if n_read r <? lim then (s, r_goto r (RStart (read_done s))) else (s, r_goto r RDone)
  | RStart rd =>
      let wd := write_done s in
      let base := rd mod BUF_CAPACITY in
      let bytes := wd - rd in
      if (wd <? rd) || (2 * BUF_CAPACITY <? base + bytes) then (s, r_goto r RStuck)
      else (s, r_goto r (RScan base bytes 0))
  | RScan base bytes i =>
      if i <? bytes then
        let '(g, c) := xorshift_generate_char (r_gen r) in
        if negb (cell s (magic (base + i)) =? c) then (s, Reader g (n_read r) RMismatch)
        else (s, Reader g (n_read r) (RScan base bytes (i + 1)))
      else (s, Reader (r_gen r) (s32 (n_read r + bytes)) (RAssert bytes))
  | RAssert bytes =>
      if write_done s - read_done s <? bytes then (s, r_goto r RStuck) else (s, r_goto r (RAdd bytes))
  | RAdd bytes => (add_read s bytes, r_goto r RLoop)
  | RDone => (s, r)
  | RMismatch => (s, r)
  | RStuck => (s, r)
  end.

(** * The two of them *)

Record state : Type := State { mem_of_rb : shared; wr : writer; rdr : reader }.

Inductive step (lim : Z) : state -> state -> Prop :=
| step_writer s w r s' w' : writer_step lim s w = (s', w') -> step lim (State s w r) (State s' w' r)
| step_reader s w r s' r' : reader_step lim s r = (s', r') -> step lim (State s w r) (State s' w r').

(** The book is zero when the buffer is opened, its bytes are anything.  The
    seeds of the two generators of the writer are parameters; rb.c has [SEED]
    and [SEED + 1]. *)
Definition start (seed size_seed : Z) (bytes0 : Z -> Z) : state :=
  State (Shared 0 0 bytes0)
    (Writer (xorshift_init seed) (xorshift_uint64_init size_seed) 0 WLoop)
    (Reader (xorshift_init seed) 0 RLoop).

Inductive reachable (lim : Z) (init : state) : state -> Prop :=
| reach_start : reachable lim init init
| reach_step x y : reachable lim init x -> step lim x y -> reachable lim init y.

Section Seeded.
Context (lim : Z) (Hlim : 0 <= lim <= WRITE_AMT).
Context (seed : Z).

(** * The stream *)

Definition gen_at (p : Z) : Z := Nat.iter (Z.to_nat p) xorshift_next (xorshift_init seed).
Definition char_at (p : Z) : Z := Z.land (gen_at (p + 1)) 255.

Lemma gen_at_next p : 0 <= p -> xorshift_next (gen_at p) = gen_at (p + 1).
Proof. intros P. unfold gen_at. replace (Z.to_nat (p + 1)) with (S (Z.to_nat p)) by lia. reflexivity. Qed.

Lemma generate_at p : 0 <= p -> xorshift_generate_char (gen_at p) = (gen_at (p + 1), char_at p).
Proof. intros P. unfold xorshift_generate_char, char_at. rewrite gen_at_next; auto. Qed.

(** * The invariant *)

Definition holds (s : shared) (from to : Z) : Prop :=
  forall p, from <= p < to -> cell s (p mod BUF_CAPACITY) = char_at p.

Definition writer_ok (s : shared) (w : writer) : Prop :=
  let wd := write_done s in
  match w_pc w with
  | WLoop => w_gen w = gen_at wd /\ n_written w = wd
  | WStart rd =>
      w_gen w = gen_at wd /\ n_written w = wd /\ wd < lim /\
      rd <= read_done s /\ wd - rd < BUF_CAPACITY
  | WFill base amt i =>
      base = wd mod BUF_CAPACITY /\ 0 <= i <= amt /\ wd + amt - read_done s < BUF_CAPACITY /\
      w_gen w = gen_at (wd + i) /\ n_written w = wd /\ wd < lim /\ holds s wd (wd + i)
  | WAssert amt | WAdd amt =>
      0 <= amt /\ wd + amt - read_done s < BUF_CAPACITY /\ w_gen w = gen_at (wd + amt) /\
      n_written w = wd + amt /\ wd < lim /\ holds s wd (wd + amt)
  | WDone => lim <= wd
  | WStuck => False
  end.

Definition reader_ok (s : shared) (r : reader) : Prop :=
  let rd := read_done s in
  match r_pc r with
  | RLoop => r_gen r = gen_at rd /\ n_read r = rd
  | RStart rd0 => r_gen r = gen_at rd /\ n_read r = rd /\ rd0 = rd /\ rd < lim
  | RScan base bytes i =>
      base = rd mod BUF_CAPACITY /\ 0 <= i <= bytes /\ bytes <= write_done s - rd /\
      r_gen r = gen_at (rd + i) /\ n_read r = rd
  | RAssert bytes | RAdd bytes =>
      0 <= bytes <= write_done s - rd /\ r_gen r = gen_at (rd + bytes) /\ n_read r = rd + bytes
  | RDone => lim <= rd
  | RMismatch | RStuck => False
  end.

Definition shared_ok (s : shared) : Prop :=
  0 <= read_done s <= write_done s /\ write_done s - read_done s < BUF_CAPACITY /\
  write_done s < lim + BUF_CAPACITY /\ holds s (read_done s) (write_done s).

Definition inv (x : state) : Prop :=
  shared_ok (mem_of_rb x) /\ writer_ok (mem_of_rb x) (wr x) /\ reader_ok (mem_of_rb x) (rdr x).

#[local] Arguments BUF_CAPACITY : simpl never.
#[local] Arguments WRITE_AMT : simpl never.

(** * It is preserved *)

Lemma mod_apart p q : p < q < p + BUF_CAPACITY -> p mod BUF_CAPACITY <> q mod BUF_CAPACITY.
Proof.
  intros H E. unfold BUF_CAPACITY in *.
  pose proof (Z.div_mod p (16 * 4096)). pose proof (Z.div_mod q (16 * 4096)). nia.
Qed.

Lemma magic_base a i : magic (a mod BUF_CAPACITY + i) = (a + i) mod BUF_CAPACITY.
Proof. unfold magic. rewrite Zplus_mod_idemp_l. reflexivity. Qed.

(** Writing one more byte of the stream keeps what is unread. *)
Lemma holds_set s lo wd i :
  0 <= lo <= wd -> 0 <= i -> wd + i - lo < BUF_CAPACITY ->
  holds s lo wd -> holds s wd (wd + i) ->
  let s' := set_cell s (wd mod BUF_CAPACITY + i) (char_at (wd + i)) in
  holds s' lo wd /\ holds s' wd (wd + (i + 1)).
Proof.
  intros L I B H1 H2 s'. subst s'. unfold holds, set_cell in *. cbn [cell]. rewrite magic_base.
  split; intros p Hp.
  - rewrite (proj2 (Z.eqb_neq _ _)); auto. apply mod_apart. lia.
  - destruct (Z.eq_dec p (wd + i)) as [->|Ne]; [rewrite Z.eqb_refl; auto|].
    rewrite (proj2 (Z.eqb_neq _ _)); [apply H2; lia|]. apply mod_apart. lia.
Qed.

(** The reader only looks at what it has not consumed. *)
Lemma reader_frame s s' r :
  read_done s' = read_done s -> write_done s <= write_done s' -> reader_ok s r -> reader_ok s' r.
Proof.
  intros E L. unfold reader_ok. rewrite E. destruct (r_pc r); auto; intuition lia.
Qed.

Lemma writer_frame s s' w :
  read_done s <= read_done s' -> write_done s' = write_done s -> cell s' = cell s ->
  writer_ok s w -> writer_ok s' w.
Proof.
  intros L E C. unfold writer_ok, holds. rewrite E, C. destruct (w_pc w); auto; intuition lia.
Qed.

Lemma size_range size bytes : 0 < bytes -> 0 <= size mod bytes < bytes.
Proof. apply Z.mod_pos_bound. Qed.

Lemma cap_bounds a : 0 <= a mod BUF_CAPACITY < BUF_CAPACITY.
Proof. apply Z.mod_pos_bound. reflexivity. Qed.

Lemma writer_step_inv s w r s' w' :
  shared_ok s -> writer_ok s w -> reader_ok s r -> writer_step lim s w = (s', w') ->
  shared_ok s' /\ writer_ok s' w' /\ reader_ok s' r.
Proof.
  intros S W R X. unfold writer_step, w_goto in X. destruct S as (S1 & S2 & S3 & S4).
  assert (Same : shared_ok s) by (repeat split; auto; lia).
  destruct w as [g sz n pc]. destruct pc as [|rd|base amt i|amt|amt| |]; cbn [w_pc w_gen w_size n_written] in *;
    unfold writer_ok in W; cbn [w_pc w_gen n_written] in W.
  - destruct W as [-> ->].
    destruct (Z.ltb_spec (write_done s) lim); inv X; (split; [auto|split; [|auto]]);
      unfold writer_ok; cbn; repeat split; auto; lia.
  - destruct W as (-> & -> & W1 & W2 & W3). set (bytes := BUF_CAPACITY - (write_done s - rd)) in *.
    pose proof (cap_bounds (write_done s)) as Cb.
    rewrite (proj2 (Z.ltb_ge (write_done s) rd)), (proj2 (Z.ltb_ge bytes 0)),
      (proj2 (Z.ltb_ge (2 * BUF_CAPACITY) _)), (proj2 (Z.eqb_neq bytes 0)) in X by (subst bytes; lia).
    cbn [orb] in X. inv X. split; [auto|split; [|auto]]. unfold writer_ok. cbn [w_pc w_gen n_written].
    pose proof (size_range (xorshift_generate_uint64 sz) bytes ltac:(subst bytes; lia)).
    rewrite Z.add_0_r. unfold holds. repeat split; auto; intros; subst bytes; lia.
  - destruct W as (-> & W1 & W2 & -> & -> & W3 & W4). destruct (Z.ltb_spec i amt).
    + rewrite generate_at in X by lia. inv X.
      destruct (holds_set s (read_done s) (write_done s) i) as [H1 H2]; auto; try lia.
      split; [|split].
      * repeat split; cbn; auto; lia.
      * unfold writer_ok. cbn [w_pc w_gen n_written read_done write_done set_cell].
        rewrite <- Z.add_assoc. repeat split; auto; lia.
      * apply (reader_frame s); cbn; auto. lia.
    + inv X. replace i with amt in * by lia. split; [auto|split; [|auto]].
      unfold writer_ok. cbn [w_pc w_gen n_written]. unfold WRITE_AMT, BUF_CAPACITY in *.
      rewrite s32_small by lia. repeat split; auto; lia.
  - destruct W as (W1 & W2 & -> & -> & W3 & W4).
    rewrite (proj2 (Z.ltb_ge _ _)), (proj2 (Z.ltb_ge _ _)) in X by lia. inv X.
    split; [auto|split; [|auto]]. unfold writer_ok. cbn. repeat split; auto; lia.
  - destruct W as (W1 & W2 & -> & -> & W3 & W4). inv X. unfold WRITE_AMT, BUF_CAPACITY in *.
    assert (U : u64 (write_done s + amt) = write_done s + amt) by (apply u64_small; lia).
    split; [|split].
    + unfold add_write, shared_ok, BUF_CAPACITY. cbn. rewrite U. repeat split; try lia.
      intros p Hp. destruct (Z_lt_dec p (write_done s)); [apply S4|apply W4]; lia.
    + unfold writer_ok. cbn. rewrite U. auto.
    + apply (reader_frame s); cbn; auto. rewrite U. lia.
  - inv X. auto.
  - contradiction.
Qed.

Lemma reader_step_inv s w r s' r' :
  shared_ok s -> writer_ok s w -> reader_ok s r -> reader_step lim s r = (s', r') ->
  shared_ok s' /\ writer_ok s' w /\ reader_ok s' r'.
Proof.
  intros S W R X. unfold reader_step, r_goto in X. destruct S as (S1 & S2 & S3 & S4).
  assert (Same : shared_ok s) by (repeat split; auto; lia).
  destruct r as [g n pc]. destruct pc as [|rd|base bytes i|bytes|bytes| | |]; cbn [r_pc r_gen n_read] in *;
    unfold reader_ok in R; cbn [r_pc r_gen n_read] in R.
  - destruct R as [-> ->].
    destruct (Z.ltb_spec (read_done s) lim); inv X; (split; [auto|split; [auto|]]);
      unfold reader_ok; cbn; repeat split; auto; lia.
  - destruct R as (-> & -> & -> & R4). pose proof (cap_bounds (read_done s)) as Cb.
    rewrite (proj2 (Z.ltb_ge _ _)), (proj2 (Z.ltb_ge _ _)) in X by lia. inv X.
    split; [auto|split; [auto|]]. unfold reader_ok. cbn. rewrite Z.add_0_r. repeat split; lia.
  - destruct R as (-> & R1 & R2 & -> & ->). destruct (Z.ltb_spec i bytes).
    + rewrite generate_at in X by lia. rewrite magic_base, (S4 (read_done s + i)), Z.eqb_refl in X by lia.
      inv X. split; [auto|split; [auto|]]. unfold reader_ok. cbn [r_pc r_gen n_read].
      rewrite <- Z.add_assoc. repeat split; lia.
    + inv X. replace i with bytes in * by lia. split; [auto|split; [auto|]].
      unfold reader_ok. cbn [r_pc r_gen n_read]. unfold WRITE_AMT, BUF_CAPACITY in *.
      rewrite s32_small by lia. repeat split; lia.
  - destruct R as (R1 & -> & ->). rewrite (proj2 (Z.ltb_ge _ _)) in X by lia. inv X.
    split; [auto|split; [auto|]]. unfold reader_ok. cbn. repeat split; lia.
  - destruct R as (R1 & -> & ->). inv X. unfold WRITE_AMT, BUF_CAPACITY in *.
    assert (U : u64 (read_done s + bytes) = read_done s + bytes) by (apply u64_small; lia).
    split; [|split].
    + unfold add_read, shared_ok, BUF_CAPACITY. cbn. rewrite U. repeat split; try lia.
      intros p Hp. apply S4. lia.
    + apply (writer_frame s); cbn; auto. rewrite U. lia.
    + unfold reader_ok. cbn. rewrite U. auto.
  - inv X. auto.
  - contradiction.
  - contradiction.
Qed.

Lemma reachable_inv size_seed bytes0 x : reachable lim (start seed size_seed bytes0) x -> inv x.
Proof.
  induction 1 as [|x y R IH S].
  - unfold inv, start. cbn. unfold shared_ok, holds, WRITE_AMT, BUF_CAPACITY in *. cbn.
    repeat split; auto; intros; lia.
  - destruct IH as (A & B & C). inv S; unfold inv; cbn in *.
    + eapply writer_step_inv; eauto.
    + eapply reader_step_inv; eauto.
Qed.
End Seeded.

(** ** Runs *)

Fixpoint run_writer (lim : Z) (n : nat) (s : shared) (w : writer) : shared * writer :=
  match n with
  | O => (s, w)
  | S n => let '(s, w) := writer_step lim s w in run_writer lim n s w
  end.

Fixpoint run_reader (lim : Z) (n : nat) (s : shared) (r : reader) : shared * reader :=
  match n with
  | O => (s, r)
  | S n => let '(s, r) := reader_step lim s r in run_reader lim n s r
  end.

(** Some steps of the writer, then some of the reader. *)
Definition run (lim : Z) (wn rn : nat) (x : state) : state :=
  let '(s, w) := run_writer lim wn (mem_of_rb x) (wr x) in
  let '(s, r) := run_reader lim rn s (rdr x) in
  State s w r.

Lemma run_writer_reach lim i n s w r s' w' :
  reachable lim i (State s w r) -> run_writer lim n s w = (s', w') -> reachable lim i (State s' w' r).
Proof.
  revert s w. induction n as [|n IH]; intros s w R X; cbn [run_writer] in X; [inv X; auto|].
  destruct (writer_step lim s w) as [s1 w1] eqn:X1. eapply IH; [|exact X].
  eapply reach_step; [exact R|]. constructor. auto.
Qed.

Lemma run_reader_reach lim i n s w r s' r' :
  reachable lim i (State s w r) -> run_reader lim n s r = (s', r') -> reachable lim i (State s' w r').
Proof.
  revert s r. induction n as [|n IH]; intros s r R X; cbn [run_reader] in X; [inv X; auto|].
  destruct (reader_step lim s r) as [s1 r1] eqn:X1. eapply IH; [|exact X].
  eapply reach_step; [exact R|]. constructor. auto.
Qed.

Lemma run_reach lim i wn rn x : reachable lim i x -> reachable lim i (run lim wn rn x).
Proof.
  intros R. unfold run. destruct x as [s w r]. cbn [mem_of_rb wr rdr].
  destruct (run_writer lim wn s w) as [s1 w1] eqn:X1. destruct (run_reader lim rn s1 r) as [s2 r2] eqn:X2.
  eapply run_reader_reach; [|exact X2]. eapply run_writer_reach; eauto.
Qed.

(** C11: the benchmark of the shared ring buffer is correct under every
    interleaving of its two processes.  No state that can be reached has a failed
    assertion, a slice out of bounds, a division by zero in the writer's choice
    of an amount or a byte that does not match; at most 65535 bytes are ever
    unread, which is why the division is safe; and a reader that has finished
    has consumed at least the amount asked for. *)
Theorem rb_protocol_safe lim seed size_seed bytes0 x :
  0 <= lim <= WRITE_AMT -> reachable lim (start seed size_seed bytes0) x ->
  let s := mem_of_rb x in
  w_pc (wr x) <> WStuck /\ r_pc (rdr x) <> RStuck /\ r_pc (rdr x) <> RMismatch /\
  0 <= read_done s <= write_done s /\ write_done s - read_done s <= BUF_CAPACITY - 1 /\
  (forall p, read_done s <= p < write_done s -> cell s (p mod BUF_CAPACITY) = char_at seed p) /\
  (r_pc (rdr x) = RDone -> lim <= read_done s).
Proof.
  intros B R s. apply reachable_inv in R as ((S1 & S2 & S3 & S4) & W & Rd); auto. subst s.
  unfold writer_ok in W. unfold reader_ok in Rd.
  repeat split; try lia; try exact S4; intros E; rewrite E in *; auto.
Qed.

Lemma rb_protocol_safe_witness :
  let x := run WRITE_AMT 10 3 (start SEED 24579 (fun _ => 0)) in let s := mem_of_rb x in
  w_pc (wr x) <> WStuck /\ r_pc (rdr x) <> RStuck /\ r_pc (rdr x) <> RMismatch /\
  0 <= read_done s <= write_done s /\ write_done s - read_done s <= BUF_CAPACITY - 1 /\
  (forall p, read_done s <= p < write_done s -> cell s (p mod BUF_CAPACITY) = char_at SEED p) /\
  (r_pc (rdr x) = RDone -> WRITE_AMT <= read_done s).
Proof.
  apply (rb_protocol_safe WRITE_AMT SEED 24579 (fun _ => 0)); [unfold WRITE_AMT; lia|].
  apply run_reach, reach_start.
Defined.

(** there is no data race on the buffer: when the writer is about to write a
    byte and the reader about to read one, they are different bytes of the
    buffer, although the two share its pages. *)
Theorem rb_no_race lim seed size_seed bytes0 x base amt i base' bytes j :
  0 <= lim <= WRITE_AMT -> reachable lim (start seed size_seed bytes0) x ->
  w_pc (wr x) = WFill base amt i -> i < amt ->
  r_pc (rdr x) = RScan base' bytes j -> j < bytes ->
  magic (base + i) <> magic (base' + j).
Proof.
  intros B R Ew Li Er Lj. apply reachable_inv in R as ((S1 & S2 & S3 & S4) & W & Rd); auto.
  unfold writer_ok in W. rewrite Ew in W. unfold reader_ok in Rd. rewrite Er in Rd.
  destruct W as (-> & W1 & W2 & _), Rd as (-> & R1 & R2 & _).
  rewrite !magic_base. intros E. symmetry in E. revert E. apply mod_apart. lia.
Qed.

(** The writer fills its second amount while the reader scans the first. *)
Lemma rb_no_race_witness : magic (3 + 0) <> magic (0 + 1).
Proof.
  apply (rb_no_race WRITE_AMT SEED 24579 (fun _ => 0)
           (run WRITE_AMT 10 3 (start SEED 24579 (fun _ => 0))) 3 8671 0 0 3 1);
    [unfold WRITE_AMT; lia|apply run_reach, reach_start|vm_compute; reflexivity|lia
    |vm_compute; reflexivity|lia].
Defined.

(** ** The reader ends *)

(** Steps the reader still needs at most, once the writer is done. *)
Definition potential (s : shared) (r : reader) : Z :=
  let left := write_done s - read_done s in
  match r_pc r with
  | RLoop => 20 * left + 12
  | RStart _ => 20 * left + 11
  | RScan _ bytes i => 20 * (left - bytes) + (bytes - i) + 15
  | RAssert bytes => 20 * (left - bytes) + 14
  | RAdd bytes => 20 * (left - bytes) + 13
  | _ => 0
  end.

Lemma potential_decreases lim seed s w r s' r' :
  0 <= lim <= WRITE_AMT ->
  shared_ok lim seed s -> writer_ok lim seed s w -> reader_ok lim seed s r -> w_pc w = WDone -> r_pc r <> RDone ->
  reader_step lim s r = (s', r') -> 0 <= potential s' r' < potential s r.
Proof.
  intros Hl S W R D N X.
  destruct (reader_step_inv lim Hl seed s w r s' r' S W R X) as ((S1' & S2' & S3' & _) & _ & R').
  destruct S as (S1 & S2 & S3 & S4). unfold writer_ok in W. rewrite D in W.
  unfold reader_step, r_goto in X. unfold potential, reader_ok in *.
  destruct r as [g n pc]. destruct pc as [|rd|base bytes i|bytes|bytes| | |]; cbn [r_pc r_gen n_read] in *;
    try contradiction; try congruence.
  - destruct (n <? lim); inv X; cbn [r_pc]; lia.
  - destruct R as (_ & _ & -> & R4). destruct (_ || _); inv X; cbn [r_pc] in *; lia.
  - destruct R as (-> & R1 & R2 & _). destruct (Z.ltb_spec i bytes).
    + destruct (xorshift_generate_char g) as [g' c]. destruct (negb _); inv X; cbn [r_pc] in *; lia.
    + inv X. cbn [r_pc]. lia.
  - destruct (_ <? _); inv X; cbn [r_pc] in *; lia.
  - destruct R as (R1 & _ & _). inv X. cbn [r_pc add_read read_done write_done] in *.
    unfold WRITE_AMT, BUF_CAPACITY in *. rewrite u64_small in * by lia. lia.
Qed.

(** The benchmark ends: from any state that can be reached in which the
    writer has finished writing the amount, the reader finishes in finitely many steps of its own,
    without a mismatch. *)
Theorem rb_reader_finishes lim seed size_seed bytes0 x :
  0 <= lim <= WRITE_AMT -> reachable lim (start seed size_seed bytes0) x -> w_pc (wr x) = WDone ->
  exists n, r_pc (rdr (run lim 0 n x)) = RDone.
Proof.
  intros Hl.
  remember (Z.to_nat (potential (mem_of_rb x) (rdr x))) as k eqn:K. revert x K.
  induction k as [k IH] using lt_wf_ind. intros x -> R D. destruct x as [s w r]. cbn [mem_of_rb wr rdr] in *.
  assert (Dec : {r_pc r = RDone} + {r_pc r <> RDone}) by (destruct (r_pc r); auto; right; discriminate).
  destruct Dec as [E|N]; [exists O; exact E|].
  pose proof (reachable_inv _ Hl _ _ _ _ R) as (Sok & W & Rd). cbn [mem_of_rb wr rdr] in *.
  destruct (reader_step lim s r) as [s' r'] eqn:X.
  pose proof (potential_decreases _ _ _ _ _ _ _ Hl Sok W Rd D N X) as P.
  destruct (IH (Z.to_nat (potential s' r')) ltac:(lia) (State s' w r') eq_refl) as (n & E); auto.
  - eapply reach_step; [exact R|]. constructor. auto.
  - exists (S n). unfold run in *. cbn [run_writer mem_of_rb wr rdr run_reader] in *. rewrite X. exact E.
Qed.

Lemma rb_reader_finishes_witness :
  exists n, r_pc (rdr (run 3 0 n (run 3 9 0 (start SEED 24579 (fun _ => 0))))) = RDone.
Proof.
  apply (rb_reader_finishes 3 SEED 24579 (fun _ => 0));
    [unfold WRITE_AMT; lia|apply run_reach, reach_start|vm_compute; reflexivity].
Defined.

(** * The generators never get stuck at zero *)

Section Xorshift.
Context (w : Z) (Hw : 0 < w).

Definition trunc (x : Z) : Z := x mod 2 ^ w.

Lemma trunc_bit x i : 0 <= i -> Z.testbit (trunc x) i = (i <? w) && Z.testbit x i.
Proof.
  intros I. unfold trunc. destruct (Z.ltb_spec i w).
  - rewrite Z.mod_pow2_bits_low by lia. reflexivity.
  - rewrite Z.mod_pow2_bits_high by lia. reflexivity.
Qed.

Lemma zero_by_bits x : 0 <= x < 2 ^ w -> (forall i, 0 <= i < w -> Z.testbit x i = false) -> x = 0.
Proof.
  intros B H. replace x with (trunc x) by (apply Z.mod_small; auto). apply Z.bits_inj'. intros i I.
  rewrite trunc_bit, Z.bits_0 by auto. destruct (Z.ltb_spec i w); cbn [andb]; auto.
Qed.

(** Neither half of a step maps a nonzero state to zero. *)
Lemma shl_nonzero x k : 0 < x < 2 ^ w -> 0 < k -> 0 < trunc (Z.lxor x (trunc (Z.shiftl x k))) < 2 ^ w.
Proof.
  intros B K. pose proof (Z.mod_pos_bound (Z.lxor x (trunc (Z.shiftl x k))) (2 ^ w) ltac:(lia)) as M.
  fold (trunc (Z.lxor x (trunc (Z.shiftl x k)))) in M.
  assert (trunc (Z.lxor x (trunc (Z.shiftl x k))) <> 0); [|lia]. intros Z0.
  assert (X : x = 0); [|lia]. apply zero_by_bits; [lia|]. intros i I.
  remember (Z.to_nat i) as n eqn:N. revert i I N. induction n as [n IH] using lt_wf_ind. intros i I ->.
  apply (f_equal (fun v => Z.testbit v i)) in Z0. rewrite trunc_bit, Z.bits_0, Z.lxor_spec, trunc_bit in Z0 by lia.
  rewrite (proj2 (Z.ltb_lt i w)) in Z0 by lia. cbn [andb] in Z0. rewrite Z.shiftl_spec in Z0 by lia.
  destruct (Z_lt_dec i k).
  - rewrite (Z.testbit_neg_r x (i - k)), xorb_false_r in Z0 by lia. auto.
  - rewrite (IH (Z.to_nat (i - k)) ltac:(lia) (i - k) ltac:(lia) eq_refl), xorb_false_r in Z0. auto.
Qed.

Lemma shr_nonzero x k : 0 < x < 2 ^ w -> 0 < k -> 0 < trunc (Z.lxor x (Z.shiftr x k)) < 2 ^ w.
Proof.
  intros B K. pose proof (Z.mod_pos_bound (Z.lxor x (Z.shiftr x k)) (2 ^ w) ltac:(lia)) as M.
  fold (trunc (Z.lxor x (Z.shiftr x k))) in M.
  assert (trunc (Z.lxor x (Z.shiftr x k)) <> 0); [|lia]. intros Z0.
  assert (X : x = 0); [|lia]. apply zero_by_bits; [lia|]. intros i I.
  remember (Z.to_nat (w - i)) as n eqn:N. revert i I N. induction n as [n IH] using lt_wf_ind. intros i I ->.
  apply (f_equal (fun v => Z.testbit v i)) in Z0. rewrite trunc_bit, Z.bits_0, Z.lxor_spec in Z0 by lia.
  rewrite (proj2 (Z.ltb_lt i w)) in Z0 by lia. cbn [andb] in Z0. rewrite Z.shiftr_spec in Z0 by lia.
  destruct (Z_lt_dec (i + k) w) as [L|L].
  - rewrite (IH (Z.to_nat (w - (i + k))) ltac:(lia) (i + k) ltac:(lia) eq_refl), xorb_false_r in Z0. auto.
  - replace (Z.testbit x (i + k)) with false in Z0; [rewrite xorb_false_r in Z0; auto|].
    symmetry. replace x with (trunc x) by (apply Z.mod_small; lia). rewrite trunc_bit by lia.
    rewrite (proj2 (Z.ltb_ge _ _)) by lia. reflexivity.
Qed.
End Xorshift.

(** The two generators of the benchmark never leave the nonzero states: from
    a nonzero state every later state is a nonzero machine word, so the stream
    cannot degenerate to zeros. *)
Theorem xorshift_nonzero x :
  (0 < x < 2 ^ 32 -> 0 < xorshift_next x < 2 ^ 32) /\
  (0 < x < 2 ^ 64 -> 0 < xorshift_generate_uint64 x < 2 ^ 64).
Proof.
  split; intros B.
  - apply (shl_nonzero 32); [lia| |lia]. apply (shr_nonzero 32); [lia| |lia].
    apply (shl_nonzero 32); [lia|auto|lia].
  - apply (shl_nonzero 64); [lia| |lia]. apply (shr_nonzero 64); [lia| |lia].
    apply (shl_nonzero 64); [lia|auto|lia].
Qed.

Lemma xorshift_nonzero_witness :
  (0 < SEED < 2 ^ 32 -> 0 < xorshift_next SEED < 2 ^ 32) /\
  (0 < SEED < 2 ^ 64 -> 0 < xorshift_generate_uint64 SEED < 2 ^ 64).
Proof. apply (xorshift_nonzero SEED). Defined.
