(* ===== verification/Umalloc.v ===== *)
(** The allocator of user programs: src/user/ulib/umalloc.c, Kernighan and
    Ritchie's first fit with coalescing.

    A heap is the headers by address and the pointer [freep]; [base] is the
    address of the static header.  A pointer is a byte address, so that
    [p + n] on headers is [p + 16 * n].  [malloc] may call [sbrk] and is a
    program; the loops take fuel, and the theorems show how much is enough. *)

From Stdlib Require Import Permutation.
From ITree Require Import ITree.
From S2P Require Import Prelude Mem Sys.
Import ITreeNotations.
Local Open Scope itree_scope.
Local Open Scope zm_scope.

(** * The code *)

Record header : Type := Hdr { ptr : Z; size : Z }.

Record heap : Type := Heap { hd : Z -> header; freep : Z }.

Definition set_hd (h : heap) (a : Z) (x : header) : heap :=
  Heap (fun b => if b =? a then x else hd h b) (freep h).
Definition set_ptr (h : heap) (a v : Z) : heap := set_hd h a (Hdr v (size (hd h a))).
Definition set_size (h : heap) (a n : Z) : heap := set_hd h a (Hdr (ptr (hd h a)) n).
Definition set_freep (h : heap) (p : Z) : heap := Heap (hd h) p.

(** sizeof(Header) *)
Definition HS : Z := 16.

(** The loop of [free]: the block after which [bp] goes. *)
Fixpoint free_search (fuel : nat) (h : heap) (bp p : Z) : option Z :=
  match fuel with
  | O => None
  | S fuel =>
      let next := ptr (hd h p) in
      if (bp >? p) && (bp <? next) then Some p
      else if (p >=? next) && ((bp >? p) || (bp <? next)) then Some p
      else free_search fuel h bp next
  end.

Definition free (fuel : nat) (h : heap) (ap : Z) : option heap :=
  let bp := ap - HS in
  match free_search fuel h bp (freep h) with
  | None => None
  | Some p =>
      let next := ptr (hd h p) in
      let h :=
        if bp + HS * size (hd h bp) =? next then
          let h := set_size h bp (u32 (size (hd h bp) + size (hd h next))) in
          set_ptr h bp (ptr (hd h next))
        else set_ptr h bp next in
      let h :=
        if p + HS * size (hd h p) =? bp then
          let h := set_size h p (u32 (size (hd h p) + size (hd h bp))) in
          set_ptr h p (ptr (hd h bp))
        else set_ptr h p bp in
      Some (set_freep h p)
  end.

(** The heap and the new [freep], or 0 when sbrk fails. *)
Definition morecore (fuel : nat) (h : heap) (nu : Z) : prog (heap * Z) :=
  let nu := if nu <? 4096 then 4096 else nu in
  p <- sysret (CSbrk (s32 (u64 (nu * HS)))) ;;
  if p =? -1 then Ret (h, 0)
  else
    match free fuel (set_size h p nu) (p + HS) with
    | Some h => Ret (h, freep h)
    | None => abort
    end.

(** The loop of [malloc]. *)
Fixpoint malloc_loop (fuel : nat) (h : heap) (nunits prevp p : Z) : prog (heap * Z) :=
  match fuel with
  | O => abort
  | S fuel' =>
      if size (hd h p) >=? nunits then
        if size (hd h p) =? nunits then
          Ret (set_freep (set_ptr h prevp (ptr (hd h p))) prevp, p + HS)
        else
          let h := set_size h p (u32 (size (hd h p) - nunits)) in
          let p := p + HS * size (hd h p) in
          Ret (set_freep (set_size h p nunits) prevp, p + HS)
      else if p =? freep h then
        '(h, p) <- morecore fuel h nunits ;;
        if p =? 0 then Ret (h, 0) else malloc_loop fuel' h nunits p (ptr (hd h p))
      else malloc_loop fuel' h nunits p (ptr (hd h p))
  end.

Definition units (nbytes : Z) : Z := u32 (u64 (nbytes + HS - 1) / HS + 1).

Definition malloc (fuel : nat) (base : Z) (h : heap) (nbytes : Z) : prog (heap * Z) :=
  let nunits := units nbytes in
  let h :=
    if freep h =? 0 then set_size (set_freep (set_ptr h base base) base) base 0 else h in
  let prevp := freep h in
  malloc_loop fuel h nunits prevp (ptr (hd h prevp)).

(** * The free list *)

Definition blocks : Type := list (Z * Z).

Definition next_of (l : blocks) (z : Z) : Z :=
  match l with [] => z | (b, _) :: _ => b end.

(** The headers of [l] are linked in order, the last one to [z]. *)
Fixpoint linked (h : heap) (l : blocks) (z : Z) : Prop :=
  match l with
  | [] => True
  | (a, n) :: l => hd h a = Hdr (next_of l z) n /\ linked h l z
  end.

(** Ascending, disjoint and not adjacent, from [lo] up to [top]. *)
Fixpoint gaps (lo : Z) (l : blocks) (top : Z) : Prop :=
  match l with
  | [] => lo <= top
  | (a, n) :: l => lo < a /\ 0 <= n /\ gaps (a + HS * n) l top
  end.

(** The state of the allocator: the free blocks [l] above the header [base]. *)
Record wf (base top : Z) (h : heap) (l : blocks) : Prop := {
  wf_base : 0 < base;
  wf_top : base + HS <= top <= 2 ^ 36;
  wf_gaps : gaps (base + 15) l top;
  wf_pos : Forall (fun b => 0 < snd b) l;
  wf_linked : linked h ((base, 0) :: l) base;
  wf_freep : In (freep h) (base :: map fst l);
}.

(** The bytes of the free blocks. *)
Definition covers (l : blocks) (x : Z) : Prop := exists a n, In (a, n) l /\ a <= x < a + HS * n.

(** ** Reference operations on the list *)

(** [b] joined with the first block of [l] when they touch. *)
Definition join (b : Z * Z) (l : blocks) : blocks :=
  match l with
  | [] => [b]
  | c :: l' => if fst b + HS * snd b =? fst c then (fst b, snd b + snd c) :: l' else b :: c :: l'
  end.

Fixpoint insert (b : Z * Z) (l : blocks) : blocks :=
  match l with
  | [] => [b]
  | c :: l' => if fst b <? fst c then join b (c :: l') else join c (insert b l')
  end.

#[local] Arguments HS : simpl never.

(** * Lists of blocks *)

Lemma linked_app h l1 l2 z : linked h (l1 ++ l2) z <-> linked h l1 (next_of l2 z) /\ linked h l2 z.
Proof.
  induction l1 as [|[a n] l1 IH]; cbn [app linked]; [tauto|]. rewrite IH.
  replace (next_of (l1 ++ l2) z) with (next_of l1 (next_of l2 z)) by (destruct l1 as [|[]]; auto). tauto.
Qed.

Lemma linked_frame h h' l z :
  (forall a, In a (map fst l) -> hd h' a = hd h a) -> linked h l z -> linked h' l z.
Proof.
  induction l as [|[a n] l IH]; cbn [linked map fst In]; auto. intros H [E L].
  rewrite H by auto. split; auto.
Qed.

Lemma gaps_lo lo lo' l top : lo' <= lo -> gaps lo l top -> gaps lo' l top.
Proof. destruct l as [|[a n] l]; cbn; intuition lia. Qed.

Lemma gaps_bounds lo l top a n : gaps lo l top -> In (a, n) l -> lo < a /\ a + HS * n <= top /\ 0 <= n.
Proof.
  revert lo. induction l as [|[b m] l IH]; intros lo; cbn [gaps In]; [tauto|].
  assert (Top : forall lo l, gaps lo l top -> lo <= top).
  { clear. intros lo l. revert lo. induction l as [|[b m] l IH]; cbn; auto.
    intros lo (L & M & G). apply IH in G. unfold HS in *. lia. }
  intros (L & M & G) [[= -> ->]|I]; [apply Top in G; lia|].
  destruct (IH _ G I) as (A & B & C). unfold HS in *. lia.
Qed.

Lemma gaps_app lo l1 l2 top :
  gaps lo (l1 ++ l2) top <->
  (exists mid, gaps lo l1 mid /\ gaps mid l2 top).
Proof.
  revert lo. induction l1 as [|[a n] l1 IH]; intros lo; cbn [app gaps].
  - split; [intros G; exists lo; split; auto; lia|]. intros (mid & L & G). eapply gaps_lo; eauto.
  - rewrite IH. split; [intros (A & B & mid & G1 & G2)|intros (mid & (A & B & G1) & G2)]; eauto 6.
Qed.

Lemma join_head b l : exists n l', join b l = (fst b, n) :: l'.
Proof. destruct l as [|c l]; cbn; [destruct b; eauto|]. destruct (_ =? _); destruct b; eauto. Qed.

(** Splitting at an address. *)
Lemma gaps_split lo l top x :
  gaps lo l top -> exists l1 l2, l = l1 ++ l2 /\ (forall b, In b l1 -> fst b <= x) /\
    (forall b, In b l2 -> x < fst b).
Proof.
  revert lo. induction l as [|[a n] l IH]; intros lo G; [exists [], []; cbn; tauto|].
  destruct G as (A & N & G). destruct (Z_le_dec a x).
  - destruct (IH _ G) as (l1 & l2 & -> & H1 & H2). exists ((a, n) :: l1), l2. repeat split; auto.
    intros b [<-|I]; auto.
  - exists [], ((a, n) :: l). repeat split; auto; [cbn; tauto|]. intros b [<-|I]; cbn; [lia|].
    destruct b as [b m]. apply (gaps_bounds _ _ _ _ _ G) in I as (L & _). cbn. unfold HS in *. lia.
Qed.

(** * The search of free *)

Section Search.
Context (h : heap) (base bp : Z).

Lemma search_up x y fuel q :
  x <> [] -> next_of x 0 = q -> linked h (x ++ y) base ->
  (forall b, In b x -> base <= fst b < bp) -> (forall b, In b y -> bp < fst b) ->
  (exists lo top, gaps lo (x ++ y) top) -> (length x <= fuel)%nat ->
  free_search fuel h bp q = Some (fst (last x (0, 0))).
Proof.
  revert fuel q. induction x as [|[a n] x IH]; intros fuel q NE Q L Lx Ly G F; [congruence|].
  cbn in Q. subst q. destruct fuel as [|fuel]; [cbn in F; lia|]. cbn [app linked] in L.
  destruct L as [E L]. cbn [free_search]. rewrite E. cbn [ptr].
  pose proof (Lx (a, n) (or_introl eq_refl)) as Ba. cbn in Ba.
  destruct G as (lo & top & G). cbn [app gaps] in G. destruct G as (_ & N & G).
  destruct x as [|[a' n'] x].
  - cbn [app last fst]. destruct y as [|[c m] y]; cbn [next_of].
    + destruct (Z.gtb_spec bp a), (Z.ltb_spec bp base), (Z.geb_spec a base); cbn; auto; lia.
    + pose proof (Ly (c, m) (or_introl eq_refl)) as Bc. cbn in Bc.
      destruct (Z.gtb_spec bp a), (Z.ltb_spec bp c); cbn; auto; lia.
  - cbn [app next_of]. pose proof (Lx (a', n') ltac:(cbn; auto)) as Ba'. cbn in Ba'.
    pose proof G as G0. destruct G as (G1 & _). unfold HS in G1.
    destruct (Z.ltb_spec bp a'); [lia|]. rewrite andb_false_r, orb_false_r.
    destruct (Z.geb_spec a a'); [lia|]. cbn [andb].
    rewrite (IH fuel a'); auto; try discriminate.
    + intros b I. apply Lx. cbn. auto.
    + exists (a + HS * n), top. exact G0.
    + cbn [length] in *. lia.
Qed.

Lemma search_more f f' q p :
  (f <= f')%nat -> free_search f h bp q = Some p -> free_search f' h bp q = Some p.
Proof.
  revert f' q. induction f as [|f IH]; intros [|f'] q L E; try discriminate; [lia|].
  cbn [free_search] in *. destruct (_ && _); auto. destruct (_ && _); auto. apply IH; auto. lia.
Qed.

(** From beyond [bp] the search goes up to the end and starts again at [base]. *)
Lemma search_wrap y fuel fuel' q p :
  y <> [] -> next_of y 0 = q -> linked h y base -> base < bp ->
  (forall b, In b y -> bp < fst b) -> (exists lo top, gaps lo y top) ->
  free_search fuel h bp base = Some p -> (length y + fuel <= fuel')%nat ->
  free_search fuel' h bp q = Some p.
Proof.
  revert fuel' q. induction y as [|[a n] y IH]; intros fuel' q NE Q L B Ly G S F; [congruence|].
  cbn in Q. subst q. destruct fuel' as [|fuel']; [cbn in F; lia|]. cbn [linked] in L. destruct L as [E L].
  cbn [free_search]. rewrite E. cbn [ptr]. pose proof (Ly (a, n) (or_introl eq_refl)) as Ba. cbn in Ba.
  destruct (Z.gtb_spec bp a); [lia|]. cbn [andb orb].
  destruct G as (lo & top & G). cbn [gaps] in G. destruct G as (_ & N & G).
  destruct y as [|[a' n'] y]; cbn [next_of].
  - destruct (Z.ltb_spec bp base); [lia|]. rewrite andb_false_r. eapply search_more; [|exact S]. cbn in F. lia.
  - pose proof G as G0. destruct G as (G1 & G2). unfold HS in G1.
    destruct (Z.geb_spec a a'); [lia|]. cbn [andb].
    apply IH; auto; try discriminate.
    + intros b I. apply Ly. cbn. auto.
    + exists (a + HS * n), top. exact G0.
    + cbn [length] in *. lia.
Qed.
End Search.

Lemma last_app_cons {A} (u v : list A) d e : last (u ++ d :: v) e = last (d :: v) e.
Proof.
  induction u as [|a u IH]; auto. cbn [app]. rewrite <- IH. cbn [last].
  destruct (u ++ d :: v) eqn:E; auto. destruct u; discriminate.
Qed.

(** The whole ring in one line, and where [bp] falls in it. *)
Lemma search_spec base top h l bp fuel :
  wf base top h l -> base + 15 < bp -> (forall b, In b l -> fst b <> bp) ->
  (2 * length l + 2 <= fuel)%nat ->
  exists l1 l2, l = l1 ++ l2 /\ (forall b, In b l1 -> fst b < bp) /\ (forall b, In b l2 -> bp < fst b) /\
    free_search fuel h bp (freep h) = Some (fst (last ((base, 0) :: l1) (0, 0))).
Proof.
  intros [Wb Wt Wg Wp Wl Wf] B N F. destruct (gaps_split _ _ _ bp Wg) as (l1 & l2 & -> & L1 & L2).
  exists l1, l2. assert (L1' : forall b, In b l1 -> fst b < bp).
  { intros b I. pose proof (L1 b I). pose proof (N b ltac:(apply in_or_app; auto)). lia. }
  split; [auto|]. split; [auto|]. split; [auto|].
  assert (Lo : forall b, In b l1 -> base <= fst b < bp).
  { intros [a n] I. pose proof (L1' _ I). cbn in *.
    destruct (gaps_bounds _ _ _ a n Wg); [apply in_or_app; auto|]. lia. }
  assert (G : gaps (base - 1) (((base, 0) :: l1) ++ l2) top).
  { cbn [app gaps]. split; [lia|]. split; [lia|]. eapply gaps_lo; [|exact Wg]. unfold HS. lia. }
  set (x := (base, 0) :: l1) in *. change ((base, 0) :: l1 ++ l2) with (x ++ l2) in Wl.
  assert (Lx : forall b, In b x -> base <= fst b < bp) by (intros b [<-|I]; [cbn; lia|auto]).
  rewrite length_app in F. assert (Fx : (length x + length l2 + length l1 <= fuel)%nat) by (cbn; lia).
  assert (Base : free_search (length x) h bp base = Some (fst (last x (0, 0)))).
  { apply (search_up h base bp x l2); auto; [discriminate|eauto]. }
  assert (Cases : freep h = base \/ In (freep h) (map fst l1) \/ In (freep h) (map fst l2)).
  { destruct Wf as [<-|I]; auto. right. rewrite map_app in I. apply in_app_or in I. auto. }
  destruct Cases as [->|[I|I]].
  - eapply search_more; [|exact Base]. lia.
  - apply in_map_iff in I as ([q nq] & <- & I). apply in_split in I as (u & v & E).
    cbn [fst]. subst x. rewrite E in *.
    change ((base, 0) :: u ++ (q, nq) :: v) with (((base, 0) :: u) ++ (q, nq) :: v) in *.
    rewrite last_app_cons. rewrite <- app_assoc in Wl, G. apply linked_app in Wl as [_ Wl].
    apply gaps_app in G as (mid & _ & G).
    apply (search_up h base bp ((q, nq) :: v) l2); auto; try discriminate.
    + intros b J. apply Lx, in_or_app. auto.
    + eauto.
    + rewrite !length_app in Fx. cbn [length] in *. lia.
  - apply in_map_iff in I as ([q nq] & <- & I). apply in_split in I as (u & v & ->).
    cbn [fst]. rewrite app_assoc in Wl, G. apply linked_app in Wl as [_ Wl].
    apply gaps_app in G as (mid & _ & G).
    apply (search_wrap h base bp ((q, nq) :: v) (length x)); auto; try discriminate.
    + lia.
    + intros b J. apply L2, in_or_app. auto.
    + eauto.
    + rewrite !length_app in Fx. cbn [length] in *. lia.
Qed.

(** * The effect of free *)

Lemma next_join b l z : next_of (join b l) z = fst b.
Proof. destruct (join_head b l) as (n & l' & ->). reflexivity. Qed.

Lemma join_gaps lo a n j top :
  lo < a -> 0 <= n -> gaps (a + HS * n - 1) j top -> a + HS * n <= top -> gaps lo (join (a, n) j) top.
Proof.
  intros L N G T. destruct j as [|[c k] j]; cbn [join gaps fst snd] in *; [auto|].
  destruct G as (G1 & G2 & G). destruct (Z.eqb_spec (a + HS * n) c) as [E|NE]; cbn [gaps].
  - split; [auto|]. split; [lia|]. replace (a + HS * (n + k)) with (c + HS * k) by lia. auto.
  - split; [auto|]. split; [lia|]. split; [lia|]. auto.
Qed.

Lemma gaps_top lo l top : gaps lo l top -> lo <= top.
Proof.
  revert lo. induction l as [|[a n] l IH]; cbn; auto. intros lo (A & N & G). apply IH in G.
  unfold HS in *. lia.
Qed.

(** [b] meets no block of the list. *)
Definition apart (bp nb : Z) (l : blocks) : Prop :=
  forall a n, In (a, n) l -> a + HS * n <= bp \/ bp + HS * nb <= a.

Lemma apart_cons bp nb a n l :
  apart bp nb ((a, n) :: l) <-> (a + HS * n <= bp \/ bp + HS * nb <= a) /\ apart bp nb l.
Proof.
  unfold apart. cbn [In]. split.
  - intros H. split; auto.
  - intros [H1 H2] a' n' [[= <- <-]|I]; auto.
Qed.

Lemma insert_gaps lo l top bp nb :
  gaps lo l top -> Forall (fun b => 0 < snd b) l -> apart bp nb l -> 0 < nb -> bp + HS * nb <= top ->
  (lo <= bp -> gaps (lo - 1) (insert (bp, nb) l) top) /\
  (lo < bp -> gaps lo (insert (bp, nb) l) top).
Proof.
  intros G P. revert lo G. induction P as [|[a n] l Pn P IH]; intros lo G A N T.
  - cbn. repeat split; lia.
  - apply apart_cons in A as [A1 A]. cbn [snd] in Pn. cbn [insert fst]. pose proof G as G0.
    destruct G as (G1 & G2 & G). pose proof (gaps_top _ _ _ G) as Ga.
    destruct (Z.ltb_spec bp a) as [Lt|Ge].
    + assert (J : forall lo', lo' < bp -> gaps lo' (join (bp, nb) ((a, n) :: l)) top).
      { intros lo' Lo. apply join_gaps; auto; [lia|]. cbn [gaps]. unfold HS in *. split; [lia|]. auto. }
      split; intros Lo; apply J; lia.
    + assert (a + HS * n <= bp) by (unfold HS in *; lia).
      destruct (IH _ G A N T) as [I1 _]. specialize (I1 ltac:(lia)).
      split; intros Lo; apply join_gaps; auto; lia.
Qed.

Lemma join_pos b l : 0 < snd b -> Forall (fun b => 0 < snd b) l -> Forall (fun b => 0 < snd b) (join b l).
Proof.
  intros B F. destruct F as [|c l C F]; cbn; [auto|]. destruct (_ =? _); constructor; cbn; auto. lia.
Qed.

Lemma insert_pos b l : 0 < snd b -> Forall (fun b => 0 < snd b) l -> Forall (fun b => 0 < snd b) (insert b l).
Proof.
  intros B F. induction F as [|c l C F IH]; cbn [insert]; [auto|].
  destruct (_ <? _); apply join_pos; auto.
Qed.

Lemma covers_cons a n l x : covers ((a, n) :: l) x <-> a <= x < a + HS * n \/ covers l x.
Proof.
  unfold covers. cbn [In]. split.
  - intros (b & m & [[= <- <-]|I] & X); eauto.
  - intros [X|(b & m & I & X)]; eauto 6.
Qed.

Lemma covers_join a n l x :
  0 <= n -> Forall (fun b => 0 < snd b) l -> covers (join (a, n) l) x <-> a <= x < a + HS * n \/ covers l x.
Proof.
  intros N F. destruct F as [|[c k] l K F]; cbn [join fst snd] in *; [apply covers_cons|].
  destruct (Z.eqb_spec (a + HS * n) c) as [E|NE]; rewrite !covers_cons; [|tauto].
  assert (H : a <= x < a + HS * (n + k) <-> a <= x < a + HS * n \/ c <= x < c + HS * k)
    by (unfold HS in *; lia).
  tauto.
Qed.

Lemma insert_covers b n l x :
  0 < n -> Forall (fun b => 0 < snd b) l ->
  covers (insert (b, n) l) x <-> b <= x < b + HS * n \/ covers l x.
Proof.
  intros N F. induction F as [|[c k] l K F IH]; cbn [insert fst].
  - rewrite covers_cons. tauto.
  - destruct (b <? c).
    + apply covers_join; [lia|constructor; auto].
    + cbn [snd] in K. rewrite covers_join, IH, covers_cons by (auto using insert_pos; lia). tauto.
Qed.

(** Where [insert] puts the block. *)
Lemma insert_split bp nb x0 p n y lo top :
  (forall b, In b x0 -> fst b < bp) -> p < bp -> (forall b, In b y -> bp < fst b) ->
  gaps lo (x0 ++ (p, n) :: y) top ->
  insert (bp, nb) (x0 ++ (p, n) :: y) = x0 ++ join (p, n) (join (bp, nb) y).
Proof.
  intros X P Y. revert lo. induction x0 as [|[a k] x0 IH]; intros lo G; cbn [app insert fst].
  - rewrite (proj2 (Z.ltb_ge _ _)) by lia. f_equal. destruct y as [|c y]; [reflexivity|].
    cbn [insert fst]. rewrite (proj2 (Z.ltb_lt _ _)); auto. apply Y. left. auto.
  - rewrite (proj2 (Z.ltb_ge _ _)) by (specialize (X (a, k) (or_introl eq_refl)); cbn in X; lia).
    cbn [app gaps] in G. destruct G as (_ & _ & G).
    rewrite (IH (fun b I => X b (or_intror I)) _ G).
    assert (Hd : exists c k' j, x0 ++ join (p, n) (join (bp, nb) y) = (c, k') :: j /\ a + HS * k < c).
    { destruct x0 as [|[c k'] x0]; cbn [app] in *.
      - destruct (join_head (p, n) (join (bp, nb) y)) as (k' & j & ->). cbn [fst]. destruct G. eauto 6.
      - destruct G. eauto 6. }
    destruct Hd as (c & k' & j & -> & L). cbn [join fst snd].
    rewrite (proj2 (Z.eqb_neq _ _)) by lia. reflexivity.
Qed.

Lemma u32_sum a b lim : 0 <= a -> 0 <= b -> HS * (a + b) <= lim -> lim < 2 ^ 36 -> u32 (a + b) = a + b.
Proof. intros. apply u32_small. unfold HS in *. lia. Qed.

(** First join of [free]: [bp] with the block after it. *)
Definition join_next (h : heap) (bp next : Z) : heap :=
  if bp + HS * size (hd h bp) =? next then
    let h := set_size h bp (u32 (size (hd h bp) + size (hd h next))) in
    set_ptr h bp (ptr (hd h next))
  else set_ptr h bp next.

(** Second join: the block before, with [bp]. *)
Definition join_prev (h : heap) (p bp : Z) : heap :=
  if p + HS * size (hd h p) =? bp then
    let h := set_size h p (u32 (size (hd h p) + size (hd h bp))) in
    set_ptr h p (ptr (hd h bp))
  else set_ptr h p bp.

Lemma free_unfold fuel h ap :
  free fuel h ap =
  match free_search fuel h (ap - HS) (freep h) with
  | None => None
  | Some p => Some (set_freep (join_prev (join_next h (ap - HS) (ptr (hd h p))) p (ap - HS)) p)
  end.
Proof. reflexivity. Qed.

Lemma hd_set h a x b : hd (set_hd h a x) b = if b =? a then x else hd h b.
Proof. reflexivity. Qed.

Lemma hd_set_eq h a x : hd (set_hd h a x) a = x.
Proof. rewrite hd_set, Z.eqb_refl. reflexivity. Qed.

Lemma hd_set_ne h a x b : b <> a -> hd (set_hd h a x) b = hd h b.
Proof. intros N. rewrite hd_set, (proj2 (Z.eqb_neq _ _) N). reflexivity. Qed.

Lemma linked_set h a x l z : (forall b, In b l -> fst b <> a) -> linked h l z -> linked (set_hd h a x) l z.
Proof.
  intros N. apply linked_frame. intros b I. apply in_map_iff in I as (c & <- & I).
  apply hd_set_ne. auto.
Qed.

(** [join_next] and [join_prev] are [join] on the linked headers. *)
Lemma join_next_links h bp nb y base :
  size (hd h bp) = nb -> linked h y base -> (forall b, In b y -> bp < fst b) -> base < bp -> 0 < nb ->
  Forall (fun b => 0 < snd b) y -> (forall b, In b (join (bp, nb) y) -> snd b < 2 ^ 32) ->
  linked (join_next h bp (next_of y base)) (join (bp, nb) y) base /\
  (forall a, a <> bp -> hd (join_next h bp (next_of y base)) a = hd h a).
Proof.
  intros Sz L Y B NB P U. unfold join_next, set_size, set_ptr. rewrite Sz.
  destruct y as [|[c k] y]; cbn [next_of join fst snd] in *.
  - rewrite (proj2 (Z.eqb_neq _ _)) by (unfold HS; lia). cbn [linked]. split.
    + rewrite hd_set_eq. auto.
    + intros a Na. apply hd_set_ne. auto.
  - destruct L as [Ec Ly]. pose proof (Y _ (or_introl eq_refl)) as Bc. cbn in Bc.
    apply Forall_cons_iff in P as [Pk P]. cbn in Pk.
    destruct (Z.eqb_spec (bp + HS * nb) c) as [E|NE].
    + rewrite Ec. cbn [size]. rewrite !hd_set_eq. cbn [size]. rewrite hd_set_ne, Ec by lia. cbn [ptr].
      specialize (U _ (or_introl eq_refl)). cbn in U. rewrite u32_small by lia. cbn [linked]. split.
      * rewrite hd_set_eq. split; auto. assert (Yb : forall b, In b y -> fst b <> bp) by (intros b I; specialize (Y b (or_intror I)); lia).
        apply linked_set; [|apply linked_set]; auto.
      * intros a Na. rewrite !hd_set_ne by auto. reflexivity.
    + cbn [linked next_of]. split.
      * rewrite hd_set_eq, hd_set_ne by lia. split; [auto|]. split; [auto|].
        apply linked_set; auto. intros b I. specialize (Y b (or_intror I)). lia.
      * intros a Na. apply hd_set_ne. auto.
Qed.

Lemma join_prev_links h p n bp k y base :
  size (hd h p) = n ->
  linked h ((bp, k) :: y) base -> p < bp -> (forall b, In b y -> bp < fst b) -> 0 <= n -> 0 <= k ->
  (forall b, In b (join (p, n) ((bp, k) :: y)) -> snd b < 2 ^ 32) ->
  linked (join_prev h p bp) (join (p, n) ((bp, k) :: y)) base /\
  (forall a, a <> p -> hd (join_prev h p bp) a = hd h a).
Proof.
  intros Sz [Eb Ly] P Y N K U. unfold join_prev, set_size, set_ptr. rewrite Sz. cbn [join fst snd] in *.
  assert (Yp : forall b, In b y -> fst b <> p) by (intros b I; specialize (Y b I); lia).
  destruct (Z.eqb_spec (p + HS * n) bp) as [E|NE].
  - rewrite Eb. cbn [size]. rewrite !hd_set_eq. cbn [size]. rewrite hd_set_ne, Eb by lia. cbn [ptr].
    specialize (U _ (or_introl eq_refl)). cbn in U. rewrite u32_small by lia. cbn [linked]. split.
    + rewrite hd_set_eq. split; auto. apply linked_set; [|apply linked_set]; auto.
    + intros a Na. rewrite !hd_set_ne by auto. reflexivity.
  - cbn [linked next_of]. split.
    + rewrite hd_set_eq, hd_set_ne by lia. split; [auto|]. split; [auto|]. apply linked_set; auto.
    + intros a Na. apply hd_set_ne. auto.
Qed.

Lemma gaps_sizes lo l top b : 0 <= lo -> top <= 2 ^ 36 -> gaps lo l top -> In b l -> snd b < 2 ^ 32.
Proof.
  intros L T G I. destruct b as [a n]. destruct (gaps_bounds _ _ _ _ _ G I). cbn. unfold HS in *. lia.
Qed.

Lemma gaps_raise lo lo' l top :
  gaps lo l top -> lo' <= top -> (forall a n, In (a, n) l -> lo' < a) -> gaps lo' l top.
Proof.
  destruct l as [|[a n] l]; cbn [gaps]; auto. intros (A & N & G) T H. split; auto.
  apply (H a n). left. auto.
Qed.

Lemma insert_base base bp nb l top :
  gaps (base + 15) (insert (bp, nb) l) top -> base < bp ->
  insert (bp, nb) ((base, 0) :: l) = (base, 0) :: insert (bp, nb) l.
Proof.
  intros G B. cbn [insert fst]. rewrite (proj2 (Z.ltb_ge _ _)) by lia.
  destruct (insert (bp, nb) l) as [|[c k] j]; auto. cbn [join gaps fst snd] in *. unfold HS.
  rewrite (proj2 (Z.eqb_neq _ _)) by lia. reflexivity.
Qed.

(** [free] puts the block back, whatever [freep] is. *)
Lemma free_spec base top h l bp nb fuel :
  wf base top h l -> base + 15 < bp -> 0 < nb -> bp + HS * nb <= top -> apart bp nb l ->
  size (hd h bp) = nb -> (2 * length l + 2 <= fuel)%nat ->
  exists h', free fuel h (bp + HS) = Some h' /\ wf base top h' (insert (bp, nb) l) /\
    (forall a, (forall b, In b ((base, 0) :: l) -> fst b <> a) -> a <> bp -> hd h' a = hd h a).
Proof.
  intros W Bp Nb Tp Ap Sz F. rewrite free_unfold. replace (bp + HS - HS) with bp by lia.
  assert (Ne : forall b, In b l -> fst b <> bp).
  { intros [a n] I E. cbn in E. subst a. pose proof (Forall_forall (fun b => 0 < snd b) l) as FF.
    pose proof (proj1 FF (wf_pos _ _ _ _ W) _ I) as Pn. cbn in Pn. destruct (Ap _ _ I); unfold HS in *; lia. }
  destruct (search_spec base top h l bp fuel W Bp Ne F) as (l1 & l2 & El & L1 & L2 & ->).
  destruct W as [Wb Wt Wg Wp Wl Wf]. subst l.
  destruct (exists_last (l := (base, 0) :: l1)) as (x0 & [p n] & Ex); [discriminate|].
  rewrite Ex, last_last. cbn [fst].
  assert (G0 : gaps (base - 1) (x0 ++ (p, n) :: l2) top).
  { change (x0 ++ (p, n) :: l2) with (x0 ++ [(p, n)] ++ l2). rewrite app_assoc, <- Ex.
    cbn [app gaps]. split; [lia|]. split; [lia|]. eapply gaps_lo; [|exact Wg]. unfold HS. lia. }
  change ((base, 0) :: l1 ++ l2) with (((base, 0) :: l1) ++ l2) in Wl.
  rewrite Ex, <- app_assoc in Wl. cbn [app] in Wl. apply linked_app in Wl as [Lx [Ep Ly]].
  cbn [next_of] in Lx. rewrite Ep. cbn [ptr].
  assert (Px : forall b, In b (x0 ++ [(p, n)]) -> base <= fst b < bp).
  { rewrite <- Ex. intros b [<-|I]; [cbn; lia|]. split; [|auto]. destruct b as [a k].
    destruct (gaps_bounds _ _ _ a k Wg); [apply in_or_app; auto|]. cbn. lia. }
  assert (Pp : base <= p < bp) by (apply (Px (p, n)), in_or_app; right; left; auto).
  assert (X0 : forall b, In b x0 -> fst b < p).
  { intros [a k] I. apply gaps_app in G0 as (mid & G1 & G2). cbn [gaps] in G2.
    destruct (gaps_bounds _ _ _ _ _ G1 I). cbn. unfold HS in *. lia. }
  apply gaps_app in G0 as (mid & G1 & (G2 & N0 & G3)).
  apply Forall_app in Wp as [Wp1 Wp2].
  assert (Gj : gaps (bp - 1) (join (bp, nb) l2) top).
  { apply join_gaps; try lia. eapply gaps_raise; [exact G3|lia|]. intros a k I.
    destruct (Ap a k ltac:(apply in_or_app; auto)); [|lia]. specialize (L2 _ I). cbn in L2.
    rewrite Forall_forall in Wp2. specialize (Wp2 _ I). cbn in Wp2. unfold HS in *. lia. }
  destruct (join_next_links h bp nb l2 base Sz Ly L2 ltac:(lia) Nb Wp2) as [J1 K1].
  { intros b I. eapply gaps_sizes; [| |exact Gj|exact I]; lia. }
  set (h1 := join_next h bp (next_of l2 base)) in *.
  destruct (join_head (bp, nb) l2) as (k & y & Ej). cbn [fst] in Ej. rewrite Ej in J1, Gj.
  assert (Wi : gaps (base + 15) (insert (bp, nb) (l1 ++ l2)) top).
  { apply insert_gaps; auto. apply Forall_app. auto. }
  assert (Ei : (base, 0) :: insert (bp, nb) (l1 ++ l2) = x0 ++ join (p, n) ((bp, k) :: y)).
  { rewrite <- (insert_base base bp nb _ top Wi ltac:(lia)), <- Ej.
    change ((base, 0) :: l1 ++ l2) with (((base, 0) :: l1) ++ l2). rewrite Ex, <- app_assoc. cbn [app].
    apply insert_split with (lo := base - 1) (top := top); auto; try lia.
    - intros b I. apply Px, in_or_app. auto.
    - apply gaps_app. exists mid. cbn [gaps]. auto. }
  assert (Sizes : forall b, In b (join (p, n) ((bp, k) :: y)) -> snd b < 2 ^ 32).
  { intros b I. assert (I' : In b ((base, 0) :: insert (bp, nb) (l1 ++ l2))).
    { rewrite Ei. apply in_or_app. auto. }
    destruct I' as [<-|I']; [cbn; lia|]. eapply gaps_sizes; [| |exact Wi|exact I']; lia. }
  assert (Yb : forall b, In b y -> bp < fst b).
  { intros [a m] I. cbn [gaps] in Gj. destruct Gj as (_ & Nk & Gj).
    destruct (gaps_bounds _ _ _ _ _ Gj I). cbn. unfold HS in *. lia. }
  destruct (join_prev_links h1 p n bp k y base) as [J2 K2]; auto; try lia.
  { rewrite K1, Ep by lia. reflexivity. }
  { cbn [gaps] in Gj. tauto. }
  exists (set_freep (join_prev h1 p bp) p). split; [reflexivity|]. split.
  - split; auto.
    + apply insert_pos; auto. apply Forall_app. auto.
    + apply (linked_frame (join_prev h1 p bp)); [reflexivity|]. rewrite Ei. apply linked_app. split; [|exact J2]. rewrite next_join. cbn [fst].
      apply (linked_frame h); [|exact Lx]. intros a I. apply in_map_iff in I as (b & <- & I).
      pose proof (X0 b I). rewrite K2, K1 by lia. reflexivity.
    + cbn [freep set_freep]. change (base :: map fst (insert (bp, nb) (l1 ++ l2))) with
        (map fst ((base, 0) :: insert (bp, nb) (l1 ++ l2))). rewrite Ei, map_app. apply in_or_app. right.
      destruct (join_head (p, n) ((bp, k) :: y)) as (k' & j & ->). left. reflexivity.
  - intros a Na Nb'. cbn [hd set_freep]. rewrite K2, K1; auto. intros ->.
    apply (Na (p, n)); auto. change ((base, 0) :: l1 ++ l2) with (((base, 0) :: l1) ++ l2).
    rewrite Ex, <- app_assoc. apply in_or_app. right. left. reflexivity.
Qed.

(** * The effect of malloc *)

(** The ring from any of its blocks on: rotating a linked ring. *)
Definition ring (h : heap) (r : blocks) : Prop := linked h r (next_of r 0).

Lemma ring_freep h p r : ring h r -> ring (set_freep h p) r.
Proof. unfold ring. apply linked_frame. reflexivity. Qed.

Lemma ring_rotate h x y : ring h (x ++ y) -> ring h (y ++ x).
Proof.
  destruct x as [|[a n] x]; [rewrite app_nil_r; auto|].
  destruct y as [|[b k] y]; [rewrite app_nil_r; auto|].
  unfold ring. rewrite !linked_app. cbn [app next_of]. tauto.
Qed.

(** Taking [m] units from the end of the block at [a]. *)
Fixpoint take_block (a m : Z) (l : blocks) : blocks :=
  match l with
  | [] => []
  | (b, n) :: l =>
      if b =? a then (if n =? m then l else (b, n - m) :: l) else (b, n) :: take_block a m l
  end.

Lemma take_absent a m l : ~ In a (map fst l) -> take_block a m l = l.
Proof.
  induction l as [|[b n] l IH]; cbn; auto. intros N. rewrite (proj2 (Z.eqb_neq b a)) by tauto.
  rewrite IH; tauto.
Qed.

Lemma take_app a m x y :
  NoDup (map fst (x ++ y)) -> take_block a m (x ++ y) = take_block a m x ++ take_block a m y.
Proof.
  induction x as [|[b n] x IH]; cbn [app map fst take_block]; auto. intros D. inv D.
  destruct (Z.eqb_spec b a) as [->|Ne]; [|rewrite IH; auto].
  rewrite map_app, in_app_iff in H1. rewrite (take_absent a m y) by tauto.
  destruct (n =? m); reflexivity.
Qed.

(** What [malloc] does with the block [a] of [n] units that it has found. *)
Definition carve (h : heap) (prevp a n m : Z) : heap * Z :=
  if n =? m then (set_freep (set_ptr h prevp (ptr (hd h a))) prevp, a + HS)
  else
    let h := set_size h a (u32 (n - m)) in
    let p := a + HS * size (hd h a) in
    (set_freep (set_size h p m) prevp, p + HS).

(** One way around the ring: the first block that is large enough, or none up to
    and including [freep]. *)
Lemma malloc_walk fuel h m d t prevp :
  ring h (d ++ t) -> t <> [] -> (exists k, last t (0, 0) = (freep h, k)) ->
  NoDup (map fst (d ++ t)) -> (length t <= fuel)%nat ->
  (exists d' a n t', t = d' ++ (a, n) :: t' /\ m <= n /\
     malloc_loop fuel h m prevp (next_of t 0) = Ret (carve h (fst (last d' (prevp, 0))) a n m)) \/
  (Forall (fun b => snd b < m) t /\ exists fuel', (fuel <= fuel' + length t)%nat /\
     malloc_loop fuel h m prevp (next_of t 0) =
     ('(h1, p) <- morecore (S fuel') h m ;;
      if p =? 0 then Ret (h1, 0) else malloc_loop fuel' h1 m p (ptr (hd h1 p)))).
Proof.
  revert fuel d prevp. induction t as [|[a n] t IH]; intros fuel d prevp R NE (k & La) D F; [congruence|].
  destruct fuel as [|fuel]; [cbn in F; lia|]. cbn [next_of malloc_loop].
  pose proof R as R0. unfold ring in R. apply linked_app in R as [_ [E L]]. rewrite E. cbn [size ptr].
  destruct (Z.geb_spec n m) as [Ge|Lt].
  - left. exists [], a, n, t. split; [reflexivity|]. split; [lia|]. cbn [last fst]. unfold carve.
    destruct (n =? m); [|reflexivity]. rewrite E. reflexivity.
  - destruct t as [|[b j] t].
    + cbn in La. injection La as Ea _. rewrite <- Ea, Z.eqb_refl. right. split; [auto|].
      exists fuel. split; [cbn [length]; lia|reflexivity].
    + assert (Na : a <> freep h).
      { intros Ea. rewrite map_app in D. apply NoDup_app_remove_l in D. cbn [map fst] in D.
        apply NoDup_cons_iff in D as [D _]. apply D. rewrite Ea.
        assert (I : In (freep h, k) ((b, j) :: t)).
        { change (last ((a, n) :: (b, j) :: t) (0, 0)) with (last ((b, j) :: t) (0, 0)) in La.
          rewrite <- La. destruct (exists_last (l := (b, j) :: t)) as (u & v & ->); [discriminate|].
          rewrite last_last. apply in_or_app. right. left. auto. }
        apply (in_map fst) in I. exact I. }
      rewrite (proj2 (Z.eqb_neq _ _) Na). cbn [next_of].
      destruct (IH fuel (d ++ [(a, n)]) a) as [(d' & a' & n' & t' & Et & G & Em)|(Al & f & Lf & Em)];
        cbn [next_of] in *.
      * rewrite <- app_assoc. exact R0.
      * discriminate.
      * exists k. exact La.
      * rewrite <- app_assoc. exact D.
      * cbn [length] in *. lia.
      * rewrite Em. left. exists ((a, n) :: d'), a', n', t'. rewrite Et. split; [reflexivity|].
        split; [auto|]. do 2 f_equal.
        destruct d' as [|c d']; [reflexivity|].
        change (last ((a, n) :: c :: d') (prevp, 0)) with (last (c :: d') (prevp, 0)).
        destruct (exists_last (l := c :: d')) as (u & v & ->); [discriminate|]. rewrite !last_last. reflexivity.
      * rewrite Em. right. split; [constructor; auto|]. exists f. split; [cbn [length] in *; lia|auto].
Qed.

Lemma gaps_nodup lo l top : gaps lo l top -> Forall (fun b => 0 <= snd b) l -> NoDup (map fst l).
Proof.
  intros G _. revert lo G. induction l as [|[a n] l IH]; intros lo G; cbn [map]; constructor.
  - cbn [fst gaps] in *. intros I. apply in_map_iff in I as ([b k] & E & I). cbn in E. subst b.
    destruct G as (_ & N & G). destruct (gaps_bounds _ _ _ _ _ G I). unfold HS in *. lia.
  - destruct G as (_ & _ & G). eauto.
Qed.

Lemma gaps_apart lo l top a n c k :
  gaps lo l top -> In (a, n) l -> In (c, k) l -> a = c \/ a + HS * n < c \/ c + HS * k < a.
Proof.
  revert lo. induction l as [|[b j] l IH]; intros lo G; [cbn; tauto|]. destruct G as (_ & _ & G).
  intros [[= -> ->]|I] [E|I']; [|apply (gaps_bounds _ _ _ _ _ G) in I'; lia| |eauto].
  - injection E as -> ->. auto.
  - injection E as -> ->. apply (gaps_bounds _ _ _ _ _ G) in I. lia.
Qed.

Lemma take_gaps lo a m l top :
  gaps lo l top -> 0 <= m -> (forall n, In (a, n) l -> m <= n) -> gaps lo (take_block a m l) top.
Proof.
  intros G M. revert lo G. induction l as [|[b n] l IH]; intros lo G A; cbn [take_block]; auto.
  destruct G as (G1 & G2 & G). destruct (Z.eqb_spec b a) as [->|Ne].
  - specialize (A n (or_introl eq_refl)). destruct (Z.eqb_spec n m).
    + eapply gaps_lo; [|exact G]. unfold HS. lia.
    + cbn [gaps]. split; [auto|]. split; [lia|]. eapply gaps_lo; [|exact G]. unfold HS. lia.
  - cbn [gaps]. split; [auto|]. split; [auto|]. apply IH; auto. intros k I. apply A. right. auto.
Qed.

Lemma take_pos a m l :
  Forall (fun b => 0 < snd b) l -> (forall n, In (a, n) l -> m <= n) ->
  Forall (fun b => 0 < snd b) (take_block a m l).
Proof.
  induction 1 as [|[b n] l P F IH]; intros A; cbn [take_block]; auto.
  destruct (Z.eqb_spec b a) as [->|Ne].
  - specialize (A n (or_introl eq_refl)). destruct (Z.eqb_spec n m); auto. constructor; auto. cbn. lia.
  - constructor; auto. apply IH. intros k I. apply A. right. auto.
Qed.

Lemma take_in a m l b : b <> a -> In b (map fst l) -> In b (map fst (take_block a m l)).
Proof.
  intros Ne. induction l as [|[c n] l IH]; cbn [map fst In take_block]; auto.
  destruct (Z.eqb_spec c a) as [->|Nc].
  - intros [E|I]; [congruence|]. destruct (n =? m); cbn; auto.
  - cbn. intuition.
Qed.

Lemma take_covers a m n l x :
  In (a, n) l -> NoDup (map fst l) -> 0 <= m <= n ->
  covers l x <-> covers (take_block a m l) x \/ a + HS * (n - m) <= x < a + HS * n.
Proof.
  intros I. induction l as [|[b k] l IH]; [destruct I|]. intros D M. inv D. cbn [take_block].
  destruct I as [[= -> ->]|I].
  - rewrite Z.eqb_refl. destruct (Z.eqb_spec n m) as [->|Ne]; rewrite !covers_cons.
    + rewrite Z.sub_diag, Z.mul_0_r, Z.add_0_r. tauto.
    + assert (H : a <= x < a + HS * n <-> a <= x < a + HS * (n - m) \/ a + HS * (n - m) <= x < a + HS * n)
        by (unfold HS; lia). tauto.
  - assert (Ne : b <> a). { intros ->. apply H1. apply (in_map fst) in I. exact I. }
    rewrite (proj2 (Z.eqb_neq _ _) Ne), !covers_cons, IH by auto. tauto.
Qed.

(** The block before the first one of [t] in the ring [d ++ t]. *)
Definition ring_prev (d t : blocks) : Z := fst (last d (last t (0, 0))).

Lemma last_in {A} (l : list A) e : l <> [] -> In (last l e) l.
Proof. intros N. destruct (exists_last N) as (u & v & ->). rewrite last_last. apply in_or_app. right. left. auto. Qed.

Lemma fst_notin a (l : blocks) : ~ In a (map fst l) -> forall b, In b l -> fst b <> a.
Proof. intros N b I E. apply N. rewrite <- E. apply in_map. auto. Qed.

(** Unlinking a whole block. *)
Lemma unlink_ring h d a n t :
  ring h (d ++ (a, n) :: t) -> NoDup (map fst (d ++ (a, n) :: t)) -> d ++ t <> [] ->
  ring (set_ptr h (ring_prev d ((a, n) :: t)) (ptr (hd h a))) (d ++ t).
Proof.
  intros R D NE. unfold ring in *. apply linked_app in R as [Ld [E Lt]]. cbn [next_of] in Ld.
  rewrite E. cbn [ptr]. unfold set_ptr.
  destruct d as [|b0 d0] using rev_ind.
  - cbn [app next_of] in *. destruct t as [|c t] using rev_ind; [congruence|]. clear IHt.
    destruct c as [pv k]. unfold ring_prev. change (last [] (last ((a, n) :: t ++ [(pv, k)]) (0, 0))) with
      (last ((a, n) :: t ++ [(pv, k)]) (0, 0)). change (last ((a, n) :: t ++ [(pv, k)]) (0, 0)) with
      (last (((a, n) :: t) ++ [(pv, k)]) (0, 0)). rewrite last_last. cbn [fst].
    apply linked_app in Lt as [L1 [Ep _]]. cbn [next_of] in L1, Ep. rewrite Ep. cbn [size].
    assert (Np : ~ In pv (map fst t)).
    { cbn [map fst] in D. inv D. rewrite map_app in H2. apply NoDup_remove in H2 as [_ H2].
      rewrite app_nil_r in H2. exact H2. }
    apply linked_app. cbn [next_of]. split.
    + apply linked_set; [apply fst_notin; auto|exact L1].
    + cbn [linked]. rewrite hd_set_eq. split; auto. f_equal. destruct t as [|[? ?] ?]; reflexivity.
  - clear IHd0. destruct b0 as [pv k]. unfold ring_prev. rewrite last_last. cbn [fst].
    apply linked_app in Ld as [L1 [Ep _]]. cbn [next_of] in *. rewrite Ep. cbn [size].
    assert (Hz : next_of ((d0 ++ [(pv, k)]) ++ t) 0 = next_of ((d0 ++ [(pv, k)]) ++ (a, n) :: t) 0)
      by (destruct d0 as [|[? ?] ?]; reflexivity).
    set (z := next_of ((d0 ++ [(pv, k)]) ++ (a, n) :: t) 0) in *. clearbody z.
    rewrite Hz. rewrite <- app_assoc in D |- *. cbn [app] in D |- *. rewrite map_app in D. cbn [map fst] in D.
    apply NoDup_remove in D as [_ D]. rewrite in_app_iff in D. cbn [In] in D.
    apply linked_app. cbn [next_of linked]. split; [|split].
    + apply linked_set; [apply fst_notin; tauto|exact L1].
    + rewrite hd_set_eq. reflexivity.
    + apply linked_set; [apply fst_notin; tauto|]. exact Lt.
Qed.

(** Shrinking a block and giving its end a header. *)
Lemma shrink_ring h d a n t n' c x :
  ring h (d ++ (a, n) :: t) -> NoDup (map fst (d ++ (a, n) :: t)) ->
  (forall b, In b (d ++ (a, n) :: t) -> fst b <> c) ->
  ring (set_hd (set_size h a n') c x) (d ++ (a, n') :: t).
Proof.
  intros R D C. unfold ring in *.
  assert (Hz : next_of (d ++ (a, n') :: t) 0 = next_of (d ++ (a, n) :: t) 0) by (destruct d as [|[? ?] ?]; auto).
  rewrite Hz. set (z := next_of (d ++ (a, n) :: t) 0) in *. clearbody z.
  apply linked_app in R as [Ld [E Lt]]. rewrite map_app in D. cbn [map fst] in D.
  apply NoDup_remove in D as [_ D]. rewrite in_app_iff in D.
  assert (Cd : forall b, In b d -> fst b <> c) by (intros b I; apply C, in_or_app; auto).
  assert (Ct : forall b, In b t -> fst b <> c) by (intros b I; apply C, in_or_app; cbn; auto).
  assert (Ca : a <> c) by (apply (C (a, n)), in_or_app; cbn; auto).
  apply linked_app. cbn [next_of linked]. split; [|split].
  - apply linked_set; auto. apply linked_set; auto. apply fst_notin. tauto.
  - rewrite hd_set_ne by auto. unfold set_size. rewrite hd_set_eq, E. reflexivity.
  - apply linked_set; auto. apply linked_set; auto. apply fst_notin. tauto.
Qed.

Lemma take_split a m d n t :
  NoDup (map fst (d ++ (a, n) :: t)) ->
  take_block a m (d ++ (a, n) :: t) = d ++ (if n =? m then t else (a, n - m) :: t).
Proof.
  intros D. rewrite take_app by auto. rewrite map_app in D. cbn [map fst] in D.
  apply NoDup_remove in D as [_ D]. rewrite in_app_iff in D.
  rewrite take_absent by tauto. cbn [take_block]. rewrite Z.eqb_refl. reflexivity.
Qed.

Lemma carve_ring h d a n t m :
  ring h (d ++ (a, n) :: t) -> NoDup (map fst (d ++ (a, n) :: t)) -> d ++ t <> [] ->
  (forall b, In b (d ++ (a, n) :: t) -> n <> m -> fst b <> a + HS * (n - m)) ->
  0 < m <= n -> n < 2 ^ 32 ->
  let prevp := ring_prev d ((a, n) :: t) in
  let '(h', r) := carve h prevp a n m in
  ring h' (take_block a m (d ++ (a, n) :: t)) /\ r = a + HS * (n - m) + HS /\
  size (hd h' (a + HS * (n - m))) = m /\ freep h' = prevp /\
  (forall b, ~ In b (map fst (d ++ (a, n) :: t)) -> b <> a + HS * (n - m) -> hd h' b = hd h b).
Proof.
  intros R D NE C M U prevp. rewrite take_split by auto. unfold carve.
  assert (Ip : In prevp (map fst (d ++ (a, n) :: t))).
  { unfold prevp, ring_prev. apply in_map. destruct d as [|b d]; [apply (last_in ((a, n) :: t)); discriminate|].
    apply in_or_app. left. apply (last_in (b :: d)). discriminate. }
  assert (Ea : hd h a = Hdr (next_of t (next_of (d ++ (a, n) :: t) 0)) n)
    by (unfold ring in R; apply linked_app in R as [_ [E _]]; exact E).
  destruct (Z.eqb_spec n m) as [E|Ne].
  - pose proof (unlink_ring h d a n t R D NE) as Rn. subst m. rewrite Z.sub_diag, Z.mul_0_r, Z.add_0_r.
    split; [apply ring_freep, Rn|]. split; [lia|]. split; [|split; [reflexivity|]].
    + cbn [hd set_freep]. fold prevp. unfold set_ptr. rewrite hd_set. destruct (Z.eqb_spec a prevp) as [<-|]; cbn [size]; rewrite Ea; auto.
    + intros b Nb _. cbn [hd set_freep]. apply hd_set_ne. congruence.
  - assert (Sz : size (hd (set_size h a (u32 (n - m))) a) = n - m).
    { unfold set_size. rewrite hd_set_eq. cbn [size]. apply u32_small. lia. }
    rewrite Sz, (u32_small (n - m)) by lia.
    set (c := a + HS * (n - m)) in *.
    assert (C' : forall b, In b (d ++ (a, n) :: t) -> fst b <> c) by auto.
    pose proof (shrink_ring h d a n t (n - m) c (Hdr (ptr (hd (set_size h a (n - m)) c)) m) R D C') as Rn.
    split; [apply ring_freep, Rn|]. split; [reflexivity|]. split; [|split; [reflexivity|]].
    + cbn [hd set_freep]. unfold set_size. rewrite hd_set_eq. reflexivity.
    + intros b Nb Nc. cbn [hd set_freep]. unfold set_size. rewrite !hd_set_ne; auto.
      intros ->. apply Nb, in_map_iff. exists (a, n). split; auto. apply in_or_app. cbn. auto.
Qed.

(** ** One allocation in terms of the free list *)

(** What [malloc] hands out for [m] units: the end of a free block. *)
Definition handed (base : Z) (h : heap) (l : blocks) (m : Z) (h' : heap) (r : Z) (l' : blocks) : Prop :=
  exists a n, In (a, n) l /\ m <= n /\ r = a + HS * (n - m) + HS /\ l' = take_block a m l /\
    size (hd h' (r - HS)) = m /\
    (forall b, b <> base -> ~ covers l b -> hd h' b = hd h b).

(** The ring seen from [freep]. *)
Lemma wf_ring base top h l :
  wf base top h l ->
  exists x y, (base, 0) :: l = x ++ y /\ ring h (y ++ x) /\ y ++ x <> [] /\
    (exists k, last (y ++ x) (0, 0) = (freep h, k)) /\ NoDup (map fst (x ++ y)) /\
    NoDup (map fst (y ++ x)) /\ ptr (hd h (freep h)) = next_of (y ++ x) 0.
Proof.
  intros [Wb Wt Wg Wp Wl Wf].
  assert (D : NoDup (map fst ((base, 0) :: l))).
  { apply (gaps_nodup (base - 1) _ top); [|constructor; [cbn; lia|]].
    - cbn [gaps]. split; [lia|]. split; [lia|]. eapply gaps_lo; [|exact Wg]. unfold HS. lia.
    - eapply Forall_impl; [|exact Wp]. cbn. lia. }
  change (base :: map fst l) with (map fst ((base, 0) :: l)) in Wf.
  assert (R : ring h ((base, 0) :: l)) by exact Wl. clear Wl.
  apply in_map_iff in Wf as ([p k] & E & I). cbn in E. subst p.
  apply in_split in I as (u & y & E). exists (u ++ [(freep h, k)]), y.
  rewrite E in R, D.
  change (u ++ (freep h, k) :: y) with (u ++ [(freep h, k)] ++ y) in E, R, D.
  rewrite app_assoc in E, R, D. apply ring_rotate in R.
  split; [exact E|]. split; [exact R|]. split; [destruct y, u; discriminate|].
  split; [exists k; rewrite app_assoc, last_last; auto|]. split; [exact D|]. split.
  - rewrite map_app in D |- *. eapply Permutation_NoDup; [apply Permutation_app_comm|exact D].
  - unfold ring in R. rewrite app_assoc in R |- *. apply linked_app in R as [_ [Ep _]]. rewrite Ep.
    cbn [ptr next_of]. destruct y; reflexivity.
Qed.

Lemma fst_unique (l : blocks) a n k : NoDup (map fst l) -> In (a, n) l -> In (a, k) l -> n = k.
Proof.
  induction l as [|[b j] l IH]; [cbn; tauto|]. cbn [map fst]. intros D. inv D.
  intros [[= -> ->]|I] [E|I']; auto.
  - congruence.
  - apply (in_map fst) in I'. contradiction.
  - injection E as -> ->. apply (in_map fst) in I. contradiction.
Qed.

Lemma wf_take base top h l a m n h' :
  wf base top h l -> In (a, n) l -> 0 < m <= n ->
  linked h' ((base, 0) :: take_block a m l) base -> freep h' <> a -> In (freep h') (base :: map fst l) ->
  wf base top h' (take_block a m l).
Proof.
  intros [Wb Wt Wg Wp Wl Wf] I M L Ne Ip.
  assert (A : forall k, In (a, k) l -> m <= k).
  { intros k I'. replace k with n; [lia|]. eapply fst_unique; [|exact I|exact I'].
    eapply gaps_nodup; [exact Wg|]. eapply Forall_impl; [|exact Wp]. cbn. lia. }
  split; auto.
  - apply take_gaps; auto. lia.
  - apply take_pos; auto.
  - destruct Ip as [<-|Ip]; [left; auto|]. right. apply take_in; auto.
Qed.

Lemma carve_wf base top h l x d a n t m :
  wf base top h l -> (base, 0) :: l = fst x ++ snd x -> snd x ++ fst x = d ++ (a, n) :: t ->
  ring h (d ++ (a, n) :: t) -> NoDup (map fst (fst x ++ snd x)) -> NoDup (map fst (d ++ (a, n) :: t)) ->
  0 < m <= n ->
  let '(h', r) := carve h (ring_prev d ((a, n) :: t)) a n m in
  exists l', wf base top h' l' /\ handed base h l m h' r l'.
Proof.
  destruct x as [x y]. cbn [fst snd]. intros W El Et R Dl Dt M.
  assert (Sub : forall b, In b (d ++ (a, n) :: t) <-> In b ((base, 0) :: l)).
  { intros b. rewrite <- Et, El, !in_app_iff. tauto. }
  assert (I : In (a, n) l).
  { destruct (proj1 (Sub (a, n))) as [E|I]; auto; [apply in_or_app; cbn; auto|]. inversion E. lia. }
  assert (Ib : In (base, 0) (d ++ t)).
  { assert (I' : In (base, 0) (d ++ (a, n) :: t)) by (apply Sub; left; auto).
    apply in_app_iff in I' as [I'|[E|I']]; [|inversion E; lia|]; apply in_or_app; auto. }
  pose proof W as [Wb Wt Wg Wp Wl Wf].
  destruct (gaps_bounds _ _ _ _ _ Wg I) as (A1 & A2 & _).
  pose proof (gaps_sizes (base + 15) _ _ _ ltac:(lia) (proj2 Wt) Wg I) as U. cbn in U.
  assert (Dis : forall b, In b (d ++ (a, n) :: t) -> n <> m -> fst b <> a + HS * (n - m)).
  { intros [c k] I' Ne E. cbn in E. apply Sub in I' as [E'|I']; [inversion E'; unfold HS in *; lia|].
    pose proof (proj1 (Forall_forall _ _) Wp _ I') as Pk. cbn in Pk.
    pose proof (gaps_apart _ _ _ _ _ _ _ Wg I I') as Ap. unfold HS in *. lia. }
  pose proof (carve_ring h d a n t m R Dt ltac:(intros E; rewrite E in Ib; destruct Ib) Dis M U) as C.
  cbv zeta in C. destruct (carve h _ a n m) as [h' r]. destruct C as (Rn & -> & Sz & F & Fr).
  assert (Tl : (base, 0) :: take_block a m l = take_block a m ((base, 0) :: l)).
  { cbn [take_block]. rewrite (proj2 (Z.eqb_neq base a)) by lia. reflexivity. }
  assert (Ln : linked h' ((base, 0) :: take_block a m l) base).
  { change (ring h' ((base, 0) :: take_block a m l)). rewrite Tl, El, take_app by auto.
    apply ring_rotate. rewrite <- take_app; [rewrite Et; exact Rn|rewrite Et; exact Dt]. }
  exists (take_block a m l). split.
  - eapply wf_take; eauto; rewrite F; unfold ring_prev; change (base :: map fst l) with (map fst ((base, 0) :: l)).
    + intros E. rewrite map_app in Dt. cbn [map fst] in Dt. apply NoDup_remove in Dt as [_ Dt].
      apply Dt, in_or_app. destruct d as [|b d].
      * right. destruct t as [|b t]; [destruct Ib|]. rewrite <- E. cbn [last].
        apply (in_map fst _ (last (b :: t) (0, 0))), last_in. discriminate.
      * left. rewrite <- E. apply in_map, (last_in (b :: d)). discriminate.
    + apply in_map, Sub. destruct d as [|b d]; [apply (last_in ((a, n) :: t)); discriminate|].
      apply in_or_app. left. apply (last_in (b :: d)). discriminate.
  - exists a, n. replace (a + HS * (n - m) + HS - HS) with (a + HS * (n - m)) by lia.
    repeat split; auto; try lia. intros b Nb Nc. apply Fr.
    + rewrite in_map_iff. intros ([c k] & <- & I'). cbn [fst] in *. apply Sub in I' as [E'|I']; [congruence|].
      apply Nc. exists c, k. split; auto. pose proof (proj1 (Forall_forall _ _) Wp _ I'). cbn in *. unfold HS. lia.
    + intros ->. apply Nc. exists a, n. split; auto. unfold HS. lia.
Qed.

(** ** The environment of the allocator: sbrk *)

(** The break after a history, from [brk0] at the start of the process. *)
Definition brk (brk0 : Z) (hist : history) : Z :=
  fold_left (fun b e => match e with
                        | (CSbrk n, r) => if r_ret r =? -1 then b else b + n
                        | _ => b
                        end) hist brk0.

(** sbrk gives -1, or the old break, which it moves up to [limit] at most. *)
Class Sbrk (E : env) (brk0 limit : Z) : Prop := {
  sbrk_limit : limit <= 2 ^ 36;
  sbrk_reply hist n r : E hist (CSbrk n) r -> 0 <= n ->
    r_ret r = -1 \/
    (r_ret r = brk brk0 hist /\ r_ret r <> -1 /\ brk brk0 hist + n <= limit);
}.

(** The allocator before the first call, or with the free list [l]. *)
Definition ready (base top : Z) (h : heap) (l : blocks) : Prop :=
  wf base top h l \/ (freep h = 0 /\ l = [] /\ 0 < base /\ base + HS <= top <= 2 ^ 36).

Lemma brk_snoc brk0 hist c r :
  brk brk0 (hist ++ [(c, r)]) =
  match c with CSbrk n => if r_ret r =? -1 then brk brk0 hist else brk brk0 hist + n | _ => brk brk0 hist end.
Proof. unfold brk. rewrite fold_left_app. reflexivity. Qed.

Lemma gaps_more lo l top top' : gaps lo l top -> top <= top' -> gaps lo l top'.
Proof.
  intros G T. revert lo G. induction l as [|[a n] l IH]; cbn [gaps]; intros lo; [lia|]. intros (A & N & G). auto.
Qed.

Lemma wf_top_up base top top' h l : wf base top h l -> top <= top' <= 2 ^ 36 -> wf base top' h l.
Proof. intros [Wb Wt Wg Wp Wl Wf] T. split; auto; [lia|]. eapply gaps_more; [exact Wg|lia]. Qed.

Lemma insert_has b l :
  Forall (fun b => 0 < snd b) l -> exists c, In c (insert b l) /\ snd b <= snd c.
Proof.
  induction 1 as [|[c k] l Pc P IH]; cbn [insert]; [exists b; cbn; split; [auto|lia]|].
  cbn [snd] in Pc. destruct (_ <? _); cbn [join fst snd].
  - destruct (_ =? _); eexists; (split; [left; reflexivity|]); cbn; lia.
  - destruct IH as (e & I & L). destruct (insert b l) as [|e' j]; [destruct I|]. cbn [join fst snd].
    destruct (_ =? _); [|exists e; cbn in *; tauto]. destruct I as [->|I]; [|exists e; cbn; tauto].
    eexists. split; [left; reflexivity|]. cbn. lia.
Qed.

Lemma insert_length b l : (length (insert b l) <= S (length l))%nat.
Proof.
  assert (J : forall c j, (length (join c j) <= S (length j))%nat).
  { intros c [|d j]; cbn; [lia|]. destruct (_ =? _); cbn; lia. }
  induction l as [|c l IH]; cbn [insert length]; [lia|].
  destruct (_ <? _); [apply (J b (c :: l))|]. specialize (J c (insert b l)). lia.
Qed.

(** A walk around the ring that succeeds gives a block out. *)
Lemma malloc_first fuel base top h l m :
  wf base top h l -> 0 < m -> (length l + 1 <= fuel)%nat ->
  (exists h' r l', malloc_loop fuel h m (freep h) (ptr (hd h (freep h))) = Ret (h', r) /\
     wf base top h' l' /\ handed base h l m h' r l') \/
  (Forall (fun b => snd b < m) l /\ exists fuel', (fuel <= fuel' + length l + 1)%nat /\
     malloc_loop fuel h m (freep h) (ptr (hd h (freep h))) =
     ('(h1, p) <- morecore (S fuel') h m ;;
      if p =? 0 then Ret (h1, 0) else malloc_loop fuel' h1 m p (ptr (hd h1 p)))).
Proof.
  intros W M F. destruct (wf_ring _ _ _ _ W) as (x & y & El & R & NE & (k & La) & Dl & Dt & ->).
  assert (Ln : length (y ++ x) = (length l + 1)%nat).
  { rewrite length_app. apply (f_equal (@length _)) in El. rewrite length_app in El. cbn in El. lia. }
  destruct (malloc_walk fuel h m [] (y ++ x) (freep h)) as [(d & a & n & t & Et & G & ->)|(A & f & Lf & ->)];
    auto; try lia; [eauto| |].
  - left. rewrite Et in R, Dt, La. pose proof (carve_wf base top h l (x, y) d a n t m W El Et R Dl Dt ltac:(lia)) as C.
    assert (Ep : fst (last d (freep h, 0)) = ring_prev d ((a, n) :: t)).
    { unfold ring_prev. destruct d as [|b d].
      - cbn [app] in La. rewrite La. reflexivity.
      - destruct (exists_last (l := b :: d)) as (u & v & ->); [discriminate|]. rewrite !last_last. reflexivity. }
    rewrite Ep. destruct (carve h _ a n m) as [h' r]. destruct C as (l' & W' & H). eauto 6.
  - right. split; [|exists f; split; [lia|reflexivity]].
    assert (A' : Forall (fun b => snd b < m) ((base, 0) :: l)).
    { rewrite El. apply Forall_app in A. apply Forall_app. tauto. }
    inv A'. auto.
Qed.

Section Malloc.
Context (E : env) (brk0 limit : Z) (K : Sbrk E brk0 limit).

(** What [malloc] does from a free list [l]: it takes from [l], or from [l] and the
    fresh memory, or sbrk has failed. *)
Definition malloc_post (base : Z) (h : heap) (l : blocks) (m : Z) (hist : history)
  (o : outcome (heap * Z)) (hist' : history) : Prop :=
  exists h' r l', o = Done (h', r) /\ wf base (brk brk0 hist') h' l' /\
    ((hist' = hist /\ handed base h l m h' r l') \/
     exists rep, let nu := Z.max 4096 m in hist' = hist ++ [(CSbrk (HS * nu), rep)] /\
       ((r_ret rep = -1 /\ r = 0 /\ l' = l) \/
        (r_ret rep = brk brk0 hist /\ handed base h (insert (brk brk0 hist, nu) l) m h' r l'))).

Lemma morecore_spec fuel base h l m hist (Q : outcome (heap * Z) -> history -> Prop) :
  wf base (brk brk0 hist) h l -> 0 < m < 2 ^ 27 -> (2 * length l + 2 <= fuel)%nat ->
  (forall rep, r_ret rep = -1 -> Q (Done (h, 0)) (hist ++ [(CSbrk (HS * Z.max 4096 m), rep)])) ->
  (forall rep h1, let nu := Z.max 4096 m in
     let hist' := hist ++ [(CSbrk (HS * nu), rep)] in
     r_ret rep = brk brk0 hist -> brk brk0 hist' = brk brk0 hist + HS * nu ->
     wf base (brk brk0 hist') h1 (insert (brk brk0 hist, nu) l) ->
     (forall b, b <> base -> ~ covers (insert (brk brk0 hist, nu) l) b -> hd h1 b = hd h b) ->
     Q (Done (h1, freep h1)) hist') ->
  twp E Q hist (morecore fuel h m).
Proof.
  intros W M F Q1 Q2. unfold morecore.
  assert (Nu : (if m <? 4096 then 4096 else m) = Z.max 4096 m) by (destruct (Z.ltb_spec m 4096); lia).
  rewrite Nu. set (nu := Z.max 4096 m) in *. assert (Bn : 4096 <= nu < 2 ^ 27) by (unfold nu; lia).
  assert (A : s32 (u64 (nu * HS)) = HS * nu).
  { unfold HS. rewrite u64_small, s32_small by lia. lia. }
  rewrite A. tstep. tstep. set (p := r_ret r). destruct (Z.eqb_spec p (-1)) as [Er|Ne].
  - tstep. apply Q1. auto.
  - destruct (sbrk_reply _ (HS * nu) _ H ltac:(unfold HS; lia)) as [?|(Ep & _ & Lim)]; [contradiction|]. fold p in Ep.
    pose proof sbrk_limit as SL. pose proof W as [Wb Wt Wg Wp Wl Wf].
    assert (Br : brk brk0 (hist ++ [(CSbrk (HS * nu), r)]) = brk brk0 hist + HS * nu).
    { rewrite brk_snoc. fold p. rewrite (proj2 (Z.eqb_neq _ _) Ne). reflexivity. }
    assert (Bp : base + 15 < p) by (unfold HS in *; lia).
    assert (Fl : forall b, In b ((base, 0) :: l) -> fst b <> p).
    { intros [b k] [<-|I] Eb; cbn in Eb; [lia|]. subst b.
      pose proof (proj1 (Forall_forall _ _) Wp _ I) as Pk. cbn in Pk.
      destruct (gaps_bounds _ _ _ _ _ Wg I). unfold HS in *. lia. }
    assert (W1 : wf base (p + HS * nu) (set_size h p nu) l).
    { apply wf_top_up with (top' := p + HS * nu) in W; [|unfold HS in *; lia].
      destruct W as [Vb Vt Vg Vp Vl Vf]. split; auto. apply linked_set; auto. }
    assert (Ap : apart p nu l).
    { intros a k I. left. destruct (gaps_bounds _ _ _ _ _ Wg I). lia. }
    assert (Sp : size (hd (set_size h p nu) p) = nu) by (unfold set_size; rewrite hd_set_eq; reflexivity).
    destruct (free_spec base (p + HS * nu) (set_size h p nu) l p nu fuel W1 Bp ltac:(lia) ltac:(lia) Ap Sp F)
      as (h1 & -> & W2 & Fr).
    tstep. rewrite Ep in W2, Fr. apply Q2; [exact Ep|exact Br|rewrite Br; exact W2|].
    intros b Nb Nc.
    assert (Nl : forall c, In c l -> fst c <> b).
    { intros [c k] I Ec. cbn in Ec. subst c. apply Nc, insert_covers; [lia|auto|]. right. exists b, k.
      split; auto. pose proof (proj1 (Forall_forall _ _) Wp _ I). cbn in *. unfold HS. lia. }
    assert (Np : b <> brk brk0 hist).
    { intros ->. apply Nc, insert_covers; [lia|auto|]. left. unfold HS. lia. }
    rewrite Fr; [|intros c [<-|I]; auto|auto]. unfold set_size. apply hd_set_ne. auto.
Qed.

Lemma malloc_ready fuel base h l nbytes top :
  ready base top h l ->
  exists h0, malloc fuel base h nbytes = malloc_loop fuel h0 (units nbytes) (freep h0) (ptr (hd h0 (freep h0))) /\
    wf base top h0 l /\ (forall b, b <> base -> hd h0 b = hd h b).
Proof.
  unfold malloc. intros [W|(F & -> & B & T)].
  - exists h. assert (freep h <> 0).
    { intros Z0. destruct W as [Wb Wt Wg Wp Wl [Wf|Wf]]; [lia|].
      apply in_map_iff in Wf as ([a n] & Ea & I). cbn in Ea. destruct (gaps_bounds _ _ _ _ _ Wg I). lia. }
    rewrite (proj2 (Z.eqb_neq _ _)) by auto. auto.
  - rewrite F. eexists. split; [reflexivity|]. cbn [freep set_size set_hd set_freep]. split.
    + split; auto; [cbn [gaps]; unfold HS in *; lia| |left; reflexivity].
      cbn [linked next_of]. split; auto. unfold set_size, set_freep, set_ptr, set_hd. cbn.
      rewrite Z.eqb_refl. reflexivity.
    + intros b Nb. unfold set_size, set_freep, set_ptr, set_hd. cbn.
      rewrite (proj2 (Z.eqb_neq _ _) Nb). reflexivity.
Qed.

Lemma handed_frame base h0 h l m h' r l' :
  (forall b, b <> base -> hd h0 b = hd h b) -> handed base h0 l m h' r l' -> handed base h l m h' r l'.
Proof.
  intros H (a & n & I & M & -> & -> & Sz & Fr). exists a, n. repeat split; auto.
  intros b Nb Nc. rewrite Fr; auto.
Qed.

Lemma units_spec nbytes :
  0 <= nbytes <= 2 ^ 31 - 64 -> 0 < units nbytes < 2 ^ 27 /\ nbytes <= HS * (units nbytes - 1) < nbytes + HS.
Proof.
  intros B. unfold units, HS. rewrite u64_small by lia.
  pose proof (Z.div_mod (nbytes + 16 - 1) 16 ltac:(lia)) as D.
  pose proof (Z.mod_pos_bound (nbytes + 16 - 1) 16 ltac:(lia)) as M.
  rewrite u32_small by lia. lia.
Qed.

(** [malloc] returns for every reply of sbrk. *)
Lemma malloc_spec fuel base h l nbytes hist :
  ready base (brk brk0 hist) h l -> 0 <= nbytes <= 2 ^ 31 - 64 -> (3 * length l + 4 <= fuel)%nat ->
  twp E (malloc_post base h l (units nbytes) hist) hist (malloc fuel base h nbytes).
Proof.
  intros Rd B F. destruct (units_spec nbytes B) as (M & _). set (m := units nbytes) in *.
  destruct (malloc_ready fuel base h l nbytes _ Rd) as (h0 & -> & W & Fr). fold m.
  destruct (malloc_first fuel base _ h0 l m W ltac:(lia) ltac:(lia))
    as [(h' & r & l' & -> & W' & H)|(Al & f & Lf & ->)].
  - tstep. exists h', r, l'. split; [auto|]. split; [auto|]. left. split; auto. eapply handed_frame; eauto.
  - tstep. apply (morecore_spec _ base h0 l); auto; [lia| |].
    + intros rep Er. cbn [seqpost]. rewrite Z.eqb_refl. tstep. exists h0, 0, l. split; [auto|].
      rewrite brk_snoc, (proj2 (Z.eqb_eq _ _)) by auto. split; [auto|]. right. exists rep. auto.
    + cbv zeta. set (nu := Z.max 4096 m). set (p := brk brk0 hist). intros rep h1 Er Br W1 F1. cbn [seqpost].
      destruct (Z.eqb_spec (freep h1) 0) as [Z0|_].
      { destruct W1 as [Wb Wt Wg Wp Wl [Wf|Wf]]; [lia|].
        apply in_map_iff in Wf as ([a n] & Ea & I). cbn in Ea. destruct (gaps_bounds _ _ _ _ _ Wg I). lia. }
      pose proof (insert_length (p, nu) l).
      destruct (malloc_first f base _ h1 _ m W1 ltac:(lia) ltac:(lia))
        as [(h' & r & l' & -> & W' & H1)|(Al' & _)].
      * tstep. exists h', r, l'. split; [auto|]. split; [auto|]. right. exists rep. split; [auto|]. right.
        split; auto. destruct H1 as (a & n & I & Mn & Ea & El & Sz & F2). exists a, n. repeat split; auto.
        intros b Nb Nc. rewrite F2, F1; auto.
      * exfalso. destruct W as [_ _ _ Wp _ _]. destruct (insert_has (p, nu) l Wp) as (c & I & L).
        pose proof (proj1 (Forall_forall _ _) Al' _ I). cbn in *. lia.
Qed.

End Malloc.
