(* ===== verification/UmallocSpec.v ===== *)
(** What the allocator of Umalloc.v promises, in terms of the set of free
    bytes: [malloc] hands out bytes that were free, [free] gives them back, and
    one undoes the other on the free list itself. *)

From ITree Require Import ITree.
From S2P Require Import Prelude Mem Sys Umalloc.
Import ITreeNotations.
Local Open Scope itree_scope.
Local Open Scope zm_scope.

#[local] Arguments HS : simpl never.

(** * Lemmas *)

Lemma handed_covers lo base top h l m h' r l' x :
  gaps lo l top -> Forall (fun b => 0 < snd b) l -> 0 < m -> handed base h l m h' r l' ->
  (covers l x <-> covers l' x \/ r - HS <= x < r - HS + HS * m) /\
  (covers l' x -> ~ r - HS <= x < r - HS + HS * m).
Proof.
  intros Wg Wp M (a & n & I & Mn & -> & -> & _).
  assert (Nd : NoDup (map fst l)).
  { eapply gaps_nodup; [exact Wg|]. eapply Forall_impl; [|exact Wp]. cbn. lia. }
  replace (a + HS * (n - m) + HS - HS) with (a + HS * (n - m)) by lia.
  replace (a + HS * (n - m) + HS * m) with (a + HS * n) by lia.
  split; [apply take_covers; auto; lia|].
  revert lo Wg. clear - I Nd M Mn. induction l as [|[b k] l IH]; [destruct I|]. intros lo G. cbn [gaps] in G. destruct G as (G1 & G2 & G).
  cbn [map fst] in Nd. inv Nd. cbn [take_block]. destruct (Z.eqb_spec b a) as [->|Ne].
  - destruct I as [[= ->]|I]; [|apply (in_map fst) in I; contradiction].
    assert (Tl : covers l x -> a + HS * n < x).
    { intros (c & j & Ic & Xc). destruct (gaps_bounds _ _ _ _ _ G Ic). lia. }
    destruct (n =? m); [intros C; apply Tl in C; lia|]. rewrite covers_cons. intros [C|C]; [lia|apply Tl in C; lia].
  - destruct I as [[= -> ->]|I]; [congruence|]. rewrite covers_cons.
    destruct (gaps_bounds _ _ _ _ _ G I) as (A1 & _).
    intros [C|C]; [unfold HS in *; lia|]. eapply IH; eauto.
Qed.

(** The list is back when the block is put back. *)
Lemma insert_take lo top l a n m :
  gaps lo l top -> Forall (fun b => 0 < snd b) l -> In (a, n) l -> 0 < m <= n ->
  insert (a + HS * (n - m), m) (take_block a m l) = l.
Proof.
  revert lo. induction l as [|[b k] l IH]; intros lo G P I M; [destruct I|].
  cbn [gaps] in G. destruct G as (G1 & G2 & G). inv P. cbn [snd] in *. cbn [take_block].
  assert (Top : forall c j, match l with (c', j') :: _ => c = c' /\ j = j' | [] => False end -> b + HS * k < c).
  { destruct l as [|[c' j'] l]; [tauto|]. intros c j [-> ->]. destruct G. auto. }
  destruct (Z.eqb_spec b a) as [->|Ne].
  - destruct I as [[= ->]|I]; [|destruct (gaps_bounds _ _ _ _ _ G I); unfold HS in *; lia].
    assert (In' : insert (a + HS * (n - m), m) l = (a + HS * (n - m), m) :: l).
    { destruct l as [|[c j] l]; [reflexivity|]. specialize (Top c j (conj eq_refl eq_refl)).
      cbn [insert fst]. rewrite (proj2 (Z.ltb_lt _ _)) by (unfold HS in *; lia). cbn [join fst snd].
      rewrite (proj2 (Z.eqb_neq _ _)) by (unfold HS in *; lia). reflexivity. }
    destruct (Z.eqb_spec n m) as [->|Nm].
    + rewrite In'. f_equal. f_equal. lia.
    + cbn [insert fst]. rewrite (proj2 (Z.ltb_ge _ _)) by (unfold HS; lia). rewrite In'.
      cbn [join fst snd]. rewrite Z.eqb_refl. f_equal. f_equal. lia.
  - destruct I as [[= -> ->]|I]; [congruence|]. destruct (gaps_bounds _ _ _ _ _ G I) as (A1 & _).
    cbn [insert fst]. rewrite (proj2 (Z.ltb_ge _ _)) by (unfold HS in *; lia).
    rewrite (IH _ G) by auto. destruct l as [|[c j] l]; [destruct I|]. specialize (Top c j (conj eq_refl eq_refl)).
    cbn [join fst snd]. rewrite (proj2 (Z.eqb_neq _ _)) by lia. reflexivity.
Qed.

(** * Theorems *)

(** C10: [malloc] (umalloc.c) returns for every behaviour of sbrk.  Either it
    returns 0 after an sbrk that failed, and the free list is what it was; or it
    returns a pointer [r] behind a header that records [units nbytes] units, these
    have room for [nbytes] bytes, they were free or lie in the memory that sbrk has
    just given, they are the only bytes that are no longer free, and no header of a
    block in use has changed.  The free list is again sorted, disjoint and
    coalesced. *)
Theorem malloc_allocates E brk0 limit (K : Sbrk E brk0 limit) fuel base h l nbytes hist :
  ready base (brk brk0 hist) h l -> 0 <= nbytes <= 2 ^ 31 - 64 -> (3 * length l + 4 <= fuel)%nat ->
  twp E (fun o hist' => exists h' r l', let size_r := HS * units nbytes in
    o = Done (h', r) /\ wf base (brk brk0 hist') h' l' /\
    ((r = 0 /\ l' = l /\ exists n rep, hist' = hist ++ [(CSbrk n, rep)] /\ r_ret rep = -1) \/
     (nbytes <= size_r - HS < nbytes + HS /\ size (hd h' (r - HS)) = units nbytes /\
      (forall x, covers l x \/ brk brk0 hist <= x < brk brk0 hist' <->
         covers l' x \/ r - HS <= x < r - HS + size_r) /\
      (forall x, covers l' x -> ~ r - HS <= x < r - HS + size_r) /\
      (forall b, b <> base -> ~ covers l b -> ~ brk brk0 hist <= b < brk brk0 hist' ->
         hd h' b = hd h b))))
    hist (malloc fuel base h nbytes).
Proof.
  intros Rd B F. eapply twp_mono; [apply (malloc_spec E brk0 limit K fuel base h l); auto|].
  intros o hist' (h' & r & l' & -> & W & H). exists h', r, l'. cbv zeta. split; [auto|]. split; [auto|].
  destruct (units_spec nbytes B) as (M & Mb). set (m := units nbytes) in *.
  assert (Cases : (r = 0 /\ l' = l /\ exists n rep, hist' = hist ++ [(CSbrk n, rep)] /\ r_ret rep = -1) \/
    exists l1 lo top, handed base h l1 m h' r l' /\ gaps lo l1 top /\ Forall (fun b => 0 < snd b) l1 /\
      forall x, covers l1 x <-> covers l x \/ brk brk0 hist <= x < brk brk0 hist').
  { assert (G : gaps (base + 15) l (brk brk0 hist) /\ Forall (fun b => 0 < snd b) l).
    { destruct Rd as [[]|(_ & -> & P & Q)]; [auto|]. cbn. unfold HS in *. split; [lia|auto]. }
    destruct G as (G & P).
    destruct H as [(-> & H')|(rep & -> & [(Er & -> & ->)|(Er & H')])]; [right|left; eauto 7|right].
    - exists l, (base + 15), (brk brk0 hist). repeat split; auto; intuition lia.
    - set (nu := Z.max 4096 m) in *. set (p := brk brk0 hist) in *.
      assert (Ne : r_ret rep <> -1).
      { rewrite Er. pose proof (gaps_top _ _ _ G). destruct Rd as [[]|(_ & _ & ? & _)]; lia. }
      assert (Bh : brk brk0 (hist ++ [(CSbrk (HS * nu), rep)]) = p + HS * nu).
      { rewrite brk_snoc, (proj2 (Z.eqb_neq _ _) Ne). reflexivity. }
      rewrite Bh. exists (insert (p, nu) l), (base + 15 - 1), (p + HS * nu). split; [auto|]. split; [|split].
      + pose proof (gaps_top _ _ _ G) as Gt. unfold HS in Gt. apply (insert_gaps (base + 15)); auto; try lia.
        * apply (gaps_more _ _ p); [exact G|unfold HS; lia].
        * intros a k I. left. destruct (gaps_bounds _ _ _ _ _ G I). lia.
      + apply insert_pos; auto. cbn. lia.
      + intros x. rewrite insert_covers by (auto; lia). tauto. }
  destruct Cases as [C|(l1 & lo & top & Hd & G & P & Cov)]; [left; exact C|right].
  pose proof (fun x => handed_covers lo base top h l1 m h' r l' x G P ltac:(lia) Hd) as C.
  destruct Hd as (a & n & I & Mn & Ea & El & Sz & Fr).
  split; [lia|]. split; [auto|]. split; [|split; [intros x; apply C|]].
  - intros x. rewrite <- Cov. apply C.
  - intros b Nb N1 N2. apply Fr; auto. rewrite Cov. tauto.
Qed.

(** [free] (umalloc.c) of a block in use terminates, wherever [freep] is: the
    block is inserted at its place in the sorted ring and merged with the free
    blocks it touches on either side, so that no two free blocks touch; the free
    bytes are those of before and the block's, and no other header changes. *)
Theorem free_coalesces base top h l bp nb fuel :
  wf base top h l -> base + HS <= bp -> 0 < nb -> bp + HS * nb <= top -> apart bp nb l ->
  size (hd h bp) = nb -> (2 * length l + 2 <= fuel)%nat ->
  exists h', free fuel h (bp + HS) = Some h' /\ wf base top h' (insert (bp, nb) l) /\
    (forall x, covers (insert (bp, nb) l) x <-> covers l x \/ bp <= x < bp + HS * nb) /\
    (forall b, b <> base -> b <> bp -> ~ covers l b -> hd h' b = hd h b).
Proof.
  intros W Bp Nb Tp Ap Sz F. destruct (free_spec base top h l bp nb fuel) as (h' & E & W' & Fr); auto.
  { unfold HS in *. lia. }
  exists h'. split; [auto|]. split; [auto|]. destruct W as [_ _ _ Wp _ _]. split.
  - intros x. rewrite insert_covers by auto. tauto.
  - intros b N1 N2 Nc. apply Fr; auto. intros [c k] [<-|I]; [cbn; auto|]. intros E'. cbn in E'. subst c.
    apply Nc. exists b, k. split; auto. pose proof (proj1 (Forall_forall _ _) Wp _ I). cbn in *. unfold HS. lia.
Qed.

(** [free] undoes [malloc]: when a block that [malloc] took from the free
    list [l] is freed, the free list is [l] again, block for block. *)
Theorem malloc_free_roundtrip base top h l m h' r l' fuel :
  wf base top h l -> 0 < m -> handed base h l m h' r l' -> wf base top h' l' ->
  (2 * length l + 2 <= fuel)%nat ->
  exists h2, free fuel h' r = Some h2 /\ wf base top h2 l.
Proof.
  intros W M H W' F. pose proof W as [Wb Wt Wg Wp _ _]. pose proof H as (a & n & I & Mn & Er & El & Sz & _).
  destruct (gaps_bounds _ _ _ _ _ Wg I) as (A1 & A2 & _).
  set (bp := a + HS * (n - m)) in *. replace (r - HS) with bp in Sz by lia.
  assert (Lt : (length l' <= length l)%nat).
  { rewrite El. clear. induction l as [|[b k] l IH]; cbn [take_block]; [auto|].
    destruct (_ =? _); [destruct (_ =? _)|]; cbn; lia. }
  assert (Ap : apart bp m l').
  { intros b k I'. destruct (Z_le_dec (b + HS * k) bp) as [|N1]; [auto|right].
    destruct (Z_le_dec (bp + HS * m) b) as [|N2]; [auto|exfalso].
    destruct W' as [_ _ _ Wp' _ _]. pose proof (proj1 (Forall_forall _ _) Wp' _ I') as Pk. cbn in Pk.
    destruct (handed_covers (base + 15) base top h l m h' r l' (Z.max b bp) Wg Wp M H) as (_ & D).
    apply D; [exists b, k; split; auto|]; unfold HS in *; lia. }
  destruct (free_spec base top h' l' bp m fuel) as (h2 & E & W2 & _); auto; try (unfold HS in *; lia).
  exists h2. rewrite Er. split; [exact E|]. rewrite El in W2. unfold bp in W2.
  rewrite (insert_take (base + 15) top l a n m) in W2; auto.
Qed.

(** For a request near 4 GiB the product [nu * sizeof(Header)] of
    [morecore] does not fit the [int] of sbrk: malloc(0xFFFFFFFF) asks for 16
    bytes, and returns a block whose header records 268435457 units of 16 bytes. *)
Theorem malloc_truncates :
  exists h', play 20 (malloc 8 4080 (Heap (fun _ => Hdr 0 0) 0) (2 ^ 32 - 1)) [ok 8192] =
      Some ([(CSbrk 16, ok 8192)], Done (h', 8192 + HS)) /\
    size (hd h' 8192) = 268435457 /\ HS * 268435457 > 2 ^ 32.
Proof. eexists. split; [vm_compute; reflexivity|]. vm_compute. auto. Qed.

(** * Witnesses *)

#[local] Arguments HS /.

(** An environment in which sbrk moves the break from [brk0] up to [limit]. *)
Definition sbrk_env (brk0 limit : Z) : env := fun hist c r =>
  match c with
  | CSbrk n => r_ret r = -1 \/ (r_ret r = brk brk0 hist /\ r_ret r <> -1 /\ brk brk0 hist + n <= limit)
  | _ => True
  end.

#[export] Instance sbrk_env_sbrk brk0 : Sbrk (sbrk_env brk0 (2 ^ 27)) brk0 (2 ^ 27).
Proof. split; [lia|]. cbn. auto. Qed.

(** Two free blocks of four units with a block of two units between them. *)
Definition heap3 : heap :=
  set_freep (set_hd (set_hd (set_hd (Heap (fun _ => Hdr 0 0) 0) 4080 (Hdr 4096 0)) 4096 (Hdr 4192 4))
    4192 (Hdr 4080 4)) 4096.

Lemma heap3_wf : wf 4080 4256 heap3 [(4096, 4); (4192, 4)].
Proof.
  split; [lia|unfold HS; lia|cbn [gaps]; unfold HS; lia|repeat constructor|cbn; auto|cbn; auto].
Defined.

Lemma malloc_allocates_witness :
  ready 4080 (brk 4256 []) heap3 [(4096, 4); (4192, 4)] /\
  twp (sbrk_env 4256 (2 ^ 27)) (fun o _ => exists h' r, o = Done (h', r)) [] (malloc 10 4080 heap3 100000).
Proof.
  split; [left; exact heap3_wf|].
  eapply twp_mono; [apply (malloc_allocates _ 4256 (2 ^ 27) (sbrk_env_sbrk 4256) 10 4080 heap3
    [(4096, 4); (4192, 4)] 100000 [])|].
  - left. exact heap3_wf.
  - lia.
  - cbn. lia.
  - intros o h' (h2 & r & l' & -> & _). eauto.
Defined.

Lemma free_coalesces_witness :
  exists h', free 6 (set_hd heap3 4160 (Hdr 0 2)) 4176 = Some h' /\ wf 4080 4256 h' [(4096, 10)].
Proof.
  destruct (free_coalesces 4080 4256 (set_hd heap3 4160 (Hdr 0 2)) [(4096, 4); (4192, 4)] 4160 2 6)
    as (h' & E & W & _).
  - split; [lia|unfold HS; lia|cbn [gaps]; unfold HS; lia|repeat constructor|cbn; auto|cbn; auto].
  - unfold HS. lia.
  - lia.
  - unfold HS. lia.
  - intros a n [[= <- <-]|[[= <- <-]|[]]]; unfold HS; lia.
  - reflexivity.
  - cbn. lia.
  - exists h'. split; [exact E|exact W].
Defined.

Definition heap3_taken : heap * Z := carve heap3 4080 4096 4 3.

Lemma malloc_free_roundtrip_witness :
  snd heap3_taken = 4128 /\
  exists h2, free 6 (fst heap3_taken) 4128 = Some h2 /\ wf 4080 4256 h2 [(4096, 4); (4192, 4)].
Proof.
  split; [reflexivity|].
  apply (malloc_free_roundtrip 4080 4256 heap3 [(4096, 4); (4192, 4)] 3 (fst heap3_taken) 4128
    [(4096, 1); (4192, 4)] 6).
  - exact heap3_wf.
  - lia.
  - exists 4096, 4. split; [cbn; auto|]. split; [lia|]. split; [reflexivity|]. split; [reflexivity|].
    split; [reflexivity|]. intros b Nb Nc. cbn.
    destruct (Z.eqb_spec b 4112) as [->|_]; [exfalso; apply Nc; exists 4096, 4; split; [left; auto|unfold HS; lia]|].
    destruct (Z.eqb_spec b 4096) as [->|_]; [exfalso; apply Nc; exists 4096, 4; split; [left; auto|unfold HS; lia]|].
    reflexivity.
  - split; [lia|unfold HS; lia|cbn [gaps]; unfold HS; lia|repeat constructor|cbn; auto|cbn; auto].
  - cbn. lia.
Defined.
