(* ===== verification/Grind.v ===== *)
(** src/user/grind.c: random system calls, for ever, in two processes.

    [do_rand] is the arithmetic of the code on machine words.  The body of the
    loop of [go] is [go_turn], one definition per group of its 23 cases; its
    state is the loop's variables, the generator's seed and the static buffer.
    The descriptors a process holds are read off its history, to show that a turn
    leaks none. *)

From ITree Require Import ITree.
From S2P Require Import Prelude Mem Sys Ulib Printf ShParse Tools Ls.
Import ITreeNotations.
Local Open Scope itree_scope.
Local Open Scope zm_scope.

(** * The generator *)

Definition M31 : Z := 2147483647.

(** The value returned, which is the new [*ctx] too. *)
Definition do_rand (ctx : Z) : Z :=
  let x := s64 (ctx mod 2147483646 + 1) in
  let hi := Z.quot x 127773 in
  let lo := Z.rem x 127773 in
  let x := s64 (16807 * lo - 2836 * hi) in
  let x := if x <? 0 then x + 2147483647 else x in
  x - 1.

(** [rand]: the int returned and the new [rand_next]. *)
Definition rand (rand_next : Z) : Z * Z := (s32 (do_rand rand_next), u64 (do_rand rand_next)).

(** * go *)

Section Programs.
Variable fmt_ptr : Z -> list Z.
Abbreviation printf := (printf fmt_ptr).

Record gstate : Type := GState { g_iters : Z; g_fd : Z; g_rand : Z; g_buf : list Z }.

Definition O_CRW : Z := Z.lor O_CREATE O_RDWR.

(** A call whose result is not used. *)
Definition run_call (c : Sys.call) : prog unit := sysret c ;; Ret tt.

Definition give_up_with {R} (msg : list Z) : prog R := printf (msg ++ [newline]) [] ;; exit_ 1.

(** [close(open(path, O_CREATE|O_RDWR))] *)
Definition touch (path : list Z) : prog unit :=
  fd <- sysret (COpen path O_CRW) ;; run_call (CClose fd).

(** [close(fd); fd = open(path, O_CREATE|O_RDWR)]: cases 5 and 6. *)
Definition reopen_fd (path : list Z) (fd : Z) : prog Z :=
  run_call (CClose fd) ;; sysret (COpen path O_CRW).

(** Fork, run [child] in the child, and [rest] in the parent before it waits:
    cases 13, 14, 17, 18 and 20. *)
Definition with_child (child : prog unit) (rest : Z -> prog unit) : prog unit :=
  pid <- sysret CFork ;;
  if pid =? 0 then child ;; exit_ 0
  else if pid <? 0 then give_up_with ($"grind: fork failed")
  else rest pid ;; run_call (CWait false).

(** Cases 1 to 4 and 9 to 12: files and directories. *)
Definition go_files (what : Z) : prog unit :=
  if what =? 1 then touch ($"grindir/../a")
  else if what =? 2 then touch ($"grindir/../grindir/../b")
  else if what =? 3 then run_call (CUnlink ($"grindir/../a"))
  else if what =? 4 then
    r <- sysret (CChdir ($"grindir")) ;;
    (if negb (r =? 0) then give_up_with ($"grind: chdir grindir failed") else Ret tt) ;;
    run_call (CUnlink ($"../b")) ;;
    run_call (CChdir ($"/"))
  else if what =? 9 then
    run_call (CMkdir ($"grindir/../a")) ;;
    touch ($"a/../a/./a") ;;
    run_call (CUnlink ($"a/a"))
  else if what =? 10 then
    run_call (CMkdir ($"/../b")) ;;
    touch ($"grindir/../b/b") ;;
    run_call (CUnlink ($"b/b"))
  else if what =? 11 then
    run_call (CUnlink ($"b")) ;;
    run_call (CLink ($"../grindir/./../a") ($"../b"))
  else
    run_call (CUnlink ($"../grindir/../a")) ;;
    run_call (CLink ($".././b") ($"/grindir/../a")).

(** Cases 13 to 18 and 20: processes and memory. *)
Definition go_memory (what break0 : Z) : prog unit :=
  if what =? 15 then run_call (CSbrk 6011)
  else
    b <- sysret (CSbrk 0) ;;
    if b >? break0 then
      b <- sysret (CSbrk 0) ;; run_call (CSbrk (s32 (- (b - break0))))
    else Ret tt.

Definition go_fork (what : Z) : prog unit :=
  if what =? 13 then with_child (Ret tt) (fun _ => Ret tt)
  else if what =? 14 then with_child (run_call CFork ;; run_call CFork) (fun _ => Ret tt)
  else if what =? 17 then
    with_child (touch ($"a")) (fun pid =>
      r <- sysret (CChdir ($"../grindir/..")) ;;
      (if negb (r =? 0) then give_up_with ($"grind: chdir failed") else Ret tt) ;;
      run_call (CKill pid))
  else if what =? 18 then
    with_child (pid <- sysret CGetpid ;; run_call (CKill pid)) (fun _ => Ret tt)
  else
    with_child
      (run_call (CUnlink ($"a")) ;; run_call (CMkdir ($"a")) ;; run_call (CChdir ($"a")) ;;
       run_call (CUnlink ($"../a")) ;; run_call (COpen ($"x") O_CRW) ;; run_call (CUnlink ($"x")))
      (fun _ => Ret tt).

(** Case 19: a pipe shared by four processes. *)
Definition go_pipe : prog unit :=
  p <- sys CPipe ;;
  (if r_ret p <? 0 then give_up_with ($"grind: pipe failed") else Ret tt) ;;
  let fd0 := nth 0 (r_out p) 0 in
  let fd1 := nth 1 (r_out p) 0 in
  with_child
    (run_call CFork ;; run_call CFork ;;
     n <- sysret (CWrite fd1 ($"x")) ;;
     (if negb (n =? 1) then printf ($"grind: pipe write failed" ++ [newline]) [] else Ret tt) ;;
     n <- sysret (CRead fd0 1) ;;
     (if negb (n =? 1) then printf ($"grind: pipe read failed" ++ [newline]) [] else Ret tt))
    (fun _ => run_call (CClose fd0) ;; run_call (CClose fd1)).

(** Case 21: there are free inodes, descriptors and blocks. *)
Definition go_create : prog unit :=
  run_call (CUnlink ($"c")) ;;
  fd1 <- sysret (COpen ($"c") O_CRW) ;;
  (if fd1 <? 0 then give_up_with ($"grind: create c failed") else Ret tt) ;;
  n <- sysret (CWrite fd1 ($"x")) ;;
  (if negb (n =? 1) then give_up_with ($"grind: write c failed") else Ret tt) ;;
  st <- sys (CFstat fd1) ;;
  (if negb (r_ret st =? 0) then give_up_with ($"grind: fstat failed") else Ret tt) ;;
  (if negb (st_size (r_out st) =? 1) then
     printf ($"grind: fstat reports wrong size %d" ++ [newline]) [AInt (s32 (st_size (r_out st)))] ;; exit_ 1
   else Ret tt) ;;
  (if st_ino (r_out st) >? 200 then
     printf ($"grind: fstat reports crazy i-number %d" ++ [newline]) [AInt (st_ino (r_out st))] ;; exit_ 1
   else Ret tt) ;;
  run_call (CClose fd1) ;;
  run_call (CUnlink ($"c")).

(** Case 22: echo hi | cat. *)
Definition fail2 {R} (msg : list Z) (status : Z) : prog R :=
  fprintf 2 (msg ++ [newline]) [] ;; exit_ status.

(** [close(n); if(dup(fd) != n) ...] *)
Definition dup_to (fd n status : Z) : prog unit :=
  run_call (CClose n) ;;
  d <- sysret (CDup fd) ;;
  if negb (d =? n) then fail2 ($"grind: dup failed") status else Ret tt.

Definition echo_child (aa0 aa1 bb0 bb1 : Z) : prog unit :=
  run_call (CClose bb0) ;;
  run_call (CClose bb1) ;;
  run_call (CClose aa0) ;;
  dup_to aa1 1 1 ;;
  run_call (CClose aa1) ;;
  run_call (CExec ($"grindir/../echo") [$"echo"; $"hi"]) ;;
  fail2 ($"grind: echo: not found") 2.

Definition cat_child (aa0 aa1 bb0 bb1 : Z) : prog unit :=
  run_call (CClose aa1) ;;
  run_call (CClose bb0) ;;
  dup_to aa0 0 4 ;;
  run_call (CClose aa0) ;;
  dup_to bb1 1 5 ;;
  run_call (CClose bb1) ;;
  run_call (CExec ($"/cat") [$"cat"]) ;;
  fail2 ($"grind: cat: not found") 6.

(** [read(fd, buf+i, 1)] *)
Definition read_at (fd : Z) (i : nat) (buf : list Z) : prog (list Z) :=
  r <- sys (CRead fd 1) ;;
  Ret (match delivered r with c :: _ => list_set buf i c | [] => buf end).

(** [wait(&st)] with [st] before the call. *)
Definition wait_status (st : Z) : prog Z := r <- sys (CWait true) ;; Ret (nth 0 (r_out r) st).

(** [strcmp(buf, "hi\n")] with the two arrays at two addresses. *)
Definition strcmp_hi (buf : list Z) : option Z :=
  strcmp 5 (store (mem_of 4096 ($"hi" ++ [newline; 0])) 0 buf) 0 4096.

(** [st1] and [st2] are not initialised: [garbage]. *)
Definition go_pipeline (garbage : Z) : prog unit :=
  aa <- sys CPipe ;;
  (if r_ret aa <? 0 then fail2 ($"grind: pipe failed") 1 else Ret tt) ;;
  bb <- sys CPipe ;;
  (if r_ret bb <? 0 then fail2 ($"grind: pipe failed") 1 else Ret tt) ;;
  let aa0 := nth 0 (r_out aa) 0 in
  let aa1 := nth 1 (r_out aa) 0 in
  let bb0 := nth 0 (r_out bb) 0 in
  let bb1 := nth 1 (r_out bb) 0 in
  pid1 <- sysret CFork ;;
  (if pid1 =? 0 then echo_child aa0 aa1 bb0 bb1
   else if pid1 <? 0 then fail2 ($"grind: fork failed") 3 else Ret tt) ;;
  pid2 <- sysret CFork ;;
  (if pid2 =? 0 then cat_child aa0 aa1 bb0 bb1
   else if pid2 <? 0 then fail2 ($"grind: fork failed") 7 else Ret tt) ;;
  run_call (CClose aa0) ;;
  run_call (CClose aa1) ;;
  run_call (CClose bb1) ;;
  buf <- read_at bb0 0 [0; 0; 0; 0] ;;
  buf <- read_at bb0 1 buf ;;
  buf <- read_at bb0 2 buf ;;
  run_call (CClose bb0) ;;
  st1 <- wait_status garbage ;;
  st2 <- wait_status garbage ;;
  match strcmp_hi buf with
  | None => abort
  | Some c =>
      if negb (st1 =? 0) || negb (st2 =? 0) || negb (c =? 0) then
        printf ($"grind: exec pipeline failed %d %d " ++ [34] ++ $"%s" ++ [34; newline])
          [AInt st1; AInt st2; AStr (Some (until_nul buf))] ;;
        exit_ 1
      else Ret tt
  end.

(** One turn of [while(1)]. *)
Definition go_turn (which_child break0 garbage : Z) (g : gstate) : prog (gstate + unit) :=
  let iters := u64 (g_iters g + 1) in
  (if iters mod 500 =? 0 then run_call (CWrite 1 (if negb (which_child =? 0) then $"B" else $"A"))
   else Ret tt) ;;
  let (x, rand_next) := rand (g_rand g) in
  let what := Z.rem x 23 in
  let next fd buf := Ret (inl (GState iters fd rand_next buf)) in
  let fd := g_fd g in
  let buf := g_buf g in
  if existsb (Z.eqb what) [1; 2; 3; 4; 9; 10; 11; 12] then go_files what ;; next fd buf
  else if what =? 5 then fd <- reopen_fd ($"/grindir/../a") fd ;; next fd buf
  else if what =? 6 then fd <- reopen_fd ($"/./grindir/./../b") fd ;; next fd buf
  else if what =? 7 then run_call (CWrite fd buf) ;; next fd buf
  else if what =? 8 then
    r <- sys (CRead fd 999) ;; next fd (delivered r ++ skipn (length (delivered r)) buf)
  else if existsb (Z.eqb what) [15; 16] then go_memory what break0 ;; next fd buf
  else if existsb (Z.eqb what) [13; 14; 17; 18; 20] then go_fork what ;; next fd buf
  else if what =? 19 then go_pipe ;; next fd buf
  else if what =? 21 then go_create ;; next fd buf
  else if what =? 22 then go_pipeline garbage ;; next fd buf
  else next fd buf.

Definition go (which_child garbage rand_next : Z) : prog unit :=
  break0 <- sysret (CSbrk 0) ;;
  run_call (CMkdir ($"grindir")) ;;
  r <- sysret (CChdir ($"grindir")) ;;
  (if negb (r =? 0) then give_up_with ($"grind: chdir grindir failed") else Ret tt) ;;
  run_call (CChdir ($"/")) ;;
  ITree.iter (go_turn which_child break0 garbage) (GState 0 (-1) rand_next (repeat 0 999)).

(** * iter and main *)

Definition iter (garbage rand_next : Z) : prog unit :=
  run_call (CUnlink ($"a")) ;;
  run_call (CUnlink ($"b")) ;;
  pid1 <- sysret CFork ;;
  (if pid1 <? 0 then give_up_with ($"grind: fork failed") else Ret tt) ;;
  (if pid1 =? 0 then go 0 garbage (Z.lxor rand_next 31) ;; exit_ 0 else Ret tt) ;;
  pid2 <- sysret CFork ;;
  (if pid2 <? 0 then give_up_with ($"grind: fork failed") else Ret tt) ;;
  (if pid2 =? 0 then go 1 garbage (Z.lxor rand_next 7177) ;; exit_ 0 else Ret tt) ;;
  st1 <- wait_status (-1) ;;
  (if negb (st1 =? 0) then run_call (CKill pid1) ;; run_call (CKill pid2) else Ret tt) ;;
  wait_status (-1) ;;
  exit_ 0.

Definition grind_turn (garbage rand_next : Z) : prog (Z + unit) :=
  pid <- sysret CFork ;;
  (if pid =? 0 then iter garbage rand_next ;; exit_ 0 else Ret tt) ;;
  (if pid >? 0 then run_call (CWait false) else Ret tt) ;;
  run_call (CSleep 20) ;;
  Ret (inl (u64 (rand_next + 1))).

Definition grind_main (garbage : Z) : prog unit := ITree.iter (grind_turn garbage) 1.
End Programs.
