(* ===== verification/GrindSpec.v ===== *)
(** What grind.c promises: its generator is the minimal standard one, and a turn
    of its loop always ends and leaks no file descriptor. *)

From ITree Require Import ITree.
From S2P Require Import Prelude Mem Sys Ulib Printf ShParse Tools Ls Grind.
Import ITreeNotations.
Local Open Scope itree_scope.
Local Open Scope zm_scope.

(** * The generator *)

(** One step of Park and Miller's generator on [1, M31 - 1]. *)
Definition park_miller (x : Z) : Z := (16807 * x) mod M31.

Lemma park_miller_inverse x : 0 <= x < M31 -> (1407677000 * park_miller x) mod M31 = x.
Proof.
  intros B. unfold park_miller, M31 in *. rewrite Z.mul_mod_idemp_r by lia.
  replace (1407677000 * (16807 * x)) with (x + (11017 * x) * 2147483647) by lia.
  rewrite Z_mod_plus_full. apply Z.mod_small. lia.
Qed.

Lemma park_miller_range x : 1 <= x < M31 -> 1 <= park_miller x < M31.
Proof.
  intros B. pose proof (Z.mod_pos_bound (16807 * x) M31 ltac:(unfold M31; lia)) as R. fold (park_miller x) in R.
  pose proof (park_miller_inverse x ltac:(lia)) as I.
  destruct (Z.eq_dec (park_miller x) 0) as [E|]; [|lia]. rewrite E in I. cbn in I. lia.
Qed.

(** Schrage's decomposition computes it without leaving the word. *)
Lemma do_rand_schrage ctx :
  0 <= ctx < 2 ^ 64 -> do_rand ctx = park_miller (ctx mod 2147483646 + 1) - 1.
Proof.
  intros B. unfold do_rand. pose proof (Z.mod_pos_bound ctx 2147483646 ltac:(lia)) as Bx.
  assert (S64 : forall y, - 2 ^ 63 <= y < 2 ^ 63 -> s64 y = y).
  { intros y By. unfold s64. rewrite Z.mod_small; lia. }
  rewrite (S64 (_ + 1)) by lia. set (x := ctx mod 2147483646 + 1) in *.
  assert (Rx : 1 <= x <= 2147483646) by (unfold x; lia). clearbody x. clear Bx.
  rewrite Z.quot_div_nonneg, Z.rem_mod_nonneg by lia.
  pose proof (Z.div_mod x 127773 ltac:(lia)) as D. pose proof (Z.mod_pos_bound x 127773 ltac:(lia)) as Bl.
  set (hi := x / 127773) in *. set (lo := x mod 127773) in *.
  assert (Bh : 0 <= hi <= 16807) by lia.
  rewrite (S64 (_ - _)) by lia.
  pose proof (park_miller_range x ltac:(unfold M31; lia)) as R. unfold park_miller, M31 in *.
  replace (16807 * x) with (16807 * lo - 2836 * hi + hi * 2147483647) in * by lia.
  rewrite Z_mod_plus_full in *. set (v := 16807 * lo - 2836 * hi) in *.
  assert (Bv : - 2147483647 < v < 2147483647) by lia.
  destruct (Z.ltb_spec v 0) as [L|L].
  - replace v with (v + 2147483647 + (-1) * 2147483647) at 2 by lia. rewrite Z_mod_plus_full, Z.mod_small; lia.
  - rewrite Z.mod_small; lia.
Qed.

(** [do_rand] (grind.c) is the minimal standard generator of Park and Miller
    moved to start at 0: from any 64-bit context its result is
    16807 x mod (2^31 - 1) - 1 for x = context mod (2^31 - 2) + 1, computed
    without overflow; it lies in [0, 2^31 - 3], so [rand] returns it unchanged as an
    int and stores it as the next context; and it permutes that range, so that
    the sequence never falls into a fixed state. *)
Theorem do_rand_minimal ctx :
  0 <= ctx < 2 ^ 64 ->
  do_rand ctx = (16807 * (ctx mod (M31 - 1) + 1)) mod M31 - 1 /\
  0 <= do_rand ctx < M31 - 1 /\ rand ctx = (do_rand ctx, do_rand ctx) /\
  (forall a b, 0 <= a < M31 - 1 -> 0 <= b < M31 - 1 -> do_rand a = do_rand b -> a = b).
Proof.
  intros B. rewrite (do_rand_schrage ctx B). pose proof (Z.mod_pos_bound ctx 2147483646 ltac:(lia)) as Bx.
  pose proof (park_miller_range (ctx mod 2147483646 + 1) ltac:(unfold M31; lia)) as R.
  split; [reflexivity|]. split; [lia|]. split.
  - unfold rand. rewrite (do_rand_schrage ctx B). unfold M31 in R. rewrite s32_small, u64_small by lia. reflexivity.
  - intros a b Ba Bb E. unfold M31 in Ba, Bb. rewrite !do_rand_schrage in E by lia.
    rewrite !Z.mod_small in E by lia. assert (E' : park_miller (a + 1) = park_miller (b + 1)) by lia.
    apply (f_equal (fun y => (1407677000 * y) mod M31)) in E'.
    rewrite !park_miller_inverse in E' by (unfold M31; lia). lia.
Qed.

(** * Descriptors *)

(** The descriptors held after a history, from those at its start. *)
Definition ev_held (l : list Z) (e : event) : list Z :=
  match e with
  | (COpen _ _, r) | (CDup _, r) => if r_ret r <? 0 then l else r_ret r :: l
  | (CPipe, r) => if r_ret r <? 0 then l else nth 0 (r_out r) 0 :: nth 1 (r_out r) 0 :: l
  | (CClose fd, _) => List.remove Z.eq_dec fd l
  | _ => l
  end.

Definition held (l0 : list Z) (h : history) : list Z := fold_left ev_held h l0.

(** What the kernel gives out is not in use. *)
Class Descriptors (E : env) (l0 : list Z) : Prop := {
  ds_open h p m r : E h (COpen p m) r -> 0 <= r_ret r -> ~ In (r_ret r) (held l0 h);
  ds_pipe h r : E h CPipe r -> 0 <= r_ret r ->
    exists a b, r_out r = [a; b] /\ 0 <= a /\ 0 <= b /\ a <> b /\
      ~ In a (held l0 h) /\ ~ In b (held l0 h);
}.

Section Owned.
Context (E : env) (l0 : list Z) (D : Descriptors E l0) (fmt_ptr : Z -> list Z).

(** The process holds exactly the descriptors [l]. *)
Definition holds (l : list Z) (h : history) : Prop := forall x, In x (held l0 h) <-> In x l.

(** [h'] is the history of a process forked after [h]. *)
Definition child_since (h h' : history) : Prop :=
  exists tr r, h' = h ++ tr /\ In (CFork, r) tr /\ r_ret r = 0.

Definition alive (h0 : history) {R} (Q : R -> list Z -> Prop) (o : outcome R) (h : history) : Prop :=
  child_since h0 h /\ is_done o = false \/ o = Trapped \/ (exists n, o = Exited n /\ 1 <= n <= 7) \/
  exists r l, o = Done r /\ holds l h /\ Q r l.

(** [t], run while holding [l], ends: with [Q] for its result and what is then
    held, in a forked child, in a trap, or with one of the error statuses. *)
Definition owns (l : list Z) {R} (t : prog R) (Q : R -> list Z -> Prop) : Prop :=
  forall h, holds l h -> twp E (alive h Q) h t.

(** ** Programs that always end *)

(** [t] ends: it returns, or ends the process in a way [X] allows. *)
Definition ends (X : outcome unit -> Prop) {R} (t : prog R) : Prop :=
  forall h, twp E (fun o _ => is_done o = true \/ X (relay o)) h t.

Definition any (o : outcome unit) : Prop := True.
Definition trap (o : outcome unit) : Prop := o = Trapped.

(** [t] always ends the process. *)
Definition quits {R} (t : prog R) : Prop := forall h, twp E (fun o _ => is_done o = false) h t.

Lemma ends_ret X {R} (r : R) : ends X (Ret r).
Proof. intros h. tstep. auto. Qed.

Lemma ends_bind X {R S} (t : prog R) (k : R -> prog S) :
  ends X t -> (forall r, ends X (k r)) -> ends X (ITree.bind t k).
Proof.
  intros T K h. tstep. eapply twp_mono; [apply T|].
  intros [r|n|p a|] h' [A|A]; cbn [seqpost] in *; try discriminate; auto; apply K.
Qed.

Lemma ends_sysret X c : plain c -> ends X (sysret c).
Proof. intros P h. apply twp_sysret; auto. Qed.

Lemma ends_call X c : plain c -> ends X (run_call c).
Proof. intros P. apply ends_bind; auto using ends_sysret, ends_ret. Qed.

Lemma ends_abort X {R} : X Trapped -> ends X (R := R) abort.
Proof. intros H h. tstep. auto. Qed.

Lemma quits_exit {R} n : quits (R := R) (exit_ n).
Proof. intros h. tstep. reflexivity. Qed.

Lemma quits_bind {R S} (t : prog R) (k : R -> prog S) :
  ends any t -> (forall r, quits (k r)) -> quits (ITree.bind t k).
Proof.
  intros T K h. tstep. eapply twp_mono; [apply T|].
  intros [r|n|p a|] h' _; cbn [seqpost]; auto. apply K.
Qed.

Lemma quits_ends {R} (t : prog R) : quits t -> ends any t.
Proof. intros T h. eapply twp_mono; [apply T|]. unfold any. auto. Qed.

Lemma ends_exec p a : ends any (run_call (CExec p a)).
Proof.
  intros h. unfold run_call. tstep. apply twp_exec; intros r Er Hr; cbn [seqpost]; [unfold any; auto|].
  tstep. auto.
Qed.

(** *** The two printfs *)

Lemma putc_ends fd c : ends trap (putc fd c).
Proof. apply ends_call. plain_tac. Qed.

Lemma printint_ends fd x base sgn : ends trap (printint fd x base sgn).
Proof.
  unfold printint. destruct (printint_buf x base sgn) as [buf|]; [|apply ends_abort; reflexivity].
  induction (length buf) as [|n IH]; cbn [put_down]; auto using ends_ret.
  apply ends_bind; auto using putc_ends.
Qed.

Lemma putstr_ends fd s : ends trap (putstr fd s).
Proof. induction s as [|c s IH]; cbn [putstr]; auto using ends_ret, ends_bind, putc_ends. Qed.

Lemma printptr_ends fd x : ends trap (printptr fd x).
Proof.
  do 2 (apply ends_bind; [apply putc_ends|intros _]). generalize (x). generalize 16%nat as n.
  induction n as [|n IH]; intros y; cbn [printptr_loop]; auto using ends_ret, ends_bind, putc_ends.
Qed.

Lemma fprintf_ends fd fmt ap : ends trap (fprintf fd fmt ap).
Proof.
  unfold fprintf. generalize false as pct. revert ap. induction fmt as [|c fmt IH]; intros ap pct; cbn [vprintf].
  { apply ends_ret. }
  assert (Ab : ends trap (R := unit) abort) by (apply ends_abort; reflexivity).
  repeat first [apply putc_ends | apply printint_ends | apply putstr_ends | apply printptr_ends
    | apply ends_bind; intros | case_if | apply IH | apply Ab | destruct ap as [|[v|s] ap] ].
Qed.

Lemma zprint_ends text : ends trap (zprint text).
Proof.
  unfold zprint, zwrite. case_if; [apply ends_abort; reflexivity|].
  apply ends_bind; [apply ends_sysret; plain_tac|]. intros n. case_if; [apply ends_abort; reflexivity|apply ends_ret].
Qed.

Lemma zwrite_ends text : ends trap (zwrite text).
Proof.
  apply ends_bind; [apply ends_sysret; plain_tac|]. intros n. case_if; [apply ends_abort; reflexivity|apply ends_ret].
Qed.

Lemma printf_ends fmt ap : ends trap (printf fmt_ptr fmt ap).
Proof.
  assert (Ab : ends trap (R := unit) abort) by (apply ends_abort; reflexivity).
  unfold printf. destruct fmt as [|c0 fmt0]; auto. set (fmt := c0 :: fmt0). clearbody fmt.
  remember (length fmt) as n eqn:N. revert fmt ap N.
  induction n as [n IH] using lt_wf_ind. intros [|c [|d fmt]] ap ->; cbn [zprintf_loop].
  { apply ends_ret. }
  { case_if; [|apply ends_ret]. apply ends_bind; [apply zwrite_ends|]. intros. apply ends_ret. }
  pose proof (fun l a H => IH (length l) H l a eq_refl) as IH'. cbn [length] in IH'.
  case_if.
  { apply ends_bind; [apply zwrite_ends|]. intros _. apply (IH' (d :: fmt)). cbn. lia. }
  repeat first [apply zwrite_ends | apply zprint_ends | apply ends_bind; intros | case_if
    | apply IH'; lia | apply Ab | destruct ap as [|[v|[s|]] ap] ].
Qed.

(** ** Rules for what is held *)

Lemma held_snoc h e : held l0 (h ++ [e]) = ev_held (held l0 h) e.
Proof. unfold held. rewrite fold_left_app. reflexivity. Qed.

Lemma remove_iff x y l : In x (List.remove Z.eq_dec y l) <-> In x l /\ x <> y.
Proof.
  split; [intros I; apply (in_remove Z.eq_dec) in I; exact I|]. intros [I N]. apply in_in_remove; auto.
Qed.

Lemma owns_bind l {R S} (t : prog R) (k : R -> prog S) (Q : S -> list Z -> Prop) (P : R -> list Z -> Prop) :
  owns l t P -> (forall r l', P r l' -> owns l' (k r) Q) -> owns l (ITree.bind t k) Q.
Proof.
  intros T K h H. tstep. eapply twp_mono; [apply twp_extends, T, H|]. unfold alive.
  intros o h' ([(C & Nd)|[->|[(n & -> & B)|(r & l' & -> & H' & q)]]] & tr & Eh); cbn [seqpost].
  - destruct o; try discriminate; cbn [seqpost]; auto.
  - auto.
  - eauto 6.
  - eapply twp_mono; [apply (K r l'); auto|]. unfold alive.
    intros o h2 [((tr2 & r2 & -> & I & Z0) & Nd)|A]; auto. left. split; auto.
    exists (tr ++ tr2), r2. rewrite Eh, <- app_assoc. auto using in_or_app.
Qed.

Lemma owns_ret l {R} (r : R) (Q : R -> list Z -> Prop) : Q r l -> owns l (Ret r) Q.
Proof. intros q h H. tstep. unfold alive. eauto 8. Qed.

Lemma owns_mono l {R} (t : prog R) (P Q : R -> list Z -> Prop) :
  owns l t P -> (forall r l', P r l' -> Q r l') -> owns l t Q.
Proof.
  intros T K h H. eapply twp_mono; [apply T, H|]. unfold alive. intros o h' A.
  intuition; deex; intuition; eauto 10.
Qed.

Lemma owns_seq l {S} (t : prog unit) (k : prog S) (Q : S -> list Z -> Prop) :
  owns l t (fun _ l' => l' = l) -> owns l k Q -> owns l (t ;; k) Q.
Proof. intros T K. apply owns_bind with (P := fun _ l' => l' = l); auto. intros _ l' ->. exact K. Qed.

(** Calls that leave the descriptors alone. *)
Definition neutral (c : Sys.call) : Prop := plain c /\ forall l r, ev_held l (c, r) = l.

Lemma owns_sys l c (Q : reply -> list Z -> Prop) :
  neutral c -> (forall r, Q r l) -> owns l (sys c) Q.
Proof.
  intros (P & Nt) q h H. apply twp_sys; auto. intros r Er. right. right. right. exists r, l.
  split; [auto|]. split; auto. unfold holds. rewrite held_snoc, Nt. exact H.
Qed.

Lemma owns_sysret l c (Q : Z -> list Z -> Prop) : neutral c -> (forall r, Q r l) -> owns l (sysret c) Q.
Proof.
  intros Nt q. apply owns_bind with (P := fun _ l' => l' = l); [apply owns_sys; auto|].
  intros r l' ->. apply owns_ret; auto.
Qed.

Lemma owns_call l c : neutral c -> owns l (run_call c) (fun _ l' => l' = l).
Proof.
  intros Nt. apply owns_bind with (P := fun _ l' => l' = l); [apply owns_sysret; auto|].
  intros r l' ->. apply owns_ret; auto.
Qed.

Lemma owns_close l fd : owns l (run_call (CClose fd)) (fun _ l' => l' = List.remove Z.eq_dec fd l).
Proof.
  intros h H. unfold holds in H. unfold run_call. repeat tstep. right. right. right. exists tt, (List.remove Z.eq_dec fd l).
  split; [auto|]. split; auto. intros x. rewrite held_snoc. cbn [ev_held]. rewrite !remove_iff, H. tauto.
Qed.

Lemma owns_open l p m :
  owns l (sysret (COpen p m)) (fun r l' => r < 0 /\ l' = l \/ 0 <= r /\ ~ In r l /\ l' = r :: l).
Proof.
  intros h H. unfold holds in H. repeat tstep. right. right. right.
  destruct (Z.ltb_spec (r_ret r) 0) as [L|L].
  - exists (r_ret r), l. split; [auto|]. split; [|auto]. unfold holds. rewrite held_snoc. cbn [ev_held].
    rewrite (proj2 (Z.ltb_lt _ _)) by auto. exact H.
  - exists (r_ret r), (r_ret r :: l). split; [auto|]. split.
    + intros x. rewrite held_snoc. cbn [ev_held]. rewrite (proj2 (Z.ltb_ge _ _)) by auto. cbn [In]. rewrite H. tauto.
    + right. split; [auto|]. split; auto. rewrite <- H. eapply ds_open; eauto.
Qed.

Lemma owns_pipe l :
  owns l (sys CPipe) (fun r l' => r_ret r < 0 /\ l' = l \/
    0 <= r_ret r /\ exists a b, r_out r = [a; b] /\ 0 <= a /\ 0 <= b /\ a <> b /\
      ~ In a l /\ ~ In b l /\ l' = a :: b :: l).
Proof.
  intros h H. unfold holds in H. tstep. right. right. right. destruct (Z.ltb_spec (r_ret r) 0) as [L|L].
  - exists r, l. split; [auto|]. split; [|auto]. unfold holds. rewrite held_snoc. cbn [ev_held].
    rewrite (proj2 (Z.ltb_lt _ _)) by auto. exact H.
  - destruct (ds_pipe _ _ H0 L) as (a & b & Eo & A & B & Ne & Ia & Ib).
    exists r, (a :: b :: l). split; [auto|]. split.
    + intros x. rewrite held_snoc. cbn [ev_held]. rewrite (proj2 (Z.ltb_ge _ _)), Eo by auto. cbn [In nth].
      rewrite H. tauto.
    + right. split; [auto|]. exists a, b. rewrite <- !H. auto 9.
Qed.

Lemma owns_exit l {R} n (Q : R -> list Z -> Prop) : 1 <= n <= 7 -> owns l (exit_ n) Q.
Proof. intros B h H. tstep. unfold alive. eauto 6. Qed.

(** A message and an error status. *)
Lemma owns_error l {R} (t : prog unit) n (Q : R -> list Z -> Prop) :
  ends trap t -> 1 <= n <= 7 -> owns l (t ;; exit_ n) Q.
Proof.
  intros T B h H. tstep. eapply twp_mono; [apply T|]. intros [u|s|p a|] h' [A|A]; cbn in A; try discriminate;
    cbn [seqpost]; try tstep; unfold alive; eauto 6.
Qed.

Lemma quits_left {R S} (t : prog R) (k : R -> prog S) : quits t -> quits (ITree.bind t k).
Proof.
  intros T h. tstep. eapply twp_mono; [apply T|]. intros [r|n|p a|] h' A; cbn [seqpost]; auto. discriminate.
Qed.

Lemma owns_fork l {R} (k : Z -> prog R) (Q : R -> list Z -> Prop) :
  quits (k 0) -> (forall pid, pid <> 0 -> owns l (k pid) Q) -> owns l (pid <- sysret CFork ;; k pid) Q.
Proof.
  intros K0 K h H. repeat tstep. destruct (Z.eq_dec (r_ret r) 0) as [Z0|Nz].
  - rewrite Z0. eapply twp_mono; [apply twp_extends, K0|]. intros o h' (Nd & tr & ->). left. split; auto.
    exists ((CFork, r) :: tr), r. rewrite <- app_assoc. split; [auto|]. cbn. auto.
  - eapply twp_mono; [apply K; auto; unfold holds; rewrite held_snoc; exact H|]. unfold alive.
    intros o h2 [((tr2 & r2 & -> & I & Z0) & Nd)|A]; auto. left. split; auto.
    exists ((CFork, r) :: tr2), r2. rewrite <- app_assoc. cbn. auto.
Qed.

Lemma owns_with_child l child rest :
  ends any child -> (forall pid, owns l (rest pid) (fun _ l' => l' = l)) ->
  owns l (with_child fmt_ptr child rest) (fun _ l' => l' = l).
Proof.
  intros C K. apply owns_fork.
  - apply quits_bind; auto using @quits_exit.
  - intros pid Nz. rewrite (proj2 (Z.eqb_neq _ _) Nz). case_if; [apply owns_error; [apply printf_ends|lia]|].
    apply owns_seq; [apply K|]. apply owns_call. split; [plain_tac|reflexivity].
Qed.

(** ** The cases of go *)

Lemma ends_weaken {R} (t : prog R) : ends trap t -> ends any t.
Proof. intros T h. eapply twp_mono; [apply T|]. unfold any. auto. Qed.

Lemma ends_fail2 {R} msg n : ends any (fail2 (R := R) msg n).
Proof. apply quits_ends, quits_bind; [apply ends_weaken, fprintf_ends|intros; apply quits_exit]. Qed.

Ltac ends_tac := repeat lazymatch goal with
  | |- ends _ (Ret _) => apply ends_ret
  | |- ends _ (if _ then _ else _) => case_if
  | |- ends _ (run_call (CExec _ _)) => apply ends_exec
  | |- ends _ (run_call _) => apply ends_call; plain_tac
  | |- ends _ (sysret _) => apply ends_sysret; plain_tac
  | |- ends _ (fail2 _ _) => apply ends_fail2
  | |- ends _ (printf _ _ _) => apply ends_weaken, printf_ends
  | |- ends _ (ITree.bind _ _) => apply ends_bind; [|intros ?]
  end.

Ltac neutral_tac := split; [plain_tac|reflexivity].

(** A neutral call in front, or a test that ends in a message. *)
Ltac owns_step := lazymatch goal with
  | |- owns _ (run_call (CClose _) ;; _) _ => eapply owns_bind; [apply owns_close|intros _ ? ->]
  | |- owns _ (run_call (CClose _)) _ => apply owns_close
  | |- owns _ (run_call _ ;; _) _ => apply owns_seq; [apply owns_call; neutral_tac|]
  | |- owns _ (run_call _) _ => apply owns_call; neutral_tac
  | |- owns _ (ITree.bind (if _ then give_up_with _ _ else Ret tt) _) _ =>
      apply owns_seq; [case_if; [apply owns_error; [apply printf_ends|lia]|apply owns_ret; reflexivity]|]
  | |- owns _ (ITree.bind (if _ then fail2 _ _ else Ret tt) _) _ =>
      apply owns_seq; [case_if; [apply owns_error; [apply fprintf_ends|lia]|apply owns_ret; reflexivity]|]
  | |- owns _ (ITree.bind (if _ then ITree.bind _ (fun _ => exit_ _) else Ret tt) _) _ =>
      apply owns_seq; [case_if; [apply owns_error; [apply printf_ends|lia]|apply owns_ret; reflexivity]|]
  | |- owns _ (ITree.bind (sysret (COpen _ _)) _) _ => eapply owns_bind; [apply owns_open|intros ?r ?l' ?]
  | |- owns _ (ITree.bind (sys CPipe) _) _ => eapply owns_bind; [apply owns_pipe|intros ?r ?l' ?]
  | |- owns ?l (ITree.bind (sysret _) _) _ =>
      eapply owns_bind; [apply (owns_sysret _ _ (fun _ l' => l' = l)); [neutral_tac|reflexivity]|intros ?r ? ->]
  | |- owns ?l (ITree.bind (sys _) _) _ =>
      eapply owns_bind; [apply (owns_sys _ _ (fun _ l' => l' = l)); [neutral_tac|reflexivity]|intros ?r ? ->]
  | |- owns _ (Ret _) _ => apply owns_ret
  end.

Section Cases.
Context (l : list Z) (Nn : Forall (fun x => 0 <= x) l).

Lemma remove_neg x : x < 0 -> List.remove Z.eq_dec x l = l.
Proof.
  intros L. apply notin_remove. intros I. pose proof (proj1 (Forall_forall _ _) Nn _ I). cbn in *. lia.
Qed.

Lemma owns_touch p : owns l (touch p) (fun _ l' => l' = l).
Proof.
  unfold touch. owns_step. destruct H as [(L & ->)|(L & N & ->)].
  - pose proof (owns_close l r) as C. rewrite remove_neg in C by auto. exact C.
  - pose proof (owns_close (r :: l) r) as C. cbn [List.remove] in C.
    destruct (Z.eq_dec r r); [|congruence]. rewrite notin_remove in C by auto. exact C.
Qed.

Lemma owns_files what : owns l (go_files fmt_ptr what) (fun _ l' => l' = l).
Proof.
  unfold go_files. repeat case_if; repeat first [apply owns_touch | owns_step | apply owns_seq; [apply owns_touch|]].
Qed.

Lemma owns_memory what b : owns l (go_memory what b) (fun _ l' => l' = l).
Proof. unfold go_memory. case_if; [owns_step|]. owns_step. case_if; repeat owns_step. reflexivity. Qed.

Lemma owns_forks what : owns l (go_fork fmt_ptr what) (fun _ l' => l' = l).
Proof.
  unfold go_fork, touch. repeat case_if; (apply owns_with_child; [ends_tac|intros pid; repeat owns_step]); reflexivity.
Qed.

Definition same (l' : list Z) : Prop := forall x, In x l' <-> In x l.

(** What is left of two pipe ends and more after closing them. *)
Ltac same_tac := let x := fresh "e" in intros x; rewrite ?remove_iff; cbn [In]; rewrite ?remove_iff; cbn [In];
  intuition (subst; tauto || congruence).

Lemma owns_gopipe : owns l (go_pipe fmt_ptr) (fun _ l' => same l').
Proof.
  unfold go_pipe. owns_step. destruct H as [(L & ->)|(L & a & b & Eo & A & B & Ne & Ia & Ib & ->)].
  - rewrite (proj2 (Z.ltb_lt _ _) L). eapply owns_bind; [apply owns_error; [apply printf_ends|lia]|].
    intros u l' F. exact (False_ind _ F).
  - rewrite (proj2 (Z.ltb_ge _ _) L), Eo. cbn [nth]. apply owns_seq; [apply owns_ret; reflexivity|].
    unfold with_child. apply owns_fork.
    + apply quits_bind; [ends_tac|intros; apply quits_exit].
    + intros pid Nz. rewrite (proj2 (Z.eqb_neq _ _) Nz). case_if; [apply owns_error; [apply printf_ends|lia]|].
      eapply owns_bind; [repeat owns_step|intros _ ? ->].
      eapply owns_mono; [owns_step|intros _ ? ->; same_tac].
Qed.

Lemma owns_create : owns l (go_create fmt_ptr) (fun _ l' => same l').
Proof.
  unfold go_create. owns_step. owns_step. destruct H as [(L & ->)|(L & N & ->)].
  - rewrite (proj2 (Z.ltb_lt _ _) L). eapply owns_bind; [apply owns_error; [apply printf_ends|lia]|].
    intros u l' F. exact (False_ind _ F).
  - do 7 owns_step. owns_step. eapply owns_mono; [owns_step|intros _ ? ->; same_tac].
Qed.

Lemma ends_dup_to fd n st : ends any (dup_to fd n st).
Proof. unfold dup_to. ends_tac. Qed.

Lemma quits_fail2 {R} msg n : quits (fail2 (R := R) msg n).
Proof. apply quits_bind; [apply ends_weaken, fprintf_ends|intros; apply quits_exit]. Qed.

Ltac quits_tac := repeat lazymatch goal with
  | |- quits (fail2 _ _) => apply quits_fail2
  | |- quits (ITree.bind (dup_to _ _ _) _) => apply quits_bind; [apply ends_dup_to|intros ?]
  | |- quits (ITree.bind _ _) => apply quits_bind; [ends_tac|intros ?]
  end.

Lemma quits_echo aa0 aa1 bb0 bb1 : quits (echo_child aa0 aa1 bb0 bb1).
Proof. unfold echo_child. quits_tac. Qed.

Lemma quits_cat aa0 aa1 bb0 bb1 : quits (cat_child aa0 aa1 bb0 bb1).
Proof. unfold cat_child. quits_tac. Qed.

(** The buffer of the pipeline keeps its final NUL, so [strcmp] stays inside it. *)
Lemma owns_read_at l' fd i x y z :
  (i < 3)%nat ->
  owns l' (read_at fd i [x; y; z; 0]) (fun buf l2 => l2 = l' /\ exists x y z, buf = [x; y; z; 0]).
Proof.
  intros I. unfold read_at. owns_step. owns_step. split; auto.
  destruct (delivered r) as [|c t]; [eauto|]. destruct i as [|[|[|i]]]; [| | |lia]; cbn [list_set]; eauto.
Qed.

Lemma strcmp_hi_total x y z : exists c, strcmp_hi [x; y; z; 0] = Some c.
Proof.
  unfold strcmp_hi. cbn [strcmp].
  repeat (case_if; [|eexists; reflexivity]). exfalso. cbn in *. breflect. discriminate.
Qed.

Lemma owns_wait l' st : owns l' (wait_status st) (fun _ l2 => l2 = l').
Proof. unfold wait_status. owns_step. owns_step. reflexivity. Qed.

Lemma owns_pipeline garbage : owns l (go_pipeline fmt_ptr garbage) (fun _ l' => same l').
Proof.
  unfold go_pipeline. owns_step. destruct H as [(L & ->)|(L & a & b & Eo & A & B & Ne & Ia & Ib & ->)].
  { rewrite (proj2 (Z.ltb_lt _ _) L). eapply owns_bind; [apply owns_error; [apply fprintf_ends|lia]|].
    intros u l' F. exact (False_ind _ F). }
  rewrite (proj2 (Z.ltb_ge _ _) L), Eo. cbn [nth]. apply owns_seq; [apply owns_ret; reflexivity|].
  owns_step. destruct H as [(L2 & ->)|(L2 & a' & b' & Eo' & A' & B' & Ne' & Ia' & Ib' & ->)].
  { rewrite (proj2 (Z.ltb_lt _ _) L2). eapply owns_bind; [apply owns_error; [apply fprintf_ends|lia]|].
    intros u l' F. exact (False_ind _ F). }
  rewrite (proj2 (Z.ltb_ge _ _) L2), Eo'. cbn [nth]. apply owns_seq; [apply owns_ret; reflexivity|].
  apply owns_fork; [apply quits_left; cbn; apply quits_echo|]. intros pid1 N1.
  rewrite (proj2 (Z.eqb_neq _ _) N1). owns_step.
  apply owns_fork; [apply quits_left; cbn; apply quits_cat|]. intros pid2 N2.
  rewrite (proj2 (Z.eqb_neq _ _) N2). do 4 owns_step.
  eapply owns_bind; [apply owns_read_at; lia|]. intros buf1 l1 (-> & x & y & z & ->).
  eapply owns_bind; [apply owns_read_at; lia|]. clear x y z. intros buf2 l2 (-> & x & y & z & ->).
  eapply owns_bind; [apply owns_read_at; lia|]. clear x y z. intros buf3 l3 (-> & x & y & z & ->).
  owns_step. do 2 (eapply owns_bind; [apply owns_wait|intros ? ? ->]).
  destruct (strcmp_hi_total x y z) as (c & ->). case_if; [apply owns_error; [apply printf_ends|lia]|].
  apply owns_ret. cbn [In] in Ia', Ib'. same_tac.
Qed.

(** ** One turn *)

(** What [go] holds between turns: [base] and its descriptor [fd]. *)
Definition go_holds (base : list Z) (fd : Z) (l : list Z) : Prop :=
  ~ In fd base /\ forall x, In x l <-> In x base \/ (x = fd /\ 0 <= x).

Lemma owns_reopen p fd base :
  Forall (fun x => 0 <= x) base -> go_holds base fd l ->
  owns l (reopen_fd p fd) (fun r l' => go_holds base r l').
Proof.
  intros Nb (Nf & H). unfold reopen_fd. owns_step. eapply owns_mono; [apply owns_open|].
  intros r l' [(L & ->)|(L & N & ->)].
  - split.
    + intros I. pose proof (proj1 (Forall_forall _ _) Nb _ I). cbn in *. lia.
    + intros x. rewrite remove_iff, H. split; [tauto|]. intros [I|(-> & ?)]; [|lia]. split; [tauto|]. congruence.
  - rewrite remove_iff, H in N. split.
    + intros I. apply N. split; [auto|]. congruence.
    + intros x. cbn [In]. rewrite remove_iff, H. split; [intuition; subst; auto|].
      intros [I|(-> & ?)]; [|auto]. right. split; [auto|]. congruence.
Qed.

Lemma owns_turn which break0 garbage base g :
  Forall (fun x => 0 <= x) base -> go_holds base (g_fd g) l ->
  owns l (go_turn fmt_ptr which break0 garbage g)
    (fun r l' => exists g', r = inl g' /\ go_holds base (g_fd g') l').
Proof.
  intros Nb H. unfold go_turn.
  apply owns_seq; [case_if; [owns_step|apply owns_ret; reflexivity]|].
  destruct (rand (g_rand g)) as (x & rn). cbv zeta. set (what := Z.rem x 23).
  set (it := u64 (g_iters g + 1)).
  assert (Same : forall l' buf, same l' ->
    owns l' (Ret (inl (GState it (g_fd g) rn buf)) : prog (gstate + unit))
      (fun r l2 => exists g', r = inl g' /\ go_holds base (g_fd g') l2)).
  { intros l' buf Sm. apply owns_ret. eexists. split; [reflexivity|]. destruct H as (H1 & H2). split; auto.
    intros y. rewrite (Sm y). apply H2. }
  assert (Re : forall p buf, owns l (fd <- reopen_fd p (g_fd g) ;; Ret (inl (GState it fd rn buf)) : prog (gstate + unit))
    (fun r l2 => exists g', r = inl g' /\ go_holds base (g_fd g') l2)).
  { intros p buf. eapply owns_bind; [apply (owns_reopen p _ base); auto|]. intros r l' H'. apply owns_ret.
    eexists. split; [reflexivity|]. exact H'. }
  assert (Sl : same l) by (intros y; tauto).
  case_if; [apply owns_seq; [apply owns_files|auto]|]. case_if; [apply Re|]. case_if; [apply Re|].
  case_if; [owns_step; auto|]. case_if; [owns_step; auto|].
  case_if; [apply owns_seq; [apply owns_memory|auto]|]. case_if; [apply owns_seq; [apply owns_forks|auto]|].
  case_if; [eapply owns_bind; [apply owns_gopipe|auto]|].
  case_if; [eapply owns_bind; [apply owns_create|auto]|].
  case_if; [eapply owns_bind; [apply owns_pipeline|auto]|]. auto.
Qed.
End Cases.
End Owned.

(** a turn of the loop of [go] (grind.c), in any of its 23 cases, always ends
    and leaks no descriptor: when it returns, the process holds what it held
    before, with its own [fd] replaced; otherwise it is a process that the turn has
    forked and that has ended, or it has ended with a message and a status from
    1 to 7, or in the trap of a message that could not be written. *)
Theorem go_turn_no_leak E l0 (D : Descriptors E l0) fmt_ptr which break0 garbage base g h :
  Forall (fun x => 0 <= x) base -> go_holds base (g_fd g) (held l0 h) ->
  twp E (fun o h' =>
      child_since h h' /\ is_done o = false \/ o = Trapped \/
      (exists n, o = Exited n /\ 1 <= n <= 7) \/
      exists g', o = Done (inl g') /\ go_holds base (g_fd g') (held l0 h'))
    h (go_turn fmt_ptr which break0 garbage g).
Proof.
  intros Nb H. assert (Nn : Forall (fun x => 0 <= x) (held l0 h)).
  { apply Forall_forall. intros x I. destruct H as (_ & H). apply H in I as [I|(_ & P)]; auto.
    apply (proj1 (Forall_forall _ _) Nb _ I). }
  eapply twp_mono; [apply (owns_turn E l0 D fmt_ptr (held l0 h) Nn which break0 garbage base g Nb H)|].
  - intros x. tauto.
  - intros o h' [A|[A|[A|(r & l & -> & Hl & g' & -> & Hf & Hi)]]]; auto. right. right. right.
    exists g'. split; [auto|]. split; auto. intros x. rewrite (Hl x). apply Hi.
Qed.

(** * Witnesses *)

Lemma do_rand_minimal_witness : do_rand 30 = 521016 /\ 0 <= do_rand 30 < M31 - 1.
Proof. split; [reflexivity|]. apply (do_rand_minimal 30). lia. Defined.

(** An environment that gives out free descriptors only. *)
Definition fresh_env (l0 : list Z) : env := fun h c r =>
  match c with
  | COpen _ _ => 0 <= r_ret r -> ~ In (r_ret r) (held l0 h)
  | CPipe => 0 <= r_ret r -> exists a b, r_out r = [a; b] /\ 0 <= a /\ 0 <= b /\ a <> b /\
      ~ In a (held l0 h) /\ ~ In b (held l0 h)
  | _ => True
  end.

#[export] Instance fresh_env_descriptors l0 : Descriptors (fresh_env l0) l0.
Proof. split; cbn; auto. Qed.

Lemma go_turn_no_leak_witness :
  go_holds [0; 1; 2] (-1) (held [0; 1; 2] []) /\
  twp (fresh_env [0; 1; 2]) (fun o h' => o = Trapped \/ is_done o = false \/
      exists g', o = Done (inl g') /\ go_holds [0; 1; 2] (g_fd g') (held [0; 1; 2] h'))
    [] (go_turn (fun _ => []) 0 8192 0 (GState 0 (-1) 30 (repeat 0 999))).
Proof.
  assert (H : go_holds [0; 1; 2] (-1) (held [0; 1; 2] [])).
  { split; [cbn; intuition lia|]. intros x. cbn. intuition lia. }
  split; [exact H|].
  eapply twp_mono; [apply (go_turn_no_leak _ _ (fresh_env_descriptors [0; 1; 2]) (fun _ => []) 0 8192 0
    [0; 1; 2] (GState 0 (-1) 30 (repeat 0 999)) [])|].
  - repeat constructor; discriminate.
  - exact H.
  - intros o h' [(_ & A)|[A|[(n & -> & _)|A]]]; auto.
Defined.
