(* ===== verification/Kmem.v ===== *)
(** Kernel memory: the page allocator, page tables and the memory of a process:
    src/kernel/memory/allocation.zig, virtual_memory.zig, user_memory.zig,
    address.zig, pages.zig, and the growth of a process in process.zig.

    A page is named by its physical address.  A page table is its root page and
    the valid entries of its three levels, each by the path that leads to it: an
    entry of the root by VPN[2], one of a middle table by VPN[2..1], a leaf by the
    whole page number.  The contents of pages are not modelled.  An operation
    gives a result, an error or a panic of the kernel, and the new state. *)

From stdpp Require Import base gmap list.
From S2P Require Import Prelude.

Local Open Scope Z_scope.

(** * Addresses: address.zig, pages.zig, layout.zig *)

Definition page_size : Z := 4096.
Definition max_virtual_address : Z := 2 ^ 38.
Definition trampoline_virtual_address : Z := max_virtual_address - page_size.
Definition trapframe_virtual_address : Z := trampoline_virtual_address - page_size.

Definition pageRoundDown (v : Z) : Z := Z.ldiff v (page_size - 1).
Definition pageRoundUp (v : Z) : Z :=
  if Z.land v (page_size - 1) =? 0 then v else Z.ldiff (u64 (v + page_size - 1)) (page_size - 1).
Definition pageOffset (v : Z) : Z := Z.land v (page_size - 1).
Definition isPageAligned (v : Z) : bool := pageOffset v =? 0.
Definition isOutOfRange (v : Z) : bool := max_virtual_address <=? v.

Definition pageIndex (v level : Z) : Z := Z.land (Z.shiftr v (12 + 9 * level)) 511.

Definition coveringPages (v len : Z) : Z :=
  (pageRoundDown (u64 (v + len - 1)) - pageRoundDown v) / page_size + 1.

(** * Results *)

Variant kerr : Type :=
| OutOfMemory | AlreadyMappedPage | CantMapZeroSize | InvalidVirtualAddress
| OutOfRange | NotValidPage | NotUserPage.

Variant res (A : Type) : Type := Ok (a : A) | Err (e : kerr) | Panic.
Arguments Ok {A}. Arguments Err {A}. Arguments Panic {A}.

(** * The page allocator: allocation.zig *)

Definition allocPage (fl : list Z) : option (Z * list Z) :=
  match fl with
  | [] => None
  | p :: fl => Some (p, fl)
  end.

Section Kernel.
(** The first address after the kernel, and the end of memory. *)
Context (kernel_end physical_stop : Z).

Definition freePage (fl : list Z) (page : Z) : option (list Z) :=
  if (page <? kernel_end) || negb (page <? physical_stop) then None else Some (page :: fl).

(** * Page tables: virtual_memory.zig *)

Record perms : Type := Perms { p_read : bool; p_write : bool; p_execute : bool }.
Definition isBranch (p : perms) : bool := negb (p_read p || p_write p || p_execute p).

Record pte : Type := Pte { pte_page : Z; pte_perms : perms; pte_user : bool }.

Record ptable : Type := PTable {
  pt_root : Z;
  pt_mids : gmap Z Z;       (* VPN[2] -> middle table *)
  pt_lows : gmap Z Z;       (* VPN[2..1] -> lowest table *)
  pt_leaves : gmap Z pte;   (* VPN[2..0] -> page *)
}.

(** The paths of [walk] to the entries of an address. *)
Definition path2 (v : Z) : Z := pageIndex v 2.
Definition path1 (v : Z) : Z := path2 v * 512 + pageIndex v 1.
Definition path0 (v : Z) : Z := path1 v * 512 + pageIndex v 0.

Record vm : Type := Vm { fl : list Z; pt : ptable }.

Definition set_leaf (s : vm) (k : Z) (e : pte) : vm :=
  Vm (fl s) (PTable (pt_root (pt s)) (pt_mids (pt s)) (pt_lows (pt s)) (<[k := e]> (pt_leaves (pt s)))).
Definition clear_leaf (s : vm) (k : Z) : vm :=
  Vm (fl s) (PTable (pt_root (pt s)) (pt_mids (pt s)) (pt_lows (pt s)) (delete k (pt_leaves (pt s)))).

(** One level of [walk]: the entry is valid, or a table is allocated for it. *)
Definition walk_mid (doAlloc : bool) (s : vm) (k : Z) : res unit * vm :=
  match pt_mids (pt s) !! k with
  | Some _ => (Ok tt, s)
  | None =>
      if negb doAlloc then (Err InvalidVirtualAddress, s)
      else match allocPage (fl s) with
           | None => (Err OutOfMemory, s)
           | Some (p, fl') =>
               (Ok tt, Vm fl' (PTable (pt_root (pt s)) (<[k := p]> (pt_mids (pt s))) (pt_lows (pt s)) (pt_leaves (pt s))))
           end
  end.

Definition walk_low (doAlloc : bool) (s : vm) (k : Z) : res unit * vm :=
  match pt_lows (pt s) !! k with
  | Some _ => (Ok tt, s)
  | None =>
      if negb doAlloc then (Err InvalidVirtualAddress, s)
      else match allocPage (fl s) with
           | None => (Err OutOfMemory, s)
           | Some (p, fl') =>
               (Ok tt, Vm fl' (PTable (pt_root (pt s)) (pt_mids (pt s)) (<[k := p]> (pt_lows (pt s))) (pt_leaves (pt s))))
           end
  end.

(** The path of the leaf entry. *)
Definition walk (doAlloc : bool) (s : vm) (v : Z) : res Z * vm :=
  if isOutOfRange v then (Panic, s)
  else
    match walk_mid doAlloc s (path2 v) with
    | (Ok _, s) =>
        match walk_low doAlloc s (path1 v) with
        | (Ok _, s) => (Ok (path0 v), s)
        | (Err e, s) => (Err e, s)
        | (Panic, s) => (Panic, s)
        end
    | (Err e, s) => (Err e, s)
    | (Panic, s) => (Panic, s)
    end.

(** [map] from page [i] on, with [n] pages to go. *)
Fixpoint map_loop (n : nat) (i : Z) (s : vm) (v pa : Z) (p : perms) (user : bool) : res unit * vm :=
  match n with
  | O => (Ok tt, s)
  | S n =>
      let offset := i * page_size in
      match walk true s (u64 (v + offset)) with
      | (Ok k, s) =>
          match pt_leaves (pt s) !! k with
          | Some _ => (Err AlreadyMappedPage, s)
          | None => map_loop n (i + 1) (set_leaf s k (Pte (pageRoundDown (u64 (pa + offset))) p user)) v pa p user
          end
      | (Err e, s) => (Err e, s)
      | (Panic, s) => (Panic, s)
      end
  end.

Definition map (s : vm) (v pa size : Z) (p : perms) (user : bool) : res unit * vm :=
  if size =? 0 then (Err CantMapZeroSize, s)
  else map_loop (Z.to_nat (coveringPages v size)) 0 s v pa p user.

Fixpoint unmap_loop (n : nat) (i : Z) (s : vm) (v : Z) (doFree : bool) : res unit * vm :=
  match n with
  | O => (Ok tt, s)
  | S n =>
      match walk false s (u64 (v + page_size * i)) with
      | (Ok k, s) =>
          match pt_leaves (pt s) !! k with
          | None => (Panic, s)
          | Some e =>
              if isBranch (pte_perms e) then (Panic, s)
              else if doFree then
                match freePage (fl s) (pte_page e) with
                | None => (Panic, s)
                | Some fl' => unmap_loop n (i + 1) (clear_leaf (Vm fl' (pt s)) k) v doFree
                end
              else unmap_loop n (i + 1) (clear_leaf s k) v doFree
          end
      | (_, s) => (Panic, s)
      end
  end.

Definition unmap (s : vm) (start n : Z) (doFree : bool) : res unit * vm :=
  if negb (isPageAligned start) then (Panic, s)
  else unmap_loop (Z.to_nat n) 0 s start doFree.

(** * The memory of a process: user_memory.zig *)

Definition translateAddress (s : vm) (v : Z) : res Z :=
  if isOutOfRange v then Err OutOfRange
  else
    match walk false s v with
    | (Ok k, _) =>
        match pt_leaves (pt s) !! k with
        | None => Err NotValidPage
        | Some e => if negb (pte_user e) then Err NotUserPage else Ok (pte_page e)
        end
    | (Err e, _) => Err e
    | (Panic, _) => Panic
    end.

Definition dealloc (s : vm) (oldSize newSize : Z) : res Z * vm :=
  if oldSize <=? newSize then (Ok oldSize, s)
  else
    let newAligned := pageRoundUp newSize in
    let oldAligned := pageRoundUp oldSize in
    if newAligned <? oldAligned then
      match unmap s newAligned ((oldAligned - newAligned) / page_size) true with
      | (Ok _, s) => (Ok newSize, s)
      | (_, s) => (Panic, s)   (* unmap returns or panics *)
      end
    else (Ok newSize, s).

(** The loop of [alloc]; on an error what has been allocated is given back. *)
Definition alloc_undo (s : vm) (cur oldSize : Z) (e : kerr) : res Z * vm :=
  match dealloc s cur oldSize with
  | (Panic, s) => (Panic, s)
  | (_, s) => (Err e, s)
  end.

Fixpoint alloc_loop (fuel : nat) (s : vm) (cur oldSize newSize : Z) (p : perms) : res Z * vm :=
  match fuel with
  | O => (Panic, s)
  | S fuel =>
      if cur <? newSize then
        match allocPage (fl s) with
        | None => alloc_undo s cur oldSize OutOfMemory
        | Some (page, fl') =>
            match map (Vm fl' (pt s)) cur page page_size p true with
            | (Ok _, s) => alloc_loop fuel s (u64 (cur + page_size)) oldSize newSize p
            | (Err e, s) =>
                match freePage (fl s) page with
                | None => (Panic, s)
                | Some fl' => alloc_undo (Vm fl' (pt s)) cur oldSize e
                end
            | (Panic, s) => (Panic, s)
            end
        end
      else (Ok newSize, s)
  end.

(** Enough turns for the pages between the two sizes. *)
Definition alloc (s : vm) (oldSize newSize : Z) (p : perms) : res Z * vm :=
  if newSize <? oldSize then (Ok oldSize, s)
  else alloc_loop (S (Z.to_nat ((newSize - oldSize) / page_size + 1))) s (pageRoundUp oldSize) oldSize newSize p.

(** * Growing and shrinking a process: changeProcessSize, sys_sbrk *)

Record proc : Type := Proc { p_size : Z; p_vm : vm }.

Definition rw : perms := Perms true true false.

(** [None] for the error of [changeProcessSize]. *)
Definition changeProcessSize (p : proc) (diff : Z) : res (option unit) * proc :=
  let old := p_size p in
  if 0 <? diff then
    if (trapframe_virtual_address <=? old) || (trapframe_virtual_address - old <? diff) then (Ok None, p)
    else
      match alloc (p_vm p) old (old + diff) rw with
      | (Ok n, s) => (Ok (Some tt), Proc n s)
      | (Err _, s) => (Ok None, Proc old s)
      | (Panic, s) => (Panic, Proc old s)
      end
  else if diff <? 0 then
    match dealloc (p_vm p) old (u64 (old - Z.abs diff)) with
    | (Ok n, s) => (Ok (Some tt), Proc n s)
    | (_, s) => (Panic, Proc old s)
    end
  else (Ok (Some tt), p).

(** The value in a0: -1, or the old size. *)
Definition sys_sbrk (p : proc) (n : Z) : res Z * proc :=
  match changeProcessSize p (s64 n) with
  | (Ok (Some _), p') => (Ok (p_size p), p')
  | (Ok None, p') => (Ok (-1), p')
  | (Err e, p') => (Err e, p')
  | (Panic, p') => (Panic, p')
  end.
End Kernel.
