(* ===== verification/KmemSpec.v ===== *)
(** What kernel memory promises: growing a process maps fresh pages or undoes
    everything, no page is lost or used twice, and sbrk meets the contract that
    the allocator of user programs relies on. *)

From S2P Require Import Prelude.
From stdpp Require Import base gmap list.
From S2P Require Import Kmem.

Local Open Scope Z_scope.

(** * Addresses of whole pages *)

Definition pages_max : Z := 2 ^ 26.

Lemma ldiff_4095 v : Z.ldiff v (page_size - 1) = v / 4096 * 4096.
Proof.
  change (page_size - 1) with (Z.ones 12). rewrite Z.ldiff_ones_r by lia.
  rewrite Z.shiftl_mul_pow2, Z.shiftr_div_pow2 by lia. reflexivity.
Qed.

Lemma land_4095 v : Z.land v (page_size - 1) = v mod 4096.
Proof. change (page_size - 1) with (Z.ones 12). rewrite Z.land_ones by lia. reflexivity. Qed.

Lemma pageRoundUp_eq v : 0 <= v < 2 ^ 63 -> pageRoundUp v = (v + 4095) / 4096 * 4096.
Proof.
  intros B. unfold pageRoundUp. rewrite land_4095, ldiff_4095. change page_size with 4096.
  rewrite u64_small by lia. destruct (Z.eqb_spec (v mod 4096) 0) as [E|E]; [|f_equal; f_equal; lia].
  pose proof (Z.div_mod v 4096 ltac:(lia)). rewrite E in H.
  replace (v + 4095) with (v / 4096 * 4096 + 4095) by lia. rewrite Z.div_add_l by lia. change (4095 / 4096) with 0. lia.
Qed.

Lemma pageRoundUp_page k : 0 <= k < pages_max -> pageRoundUp (4096 * k) = 4096 * k.
Proof.
  unfold pages_max. intros B. rewrite pageRoundUp_eq by lia.
  replace (4096 * k + 4095) with (k * 4096 + 4095) by lia. rewrite Z.div_add_l by lia. change (4095 / 4096) with 0. lia.
Qed.

Lemma pageIndex_eq k level :
  0 <= k -> 0 <= level -> pageIndex (4096 * k) level = (k / 2 ^ (9 * level)) mod 512.
Proof.
  intros K L. unfold pageIndex. change 511 with (Z.ones 9). rewrite Z.land_ones by lia.
  change (2 ^ 9) with 512. rewrite Z.shiftr_div_pow2 by lia. rewrite Z.pow_add_r by lia.
  change (2 ^ 12) with 4096. rewrite Z.div_mul_cancel_l by lia. reflexivity.
Qed.

Lemma paths k :
  0 <= k < pages_max ->
  path2 (4096 * k) = k / 262144 /\ path1 (4096 * k) = k / 512 /\ path0 (4096 * k) = k.
Proof.
  unfold pages_max. intros B. unfold path0, path1, path2. rewrite !pageIndex_eq by lia.
  change (2 ^ (9 * 2)) with 262144. change (2 ^ (9 * 1)) with 512. change (2 ^ (9 * 0)) with 1.
  rewrite Z.div_1_r. pose proof (Z.div_div k 512 512 ltac:(lia) ltac:(lia)) as D. change (512 * 512) with 262144 in D.
  assert (Bq : 0 <= k / 262144 < 512) by (split; [apply Z.div_pos; lia|apply Z.div_lt_upper_bound; lia]).
  rewrite (Z.mod_small (k / 262144)) by lia. rewrite <- D in *.
  pose proof (Z.div_mod (k / 512) 512 ltac:(lia)). pose proof (Z.div_mod k 512 ltac:(lia)). lia.
Qed.

Lemma covering_page k : 0 <= k < pages_max -> coveringPages (4096 * k) page_size = 1.
Proof.
  unfold pages_max. intros B. unfold coveringPages, pageRoundDown. rewrite !ldiff_4095. change page_size with 4096.
  rewrite u64_small by lia. replace (4096 * k + 4096 - 1) with (k * 4096 + 4095) by lia.
  rewrite Z.div_add_l by lia. change (4095 / 4096) with 0. rewrite (Z.mul_comm 4096 k), Z.div_mul by lia.
  replace ((k + 0) * 4096 - k * 4096) with 0 by lia. reflexivity.
Qed.

Lemma round_down_page k : 0 <= k -> pageRoundDown (4096 * k) = 4096 * k.
Proof. intros B. unfold pageRoundDown. rewrite ldiff_4095, (Z.mul_comm 4096 k), Z.div_mul by lia. lia. Qed.

(** * Conservation of pages *)

Definition tables (t : ptable) : list Z :=
  pt_root t :: (map_to_list (pt_mids t)).*2 ++ (map_to_list (pt_lows t)).*2.

(** [s'] comes from [s] by turning free pages into tables. *)
Record grows (s s' : vm) : Prop := {
  gr_pages : fl s ++ tables (pt s) ≡ₚ fl s' ++ tables (pt s');
  gr_mids : pt_mids (pt s) ⊆ pt_mids (pt s');
  gr_lows : pt_lows (pt s) ⊆ pt_lows (pt s');
}.

Lemma grows_refl s : grows s s.
Proof. split; auto. Qed.

Lemma grows_trans s s' s'' : grows s s' -> grows s' s'' -> grows s s''.
Proof. intros [A B C] [A' B' C']. split; etrans; eauto. Qed.

Lemma walk_mid_spec s k :
  exists s', grows s s' /\ pt_leaves (pt s') = pt_leaves (pt s) /\
    (walk_mid true s k = (Ok tt, s') /\ is_Some (pt_mids (pt s') !! k) \/
     walk_mid true s k = (Err OutOfMemory, s') /\ s' = s).
Proof.
  unfold walk_mid. destruct (pt_mids (pt s) !! k) as [p|] eqn:L; [exists s; split; [apply grows_refl|]; eauto|].
  cbn [negb]. destruct s as [[|p fl'] t]; cbn in *; [eexists; split; [apply grows_refl|]; eauto|].
  eexists. split; [|split; [|left; split; [reflexivity|]]]; cbn; [|reflexivity|rewrite lookup_insert_eq; eauto].
  split; cbn; [|apply insert_subseteq; auto|auto]. unfold tables. cbn. rewrite map_to_list_insert by auto. cbn.
  solve_Permutation.
Qed.

Lemma walk_low_spec s k :
  exists s', grows s s' /\ pt_leaves (pt s') = pt_leaves (pt s) /\
    (walk_low true s k = (Ok tt, s') /\ is_Some (pt_lows (pt s') !! k) \/
     walk_low true s k = (Err OutOfMemory, s') /\ s' = s).
Proof.
  unfold walk_low. destruct (pt_lows (pt s) !! k) as [p|] eqn:L; [exists s; split; [apply grows_refl|]; eauto|].
  cbn [negb]. destruct s as [[|p fl'] t]; cbn in *; [eexists; split; [apply grows_refl|]; eauto|].
  eexists. split; [|split; [|left; split; [reflexivity|]]]; cbn; [|reflexivity|rewrite lookup_insert_eq; eauto].
  split; cbn; [|auto|apply insert_subseteq; auto]. unfold tables. cbn. rewrite map_to_list_insert by auto. cbn.
  solve_Permutation.
Qed.

Section Kernel.
Context (kernel_end physical_stop : Z).

(** ** Well-formed page tables *)

(** A mapped page is below the end of the address space and its tables exist;
    tables and free pages are pages of memory. *)
Record wf (s : vm) : Prop := {
  wf_leaves k e : pt_leaves (pt s) !! k = Some e ->
    0 <= k < pages_max /\ is_Some (pt_mids (pt s) !! (k / 262144)) /\ is_Some (pt_lows (pt s) !! (k / 512));
  wf_pages p : p ∈ fl s ++ tables (pt s) -> kernel_end <= p < physical_stop /\ 4096 * (p / 4096) = p;
}.

Lemma wf_grows s s' : wf s -> grows s s' -> pt_leaves (pt s') = pt_leaves (pt s) -> wf s'.
Proof.
  intros [W1 W2] [P M L] E. split.
  - intros k e. rewrite E. intros H. destruct (W1 k e H) as (B & [x Hx] & [y Hy]).
    split; [auto|]. split; eexists; eapply lookup_weaken; eauto.
  - intros p. rewrite <- P. apply W2.
Qed.

Lemma walk_alloc_spec s k :
  0 <= k < pages_max ->
  exists s', grows s s' /\ pt_leaves (pt s') = pt_leaves (pt s) /\
    (walk true s (4096 * k) = (Err OutOfMemory, s') \/
     walk true s (4096 * k) = (Ok k, s') /\
       is_Some (pt_mids (pt s') !! (k / 262144)) /\ is_Some (pt_lows (pt s') !! (k / 512))).
Proof.
  intros B. destruct (paths k B) as (P2 & P1 & P0). unfold walk. rewrite P2, P1, P0.
  unfold isOutOfRange, max_virtual_address. rewrite (proj2 (Z.leb_gt _ _)) by (unfold pages_max in B; lia).
  destruct (walk_mid_spec s (k / 262144)) as (s1 & G1 & E1 & [(-> & M1)|(-> & ->)]); [|eauto].
  destruct (walk_low_spec s1 (k / 512)) as (s2 & G2 & E2 & [(-> & M2)|(-> & ->)]).
  - exists s2. split; [eapply grows_trans; eauto|]. split; [congruence|]. right. split; [auto|]. split; auto.
    destruct M1 as [x Hx]. eexists. eapply lookup_weaken; [exact Hx|apply G2].
  - exists s1. auto.
Qed.

Lemma walk_present s k e :
  wf s -> pt_leaves (pt s) !! k = Some e -> walk false s (4096 * k) = (Ok k, s).
Proof.
  intros [W _] H. destruct (W _ _ H) as (B & [x Hx] & [y Hy]). destruct (paths k B) as (P2 & P1 & P0).
  unfold walk. rewrite P2, P1, P0. unfold isOutOfRange, max_virtual_address.
  rewrite (proj2 (Z.leb_gt _ _)) by (unfold pages_max in B; lia).
  unfold walk_mid, walk_low. rewrite Hx, Hy. reflexivity.
Qed.

(** ** Mapping one page *)

Lemma map_page s k p pm user :
  wf s -> 0 <= k < pages_max -> 0 <= p < 2 ^ 63 -> 4096 * (p / 4096) = p ->
  exists s1, grows s s1 /\ pt_leaves (pt s1) = pt_leaves (pt s) /\
    ((exists e, map s (4096 * k) p page_size pm user = (Err e, s1)) \/
     pt_leaves (pt s) !! k = None /\
     map s (4096 * k) p page_size pm user = (Ok tt, set_leaf s1 k (Pte p pm user)) /\
     wf (set_leaf s1 k (Pte p pm user))).
Proof.
  intros W B Bp Al. unfold map. change (page_size =? 0) with false. cbn [negb].
  rewrite covering_page by auto. change (Z.to_nat 1) with 1%nat. cbn [map_loop].
  change (0 * page_size) with 0. rewrite !Z.add_0_r. rewrite !u64_small by (unfold pages_max in B; lia).
  destruct (walk_alloc_spec s k B) as (s1 & G & E & [->|(-> & M1 & M2)]); [exists s1; eauto 6|].
  exists s1. split; [auto|]. split; [auto|]. rewrite E. destruct (pt_leaves (pt s) !! k) as [e|] eqn:Lk; [eauto|].
  right. split; [auto|]. assert (Rp : pageRoundDown p = p) by (rewrite <- Al at 1; rewrite round_down_page; lia).
  rewrite Rp. split; [reflexivity|]. pose proof (wf_grows s s1 W G E) as [W1 W2]. split; cbn; [|exact W2].
  intros j e. destruct (decide (j = k)) as [->|Ne]; [auto|]. rewrite lookup_insert_ne by auto. apply W1.
Qed.

(** ** Runs of pages *)

(** [ps] mapped from page [k] on. *)
Fixpoint put (k : Z) (ps : list Z) (pm : perms) (m : gmap Z pte) : gmap Z pte :=
  match ps with
  | [] => m
  | p :: ps => <[k := Pte p pm true]> (put (k + 1) ps pm m)
  end.

Lemma put_lookup k ps pm m j :
  put k ps pm m !! j =
  if decide (k <= j < k + Z.of_nat (length ps)) then
    match ps !! Z.to_nat (j - k) with Some p => Some (Pte p pm true) | None => None end
  else m !! j.
Proof.
  revert k. induction ps as [|p ps IH]; intros k; cbn [put length].
  - rewrite decide_False by lia. reflexivity.
  - destruct (decide (k = j)) as [->|Ne].
    + rewrite lookup_insert_eq, decide_True by lia. replace (j - j) with 0 by lia. reflexivity.
    + rewrite lookup_insert_ne, IH by auto. destruct (decide (k + 1 <= j < _)).
      * rewrite decide_True by lia. replace (Z.to_nat (j - k)) with (S (Z.to_nat (j - (k + 1)))) by lia. reflexivity.
      * rewrite decide_False by lia. reflexivity.
Qed.

Lemma put_snoc k ps p pm m :
  put k (ps ++ [p]) pm m = <[k + Z.of_nat (length ps) := Pte p pm true]> (put k ps pm m).
Proof.
  apply map_eq. intros j. destruct (decide (k + Z.of_nat (length ps) = j)) as [<-|Ne].
  - rewrite lookup_insert_eq, put_lookup, length_app. cbn [length]. rewrite decide_True by lia.
    replace (Z.to_nat _) with (length ps + 0)%nat by lia. rewrite lookup_app_r by lia.
    replace (length ps + 0 - length ps)%nat with 0%nat by lia. reflexivity.
  - rewrite lookup_insert_ne, !put_lookup, length_app by auto. cbn [length].
    destruct (decide (k <= j < k + Z.of_nat (length ps))).
    + rewrite decide_True by lia. rewrite lookup_app_l by lia. reflexivity.
    + rewrite decide_False by lia. reflexivity.
Qed.

(** Unmapping a run gives its pages back. *)
Lemma unmap_run ps : forall i k s m pm,
  wf s -> pt_leaves (pt s) = put (k + i) ps pm m -> isBranch pm = false -> 0 <= k -> 0 <= i ->
  (forall j, k + i <= j < k + i + Z.of_nat (length ps) -> m !! j = None) ->
  (forall p, p ∈ ps -> kernel_end <= p < physical_stop /\ 4096 * (p / 4096) = p) ->
  exists s', unmap_loop kernel_end physical_stop (length ps) i s (4096 * k) true = (Ok tt, s') /\
    fl s' = rev ps ++ fl s /\ pt_leaves (pt s') = m /\ tables (pt s') = tables (pt s) /\
    pt_mids (pt s') = pt_mids (pt s) /\ pt_lows (pt s') = pt_lows (pt s).
Proof.
  induction ps as [|p ps IH]; intros i k s m pm W E Br K I Nm R; cbn [length unmap_loop].
  { exists s. cbn in *. auto 8. }
  assert (Lk : pt_leaves (pt s) !! (k + i) = Some (Pte p pm true)) by (rewrite E; cbn [put]; apply lookup_insert_eq).
  destruct (wf_leaves _ W _ _ Lk) as (B & _). change page_size with 4096.
  rewrite u64_small by (unfold pages_max in B; lia). replace (4096 * k + 4096 * i) with (4096 * (k + i)) by lia.
  rewrite (walk_present _ _ _ W Lk), Lk. cbn [pte_perms pte_page]. rewrite Br.
  assert (Rp : kernel_end <= p < physical_stop) by (apply R; left).
  unfold freePage. rewrite (proj2 (Z.ltb_ge p kernel_end)), (proj2 (Z.ltb_lt p physical_stop)) by lia. cbn [orb negb].
  destruct (IH (i + 1) k (clear_leaf (Vm (p :: fl s) (pt s)) (k + i)) m pm) as (s' & Eq & Fl & Lv & Tb & Md & Lw);
    auto; try lia.
  - destruct W as [W1 W2]. split; cbn.
    + intros j e Hj. destruct (decide (j = k + i)) as [->|Ne]; [rewrite lookup_delete_eq in Hj; discriminate|].
      rewrite lookup_delete_ne in Hj by auto. eauto.
    + intros q [->|Hq]%elem_of_cons; [apply R; left|]. apply W2. exact Hq.
  - cbn. rewrite E. cbn [put]. replace (k + (i + 1)) with (k + i + 1) by lia. apply delete_insert_id.
    rewrite put_lookup, decide_False by lia. apply Nm. cbn. lia.
  - intros j Bj. apply Nm. cbn [length]. lia.
  - intros q Hq. apply R. right. exact Hq.
  - exists s'. split; [exact Eq|]. rewrite Fl. cbn. rewrite <- app_assoc. auto 8.
Qed.

(** ** Growing *)

Definition in_memory (p : Z) : Prop := kernel_end <= p < physical_stop /\ 4096 * (p / 4096) = p.

Lemma unrun_wf s s' k0 news pm m :
  wf s -> pt_leaves (pt s) = put k0 news pm m ->
  (forall j, k0 <= j < k0 + Z.of_nat (length news) -> m !! j = None) ->
  (forall p, p ∈ news -> in_memory p) -> fl s' = rev news ++ fl s -> pt_leaves (pt s') = m ->
  tables (pt s') = tables (pt s) -> pt_mids (pt s') = pt_mids (pt s) -> pt_lows (pt s') = pt_lows (pt s) ->
  wf s'.
Proof.
  intros W L Fr R Fl Lv Tb Md Lw. split; [intros k e H|intros q].
  - rewrite Md, Lw. apply (wf_leaves s W k e). rewrite L, put_lookup. rewrite Lv in H.
    rewrite decide_False; [exact H|]. intros Bk. rewrite (Fr k Bk) in H. discriminate.
  - rewrite Fl, Tb, !elem_of_app. intros [[H|H]|H];
      [apply R; rewrite <- elem_of_reverse; unfold reverse; rewrite rev_append_rev, app_nil_r; exact H| |];
      apply (wf_pages s W), elem_of_app; auto.
Qed.

Section Grow.
Context (pages0 : list Z) (m0 : gmap Z pte) (old new k0 : Z) (pm : perms).
Context (Br : isBranch pm = false) (Old : 0 <= old < 2 ^ 62) (Ru : pageRoundUp old = 4096 * k0).
Context (K0 : 0 <= k0) (New : new <= 4096 * (pages_max - 2)) (Stop : 0 <= kernel_end /\ physical_stop <= 2 ^ 63).

(** [news] have been mapped from page [k0] on; with them nothing is lost. *)
Record grown (news : list Z) (s : vm) : Prop := {
  gn_wf : wf s;
  gn_leaves : pt_leaves (pt s) = put k0 news pm m0;
  gn_free j : k0 <= j < k0 + Z.of_nat (length news) -> m0 !! j = None;
  gn_news p : p ∈ news -> in_memory p;
  gn_pages : pages0 ≡ₚ news ++ fl s ++ tables (pt s);
}.

Lemma free_in_memory s p : wf s -> p ∈ fl s -> in_memory p.
Proof. intros [_ W] H. apply W, elem_of_app. auto. Qed.

Lemma freePage_ok l p : in_memory p -> freePage kernel_end physical_stop l p = Some (p :: l).
Proof.
  intros [R _]. unfold freePage. rewrite (proj2 (Z.ltb_ge _ _)), (proj2 (Z.ltb_lt _ _)) by lia. reflexivity.
Qed.

Lemma undo_spec s news e :
  grown news s -> k0 + Z.of_nat (length news) < pages_max ->
  exists s', alloc_undo kernel_end physical_stop s (4096 * (k0 + Z.of_nat (length news))) old e = (Err e, s') /\
    grown [] s'.
Proof.
  intros [W L Fr R P] B. unfold alloc_undo, dealloc. rewrite Ru.
  assert (Same : news = [] -> grown [] s).
  { intros ->. split; auto. }
  destruct (Z.leb_spec (4096 * (k0 + Z.of_nat (length news))) old) as [Le|Lt].
  { assert (news = []) as ->; [|eexists; split; [reflexivity|auto]].
    rewrite pageRoundUp_eq in Ru by lia. destruct news; auto. exfalso. cbn [length] in Le. clear - Le Ru Old.
    Z.to_euclidean_division_equations. lia. }
  rewrite pageRoundUp_page by lia. destruct (Z.ltb_spec (4096 * k0) (4096 * (k0 + Z.of_nat (length news)))) as [Lt'|Ge].
  2:{ assert (news = []) as -> by (destruct news; auto; exfalso; cbn [length] in Ge; clear - Ge; lia). eexists. split; [reflexivity|auto]. }
  unfold unmap, isPageAligned, pageOffset. rewrite land_4095, (Z.mul_comm 4096 k0), Z.mod_mul by lia. cbn [negb].
  change (0 =? 0) with true. cbn [negb]. change page_size with 4096.
  replace (4096 * (k0 + Z.of_nat (length news)) - k0 * 4096) with (Z.of_nat (length news) * 4096) by lia.
  rewrite Z.div_mul, Nat2Z.id, (Z.mul_comm k0) by lia.
  destruct (unmap_run news 0 k0 s m0 pm W) as (s' & -> & Fl & Lv & Tb & Md & Lw); auto; try lia.
  - rewrite Z.add_0_r. exact L.
  - intros j Bj. apply Fr. lia.
  - eexists. split; [reflexivity|]. split; cbn; auto.
    + eapply unrun_wf; eauto.
    + intros j Bj. cbn in Bj. lia.
    + intros p Hp. apply elem_of_nil in Hp. destruct Hp.
    + rewrite Fl, Tb, P. rewrite <- (Permutation_rev news). rewrite app_assoc. reflexivity.
Qed.

Lemma alloc_loop_S fuel s cur :
  alloc_loop kernel_end physical_stop (S fuel) s cur old new pm =
  if cur <? new then
    match allocPage (fl s) with
    | None => alloc_undo kernel_end physical_stop s cur old OutOfMemory
    | Some (page, fl') =>
        match map (Vm fl' (pt s)) cur page page_size pm true with
        | (Ok _, s) => alloc_loop kernel_end physical_stop fuel s (u64 (cur + page_size)) old new pm
        | (Err e, s) =>
            match freePage kernel_end physical_stop (fl s) page with
            | None => (Panic, s)
            | Some fl' => alloc_undo kernel_end physical_stop (Vm fl' (pt s)) cur old e
            end
        | (Panic, s) => (Panic, s)
        end
    end
  else (Ok new, s).
Proof. reflexivity. Qed.

(** The loop of [alloc]: everything up to [new], or nothing. *)
Lemma alloc_loop_spec fuel : forall news s k,
  grown news s -> k = k0 + Z.of_nat (length news) ->
  4096 * (k - 1) < new \/ news = [] -> 4096 * k < 4096 * pages_max -> new <= 4096 * (k + Z.of_nat fuel) ->
  exists s',
    (exists more, alloc_loop kernel_end physical_stop (S fuel) s (4096 * k) old new pm = (Ok new, s') /\
       grown (news ++ more) s' /\ new <= 4096 * (k + Z.of_nat (length more)) /\
       (4096 * (k + Z.of_nat (length more) - 1) < new \/ news ++ more = [])) \/
    (exists e, alloc_loop kernel_end physical_stop (S fuel) s (4096 * k) old new pm = (Err e, s') /\ grown [] s').
Proof.
  induction fuel as [|fuel IH]; intros news s k G Ek La Bk F.
  all: rewrite alloc_loop_S; destruct (Z.ltb_spec (4096 * k) new) as [Lt|Ge];
    [|exists s; left; exists []; rewrite app_nil_r; cbn; rewrite Z.add_0_r; auto].
  { lia. }
  assert (Bk' : 0 <= k < pages_max) by lia.
  destruct s as [[|page l] t]; cbn [allocPage fl pt].
  { destruct (undo_spec _ news OutOfMemory G ltac:(lia)) as (s' & E & G'). rewrite <- Ek in E. exists s'. right. eauto. }
  destruct G as [W L Fr R P]. cbn [fl pt] in *.
  assert (Ip : in_memory page) by (apply (free_in_memory _ _ W); left).
  assert (W' : wf (Vm l t)).
  { split; [apply (wf_leaves _ W)|]. intros q Hq. apply (wf_pages _ W). cbn in *. right. exact Hq. }
  destruct (map_page (Vm l t) k page pm true W' Bk' ltac:(destruct Ip; lia) ltac:(apply Ip))
    as (s1 & Gr & E & [(e & ->)|(Nk & -> & W1)]); cbn [fl pt] in *.
  - rewrite freePage_ok by auto. destruct Gr as [Gp Gm Gl]. cbn [fl pt] in *.
    destruct (undo_spec (Vm (page :: fl s1) (pt s1)) news e) as (s' & Eu & G'); [|lia|rewrite <- Ek in Eu; rewrite Eu;exists s'; right; eauto].
    split; cbn; auto.
    + pose proof (wf_grows (Vm l t) s1 W' (Build_grows (Vm l t) s1 Gp Gm Gl) E) as [W1 W2]. split; cbn; [exact W1|].
      intros q [->|Hq]%elem_of_cons; [exact Ip|]. apply W2. exact Hq.
    + rewrite E. exact L.
    + rewrite P. cbn. rewrite <- Gp. reflexivity.
  - rewrite u64_small by (change page_size with 4096; unfold pages_max in *; lia).
    change page_size with 4096. replace (4096 * k + 4096) with (4096 * (k0 + Z.of_nat (length (news ++ [page]))))
      by (rewrite length_app; cbn; lia).
    destruct Gr as [Gp Gm Gl]. cbn [fl pt] in *.
    destruct (IH (news ++ [page]) (set_leaf s1 k (Pte page pm true)) (k0 + Z.of_nat (length (news ++ [page]))))
      as (s' & H); [|reflexivity| | | |].
    + split; cbn; auto.
      * rewrite put_snoc, E, L, Ek. reflexivity.
      * intros j. rewrite length_app. cbn. intros Bj. destruct (decide (j = k)) as [->|Ne]; [|apply Fr; lia].
        rewrite L, put_lookup, decide_False in Nk by lia. exact Nk.
      * intros q [Hq|Hq]%elem_of_app; [auto|]. apply list_elem_of_singleton in Hq. subst q. exact Ip.
      * rewrite P. cbn. rewrite <- !app_assoc. cbn. apply Permutation_app_head. rewrite <- Gp. reflexivity.
    + left. rewrite length_app. cbn. lia.
    + rewrite length_app. cbn. unfold pages_max in *. lia.
    + rewrite length_app. cbn. lia.
    + exists s'. destruct H as [(more & Eq & G' & N1 & N2)|H]; [left|right; exact H].
      exists (page :: more). rewrite <- app_assoc in *. cbn [app] in *. rewrite length_app in *. cbn [length] in *.
      split; [exact Eq|]. split; [exact G'|]. split; [lia|]. left. destruct N2 as [N2|N2]; [lia|destruct news; discriminate].
Qed.
End Grow.

(** ** The system call *)

(** A process whose pages and size are in order: the pages below its size are
    its own, nothing else is mapped up to the next page boundary. *)
Definition size_pages (p : proc) : Z := (p_size p + 4095) / 4096.

Record wf_proc (p : proc) : Prop := {
  wp_vm : wf (p_vm p);
  wp_size : 0 <= p_size p <= trapframe_virtual_address;
}.

Definition all_pages (s : vm) : list Z := fl s ++ tables (pt s).

Context (Stop : 0 <= kernel_end /\ physical_stop <= 2 ^ 63).

Lemma alloc_spec s old new pm :
  wf s -> isBranch pm = false -> 0 <= old <= new -> new <= 4096 * (pages_max - 2) ->
  let k0 := (old + 4095) / 4096 in
  exists s' news, grown (all_pages s) (pt_leaves (pt s)) k0 pm news s' /\
    ((alloc kernel_end physical_stop s old new pm = (Ok new, s') /\
      k0 + Z.of_nat (length news) = (new + 4095) / 4096) \/
     (news = [] /\ exists e, alloc kernel_end physical_stop s old new pm = (Err e, s'))).
Proof.
  intros W Br Bo Bn k0. assert (Ru : pageRoundUp old = 4096 * k0).
  { rewrite pageRoundUp_eq by (unfold pages_max in *; lia). subst k0. lia. }
  assert (Bk : 0 <= k0) by (apply Z.div_pos; lia).
  unfold alloc. rewrite (proj2 (Z.ltb_ge new old)), Ru by lia. change page_size with 4096.
  assert (G0 : grown (all_pages s) (pt_leaves (pt s)) k0 pm [] s).
  { split; auto; cbn; [intros j Bj; lia|intros q Hq; apply elem_of_nil in Hq; destruct Hq]. }
  destruct (alloc_loop_spec (all_pages s) (pt_leaves (pt s)) old new k0 pm Br ltac:(unfold pages_max in *; lia)
    Ru Bk Bn Stop (Z.to_nat ((new - old) / 4096 + 1)) [] s k0 G0) as (s' & H); auto.
  - cbn. lia.
  - subst k0. unfold pages_max in *. Z.to_euclidean_division_equations. lia.
  - rewrite Z2Nat.id by (pose proof (Z.div_pos (new - old) 4096); lia).
    subst k0. clear - Bo. Z.to_euclidean_division_equations. lia.
  - destruct H as [(more & E & G & N1 & N2)|(e & E & G)]; [|exists s', []; eauto 6].
    exists s', more. cbn [app] in *. split; [exact G|]. left. split; [exact E|].
    destruct N2 as [N2| ->]; [|cbn [length] in *]; subst k0; clear - N1 N2 Bo || clear - N1 Bo;
      Z.to_euclidean_division_equations; lia.
Qed.

(** Every address in a run of mapped pages is translated. *)
Lemma translate_run s k0 news pm m v :
  wf s -> pt_leaves (pt s) = put k0 news pm m -> 4096 * k0 <= v < 4096 * (k0 + Z.of_nat (length news)) ->
  exists q, q ∈ news /\ translateAddress s (pageRoundDown v) = Ok q.
Proof.
  intros W L B. unfold pageRoundDown. rewrite ldiff_4095, (Z.mul_comm _ 4096). set (k := v / 4096).
  assert (Bk : k0 <= k < k0 + Z.of_nat (length news)) by (unfold k; Z.to_euclidean_division_equations; lia).
  destruct (lookup_lt_is_Some_2 news (Z.to_nat (k - k0)) ltac:(lia)) as [q Hq].
  assert (Lk : pt_leaves (pt s) !! k = Some (Pte q pm true)).
  { rewrite L, put_lookup, decide_True, Hq by lia. reflexivity. }
  exists q. split; [apply list_elem_of_lookup; eauto|]. unfold translateAddress.
  destruct (wf_leaves s W _ _ Lk) as (Bm & _). unfold isOutOfRange, max_virtual_address.
  rewrite (proj2 (Z.leb_gt _ _)) by (unfold pages_max in Bm; lia). rewrite (walk_present _ _ _ W Lk), Lk. reflexivity.
Qed.

Lemma sbrk_spec p n :
  wf_proc p -> 0 < n < 2 ^ 63 ->
  exists p' news,
    grown (all_pages (p_vm p)) (pt_leaves (pt (p_vm p))) (size_pages p) rw news (p_vm p') /\ wf_proc p' /\
    ((sys_sbrk kernel_end physical_stop p n = (Ok (p_size p), p') /\ p_size p' = p_size p + n /\
      size_pages p + Z.of_nat (length news) = size_pages p') \/
     (sys_sbrk kernel_end physical_stop p n = (Ok (-1), p') /\ p_size p' = p_size p /\ news = [])).
Proof.
  intros [W B] Bn. unfold sys_sbrk, changeProcessSize.
  assert (S64 : s64 n = n) by (unfold s64; rewrite Z.mod_small; lia). rewrite S64.
  rewrite (proj2 (Z.ltb_lt 0 n)) by lia. destruct (_ || _) eqn:Or.
  - exists p, []. split; [|split; [split; auto|auto]]. split; auto; cbn; [intros j Bj; lia|intros q Hq; apply elem_of_nil in Hq; destruct Hq].
  - apply orb_false_elim in Or as [O1 O2]. apply Z.leb_gt in O1. apply Z.ltb_ge in O2.
    destruct (alloc_spec (p_vm p) (p_size p) (p_size p + n) rw W eq_refl ltac:(lia)
      ltac:(change (4096 * (pages_max - 2)) with trapframe_virtual_address; lia))
      as (s' & news & G & [(-> & Ln)|(-> & e & ->)]).
    + exists (Proc (p_size p + n) s'), news. split; [exact G|]. split; [split; [apply G|cbn; lia]|]. left. auto.
    + exists (Proc (p_size p) s'), []. split; [exact G|]. split; [split; [apply G|cbn; lia]|]. right. auto.
Qed.

Lemma sbrk_back p news m p' n pages0 k0 :
  grown pages0 m k0 rw news (p_vm p') -> 0 < n <= p_size p' -> p_size p' <= trapframe_virtual_address ->
  p_size p = p_size p' - n -> k0 = size_pages p -> k0 + Z.of_nat (length news) = size_pages p' ->
  exists p2, sys_sbrk kernel_end physical_stop p' (- n) = (Ok (p_size p'), p2) /\ p_size p2 = p_size p /\
    pt_leaves (pt (p_vm p2)) = m /\ all_pages (p_vm p2) ≡ₚ pages0 /\ wf (p_vm p2).
Proof.
  intros G Bn Bt Ep -> El. unfold sys_sbrk, changeProcessSize. unfold trapframe_virtual_address,
    trampoline_virtual_address, max_virtual_address in Bt. change page_size with 4096 in Bt.
  assert (S64 : s64 (- n) = - n) by (unfold s64; rewrite Z.mod_small; lia). rewrite S64.
  rewrite (proj2 (Z.ltb_ge 0 (- n))), (proj2 (Z.ltb_lt (- n) 0)) by lia.
  replace (p_size p' - Z.abs (- n)) with (p_size p) by lia. rewrite u64_small by lia.
  unfold dealloc. rewrite (proj2 (Z.leb_gt (p_size p') (p_size p))) by lia.
  rewrite !pageRoundUp_eq by lia. fold (size_pages p) (size_pages p').
  destruct G as [W L Fr R P]. destruct (Z.ltb_spec (size_pages p * 4096) (size_pages p' * 4096)) as [Lt|Ge].
  - unfold unmap, isPageAligned, pageOffset. rewrite land_4095, Z.mod_mul by lia. change (0 =? 0) with true.
    cbn [negb]. change page_size with 4096. rewrite <- Z.mul_sub_distr_r, Z.div_mul by lia.
    replace (Z.to_nat (size_pages p' - size_pages p)) with (length news) by lia.
    rewrite (Z.mul_comm (size_pages p)).
    destruct (unmap_run news 0 (size_pages p) (p_vm p') m rw W) as (s' & -> & Fl & Lv & Tb & Md & Lw); auto; try lia.
    + rewrite Z.add_0_r. exact L.
    + unfold size_pages. apply Z.div_pos; lia.
    + intros j Bj. apply Fr. lia.
    + eexists. split; [reflexivity|]. cbn [p_size p_vm]. split; [auto|]. split; [exact Lv|]. split.
      * unfold all_pages. rewrite Fl, Tb, P. rewrite <- (Permutation_rev news). rewrite app_assoc. reflexivity.
      * eapply unrun_wf; eauto.
  - assert (news = []) as -> by (destruct news; auto; exfalso; cbn [length] in El; clear - Ge El; lia).
    eexists. split; [reflexivity|]. cbn [p_size p_vm]. split; [auto|]. split; [exact L|]. split; [|exact W].
    unfold all_pages. rewrite P. reflexivity.
Qed.

Lemma translate_inj s k0 news pm m v w q :
  wf s -> pt_leaves (pt s) = put k0 news pm m -> NoDup news ->
  4096 * k0 <= v < 4096 * (k0 + Z.of_nat (length news)) ->
  4096 * k0 <= w < 4096 * (k0 + Z.of_nat (length news)) ->
  translateAddress s (pageRoundDown v) = Ok q -> translateAddress s (pageRoundDown w) = Ok q ->
  pageRoundDown w = pageRoundDown v.
Proof.
  intros W L N Bv Bw.
  assert (A : forall v, 4096 * k0 <= v < 4096 * (k0 + Z.of_nat (length news)) ->
    translateAddress s (pageRoundDown v) = Ok q ->
    pageRoundDown v = 4096 * (v / 4096) /\ news !! Z.to_nat (v / 4096 - k0) = Some q /\ k0 <= v / 4096).
  { intros u Bu. unfold pageRoundDown. rewrite ldiff_4095, (Z.mul_comm _ 4096). set (k := u / 4096).
    assert (Bk : k0 <= k < k0 + Z.of_nat (length news)) by (unfold k; Z.to_euclidean_division_equations; lia).
    destruct (lookup_lt_is_Some_2 news (Z.to_nat (k - k0)) ltac:(lia)) as [r Hr].
    assert (Lk : pt_leaves (pt s) !! k = Some (Pte r pm true)).
    { rewrite L, put_lookup, decide_True, Hr by lia. reflexivity. }
    unfold translateAddress. destruct (wf_leaves s W _ _ Lk) as (Bm & _). unfold isOutOfRange, max_virtual_address.
    rewrite (proj2 (Z.leb_gt _ _)) by (unfold pages_max in Bm; lia). rewrite (walk_present _ _ _ W Lk), Lk.
    cbn. intros [= ->]. split; [auto|]. split; [exact Hr|lia]. }
  intros Tv Tw. destruct (A v Bv Tv) as (Ev & Lv & Gv). destruct (A w Bw Tw) as (Ew & Lw & Gw).
  pose proof (NoDup_lookup _ _ _ _ N Lv Lw). rewrite Ev, Ew. f_equal. lia.
Qed.
End Kernel.

(** * Theorems *)

(** C15: growing a process with sbrk(n), n > 0 (process.zig, user_memory.zig,
    virtual_memory.zig).  The kernel never panics.  Either the call returns the
    old size, the size has grown by n, every address above the last old page up to
    the new size is translated to a page of memory, different for different
    pages, all earlier mappings are there, and the pages used for it are exactly
    the ones missing from the free list and the page-table pages; or it returns
    -1, size and mappings are unchanged and every page that was free is free or
    a page-table page. *)
Theorem sbrk_grows kernel_end physical_stop p n :
  0 <= kernel_end -> physical_stop <= 2 ^ 63 -> wf_proc kernel_end physical_stop p ->
  NoDup (all_pages (p_vm p)) -> 0 < n < 2 ^ 63 ->
  exists p' news, wf_proc kernel_end physical_stop p' /\
    all_pages (p_vm p) ≡ₚ news ++ all_pages (p_vm p') /\ NoDup (news ++ all_pages (p_vm p')) /\
    ((sys_sbrk kernel_end physical_stop p n = (Ok (p_size p), p') /\ p_size p' = p_size p + n /\
      (forall v, 4096 * size_pages p <= v < p_size p' ->
         exists q, q ∈ news /\ translateAddress (p_vm p') (pageRoundDown v) = Ok q /\
           forall w, 4096 * size_pages p <= w < p_size p' ->
             translateAddress (p_vm p') (pageRoundDown w) = Ok q -> pageRoundDown w = pageRoundDown v) /\
      (forall k e, pt_leaves (pt (p_vm p)) !! k = Some e -> pt_leaves (pt (p_vm p')) !! k = Some e)) \/
     (sys_sbrk kernel_end physical_stop p n = (Ok (-1), p') /\ p_size p' = p_size p /\ news = [] /\
      pt_leaves (pt (p_vm p')) = pt_leaves (pt (p_vm p)))).
Proof.
  intros Ke Ps Wp Nd Bn. destruct (sbrk_spec kernel_end physical_stop (conj Ke Ps) p n Wp Bn) as (p' & news & G & Wp' & C).
  exists p', news. split; [exact Wp'|]. destruct G as [W L Fr R P]. split; [exact P|].
  assert (Nd' : NoDup (news ++ all_pages (p_vm p'))) by (rewrite P in Nd; exact Nd). split; [exact Nd'|].
  destruct C as [(E & Sz & Ln)|(E & Sz & ->)]; [left|right; auto].
  split; [exact E|]. split; [exact Sz|]. split.
  - assert (Run : forall v, 4096 * size_pages p <= v < p_size p' ->
      4096 * size_pages p <= v < 4096 * (size_pages p + Z.of_nat (length news))).
    { intros v Bv. rewrite Ln. unfold size_pages in *. Z.to_euclidean_division_equations. lia. }
    intros v Bv. destruct (translate_run _ _ _ _ _ _ _ v W L (Run v Bv)) as (q & Iq & Tq).
    exists q. split; [exact Iq|]. split; [exact Tq|]. intros w Bw Tw.
    apply NoDup_app in Nd' as (Nn & _ & _). eapply translate_inj; eauto.
  - intros k e H. rewrite L, put_lookup. destruct (decide _) as [D|D]; [|exact H].
    rewrite (Fr k D) in H. discriminate.
Qed.

(** sbrk(-n) undoes sbrk(n): the size and every mapping are those of before,
    and all the pages are free again except those that became page-table
    pages. *)
Theorem sbrk_roundtrip kernel_end physical_stop p n p' :
  0 <= kernel_end -> physical_stop <= 2 ^ 63 -> wf_proc kernel_end physical_stop p -> 0 < n < 2 ^ 63 ->
  sys_sbrk kernel_end physical_stop p n = (Ok (p_size p), p') ->
  exists p2, sys_sbrk kernel_end physical_stop p' (- n) = (Ok (p_size p + n), p2) /\ p_size p2 = p_size p /\
    pt_leaves (pt (p_vm p2)) = pt_leaves (pt (p_vm p)) /\ all_pages (p_vm p2) ≡ₚ all_pages (p_vm p).
Proof.
  intros Ke Ps Wp Bn E. destruct (sbrk_spec kernel_end physical_stop (conj Ke Ps) p n Wp Bn) as (p1 & news & G & Wp' & C).
  destruct C as [(E' & Sz & Ln)|(E' & Sz & ->)]; rewrite E' in E; simplify_eq.
  - destruct (sbrk_back kernel_end physical_stop p news _ p' n _ _ G) as (p2 & E2 & S2 & L2 & P2 & _);
      try (destruct Wp, Wp'; lia); auto.
    exists p2. rewrite <- Sz. auto.
  - destruct Wp. lia.
Qed.

(** * Witnesses *)

(** A process of no pages with sixteen free pages, and memory from page 600 to 700. *)
Definition proc0 : proc :=
  Proc 0 (Vm (List.map (fun i => 4096 * (600 + Z.of_nat i)) (seq 0 16)) (PTable (4096 * 650) ∅ ∅ ∅)).

Definition proc1 : proc := snd (sys_sbrk (4096 * 600) (4096 * 700) proc0 10000).

Lemma proc0_wf : wf_proc (4096 * 600) (4096 * 700) proc0.
Proof.
  split; [split|].
  - intros k e H. cbn in H. rewrite lookup_empty in H. discriminate.
  - intros p. cbn. rewrite list_elem_of_In. cbn.
    intros H. repeat (destruct H as [<-|H]; [split; [lia|reflexivity]|]). destruct H.
  - cbn. unfold trapframe_virtual_address, trampoline_virtual_address, max_virtual_address, page_size. lia.
Defined.

Lemma sbrk_grows_witness :
  wf_proc (4096 * 600) (4096 * 700) proc0 /\
  sys_sbrk (4096 * 600) (4096 * 700) proc0 10000 = (Ok 0, proc1) /\
  exists p' news, wf_proc (4096 * 600) (4096 * 700) p' /\ all_pages (p_vm proc0) ≡ₚ news ++ all_pages (p_vm p').
Proof.
  split; [exact proc0_wf|]. split; [vm_compute; reflexivity|].
  destruct (sbrk_grows (4096 * 600) (4096 * 700) proc0 10000) as (p' & news & W & P & _).
  - lia.
  - lia.
  - exact proc0_wf.
  - apply (bool_decide_unpack _). vm_compute. exact I.
  - lia.
  - exists p', news. split; [exact W|exact P].
Defined.

Lemma sbrk_roundtrip_witness :
  exists p2, sys_sbrk (4096 * 600) (4096 * 700) proc1 (- 10000) = (Ok 10000, p2) /\ p_size p2 = 0.
Proof.
  destruct (sbrk_roundtrip (4096 * 600) (4096 * 700) proc0 10000 proc1) as (p2 & E & S2 & _).
  - lia.
  - lia.
  - exact proc0_wf.
  - lia.
  - vm_compute. reflexivity.
  - exists p2. split; [exact E|exact S2].
Defined.
