(* ===== verification/KmemUser.v ===== *)
(** The sbrk of the kernel under the allocator of user programs: the replies
    that process.zig gives to a process meet the contract of Umalloc.v. *)

From S2P Require Import Prelude.
From stdpp Require Import base gmap list.
From S2P Require Import Sys Umalloc Kmem KmemSpec.

Local Open Scope Z_scope.

Section User.
Context (kernel_end physical_stop : Z).

(** The process after the sbrk calls of a history, if the kernel gives these
    replies; the argument is a non-negative int. *)
Fixpoint ran (p : proc) (hist : history) : option proc :=
  match hist with
  | [] => Some p
  | (CSbrk n, r) :: hist =>
      if (n <? 0) || (2 ^ 31 <=? n) then None
      else match sys_sbrk kernel_end physical_stop p n with
           | (Ok v, p) => if v =? r_ret r then ran p hist else None
           | _ => None
           end
  | _ :: hist => ran p hist
  end.

(** The environment of a process that starts as [p0], as far as sbrk goes. *)
Definition kernel_env (p0 : proc) : env := fun hist c r =>
  match c with
  | CSbrk n =>
      n < 2 ^ 31 /\
      exists p p', ran p0 hist = Some p /\ sys_sbrk kernel_end physical_stop p n = (Ok (r_ret r), p')
  | _ => True
  end.

Context (Stop : 0 <= kernel_end /\ physical_stop <= 2 ^ 63).

(** The size of a process and the pages still free. *)
Definition room (p : proc) : Z := size_pages p + Z.of_nat (length (all_pages (p_vm p))).

Lemma sbrk_zero p : sys_sbrk kernel_end physical_stop p 0 = (Ok (p_size p), p).
Proof. reflexivity. Qed.

Lemma sbrk_room p n p' v :
  wf_proc kernel_end physical_stop p -> 0 <= n < 2 ^ 31 ->
  sys_sbrk kernel_end physical_stop p n = (Ok v, p') ->
  wf_proc kernel_end physical_stop p' /\ room p' = room p /\
  (v = -1 /\ p_size p' = p_size p \/ v = p_size p /\ p_size p' = p_size p + n).
Proof.
  intros W B E. destruct (Z.eq_dec n 0) as [->|Nz].
  - rewrite sbrk_zero in E. injection E as <- <-. split; [exact W|]. split; [reflexivity|]. right. lia.
  - destruct (sbrk_spec kernel_end physical_stop Stop p n W ltac:(lia)) as (p1 & news & G & W1 & C).
    pose proof (Permutation_length (gn_pages _ _ _ _ _ _ _ _ G)) as Ln. rewrite length_app in Ln. unfold room.
    fold (all_pages (p_vm p1)) in Ln.
    destruct C as [(E1 & Sz & Lk)|(E1 & Sz & ->)]; rewrite E1 in E; injection E as <- <-.
    + split; [exact W1|]. split; [|auto]. unfold all_pages in *. lia.
    + split; [exact W1|]. split; [|auto]. unfold size_pages, all_pages in *. cbn [length] in Ln. rewrite Sz. lia.
Qed.

Lemma ran_spec hist : forall p0 p,
  wf_proc kernel_end physical_stop p0 -> ran p0 hist = Some p ->
  wf_proc kernel_end physical_stop p /\ room p = room p0 /\ p_size p = brk (p_size p0) hist.
Proof.
  induction hist as [|[c r] hist IH]; intros p0 p W E; [injection E as <-; auto|].
  destruct c; cbn [ran] in E; try (apply (IH _ _ W E)).
  destruct (_ || _) eqn:Or; [discriminate|]. apply orb_false_elim in Or as [O1 O2].
  apply Z.ltb_ge in O1. apply Z.leb_gt in O2.
  destruct (sys_sbrk kernel_end physical_stop p0 n) as [[v|e|] p1] eqn:Es; try discriminate.
  destruct (Z.eqb_spec v (r_ret r)) as [->|]; [|discriminate].
  destruct (sbrk_room _ _ _ _ W (conj O1 O2) Es) as (W1 & R1 & C). destruct (IH _ _ W1 E) as (W2 & R2 & S2).
  split; [exact W2|]. split; [congruence|]. rewrite S2. unfold brk. cbn [fold_left].
  destruct C as [(Ev & Sz)|(Ev & Sz)]; rewrite Sz.
  - rewrite (proj2 (Z.eqb_eq _ _) Ev). reflexivity.
  - rewrite (proj2 (Z.eqb_neq (r_ret r) (-1))); [reflexivity|]. destruct W as [_ W]. lia.
Qed.
End User.

(** C16: the kernel's sbrk (changeProcessSize in process.zig, with the page
    allocator and the page tables under it) meets the contract on which the
    theorems about malloc rest: to a process that starts well formed and whose
    pages, with all the free ones, stay under 64 GiB, every reply is -1 or the
    current break, which then moves by the amount asked for. *)
Theorem kernel_sbrk_contract kernel_end physical_stop p0 :
  0 <= kernel_end -> physical_stop <= 2 ^ 63 -> wf_proc kernel_end physical_stop p0 ->
  4096 * room p0 <= 2 ^ 36 ->
  Sbrk (kernel_env kernel_end physical_stop p0) (p_size p0) (4096 * room p0).
Proof.
  intros Ke Ps W Lim. split; [exact Lim|]. intros hist n r (Bn & p & p' & Rn & E) N0.
  destruct (ran_spec _ _ (conj Ke Ps) _ _ _ W Rn) as (Wp & Rm & Sz).
  destruct (sbrk_room _ _ (conj Ke Ps) _ _ _ _ Wp (conj N0 Bn) E) as (W' & Rm' & [(Ev & _)|(Ev & Sz')]); [auto|].
  right. rewrite <- Sz. split; [exact Ev|]. destruct Wp as [_ Bp]. split; [lia|].
  rewrite <- Sz', <- Rm, <- Rm'. unfold room, size_pages. Z.to_euclidean_division_equations. lia.
Qed.

Lemma kernel_sbrk_contract_witness :
  Sbrk (kernel_env (4096 * 600) (4096 * 700) proc0) 0 (4096 * room proc0) /\
  kernel_env (4096 * 600) (4096 * 700) proc0 [] (CSbrk 10000) (ok 0).
Proof.
  split.
  - apply (kernel_sbrk_contract (4096 * 600) (4096 * 700) proc0).
    + lia.
    + lia.
    + exact proc0_wf.
    + vm_compute. discriminate.
  - split; [lia|]. exists proc0, proc1. split; [reflexivity|]. vm_compute. reflexivity.
Defined.
