(* ===== verification/Boundary.v ===== *)
(** Copies between the kernel and a process: src/kernel/memory/boundary.zig.

    The loops go page by page through the page table of the process; the
    reference definitions go byte by byte through its address space.  [tr] is
    the page table, as the page that each virtual page is translated to, and [pm]
    is physical memory.  Kernel memory is given as the list of the bytes copied. *)

From Stdlib Require Import Morphisms Setoid.
From S2P Require Import Prelude Mem.
From S2P Require Import Kmem KmemSpec.

Local Open Scope Z_scope.
Local Open Scope zm_scope.

(** [translateAddress] of a page table, for page-aligned addresses. *)
Definition translation : Type := Z -> option Z.
Definition translation_of (s : vm) : translation := fun v =>
  match translateAddress s v with Ok p => Some p | _ => None end.

(** * The loops *)

(** The bytes copied, and whether all of them were. *)
Fixpoint copyIn_loop (fuel : nat) (tr : translation) (pm : mem) (source : Z) (remaining : nat) : list Z * bool :=
  match fuel with
  | O => ([], false)
  | S fuel =>
      if (remaining =? 0)%nat then ([], true)
      else
        match tr (pageRoundDown source) with
        | None => ([], false)
        | Some page =>
            let n := Nat.min (Z.to_nat (page_size - pageOffset source)) remaining in
            let chunk := load pm (page + pageOffset source) n in
            let '(rest, ok) := copyIn_loop fuel tr pm (source + Z.of_nat n) (remaining - n) in
            (chunk ++ rest, ok)
        end
  end.
Definition copyIn (tr : translation) (pm : mem) (source : Z) (n : nat) : list Z * bool :=
  copyIn_loop (S n) tr pm source n.

Fixpoint copyOut_loop (fuel : nat) (tr : translation) (pm : mem) (destination : Z) (remaining : list Z) : mem * bool :=
  match fuel with
  | O => (pm, false)
  | S fuel =>
      match remaining with
      | [] => (pm, true)
      | _ =>
          match tr (pageRoundDown destination) with
          | None => (pm, false)
          | Some page =>
              let n := Nat.min (Z.to_nat (page_size - pageOffset destination)) (length remaining) in
              let pm := store pm (page + pageOffset destination) (firstn n remaining) in
              copyOut_loop fuel tr pm (destination + Z.of_nat n) (skipn n remaining)
          end
      end
  end.
Definition copyOut (tr : translation) (pm : mem) (destination : Z) (source : list Z) : mem * bool :=
  copyOut_loop (S (length source)) tr pm destination source.

(** The bytes of a chunk up to a NUL, and whether there is one. *)
Fixpoint until_zero (l : list Z) : list Z * bool :=
  match l with
  | [] => ([], false)
  | c :: l => if c =? 0 then ([], true) else let '(s, z) := until_zero l in (c :: s, z)
  end.

(** [None] for the errors: an address that is not mapped, or no NUL within
    the destination. *)
Fixpoint copyInString_loop (fuel : nat) (tr : translation) (pm : mem) (source : Z) (remaining : nat) : option (list Z) :=
  match fuel with
  | O => None
  | S fuel =>
      if (remaining =? 0)%nat then None
      else
        match tr (pageRoundDown source) with
        | None => None
        | Some page =>
            let n := Nat.min (Z.to_nat (page_size - pageOffset source)) remaining in
            match until_zero (load pm (page + pageOffset source) n) with
            | (s, true) => Some s
            | (s, false) =>
                match copyInString_loop fuel tr pm (source + Z.of_nat n) (remaining - n) with
                | Some r => Some (s ++ r)
                | None => None
                end
            end
        end
  end.
Definition copyInString (tr : translation) (pm : mem) (source : Z) (n : nat) : option (list Z) :=
  copyInString_loop (S n) tr pm source n.

Definition copyOutTerminated (tr : translation) (pm : mem) (destination : Z) (source : list Z) : mem * bool :=
  match copyOut tr pm destination source with
  | (pm, true) => copyOut tr pm (destination + len source) [0]
  | (pm, false) => (pm, false)
  end.

(** * Byte by byte *)

(** Where a virtual address lies in physical memory. *)
Definition place (tr : translation) (v : Z) : option Z :=
  match tr (4096 * (v / 4096)) with Some page => Some (page + v mod 4096) | None => None end.

Fixpoint bytes_in (tr : translation) (pm : mem) (v : Z) (n : nat) : list Z * bool :=
  match n with
  | O => ([], true)
  | S n =>
      match place tr v with
      | None => ([], false)
      | Some p => let '(l, ok) := bytes_in tr pm (v + 1) n in (pm p :: l, ok)
      end
  end.

Fixpoint bytes_out (tr : translation) (pm : mem) (v : Z) (l : list Z) : mem * bool :=
  match l with
  | [] => (pm, true)
  | b :: l =>
      match place tr v with
      | None => (pm, false)
      | Some p => bytes_out tr (upd pm p b) (v + 1) l
      end
  end.

Fixpoint string_in (tr : translation) (pm : mem) (v : Z) (n : nat) : option (list Z) :=
  match n with
  | O => None
  | S n =>
      match place tr v with
      | None => None
      | Some p =>
          if pm p =? 0 then Some []
          else match string_in tr pm (v + 1) n with Some s => Some (pm p :: s) | None => None end
      end
  end.

(** * The loops do what the bytes say *)

Lemma round_down v : pageRoundDown v = 4096 * (v / 4096).
Proof.
  unfold pageRoundDown. change (page_size - 1) with (Z.ones 12). rewrite Z.ldiff_ones_r by lia.
  rewrite Z.shiftl_mul_pow2, Z.shiftr_div_pow2 by lia. change (2 ^ 12) with 4096. lia.
Qed.

Lemma offset_mod v : pageOffset v = v mod 4096.
Proof. unfold pageOffset. change (page_size - 1) with (Z.ones 12). rewrite Z.land_ones by lia. reflexivity. Qed.

(** The addresses from [v] to the end of its page. *)
Lemma place_page tr v i page :
  tr (pageRoundDown v) = Some page -> 0 <= i < page_size - pageOffset v ->
  place tr (v + i) = Some (page + pageOffset v + i).
Proof.
  rewrite round_down, offset_mod. change page_size with 4096. intros T B. unfold place.
  replace ((v + i) / 4096) with (v / 4096) by (Z.to_euclidean_division_equations; lia). rewrite T. f_equal.
  Z.to_euclidean_division_equations. lia.
Qed.

Lemma place_none tr v : tr (pageRoundDown v) = None -> place tr v = None.
Proof. rewrite round_down. unfold place. intros ->. reflexivity. Qed.

Lemma bytes_in_app tr pm k n : forall v q,
  (forall i, 0 <= i < Z.of_nat n -> place tr (v + i) = Some (q + i)) ->
  bytes_in tr pm v (n + k) =
  let '(l, ok) := bytes_in tr pm (v + Z.of_nat n) k in (load pm q n ++ l, ok).
Proof.
  induction n as [|n IH]; intros v q P; cbn [Nat.add bytes_in load].
  - rewrite Z.add_0_r. destruct (bytes_in _ _ _ _); reflexivity.
  - pose proof (P 0 ltac:(lia)) as P0. rewrite !Z.add_0_r in P0. rewrite P0, (IH (v + 1) (q + 1)).
    + replace (v + 1 + Z.of_nat n) with (v + Z.of_nat (S n)) by lia. destruct (bytes_in _ _ _ k); reflexivity.
    + intros i B. replace (v + 1 + i) with (v + (i + 1)) by lia. rewrite P by lia. f_equal. lia.
Qed.

Lemma chunk_size v (n : nat) (m := Nat.min (Z.to_nat (page_size - pageOffset v)) n) :
  n <> O -> (0 < m <= n)%nat /\ Z.of_nat m <= page_size - pageOffset v.
Proof. subst m. rewrite offset_mod. change page_size with 4096. pose proof (Z.mod_pos_bound v 4096). lia. Qed.

Lemma copyIn_loop_bytes tr pm fuel : forall v n,
  (n < fuel)%nat -> copyIn_loop fuel tr pm v n = bytes_in tr pm v n.
Proof.
  induction fuel as [|fuel IH]; intros v n F; [lia|]. cbn [copyIn_loop].
  destruct (Nat.eqb_spec n 0) as [->|Nz]; [reflexivity|]. pose proof (chunk_size v n Nz) as C.
  destruct (tr (pageRoundDown v)) as [page|] eqn:T.
  - set (m := Nat.min _ _) in *. rewrite IH by lia. replace (bytes_in tr pm v n) with (bytes_in tr pm v (m + (n - m))) by (f_equal; lia).
    rewrite (bytes_in_app tr pm (n - m) m v (page + pageOffset v)); [reflexivity|].
    intros i B. apply place_page; [exact T|lia].
  - destruct n; [lia|]. cbn [bytes_in]. rewrite (place_none _ _ T). reflexivity.
Qed.

(** Storing byte by byte. *)
Fixpoint put_bytes (m : mem) (a : Z) (l : list Z) : mem :=
  match l with
  | [] => m
  | b :: l => put_bytes (upd m a b) (a + 1) l
  end.

Lemma put_bytes_store l : forall m a, put_bytes m a l =m= store m a l.
Proof.
  induction l as [|b l IH]; intros m a; cbn [put_bytes].
  - symmetry. apply store_nil.
  - rewrite IH. symmetry. apply store_cons.
Qed.

Lemma bytes_out_app tr l' l : forall pm v q,
  (forall i, 0 <= i < len l -> place tr (v + i) = Some (q + i)) ->
  bytes_out tr pm v (l ++ l') = bytes_out tr (put_bytes pm q l) (v + len l) l'.
Proof.
  induction l as [|b l IH]; intros pm v q P; cbn [app bytes_out put_bytes length].
  - rewrite Z.add_0_r. reflexivity.
  - cbn [length] in P. pose proof (P 0 ltac:(lia)) as P0. rewrite !Z.add_0_r in P0. rewrite P0, (IH _ (v + 1) (q + 1)).
    + f_equal. lia.
    + intros i B. replace (v + 1 + i) with (v + (i + 1)) by lia. rewrite P by lia. f_equal. lia.
Qed.

(** Results of copies out are compared with the memories as functions. *)
Definition out_eq (a b : mem * bool) : Prop := fst a =m= fst b /\ snd a = snd b.

#[export] Instance out_eq_equiv : Equivalence out_eq.
Proof.
  split; unfold out_eq; red; [split; reflexivity|intros ? ? [-> ->]; split; reflexivity|].
  intros ? ? ? [-> ->] [-> ->]. split; reflexivity.
Qed.

#[export] Instance bytes_out_proper tr : Proper (meq ==> eq ==> eq ==> out_eq) (bytes_out tr).
Proof.
  intros m m' H v ? <- l ? <-. revert m m' v H. induction l as [|b l IH]; intros m m' v H; cbn [bytes_out].
  - split; [exact H|reflexivity].
  - destruct (place tr v) as [p|]; [|split; [exact H|reflexivity]]. apply IH. rewrite H. reflexivity.
Qed.

Lemma copyOut_loop_bytes tr fuel : forall pm v l,
  (length l < fuel)%nat -> out_eq (copyOut_loop fuel tr pm v l) (bytes_out tr pm v l).
Proof.
  induction fuel as [|fuel IH]; intros pm v l F; [lia|]. destruct l as [|b l]; [reflexivity|].
  set (bl := b :: l) in *. assert (Nz : length bl <> O) by discriminate.
  change (copyOut_loop (S fuel) tr pm v bl) with
    (match tr (pageRoundDown v) with
     | None => (pm, false)
     | Some page =>
         let n := Nat.min (Z.to_nat (page_size - pageOffset v)) (length bl) in
         copyOut_loop fuel tr (store pm (page + pageOffset v) (firstn n bl)) (v + Z.of_nat n) (skipn n bl)
     end).
  pose proof (chunk_size v (length bl) Nz) as C. destruct (tr (pageRoundDown v)) as [page|] eqn:T.
  - cbv zeta. set (n := Nat.min _ _) in *. rewrite IH by (rewrite length_skipn; lia).
    rewrite <- (firstn_skipn n bl) at 3.
    assert (Ln : len (firstn n bl) = Z.of_nat n) by (rewrite length_firstn; lia).
    rewrite (bytes_out_app tr (skipn n bl) (firstn n bl) pm v (page + pageOffset v)).
    + rewrite Ln, put_bytes_store. reflexivity.
    + rewrite Ln. intros i B. apply place_page; [exact T|lia].
  - unfold bl. cbn [bytes_out]. rewrite (place_none _ _ T). reflexivity.
Qed.

Lemma string_in_app tr pm k n : forall v q,
  (forall i, 0 <= i < Z.of_nat n -> place tr (v + i) = Some (q + i)) ->
  string_in tr pm v (n + k) =
  match until_zero (load pm q n) with
  | (s, true) => Some s
  | (s, false) => match string_in tr pm (v + Z.of_nat n) k with Some r => Some (s ++ r) | None => None end
  end.
Proof.
  induction n as [|n IH]; intros v q P; cbn [Nat.add string_in load until_zero].
  - rewrite Z.add_0_r. destruct (string_in _ _ _ _); reflexivity.
  - pose proof (P 0 ltac:(lia)) as P0. rewrite !Z.add_0_r in P0. rewrite P0. destruct (pm q =? 0); [reflexivity|].
    rewrite (IH (v + 1) (q + 1)).
    + replace (v + 1 + Z.of_nat n) with (v + Z.of_nat (S n)) by lia. destruct (until_zero _) as [s []]; [reflexivity|].
      destruct (string_in _ _ _ k); reflexivity.
    + intros i B. replace (v + 1 + i) with (v + (i + 1)) by lia. rewrite P by lia. f_equal. lia.
Qed.

Lemma copyInString_loop_bytes tr pm fuel : forall v n,
  (n < fuel)%nat -> copyInString_loop fuel tr pm v n = string_in tr pm v n.
Proof.
  induction fuel as [|fuel IH]; intros v n F; [lia|]. cbn [copyInString_loop].
  destruct (Nat.eqb_spec n 0) as [->|Nz]; [reflexivity|]. pose proof (chunk_size v n Nz) as C.
  destruct (tr (pageRoundDown v)) as [page|] eqn:T.
  - set (m := Nat.min _ _) in *. rewrite IH by lia. replace (string_in tr pm v n) with (string_in tr pm v (m + (n - m))) by (f_equal; lia).
    rewrite (string_in_app tr pm (n - m) m v (page + pageOffset v)); [reflexivity|].
    intros i B. apply place_page; [exact T|lia].
  - destruct n; [lia|]. cbn [string_in]. rewrite (place_none _ _ T). reflexivity.
Qed.

(** ** Round trip *)

(** No two of the [n] addresses from [v] on lie at the same place. *)
Definition separate (tr : translation) (v : Z) (n : Z) : Prop := forall i j p,
  0 <= i < n -> 0 <= j < n -> place tr (v + i) = Some p -> place tr (v + j) = Some p -> i = j.

Lemma bytes_out_spec tr l : forall pm v,
  (forall i, 0 <= i < len l -> exists p, place tr (v + i) = Some p) -> separate tr v (len l) ->
  exists pm', bytes_out tr pm v l = (pm', true) /\
    (forall i p, 0 <= i < len l -> place tr (v + i) = Some p -> pm' p = nth (Z.to_nat i) l 0) /\
    (forall p, (forall i, 0 <= i < len l -> place tr (v + i) <> Some p) -> pm' p = pm p).
Proof.
  induction l as [|b l IH]; intros pm v M Sep; cbn [bytes_out length] in *.
  { exists pm. split; [reflexivity|]. split; [intros; lia|auto]. }
  destruct (M 0 ltac:(lia)) as [p0 P0]. rewrite Z.add_0_r in P0. rewrite P0.
  destruct (IH (upd pm p0 b) (v + 1)) as (pm' & E & In & Out).
  - intros i B. replace (v + 1 + i) with (v + (i + 1)) by lia. apply M. lia.
  - intros i j p Bi Bj. replace (v + 1 + i) with (v + (i + 1)) by lia. replace (v + 1 + j) with (v + (j + 1)) by lia.
    intros Hi Hj. pose proof (Sep (i + 1) (j + 1) p ltac:(lia) ltac:(lia) Hi Hj). lia.
  - exists pm'. split; [exact E|]. split.
    + intros i p B Hp. destruct (Z.eq_dec i 0) as [->|Nz].
      * rewrite Z.add_0_r in Hp. rewrite P0 in Hp. injection Hp as <-. rewrite Out, upd_eq; [reflexivity|].
        intros j Bj. replace (v + 1 + j) with (v + (j + 1)) by lia. intros Hj.
        pose proof (Sep 0 (j + 1) p0 ltac:(lia) ltac:(lia)) as K. rewrite Z.add_0_r in K. specialize (K P0 Hj). lia.
      * replace (Z.to_nat i) with (S (Z.to_nat (i - 1))) by lia. cbn [nth]. apply In; [lia|].
        replace (v + 1 + (i - 1)) with (v + i) by lia. exact Hp.
    + intros p Np. rewrite Out, upd_ne; [reflexivity| |].
      * intros ->. apply (Np 0); [lia|]. rewrite Z.add_0_r. exact P0.
      * intros i B. replace (v + 1 + i) with (v + (i + 1)) by lia. apply Np. lia.
Qed.

Lemma bytes_in_all tr pm l : forall v,
  (forall i, 0 <= i < len l -> exists p, place tr (v + i) = Some p /\ pm p = nth (Z.to_nat i) l 0) ->
  bytes_in tr pm v (length l) = (l, true).
Proof.
  induction l as [|b l IH]; intros v H; cbn [bytes_in length] in *; [reflexivity|].
  destruct (H 0 ltac:(lia)) as (p & P & E). rewrite Z.add_0_r in P. rewrite P, E, (IH (v + 1)); [reflexivity|].
  intros i B. destruct (H (i + 1) ltac:(lia)) as (q & P' & E'). exists q.
  replace (v + 1 + i) with (v + (i + 1)) by lia. split; [exact P'|].
  rewrite E'. replace (Z.to_nat (i + 1)) with (S (Z.to_nat i)) by lia. reflexivity.
Qed.

(** * Theorem *)

Lemma load_bytes_in_proper tr m m' v n : m =m= m' -> bytes_in tr m v n = bytes_in tr m' v n.
Proof.
  intros H. revert v. induction n as [|n IH]; intros v; cbn [bytes_in]; [reflexivity|].
  rewrite IH. destruct (place tr v); [rewrite H|]; reflexivity.
Qed.

Lemma string_in_all tr pm l : forall v, nonul l ->
  (forall i, 0 <= i < len l + 1 -> exists p, place tr (v + i) = Some p /\ pm p = nth (Z.to_nat i) (l ++ [0]) 0) ->
  string_in tr pm v (S (length l)) = Some l.
Proof.
  induction l as [|b l IH]; intros v N H; cbn [string_in length app] in *.
  - destruct (H 0 ltac:(cbn; lia)) as (p & P & E). rewrite Z.add_0_r in P.
    change (Z.to_nat 0) with O in E. cbn [nth] in E. rewrite P, E. reflexivity.
  - apply Forall_cons_iff in N as [Nb N]. destruct (H 0 ltac:(lia)) as (p & P & E). rewrite Z.add_0_r in P.
    change (Z.to_nat 0) with O in E. cbn [nth] in E.
    rewrite P, E, (proj2 (Z.eqb_neq b 0) Nb).
    cbn [string_in length] in IH. rewrite (IH (v + 1) N); [reflexivity|]. intros i B.
    destruct (H (i + 1) ltac:(lia)) as (q & P' & E'). exists q. replace (v + 1 + i) with (v + (i + 1)) by lia. split; [exact P'|].
    rewrite E'. replace (Z.to_nat (i + 1)) with (S (Z.to_nat i)) by lia. reflexivity.
Qed.

Lemma bytes_out_split tr l' l : forall pm v pm',
  bytes_out tr pm v l = (pm', true) -> bytes_out tr pm v (l ++ l') = bytes_out tr pm' (v + len l) l'.
Proof.
  induction l as [|b l IH]; intros pm v pm'; cbn [bytes_out app length].
  - intros [= <-]. rewrite Z.add_0_r. reflexivity.
  - destruct (place tr v); [|discriminate]. intros E. rewrite (IH _ _ _ E). f_equal. lia.
Qed.

Lemma string_in_short tr pm l n : forall v, nonul l -> (n <= length l)%nat ->
  (forall i, 0 <= i < len l -> exists p, place tr (v + i) = Some p /\ pm p = nth (Z.to_nat i) l 0) ->
  string_in tr pm v n = None.
Proof.
  revert l. induction n as [|n IH]; intros l v N B H; cbn [string_in]; [reflexivity|].
  destruct l as [|b l]; cbn [length] in *; [lia|]. apply Forall_cons_iff in N as [Nb N].
  destruct (H 0 ltac:(lia)) as (p & P & E). rewrite Z.add_0_r in P.
    change (Z.to_nat 0) with O in E. cbn [nth] in E.
  rewrite P, E, (proj2 (Z.eqb_neq b 0) Nb), (IH l (v + 1) N ltac:(lia)); [reflexivity|].
  intros i Bi. destruct (H (i + 1) ltac:(lia)) as (q & P' & E'). exists q.
  replace (v + 1 + i) with (v + (i + 1)) by lia. split; [exact P'|].
  rewrite E'. replace (Z.to_nat (i + 1)) with (S (Z.to_nat i)) by lia. reflexivity.
Qed.

Lemma copies_out tr pm v l :
  (forall i, 0 <= i < len l + 1 -> exists p, place tr (v + i) = Some p) -> separate tr v (len l + 1) ->
  exists pm', out_eq (copyOutTerminated tr pm v l) (pm', true) /\
    (forall i, 0 <= i < len l + 1 -> exists p, place tr (v + i) = Some p /\ pm' p = nth (Z.to_nat i) (l ++ [0]) 0) /\
    (forall p, (forall i, 0 <= i < len l + 1 -> place tr (v + i) <> Some p) -> pm' p = pm p).
Proof.
  intros M Sep. assert (Ll : len (l ++ [0]) = len l + 1) by (rewrite length_app; cbn; lia).
  destruct (bytes_out_spec tr (l ++ [0]) pm v) as (pm' & E & In & Out).
  - rewrite Ll. exact M.
  - rewrite Ll. exact Sep.
  - exists pm'. rewrite Ll in In, Out. split; [|split; [|exact Out]].
    + destruct (bytes_out_spec tr l pm v) as (pm1 & E1 & _).
      { intros i B. apply M. lia. }
      { intros i j p Bi Bj. apply Sep; lia. }
      rewrite (bytes_out_split _ _ _ _ _ _ E1) in E. unfold copyOutTerminated, copyOut.
      pose proof (copyOut_loop_bytes tr (S (length l)) pm v l ltac:(lia)) as K. rewrite E1 in K.
      destruct (copyOut_loop _ _ _ _ _) as [pm2 ok]. destruct K as [K1 K2]. cbn in K1, K2. subst ok.
      rewrite copyOut_loop_bytes by (cbn; lia). rewrite K1, E. reflexivity.
    + intros i B. destruct (M i B) as [p P]. exists p. split; [exact P|]. apply In; assumption.
Qed.

(** C32: what is copied out to a process can be copied in again (boundary.zig).
    When the pages from address v on are mapped, to different places, for a
    string and its NUL, copyOutTerminated succeeds; copyIn then reads the string
    back, however the pages cut it, copyInString finds exactly the string in a
    destination with room for the NUL and reports an error in a smaller one, and
    no other byte of physical memory has changed. *)
Theorem copies_roundtrip s pm v l :
  let tr := translation_of s in
  nonul l -> (forall i, 0 <= i < len l + 1 -> exists p, place tr (v + i) = Some p) -> separate tr v (len l + 1) ->
  let pm' := fst (copyOutTerminated tr pm v l) in
  snd (copyOutTerminated tr pm v l) = true /\
  copyIn tr pm' v (length l) = (l, true) /\
  copyInString tr pm' v (S (length l)) = Some l /\
  (forall n, (n <= length l)%nat -> copyInString tr pm' v n = None) /\
  forall p, (forall i, 0 <= i < len l + 1 -> place tr (v + i) <> Some p) -> pm' p = pm p.
Proof.
  intros tr N M Sep. pose proof (copies_out tr pm v l M Sep) as (pm1 & E & At & Other).
  assert (Eq : fst (copyOutTerminated tr pm v l) =m= pm1 /\ snd (copyOutTerminated tr pm v l) = true) by exact E.
  destruct Eq as [Eq ->]. intros pm'. split; [reflexivity|].
  assert (At' : forall i, 0 <= i < len l + 1 -> exists p, place tr (v + i) = Some p /\ pm' p = nth (Z.to_nat i) (l ++ [0]) 0).
  { intros i B. destruct (At i B) as (p & P & K). exists p. split; [exact P|]. unfold pm'. rewrite (Eq p). exact K. }
  unfold copyIn, copyInString. split; [|split; [|split]].
  - rewrite copyIn_loop_bytes by lia. apply bytes_in_all. intros i B. destruct (At' i ltac:(lia)) as (p & P & K).
    exists p. split; [exact P|]. rewrite K, app_nth1 by lia. reflexivity.
  - rewrite copyInString_loop_bytes by lia. apply string_in_all; assumption.
  - intros n B. rewrite copyInString_loop_bytes by lia. apply (string_in_short tr pm' l n v N B).
    intros i Bi. destruct (At' i ltac:(lia)) as (p & P & K). exists p. split; [exact P|].
    rewrite K, app_nth1 by lia. reflexivity.
  - intros p Np. unfold pm'. rewrite (Eq p). apply Other, Np.
Qed.

(** * Witness *)

(** Every number below [n] passes a test. *)
Lemma range_test (P : Z -> Prop) (f : Z -> bool) (n : nat) :
  (forall i, f i = true -> P i) -> forallb f (List.map Z.of_nat (seq 0 n)) = true ->
  forall i, 0 <= i < Z.of_nat n -> P i.
Proof.
  intros H F i B. apply H. rewrite forallb_forall in F. apply F. apply in_map_iff. exists (Z.to_nat i).
  split; [lia|]. apply in_seq. lia.
Qed.

(** Ten bytes across the first page boundary of the process [proc1]. *)
Definition tr1 : translation := translation_of (p_vm proc1).
Definition text1 : list Z := [104; 101; 108; 108; 111; 44; 122; 105; 103; 33].
Definition place_at (i : Z) : option Z := place tr1 (4090 + i).

Definition mapped_test (i : Z) : bool := match place_at i with Some _ => true | None => false end.
Definition apart_test (i : Z) : bool :=
  forallb (fun j => (i =? j) || match place_at i, place_at j with Some p, Some q => negb (p =? q) | _, _ => true end)
    (List.map Z.of_nat (seq 0 11)).

Lemma copies_roundtrip_witness :
  let pm' := fst (copyOutTerminated tr1 (fun _ => 0) 4090 text1) in
  copyInString tr1 pm' 4090 11 = Some text1 /\ copyInString tr1 pm' 4090 10 = None.
Proof.
  destruct (copies_roundtrip (p_vm proc1) (fun _ => 0) 4090 text1) as (_ & _ & S11 & S10 & _).
  - repeat constructor; discriminate.
  - apply (range_test _ mapped_test 11).
    + intros i. unfold mapped_test, place_at. destruct (place tr1 (4090 + i)) as [p|] eqn:E; [|discriminate].
      intros _. exists p. exact E.
    + vm_compute. reflexivity.
  - intros i j p Bi Bj Pi Pj. assert (A : apart_test i = true).
    { revert i Bi Pi. refine (range_test (fun i => _ -> apart_test i = true) apart_test 11 _ _); [auto|vm_compute; reflexivity]. }
    unfold apart_test in A. rewrite forallb_forall in A. specialize (A j).
    assert (Ij : List.In j (List.map Z.of_nat (seq 0 11))).
    { apply in_map_iff. exists (Z.to_nat j). split; [change (len text1 + 1) with 11 in Bj; lia|]. apply in_seq. change (len text1 + 1) with 11 in Bj. lia. }
    specialize (A Ij). unfold place_at, tr1 in A. rewrite Pi, Pj, Z.eqb_refl in A. destruct (Z.eqb_spec i j); [assumption|discriminate].
  - split; [exact S11|]. apply S10. cbn. lia.
Defined.
