(* ===== verification/KRing.v ===== *)
(** The ring-buffer system call: src/kernel/datastructures/ringbuf.zig and
    [sys_ringbuf] of src/kernel/traps/sysfile.zig.

    The kernel's state is its free pages, the bytes of physical memory, the
    page table, the next free virtual page and the count of buffers of each
    process, and the table of buffers.  A process is named by its place in the
    process table.  Every call runs under the one lock of the table, so it is one
    step.  A call ends with a result, an error, or the death of the kernel: a
    panic, or arithmetic that overflows.  The page tables of the processes are
    those of Kmem.v; the bytes of the pages that hold them, and the link in the
    first word of a free page, are not part of physical memory here. *)

From stdpp Require Import base gmap list.
From S2P Require Import Prelude Mem Kmem Boundary.

Local Open Scope Z_scope.

(** * common/ringbuf.zig *)

Definition RINGBUF_SIZE : nat := 16.
Definition MAX_NAME_LEN : Z := 16.
Definition MAX_RINGBUFS : nat := 10.

(** In the order of the declaration, which gives the number of an error. *)
Variant rerr : Type :=
| AlreadyActive | AlreadyIsOwner | AlreadyTwoOwners | NoOriginalOwner | BadNameLength
| NoMemory | NoFreeRingbuf | MapPagesFailed | CopyOutFailed | CopyInFailed
| NoAddrGiven | NameNotFound | NotOwner | BadAddr | AlreadyInactive.

Definition intFromErr (e : rerr) : Z :=
  match e with
  | AlreadyActive => -1 | AlreadyIsOwner => -2 | AlreadyTwoOwners => -3 | NoOriginalOwner => -4 | BadNameLength => -5
  | NoMemory => -6 | NoFreeRingbuf => -7 | MapPagesFailed => -8 | CopyOutFailed => -9 | CopyInFailed => -10
  | NoAddrGiven => -11 | NameNotFound => -12 | NotOwner => -13 | BadAddr => -14 | AlreadyInactive => -15
  end.

(** * The state *)

Record owner : Type := Owner { o_proc : option nat; o_vbuf : Z; o_vbook : Z }.

Record ring : Type := Ring {
  refcount : Z;
  owners : owner * owner;
  name_buf : list Z;
  buf_pages : list (option Z);
  book_page : option Z;
}.

Definition owner0 : owner := Owner None 0 0.
Definition ring0 : ring :=
  Ring 0 (owner0, owner0) (repeat 0 (Z.to_nat MAX_NAME_LEN)) (repeat None RINGBUF_SIZE) None.

Definition initial_rings : list ring := repeat ring0 MAX_RINGBUFS.

Record uproc : Type := UProc { u_pt : ptable; u_top : Z; u_owned : Z }.

Record kst : Type := K { k_fl : list Z; k_pm : mem; k_procs : list uproc; k_rings : list ring }.

Definition proc_at (k : kst) (p : nat) : uproc := nth p (k_procs k) (UProc (PTable 0 ∅ ∅ ∅) 0 0).
Definition ring_at (k : kst) (i : nat) : ring := nth i (k_rings k) ring0.
Definition vm_at (k : kst) (p : nat) : vm := Vm (k_fl k) (u_pt (proc_at k p)).

Definition on_ring (i : nat) (f : ring -> ring) (k : kst) : kst :=
  K (k_fl k) (k_pm k) (k_procs k) (list_set (k_rings k) i (f (ring_at k i))).
Definition on_proc (p : nat) (f : uproc -> uproc) (k : kst) : kst :=
  K (k_fl k) (k_pm k) (list_set (k_procs k) p (f (proc_at k p))) (k_rings k).
(** The free pages and the page table of a process after an operation on both. *)
Definition with_vm (p : nat) (s : vm) (k : kst) : kst :=
  on_proc p (fun u => UProc (pt s) (u_top u) (u_owned u)) (K (fl s) (k_pm k) (k_procs k) (k_rings k)).
Definition with_pm (pm : mem) (k : kst) : kst := K (k_fl k) pm (k_procs k) (k_rings k).

Definition set_owners (o : owner * owner) (r : ring) : ring := Ring (refcount r) o (name_buf r) (buf_pages r) (book_page r).
Definition set_refcount (n : Z) (r : ring) : ring := Ring n (owners r) (name_buf r) (buf_pages r) (book_page r).
Definition set_pages (ps : list (option Z)) (b : option Z) (r : ring) : ring :=
  Ring (refcount r) (owners r) (name_buf r) ps b.
Definition set_name (l : list Z) (r : ring) : ring := Ring (refcount r) (owners r) l (buf_pages r) (book_page r).

(** The first or the second owner. *)
Definition get_owner (second : bool) (r : ring) : owner := if second then snd (owners r) else fst (owners r).
Definition put_owner (second : bool) (o : owner) (r : ring) : ring :=
  set_owners (if second then (fst (owners r), o) else (o, snd (owners r))) r.

(** * Results *)

Variant out (A : Type) : Type := Good (a : A) | Fail (e : rerr) | Dead.
Arguments Good {A}. Arguments Fail {A}. Arguments Dead {A}.

Definition M (A : Type) : Type := kst -> out A * kst.
#[export] Instance M_ret : MRet M := fun A a k => (Good a, k).
#[export] Instance M_bind : MBind M := fun A B f m k =>
  match m k with
  | (Good a, k) => f a k
  | (Fail e, k) => (Fail e, k)
  | (Dead, k) => (Dead, k)
  end.
Definition fail {A} (e : rerr) : M A := fun k => (Fail e, k).
Definition dead {A} : M A := fun k => (Dead, k).
Definition get : M kst := fun k => (Good k, k).
Definition modify (f : kst -> kst) : M unit := fun k => (Good tt, f k).
(** [if(bad) return e;] *)
Definition check (bad : bool) (e : rerr) : M unit := if bad then fail e else mret tt.
(** [if(bad) @panic(...)], and an operation on integers that must not overflow. *)
Definition assert (good : bool) : M unit := if good then mret tt else dead.

(** * Pages: allocation.zig *)

Definition fill_page (pm : mem) (page v : Z) : mem :=
  fun x => if (page <=? x) && (x <? page + page_size) then v else pm x.

(** Junk fills a page when it is allocated and when it is freed. *)
Definition allocPage : M (option Z) := fun k =>
  match Kmem.allocPage (k_fl k) with
  | None => (Good None, k)
  | Some (p, fl) => (Good (Some p), K fl (fill_page (k_pm k) p 5) (k_procs k) (k_rings k))
  end.

Fixpoint alloc_pages (n : nat) : M (list Z) :=
  match n with
  | O => mret []
  | S n => page ← allocPage; match page with
                             | None => mret []
                             | Some p => ps ← alloc_pages n; mret (p :: ps)
                             end
  end.

Section Kernel.
Context (kernel_end physical_stop : Z).

Definition freePage (page : Z) : M unit := fun k =>
  match Kmem.freePage kernel_end physical_stop (k_fl k) page with
  | None => (Dead, k)
  | Some fl => (Good tt, K fl (fill_page (k_pm k) page 1) (k_procs k) (k_rings k))
  end.

Fixpoint free_pages (ps : list (option Z)) : M unit :=
  match ps with
  | [] => mret tt
  | None :: ps => free_pages ps
  | Some p :: ps => freePage p ;; free_pages ps
  end.

(** * Ringbuf *)

Definition bad_name (name : list Z) : bool := (MAX_NAME_LEN <? len name) || (len name =? 0).

(** The bytes that follow the NUL of the name in the buffer of the system call. *)
Variable garbage : list Z.
Definition name_bytes (name : list Z) : list Z := firstn (Z.to_nat MAX_NAME_LEN) (name ++ [0] ++ garbage).

Definition activate (i : nat) (name : list Z) : M unit :=
  k ← get;
  check (0 <? refcount (ring_at k i)) AlreadyActive ;;
  check (bad_name name) BadNameLength ;;
  modify (on_ring i (set_name (name_bytes name))) ;;
  ps ← alloc_pages RINGBUF_SIZE;
  modify (on_ring i (fun r => set_pages (List.map Some ps ++ skipn (length ps) (buf_pages r)) (book_page r) r)) ;;
  book ← allocPage;
  modify (on_ring i (fun r => set_pages (buf_pages r) book r)) ;;
  match book with
  | Some b =>
      if (length ps =? RINGBUF_SIZE)%nat then
        modify (fun k => with_pm (store (k_pm k) b (repeat 0 16)) k)
      else
        freePage b ;;
        modify (on_ring i (fun r => set_pages (buf_pages r) None r)) ;;
        free_pages (List.map Some ps) ;;
        modify (on_ring i (fun r => set_pages (repeat None (length ps) ++ skipn (length ps) (buf_pages r)) (book_page r) r)) ;;
        fail NoMemory
  | None =>
      free_pages (List.map Some ps) ;;
      modify (on_ring i (fun r => set_pages (repeat None (length ps) ++ skipn (length ps) (buf_pages r)) (book_page r) r)) ;;
      fail NoMemory
  end.

Definition no_owner (r : ring) : bool :=
  match o_proc (fst (owners r)), o_proc (snd (owners r)) with None, None => true | _, _ => false end.

Definition deactivate (i : nat) : M unit :=
  k ← get;
  free_pages (buf_pages (ring_at k i)) ;;
  modify (on_ring i (fun r => set_pages (List.map (fun _ => None) (buf_pages r)) (book_page r) r)) ;;
  k ← get;
  match book_page (ring_at k i) with
  | None => dead
  | Some b =>
      modify (fun k => with_pm (store (k_pm k) b (repeat 0 16)) k) ;;
      freePage b ;;
      assert (no_owner (ring_at k i)) ;;
      modify (on_ring i (fun _ => ring0))
  end.

(** [proc == owner.proc] *)
Definition owned_by (p : nat) (o : owner) : bool := match o_proc o with Some q => (q =? p)%nat | None => false end.
Definition find_owner (p : nat) (r : ring) : option bool :=
  if owned_by p (fst (owners r)) then Some false else if owned_by p (snd (owners r)) then Some true else None.

(** [mem.user.unmap] in the page table of process [p], without freeing. *)
Definition unmap_in (p : nat) (v n : Z) : M unit := fun k =>
  match unmap kernel_end physical_stop (vm_at k p) v n false with
  | (Ok _, s) => (Good tt, with_vm p s k)
  | (_, s) => (Dead, with_vm p s k)
  end.

Definition disownIfOwned (p : nat) (i : nat) : M unit :=
  k ← get;
  match find_owner p (ring_at k i) with
  | None => mret tt
  | Some w =>
      let set f := modify (on_ring i (fun r => put_owner w (f (get_owner w r)) r)) in
      let o := get_owner w (ring_at k i) in
      set (fun o => Owner None (o_vbuf o) (o_vbook o)) ;;
      assert (negb (o_vbuf o =? 0)) ;;
      unmap_in p (o_vbuf o) (Z.of_nat RINGBUF_SIZE * 2) ;;
      set (fun o => Owner (o_proc o) 0 (o_vbook o)) ;;
      assert (negb (o_vbook o =? 0)) ;;
      unmap_in p (o_vbook o) 1 ;;
      set (fun o => Owner (o_proc o) (o_vbuf o) 0) ;;
      assert (0 <? refcount (ring_at k i)) ;;
      modify (on_ring i (fun r => set_refcount (refcount r - 1) r)) ;;
      assert (0 <? u_owned (proc_at k p)) ;;
      modify (on_proc p (fun u => UProc (u_pt u) (u_top u) (u_owned u - 1))) ;;
      k ← get;
      if refcount (ring_at k i) =? 0 then deactivate i else mret tt
  end.

(** * The system call *)

(** The first place of the table where [f] holds. *)
Definition find_ring (f : ring -> bool) (k : kst) : option nat :=
  find (fun i => f (ring_at k i)) (seq 0 (length (k_rings k))).
Definition findFreeRingbuf (k : kst) : option nat := find_ring (fun r => refcount r =? 0) k.
Definition findRingbufByName (name : list Z) (k : kst) : option nat :=
  find_ring (fun r => negb (refcount r =? 0) && bool_decide (fst (until_zero (name_buf r)) = name)) k.

(** The block that finds the named buffer or activates a free one: its place
    and that of the new owner. *)
Definition claim (p : nat) (name : list Z) : M (nat * bool) :=
  k ← get;
  match findRingbufByName name k with
  | Some i =>
      let r := ring_at k i in
      check (owned_by p (fst (owners r)) || owned_by p (snd (owners r))) AlreadyIsOwner ;;
      match o_proc (fst (owners r)), o_proc (snd (owners r)) with
      | None, None => dead
      | Some _, Some _ => fail AlreadyTwoOwners
      | _, None => mret (i, true)
      | None, Some _ => mret (i, false)
      end
  | None =>
      match findFreeRingbuf k with
      | None => fail NoFreeRingbuf
      | Some i =>
          activate i name ;;
          k ← get;
          assert (no_owner (ring_at k i)) ;;
          mret (i, false)
      end
  end.

(** The next free page is one page lower. *)
Definition lower (p : nat) : M unit :=
  modify (on_proc p (fun u => UProc (u_pt u) (u64 (u_top u - page_size)) (u_owned u))).

(** Maps pages downwards from the top free page; [inl e] for an error. *)
Fixpoint map_down (p : nat) (pages : list (option Z)) : M (option kerr) :=
  match pages with
  | [] => mret None
  | None :: _ => dead
  | Some page :: pages =>
      k ← get;
      match Kmem.map (vm_at k p) (u_top (proc_at k p)) page page_size rw true with
      | (Ok _, s) =>
          modify (with_vm p s) ;;
          lower p ;;
          map_down p pages
      | (Err e, s) => modify (with_vm p s) ;; mret (Some e)
      | (Panic, s) => modify (with_vm p s) ;; dead
      end
  end.

(** The [errdefer]. *)
Definition undo (i : nat) (w : bool) (e : rerr) : M unit :=
  modify (on_ring i (fun r => put_owner w (Owner None (o_vbuf (get_owner w r)) (o_vbook (get_owner w r))) r)) ;;
  modify (on_ring i (fun r => set_refcount (refcount r - 1) r)) ;;
  deactivate i ;;
  fail e.

(** The claimed place gets its owner. *)
Definition own (p : nat) (i : nat) (w : bool) : M unit :=
  modify (on_ring i (fun r => put_owner w (Owner (Some p) (o_vbuf (get_owner w r)) (o_vbook (get_owner w r))) r)) ;;
  modify (on_proc p (fun u => UProc (u_pt u) (u_top u) (u_owned u + 1))) ;;
  modify (on_ring i (fun r => set_refcount (refcount r + 1) r)).

(** From the mapping of the pages to the copy of the address, with the error
    that sends the call to its [errdefer]. *)
Definition attach (p : nat) (i : nat) (w : bool) (addr_va : Z) : M (option rerr) :=
  k ← get;
  let pages := buf_pages (ring_at k i) in
  mapped ← map_down p (pages ++ pages ++ [book_page (ring_at k i)]);
  match mapped with
  | Some _ => mret (Some MapPagesFailed)
  | None =>
      k ← get;
      let top := u_top (proc_at k p) in
      let ringbuf_loc := u64 (top + 2 * page_size) in
      modify (on_ring i (fun r => put_owner w (Owner (o_proc (get_owner w r)) ringbuf_loc (u64 (top + page_size))) r)) ;;
      let '(pm, ok) := copyOut (translation_of (vm_at k p)) (k_pm k) addr_va (le_bytes 8 ringbuf_loc) in
      modify (with_pm pm) ;;
      mret (if ok then None else Some CopyOutFailed)
  end.

Definition ringbuf_open (p : nat) (name : list Z) (addr_va : Z) : M unit :=
  check (bad_name name) BadNameLength ;;
  iw ← claim p name;
  let '(i, w) := iw in
  own p i w ;;
  e ← attach p i w addr_va;
  match e with
  | Some e => undo i w e
  | None => lower p
  end.

Definition ringbuf_close (p : nat) (name : list Z) (addr_va : Z) : M unit :=
  check (bad_name name) BadNameLength ;;
  k ← get;
  let '(bytes, ok) := copyIn (translation_of (vm_at k p)) (k_pm k) addr_va 8 in
  check (negb ok) CopyInFailed ;;
  match findRingbufByName name k with
  | None => fail NameNotFound
  | Some i =>
      let vaddr := of_le bytes in
      check (vaddr =? 0) NoAddrGiven ;;
      match find_owner p (ring_at k i) with
      | None => fail NotOwner
      | Some w =>
          let o := get_owner w (ring_at k i) in
          check (negb (o_vbuf o =? vaddr)) BadAddr ;;
          check (negb (o_vbook o =? vaddr - page_size)) BadAddr ;;
          check (refcount (ring_at k i) =? 0) AlreadyInactive ;;
          assert (match book_page (ring_at k i) with Some _ => true | None => false end) ;;
          disownIfOwned p i ;;
          k ← get;
          if u_top (proc_at k p) =? vaddr - 3 * page_size then
            modify (on_proc p (fun u => UProc (u_pt u) (u64 (u_top u + page_size * (1 + 1 + 2 * Z.of_nat RINGBUF_SIZE))) (u_owned u)))
          else mret tt
      end
  end.

(** What [free] of process.zig does with the buffers of a process, and only that.  The
    [freePageTable] that follows (KUvm.v) panics on a leaf that is still there, as
    those are that a failed open has left. *)
Definition ringbuf_disown_all (p : nat) : M unit :=
  k ← get;
  foldr (fun i rest => disownIfOwned p i ;; rest) (mret tt) (seq 0 (length (k_rings k))).
Definition free_rings (p : nat) : M unit :=
  k ← get;
  if 0 <? u_owned (proc_at k p) then ringbuf_disown_all p else mret tt.

(** The registers of the call; [@enumFromInt] of another operation is illegal. *)
Definition sys_ringbuf (p : nat) (a0 a1 a2 : Z) : M Z := fun k =>
  let code (r : out unit * kst) : out Z * kst :=
    match r with
    | (Good _, k) => (Good 0, k)
    | (Fail e, k) => (Good (intFromErr e), k)
    | (Dead, k) => (Dead, k)
    end in
  match (if a0 =? 0 then None else copyInString (translation_of (vm_at k p)) (k_pm k) a0 (Z.to_nat MAX_NAME_LEN)) with
  | None => (Good (intFromErr BadNameLength), k)
  | Some name =>
      if a2 =? 0 then (Good (intFromErr NoAddrGiven), k)
      else if a1 =? 1 then code (ringbuf_open p name a2 k)
      else if a1 =? 0 then code (ringbuf_close p name a2 k)
      else (Dead, k)
  end.
End Kernel.
