(* ===== verification/KRingSpec.v ===== *)
(** What the ring-buffer system call promises: the table of buffers stays sound,
    no page is lost, and the owners of a buffer share its pages. *)

From S2P Require Import Prelude Mem.
From stdpp Require Import base gmap list.
From S2P Require Import Kmem KmemSpec Boundary KRing.

Local Open Scope Z_scope.
Local Open Scope zm_scope.

(** * Running the calls *)

Lemma run_bind {A B} (m : M A) (f : A -> M B) k o k' : m k = (o, k') ->
  (m ≫= f) k = match o with Good a => f a k' | Fail e => (Fail e, k') | Dead => (Dead, k') end.
Proof. intros E. unfold mbind, M_bind. rewrite E. destruct o; reflexivity. Qed.

Lemma run_good {A B} (m : M A) (f : A -> M B) k a k' : m k = (Good a, k') -> (m ≫= f) k = f a k'.
Proof. apply (run_bind m f k (Good a)). Qed.

(** A step whose result is computed by unfolding. *)
Ltac rstep := erewrite run_good by reflexivity; cbv beta.
Ltac rrun H := erewrite run_good by exact H; cbv beta.

(** * Lists updated at a place *)

Lemma flat_map_set {A B} (f : A -> list B) l i x d : (i < length l)%nat ->
  f (nth i l d) ++ flat_map f (list_set l i x) ≡ₚ f x ++ flat_map f l.
Proof.
  revert i. induction l as [|y l IH]; intros [|i] H; cbn in *; try lia; [solve_Permutation|].
  rewrite (Permutation_app_swap_app (f (nth i l d))), IH by lia. solve_Permutation.
Qed.

Fixpoint total {A} (f : A -> nat) (l : list A) : nat := match l with [] => 0%nat | x :: l => (f x + total f l)%nat end.

Lemma total_set {A} (f : A -> nat) l i x d : (i < length l)%nat ->
  (f (nth i l d) + total f (list_set l i x) = f x + total f l)%nat.
Proof.
  revert i. induction l as [|y l IH]; intros [|i] H; cbn in *; try lia. specialize (IH i ltac:(lia)). lia.
Qed.

Lemma total_nth {A} (f : A -> nat) l i d : (i < length l)%nat -> (f (nth i l d) <= total f l)%nat.
Proof. revert i. induction l as [|y l IH]; intros [|i] H; cbn in *; try lia. specialize (IH i ltac:(lia)). lia. Qed.

Create Rewrite HintDb kring.
#[export] Hint Rewrite @set_set @list_set_length : kring.

Section Kernel.
Context (kernel_end physical_stop : Z) (Stop : 0 <= kernel_end /\ physical_stop <= 2 ^ 63).
Variable garbage : list Z.
Abbreviation in_memory := (in_memory kernel_end physical_stop).
Abbreviation vm_wf := (KmemSpec.wf kernel_end physical_stop).
Abbreviation freePage := (freePage kernel_end physical_stop).
Abbreviation free_pages := (free_pages kernel_end physical_stop).
Abbreviation activate := (activate kernel_end physical_stop garbage).
Abbreviation deactivate := (deactivate kernel_end physical_stop).

(** * Pages *)

Definition in_pages (ps : list Z) (x : Z) : Prop := Exists (fun q => q <= x < q + page_size) ps.
#[local] Instance in_pages_dec ps x : Decision (in_pages ps x).
Proof. unfold in_pages. apply _. Defined.

Lemma fill_page_in pm p v x : p <= x < p + page_size -> fill_page pm p v x = v.
Proof. intros B. unfold fill_page. rewrite (proj2 (Z.leb_le _ _)), (proj2 (Z.ltb_lt _ _)) by lia. reflexivity. Qed.
Lemma fill_page_out pm p v x : ~ p <= x < p + page_size -> fill_page pm p v x = pm x.
Proof.
  intros B. unfold fill_page. destruct (p <=? x) eqn:L; [|reflexivity].
  rewrite (proj2 (Z.ltb_ge _ _)) by (apply Z.leb_le in L; lia). reflexivity.
Qed.

Lemma freePage_run fl pm procs rings p : in_memory p ->
  freePage p (K fl pm procs rings) = (Good tt, K (p :: fl) (fill_page pm p 1) procs rings).
Proof. intros I. unfold KRing.freePage. cbn [k_fl]. rewrite freePage_ok by exact I. reflexivity. Qed.

Lemma free_pages_run ps : forall fl pm procs rings, Forall in_memory ps ->
  exists pm', free_pages (List.map Some ps) (K fl pm procs rings) = (Good tt, K (rev ps ++ fl) pm' procs rings).
Proof.
  induction ps as [|p ps IH]; intros fl pm procs rings F; cbn; [eauto|]. inv F.
  rrun (freePage_run fl pm procs rings p H1). destruct (IH (p :: fl) (fill_page pm p 1) procs rings H2) as (pm' & ->).
  exists pm'. rewrite <- app_assoc. reflexivity.
Qed.

Lemma alloc_pages_run n procs rings : forall fl pm,
  exists ps fl' pm', alloc_pages n (K fl pm procs rings) = (Good ps, K fl' pm' procs rings) /\
    fl = ps ++ fl' /\ (length ps <= n)%nat /\ ((length ps < n)%nat -> fl' = []) /\
    (forall x, in_pages ps x -> pm' x = 5) /\ (forall x, ~ in_pages ps x -> pm' x = pm x).
Proof.
  induction n as [|n IH]; intros fl pm; cbn [alloc_pages].
  { exists [], fl, pm. repeat split; auto; try (cbn; lia). intros x Q. inversion Q. }
  destruct fl as [|p fl].
  { rstep. exists [], [], pm. repeat split; auto; try (cbn; lia). intros x Q. inversion Q. }
  erewrite run_good by reflexivity. cbv beta iota. destruct (IH fl (fill_page pm p 5)) as (ps & fl' & pm' & E & -> & L & S' & I & O).
  rrun E. exists (p :: ps), fl', pm'. split; [reflexivity|]. split; [reflexivity|]. cbn [length]. split; [lia|].
  split; [intros; apply S'; lia|]. split; intros x P.
  - destruct (decide (in_pages ps x)) as [Px|Px]; [auto|]. rewrite O by exact Px. apply fill_page_in.
    inv P; [assumption|contradiction].
  - rewrite O by (intros Q; apply P; right; exact Q). apply fill_page_out. intros B. apply P. left. exact B.
Qed.

(** * Taking and giving back the pages of a buffer *)

Definition inactive (r : ring) : Prop :=
  refcount r = 0 /\ buf_pages r = repeat None RINGBUF_SIZE /\ book_page r = None /\ no_owner r = true.

Definition ring_with (r : ring) (name : list Z) (ps : list Z) (b : Z) : ring :=
  Ring (refcount r) (owners r) name (List.map Some ps) (Some b).

(** Nothing is left in a fresh buffer of what its pages held. *)
Definition wiped (ps : list Z) (b : Z) (pm : mem) : Prop :=
  (forall x, in_pages ps x -> pm x = 5) /\ (forall x, b <= x < b + 16 -> pm x = 0).

Lemma check_pass {bad : bool} {e} {k : kst} : bad = false -> check bad e k = (Good tt, k).
Proof. intros ->. reflexivity. Qed.
Lemma check_fail {bad : bool} {e} {k : kst} : bad = true -> check bad e k = (Fail e, k).
Proof. intros ->. reflexivity. Qed.
Lemma assert_pass {good : bool} {k : kst} : good = true -> assert good k = (Good tt, k).
Proof. intros ->. reflexivity. Qed.

Lemma pad_none {A} n : (n <= RINGBUF_SIZE)%nat ->
  repeat None n ++ skipn n (repeat None RINGBUF_SIZE) = repeat (None (A:=A)) RINGBUF_SIZE.
Proof. unfold RINGBUF_SIZE. intros H. do 17 (destruct n as [|n]; [reflexivity|]). lia. Qed.

Lemma page_disjoint p q x : in_memory p -> in_memory q -> p <= x < p + page_size -> q <= x < q + page_size -> p = q.
Proof. change page_size with 4096. intros [_ P] [_ Q] Bp Bq. rewrite <- P, <- Q in *. lia. Qed.

Lemma not_in_pages ps b x : Forall in_memory ps -> in_memory b -> b ∉ ps -> b <= x < b + page_size -> ~ in_pages ps x.
Proof.
  intros F I N B P. apply N. induction P as [q ps Q|q ps P IH]; inv F.
  - rewrite (page_disjoint b q x) by assumption. left.
  - right. apply IH; [assumption|]. intros H. apply N. right. exact H.
Qed.

Lemma store_zeros pm b x : b <= x < b + 16 -> store pm b (repeat 0 16) x = 0.
Proof.
  intros B. unfold store. rewrite (proj2 (Z.leb_le _ _)), (proj2 (Z.ltb_lt _ _)) by (cbn; lia). cbn [andb].
  apply nth_repeat.
Qed.
Lemma store_zeros_out pm b x : ~ b <= x < b + 16 -> store pm b (repeat 0 16) x = pm x.
Proof.
  intros B. unfold store. destruct (b <=? x) eqn:L; [|reflexivity].
  rewrite (proj2 (Z.ltb_ge _ _)) by (apply Z.leb_le in L; cbn; lia). reflexivity.
Qed.

Ltac ksimpl := unfold on_ring, on_proc, with_vm, with_pm, ring_at, proc_at in *; cbn [k_fl k_pm k_procs k_rings] in *;
  rewrite ?nth_set_eq, ?set_set by (rewrite ?list_set_length; assumption).
Ltac kstep := erewrite run_good by reflexivity; cbv beta; ksimpl.

Lemma activate_run i name fl pm procs rings (r := nth i rings ring0) :
  (i < length rings)%nat -> inactive r -> bad_name name = false -> Forall in_memory fl ->
  (exists ps b fl' pm', fl = ps ++ b :: fl' /\ length ps = RINGBUF_SIZE /\ (NoDup fl -> wiped ps b pm') /\
     activate i name (K fl pm procs rings) =
       (Good tt, K fl' pm' procs (list_set rings i (ring_with r (name_bytes garbage name) ps b)))) \/
  (exists fl' pm', fl' ≡ₚ fl /\ (length fl <= RINGBUF_SIZE)%nat /\
     activate i name (K fl pm procs rings) =
       (Fail NoMemory, K fl' pm' procs (list_set rings i (set_name (name_bytes garbage name) r)))).
Proof.
  intros Hi (R0 & Rp & Rb & Ro) Hn Fm. unfold KRing.activate. kstep. fold r. rewrite R0. change (0 <? 0) with false.
  rrun (@check_pass false AlreadyActive (K fl pm procs rings) eq_refl).
  rrun (@check_pass _ BadNameLength (K fl pm procs rings) Hn). kstep. fold r.
  set (r1 := set_name (name_bytes garbage name) r).
  destruct (alloc_pages_run RINGBUF_SIZE procs (list_set rings i r1) fl pm) as (ps & fl1 & pm1 & E & -> & L & S1 & I1 & O1).
  rrun E. kstep. change (buf_pages r1) with (buf_pages r). change (book_page r1) with (book_page r). rewrite Rp, Rb.
  apply Forall_app in Fm as [F1 F2]. destruct fl1 as [|b fl1].
  - (* no page for the book *)
    right. kstep. kstep. cbn [book_page set_pages].
    destruct (free_pages_run ps [] pm1 procs (list_set rings i (set_pages (List.map Some ps ++ skipn (length ps) (repeat None RINGBUF_SIZE)) None r1)) F1) as (pm2 & E2).
    rrun E2. kstep. exists (rev ps ++ []), pm2. split; [rewrite <- Permutation_rev; reflexivity|].
    rewrite app_nil_r in *. split; [exact L|]. cbn [buf_pages book_page set_pages fail].
    unfold fail. repeat f_equal. rewrite skipn_app, length_map, Nat.sub_diag, skipn_all2 by (rewrite length_map; lia).
    cbn [app]. rewrite drop_0, pad_none by exact L. unfold r1, set_name, set_pages.
    cbn [refcount owners name_buf]. rewrite Rp, Rb. reflexivity.
  - assert (L16 : (length ps = RINGBUF_SIZE)%nat).
    { destruct (Nat.eq_dec (length ps) RINGBUF_SIZE) as [->|N]; [reflexivity|]. specialize (S1 ltac:(lia)). discriminate. }
    left. kstep. kstep. cbn [buf_pages set_pages]. rewrite L16. change (16 =? RINGBUF_SIZE)%nat with true. cbv iota.
    exists ps, b, fl1. eexists. split; [reflexivity|]. split; [exact L16|]. split; cycle 1.
    + unfold modify. ksimpl. unfold ring_with, set_pages. cbn [refcount owners name_buf]. rewrite skipn_all2, app_nil_r by (rewrite repeat_length; unfold RINGBUF_SIZE in *; lia).
      reflexivity.
    + intros Nd. apply NoDup_app in Nd as (_ & Nd & _). inv F2. split; intros x B.
      * assert (~ b <= x < b + page_size).
        { intros Bb. refine (not_in_pages ps b x F1 H1 _ Bb B). intros Ib. apply (Nd b Ib). left. }
        rewrite store_zeros_out by (change page_size with 4096 in *; lia). cbn [k_pm]. rewrite fill_page_out by assumption. auto.
      * rewrite store_zeros by exact B. reflexivity.
Qed.

(** * Mapping and unmapping runs of pages *)

(** [qs] are mapped downwards from page [t], where nothing was; nothing else has changed. *)
Record down (t : Z) (qs : list Z) (m m' : gmap Z pte) : Prop := {
  dn_old x : ~ t - len qs < x <= t -> m' !! x = m !! x;
  dn_new j q : qs !! j = Some q -> m' !! (t - Z.of_nat j) = Some (Pte q rw true) /\ m !! (t - Z.of_nat j) = None;
}.

Lemma down_nil t m : down t [] m m.
Proof. split; [auto|]. intros j q H. rewrite lookup_nil in H. discriminate. Qed.

Lemma down_cons t q qs m m' : m !! t = None -> down (t - 1) qs (<[t := Pte q rw true]> m) m' -> down t (q :: qs) m m'.
Proof.
  intros N [O W]. split.
  - intros x B. cbn [length] in B. rewrite O by lia. apply lookup_insert_ne. lia.
  - intros [|j] q' H.
    + cbn in H. injection H as <-. rewrite Z.sub_0_r. split; [|exact N]. rewrite O by lia. apply lookup_insert_eq.
    + cbn in H. apply W in H as [H1 H2]. replace (t - 1 - Z.of_nat j) with (t - Z.of_nat (S j)) in * by lia.
      split; [exact H1|]. rewrite lookup_insert_ne in H2 by lia. exact H2.
Qed.

Lemma down_sub t qs m m' : down t qs m m' -> m ⊆ m'.
Proof.
  intros [O W]. apply map_subseteq_spec. intros x e H.
  destruct (decide (t - len qs < x <= t)) as [B|B]; [|rewrite O by exact B; exact H].
  destruct (lookup_lt_is_Some_2 qs (Z.to_nat (t - x)) ltac:(lia)) as [q Q]. apply W in Q as [_ Q].
  replace (t - Z.of_nat (Z.to_nat (t - x))) with x in Q by lia. congruence.
Qed.

Definition page_ok (q : Z) : Prop := 0 <= q < 2 ^ 63 /\ 4096 * (q / 4096) = q.

Lemma in_memory_page q : in_memory q -> page_ok q.
Proof. intros [B A]. split; [lia|exact A]. Qed.

Lemma map_down_run p pm procs rings qs : forall t fl u (s := Vm fl (u_pt u)),
  (p < length procs)%nat -> vm_wf s -> u_top u = 4096 * t -> len qs <= t < pages_max -> Forall page_ok qs ->
  exists n s' o, map_down p (List.map Some qs) (K fl pm (list_set procs p u) rings) =
      (Good o, K (Kmem.fl s') pm (list_set procs p (UProc (pt s') (4096 * (t - Z.of_nat n)) (u_owned u))) rings) /\
    (n <= length qs)%nat /\ (o = None -> n = length qs) /\ grows s s' /\ vm_wf s' /\
    down t (firstn n qs) (pt_leaves (pt s)) (pt_leaves (pt s')).
Proof.
  induction qs as [|q qs IH]; intros t fl u s Hp W T B F.
  { exists 0%nat, s, None. cbn. split; [|split; [lia|split; [auto|split; [apply grows_refl|split; [exact W|apply down_nil]]]]].
    rewrite Z.sub_0_r, <- T. destruct u; reflexivity. }
  inv F. destruct H1 as [Bq Aq]. cbn [length] in B.
  cbn [List.map map_down]. kstep. unfold vm_at. ksimpl. rewrite T.
  destruct (map_page kernel_end physical_stop s t q rw true W ltac:(lia) Bq Aq) as (s1 & G & L1 & [(e & E)|(N & E & W1)]).
  - subst s. rewrite E. exists 0%nat, s1, (Some e). cbn [firstn length].
    split; [|split; [lia|split; [discriminate|split; [exact G|split; [exact (wf_grows _ _ _ _ W G L1)|]]]]].
    + kstep. rewrite Z.sub_0_r, <- T. reflexivity.
    + rewrite L1. apply down_nil.
  - subst s. rewrite E. kstep. unfold lower. kstep. cbn [u_pt u_top u_owned]. rewrite T. change page_size with 4096.
    rewrite u64_small by (unfold pages_max in *; lia). replace (4096 * t - 4096) with (4096 * (t - 1)) by lia.
    set (s2 := set_leaf s1 t (Pte q rw true)) in *.
    destruct (IH (t - 1) (Kmem.fl s2) (UProc (pt s2) (4096 * (t - 1)) (u_owned u)) Hp) as (n & s3 & o & E3 & Ln & Lo & G3 & W3 & D3).
    { destruct s2. exact W1. } { reflexivity. } { lia. } { exact H2. }
    exists (S n), s3, o. cbn [u_owned u_pt] in *.
    replace (4096 * (t - Z.of_nat (S n))) with (4096 * (t - 1 - Z.of_nat n)) by lia.
    split; [exact E3|]. split; [cbn [length]; lia|]. split; [intros Ho; cbn [length]; rewrite Lo by exact Ho; reflexivity|].
    split; [|split; [exact W3|]].
    + eapply grows_trans; [exact G|]. destruct G3 as [P3 M3 L3]. split; [exact P3|exact M3|exact L3].
    + cbn [firstn]. apply down_cons; [exact N|]. cbn [pt pt_leaves] in *. rewrite <- L1. exact D3.
Qed.

(** [n] pages from page [v] on are unmapped, without being freed. *)
Lemma unmap_loop_run n : forall i v s,
  vm_wf s -> 0 <= v -> 0 <= i ->
  (forall j, 0 <= j < Z.of_nat n -> exists q, pt_leaves (pt s) !! (v + i + j) = Some (Pte q rw true)) ->
  exists s', unmap_loop kernel_end physical_stop n i s (4096 * v) false = (Ok tt, s') /\ vm_wf s' /\
    Kmem.fl s' = Kmem.fl s /\ tables (pt s') = tables (pt s) /\
    (forall x, pt_leaves (pt s') !! x = if decide (v + i <= x < v + i + Z.of_nat n) then None else pt_leaves (pt s) !! x).
Proof.
  induction n as [|n IH]; intros i v s W V I H; cbn [unmap_loop].
  { exists s. do 4 (split; [first [reflexivity|exact W]|]). intros x. rewrite decide_False by lia. reflexivity. }
  destruct (H 0 ltac:(lia)) as [q Q]. rewrite Z.add_0_r in Q. destruct (wf_leaves _ _ _ W _ _ Q) as (B & _).
  change page_size with 4096. rewrite u64_small by (unfold pages_max in B; lia).
  replace (4096 * v + 4096 * i) with (4096 * (v + i)) by lia.
  rewrite (walk_present _ _ _ _ _ W Q), Q. cbn [pte_perms isBranch rw p_read orb negb].
  destruct (IH (i + 1) v (clear_leaf s (v + i))) as (s' & E & W' & Fl & Tb & Lv); try lia.
  - destruct W as [W1 W2]. split; cbn; [|exact W2]. intros j e Hj.
    destruct (decide (j = v + i)) as [->|Ne]; [rewrite lookup_delete_eq in Hj; discriminate|].
    rewrite lookup_delete_ne in Hj by auto. eauto.
  - intros j Bj. cbn. destruct (H (j + 1) ltac:(lia)) as [q' Q']. exists q'. rewrite lookup_delete_ne by lia.
    rewrite <- Q'. f_equal. lia.
  - exists s'. split; [exact E|]. split; [exact W'|]. split; [exact Fl|]. split; [exact Tb|].
    intros x. rewrite Lv. cbn. destruct (decide (v + i <= x < v + i + Z.of_nat (S n))).
    + destruct (decide (v + (i + 1) <= x < v + (i + 1) + Z.of_nat n)); [reflexivity|].
      replace x with (v + i) by lia. apply lookup_delete_eq.
    + rewrite decide_False by lia. apply lookup_delete_ne. lia.
Qed.

(** * Leaving a buffer *)

Lemma deactivate_run i fl pm procs rings ps b (r := nth i rings ring0) :
  (i < length rings)%nat -> buf_pages r = List.map Some ps -> book_page r = Some b -> Forall in_memory ps -> in_memory b ->
  if no_owner r
  then exists pm', deactivate i (K fl pm procs rings) = (Good tt, K (b :: rev ps ++ fl) pm' procs (list_set rings i ring0))
  else exists k', deactivate i (K fl pm procs rings) = (Dead, k').
Proof.
  intros Hi Rp Rb F I. unfold KRing.deactivate.
  destruct (free_pages_run ps fl pm procs rings F) as (pm1 & E).
  assert (St : deactivate i (K fl pm procs rings) = (freePage b ;; assert (no_owner r) ;; modify (on_ring i (fun _ => ring0)))
    (with_pm (store pm1 b (repeat 0 16)) (K (rev ps ++ fl) pm1 procs (list_set rings i (set_pages (List.map (fun _ => None) ps) (Some b) r))))).
  { unfold KRing.deactivate. kstep. fold r. rewrite Rp. rrun E. kstep. kstep. fold r. rewrite Rb, Rp. cbn [book_page set_pages].
    kstep. rewrite List.map_map. change (no_owner (set_pages _ _ r)) with (no_owner r). reflexivity. }
  unfold KRing.deactivate in St. rewrite St. ksimpl. rrun (freePage_run (rev ps ++ fl) (store pm1 b (repeat 0 16)) procs (list_set rings i (set_pages (List.map (fun _ => None) ps) (Some b) r)) b I).
  destruct (no_owner r).
  - eexists. kstep. unfold modify. ksimpl. reflexivity.
  - eexists. reflexivity.
Qed.

(** Where a process has the pages of a buffer: from the top [ps], [ps] again, and
    the book. *)
Definition layout (u : uproc) (o : owner) (ps : list Z) (b : Z) (v : Z) : Prop :=
  2 <= v /\ o_vbuf o = 4096 * v /\ o_vbook o = 4096 * (v - 1) /\
  forall j q, (ps ++ ps ++ [b]) !! j = Some q -> pt_leaves (u_pt u) !! (v + 31 - Z.of_nat j) = Some (Pte q rw true).

Definition left_ (w : bool) (r : ring) : ring := set_refcount (refcount r - 1) (put_owner w owner0 r).

Lemma put_put w o o' r : put_owner w o (put_owner w o' r) = put_owner w o r.
Proof. destruct w, r as [? [] ? ? ?]; reflexivity. Qed.
Lemma get_put w o r : get_owner w (put_owner w o r) = o.
Proof. destruct w; reflexivity. Qed.

Lemma unmap_in_run p fl pm procs rings u v n :
  (p < length procs)%nat -> vm_wf (Vm fl (u_pt u)) -> 0 <= v ->
  (forall j, 0 <= j < n -> exists q, pt_leaves (u_pt u) !! (v + j) = Some (Pte q rw true)) -> 0 <= n ->
  exists t', unmap_in kernel_end physical_stop p (4096 * v) n (K fl pm (list_set procs p u) rings) =
      (Good tt, K fl pm (list_set procs p (UProc t' (u_top u) (u_owned u))) rings) /\
    vm_wf (Vm fl t') /\ tables t' = tables (u_pt u) /\
    (forall x, pt_leaves t' !! x = if decide (v <= x < v + n) then None else pt_leaves (u_pt u) !! x).
Proof.
  intros Hp W V H N. unfold unmap_in, vm_at. ksimpl. unfold unmap.
  assert (Al : isPageAligned (4096 * v) = true).
  { unfold isPageAligned. rewrite offset_mod, (Z.mul_comm 4096 v), Z.mod_mul by lia. reflexivity. }
  rewrite Al. cbn [negb].
  destruct (unmap_loop_run (Z.to_nat n) 0 v (Vm fl (u_pt u)) W V ltac:(lia)) as (s' & E & W' & Fl & Tb & Lv).
  { intros j Bj. cbn. rewrite Z.add_0_r. apply H. lia. }
  rewrite E. exists (pt s'). cbn in Fl. rewrite Fl. ksimpl. split; [reflexivity|]. split; [rewrite <- Fl; destruct s'; exact W'|].
  split; [exact Tb|]. intros x. rewrite Lv, Z.add_0_r, Z2Nat.id by exact N. reflexivity.
Qed.

Lemma disown_run p i w fl pm procs rings u ps b v (r := nth i rings ring0) (o := get_owner w r) :
  (i < length rings)%nat -> (p < length procs)%nat -> find_owner p r = Some w ->
  0 < refcount r -> (refcount r = 1 <-> no_owner (put_owner w owner0 r) = true) ->
  buf_pages r = List.map Some ps -> book_page r = Some b -> Forall in_memory ps -> in_memory b ->
  length ps = RINGBUF_SIZE -> layout u o ps b v -> vm_wf (Vm fl (u_pt u)) -> 0 < u_owned u ->
  exists t' pm' (last := refcount r =? 1),
    disownIfOwned kernel_end physical_stop p i (K fl pm (list_set procs p u) rings) =
      (Good tt, K (if last then b :: rev ps ++ fl else fl) pm' (list_set procs p (UProc t' (u_top u) (u_owned u - 1)))
                  (list_set rings i (if last then ring0 else left_ w r))) /\
    tables t' = tables (u_pt u) /\ vm_wf (Vm fl t') /\
    (forall x, pt_leaves t' !! x = if decide (v - 1 <= x < v + 32) then None else pt_leaves (u_pt u) !! x).
Proof.
  intros Hi Hp Fo Rc Rn Rp Rb F I L (Bv & Vb & Vk & Lay) W Ow.
  unfold disownIfOwned. kstep. fold r. rewrite Fo. kstep. fold r o.
  assert (Slot : forall j, 0 <= j < 33 -> exists q, pt_leaves (u_pt u) !! (v - 1 + j) = Some (Pte q rw true)).
  { intros j Bj. destruct (lookup_lt_is_Some_2 (ps ++ ps ++ [b]) (Z.to_nat (32 - j))) as [q Q].
    { rewrite !length_app, L. unfold RINGBUF_SIZE. cbn [length]. lia. }
    exists q. apply Lay in Q. rewrite <- Q. f_equal. lia. }
  rewrite Vb, Vk, (proj2 (Z.eqb_neq (4096 * v) 0)), (proj2 (Z.eqb_neq (4096 * (v - 1)) 0)) by lia. cbn [negb]. kstep.
  change (Z.of_nat RINGBUF_SIZE * 2) with 32.
  destruct (unmap_in_run p fl pm procs (list_set rings i (put_owner w (Owner None (4096 * v) (4096 * (v - 1))) r)) u v 32
    Hp W ltac:(lia)) as (t1 & E1 & W1 & T1 & L1); [|lia|].
  { intros j Bj. destruct (Slot (j + 1) ltac:(lia)) as [q Q]. exists q. rewrite <- Q. f_equal. lia. }
  rrun E1. kstep. rewrite get_put, put_put. cbn [o_proc o_vbook]. kstep.
  destruct (unmap_in_run p fl pm procs (list_set rings i (put_owner w (Owner None 0 (4096 * (v - 1))) r))
    (UProc t1 (u_top u) (u_owned u)) (v - 1) 1 Hp W1 ltac:(lia)) as (t2 & E2 & W2 & T2 & L2); [|lia|].
  { intros j Bj. cbn [u_pt]. destruct (Slot 0 ltac:(lia)) as [q Q]. exists q. rewrite L1, decide_False by lia. rewrite <- Q. f_equal. lia. }
  rrun E2. cbn [u_top u_owned]. kstep. rewrite get_put, put_put. cbn [o_proc o_vbuf].
  rrun (@assert_pass (0 <? refcount r) (K fl pm (list_set procs p (UProc t2 (u_top u) (u_owned u)))
    (list_set rings i (put_owner w owner0 r))) (proj2 (Z.ltb_lt _ _) Rc)).
  kstep. set (r2 := set_refcount (refcount (put_owner w owner0 r) - 1) (put_owner w owner0 r)).
  rrun (@assert_pass (0 <? u_owned u) (K fl pm (list_set procs p (UProc t2 (u_top u) (u_owned u)))
    (list_set rings i r2)) (proj2 (Z.ltb_lt _ _) Ow)).
  kstep. kstep. cbn [u_pt u_top u_owned].
  assert (R2 : refcount r2 = refcount r - 1) by (destruct w; reflexivity).
  assert (Lv : forall x, pt_leaves t2 !! x = if decide (v - 1 <= x < v + 32) then None else pt_leaves (u_pt u) !! x).
  { intros x. rewrite L2, L1. repeat case_decide; try reflexivity; lia. }
  assert (Hi' : (i < length (list_set rings i r2))%nat) by (rewrite list_set_length; exact Hi).
  rewrite R2. destruct (refcount r - 1 =? 0) eqn:Z0.
  - apply Z.eqb_eq in Z0.
    pose proof (deactivate_run i fl pm (list_set procs p (UProc t2 (u_top u) (u_owned u - 1))) (list_set rings i r2) ps b Hi') as D.
    rewrite nth_set_eq in D by exact Hi.
    change (buf_pages r2) with (buf_pages (put_owner w owner0 r)) in D. change (book_page r2) with (book_page (put_owner w owner0 r)) in D.
    change (no_owner r2) with (no_owner (put_owner w owner0 r)) in D.
    rewrite (proj1 Rn) in D by lia. destruct D as (pm' & D); [destruct w; exact Rp|destruct w; exact Rb|exact F|exact I|].
    exists t2, pm'. cbv zeta. rewrite (proj2 (Z.eqb_eq (refcount r) 1)) by lia. rewrite D, set_set.
    split; [reflexivity|]. split; [etransitivity; [exact T2|exact T1]|]. split; [exact W2|exact Lv].
  - apply Z.eqb_neq in Z0. exists t2, pm. cbv zeta. rewrite (proj2 (Z.eqb_neq (refcount r) 1)) by lia.
    split; [reflexivity|]. split; [etransitivity; [exact T2|exact T1]|]. split; [exact W2|exact Lv].
Qed.

(** * The table of buffers *)

Definition proc0 : uproc := UProc (PTable 0 ∅ ∅ ∅) 0 0.
Definition owns (p : nat) (r : ring) : bool := owned_by p (fst (owners r)) || owned_by p (snd (owners r)).
Definition has (o : owner) : Z := match o_proc o with Some _ => 1 | None => 0 end.
Definition n_owners (r : ring) : Z := has (fst (owners r)) + has (snd (owners r)).
Definition ring_name (r : ring) : list Z := fst (until_zero (name_buf r)).
Definition ring_pages (r : ring) : list Z := omap id (buf_pages r ++ [book_page r]).
Definition all_pages (fl : list Z) (procs : list uproc) (rings : list ring) : list Z :=
  fl ++ flat_map ring_pages rings ++ flat_map (fun u => tables (u_pt u)) procs.

(** A buffer in use: its owners are two different processes, or one, and each
    has its pages in place. *)
Definition active (procs : list uproc) (r : ring) : Prop :=
  exists ps b, length ps = RINGBUF_SIZE /\ buf_pages r = List.map Some ps /\ book_page r = Some b /\
    0 < refcount r /\ refcount r = n_owners r /\
    (forall p, owned_by p (fst (owners r)) && owned_by p (snd (owners r)) = false) /\
    forall w p, o_proc (get_owner w r) = Some p -> (p < length procs)%nat /\
      exists v, layout (nth p procs proc0) (get_owner w r) ps b v.

Definition leaves_ok (t : ptable) : Prop := forall k e, pt_leaves t !! k = Some e ->
  0 <= k < pages_max /\ is_Some (pt_mids t !! (k / 262144)) /\ is_Some (pt_lows t !! (k / 512)).
Definition top_ok (u : uproc) : Prop := exists t, u_top u = 4096 * t /\ 0 <= t < pages_max.
Definition owned_count (p : nat) (rings : list ring) : nat := total (fun r => Nat.b2n (owns p r)) rings.

Record table_ok (fl : list Z) (procs : list uproc) (rings : list ring) : Prop := {
  tk_mem : Forall in_memory (all_pages fl procs rings);
  tk_nodup : NoDup (all_pages fl procs rings);
  tk_ring i : (i < length rings)%nat -> inactive (nth i rings ring0) \/ active procs (nth i rings ring0);
  tk_name i j : (i < length rings)%nat -> (j < length rings)%nat ->
    0 < refcount (nth i rings ring0) -> 0 < refcount (nth j rings ring0) ->
    ring_name (nth i rings ring0) = ring_name (nth j rings ring0) -> i = j;
  tk_leaf p : (p < length procs)%nat -> leaves_ok (u_pt (nth p procs proc0));
  tk_top p : (p < length procs)%nat -> top_ok (nth p procs proc0);
  tk_owned p : (p < length procs)%nat -> Z.of_nat (owned_count p rings) <= u_owned (nth p procs proc0);
}.

Lemma ring_pages_active r ps b : buf_pages r = List.map Some ps -> book_page r = Some b -> ring_pages r = ps ++ [b].
Proof.
  unfold ring_pages. intros -> ->. rewrite omap_app. cbn. f_equal.
  induction ps as [|q ps IH]; [reflexivity|]. cbn. f_equal. exact IH.
Qed.

Lemma ring_pages_inactive r : inactive r -> ring_pages r = [].
Proof. intros (_ & Rp & Rb & _). unfold ring_pages. rewrite Rp, Rb. reflexivity. Qed.

Lemma in_flat {A B} (f : A -> list B) l i d x : (i < length l)%nat -> x ∈ f (nth i l d) -> x ∈ flat_map f l.
Proof.
  revert i. induction l as [|y l IH]; intros [|i] H X; cbn in *; try lia; apply elem_of_app; [left; exact X|right].
  apply (IH i); [lia|exact X].
Qed.

Lemma flat_apart {A B} (f : A -> list B) l i j d x :
  NoDup (flat_map f l) -> (i < length l)%nat -> (j < length l)%nat -> i <> j -> x ∈ f (nth i l d) -> x ∉ f (nth j l d).
Proof.
  revert i j. induction l as [|y l IH]; intros i j Nd Hi Hj Ne X Y; cbn [length] in *; [lia|].
  cbn [flat_map] in Nd. apply NoDup_app in Nd as (_ & Nd & Nl).
  destruct i as [|i], j as [|j]; cbn [nth] in *; try lia.
  - apply (Nd x X), (in_flat f l j d); [lia|exact Y].
  - apply (Nd x Y), (in_flat f l i d); [lia|exact X].
  - apply (IH i j Nl); auto; lia.
Qed.

Lemma table_vm fl procs rings p : table_ok fl procs rings -> (p < length procs)%nat ->
  vm_wf (Vm fl (u_pt (nth p procs proc0))).
Proof.
  intros T Hp. split; [exact (tk_leaf _ _ _ T p Hp)|]. cbn. intros x X.
  pose proof (tk_mem _ _ _ T) as F. unfold all_pages in F. rewrite Forall_forall in F. apply F.
  apply elem_of_app in X as [X|X]; apply elem_of_app; [left; exact X|right]. apply elem_of_app. right.
  exact (in_flat (fun u => tables (u_pt u)) procs p proc0 x Hp X).
Qed.

(** The pages after a change of one buffer and one process. *)
Lemma all_pages_set fl fl' procs rings p i u r :
  (p < length procs)%nat -> (i < length rings)%nat ->
  fl ++ ring_pages (nth i rings ring0) ++ tables (u_pt (nth p procs proc0)) ≡ₚ fl' ++ ring_pages r ++ tables (u_pt u) ->
  all_pages fl' (list_set procs p u) (list_set rings i r) ≡ₚ all_pages fl procs rings.
Proof.
  intros Hp Hi P. unfold all_pages.
  pose proof (flat_map_set ring_pages rings i r ring0 Hi) as Pr.
  pose proof (flat_map_set (fun u => tables (u_pt u)) procs p u proc0 Hp) as Pp. cbn beta in Pp.
  apply (Permutation_app_inv_l (ring_pages (nth i rings ring0) ++ tables (u_pt (nth p procs proc0)))).
  transitivity (fl' ++ (ring_pages (nth i rings ring0) ++ flat_map ring_pages (list_set rings i r)) ++
    (tables (u_pt (nth p procs proc0)) ++ flat_map (fun u => tables (u_pt u)) (list_set procs p u))); [solve_Permutation|].
  rewrite Pr, Pp.
  transitivity ((fl' ++ ring_pages r ++ tables (u_pt u)) ++ flat_map ring_pages rings ++ flat_map (fun u => tables (u_pt u)) procs);
    [solve_Permutation|]. rewrite <- P. solve_Permutation.
Qed.

Lemma active_mono procs p u r : (p < length procs)%nat ->
  (forall x q, pt_leaves (u_pt (nth p procs proc0)) !! x = Some (Pte q rw true) -> q ∈ ring_pages r ->
    pt_leaves (u_pt u) !! x = Some (Pte q rw true)) ->
  active procs r -> active (list_set procs p u) r.
Proof.
  intros Hp H (ps & b & L & Rp & Rb & R0 & Rn & Rd & Ro). exists ps, b. do 6 (split; [assumption|]).
  intros w q Q. destruct (Ro w q Q) as [Hq (v & B & V1 & V2 & Lay)]. rewrite list_set_length. split; [exact Hq|]. exists v.
  destruct (decide (p = q)) as [<-|Ne]; [|rewrite nth_set_ne by exact Ne; repeat split; auto].
  rewrite nth_set_eq by exact Hp. split; [exact B|]. split; [exact V1|]. split; [exact V2|].
  intros j q' J. apply H; [exact (Lay j q' J)|]. rewrite (ring_pages_active r ps b Rp Rb).
  apply list_elem_of_lookup_2 in J. rewrite !elem_of_app in *. tauto.
Qed.

(** One buffer and one process change. *)
Lemma table_set fl fl' procs rings p i u r :
  table_ok fl procs rings -> (p < length procs)%nat -> (i < length rings)%nat ->
  fl ++ ring_pages (nth i rings ring0) ++ tables (u_pt (nth p procs proc0)) ≡ₚ fl' ++ ring_pages r ++ tables (u_pt u) ->
  inactive r \/ active (list_set procs p u) r ->
  (0 < refcount r -> forall j, (j < length rings)%nat -> j <> i -> 0 < refcount (nth j rings ring0) ->
    ring_name (nth j rings ring0) <> ring_name r) ->
  leaves_ok (u_pt u) -> top_ok u ->
  (forall q, q <> p -> owns q r = true -> owns q (nth i rings ring0) = true) ->
  Z.of_nat (Nat.b2n (owns p r)) + u_owned (nth p procs proc0) <= Z.of_nat (Nat.b2n (owns p (nth i rings ring0))) + u_owned u ->
  (forall x q, pt_leaves (u_pt (nth p procs proc0)) !! x = Some (Pte q rw true) -> q ∉ ring_pages (nth i rings ring0) ->
    pt_leaves (u_pt u) !! x = Some (Pte q rw true)) ->
  table_ok fl' (list_set procs p u) (list_set rings i r).
Proof.
  intros T Hp Hi P A Nm Lf Tp Oq Op Lv. pose proof (all_pages_set fl fl' procs rings p i u r Hp Hi P) as Pa.
  destruct T as [Tm Tn Tr Tname Tl Tt To]. split.
  - rewrite Pa. exact Tm.
  - rewrite Pa. exact Tn.
  - intros j Hj. rewrite list_set_length in Hj. destruct (decide (i = j)) as [<-|Ne]; [rewrite nth_set_eq by exact Hi; exact A|].
    rewrite nth_set_ne by exact Ne. destruct (Tr j Hj) as [I|Aj]; [left; exact I|right].
    apply active_mono; [exact Hp| |exact Aj]. intros x q X Q. apply Lv; [exact X|].
    apply (flat_apart ring_pages rings j i ring0); auto. unfold all_pages in Tn.
    apply NoDup_app in Tn as (_ & _ & Tn). apply NoDup_app in Tn as (Tn & _ & _). exact Tn.
  - intros j k. rewrite list_set_length. intros Hj Hk.
    destruct (decide (i = j)) as [<-|Nj], (decide (i = k)) as [<-|Nk]; rewrite ?nth_set_eq, ?nth_set_ne by assumption.
    + reflexivity.
    + intros R1 R2 E. destruct (Nm R1 k Hk (not_eq_sym Nk) R2). symmetry. exact E.
    + intros R1 R2 E. destruct (Nm R2 j Hj (not_eq_sym Nj) R1 E).
    + auto.
  - intros q Hq. rewrite list_set_length in Hq. destruct (decide (p = q)) as [<-|Ne]; [rewrite nth_set_eq by exact Hp; exact Lf|].
    rewrite nth_set_ne by exact Ne. auto.
  - intros q Hq. rewrite list_set_length in Hq. destruct (decide (p = q)) as [<-|Ne]; [rewrite nth_set_eq by exact Hp; exact Tp|].
    rewrite nth_set_ne by exact Ne. auto.
  - intros q Hq. rewrite list_set_length in Hq. unfold owned_count.
    pose proof (total_set (fun r => Nat.b2n (owns q r)) rings i r ring0 Hi) as S. cbn beta in S.
    specialize (To q Hq). unfold owned_count in To. destruct (decide (p = q)) as [<-|Ne].
    + rewrite nth_set_eq by exact Hp. lia.
    + rewrite nth_set_ne by exact Ne. assert (Nat.b2n (owns q r) <= Nat.b2n (owns q (nth i rings ring0)))%nat; [|lia].
      specialize (Oq q (not_eq_sym Ne)). destruct (owns q r); [rewrite Oq by reflexivity|]; cbn; lia.
Qed.

(** * Who maps a page *)

(** Process [p] owns the buffer, [g] is one of its pages, and page [x] of the
    process is in the place that the buffer has there. *)
Definition at_place (p : nat) (r : ring) (x g : Z) : Prop :=
  g ∈ ring_pages r /\ exists w, o_proc (get_owner w r) = Some p /\ o_vbook (get_owner w r) <= 4096 * x < o_vbuf (get_owner w r) + 32 * 4096.

(** No process reaches a page that is free, holds a page table, or is part of a
    buffer, but for the owners of the buffer in its place. *)
Definition private (fl : list Z) (procs : list uproc) (rings : list ring) : Prop :=
  forall p x e, (p < length procs)%nat -> pt_leaves (u_pt (nth p procs proc0)) !! x = Some e -> pte_page e ∈ all_pages fl procs rings ->
    exists i, (i < length rings)%nat /\ at_place p (nth i rings ring0) x (pte_page e).

(** A change of one process and one buffer that lets no page out. *)
Definition guarded (p : nat) (u u' : uproc) (r r' : ring) : Prop :=
  (forall q x g, q <> p -> at_place q r x g -> at_place q r' x g) /\
  (forall x e, pt_leaves (u_pt u') !! x = Some e -> at_place p r' x (pte_page e) \/
     (pt_leaves (u_pt u) !! x = Some e /\ ~ at_place p r x (pte_page e))).

Lemma private_set fl fl' procs rings p i u r :
  (p < length procs)%nat -> (i < length rings)%nat ->
  all_pages fl' (list_set procs p u) (list_set rings i r) ≡ₚ all_pages fl procs rings ->
  guarded p (nth p procs proc0) u (nth i rings ring0) r ->
  private fl procs rings -> private fl' (list_set procs p u) (list_set rings i r).
Proof.
  intros Hp Hi P [Go Gp] Pr q x e Hq X In. rewrite list_set_length in Hq. rewrite P in In. rewrite list_set_length.
  assert (Old : pt_leaves (u_pt (nth q procs proc0)) !! x = Some e -> (at_place q (nth i rings ring0) x (pte_page e) -> at_place q r x (pte_page e)) ->
    exists j, (j < length rings)%nat /\ at_place q (nth j (list_set rings i r) ring0) x (pte_page e)).
  { intros X' K. destruct (Pr q x e Hq X' In) as (j & Hj & A). exists j. split; [exact Hj|].
    destruct (decide (i = j)) as [<-|Ne]; [rewrite nth_set_eq by exact Hi; auto|rewrite nth_set_ne by exact Ne; exact A]. }
  destruct (decide (p = q)) as [<-|Ne].
  - rewrite nth_set_eq in X by exact Hp. destruct (Gp x e X) as [A|[X' N]]; [exists i; rewrite nth_set_eq by exact Hi; auto|].
    apply Old; [exact X'|]. intros A. destruct (N A).
  - rewrite nth_set_ne in X by exact Ne. apply Old; [exact X|]. apply Go. auto.
Qed.

Lemma place_owns p r x g : at_place p r x g -> owns p r = true.
Proof.
  intros (_ & w & O & _). unfold owns, owned_by. destruct w; cbn in O; rewrite O, Nat.eqb_refl; [apply orb_true_r|reflexivity].
Qed.

Lemma guarded_same p u u' r r' : pt_leaves (u_pt u') = pt_leaves (u_pt u) ->
  ring_pages r' = ring_pages r -> owners r' = owners r -> owns p r = false -> guarded p u u' r r'.
Proof.
  intros L R O N. split.
  - intros q x g _ (G & w & A). split; [rewrite R; exact G|]. exists w. replace (get_owner w r') with (get_owner w r); [exact A|].
    unfold get_owner. rewrite O. reflexivity.
  - intros x e X. right. rewrite <- L. split; [exact X|]. intros A. apply place_owns in A. congruence.
Qed.

(** * Closing and exiting *)

Lemma inactive0 : inactive ring0.
Proof. repeat split. Qed.

Lemma find_owner_owns p r : find_owner p r = None <-> owns p r = false.
Proof. unfold find_owner, owns. destruct (owned_by p (fst _)), (owned_by p (snd _)); cbn; split; congruence. Qed.

Lemma find_owner_some p r w : find_owner p r = Some w -> o_proc (get_owner w r) = Some p.
Proof.
  unfold find_owner, owned_by. intros H.
  destruct (o_proc (fst (owners r))) as [a|] eqn:A; [destruct (Nat.eqb_spec a p) as [->|]; [inv H; exact A|]|];
    (destruct (o_proc (snd (owners r))) as [b|] eqn:B; [destruct (Nat.eqb_spec b p) as [->|]; [inv H; exact B|]|]); discriminate.
Qed.

Lemma inactive_free p r : inactive r -> owns p r = false.
Proof. intros (_ & _ & _ & N). unfold owns, owned_by, no_owner in *. destruct (o_proc _), (o_proc _); try discriminate. reflexivity. Qed.

Lemma owner_left w p r :
  o_proc (get_owner w r) = Some p -> owned_by p (fst (owners r)) && owned_by p (snd (owners r)) = false ->
  owns p r = true /\ owns p (put_owner w owner0 r) = false /\
  (forall q, owns q (put_owner w owner0 r) = true -> owns q r = true) /\
  n_owners (put_owner w owner0 r) = n_owners r - 1 /\
  (n_owners r = 1 <-> no_owner (put_owner w owner0 r) = true) /\
  (forall w' q, o_proc (get_owner w' (put_owner w owner0 r)) = Some q -> w' = negb w /\ o_proc (get_owner w' r) = Some q /\
    get_owner w' (put_owner w owner0 r) = get_owner w' r /\ q <> p).
Proof.
  destruct r as [c [[a a1 a2] [b b1 b2]] nm bp bk]. unfold owns, n_owners, has, no_owner, owned_by, put_owner, set_owners, get_owner.
  cbn [owners fst snd]. destruct w; cbn [fst snd o_proc owner0 negb]; intros -> D; rewrite Nat.eqb_refl in *.
  - rewrite andb_true_r in D. rewrite D, orb_true_r. split; [reflexivity|]. split; [reflexivity|]. split; [intros q; rewrite orb_false_r; intros ->; reflexivity|].
    split; [lia|]. split; [destruct a; split; intros; try lia; congruence|]. intros [] q; cbn; [discriminate|]. intros ->.
    apply Nat.eqb_neq in D. auto.
  - cbn [andb orb] in *. rewrite D. split; [reflexivity|]. split; [reflexivity|]. split; [intros q ->; apply orb_true_r|].
    split; [lia|]. split; [destruct b; split; intros; try lia; congruence|]. intros [] q; cbn; [|discriminate]. intros ->.
    apply Nat.eqb_neq in D. auto.
Qed.

(** A process leaves a buffer. *)
Lemma guarded_left p w r u u' ps b v (r' := if refcount r =? 1 then ring0 else left_ w r) :
  o_proc (get_owner w r) = Some p -> owned_by p (fst (owners r)) && owned_by p (snd (owners r)) = false ->
  refcount r = n_owners r -> layout u (get_owner w r) ps b v ->
  (forall x, pt_leaves (u_pt u') !! x = if decide (v - 1 <= x < v + 32) then None else pt_leaves (u_pt u) !! x) ->
  guarded p u u' r r'.
Proof.
  intros O D Rn (_ & Vb & Vk & _) Lv. destruct (owner_left w p r O D) as (_ & _ & _ & _ & Oz & Oo). split.
  - intros q x g Ne (G & w' & Q & B).
    assert (w' = negb w) as -> by (destruct (decide (w' = w)) as [->|N]; [congruence|destruct w, w'; cbn; congruence]).
    assert (Q' : o_proc (get_owner (negb w) (put_owner w owner0 r)) = Some q) by (destruct w; exact Q).
    unfold r'. destruct (Z.eqb_spec (refcount r) 1) as [R1|R1].
    + exfalso. rewrite Rn in R1. apply Oz in R1. unfold no_owner in R1. destruct w; cbn in Q', R1; rewrite Q' in R1; [discriminate|].
      destruct (o_proc _); discriminate.
    + split; [destruct w; exact G|]. exists (negb w). destruct w; exact (conj Q B).
  - intros x e X. right. rewrite Lv in X. destruct (decide _) as [|N]; [discriminate|]. split; [exact X|].
    intros (_ & w' & Q & B). destruct (decide (w' = w)) as [->|Nw]; [rewrite Vb, Vk in B; lia|].
    destruct (Bool.andb_false_elim _ _ D) as [F|F]; unfold owned_by in F; destruct w, w'; cbn in O, Q; try congruence;
      rewrite ?O, ?Q, Nat.eqb_refl in F; discriminate.
Qed.

Lemma disown_ok p i fl pm procs rings : table_ok fl procs rings -> (p < length procs)%nat -> (i < length rings)%nat ->
  exists fl' pm' u r, disownIfOwned kernel_end physical_stop p i (K fl pm procs rings) =
      (Good tt, K fl' pm' (list_set procs p u) (list_set rings i r)) /\
    table_ok fl' (list_set procs p u) (list_set rings i r) /\
    all_pages fl' (list_set procs p u) (list_set rings i r) ≡ₚ all_pages fl procs rings /\
    u_top u = u_top (nth p procs proc0) /\ owns p r = false /\
    (forall q, owns q r = true -> owns q (nth i rings ring0) = true) /\
    guarded p (nth p procs proc0) u (nth i rings ring0) r.
Proof.
  intros T Hp Hi. set (r := nth i rings ring0). set (u := nth p procs proc0).
  destruct (find_owner p r) as [w|] eqn:Fo.
  2:{ exists fl, pm, u, r. unfold u, r. rewrite !set_same. split; [|split; [exact T|split; [reflexivity|split; [reflexivity|split; [apply find_owner_owns, Fo|split; [auto|]]]]]].
      2:{ apply guarded_same; auto. apply find_owner_owns, Fo. }
      unfold disownIfOwned. kstep. fold r. rewrite Fo. reflexivity. }
  pose proof (find_owner_some _ _ _ Fo) as O.
  destruct (tk_ring _ _ _ T i Hi) as [In|A]; [fold r in In|fold r in A].
  { apply (inactive_free p) in In. apply find_owner_owns in In. congruence. }
  destruct A as (ps & b & L & Rp & Rb & R0 & Rn & Rd & Ro). destruct (Ro w p O) as [_ (v & Lay)]. fold u in Lay.
  destruct (owner_left w p r O (Rd p)) as (Ow & Ow' & Oq & On & Oz & Oo).
  pose proof (ring_pages_active r ps b Rp Rb) as Pr.
  assert (Fp : Forall in_memory (ring_pages r)).
  { pose proof (tk_mem _ _ _ T) as F. rewrite !Forall_forall in *. intros x X. apply F. unfold all_pages.
    apply elem_of_app. right. apply elem_of_app. left. exact (in_flat ring_pages rings i ring0 x Hi X). }
  rewrite Pr, Forall_app, Forall_singleton in Fp. destruct Fp as [Fp Fb].
  pose proof (total_nth (fun r => Nat.b2n (owns p r)) rings i ring0 Hi) as C. cbn beta in C. fold r in C. rewrite Ow in C.
  pose proof (tk_owned _ _ _ T p Hp) as Cu. unfold owned_count in Cu. fold u in Cu. cbn in C.
  assert (Rz : refcount r = 1 <-> no_owner (put_owner w owner0 r) = true) by (rewrite Rn; exact Oz).
  destruct (disown_run p i w fl pm procs rings u ps b v Hi Hp Fo R0 Rz Rp Rb Fp Fb L Lay
    (table_vm _ _ _ p T Hp) ltac:(lia)) as (t' & pm' & E & Tb & W & Lv).
  assert (Sp : list_set procs p u = procs) by apply set_same. rewrite Sp in E. fold r in E.
  set (last := refcount r =? 1) in *. set (r' := if last then ring0 else left_ w r) in *.
  assert (Hl : last = false -> active (list_set procs p (UProc t' (u_top u) (u_owned u - 1))) (left_ w r)).
  { unfold last. intros Nl%Z.eqb_neq. exists ps, b. split; [exact L|]. split; [destruct w; exact Rp|]. split; [destruct w; exact Rb|].
    change (refcount (left_ w r)) with (refcount r - 1). split; [lia|].
    split; [change (refcount r - 1 = n_owners (put_owner w owner0 r)); lia|]. split.
    - intros q. change (owners (left_ w r)) with (owners (put_owner w owner0 r)). destruct w; cbn; [apply andb_false_r|reflexivity].
    - intros w' q Q. change (get_owner w' (left_ w r)) with (get_owner w' (put_owner w owner0 r)) in *.
      destruct (Oo w' q Q) as (_ & Q1 & Q2 & Ne). rewrite Q2. destruct (Ro w' q Q1) as (B & v' & Lay').
      rewrite list_set_length. split; [exact B|]. exists v'. rewrite nth_set_ne by auto. exact Lay'. }
  assert (P : fl ++ ring_pages r ++ tables (u_pt u) ≡ₚ (if last then b :: rev ps ++ fl else fl) ++ ring_pages r' ++ tables t').
  { rewrite Tb. unfold r'. destruct last.
    - rewrite Pr, (ring_pages_inactive ring0 inactive0), <- Permutation_rev. solve_Permutation.
    - replace (ring_pages (left_ w r)) with (ring_pages r) by (destruct w; reflexivity). reflexivity. }
  exists (if last then b :: rev ps ++ fl else fl), pm', (UProc t' (u_top u) (u_owned u - 1)), r'.
  split; [exact E|]. assert (Op : owns p r' = false /\ forall q, owns q r' = true -> owns q r = true).
  { unfold r'. destruct last; [split; [reflexivity|discriminate]|]. change (owns p (put_owner w owner0 r) = false /\
      forall q, owns q (put_owner w owner0 r) = true -> owns q r = true). auto. }
  destruct Op as [Op1 Op2].
  split; [|split; [apply all_pages_set; [exact Hp|exact Hi|exact P]|split; [reflexivity|split; [exact Op1|split; [exact Op2|]]]]].
  2:{ fold r u. apply (guarded_left p w r u _ ps b v); auto. }
  apply (table_set fl _ procs rings p i _ r'); [exact T|exact Hp|exact Hi|exact P| | | | | | |].
  - unfold r'. destruct last eqn:Q; [left; exact inactive0|right; auto].
  - unfold r'. destruct last; [cbn; lia|]. intros _ j Hj Ne Rj E'.
    apply Ne. apply (tk_name _ _ _ T j i Hj Hi Rj R0). exact E'.
  - exact (wf_leaves _ _ _ W).
  - exact (tk_top _ _ _ T p Hp).
  - intros q _ Q. exact (Op2 q Q).
  - fold r u. rewrite Op1, Ow. cbn [u_owned Nat.b2n]. lia.
  - intros x q X Q. fold r u in Q, X. cbn [u_pt]. rewrite Lv. destruct (decide _) as [B|B]; [|exact X].
    destruct Q. rewrite Pr. destruct Lay as (_ & _ & _ & Lay).
    destruct (lookup_lt_is_Some_2 (ps ++ ps ++ [b]) (Z.to_nat (v + 31 - x))) as [q' Q'].
    { rewrite !length_app, L. unfold RINGBUF_SIZE. cbn [length]. lia. }
    pose proof (Lay _ _ Q') as X'. replace (v + 31 - Z.of_nat _) with x in X' by lia. rewrite X in X'. inv X'.
    apply list_elem_of_lookup_2 in Q'. rewrite !elem_of_app in *. tauto.
Qed.

Lemma all_pages_top fl procs rings p t : (p < length procs)%nat -> let u := nth p procs proc0 in
  all_pages fl (list_set procs p (UProc (u_pt u) t (u_owned u))) rings ≡ₚ all_pages fl procs rings.
Proof.
  intros Hp u. unfold all_pages. apply Permutation_app_head, Permutation_app_head.
  pose proof (flat_map_set (fun u => tables (u_pt u)) procs p (UProc (u_pt u) t (u_owned u)) proc0 Hp) as P.
  cbn beta iota in P. apply Permutation_app_inv_l in P. exact P.
Qed.

Lemma table_top fl procs rings p t : table_ok fl procs rings -> (p < length procs)%nat -> 0 <= t < pages_max ->
  let u := nth p procs proc0 in table_ok fl (list_set procs p (UProc (u_pt u) (4096 * t) (u_owned u))) rings.
Proof.
  intros T Hp B u. pose proof (all_pages_top fl procs rings p (4096 * t) Hp) as P. cbv zeta in P. fold u in P.
  destruct T as [Tm Tn Tr Tname Tl Tt To].
  split; [rewrite P; exact Tm|rewrite P; exact Tn| |exact Tname| | |]; try (intros q Hq; rewrite list_set_length in Hq;
    destruct (decide (p = q)) as [<-|Ne]; [rewrite nth_set_eq by exact Hp|rewrite nth_set_ne by exact Ne; auto]).
  - intros i Hi. destruct (Tr i Hi) as [I|A]; [left; exact I|right]. apply active_mono; auto.
  - exact (Tl p Hp).
  - exists t. auto.
  - exact (To p Hp).
Qed.

Lemma private_top fl procs rings p t : (p < length procs)%nat -> let u := nth p procs proc0 in
  private fl procs rings -> private fl (list_set procs p (UProc (u_pt u) t (u_owned u))) rings.
Proof.
  intros Hp u Pr q x e Hq X In. rewrite list_set_length in Hq. pose proof (all_pages_top fl procs rings p t Hp) as P. cbv zeta in P. fold u in P. rewrite P in In.
  apply (Pr q x e Hq); [|exact In]. destruct (decide (p = q)) as [<-|Ne]; [rewrite nth_set_eq in X by exact Hp|rewrite nth_set_ne in X by exact Ne]; exact X.
Qed.

(** A call ends well: the table is sound and has its pages. *)
Definition sound (k : kst) : Prop := table_ok (k_fl k) (k_procs k) (k_rings k).
Definition pages_of (k : kst) : list Z := all_pages (k_fl k) (k_procs k) (k_rings k).
Definition sealed (k : kst) : Prop := private (k_fl k) (k_procs k) (k_rings k).
Record fine (k k' : kst) : Prop := {
  fi_sound : sound k';
  fi_pages : pages_of k' ≡ₚ pages_of k;
  fi_procs : length (k_procs k') = length (k_procs k);
  fi_rings : length (k_rings k') = length (k_rings k);
}.

Lemma fine_refl k : sound k -> fine k k.
Proof. intros S. split; auto. Qed.
Lemma fine_trans k k' k'' : fine k k' -> fine k' k'' -> fine k k''.
Proof. intros [_ P A B] [S P' A' B']. split; [exact S|etransitivity; eauto|congruence..]. Qed.

Lemma find_ring_some f k i : find_ring f k = Some i -> (i < length (k_rings k))%nat /\ f (ring_at k i) = true.
Proof. intros H. apply find_some in H as [I H]. apply in_seq in I. split; [lia|exact H]. Qed.
Lemma find_ring_none f k i : find_ring f k = None -> (i < length (k_rings k))%nat -> f (ring_at k i) = false.
Proof. intros H I. apply (find_none _ _ H i), in_seq. lia. Qed.

Lemma disown_fine p i k : sound k -> (p < length (k_procs k))%nat -> (i < length (k_rings k))%nat ->
  exists k', disownIfOwned kernel_end physical_stop p i k = (Good tt, k') /\ fine k k' /\
    u_top (proc_at k' p) = u_top (proc_at k p) /\ owns p (ring_at k' i) = false /\
    (forall j, j <> i -> ring_at k' j = ring_at k j) /\
    (forall q, q <> p -> proc_at k' q = proc_at k q) /\
    (forall j q, owns q (ring_at k' j) = true -> owns q (ring_at k j) = true) /\ (sealed k -> sealed k').
Proof.
  destruct k as [fl pm procs rings]. intros S Hp Hi. cbn in Hp, Hi.
  destruct (disown_ok p i fl pm procs rings S Hp Hi) as (fl' & pm' & u & r & E & T & P & Tp & O & Oq & G).
  eexists. split; [exact E|]. unfold ring_at, proc_at. cbn [k_procs k_rings].
  split; [split; [exact T|exact P|apply list_set_length..]|]. rewrite !nth_set_eq by assumption.
  split; [exact Tp|]. split; [exact O|]. split; [intros j Ne; apply nth_set_ne; auto|]. split; [intros q Ne; apply nth_set_ne; auto|].
  split; [|exact (private_set fl fl' procs rings p i u r Hp Hi P G)]. intros j q Q. destruct (decide (i = j)) as [<-|Ne]; [rewrite nth_set_eq in Q by exact Hi; auto|].
  rewrite nth_set_ne in Q by exact Ne. exact Q.
Qed.

(** [ringbuf_disown_all]: nothing is left to the process. *)
Lemma disown_all_fine p l : forall k, sound k -> (p < length (k_procs k))%nat ->
  (forall i, In i l -> (i < length (k_rings k))%nat) ->
  exists k', foldr (fun i rest => disownIfOwned kernel_end physical_stop p i ;; rest) (mret tt) l k = (Good tt, k') /\ fine k k' /\
    (forall i, In i l -> owns p (ring_at k' i) = false) /\
    (forall q, q <> p -> proc_at k' q = proc_at k q) /\
    (forall j q, owns q (ring_at k' j) = true -> owns q (ring_at k j) = true) /\ (sealed k -> sealed k').
Proof.
  induction l as [|i l IH]; intros k S Hp Hl; cbn [foldr].
  { exists k. split; [reflexivity|]. split; [apply fine_refl, S|]. split; [intros i []|auto]. }
  destruct (disown_fine p i k S Hp) as (k1 & E & F & _ & O & _ & Oo & Oq & Se); [apply Hl; left; reflexivity|].
  destruct (IH k1) as (k2 & E2 & F2 & O2 & Oo2 & Oq2 & Se2); [apply F|rewrite (fi_procs _ _ F); exact Hp| |].
  { intros j J. rewrite (fi_rings _ _ F). apply Hl. right. exact J. }
  exists k2. rrun E. split; [exact E2|]. split; [eapply fine_trans; eauto|]. split; [|split; [|split; [|auto]]].
  - intros j [<-|J]; [|auto]. destruct (owns p (ring_at k2 i)) eqn:Q; [|reflexivity]. apply Oq2 in Q. congruence.
  - intros q Ne. rewrite Oo2, Oo by exact Ne. reflexivity.
  - intros j q Q. apply Oq, Oq2, Q.
Qed.

Lemma free_rings_fine p k : sound k -> (p < length (k_procs k))%nat ->
  exists k', free_rings kernel_end physical_stop p k = (Good tt, k') /\ fine k k' /\
    (forall i, (i < length (k_rings k'))%nat -> owns p (ring_at k' i) = false) /\
    (forall q, q <> p -> proc_at k' q = proc_at k q) /\ (sealed k -> sealed k').
Proof.
  intros S Hp. unfold free_rings. rstep. destruct (Z.ltb_spec 0 (u_owned (proc_at k p))) as [B|B].
  - unfold ringbuf_disown_all. rstep.
    destruct (disown_all_fine p (seq 0 (length (k_rings k))) k S Hp) as (k' & E & F & O & Oo & _ & Se).
    { intros i I. apply in_seq in I. lia. }
    exists k'. split; [exact E|]. split; [exact F|]. split; [|split; [exact Oo|exact Se]]. intros i Hi. apply O, in_seq. rewrite (fi_rings _ _ F) in Hi. lia.
  - exists k. split; [reflexivity|]. split; [apply fine_refl, S|]. split; [|auto]. intros i Hi.
    pose proof (tk_owned _ _ _ S p Hp) as C. pose proof (total_nth (fun r => Nat.b2n (owns p r)) (k_rings k) i ring0 Hi) as D.
    unfold owned_count in C. cbn beta in D. unfold ring_at. unfold proc_at in B. change (UProc _ 0 0) with proc0 in B.
    destruct (owns p _); [cbn in D; lia|reflexivity].
Qed.

Lemma close_fine p name addr k : sound k -> (p < length (k_procs k))%nat ->
  exists o k', ringbuf_close kernel_end physical_stop p name addr k = (o, k') /\ o <> Dead /\ fine k k' /\
    (o <> Good tt -> k' = k) /\ (sealed k -> sealed k').
Proof.
  intros S Hp. unfold ringbuf_close.
  assert (Keep : forall e, exists o k', (Fail (A:=unit) e, k) = (o, k') /\ o <> Dead /\ fine k k' /\ (o <> Good tt -> k' = k) /\ (sealed k -> sealed k')).
  { intros e. exists (Fail e), k. split; [reflexivity|]. split; [discriminate|]. split; [apply fine_refl, S|auto]. }
  destruct (bad_name name); [apply Keep|]. rstep. rstep. destruct (copyIn _ _ _ _) as [bytes ok].
  destruct ok; [|apply Keep]. cbn [negb]. rstep. destruct (findRingbufByName name k) as [i|] eqn:Fn; [|apply Keep].
  apply find_ring_some in Fn as [Hi Fn]. apply andb_prop in Fn as [Fr _]. apply negb_true_iff in Fr.
  destruct (of_le bytes =? 0); [apply Keep|]. rstep. destruct (find_owner p (ring_at k i)) as [w|] eqn:Fo; [|apply Keep].
  destruct (Z.eqb_spec (o_vbuf (get_owner w (ring_at k i))) (of_le bytes)) as [V1|]; [|apply Keep]. cbn [negb]. rstep.
  destruct (Z.eqb_spec (o_vbook (get_owner w (ring_at k i))) (of_le bytes - page_size)) as [V2|]; [|apply Keep]. cbn [negb]. rstep.
  rewrite Fr. rstep. destruct (tk_ring _ _ _ S i Hi) as [In|A]; [destruct In as (Z0 & _); unfold ring_at in Fr; rewrite Z0 in Fr; discriminate|].
  destruct A as (ps & b & L & Rp & Rb & R0 & Rn & Rd & Ro). fold (ring_at k i) in *. rewrite Rb. rstep.
  destruct (Ro w p (find_owner_some _ _ _ Fo)) as [_ (v & Bv & Vb & _ & Lay)].
  assert (Bt : v + 31 < pages_max).
  { destruct (lookup_lt_is_Some_2 (ps ++ ps ++ [b]) 0) as [q Q]; [rewrite !length_app; cbn [length]; lia|].
    apply Lay in Q. rewrite Z.sub_0_r in Q. apply (tk_leaf _ _ _ S p Hp) in Q as [B _]. lia. }
  destruct (disown_fine p i k S Hp Hi) as (k1 & E & F & Tp & _ & _ & _ & _ & Se). rrun E. rstep.
  destruct (Z.eqb_spec (u_top (proc_at k1 p)) (of_le bytes - 3 * page_size)) as [T|T].
  - eexists (Good tt), _. split; [reflexivity|]. split; [discriminate|]. split; [|split; [congruence|]].
    2:{ intros P. apply private_top; [rewrite (fi_procs _ _ F); exact Hp|exact (Se P)]. }
    eapply fine_trans; [exact F|]. rewrite <- V1, Vb in T. unfold on_proc. rewrite T. change page_size with 4096.
    change (Z.of_nat RINGBUF_SIZE) with 16. rewrite u64_small by (unfold pages_max in Bt; lia).
    replace (4096 * v - 3 * 4096 + 4096 * (1 + 1 + 2 * 16)) with (4096 * (v + 31)) by lia.
    assert (Hp1 : (p < length (k_procs k1))%nat) by (rewrite (fi_procs _ _ F); exact Hp).
    split; cbn [k_fl k_pm k_procs k_rings sound pages_of]; [|apply all_pages_top; exact Hp1|apply list_set_length|reflexivity].
    apply table_top; [apply F|exact Hp1|lia].
  - exists (Good tt), k1. split; [reflexivity|]. split; [discriminate|]. split; [exact F|]. split; [congruence|exact Se].
Qed.

(** * Opening *)

(** The state of a process and of a buffer after [own] and [attach]: [n] of the 33
    pages are mapped. *)
Definition owned (p : nat) (w : bool) (r : ring) : ring :=
  set_refcount (refcount r + 1) (put_owner w (Owner (Some p) (o_vbuf (get_owner w r)) (o_vbook (get_owner w r))) r).

Lemma own_run p i w fl pm procs rings : (p < length procs)%nat -> (i < length rings)%nat ->
  let u := nth p procs proc0 in
  own p i w (K fl pm procs rings) = (Good tt, K fl pm (list_set procs p (UProc (u_pt u) (u_top u) (u_owned u + 1)))
    (list_set rings i (owned p w (nth i rings ring0)))).
Proof.
  intros Hp Hi u. unfold own. kstep. kstep. unfold modify. ksimpl. reflexivity.
Qed.

Lemma attach_run p i w addr fl pm procs rings u r ps b t (s := Vm fl (u_pt u)) :
  (p < length procs)%nat -> (i < length rings)%nat -> buf_pages r = List.map Some ps -> book_page r = Some b ->
  length ps = RINGBUF_SIZE -> Forall page_ok (ps ++ [b]) -> vm_wf s -> u_top u = 4096 * t -> 34 <= t < pages_max ->
  exists n s' e pm' vb vk, 0 <= n <= 33 /\
    attach p i w addr (K fl pm (list_set procs p u) (list_set rings i r)) =
      (Good e, K (Kmem.fl s') pm' (list_set procs p (UProc (pt s') (4096 * (t - n)) (u_owned u)))
                 (list_set rings i (put_owner w (Owner (o_proc (get_owner w r)) vb vk) r))) /\
    grows s s' /\ vm_wf s' /\ pt_leaves (pt s) ⊆ pt_leaves (pt s') /\
    (forall c, e = Some c -> c = MapPagesFailed \/ c = CopyOutFailed) /\
    (e = None -> n = 33 /\ vb = 4096 * (t - 31) /\ vk = 4096 * (t - 32) /\
       down t (ps ++ ps ++ [b]) (pt_leaves (pt s)) (pt_leaves (pt s')) /\
       (pm', true) = copyOut (translation_of s') pm addr (le_bytes 8 (4096 * (t - 31)))).
Proof.
  intros Hp Hi Rp Rb L F W T B. unfold attach. kstep. rewrite Rp, Rb.
  replace (List.map Some ps ++ List.map Some ps ++ [Some b]) with (List.map Some (ps ++ ps ++ [b])) by (rewrite !List.map_app; reflexivity).
  destruct (map_down_run p pm procs (list_set rings i r) (ps ++ ps ++ [b]) t fl u Hp W T) as (n & s' & o & E & Ln & Lo & G & W' & D).
  { rewrite !length_app, L. unfold RINGBUF_SIZE. cbn [length]. lia. }
  { rewrite Forall_app in F |- *. split; [apply F|]. rewrite Forall_app. exact F. }
  assert (L33 : (length (ps ++ ps ++ [b]) = 33)%nat) by (rewrite !length_app, L; reflexivity).
  rewrite L33 in *. rrun E. exists (Z.of_nat n), s'.
  assert (Sub : pt_leaves (pt s) ⊆ pt_leaves (pt s')) by exact (down_sub _ _ _ _ D).
  destruct o as [e|].
  - exists (Some MapPagesFailed), pm, (o_vbuf (get_owner w r)), (o_vbook (get_owner w r)). split; [lia|].
    split; [|split; [exact G|split; [exact W'|split; [exact Sub|split; [intros c; injection 1; auto|discriminate]]]]].
    replace (put_owner w (Owner (o_proc (get_owner w r)) (o_vbuf (get_owner w r)) (o_vbook (get_owner w r))) r) with r; [reflexivity|].
    destruct w, r as [? [[] []] ? ? ?]; reflexivity.
  - rewrite (Lo eq_refl) in *. change (Z.of_nat 33) with 33 in *. kstep. kstep. cbn [u_top].
    change page_size with 4096. rewrite !u64_small by (unfold pages_max in *; lia).
    replace (4096 * (t - 33) + 2 * 4096) with (4096 * (t - 31)) by lia. replace (4096 * (t - 33) + 4096) with (4096 * (t - 32)) by lia.
    unfold vm_at. ksimpl. cbn [u_pt].
    replace (Vm (Kmem.fl s') (pt s')) with s' by (destruct s'; reflexivity).
    destruct (copyOut (translation_of s') pm addr (le_bytes 8 (4096 * (t - 31)))) as [pm' ok] eqn:C. kstep.
    exists (if ok then None else Some CopyOutFailed), pm', (4096 * (t - 31)), (4096 * (t - 32)). split; [lia|].
    split; [reflexivity|]. split; [exact G|]. split; [exact W'|]. split; [exact Sub|].
    split; [intros c; destruct ok; [discriminate|injection 1; auto]|]. destruct ok; [|discriminate]. intros _. rewrite firstn_all2 in D by lia. auto 10.
Qed.

Lemma undo_run i w e fl pm procs rings r ps b : (i < length rings)%nat ->
  buf_pages r = List.map Some ps -> book_page r = Some b -> Forall in_memory ps -> in_memory b ->
  if no_owner (put_owner w owner0 r)
  then exists pm', undo kernel_end physical_stop i w e (K fl pm procs (list_set rings i r)) =
         (Fail e, K (b :: rev ps ++ fl) pm' procs (list_set rings i ring0))
  else exists k', undo kernel_end physical_stop i w e (K fl pm procs (list_set rings i r)) = (Dead, k').
Proof.
  intros Hi Rp Rb F I.
  set (r3 := set_refcount (refcount r - 1) (put_owner w (Owner None (o_vbuf (get_owner w r)) (o_vbook (get_owner w r))) r)).
  assert (E : undo kernel_end physical_stop i w e (K fl pm procs (list_set rings i r)) =
    (deactivate i ;; fail (A:=unit) e) (K fl pm procs (list_set rings i r3))).
  { unfold undo. kstep. kstep. unfold r3. destruct w; reflexivity. }
  rewrite E. assert (Hi' : (i < length (list_set rings i r3))%nat) by (rewrite list_set_length; exact Hi).
  pose proof (deactivate_run i fl pm procs (list_set rings i r3) ps b Hi') as D. rewrite nth_set_eq in D by exact Hi.
  replace (no_owner r3) with (no_owner (put_owner w owner0 r)) in D by (destruct w; reflexivity).
  specialize (D ltac:(destruct w; exact Rp) ltac:(destruct w; exact Rb) F I). destruct (no_owner _).
  - destruct D as (pm' & D). exists pm'. rrun D. rewrite set_set. reflexivity.
  - destruct D as (k' & D). exists k'. rewrite (run_bind _ _ _ _ _ D). reflexivity.
Qed.

Lemma n_owners_pos r : 0 <= n_owners r.
Proof. unfold n_owners, has. destruct (o_proc (fst _)), (o_proc (snd _)); lia. Qed.

(** What [claim] leaves: the buffer [r] at place [i], with its pages and the free
    place [w] for an owner. *)
Record claimed (p : nat) (i : nat) (w : bool) (fl0 fl : list Z) (procs : list uproc) (rings : list ring) (r : ring)
    (ps : list Z) (b : Z) : Prop := {
  cl_len : length ps = RINGBUF_SIZE;
  cl_pages : fl0 ++ ring_pages (nth i rings ring0) ≡ₚ fl ++ ps ++ [b];
  cl_buf : buf_pages r = List.map Some ps;
  cl_book : book_page r = Some b;
  cl_count : refcount r = n_owners r;
  cl_free : o_proc (get_owner w r) = None;
  cl_other q : o_proc (get_owner (negb w) r) = Some q -> q <> p /\ (q < length procs)%nat /\
    exists v, layout (nth q procs proc0) (get_owner (negb w) r) ps b v;
  cl_owns q : owns q r = owns q (nth i rings ring0);
  cl_old : inactive (nth i rings ring0) \/ r = nth i rings ring0;
  cl_name j : (j < length rings)%nat -> j <> i -> 0 < refcount (nth j rings ring0) -> ring_name (nth j rings ring0) <> ring_name r;
}.

(** What a process gets: the buffer at 4096 * [v], its address in its memory. *)
Definition opened (p : nat) (i : nat) (w : bool) (name : list Z) (addr : Z) (pm : mem) (k' : kst) (ps : list Z) (b v : Z) : Prop :=
  ring_name (ring_at k' i) = name /\ buf_pages (ring_at k' i) = List.map Some ps /\ book_page (ring_at k' i) = Some b /\
  o_proc (get_owner w (ring_at k' i)) = Some p /\ layout (proc_at k' p) (get_owner w (ring_at k' i)) ps b v /\
  (k_pm k', true) = copyOut (translation_of (vm_at k' p)) pm addr (le_bytes 8 (4096 * v)).

Definition finish (p : nat) (i : nat) (w : bool) (addr : Z) : M unit :=
  own p i w ;; e ← attach p i w addr; match e with Some e => undo kernel_end physical_stop i w e | None => lower p end.

Lemma owned_slots p w r vb vk : o_proc (get_owner w r) = None -> let r2 := put_owner w (Owner (Some p) vb vk) (owned p w r) in
  n_owners r2 = n_owners r + 1 /\ no_owner (put_owner w owner0 r2) = (match o_proc (get_owner (negb w) r) with Some _ => false | None => true end) /\
  (forall q, owns q r2 = (p =? q)%nat || owns q r) /\ get_owner w r2 = Owner (Some p) vb vk /\
  get_owner (negb w) r2 = get_owner (negb w) r.
Proof.
  destruct r as [c [[a a1 a2] [b b1 b2]] nm bp bk]. unfold owned, owns, n_owners, has, no_owner, owned_by, put_owner, set_owners, get_owner, set_refcount.
  destruct w; cbn; intros ->.
  - split; [lia|]. split; [destruct a; reflexivity|]. split; [|auto]. intros q. destruct a; rewrite ?orb_false_r, ?orb_false_l; [apply orb_comm|reflexivity].
  - split; [lia|]. split; [destruct b; reflexivity|]. auto.
Qed.

(** A process gets a buffer. *)
Lemma guarded_open p i w fl0 fl procs rings r ps b v u u' (r' := put_owner w (Owner (Some p) (4096 * v) (4096 * (v - 1))) (owned p w r)) :
  claimed p i w fl0 fl procs rings r ps b -> owns p (nth i rings ring0) = false ->
  down (v + 31) (ps ++ ps ++ [b]) (pt_leaves (u_pt u)) (pt_leaves (u_pt u')) ->
  guarded p u u' (nth i rings ring0) r'.
Proof.
  intros C O D. assert (Pr : ring_pages r' = ps ++ [b]) by (apply ring_pages_active; destruct w; apply C). split.
  - intros q x g Ne (G & w' & Q & B). destruct (cl_old _ _ _ _ _ _ _ _ _ _ C) as [In|E].
    { rewrite (ring_pages_inactive _ In) in G. inversion G. }
    rewrite <- E in *. rewrite (ring_pages_active r ps b (cl_buf _ _ _ _ _ _ _ _ _ _ C) (cl_book _ _ _ _ _ _ _ _ _ _ C)) in G.
    split; [rewrite Pr; exact G|]. exists w'. pose proof (cl_free _ _ _ _ _ _ _ _ _ _ C). destruct w, w'; cbn in *; try congruence; auto.
  - intros x e X. destruct (decide (v - 2 < x <= v + 31)) as [B|B].
    + left. destruct (lookup_lt_is_Some_2 (ps ++ ps ++ [b]) (Z.to_nat (v + 31 - x))) as [q Q].
      { rewrite !length_app, (cl_len _ _ _ _ _ _ _ _ _ _ C). unfold RINGBUF_SIZE. cbn [length]. lia. }
      destruct (dn_new _ _ _ _ D _ _ Q) as [X' _]. replace (v + 31 - Z.of_nat _) with x in X' by lia. rewrite X in X'. inv X'.
      split; [rewrite Pr; apply list_elem_of_lookup_2 in Q; cbn [pte_page]; rewrite !elem_of_app in *; tauto|].
      exists w. unfold r'. rewrite get_put. cbn [o_proc o_vbuf o_vbook]. split; [reflexivity|lia].
    + right. rewrite (dn_old _ _ _ _ D) in X; [split; [exact X|intros A; apply place_owns in A; congruence]|].
      rewrite !length_app, (cl_len _ _ _ _ _ _ _ _ _ _ C). change (Z.of_nat (RINGBUF_SIZE + (RINGBUF_SIZE + length [b]))) with 33. lia.
Qed.

(** The errors after which the mappings stay. *)
Definition halfway {A} (o : out A) : Prop := o = Fail MapPagesFailed \/ o = Fail CopyOutFailed.

Lemma finish_fine p i w addr fl0 fl pm procs rings r ps b t :
  table_ok fl0 procs rings -> (p < length procs)%nat -> (i < length rings)%nat ->
  claimed p i w fl0 fl procs rings r ps b -> u_top (nth p procs proc0) = 4096 * t -> 34 <= t < pages_max ->
  exists o k', finish p i w addr (K fl pm procs (list_set rings i r)) = (o, k') /\
    ((o <> Dead /\ table_ok (k_fl k') (k_procs k') (k_rings k') /\
      all_pages (k_fl k') (k_procs k') (k_rings k') ≡ₚ all_pages fl0 procs rings /\
      length (k_procs k') = length procs /\ length (k_rings k') = length rings /\
      (~ halfway o -> private fl0 procs rings -> sealed k') /\
      (o = Good tt -> opened p i w (ring_name r) addr pm k' ps b (t - 31))) \/
     (o = Dead /\ (exists q, o_proc (get_owner (negb w) r) = Some q) /\
      exists e k1, (own p i w ;; attach p i w addr) (K fl pm procs (list_set rings i r)) = (Good (Some e), k1))).
Proof.
  intros T Hp Hi C Tp B. set (u := nth p procs proc0) in *.
  assert (Hi' : (i < length (list_set rings i r))%nat) by (rewrite list_set_length; exact Hi).
  assert (F : Forall in_memory (fl ++ ps ++ [b])).
  { rewrite <- (cl_pages _ _ _ _ _ _ _ _ _ _ C). rewrite Forall_app. pose proof (tk_mem _ _ _ T) as F. unfold all_pages in F.
    rewrite !Forall_app in F. destruct F as (F1 & F2 & _). split; [exact F1|]. rewrite Forall_forall in *. intros x X.
    apply F2, (in_flat ring_pages rings i ring0 x Hi X). }
  rewrite !Forall_app, Forall_singleton in F. destruct F as (Ffl & Fps & Fb).
  assert (W : vm_wf (Vm fl (u_pt u))).
  { split; [exact (tk_leaf _ _ _ T p Hp)|]. cbn. intros x [X|X]%elem_of_app; [rewrite Forall_forall in Ffl; exact (Ffl x X)|].
    apply (wf_pages _ _ _ (table_vm _ _ _ p T Hp)). apply elem_of_app. right. exact X. }
  unfold finish. pose proof (own_run p i w fl pm procs (list_set rings i r) Hp Hi') as Eo. cbv zeta in Eo.
  rewrite nth_set_eq, set_set in Eo by exact Hi. fold u in Eo. set (u1 := UProc (u_pt u) (u_top u) (u_owned u + 1)) in *.
  destruct (attach_run p i w addr fl pm procs rings u1 (owned p w r) ps b t Hp Hi) as (n & s' & e & pm' & vb & vk & Bn & Ea & G & W' & Sub & Half & Suc);
    [destruct w; apply C|destruct w; apply C|apply C| |exact W|exact Tp|exact B|].
  { rewrite Forall_app, Forall_singleton. split; [|apply in_memory_page, Fb]. eapply Forall_impl; [exact Fps|apply in_memory_page]. }
  rrun Eo. rrun Ea. cbn [u_owned u1] in *.
  replace (o_proc (get_owner w (owned p w r))) with (Some p) in * by (destruct w; reflexivity).
  set (r2 := put_owner w (Owner (Some p) vb vk) (owned p w r)) in *.
  destruct (owned_slots p w r vb vk (cl_free _ _ _ _ _ _ _ _ _ _ C)) as (On & Oz & Oq & Ow & Oo). fold r2 in On, Oz, Oq, Ow, Oo.
  assert (Own0 : owns p (nth i rings ring0) = false).
  { rewrite <- (cl_owns _ _ _ _ _ _ _ _ _ _ C). unfold owns, owned_by. pose proof (cl_free _ _ _ _ _ _ _ _ _ _ C) as Fr.
    pose proof (cl_other _ _ _ _ _ _ _ _ _ _ C) as Ot. destruct w; cbn in Fr, Ot; rewrite Fr.
    - destruct (o_proc (fst (owners r))) as [q|]; [|reflexivity]. destruct (Ot q eq_refl) as [Ne _].
      apply Nat.eqb_neq in Ne. rewrite Ne. reflexivity.
    - destruct (o_proc (snd (owners r))) as [q|]; [|reflexivity]. destruct (Ot q eq_refl) as [Ne _].
      apply Nat.eqb_neq in Ne. rewrite Ne. reflexivity. }
  assert (Pg : fl0 ++ ring_pages (nth i rings ring0) ++ tables (u_pt u) ≡ₚ Kmem.fl s' ++ (ps ++ [b]) ++ tables (pt s')).
  { rewrite (Permutation_app_comm (Kmem.fl s')), <- !(assoc_L (++)), (Permutation_app_comm (tables (pt s'))), <- (gr_pages _ _ G).
    cbn. rewrite (assoc_L (++)), (cl_pages _ _ _ _ _ _ _ _ _ _ C). solve_Permutation. }
  assert (Lv : forall x q, pt_leaves (u_pt u) !! x = Some (Pte q rw true) -> pt_leaves (pt s') !! x = Some (Pte q rw true)).
  { intros x q X. eapply lookup_weaken; [exact X|exact Sub]. }
  destruct e as [e|].
  - pose proof (undo_run i w e (Kmem.fl s') pm' (list_set procs p (UProc (pt s') (4096 * (t - n)) (u_owned u + 1))) rings r2 ps b Hi
      ltac:(destruct w; apply C) ltac:(destruct w; apply C) Fps Fb) as U. rewrite Oz in U.
    destruct (o_proc (get_owner (negb w) r)) as [q|] eqn:Oth.
    + destruct U as (k' & U). exists Dead, k'. split; [exact U|]. right. split; [reflexivity|]. split; [eauto|].
      exists e. eexists. rrun Eo. exact Ea.
    + destruct U as (pm2 & U). eexists (Fail e), _. split; [exact U|]. left. cbn [k_fl k_procs k_rings].
      rewrite !list_set_length. split; [discriminate|].
      assert (P : fl0 ++ ring_pages (nth i rings ring0) ++ tables (u_pt u) ≡ₚ (b :: rev ps ++ Kmem.fl s') ++ ring_pages ring0 ++ tables (pt s')).
      { rewrite Pg, (ring_pages_inactive _ inactive0), <- Permutation_rev. solve_Permutation. }
      split; [|split; [apply all_pages_set; [exact Hp|exact Hi|exact P]|split; [reflexivity|split; [reflexivity|split; [|discriminate]]]]].
      2:{ intros H. destruct H. destruct (Half e eq_refl) as [->| ->]; [left|right]; reflexivity. }
      apply (table_set fl0 _ procs rings p i (UProc (pt s') (4096 * (t - n)) (u_owned u + 1)) ring0 T Hp Hi P); fold u.
      * left. exact inactive0.
      * cbn. lia.
      * exact (wf_leaves _ _ _ W').
      * exists (t - n). split; [reflexivity|]. unfold pages_max in *. lia.
      * discriminate.
      * rewrite Own0. cbn. lia.
      * intros x q X _. apply Lv, X.
  - destruct (Suc eq_refl) as (-> & -> & -> & D & Cp). unfold lower, modify. ksimpl. cbn [u_pt u_top u_owned]. change page_size with 4096.
    rewrite u64_small by (unfold pages_max in *; lia). replace (4096 * (t - 33) - 4096) with (4096 * (t - 34)) by lia.
    eexists (Good tt), _. split; [reflexivity|]. left. cbn [k_fl k_procs k_rings]. rewrite !list_set_length. split; [discriminate|].
    assert (Pr : ring_pages r2 = ps ++ [b]) by (apply ring_pages_active; destruct w; apply C).
    rewrite <- Pr in Pg.
    assert (Lay : layout (UProc (pt s') (4096 * (t - 34)) (u_owned u + 1)) (get_owner w r2) ps b (t - 31)).
    { rewrite Ow. unfold layout. cbn [o_vbuf o_vbook]. split; [lia|]. split; [reflexivity|]. split; [lia|]. intros j q J.
      destruct (dn_new _ _ _ _ D j q J) as [J' _]. cbn [u_pt]. rewrite <- J'. f_equal. lia. }
    split; [|split; [apply all_pages_set; [exact Hp|exact Hi|exact Pg]|split; [reflexivity|split; [reflexivity|split]]]].
    2:{ intros _. apply (private_set fl0); [exact Hp|exact Hi|apply all_pages_set; [exact Hp|exact Hi|exact Pg]|]. fold u. unfold r2.
      replace (t - 32) with (t - 31 - 1) by lia. apply (guarded_open p i w fl0 fl procs rings r ps b (t - 31) u _ C Own0).
      cbn [u_pt]. replace (t - 31 + 31) with t by lia. exact D. }
    + apply (table_set fl0 _ procs rings p i (UProc (pt s') (4096 * (t - 34)) (u_owned u + 1)) r2 T Hp Hi Pg); fold u.
      * right. exists ps, b. split; [apply C|]. split; [destruct w; apply C|]. split; [destruct w; apply C|].
        assert (Rc : refcount r2 = refcount r + 1) by (destruct w; reflexivity). rewrite Rc, On, (cl_count _ _ _ _ _ _ _ _ _ _ C).
        split; [pose proof (n_owners_pos r); lia|]. split; [reflexivity|]. split.
        { intros q. pose proof (cl_other _ _ _ _ _ _ _ _ _ _ C) as Ot.
          assert (X : owned_by q (get_owner w r2) && owned_by q (get_owner (negb w) r2) = false).
          { rewrite Ow, Oo. unfold owned_by. cbn [o_proc]. destruct (Nat.eqb_spec p q) as [<-|Ne]; [|reflexivity].
            destruct (o_proc (get_owner (negb w) r)) as [q|]; [|reflexivity]. destruct (Ot q eq_refl) as [Ne _].
            apply Nat.eqb_neq in Ne. exact Ne. }
          destruct w; cbn [get_owner negb] in X; [rewrite andb_comm|]; exact X. }
        intros w' q Q. rewrite list_set_length. destruct (decide (w' = w)) as [->|Nw].
        -- rewrite Ow in Q. cbn in Q. injection Q as <-. split; [exact Hp|]. exists (t - 31). rewrite nth_set_eq by exact Hp. exact Lay.
        -- assert (w' = negb w) as -> by (destruct w, w'; cbn; congruence). rewrite Oo in Q |- *.
           destruct (cl_other _ _ _ _ _ _ _ _ _ _ C q Q) as (Ne & Hq & v & Lq). split; [exact Hq|]. exists v.
           rewrite nth_set_ne by auto. exact Lq.
      * intros _ j Hj Ne Rj. replace (ring_name r2) with (ring_name r) by (destruct w; reflexivity).
        apply (cl_name _ _ _ _ _ _ _ _ _ _ C j Hj Ne Rj).
      * exact (wf_leaves _ _ _ W').
      * exists (t - 34). split; [reflexivity|]. unfold pages_max in *. lia.
      * intros q Ne. rewrite Oq, (proj2 (Nat.eqb_neq p q)) by auto. rewrite (cl_owns _ _ _ _ _ _ _ _ _ _ C). auto.
      * rewrite Own0, Oq, Nat.eqb_refl. cbn [Nat.b2n orb u_owned]. lia.
      * intros x q X _. apply Lv, X.
    + intros _. unfold opened, ring_at, proc_at, vm_at, proc_at. cbn [k_fl k_pm k_procs k_rings].
      rewrite !nth_set_eq by assumption. split; [destruct w; reflexivity|]. split; [destruct w; apply C|]. split; [destruct w; apply C|].
      split; [rewrite Ow; reflexivity|]. split; [exact Lay|].
      cbn [u_pt]. replace (Vm (Kmem.fl s') (pt s')) with s' by (destruct s'; reflexivity). exact Cp.
Qed.

Definition good_name (name : list Z) : Prop := nonul name /\ len name < MAX_NAME_LEN.

Lemma until_zero_app l x : nonul l -> until_zero (l ++ 0 :: x) = (l, true).
Proof.
  intros N. induction N as [|c l Nc N IH]; [reflexivity|]. cbn. rewrite (proj2 (Z.eqb_neq c 0) Nc), IH. reflexivity.
Qed.

Lemma name_of_bytes name : good_name name -> fst (until_zero (name_bytes garbage name)) = name.
Proof.
  intros [N L]. unfold name_bytes, MAX_NAME_LEN in *. change (Z.to_nat 16) with 16%nat.
  rewrite firstn_app, firstn_all2 by lia. replace (16 - length name)%nat with (S (15 - length name)) by lia. cbn [firstn app].
  rewrite until_zero_app by exact N. reflexivity.
Qed.

Lemma claim_run p name k : sound k -> (p < length (k_procs k))%nat -> good_name name -> bad_name name = false ->
  (exists e k', claim kernel_end physical_stop garbage p name k = (Fail e, k') /\ fine k k' /\ (sealed k -> sealed k')) \/
  (exists i w fl pm r ps b, claim kernel_end physical_stop garbage p name k =
      (Good (i, w), K fl pm (k_procs k) (list_set (k_rings k) i r)) /\
    (i < length (k_rings k))%nat /\ claimed p i w (k_fl k) fl (k_procs k) (k_rings k) r ps b /\ ring_name r = name /\
    match findRingbufByName name k with
    | Some j => j = i /\ fl = k_fl k /\ pm = k_pm k /\ r = ring_at k i
    | None => wiped ps b pm /\ no_owner r = true
    end).
Proof.
  destruct k as [fl pm procs rings]. intros S Hp Gn Bn. cbn [k_fl k_procs k_rings k_pm] in *. unfold claim. kstep.
  assert (Keep : forall e, exists e' k', (Fail (A:=nat * bool) e, K fl pm procs rings) = (Fail e', k') /\ fine (K fl pm procs rings) k' /\
    (sealed (K fl pm procs rings) -> sealed k')).
  { intros e. exists e, (K fl pm procs rings). split; [reflexivity|split; [apply fine_refl, S|auto]]. }
  destruct (findRingbufByName name (K fl pm procs rings)) as [i|] eqn:Fn.
  - apply find_ring_some in Fn as [Hi Fn]. cbn [k_rings] in Hi. apply andb_prop in Fn as [Fr Fnm]. apply negb_true_iff, Z.eqb_neq in Fr.
    apply bool_decide_eq_true in Fnm. unfold ring_at in *. cbn [k_rings] in *. set (r := nth i rings ring0) in *.
    destruct (tk_ring _ _ _ S i Hi) as [In|A]; [destruct In as (Z0 & _); contradiction|]. cbn [k_procs k_rings] in A. fold r in A.
    destruct A as (ps & b & L & Rp & Rb & R0 & Rn & Rd & Ro).
    destruct (owned_by p (fst (owners r)) || owned_by p (snd (owners r))) eqn:Op; [left; apply Keep|]. rstep.
    assert (Cl : forall w, o_proc (get_owner w r) = None -> (exists i' w' fl' pm' r' ps' b',
      (Good (i, w), K fl pm procs rings) = (Good (i', w'), K fl' pm' procs (list_set rings i' r')) /\ (i' < length rings)%nat /\
      claimed p i' w' fl fl' procs rings r' ps' b' /\ ring_name r' = name /\ i = i' /\ fl' = fl /\ pm' = pm /\ r' = nth i' rings ring0)).
    { intros w Fw. exists i, w, fl, pm, r, ps, b. unfold r at 1. rewrite set_same. split; [reflexivity|]. split; [exact Hi|].
      split; [|auto 10]. split; auto; fold r.
      - rewrite (ring_pages_active r ps b Rp Rb). reflexivity.
      - intros q Q. destruct (Ro (negb w) q Q) as (Hq & v & Lay). split; [|split; [exact Hq|exists v; exact Lay]].
        intros ->. unfold owned_by in Op. destruct w; cbn in Q; rewrite Q, Nat.eqb_refl in Op; [|rewrite orb_true_r in Op]; discriminate.
      - intros j Hj Ne Rj E. apply Ne. exact (tk_name _ _ _ S j i Hj Hi Rj R0 E). }
    destruct (o_proc (fst (owners r))) as [q1|] eqn:O1, (o_proc (snd (owners r))) as [q2|] eqn:O2.
    + left. apply Keep.
    + right. exact (Cl true O2).
    + right. exact (Cl false O1).
    + unfold n_owners, has in Rn. rewrite O1, O2 in Rn. lia.
  - destruct (findFreeRingbuf (K fl pm procs rings)) as [i|] eqn:Ff; [|left; apply Keep].
    apply find_ring_some in Ff as [Hi Ff]. cbn [k_rings] in Hi. apply Z.eqb_eq in Ff. unfold ring_at in Ff. cbn [k_rings] in Ff.
    assert (In : inactive (nth i rings ring0)).
    { destruct (tk_ring _ _ _ S i Hi) as [In|(ps & b & _ & _ & _ & R0 & _)]; [exact In|]. cbn [k_rings] in R0. lia. }
    set (r := nth i rings ring0) in *.
    pose proof (tk_mem _ _ _ S) as Fm. unfold all_pages in Fm. rewrite Forall_app in Fm. destruct Fm as [Fm _]. cbn [k_fl] in Fm.
    pose proof (tk_nodup _ _ _ S) as Nd. unfold all_pages in Nd. apply NoDup_app in Nd as (Nd & _ & _). cbn [k_fl] in Nd.
    destruct (activate_run i name fl pm procs rings Hi In Bn Fm) as [(ps & b & fl' & pm' & -> & L & Wi & E)|(fl' & pm' & P & _ & E)].
    + right. rrun E. kstep. fold r. exists i, false, fl', pm', (ring_with r (name_bytes garbage name) ps b), ps, b.
      assert (No : no_owner (ring_with r (name_bytes garbage name) ps b) = true) by apply In. rewrite No.
      split; [reflexivity|]. split; [exact Hi|]. split; [|split; [apply name_of_bytes, Gn|split; [apply Wi, Nd|reflexivity]]].
      destruct In as (Z0 & Rp & Rb & Ro). unfold no_owner in Ro.
      destruct (o_proc (fst (owners r))) eqn:O1; [discriminate|]. destruct (o_proc (snd (owners r))) eqn:O2; [discriminate|].
      split; auto.
      * fold r. rewrite (ring_pages_inactive r); [solve_Permutation|]. split; [exact Z0|]. split; [exact Rp|]. split; [exact Rb|].
        unfold no_owner. rewrite O1, O2. reflexivity.
      * cbn [refcount ring_with]. rewrite Z0. unfold n_owners, has. cbn [owners ring_with]. rewrite O1, O2. reflexivity.
      * intros q Q. change (o_proc (snd (owners r)) = Some q) in Q. congruence.
      * left. split; [exact Z0|]. split; [exact Rp|]. split; [exact Rb|]. unfold no_owner. fold r. rewrite O1, O2. reflexivity.
      * intros j Hj Ne Rj. change (ring_name (ring_with r (name_bytes garbage name) ps b)) with (fst (until_zero (name_bytes garbage name))).
        rewrite name_of_bytes by exact Gn. apply (find_ring_none _ _ j) in Fn; [|exact Hj]. unfold ring_at in Fn. cbn [k_rings] in Fn.
        apply andb_false_iff in Fn as [Fn|Fn]; [apply negb_false_iff, Z.eqb_eq in Fn; lia|]. apply bool_decide_eq_false in Fn. exact Fn.
    + left. exists NoMemory. eexists. split; [erewrite run_bind by exact E; reflexivity|]. fold r.
      set (r' := set_name (name_bytes garbage name) r). rewrite <- (set_same procs p proc0) at 2.
      assert (P' : fl ++ ring_pages (nth i rings ring0) ++ tables (u_pt (nth p procs proc0)) ≡ₚ fl' ++ ring_pages r' ++ tables (u_pt (nth p procs proc0))).
      { rewrite P. reflexivity. }
      split; [|intros Pr; unfold sealed; cbn [k_fl k_procs k_rings]; rewrite <- (set_same procs p proc0); 
        apply (private_set fl fl' procs rings p i (nth p procs proc0) r' Hp Hi (all_pages_set fl fl' procs rings p i _ r' Hp Hi P')); [|exact Pr];
        apply guarded_same; try reflexivity; apply inactive_free, In].
      split; cbn [k_fl k_procs k_rings]; rewrite ?list_set_length; auto.
      * apply (table_set fl fl' procs rings p i (nth p procs proc0) r' S Hp Hi P'); auto.
        -- cbn. lia.
        -- exact (tk_leaf _ _ _ S p Hp).
        -- exact (tk_top _ _ _ S p Hp).
        -- cbn. reflexivity.
      * apply all_pages_set; assumption.
Qed.

Lemma open_fine p name addr k t : sound k -> (p < length (k_procs k))%nat -> good_name name ->
  u_top (proc_at k p) = 4096 * t -> 34 <= t < pages_max ->
  exists o k', ringbuf_open kernel_end physical_stop garbage p name addr k = (o, k') /\
    ((o <> Dead /\ fine k k' /\ (~ halfway o -> sealed k -> sealed k') /\
      (o = Good tt -> exists i w pm ps b, opened p i w name addr pm k' ps b (t - 31) /\
         match findRingbufByName name k with
         | Some j => j = i /\ pm = k_pm k /\ buf_pages (ring_at k i) = List.map Some ps /\ book_page (ring_at k i) = Some b
         | None => wiped ps b pm
         end)) \/
     (o = Dead /\ exists i q w e k1, findRingbufByName name k = Some i /\ o_proc (get_owner (negb w) (ring_at k i)) = Some q /\ q <> p /\
        (own p i w ;; attach p i w addr) k = (Good (Some e), k1))).
Proof.
  intros S Hp Gn Tp B. unfold ringbuf_open.
  destruct (bad_name name) eqn:Bn.
  { exists (Fail BadNameLength), k. split; [reflexivity|]. left. split; [discriminate|]. split; [apply fine_refl, S|]. split; [auto|discriminate]. }
  rstep. destruct (claim_run p name k S Hp Gn Bn) as [(e & k' & E & F & Se)|(i & w & fl & pm & r & ps & b & E & Hi & C & Nm & Fn)].
  { exists (Fail e), k'. split; [rewrite (run_bind _ _ _ _ _ E); reflexivity|]. left. split; [discriminate|]. split; [exact F|]. split; [auto|discriminate]. }
  rrun E. cbv iota beta. destruct k as [fl0 pm0 procs rings]. cbn [k_fl k_procs k_rings k_pm] in *.
  destruct (finish_fine p i w addr fl0 fl pm procs rings r ps b t S Hp Hi C Tp B) as (o & k' & Ef & [(Nd & T & P & Lp & Lr & Se & Op)|(-> & (q & Q) & e & k1 & A)]).
  - exists o, k'. split; [exact Ef|]. left. split; [exact Nd|]. split; [split; assumption|]. split; [exact Se|]. intros ->. exists i, w, pm, ps, b.
    rewrite <- Nm at 1. split; [apply Op; reflexivity|]. destruct (findRingbufByName name _) as [j|]; [|apply Fn].
    destruct Fn as (-> & -> & -> & ->). split; [reflexivity|]. split; [reflexivity|]. split; apply C.
  - exists Dead, k'. split; [exact Ef|]. right. split; [reflexivity|]. destruct (findRingbufByName name _) as [j|] eqn:Fj.
    + destruct Fn as (-> & -> & -> & ->). exists i, q, w, e, k1. split; [reflexivity|]. split; [exact Q|].
      split; [apply (cl_other _ _ _ _ _ _ _ _ _ _ C q Q)|]. unfold ring_at in A. cbn [k_rings] in A. rewrite set_same in A. exact A.
    + destruct Fn as [_ No]. unfold no_owner in No. destruct w; cbn in Q; rewrite Q in No; [|destruct (o_proc _)]; discriminate.
Qed.
End Kernel.
