(* ===== verification/KRingUser.v ===== *)
(** What the ring-buffer system call gives to user programs: every sequence of calls
    keeps the table of buffers sound, the two owners of a buffer share its memory
    mapped twice in a row, nobody else has it unless an open failed halfway, and a
    new buffer holds nothing of what its pages held. *)

From S2P Require Import Prelude Mem.
From stdpp Require Import base gmap list.
From S2P Require Import Kmem KmemSpec Boundary KRing KRingSpec.

Local Open Scope Z_scope.
Local Open Scope zm_scope.

Lemma lookup_nth {A} (l : list A) n d : (n < length l)%nat -> l !! n = Some (nth n l d).
Proof. intros H. destruct (lookup_lt_is_Some_2 l n H) as [x X]. rewrite X, (nth_lookup_Some _ _ _ _ X). reflexivity. Qed.

Lemma flat_nodup {A B} (f : A -> list B) l i d : NoDup (flat_map f l) -> (i < length l)%nat -> NoDup (f (nth i l d)).
Proof.
  revert i. induction l as [|y l IH]; intros [|i] N H; cbn [length] in H; try lia; cbn [flat_map] in N;
    apply NoDup_app in N as (N1 & _ & N2); cbn [nth]; [exact N1|]. apply IH; [exact N2|lia].
Qed.

(** * Memory seen through a page table *)

Lemma place_leaf kernel_end physical_stop s k d q pm : KmemSpec.wf kernel_end physical_stop s ->
  pt_leaves (pt s) !! k = Some (Pte q pm true) -> 0 <= d < 4096 ->
  place (translation_of s) (4096 * k + d) = Some (q + d).
Proof.
  intros W L B. destruct (wf_leaves _ _ _ W _ _ L) as (Bk & _). unfold place.
  replace ((4096 * k + d) / 4096) with k by (rewrite (Z.mul_comm 4096 k), Z.div_add_l, Z.div_small by lia; lia).
  replace ((4096 * k + d) mod 4096) with d by (rewrite Z.add_comm, Z.mul_comm, Z_mod_plus_full, Z.mod_small by lia; reflexivity).
  unfold translation_of, translateAddress. rewrite (walk_present _ _ _ _ _ W L), L.
  unfold isOutOfRange, max_virtual_address. rewrite (proj2 (Z.leb_gt _ _)) by (unfold pages_max in Bk; lia). reflexivity.
Qed.

Lemma string_in_good tr pm n : forall v s, string_in tr pm v n = Some s -> nonul s /\ (length s < n)%nat.
Proof.
  induction n as [|n IH]; intros v s; cbn [string_in]; [discriminate|]. destruct (place tr v) as [x|]; [|discriminate].
  destruct (Z.eqb_spec (pm x) 0) as [|Ne]; [injection 1 as <-; split; [constructor|cbn; lia]|].
  destruct (string_in tr pm (v + 1) n) as [s'|] eqn:E; [|discriminate]. injection 1 as <-.
  destruct (IH _ _ E) as [N L]. split; [constructor; assumption|cbn; lia].
Qed.

Lemma copyInString_good tr pm v name : copyInString tr pm v (Z.to_nat MAX_NAME_LEN) = Some name -> good_name name.
Proof.
  unfold copyInString. rewrite copyInString_loop_bytes by lia. intros E. apply string_in_good in E as [N L].
  split; [exact N|]. unfold MAX_NAME_LEN in *. lia.
Qed.

Section Kernel.
Context (kernel_end physical_stop : Z) (Stop : 0 <= kernel_end /\ physical_stop <= 2 ^ 63).
Variable garbage : list Z.
Abbreviation sound := (KRingSpec.sound kernel_end physical_stop).

(** A second owner's pages, or the address it asks for, cannot be put in place. *)
Definition second_fails (k : kst) (p : nat) (a2 : Z) : Prop :=
  exists name i q w e k1, findRingbufByName name k = Some i /\ o_proc (get_owner (negb w) (ring_at k i)) = Some q /\ q <> p /\
    (own p i w ;; attach p i w a2) k = (Good (Some e), k1).

Lemma sys_fine k p a0 a1 a2 : sound k -> (p < length (k_procs k))%nat -> 4096 * 34 <= u_top (proc_at k p) ->
  exists o k', sys_ringbuf kernel_end physical_stop garbage p a0 a1 a2 k = (o, k') /\
    ((o <> Dead /\ fine kernel_end physical_stop k k' /\ (o <> Good (-8) -> o <> Good (-9) -> sealed k -> sealed k')) \/ (o = Dead /\ (a1 <> 0 /\ a1 <> 1 \/ a1 = 1 /\ second_fails k p a2))).
Proof.
  intros S Hp Room. unfold sys_ringbuf.
  assert (Keep : forall z : Z, exists (o : out Z) k', (Good z, k) = (o, k') /\
    ((o <> Dead /\ fine kernel_end physical_stop k k' /\ (o <> Good (-8) -> o <> Good (-9) -> sealed k -> sealed k')) \/ (o = Dead /\ (a1 <> 0 /\ a1 <> 1 \/ a1 = 1 /\ second_fails k p a2)))).
  { intros z. exists (Good z), k. split; [reflexivity|]. left. split; [discriminate|]. split; [apply fine_refl, S|auto]. }
  destruct (if a0 =? 0 then None else _) as [name|] eqn:En; [|apply Keep].
  destruct (a0 =? 0); [discriminate|]. apply copyInString_good in En. destruct (a2 =? 0); [apply Keep|].
  destruct (Z.eqb_spec a1 1) as [->|N1]; [|destruct (Z.eqb_spec a1 0) as [->|N0]].
  - destruct (tk_top _ _ _ _ _ S p Hp) as (t & T & B).
    destruct (open_fine kernel_end physical_stop Stop garbage p name a2 k t S Hp En T) as (o & k' & E & [(Nd & F & Se & _)|(-> & D)]).
    + unfold proc_at in Room. change (UProc _ 0 0) with proc0 in Room. rewrite T in Room. lia.
    + rewrite E. destruct o as [[]|e|]; [eexists (Good 0), k'|eexists (Good _), k'|congruence];
        (split; [reflexivity|left; split; [discriminate|split; [exact F|]]]); intros N8 N9; apply Se; intros [H|H]; try discriminate;
        injection H as ->; first [destruct N8; reflexivity|destruct N9; reflexivity].
    + rewrite E. exists Dead, k'. split; [reflexivity|]. right. split; [reflexivity|]. right. split; [reflexivity|].
      destruct D as (i & q & w & e & k1 & D). exists name, i, q, w, e, k1. exact D.
  - destruct (close_fine kernel_end physical_stop Stop p name a2 k S Hp) as (o & k' & E & Nd & F & _ & Se).
    rewrite E. destruct o as [[]|e|]; [eexists (Good 0), k'|eexists (Good _), k'|congruence];
      (split; [reflexivity|left; split; [discriminate|auto]]).
  - exists Dead, k. split; [reflexivity|]. right. split; [reflexivity|]. left. auto.
Qed.

(** ** Runs *)

(** No buffer is in use, and no process has a page that is free or holds a table. *)
Definition fresh (k : kst) : Prop :=
  sound k /\ (forall i, (i < length (k_rings k))%nat -> inactive (ring_at k i)) /\
  forall p x e, (p < length (k_procs k))%nat -> pt_leaves (u_pt (proc_at k p)) !! x = Some e -> pte_page e ∉ pages_of k.

(** What the processes do with buffers, in any order: calls with any registers, by
    processes with 34 free virtual pages below the ones they use; exits; and writes
    that put any bytes in memory.  In a [clean] run no open fails at the mapping of
    the pages or at the copy of the address. *)
Inductive ring_run (clean : Prop) (start : kst) : kst -> Prop :=
| run_start : ring_run clean start start
| run_call k p a0 a1 a2 z k' :
    ring_run clean start k -> (p < length (k_procs k))%nat -> 4096 * 34 <= u_top (proc_at k p) ->
    sys_ringbuf kernel_end physical_stop garbage p a0 a1 a2 k = (Good z, k') ->
    (clean -> z <> intFromErr MapPagesFailed /\ z <> intFromErr CopyOutFailed) ->
    ring_run clean start k'
| run_exit k p k' :
    ring_run clean start k -> (p < length (k_procs k))%nat -> free_rings kernel_end physical_stop p k = (Good tt, k') ->
    ring_run clean start k'
| run_bytes k pm : ring_run clean start k -> ring_run clean start (with_pm pm k).

Lemma run_sound clean start k : sound start -> ring_run clean start k -> sound k.
Proof.
  intros S R. induction R as [|k p a0 a1 a2 z k' _ IH Hp T E _|k p k' _ IH Hp E|k pm _ IH]; [exact S| | |exact IH].
  - destruct (sys_fine k p a0 a1 a2 IH Hp T) as (o & k2 & E2 & [(_ & F & _)|(-> & _)]); rewrite E in E2; [|discriminate].
    injection E2 as _ <-. apply F.
  - destruct (free_rings_fine kernel_end physical_stop Stop p k IH Hp) as (k2 & E2 & F & _). rewrite E in E2. injection E2 as <-. apply F.
Qed.

Lemma fresh_sealed k : fresh k -> sealed k.
Proof. intros (_ & _ & F) p x e Hp X In. destruct (F p x e Hp X In). Qed.

Lemma run_sealed start k : fresh start -> ring_run True start k -> sealed k.
Proof.
  intros Fr R.
  induction R as [|k p a0 a1 a2 z k' R IH Hp T E C|k p k' R IH Hp E|k pm R IH].
  - apply fresh_sealed, Fr.
  - pose proof (run_sound _ _ _ (proj1 Fr) R) as S. destruct (C I) as [C8 C9].
    destruct (sys_fine k p a0 a1 a2 S Hp T) as (o & k2 & E2 & [(_ & _ & Se)|(-> & _)]); rewrite E in E2; [|discriminate].
    injection E2 as <- <-. apply Se; [intros H; injection H as H; exact (C8 H)|intros H; injection H as H; exact (C9 H)|exact IH].
  - pose proof (run_sound _ _ _ (proj1 Fr) R) as S.
    destruct (free_rings_fine kernel_end physical_stop Stop p k S Hp) as (k2 & E2 & _ & _ & _ & Se). rewrite E in E2. injection E2 as <-.
    exact (Se IH).
  - exact IH.
Qed.

(** ** The bytes of a buffer *)

Definition buf_capacity : Z := Z.of_nat RINGBUF_SIZE * page_size.

(** Where byte [d] of the buffer lies; the pages are mapped downwards. *)
Definition buf_byte (ps : list Z) (d : Z) : Z := nth (15 - Z.to_nat ((d / 4096) mod 16)) ps 0 + d mod 4096.

Lemma layout_buf k p o ps b v d : sound k -> (p < length (k_procs k))%nat -> layout (proc_at k p) o ps b v ->
  length ps = RINGBUF_SIZE -> 0 <= d < 2 * buf_capacity ->
  place (translation_of (vm_at k p)) (o_vbuf o + d) = Some (buf_byte ps d).
Proof.
  intros S Hp (_ & V & _ & Lay) L B. change (2 * buf_capacity) with (32 * 4096) in B. rewrite V.
  set (a := d / 4096). set (c := d mod 4096). assert (D : d = 4096 * a + c) by (apply Z.div_mod; lia).
  assert (Ba : 0 <= a < 32) by (unfold a; Z.to_euclidean_division_equations; lia).
  assert (Bc : 0 <= c < 4096) by (apply Z.mod_pos_bound; lia).
  replace (4096 * v + d) with (4096 * (v + a) + c) by lia.
  assert (E : (ps ++ ps ++ [b]) !! (31 - Z.to_nat a)%nat = Some (nth (15 - Z.to_nat (a mod 16)) ps 0)).
  { assert (In : forall n, (n < 16)%nat -> ps !! n = Some (nth n ps 0)).
    { intros n Hn. apply lookup_nth. rewrite L. exact Hn. }
    destruct (Z.lt_ge_cases a 16).
    - rewrite Z.mod_small by lia. rewrite lookup_app_r by (rewrite L; unfold RINGBUF_SIZE; lia). rewrite lookup_app_l by (rewrite L; unfold RINGBUF_SIZE; lia).
      rewrite L. replace (31 - Z.to_nat a - RINGBUF_SIZE)%nat with (15 - Z.to_nat a)%nat by (unfold RINGBUF_SIZE; lia). apply In. lia.
    - replace a with (a - 16 + 1 * 16) at 2 by lia. rewrite Z_mod_plus_full, Z.mod_small by lia.
      rewrite lookup_app_l by (rewrite L; unfold RINGBUF_SIZE; lia).
      replace (31 - Z.to_nat a)%nat with (15 - Z.to_nat (a - 16))%nat by lia. apply In. lia. }
  apply Lay in E. replace (v + 31 - Z.of_nat (31 - Z.to_nat a)) with (v + a) in E by lia.
  exact (place_leaf _ _ (vm_at k p) (v + a) c _ rw (table_vm _ _ _ _ _ p S Hp) E Bc).
Qed.

Lemma layout_book k p o ps b v d : sound k -> (p < length (k_procs k))%nat -> layout (proc_at k p) o ps b v ->
  length ps = RINGBUF_SIZE -> 0 <= d < page_size -> place (translation_of (vm_at k p)) (o_vbook o + d) = Some (b + d).
Proof.
  intros S Hp (_ & _ & V & Lay) L B. rewrite V.
  assert (E : (ps ++ ps ++ [b]) !! 32%nat = Some b).
  { rewrite (assoc_L (++)), lookup_app_r by (rewrite length_app, L; unfold RINGBUF_SIZE; lia).
    rewrite length_app, L. reflexivity. }
  apply Lay in E. replace (v + 31 - Z.of_nat 32) with (v - 1) in E by lia.
  exact (place_leaf _ _ (vm_at k p) (v - 1) d _ rw (table_vm _ _ _ _ _ p S Hp) E B).
Qed.

Lemma buf_byte_mirror ps d : buf_byte ps (d + buf_capacity) = buf_byte ps d.
Proof.
  unfold buf_byte. change buf_capacity with (16 * 4096). rewrite Z.div_add, Z_mod_plus_full by lia.
  replace (d / 4096 + 16) with (d / 4096 + 1 * 16) by lia. rewrite Z_mod_plus_full. reflexivity.
Qed.

Lemma buf_byte_page ps d : length ps = RINGBUF_SIZE -> exists q, q ∈ ps /\ q <= buf_byte ps d < q + page_size.
Proof.
  intros L. unfold buf_byte. exists (nth (15 - Z.to_nat ((d / 4096) mod 16)) ps 0). split.
  - apply list_elem_of_In, nth_In. rewrite L. unfold RINGBUF_SIZE. lia.
  - pose proof (Z.mod_pos_bound d 4096). change page_size with 4096. lia.
Qed.

Lemma buf_byte_inj ps d d' : length ps = RINGBUF_SIZE -> NoDup ps -> Forall (in_memory kernel_end physical_stop) ps ->
  0 <= d < buf_capacity -> 0 <= d' < buf_capacity -> buf_byte ps d = buf_byte ps d' -> d = d'.
Proof.
  intros L N F B B' E. change buf_capacity with (16 * 4096) in *. unfold buf_byte in E.
  rewrite (Z.mod_small (d / 4096)), (Z.mod_small (d' / 4096)) in E by (Z.to_euclidean_division_equations; lia).
  pose proof (Z.mod_pos_bound d 4096 ltac:(lia)). pose proof (Z.mod_pos_bound d' 4096 ltac:(lia)).
  set (n := (15 - Z.to_nat (d / 4096))%nat) in *. set (n' := (15 - Z.to_nat (d' / 4096))%nat) in *.
  assert (Hn : forall n, (n < 16)%nat -> ps !! n = Some (nth n ps 0)).
  { intros m Hm. apply lookup_nth. rewrite L. exact Hm. }
  pose proof (Hn n ltac:(lia)) as Q. pose proof (Hn n' ltac:(lia)) as Q'.
  rewrite Forall_forall in F. pose proof (F _ (list_elem_of_lookup_2 _ _ _ Q)) as [_ A].
  pose proof (F _ (list_elem_of_lookup_2 _ _ _ Q')) as [_ A'].
  assert (Eq : nth n ps 0 = nth n' ps 0) by lia. rewrite <- Eq in Q'. pose proof (NoDup_lookup _ _ _ _ N Q Q') as En.
  rewrite (Z.div_mod d 4096), (Z.div_mod d' 4096) by lia. f_equal; [|lia]. f_equal.
  assert (0 <= d / 4096 < 16) by (Z.to_euclidean_division_equations; lia).
  assert (0 <= d' / 4096 < 16) by (Z.to_euclidean_division_equations; lia). lia.
Qed.
End Kernel.

(** * Two processes *)

(** Memory from page 600 to 900, 120 free pages, and two processes with one page of
    data each, at address 0, that holds the name a at address 8. *)
Definition KE : Z := 4096 * 600.
Definition PS : Z := 4096 * 900.
Definition user (fl : list Z) (root : Z) : list Z * uproc :=
  let s := snd (Kmem.map (Vm fl (PTable root ∅ ∅ ∅)) 0 (root + 4096) 4096 rw true) in
  (Kmem.fl s, UProc (pt s) (trapframe_virtual_address - 2 * page_size) 0).
Definition k0 : kst :=
  let '(f, a) := user (List.map (fun i => 4096 * (600 + Z.of_nat i)) (seq 0 120)) (4096 * 800) in
  let '(f, b) := user f (4096 * 810) in
  K f (fun x => if (x =? 4096 * 801 + 8) || (x =? 4096 * 811 + 8) then 97 else 0) [a; b] initial_rings.

Lemma k0_sound : sound KE PS k0.
Proof.
  assert (R : forall i, nth i initial_rings ring0 = ring0).
  { intros i. do 10 (destruct i as [|i]; [reflexivity|]). destruct i; reflexivity. }
  assert (P : forall Q : uproc -> Prop, Forall Q (k_procs k0) -> forall p, (p < length (k_procs k0))%nat -> Q (nth p (k_procs k0) proc0)).
  { intros Q F p Hp. rewrite Forall_forall in F. apply F, list_elem_of_In, nth_In, Hp. }
  split.
  - apply (bool_decide_unpack _). vm_compute. exact I.
  - apply (bool_decide_unpack _). vm_compute. exact I.
  - intros i _. left. change (k_rings k0) with initial_rings. rewrite R. exact inactive0.
  - intros i j _ _. change (k_rings k0) with initial_rings. rewrite !R. cbn. lia.
  - apply (P (fun u => leaves_ok (u_pt u))).
    refine (bool_decide_unpack (Forall (fun u => map_Forall (fun k _ => 0 <= k < pages_max /\
      is_Some (pt_mids (u_pt u) !! (k / 262144)) /\ is_Some (pt_lows (u_pt u) !! (k / 512))) (pt_leaves (u_pt u))) (k_procs k0)) _).
    vm_compute. exact I.
  - intros p Hp. exists (2 ^ 26 - 4). split; [|vm_compute; split; congruence].
    apply (P (fun u => u_top u = 4096 * (2 ^ 26 - 4))); [|exact Hp]. apply (bool_decide_unpack _). vm_compute. exact I.
  - intros p Hp. assert (C : owned_count p (k_rings k0) = 0%nat) by reflexivity. rewrite C.
    apply (P (fun u => Z.of_nat 0 <= u_owned u)); [|exact Hp]. apply (bool_decide_unpack _). vm_compute. exact I.
Defined.

Definition k1 : kst := snd (sys_ringbuf KE PS [] 0 8 1 16 k0).
Definition k2 : kst := snd (sys_ringbuf KE PS [] 1 8 1 16 k1).

Lemma opens : fst (sys_ringbuf KE PS [] 0 8 1 16 k0) = Good 0 /\ fst (sys_ringbuf KE PS [] 1 8 1 16 k1) = Good 0 /\ fst (sys_ringbuf KE PS [] 1 8 1 5000 k1) = Dead.
Proof. vm_compute. auto. Qed.

(** A state after a call that did not end the kernel is sound. *)
Lemma sound_after k p a0 a1 a2 z : sound KE PS k -> (p < length (k_procs k))%nat -> 4096 * 34 <= u_top (proc_at k p) ->
  fst (sys_ringbuf KE PS [] p a0 a1 a2 k) = Good z -> sound KE PS (snd (sys_ringbuf KE PS [] p a0 a1 a2 k)).
Proof.
  intros S Hp T E. assert (St : 0 <= KE /\ PS <= 2 ^ 63) by (unfold KE, PS; lia).
  destruct (sys_fine KE PS St [] k p a0 a1 a2 S Hp T) as (o & k' & E' & [(_ & F)|(-> & _)]); rewrite E' in *; [apply F|discriminate].
Qed.

Lemma k1_sound : sound KE PS k1.
Proof. unfold k1. apply (sound_after k0 0 8 1 16 0); [exact k0_sound|vm_compute; lia|vm_compute; discriminate|exact (proj1 opens)]. Qed.

Lemma k2_sound : sound KE PS k2.
Proof. unfold k2. apply (sound_after k1 1 8 1 16 0); [exact k1_sound|vm_compute; lia|vm_compute; discriminate|exact (proj1 (proj2 opens))]. Qed.

Lemma k0_fresh : fresh KE PS k0.
Proof.
  split; [exact k0_sound|]. split.
  - intros i _. unfold ring_at. change (k_rings k0) with initial_rings. do 10 (destruct i as [|i]; [exact inactive0|]). destruct i; exact inactive0.
  - assert (F : Forall (fun u => map_Forall (fun _ e => pte_page e ∉ pages_of k0) (pt_leaves (u_pt u))) (k_procs k0)).
    { apply (bool_decide_unpack _). vm_compute. exact I. }
    intros p x e Hp X. rewrite Forall_forall in F. exact (F _ (proj2 (list_elem_of_In _ _) (nth_In (k_procs k0) _ Hp)) x e X).
Qed.

(** A call with its result computed. *)
Lemma run_next clean k p a0 a1 a2 z : ring_run KE PS [] clean k0 k -> (p < length (k_procs k))%nat -> 4096 * 34 <= u_top (proc_at k p) ->
  fst (sys_ringbuf KE PS [] p a0 a1 a2 k) = Good z -> (clean -> z <> intFromErr MapPagesFailed /\ z <> intFromErr CopyOutFailed) ->
  ring_run KE PS [] clean k0 (snd (sys_ringbuf KE PS [] p a0 a1 a2 k)).
Proof.
  intros R Hp T E C. apply (run_call _ _ _ _ _ k p a0 a1 a2 z _ R Hp T); [|exact C]. rewrite <- E. destruct (sys_ringbuf _ _ _ _ _ _ _ _). reflexivity.
Qed.

Lemma k2_reached clean : ring_run KE PS [] clean k0 k2.
Proof.
  apply (run_next clean k1 1 8 1 16 0); [|vm_compute; lia|vm_compute; discriminate|exact (proj1 (proj2 opens))|intros _; split; discriminate].
  apply (run_next clean k0 0 8 1 16 0); [apply run_start|vm_compute; lia|vm_compute; discriminate|exact (proj1 opens)|intros _; split; discriminate].
Qed.

(** The first process opens with an address that is not mapped; then the second
    process opens. *)
Definition k3 : kst := snd (sys_ringbuf KE PS [] 0 8 1 5000 k0).
Definition k4 : kst := snd (sys_ringbuf KE PS [] 1 8 1 16 k3).

Lemma k4_reached : ring_run KE PS [] False k0 k4.
Proof.
  apply (run_next False k3 1 8 1 16 0); [|vm_compute; lia|vm_compute; discriminate|vm_compute; reflexivity|intros []].
  apply (run_next False k0 0 8 1 5000 (-9)); [apply run_start|vm_compute; lia|vm_compute; discriminate|vm_compute; reflexivity|intros []].
Qed.

Lemma k4_leak : o_proc (fst (owners (ring_at k4 0))) = Some 1%nat /\ o_proc (snd (owners (ring_at k4 0))) = None /\
  exists x q, pt_leaves (u_pt (proc_at k4 0)) !! x = Some (Pte q rw true) /\ q ∈ ring_pages (ring_at k4 0).
Proof.
  split; [vm_compute; reflexivity|]. split; [vm_compute; reflexivity|].
  exists (2 ^ 26 - 4). eexists. split; [vm_compute; reflexivity|]. apply (bool_decide_unpack _). vm_compute. exact I.
Qed.

(** * Theorems *)

Lemma ring_page_of k i q : (i < length (k_rings k))%nat -> q ∈ ring_pages (ring_at k i) -> q ∈ pages_of k.
Proof.
  intros Hi Q. unfold pages_of, all_pages. apply elem_of_app. right. apply elem_of_app. left. exact (in_flat ring_pages (k_rings k) i ring0 q Hi Q).
Qed.

Lemma ring_apart kernel_end physical_stop k i j q : sound kernel_end physical_stop k -> (i < length (k_rings k))%nat -> (j < length (k_rings k))%nat ->
  j <> i -> q ∈ ring_pages (ring_at k i) -> q ∉ ring_pages (ring_at k j).
Proof.
  intros S Hi Hj Ne Q. pose proof (tk_nodup _ _ _ _ _ S) as Nd. unfold all_pages in Nd. apply NoDup_app in Nd as (_ & _ & Nd).
  apply NoDup_app in Nd as (Nd & _ & _). apply (flat_apart ring_pages (k_rings k) i j ring0); auto.
Qed.



(** What the owners of a buffer see, and where its pages are not. *)
Lemma shared_bytes kernel_end physical_stop k i p1 p2 (r := ring_at k i) (o1 := fst (owners r)) (o2 := snd (owners r))
    (at1 := place (translation_of (vm_at k p1))) (at2 := place (translation_of (vm_at k p2))) :
  sound kernel_end physical_stop k -> (i < length (k_rings k))%nat -> o_proc o1 = Some p1 -> o_proc o2 = Some p2 ->
  p1 <> p2 /\
  (forall d, 0 <= d < 2 * buf_capacity -> exists x, at1 (o_vbuf o1 + d) = Some x /\ at2 (o_vbuf o2 + d) = Some x /\
     (d < buf_capacity -> at1 (o_vbuf o1 + (d + buf_capacity)) = Some x)) /\
  (forall d d', 0 <= d < buf_capacity -> 0 <= d' < buf_capacity -> at1 (o_vbuf o1 + d) = at1 (o_vbuf o1 + d') -> d = d') /\
  (forall d, 0 <= d < page_size -> exists x, at1 (o_vbook o1 + d) = Some x /\ at2 (o_vbook o2 + d) = Some x) /\
  (forall q, q ∈ ring_pages r -> q ∉ k_fl k /\ (forall j, (j < length (k_rings k))%nat -> j <> i -> q ∉ ring_pages (ring_at k j))).
Proof.
  intros S Hi O1 O2. destruct (tk_ring _ _ _ _ _ S i Hi) as [In|A].
  { apply (inactive_free p1) in In. unfold owns, owned_by in In. fold (ring_at k i) in In. fold r o1 in In.
    rewrite O1, Nat.eqb_refl in In. discriminate. }
  destruct A as (ps & b & L & Rp & Rb & R0 & Rn & Rd & Ro). fold (ring_at k i) in *. fold r in Rp, Rb, R0, Rn, Rd, Ro.
  destruct (Ro false p1 O1) as (H1 & v1 & L1). destruct (Ro true p2 O2) as (H2 & v2 & L2).
  pose proof (tk_nodup _ _ _ _ _ S) as Nd. unfold all_pages in Nd. apply NoDup_app in Nd as (_ & Nf & Nd). apply NoDup_app in Nd as (Nd & _ & _).
  pose proof (tk_mem _ _ _ _ _ S) as Fm. unfold all_pages in Fm. rewrite !Forall_app in Fm. destruct Fm as (_ & Fm & _).
  assert (Sub : forall q, q ∈ ring_pages r -> q ∈ flat_map ring_pages (k_rings k)).
  { intros q Q. exact (in_flat ring_pages (k_rings k) i ring0 q Hi Q). }
  pose proof (ring_pages_active r ps b Rp Rb) as Pr.
  split; [intros <-; specialize (Rd p1); unfold owned_by in Rd; fold o1 o2 in Rd; rewrite O1, O2, Nat.eqb_refl in Rd; discriminate|].
  split; [|split; [|split]].
  - intros d B. exists (buf_byte ps d). unfold at1, at2.
    rewrite (layout_buf kernel_end physical_stop k p1 o1 ps b v1), (layout_buf kernel_end physical_stop k p2 o2 ps b v2) by assumption.
    split; [reflexivity|]. split; [reflexivity|]. intros B'.
    rewrite (layout_buf kernel_end physical_stop k p1 o1 ps b v1 (d + buf_capacity)) by (assumption || lia). rewrite buf_byte_mirror. reflexivity.
  - intros d d' B B'. unfold at1. rewrite !(layout_buf kernel_end physical_stop k p1 o1 ps b v1) by (assumption || lia).
    intros E. injection E as E. apply (buf_byte_inj kernel_end physical_stop ps); auto.
    + assert (NoDup (ring_pages r)); [|rewrite Pr in *; apply NoDup_app in H as (H & _ & _); exact H]. exact (flat_nodup ring_pages (k_rings k) i ring0 Nd Hi).
    + rewrite Forall_forall in *. intros q Q. apply Fm, Sub. rewrite Pr. apply elem_of_app. left. exact Q.
  - intros d B. exists (b + d). unfold at1, at2.
    rewrite (layout_book kernel_end physical_stop k p1 o1 ps b v1), (layout_book kernel_end physical_stop k p2 o2 ps b v2) by assumption. auto.
  - intros q Q. split.
    + intros Fl. apply (Nf q Fl), elem_of_app. left. apply Sub, Q.
    + intros j Hj Ne. apply (flat_apart ring_pages (k_rings k) i j ring0); auto.
Qed.



(** C37: What a successful open gives.  The buffer has the name the caller's memory
    holds at a0 and the caller is its owner; the address of the buffer, as 8
    bytes, is what is copied out to a2; if a buffer of that name was in use it is
    that one, with its pages, and no byte but those of the address changes; if
    not, every byte of the buffer is 5 and the counters in the book are 0 before
    the address is copied out: nothing can be read of what the pages held before. *)
Theorem ring_open kernel_end physical_stop garbage k p a0 a2 k' :
  0 <= kernel_end -> physical_stop <= 2 ^ 63 ->
  sound kernel_end physical_stop k -> (p < length (k_procs k))%nat -> 4096 * 34 <= u_top (proc_at k p) ->
  sys_ringbuf kernel_end physical_stop garbage p a0 1 a2 k = (Good 0, k') ->
  let at_ := place (translation_of (vm_at k' p)) in
  exists i w name pm (o := get_owner w (ring_at k' i)),
    copyInString (translation_of (vm_at k p)) (k_pm k) a0 (Z.to_nat MAX_NAME_LEN) = Some name /\
    ring_name (ring_at k' i) = name /\ o_proc o = Some p /\
    of_le (le_bytes 8 (o_vbuf o)) = o_vbuf o /\
    (k_pm k', true) = copyOut (translation_of (vm_at k' p)) pm a2 (le_bytes 8 (o_vbuf o)) /\
    match findRingbufByName name k with
    | Some j => j = i /\ pm = k_pm k /\ ring_pages (ring_at k' i) = ring_pages (ring_at k i)
    | None => (forall d, 0 <= d < 2 * buf_capacity -> exists x, at_ (o_vbuf o + d) = Some x /\ pm x = 5) /\
              (forall d, 0 <= d < 16 -> exists x, at_ (o_vbook o + d) = Some x /\ pm x = 0)
    end.
Proof.
  intros Ke Ps S Hp T E at_. unfold sys_ringbuf in E. destruct (if a0 =? 0 then None else _) as [name|] eqn:En; [|discriminate].
  destruct (a0 =? 0); [discriminate|]. destruct (a2 =? 0); [discriminate|]. change (1 =? 1) with true in E. cbv iota in E.
  pose proof (copyInString_good _ _ _ _ En) as Gn. destruct (tk_top _ _ _ _ _ S p Hp) as (t & Tp & B).
  assert (T34 : 34 <= t) by (unfold proc_at in T; change (UProc _ 0 0) with proc0 in T; rewrite Tp in T; lia).
  destruct (open_fine kernel_end physical_stop (conj Ke Ps) garbage p name a2 k t S Hp Gn Tp ltac:(lia))
    as (o & k2 & E2 & [(Nd & F & _ & Op)|(-> & _)]); rewrite E2 in E; [|discriminate].
  destruct o as [[]|e|]; [|destruct e; discriminate|congruence]. injection E as ->.
  destruct (Op eq_refl) as (i & w & pm & ps & b & (N1 & N2 & N3 & N4 & Lay & Cp) & Fn).
  assert (Hp' : (p < length (k_procs k'))%nat) by (rewrite (fi_procs _ _ _ _ F); exact Hp).
  pose proof (fi_sound _ _ _ _ F) as S'. assert (V : o_vbuf (get_owner w (ring_at k' i)) = 4096 * (t - 31)) by apply Lay.
  exists i, w, name, pm. cbv zeta. split; [exact En|]. split; [exact N1|]. split; [exact N4|].
  split; [rewrite V; apply of_le_bytes; unfold pages_max in B; cbn; lia|]. split; [rewrite V; exact Cp|].
  destruct (findRingbufByName name k) as [j|].
  - destruct Fn as (-> & -> & B1 & B2). split; [reflexivity|]. split; [reflexivity|]. unfold ring_pages. rewrite N2, N3, B1, B2. reflexivity.
  - assert (L : length ps = RINGBUF_SIZE).
    { destruct (Nat.ltb_spec i (length (k_rings k'))) as [Hi|Hi].
      - destruct (tk_ring _ _ _ _ _ S' i Hi) as [In|(ps' & b' & L & Rp & _)].
        + destruct In as (_ & Rp & _). fold (ring_at k' i) in Rp. rewrite N2 in Rp.
          apply (f_equal length) in Rp. rewrite length_map, repeat_length in Rp. exact Rp.
        + fold (ring_at k' i) in Rp. rewrite N2 in Rp. apply (f_equal length) in Rp. rewrite !length_map in Rp. lia.
      - unfold ring_at in N2. rewrite nth_overflow in N2 by exact Hi. apply (f_equal length) in N2. rewrite length_map in N2. exact (eq_sym N2). }
    destruct Fn as [W5 W0]. split; intros d Bd.
    + exists (buf_byte ps d). unfold at_. rewrite (layout_buf kernel_end physical_stop k' p _ ps b (t - 31)) by assumption. split; [reflexivity|].
      apply W5. destruct (buf_byte_page ps d L) as (q & Q & Bq). apply Exists_exists. eauto.
    + exists (b + d). unfold at_. rewrite (layout_book kernel_end physical_stop k' p _ ps b (t - 31)) by (assumption || (change page_size with 4096; lia)).
      split; [reflexivity|]. apply W0. lia.
Qed.

Lemma ring_open_witness : sound KE PS k0 /\ exists i w,
  o_proc (get_owner w (ring_at k1 i)) = Some 0%nat /\ of_le (le_bytes 8 (o_vbuf (get_owner w (ring_at k1 i)))) = o_vbuf (get_owner w (ring_at k1 i)).
Proof.
  split; [exact k0_sound|]. destruct (ring_open KE PS [] k0 0 8 16 k1) as (i & w & name & pm & _ & _ & O & L & _).
  - unfold KE. lia.
  - unfold PS. lia.
  - exact k0_sound.
  - vm_compute. lia.
  - vm_compute. discriminate.
  - unfold k1. rewrite <- (proj1 opens). destruct (sys_ringbuf KE PS [] 0 8 1 16 k0). reflexivity.
  - exists i, w. auto.
Defined.
