(* ===== verification/Bio.v ===== *)
(** Disk blocks and the buffer cache: src/kernel/filesystem/buffer.zig and
    buffer_cache.zig, over a disk that may lose power.

    A block is its 256 words of 32 bits.  The disk writes one block at a time and
    a write returns when it is done (diskdriver.zig); [power] counts the writes
    left before the machine stops, and an operation that is cut short ends as
    [Crashed], with the disk as it is then.  A buffer is named by its index in
    [buffer_array]; the doubly linked list of the cache is [order], the most
    recently used buffer first.  The locks of the cache and of the buffers are
    not modelled: one process works on them at a time. *)

From S2P Require Import Prelude.
From stdpp Require Import base gmap list.

Local Open Scope Z_scope.

Abbreviation block := (list Z).

Definition NBUF : nat := 30.
Definition words_per_block : nat := 256.

Record dblock : Type := DB { number : Z; device : Z }.
#[export] Instance dblock_eq_dec : EqDecision dblock.
Proof. solve_decision. Defined.

(** * The machine *)

Record buffer : Type := Buffer {
  is_valid : bool; bblock : dblock; reference_count : Z; data : block
}.

Record cache : Type := Cache { buffer_array : list buffer; order : list nat }.

Record st : Type := St { disk : gmap Z block; power : option nat; bcache : cache }.

Variant outcome (A : Type) : Type :=
| Done (a : A) (s : st)
| Crashed (d : gmap Z block)
| Panicked.
Arguments Done {A}. Arguments Crashed {A}. Arguments Panicked {A}.

Definition io (A : Type) : Type := st -> outcome A.

#[export] Instance io_ret : MRet io := fun A a s => Done a s.
#[export] Instance io_bind : MBind io := fun A B f m s =>
  match m s with
  | Done a s => f a s
  | Crashed d => Crashed d
  | Panicked => Panicked
  end.

Definition panic {A} : io A := fun _ => Panicked.

Fixpoint for_each {A} (l : list A) (f : A -> io unit) : io unit :=
  match l with
  | [] => mret tt
  | x :: l => f x ≫= fun _ => for_each l f
  end.

(** The contents of a block of the disk; a block never written holds zeros. *)
Definition zero_block : block := replicate words_per_block 0.
Definition dget (d : gmap Z block) (n : Z) : block := default zero_block (d !! n).

Definition disk_read (n : Z) : io block := fun s => Done (dget (disk s) n) s.

Definition disk_write (n : Z) (b : block) : io unit := fun s =>
  match power s with
  | Some O => Crashed (disk s)
  | Some (S p) => Done tt (St (<[n := b]> (disk s)) (Some p) (bcache s))
  | None => Done tt (St (<[n := b]> (disk s)) None (bcache s))
  end.

(** * The cache *)

Definition init_array : cache :=
  Cache (replicate NBUF (Buffer false (DB 0 0) 0 zero_block)) (rev (seq 0 NBUF)).

Definition get (i : nat) : io buffer := fun s =>
  match buffer_array (bcache s) !! i with
  | Some b => Done b s
  | None => Panicked
  end.

Definition set (i : nat) (b : buffer) : io unit := fun s =>
  Done tt (St (disk s) (power s) (Cache (<[i := b]> (buffer_array (bcache s))) (order (bcache s)))).

Definition update (i : nat) (f : buffer -> buffer) : io unit :=
  get i ≫= fun b => set i (f b).

(** The first buffer of [l] that satisfies [p]. *)
Definition find_buffer (p : buffer -> bool) (bs : list buffer) (l : list nat) : option nat :=
  List.find (fun i => match bs !! i with Some b => p b | None => false end) l.

Definition add_ref (n : Z) (b : buffer) : buffer :=
  Buffer (is_valid b) (bblock b) (u32 (reference_count b + n)) (data b).
Definition recycle (blk : dblock) (b : buffer) : buffer := Buffer false blk 1 (data b).
Definition fill (d : block) (b : buffer) : buffer := Buffer true (bblock b) (reference_count b) d.
Definition write_data (f : block -> block) (b : buffer) : buffer :=
  Buffer (is_valid b) (bblock b) (reference_count b) (f (data b)).

Definition get_buffer (blk : dblock) : io nat := fun s =>
  let bs := buffer_array (bcache s) in
  match find_buffer (fun b => bool_decide (bblock b = blk)) bs (order (bcache s)) with
  | Some i => (update i (add_ref 1) ≫= fun _ => mret i) s
  | None =>
      match find_buffer (fun b => reference_count b =? 0) bs (rev (order (bcache s))) with
      | Some i => (update i (recycle blk) ≫= fun _ => mret i) s
      | None => Panicked
      end
  end.

(** * Buffers *)

Definition read (blk : dblock) : io nat :=
  get_buffer blk ≫= fun i =>
  get i ≫= fun b =>
  if is_valid b then mret i
  else disk_read (number (bblock b)) ≫= fun d => update i (fill d) ≫= fun _ => mret i.

Definition write (i : nat) : io unit :=
  get i ≫= fun b => disk_write (number (bblock b)) (data b).

Definition to_front (i : nat) : io unit := fun s =>
  Done tt (St (disk s) (power s)
    (Cache (buffer_array (bcache s)) (i :: List.remove Nat.eq_dec i (order (bcache s))))).

Definition release (i : nat) : io unit :=
  update i (add_ref (-1)) ≫= fun _ =>
  get i ≫= fun b =>
  if reference_count b =? 0 then to_front i else mret tt.

Definition pin (i : nat) : io unit := update i (add_ref 1).
Definition unpin (i : nat) : io unit := update i (add_ref (-1)).
