(* ===== verification/BioSpec.v ===== *)
(** The buffer cache as a map from the blocks in use to their contents.

    [held] maps the number of every block in use to its buffer, its reference
    count and its contents; a block that is not in use has the contents the disk
    has, whether it is cached or not.  [wp] is the logic of operations that may be
    cut short: its last argument holds of the disk whenever power may fail. *)

From S2P Require Import Prelude.
From stdpp Require Import base gmap list.
From S2P Require Import Bio.

Local Open Scope Z_scope.

(** * Crash conditions *)

Definition wp {A} (m : io A) (Q : A -> st -> Prop) (C : gmap Z block -> Prop) (s : st) : Prop :=
  match m s with
  | Done a s' => Q a s'
  | Crashed d => C d
  | Panicked => False
  end.

Lemma wp_ret {A} (a : A) Q C s : Q a s -> wp (mret a) Q C s.
Proof. auto. Qed.

Lemma wp_bind {A B} (m : io A) (f : A -> io B) Q C s :
  wp m (fun a s' => wp (f a) Q C s') C s -> wp (m ≫= f) Q C s.
Proof. unfold wp, mbind, io_bind. destruct (m s); auto. Qed.

Lemma wp_mono {A} (m : io A) Q Q' C C' s :
  wp m Q C s -> (forall a s', Q a s' -> Q' a s') -> (forall d, C d -> C' d) -> wp m Q' C' s.
Proof. unfold wp. intros H HQ HC. destruct (m s); auto. Qed.

(** A loop over the numbers below [n], with an invariant. *)
Lemma wp_for (I : nat -> st -> Prop) f C n : forall a s,
  I a s -> (forall k s, (a <= k < a + n)%nat -> I k s -> wp (f k) (fun _ s' => I (S k) s') C s) ->
  wp (for_each (seq a n) f) (fun _ s' => I (a + n)%nat s') C s.
Proof.
  induction n as [|n IH]; intros a s I0 Step; cbn [seq for_each].
  - apply wp_ret. rewrite Nat.add_0_r. exact I0.
  - apply wp_bind. eapply wp_mono; [apply (Step a s); [lia|exact I0]| |auto].
    intros [] s' I1. cbn beta. replace (a + S n)%nat with (S a + n)%nat by lia. apply IH; [exact I1|].
    intros k s2 B. apply Step. lia.
Qed.

(** * Buffers in use *)

Record hbuf : Type := HB { hb_idx : nat; hb_ref : Z; hb_data : block }.

Section Device.
Context (dv : Z).

Record cinv (s : st) (held : gmap Z hbuf) : Prop := {
  ci_len : length (buffer_array (bcache s)) = NBUF;
  ci_order : order (bcache s) ≡ₚ seq 0 NBUF;
  ci_uniq i j b b' :
    buffer_array (bcache s) !! i = Some b -> buffer_array (bcache s) !! j = Some b' ->
    bblock b = bblock b' -> device (bblock b) = dv -> i = j;
  ci_held n h : held !! n = Some h -> 0 < hb_ref h < 2 ^ 32 /\
    buffer_array (bcache s) !! hb_idx h = Some (Buffer true (DB n dv) (hb_ref h) (hb_data h));
  ci_rest i b : buffer_array (bcache s) !! i = Some b ->
    (reference_count b = 0 /\
      (device (bblock b) = dv -> is_valid b = true -> data b = dget (disk s) (number (bblock b)))) \/
    exists n, held !! n = Some (HB i (reference_count b) (data b));
}.

Definition with_bufs (s : st) (bs : list buffer) : st :=
  St (disk s) (power s) (Cache bs (order (bcache s))).

Lemma cinv_set s held i b n r d :
  cinv s held -> buffer_array (bcache s) !! i = Some b -> 0 < r < 2 ^ 32 ->
  (forall h, held !! n = Some h -> hb_idx h = i) ->
  (forall m h, held !! m = Some h -> hb_idx h = i -> m = n) ->
  (forall j b', buffer_array (bcache s) !! j = Some b' -> bblock b' = DB n dv -> j = i) ->
  cinv (with_bufs s (<[i := Buffer true (DB n dv) r d]> (buffer_array (bcache s)))) (<[n := HB i r d]> held).
Proof.
  intros [L O U H R] Li Br Hn Hm Un. assert (Bi : (i < length (buffer_array (bcache s)))%nat) by (eapply lookup_lt_Some; eauto).
  split; cbn.
  - rewrite length_insert. exact L.
  - exact O.
  - intros j k b1 b2 H1 H2 E D. destruct (decide (j = i)) as [->|Nj], (decide (k = i)) as [->|Nk]; auto.
    + rewrite list_lookup_insert_eq in H1 by auto. rewrite list_lookup_insert_ne in H2 by auto.
      injection H1 as <-. symmetry. eapply Un; [exact H2|exact (eq_sym E)].
    + rewrite list_lookup_insert_eq in H2 by auto. rewrite list_lookup_insert_ne in H1 by auto.
      injection H2 as <-. eapply Un; [exact H1|exact E].
    + rewrite list_lookup_insert_ne in H1, H2 by auto. eauto.
  - intros m h Hh. destruct (decide (m = n)) as [->|Ne].
    + rewrite lookup_insert_eq in Hh. simplify_eq/=. rewrite list_lookup_insert_eq by auto. auto.
    + rewrite lookup_insert_ne in Hh by auto. destruct (H m h Hh) as (Rh & Lh). split; [exact Rh|].
      rewrite list_lookup_insert_ne; [exact Lh|]. intros Ei. apply Ne. eauto.
  - intros j b' Hj. destruct (decide (j = i)) as [->|Nj].
    + rewrite list_lookup_insert_eq in Hj by auto. simplify_eq/=. right. exists n. apply lookup_insert_eq.
    + rewrite list_lookup_insert_ne in Hj by auto. destruct (R j b' Hj) as [C|[m Hm']]; [auto|right].
      exists m. rewrite lookup_insert_ne; [exact Hm'|]. intros ->. apply Nj. specialize (Hn _ Hm'). auto.
Qed.

(** A buffer in use, found by its index or by its block. *)
Lemma held_idx s held n h m h' :
  cinv s held -> held !! n = Some h -> held !! m = Some h' -> hb_idx h' = hb_idx h -> m = n.
Proof.
  intros I H H' E. apply (ci_held _ _ I) in H as [_ H], H' as [_ H']. rewrite E, H in H'. injection H' as -> _ _. reflexivity.
Qed.

Lemma cinv_change s held n i r d r' d' :
  cinv s held -> held !! n = Some (HB i r d) -> 0 < r' < 2 ^ 32 ->
  cinv (with_bufs s (<[i := Buffer true (DB n dv) r' d']> (buffer_array (bcache s)))) (<[n := HB i r' d']> held).
Proof.
  intros I H B. pose proof (ci_held _ _ I _ _ H) as [_ L]. eapply cinv_set; eauto.
  - intros h E. rewrite H in E. injection E as <-. reflexivity.
  - intros m h Hm E. eapply held_idx; eauto.
  - intros j b' Lj E. eapply (ci_uniq _ _ I); [exact Lj|exact L|exact E|]. rewrite E. reflexivity.
Qed.

(** ** Finding a buffer *)

Lemma find_buffer_some p bs l i :
  find_buffer p bs l = Some i -> i ∈ l /\ exists b, bs !! i = Some b /\ p b = true.
Proof.
  unfold find_buffer. intros H. apply List.find_some in H as [I H]. apply list_elem_of_In in I. split; [exact I|].
  destruct (bs !! i); [eauto|discriminate].
Qed.

Lemma find_buffer_none p bs l i b :
  find_buffer p bs l = None -> i ∈ l -> bs !! i = Some b -> p b = false.
Proof.
  unfold find_buffer. intros H I L. apply list_elem_of_In in I. pose proof (List.find_none _ _ H _ I) as F.
  cbn beta in F. rewrite L in F. exact F.
Qed.

Lemma in_order s held i b :
  cinv s held -> buffer_array (bcache s) !! i = Some b -> i ∈ order (bcache s).
Proof.
  intros I L. rewrite (ci_order _ _ I). apply list_elem_of_In, in_seq. apply lookup_lt_Some in L.
  rewrite (ci_len _ _ I) in L. lia.
Qed.

(** While fewer than all buffers are in use, one is free. *)
Lemma free_buffer s held :
  cinv s held -> (size held < NBUF)%nat ->
  exists i b, buffer_array (bcache s) !! i = Some b /\ reference_count b = 0.
Proof.
  intros I Sz. destruct (decide (Exists (fun b => reference_count b = 0) (buffer_array (bcache s)))) as [E|N].
  - apply Exists_exists in E as (b & Hb & E). apply list_elem_of_lookup in Hb as [i Hb]. eauto.
  - exfalso. rewrite <- Forall_Exists_neg in N.
    assert (Used : forall i, (i < NBUF)%nat -> exists n h, held !! n = Some h /\ hb_idx h = i).
    { intros i Bi. rewrite <- (ci_len _ _ I) in Bi. apply lookup_lt_is_Some_2 in Bi as [b L].
      destruct (ci_rest _ _ I _ _ L) as [[Z _]|[n H]].
      - rewrite Forall_lookup in N. destruct (N _ _ L Z).
      - eauto. }
    assert (Sub : seq 0 NBUF ⊆ (fun p => hb_idx p.2) <$> map_to_list held).
    { intros i Hi. apply list_elem_of_In, in_seq in Hi. destruct (Used i ltac:(lia)) as (n & h & H & <-).
      apply list_elem_of_fmap. exists (n, h). split; [reflexivity|]. apply elem_of_map_to_list. exact H. }
    pose proof (submseteq_length _ _ (NoDup_submseteq _ _ (NoDup_seq 0 NBUF) Sub)) as Len.
    rewrite length_seq, length_fmap, length_map_to_list in Len. lia.
Qed.
(** ** The operations *)

Lemma wp_get s held n i r d Q C :
  cinv s held -> held !! n = Some (HB i r d) -> Q (Buffer true (DB n dv) r d) s -> wp (get i) Q C s.
Proof. intros I H HQ. apply (ci_held _ _ I) in H as [_ L]. cbn in L. unfold wp, get. rewrite L. exact HQ. Qed.

Lemma wp_update s held n i r d f r' d' Q C :
  cinv s held -> held !! n = Some (HB i r d) -> 0 < r' < 2 ^ 32 ->
  f (Buffer true (DB n dv) r d) = Buffer true (DB n dv) r' d' ->
  (forall s', disk s' = disk s -> cinv s' (<[n := HB i r' d']> held) -> Q tt s') ->
  wp (update i f) Q C s.
Proof.
  intros I H B E HQ. apply wp_bind. eapply wp_get; [exact I|exact H|]. rewrite E.
  apply HQ; [reflexivity|]. exact (cinv_change s held n i r d r' d' I H B).
Qed.

Lemma wp_write_data s held n i r d f Q C :
  cinv s held -> held !! n = Some (HB i r d) ->
  (forall s', disk s' = disk s -> cinv s' (<[n := HB i r (f d)]> held) -> Q tt s') ->
  wp (update i (write_data f)) Q C s.
Proof. intros I H. eapply wp_update; eauto. apply (ci_held _ _ I _ _ H). Qed.

Lemma wp_pin s held n i r d Q C :
  cinv s held -> held !! n = Some (HB i r d) -> r + 1 < 2 ^ 32 ->
  (forall s', disk s' = disk s -> cinv s' (<[n := HB i (r + 1) d]> held) -> Q tt s') -> wp (pin i) Q C s.
Proof.
  intros I H B. pose proof (ci_held _ _ I _ _ H) as [R _]. cbn in R. eapply wp_update; eauto; [lia|].
  unfold add_ref. cbn. rewrite u32_small by lia. reflexivity.
Qed.

Lemma wp_unpin s held n i r d Q C :
  cinv s held -> held !! n = Some (HB i r d) -> 1 < r ->
  (forall s', disk s' = disk s -> cinv s' (<[n := HB i (r - 1) d]> held) -> Q tt s') -> wp (unpin i) Q C s.
Proof.
  intros I H B. pose proof (ci_held _ _ I _ _ H) as [R _]. cbn in R. eapply wp_update; eauto; [lia|].
  unfold add_ref. cbn. rewrite u32_small by lia. reflexivity.
Qed.

Lemma wp_write s held n i r d Q (C : gmap Z block -> Prop) :
  cinv s held -> held !! n = Some (HB i r d) -> C (disk s) ->
  (forall s', disk s' = <[n := d]> (disk s) -> cinv s' held -> Q tt s') -> wp (write i) Q C s.
Proof.
  intros I H HC HQ. apply wp_bind. eapply wp_get; [exact I|exact H|]. cbn [number bblock data].
  assert (K : forall p, cinv (St (<[n := d]> (disk s)) p (bcache s)) held).
  { intros p. pose proof (ci_held _ _ I _ _ H) as [R L]. cbn in R, L. destruct I as [I1 I2 I3 I4 I5]. split; auto.
    intros j b Hj. destruct (I5 j b Hj) as [[Z F]|E]; [left|right; exact E]. split; [exact Z|].
    intros D V. cbn. unfold dget. rewrite lookup_insert_ne; [apply F; auto|]. intros En.
    assert (j = i) as ->.
    { eapply I3; [exact Hj|exact L| |exact D]. cbn. destruct (bblock b). cbn in *. congruence. }
    cbn in Hj. rewrite L in Hj. injection Hj as <-. cbn in Z. lia. }
  unfold wp, disk_write. destruct (power s) as [[|p]|]; [exact HC| |]; apply HQ; auto.
Qed.

Lemma perm_front i l : NoDup l -> i ∈ l -> i :: List.remove Nat.eq_dec i l ≡ₚ l.
Proof.
  induction l as [|x l IH]; intros N H; [apply elem_of_nil in H; destruct H|].
  apply NoDup_cons in N as [Nx N]. cbn. destruct (Nat.eq_dec i x) as [->|Ne].
  - rewrite List.notin_remove; [reflexivity|]. rewrite <- list_elem_of_In. exact Nx.
  - apply elem_of_cons in H as [->|H]; [destruct (Ne eq_refl)|]. rewrite <- (IH N H) at 2. apply Permutation_swap.
Qed.

Definition dropped (n : Z) (h : hbuf) (held : gmap Z hbuf) : gmap Z hbuf :=
  if hb_ref h =? 1 then delete n held else <[n := HB (hb_idx h) (hb_ref h - 1) (hb_data h)]> held.

Lemma wp_release s held n i r d Q C :
  cinv s held -> held !! n = Some (HB i r d) -> (r = 1 -> d = dget (disk s) n) ->
  (forall s', disk s' = disk s -> cinv s' (dropped n (HB i r d) held) -> Q tt s') -> wp (release i) Q C s.
Proof.
  intros I H Cl HQ. pose proof (ci_held _ _ I _ _ H) as [R L]. cbn in R, L. unfold dropped in HQ. cbn in HQ.
  unfold release. apply wp_bind. destruct (Z.eqb_spec r 1) as [->|Nr].
  2:{ eapply wp_update; [exact I|exact H| | |].
    2:{ unfold add_ref. cbn. rewrite u32_small by lia. reflexivity. }
    1: lia. intros s' Ds I'. apply wp_bind. eapply wp_get; [exact I'|apply lookup_insert_eq|]. cbn [reference_count].
    rewrite (proj2 (Z.eqb_neq _ _)) by lia. apply wp_ret. auto. }
  apply wp_bind. eapply wp_get; [exact I|exact H|]. unfold add_ref. cbn [is_valid bblock reference_count data].
  rewrite u32_small by lia. change (1 + -1) with 0. unfold wp, set. cbn.
  assert (Bi : (i < length (buffer_array (bcache s)))%nat) by (eapply lookup_lt_Some; eauto).
  unfold mbind, io_bind, get. cbn. rewrite list_lookup_insert_eq by exact Bi. cbn.
  apply HQ; [reflexivity|]. pose proof I as [I1 I2 I3 I4 I5]. split; cbn.
  - rewrite length_insert. exact I1.
  - rewrite perm_front; [exact I2| |eapply in_order; eauto]. rewrite I2. apply NoDup_seq.
  - intros j k b b' Hj Hk E D. apply list_lookup_insert_Some in Hj as [(<- & <- & _)|(Nj & Hj)],
      Hk as [(<- & <- & _)|(Nk & Hk)]; auto; [| |eauto].
    + eapply I3; [exact L|exact Hk|exact E|exact D].
    + eapply I3; [exact Hj|exact L|exact E|exact D].
  - intros m h Hm. apply lookup_delete_Some in Hm as [Ne Hm]. destruct (I4 m h Hm) as [Rh Lh].
    split; [exact Rh|]. rewrite list_lookup_insert_ne; [exact Lh|]. intros E. apply Ne. symmetry.
    eapply held_idx; eauto.
  - intros j b Hj. apply list_lookup_insert_Some in Hj as [(<- & <- & _)|(Nj & Hj)].
    + left. auto.
    + destruct (I5 j b Hj) as [F|[m Hm]]; [left; exact F|right]. exists m. rewrite lookup_delete_ne; [exact Hm|].
      intros <-. rewrite H in Hm. injection Hm as -> _ _. auto.
Qed.

(** The buffer that [read] gives for block [n]. *)
Definition taken (n : Z) (i : nat) (held : gmap Z hbuf) (d : gmap Z block) : hbuf :=
  match held !! n with
  | Some h => HB i (hb_ref h + 1) (hb_data h)
  | None => HB i 1 (dget d n)
  end.

Lemma cinv_taken s held n i b :
  cinv s held -> buffer_array (bcache s) !! i = Some b ->
  match held !! n with Some h => hb_ref h + 1 < 2 ^ 32 | None => True end ->
  bblock b = DB n dv \/
    reference_count b = 0 /\ (forall j b', buffer_array (bcache s) !! j = Some b' -> bblock b' <> DB n dv) ->
  let h := taken n i held (disk s) in
  cinv (with_bufs s (<[i := Buffer true (DB n dv) (hb_ref h) (hb_data h)]> (buffer_array (bcache s))))
    (<[n := h]> held).
Proof.
  intros I L Av Or h. replace h with (HB i (hb_ref h) (hb_data h)) at 3 by (unfold h, taken; destruct (held !! n); reflexivity).
  eapply cinv_set; [exact I|exact L| | | |].
  - unfold h, taken. destruct (held !! n) as [h0|] eqn:H; cbn; [|lia].
    pose proof (ci_held _ _ I _ _ H) as [R _]. lia.
  - intros h0 H. pose proof (ci_held _ _ I _ _ H) as [_ L0]. destruct Or as [E|[_ Un]]; [|destruct (Un _ _ L0); reflexivity].
    eapply (ci_uniq _ _ I); [exact L0|exact L|exact (eq_sym E)|reflexivity].
  - intros m h0 H Ei. pose proof (ci_held _ _ I _ _ H) as [R L0]. rewrite Ei, L in L0. injection L0 as ->.
    destruct Or as [E|[Z _]]; [cbn in E; congruence|cbn in Z; lia].
  - intros j b' Lj E. destruct Or as [E'|[_ Un]]; [|destruct (Un _ _ Lj E)].
    eapply (ci_uniq _ _ I); [exact Lj|exact L|congruence|rewrite E; reflexivity].
Qed.

Lemma update_at s i b f :
  buffer_array (bcache s) !! i = Some b ->
  update i f s = Done tt (with_bufs s (<[i := f b]> (buffer_array (bcache s)))).
Proof. intros L. unfold update, mbind, io_bind, get. rewrite L. reflexivity. Qed.

Lemma update_ret s i b f :
  buffer_array (bcache s) !! i = Some b ->
  (update i f ≫= fun _ => mret i) s = Done i (with_bufs s (<[i := f b]> (buffer_array (bcache s)))).
Proof. intros L. unfold mbind, io_bind. rewrite (update_at _ _ _ _ L). reflexivity. Qed.

(** What [read] does with the buffer it was given. *)
Lemma load_at s i b :
  buffer_array (bcache s) !! i = Some b ->
  (get i ≫= fun b =>
   if is_valid b then mret i
   else disk_read (number (bblock b)) ≫= fun d => update i (fill d) ≫= fun _ => mret i) s =
  Done i (if is_valid b then s
          else with_bufs s (<[i := fill (dget (disk s) (number (bblock b))) b]> (buffer_array (bcache s)))).
Proof.
  intros L. unfold mbind at 1, io_bind at 1, get. rewrite L. destruct (is_valid b); [reflexivity|].
  unfold mbind, io_bind, disk_read. rewrite (update_at _ _ _ _ L). reflexivity.
Qed.

Lemma with_bufs_twice s i b b' :
  with_bufs (with_bufs s (<[i := b]> (buffer_array (bcache s)))) (<[i := b']> (<[i := b]> (buffer_array (bcache s)))) =
  with_bufs s (<[i := b']> (buffer_array (bcache s))).
Proof. unfold with_bufs. cbn. rewrite list_insert_insert_eq. reflexivity. Qed.

Lemma wp_read s held n Q C :
  cinv s held ->
  match held !! n with Some h => hb_ref h + 1 < 2 ^ 32 | None => (size held < NBUF)%nat end ->
  (forall i s', (forall h, held !! n = Some h -> i = hb_idx h) ->
     disk s' = disk s -> cinv s' (<[n := taken n i held (disk s)]> held) -> Q i s') ->
  wp (read (DB n dv)) Q C s.
Proof.
  intros I Av HQ.
  assert (Fin : forall i b, buffer_array (bcache s) !! i = Some b ->
    bblock b = DB n dv \/
      reference_count b = 0 /\ (forall j b', buffer_array (bcache s) !! j = Some b' -> bblock b' <> DB n dv) ->
    Q i (with_bufs s (<[i := Buffer true (DB n dv) (hb_ref (taken n i held (disk s))) (hb_data (taken n i held (disk s)))]>
      (buffer_array (bcache s))))).
  { intros i b L Or. apply HQ; [|reflexivity|].
    { intros h H. pose proof (ci_held _ _ I _ _ H) as [_ L0]. destruct Or as [E|[_ Un]]; [|destruct (Un _ _ L0); reflexivity].
      symmetry. eapply (ci_uniq _ _ I); [exact L0|exact L|exact (eq_sym E)|reflexivity]. }
    eapply cinv_taken; eauto. destruct (held !! n); auto. }
  unfold read. apply wp_bind. unfold wp at 1, get_buffer. set (p := fun b => bool_decide (bblock b = DB n dv)).
  destruct (find_buffer p _ _) as [i|] eqn:F.
  - apply find_buffer_some in F as (_ & b & L & E). apply bool_decide_eq_true in E.
    assert (Bi : (i < length (buffer_array (bcache s)))%nat) by (eapply lookup_lt_Some; eauto).
    specialize (Fin i b L (or_introl E)). destruct b as [v bl r d]. cbn in E. subst bl.
    rewrite (update_ret _ _ _ _ L).
    set (s1 := with_bufs _ _). assert (L1 : buffer_array (bcache s1) !! i = Some (add_ref 1 (Buffer v (DB n dv) r d)))
      by (apply list_lookup_insert_eq; exact Bi).
    unfold wp. rewrite (load_at _ _ _ L1). cbn [is_valid add_ref bblock number].
    unfold taken in Fin.
    assert (K : match held !! n with
      | Some h => v = true /\ h = HB i r d
      | None => r = 0 /\ (v = true -> d = dget (disk s) n) end).
    { destruct (ci_rest _ _ I _ _ L) as [[Z Cl]|[m Hm]]; cbn in *.
      - destruct (held !! n) as [h|] eqn:H; [|auto]. pose proof (ci_held _ _ I _ _ H) as [R L0].
        rewrite (ci_uniq _ _ I _ _ _ _ L0 L eq_refl eq_refl), L in L0. injection L0 as -> -> ->. lia.
      - pose proof (ci_held _ _ I _ _ Hm) as [R L0]. cbn in L0. rewrite L in L0. injection L0 as -> ->. rewrite Hm. auto. }
    destruct v.
    + unfold s1. destruct (held !! n) as [h|] eqn:H; [destruct K as [_ ->]|destruct K as [-> K]; rewrite (K eq_refl)]; cbn in *.
      * pose proof (ci_held _ _ I _ _ H) as [R _]. cbn in R.
        unfold add_ref. cbn. rewrite u32_small by lia. exact Fin.
      * exact Fin.
    + destruct (held !! n) as [h|] eqn:H; [destruct K; discriminate|destruct K as [-> _]].
      unfold s1. cbn [bcache buffer_array with_bufs disk]. rewrite with_bufs_twice. exact Fin.
  - assert (Un : forall j b', buffer_array (bcache s) !! j = Some b' -> bblock b' <> DB n dv).
    { intros j b' Lj E. pose proof (find_buffer_none _ _ _ _ _ F (in_order _ _ _ _ I Lj) Lj) as N.
      apply bool_decide_eq_false in N. auto. }
    destruct (held !! n) as [h|] eqn:H; [destruct (Un _ _ (proj2 (ci_held _ _ I _ _ H))); reflexivity|].
    destruct (free_buffer _ _ I Av) as (j & b & Lj & Z).
    destruct (find_buffer _ _ (rev _)) as [i|] eqn:F2.
    2:{ eapply find_buffer_none in F2; [|rewrite list_elem_of_In, <- in_rev, <- list_elem_of_In; eapply in_order; eauto|exact Lj].
      cbn in F2. rewrite Z in F2. discriminate. }
    apply find_buffer_some in F2 as (_ & b' & L & Z'). apply Z.eqb_eq in Z'.
    assert (Bi : (i < length (buffer_array (bcache s)))%nat) by (eapply lookup_lt_Some; eauto).
    specialize (Fin i b' L (or_intror (conj Z' Un))). unfold taken in Fin. rewrite H in Fin.
    rewrite (update_ret _ _ _ _ L).
    set (s1 := with_bufs _ _). assert (L1 : buffer_array (bcache s1) !! i = Some (recycle (DB n dv) b'))
      by (apply list_lookup_insert_eq; exact Bi).
    unfold wp. rewrite (load_at _ _ _ L1). cbn [is_valid recycle bblock number].
    unfold s1. cbn [bcache buffer_array with_bufs disk]. rewrite with_bufs_twice. exact Fin.
Qed.

(** A cache just set up holds nothing. *)
Lemma cinv_init d p : dv <> 0 -> cinv (St d p init_array) ∅.
Proof.
  intros Nz. assert (A : forall i b, replicate NBUF (Buffer false (DB 0 0) 0 zero_block) !! i = Some b ->
    b = Buffer false (DB 0 0) 0 zero_block) by (intros i b H; apply lookup_replicate in H; tauto).
  split; cbn [bcache buffer_array init_array order disk].
  - apply length_replicate.
  - symmetry. apply Permutation_rev.
  - intros i j b b' Hi _ _ D. apply A in Hi. subst b. cbn in D. congruence.
  - intros n h H. rewrite lookup_empty in H. discriminate.
  - intros i b Hi. apply A in Hi. subst b. left. cbn. split; [reflexivity|discriminate].
Qed.
End Device.
