(* ===== verification/Fslog.v ===== *)
(** The write-ahead log of the file system: src/kernel/filesystem/log.zig, over
    the buffers of Bio.v.

    The log of the kernel is passed from call to call.  [beginOperation] is one
    turn of its loop: it enters the operation, or says that it would sleep.  A
    [defer] is run where its block ends. *)

From S2P Require Import Prelude.
From stdpp Require Import base gmap list.
From S2P Require Import Bio.

Local Open Scope Z_scope.

Definition max_num_operation_blocks : Z := 10.
Definition log_size : Z := max_num_operation_blocks * 3.

(** * Headers *)

Record header : Type := Header { length_ : Z; blocks : list Z }.

Record log : Type := Log {
  l_start : Z; l_size : Z; outstanding : Z; is_commiting : bool; dev : Z; hdr : header
}.

Definition with_hdr (l : log) (h : header) : log :=
  Log (l_start l) (l_size l) (outstanding l) (is_commiting l) (dev l) h.
Definition with_length (l : log) (n : Z) : log := with_hdr l (Header n (blocks (hdr l))).

(** The first words of a block as a header. *)
Definition disk_header (b : block) : header := Header (nth 0 b 0) (firstn (Z.to_nat log_size) (tl b)).

(** [Header.copyFrom]; an index above the array is out of bounds. *)
Definition copy_blocks (n : Z) (dst src : list Z) : list Z :=
  firstn (Z.to_nat n) src ++ skipn (Z.to_nat n) dst.

Definition copyFrom (dst src : header) : option header :=
  if length_ src <=? log_size then
    Some (Header (length_ src) (copy_blocks (length_ src) (blocks dst) (blocks src)))
  else None.

(** A header written back over the first words of the block it was read from. *)
Definition set_header (h : header) (b : block) : block :=
  length_ h :: blocks h ++ skipn (S (Z.to_nat log_size)) b.

(** * Installing and recovering *)

Definition getBuffer (l : log) (n : Z) : io nat := Bio.read (DB n (dev l)).

Definition install_one (l : log) (is_recovering : bool) (tail : nat) : io unit :=
  getBuffer l (u32 (l_start l + Z.of_nat tail + 1)) ≫= fun log_buffer =>
  getBuffer l (nth tail (blocks (hdr l)) 0) ≫= fun destination =>
  get log_buffer ≫= fun b =>
  update destination (write_data (fun _ => data b)) ≫= fun _ =>
  Bio.write destination ≫= fun _ =>
  (if is_recovering then mret tt else unpin destination) ≫= fun _ =>
  release destination ≫= fun _ =>
  release log_buffer.

Definition installTransaction (l : log) (is_recovering : bool) : io unit :=
  for_each (seq 0 (Z.to_nat (length_ (hdr l)))) (install_one l is_recovering).

Definition readHead (l : log) : io log :=
  getBuffer l (l_start l) ≫= fun i =>
  get i ≫= fun b =>
  match copyFrom (hdr l) (disk_header (data b)) with
  | None => panic
  | Some h => release i ≫= fun _ => mret (with_hdr l h)
  end.

Definition writeHead (l : log) : io unit :=
  getBuffer l (l_start l) ≫= fun i =>
  get i ≫= fun b =>
  match copyFrom (disk_header (data b)) (hdr l) with
  | None => panic
  | Some h =>
      update i (write_data (set_header h)) ≫= fun _ =>
      Bio.write i ≫= fun _ =>
      release i
  end.

Definition recoverFromLog (l : log) : io log :=
  readHead l ≫= fun l =>
  installTransaction l true ≫= fun _ =>
  let l := with_length l 0 in
  writeHead l ≫= fun _ => mret l.

(** [undef] is what the memory of the header holds before. *)
Definition init (undef : list Z) (device logstart nlog : Z) : io log :=
  recoverFromLog (Log logstart nlog 0 false device (Header 0 undef)).

(** * Operations *)

Definition beginOperation (l : log) : option log :=
  let possible_log_size := length_ (hdr l) + (outstanding l + 1) * max_num_operation_blocks in
  if is_commiting l || (log_size <? possible_log_size) then None
  else Some (Log (l_start l) (l_size l) (outstanding l + 1) (is_commiting l) (dev l) (hdr l)).

Definition log_one (l : log) (tail : nat) : io unit :=
  getBuffer l (u32 (l_start l + Z.of_nat tail + 1)) ≫= fun destination =>
  getBuffer l (nth tail (blocks (hdr l)) 0) ≫= fun source =>
  get source ≫= fun b =>
  update destination (write_data (fun _ => data b)) ≫= fun _ =>
  Bio.write destination ≫= fun _ =>
  release source ≫= fun _ =>
  release destination.

Definition writeLog (l : log) : io unit :=
  for_each (seq 0 (Z.to_nat (length_ (hdr l)))) (log_one l).

Definition commit (l : log) : io log :=
  if 0 <? length_ (hdr l) then
    writeLog l ≫= fun _ =>
    writeHead l ≫= fun _ =>
    installTransaction l false ≫= fun _ =>
    let l := with_length l 0 in
    writeHead l ≫= fun _ => mret l
  else mret l.

Definition endOperation (l : log) : io log :=
  let l := Log (l_start l) (l_size l) (u32 (outstanding l - 1)) (is_commiting l) (dev l) (hdr l) in
  if is_commiting l then panic
  else if outstanding l =? 0 then
    commit (Log (l_start l) (l_size l) 0 true (dev l) (hdr l)) ≫= fun l =>
    mret (Log (l_start l) (l_size l) (outstanding l) false (dev l) (hdr l))
  else mret l.

(** The index of a logged block, or the end of the list. *)
Fixpoint absorb (n : Z) (bs : list Z) : nat :=
  match bs with
  | [] => O
  | b :: bs => if b =? n then O else S (absorb n bs)
  end.

Definition write (l : log) (i : nat) : io log :=
  let len := length_ (hdr l) in
  if (log_size <=? len) || (u32 (l_size l - 1) <=? len) then panic
  else if outstanding l <? 1 then panic
  else
    get i ≫= fun b =>
    let n := number (bblock b) in
    let index := absorb n (firstn (Z.to_nat len) (blocks (hdr l))) in
    let bs := list_set (blocks (hdr l)) index n in
    if Z.of_nat index =? len then pin i ≫= fun _ => mret (with_hdr l (Header (len + 1) bs))
    else mret (with_hdr l (Header len bs)).
