(* ===== verification/FslogSpec.v ===== *)
(** Crash safety of the log: whenever power fails while an operation is being
    committed, or while the machine recovers, a recovery that ends leaves all of
    the operation's blocks or none of them. *)

From S2P Require Import Prelude.
From stdpp Require Import base gmap list.
From S2P Require Import Bio BioSpec Fslog.

Local Open Scope Z_scope.

(** * What a disk stands for *)

(** Blocks written in order. *)
Definition install (es : list (Z * block)) (d : gmap Z block) : gmap Z block :=
  fold_left (fun m e => <[fst e := snd e]> m) es d.

Lemma install_agree es : forall m1 m2,
  (forall n, n ∉ es.*1 -> m1 !! n = m2 !! n) -> install es m1 = install es m2.
Proof.
  induction es as [|[k b] es IH]; intros m1 m2 A; cbn.
  - apply map_eq. intros n. apply A, not_elem_of_nil.
  - apply IH. intros n H. destruct (decide (k = n)) as [->|Ne]; [rewrite !lookup_insert_eq; reflexivity|].
    rewrite !lookup_insert_ne by auto. apply A. cbn. rewrite not_elem_of_cons. auto.
Qed.

Lemma install_out es : forall d n, n ∉ es.*1 -> install es d !! n = d !! n.
Proof.
  induction es as [|[k b] es IH]; intros d n H; cbn in *; [reflexivity|].
  apply not_elem_of_cons in H as [Ne H]. rewrite IH, lookup_insert_ne by auto. reflexivity.
Qed.

Lemma install_twice es es' d : es'.*1 ⊆ es.*1 -> install es (install es' d) = install es d.
Proof. intros S. apply install_agree. intros n H. apply install_out. auto. Qed.

Lemma install_app es es' d : install (es ++ es') d = install es' (install es d).
Proof. apply fold_left_app. Qed.

Lemma install_in es : forall d n b, NoDup es.*1 -> (n, b) ∈ es -> install es d !! n = Some b.
Proof.
  induction es as [|[k c] es IH]; intros d n b N H; [apply elem_of_nil in H; destruct H|]. cbn in *.
  apply NoDup_cons in N as [Nk N]. apply elem_of_cons in H as [H|H]; [|eauto].
  injection H as <- <-. rewrite install_out by exact Nk. apply lookup_insert_eq.
Qed.

Abbreviation log_room := (log_size - 1).

Section Log.
Context (logstart : Z).

(** The header block and the blocks after it.  With a log of [log_size] blocks,
    one of them the header, [Fslog.write] has room for one block less. *)
Definition in_log (n : Z) : Prop := logstart <= n <= logstart + log_room.
Definition log_block (t : nat) : Z := logstart + Z.of_nat t + 1.

Definition disk_hdr (d : gmap Z block) : header := disk_header (dget d logstart).
Definition disk_blocks (d : gmap Z block) : list Z :=
  firstn (Z.to_nat (length_ (disk_hdr d))) (blocks (disk_hdr d)).

(** The committed blocks that may not be at home yet. *)
Definition logged (d : gmap Z block) : list (Z * block) :=
  imap (fun t n => (n, dget d (log_block t))) (disk_blocks d).

(** The contents that recovery will give to a disk. *)
Definition replay (d : gmap Z block) : gmap Z block := install (logged d) d.

Record wf_disk (d : gmap Z block) : Prop := {
  wd_header : length (dget d logstart) = words_per_block;
  wd_length : 0 <= length_ (disk_hdr d) <= log_room;
  wd_home n : n ∈ disk_blocks d -> ~ in_log n;
}.

Definition files (d : gmap Z block) (n : Z) : block := dget (replay d) n.

(** Disks with the same contents outside the log. *)
Definition same_files (d d' : gmap Z block) : Prop := forall n, ~ in_log n -> files d n = files d' n.

#[local] Instance same_files_equiv : Equivalence same_files.
Proof.
  split; [intros d n H; reflexivity|intros d d' E n H; symmetry; auto|].
  intros d d' d'' E E' n H. rewrite E by auto. auto.
Qed.

Lemma log_block_in t : (t < Z.to_nat log_room)%nat -> in_log (log_block t).
Proof. unfold in_log, log_block. unfold log_size, max_num_operation_blocks. lia. Qed.

Lemma start_in : in_log logstart.
Proof. unfold in_log, log_size, max_num_operation_blocks. lia. Qed.

Lemma logged_keys d : (logged d).*1 = disk_blocks d.
Proof.
  unfold logged. rewrite fmap_imap. apply list_eq. intros i. rewrite list_lookup_imap. cbn.
  destruct (disk_blocks d !! i); reflexivity.
Qed.

Lemma disk_blocks_short d : wf_disk d -> (length (disk_blocks d) <= Z.to_nat log_room)%nat.
Proof. intros W. destruct (wd_length _ W). unfold disk_blocks. rewrite length_firstn. lia. Qed.

Lemma dget_insert d n b m : dget (<[n := b]> d) m = if decide (n = m) then b else dget d m.
Proof. unfold dget. rewrite lookup_insert. destruct (decide (n = m)); reflexivity. Qed.

(** A write at home of a committed block changes nothing. *)
Lemma install_prefix d k :
  wf_disk d -> let d' := install (take k (logged d)) d in
  wf_disk d' /\ (forall n, in_log n -> dget d' n = dget d n) /\ replay d' = replay d.
Proof.
  intros W d'.
  assert (Keep : forall n, in_log n -> dget d' n = dget d n).
  { intros n Hn. unfold dget, d'. rewrite install_out; [reflexivity|]. intros H. rewrite fmap_take, logged_keys in H.
    apply elem_of_take in H as (i & H & _). apply list_elem_of_lookup_2 in H. exact (wd_home _ W n H Hn). }
  assert (Hd : disk_hdr d' = disk_hdr d) by (unfold disk_hdr; rewrite (Keep _ start_in); reflexivity).
  assert (Bl : disk_blocks d' = disk_blocks d) by (unfold disk_blocks; rewrite Hd; reflexivity).
  assert (Lg : logged d' = logged d).
  { unfold logged. rewrite Bl. apply imap_ext. intros i n Hi. rewrite Keep; [reflexivity|]. apply log_block_in.
    apply lookup_lt_Some in Hi. pose proof (disk_blocks_short d W). lia. }
  split; [|split; [exact Keep|]].
  - destruct W as [W1 W2 W3]. split; [rewrite (Keep _ start_in); exact W1|rewrite Hd; exact W2|rewrite Bl; exact W3].
  - unfold replay. rewrite Lg. unfold d'. apply install_twice. rewrite fmap_take. intros n H.
    apply elem_of_take in H as (i & H & _). eapply list_elem_of_lookup_2; eauto.
Qed.
End Log.

(** * Recovery *)

Lemma taken_new n i held d : held !! n = None -> taken n i held d = HB i 1 (dget d n).
Proof. unfold taken. intros ->. reflexivity. Qed.
Lemma taken_held n i held d h : held !! n = Some h -> taken n i held d = HB i (hb_ref h + 1) (hb_data h).
Proof. unfold taken. intros ->. reflexivity. Qed.

(** Releasing a block that was not in use before. *)
Lemma dropped_new n i b held : held !! n = None -> dropped n (HB i 1 b) (<[n := HB i 1 b]> held) = held.
Proof. intros H. unfold dropped. cbn. apply delete_insert_id. exact H. Qed.

Section Ops.
Context (l : log) (Lo : 0 <= l_start l) (Hi : l_start l + log_size < 2 ^ 32).
Local Abbreviation inv := (cinv (dev l)).
Local Abbreviation lb := (log_block (l_start l)).

Lemma log_block_u32 t : (t < Z.to_nat log_room)%nat -> u32 (l_start l + Z.of_nat t + 1) = lb t.
Proof. intros B. unfold log_block. apply u32_small. unfold log_size, max_num_operation_blocks in *. lia. Qed.

Lemma log_block_home t n : (t < Z.to_nat log_room)%nat -> ~ in_log (l_start l) n -> lb t <> n.
Proof. intros B H <-. apply H, log_block_in. exact B. Qed.

(** [C] holds of the disk before the only write. *)
Lemma wp_install_one_rec s t n Q (C : gmap Z block -> Prop) :
  inv s ∅ -> nth t (blocks (hdr l)) 0 = n -> ~ in_log (l_start l) n -> (t < Z.to_nat log_room)%nat -> C (disk s) ->
  (forall s', disk s' = <[n := dget (disk s) (lb t)]> (disk s) -> inv s' ∅ -> Q tt s') ->
  wp (install_one l true t) Q C s.
Proof.
  intros I En Hn Bt HC HQ. pose proof (log_block_home t n Bt Hn) as Ne. pose proof (not_eq_sym Ne) as Ne'. unfold install_one, getBuffer.
  rewrite log_block_u32, En by exact Bt. apply wp_bind. eapply wp_read; [exact I|rewrite lookup_empty, map_size_empty; unfold NBUF; lia|].
  intros i s1 _ D1 I1. rewrite taken_new in I1 by apply lookup_empty. apply wp_bind.
  eapply wp_read; [exact I1| |].
  { rewrite lookup_insert_ne, lookup_empty by exact Ne. rewrite map_size_insert_None by apply lookup_empty.
    rewrite map_size_empty. unfold NBUF. lia. }
  intros j s2 _ D2 I2. rewrite taken_new in I2 by (rewrite lookup_insert_ne, lookup_empty by exact Ne; reflexivity).
  apply wp_bind. eapply wp_get; [exact I2|rewrite lookup_insert_ne by exact Ne'; apply lookup_insert_eq|].
  cbn [data]. apply wp_bind. eapply wp_write_data; [exact I2|apply lookup_insert_eq|]. intros s3 D3 I3.
  rewrite insert_insert_eq in I3. apply wp_bind. eapply wp_write; [exact I3|apply lookup_insert_eq|congruence|].
  intros s4 D4 I4. apply wp_bind. apply wp_ret. apply wp_bind.
  eapply wp_release; [exact I4|apply lookup_insert_eq| |].
  { intros _. rewrite D4, dget_insert, decide_True by reflexivity. reflexivity. }
  intros s5 D5 I5. rewrite dropped_new in I5 by (rewrite lookup_insert_ne, lookup_empty by exact Ne; reflexivity).
  eapply wp_release; [exact I5|apply lookup_insert_eq| |].
  { intros _. rewrite D5, D4, dget_insert, decide_False by auto. congruence. }
  intros s6 D6 I6. rewrite dropped_new in I6 by apply lookup_empty. apply HQ; [congruence|exact I6].
Qed.

Lemma wp_install_rec s0 Q (C : gmap Z block -> Prop) :
  let d := disk s0 in
  inv s0 ∅ -> wf_disk (l_start l) d -> length_ (hdr l) = length_ (disk_hdr (l_start l) d) ->
  firstn (Z.to_nat (length_ (hdr l))) (blocks (hdr l)) = disk_blocks (l_start l) d ->
  (Z.to_nat (length_ (hdr l)) <= length (blocks (hdr l)))%nat ->
  (forall d', wf_disk (l_start l) d' -> same_files (l_start l) d' d -> C d') ->
  (forall s', disk s' = replay (l_start l) d -> inv s' ∅ -> Q tt s') ->
  wp (installTransaction l true) Q C s0.
Proof.
  intros d I W El Eb Len HC HQ. unfold installTransaction. set (N := Z.to_nat (length_ (hdr l))) in *.
  assert (Ld : length (logged (l_start l) d) = N).
  { rewrite <- (length_fmap fst), logged_keys, <- Eb, length_firstn. lia. }
  assert (BN : (N <= Z.to_nat log_room)%nat).
  { pose proof (disk_blocks_short _ _ W) as B. rewrite <- logged_keys, length_fmap, Ld in B. exact B. }
  eapply wp_mono; [apply (wp_for (fun k s => inv s ∅ /\ disk s = install (take k (logged (l_start l) d)) d)
    (install_one l true) C)| |auto].
  - split; [exact I|reflexivity].
  - intros k s Bk [Is Ds]. destruct (install_prefix (l_start l) d k W) as (Wk & Kk & Rk).
    destruct (lookup_lt_is_Some_2 (disk_blocks (l_start l) d) k) as [n Hn].
    { rewrite <- Eb, length_firstn. lia. }
    eapply (wp_install_one_rec s k n); [exact Is| | |lia| |].
    + apply nth_lookup_Some. rewrite <- Eb, lookup_take_lt in Hn by lia. exact Hn.
    + apply (wd_home _ _ W), (list_elem_of_lookup_2 _ _ _ Hn).
    + rewrite Ds. apply HC; [exact Wk|]. intros x _. unfold files. rewrite Rk. reflexivity.
    + intros s' Ds' Is'. split; [exact Is'|]. rewrite Ds', Ds.
      assert (Lg : logged (l_start l) d !! k = Some (n, dget d (lb k))).
      { unfold logged. rewrite list_lookup_imap, Hn. reflexivity. }
      rewrite (take_S_r _ _ _ Lg), install_app. cbn. f_equal.
      apply Kk, log_block_in. lia.
  - intros [] s' [Is Ds]. apply HQ; [|exact Is]. rewrite Ds, <- Ld, Nat.add_0_l, firstn_all. reflexivity.
Qed.

Lemma disk_header_blocks b : length b = words_per_block -> length (blocks (disk_header b)) = Z.to_nat log_size.
Proof.
  intros L. cbn [disk_header blocks]. change (Z.to_nat log_size) with 30%nat. change words_per_block with 256%nat in L.
  destruct b as [|w b]; [discriminate|]. cbn [length tl] in *. rewrite length_firstn. lia.
Qed.

Lemma copy_blocks_first n dst src :
  (Z.to_nat n <= length src)%nat -> firstn (Z.to_nat n) (copy_blocks n dst src) = firstn (Z.to_nat n) src.
Proof.
  intros B. unfold copy_blocks. rewrite take_app_le by (rewrite length_firstn; lia).
  rewrite firstn_firstn, Nat.min_id. reflexivity.
Qed.

Lemma copy_blocks_length n dst src :
  (Z.to_nat n <= length src)%nat -> (Z.to_nat n <= length dst)%nat -> length (copy_blocks n dst src) = length dst.
Proof. intros B B'. unfold copy_blocks. rewrite length_app, length_firstn, length_skipn. lia. Qed.

Lemma set_header_disk h b :
  length b = words_per_block -> length (blocks h) = Z.to_nat log_size ->
  length (set_header h b) = words_per_block /\ disk_header (set_header h b) = h.
Proof.
  intros Lb Lh. unfold set_header. split.
  - cbn [length]. rewrite length_app, length_skipn, Lb, Lh. reflexivity.
  - unfold disk_header. cbn [nth tl]. rewrite take_app_le by lia. rewrite <- Lh, firstn_all. destruct h. reflexivity.
Qed.

Lemma wp_writeHead s held Q (C : gmap Z block -> Prop) :
  inv s held -> held !! l_start l = None -> (size held < NBUF)%nat ->
  length (dget (disk s) (l_start l)) = words_per_block -> 0 <= length_ (hdr l) <= log_room ->
  (Z.to_nat (length_ (hdr l)) <= length (blocks (hdr l)))%nat -> C (disk s) ->
  (forall s' b, disk s' = <[l_start l := b]> (disk s) -> inv s' held -> length b = words_per_block ->
     length_ (disk_header b) = length_ (hdr l) ->
     firstn (Z.to_nat (length_ (hdr l))) (blocks (disk_header b)) =
       firstn (Z.to_nat (length_ (hdr l))) (blocks (hdr l)) -> Q tt s') ->
  wp (writeHead l) Q C s.
Proof.
  intros I Fr Sz Ln Bl Bb HC HQ. pose proof (disk_header_blocks _ Ln) as Ld.
  unfold writeHead, getBuffer. apply wp_bind. eapply wp_read; [exact I|rewrite Fr; exact Sz|].
  intros i s1 _ D1 I1. rewrite taken_new in I1 by exact Fr. apply wp_bind. eapply wp_get; [exact I1|apply lookup_insert_eq|].
  cbn [data]. unfold copyFrom. rewrite (proj2 (Z.leb_le _ _)) by lia. set (h := Header _ _).
  assert (Lh : length (blocks h) = Z.to_nat log_size) by (cbn [h blocks]; rewrite copy_blocks_length; lia).
  destruct (set_header_disk h _ Ln Lh) as [L' E'].
  apply wp_bind. eapply wp_write_data; [exact I1|apply lookup_insert_eq|]. intros s2 D2 I2. rewrite insert_insert_eq in I2.
  apply wp_bind. eapply wp_write; [exact I2|apply lookup_insert_eq|congruence|]. intros s3 D3 I3.
  eapply wp_release; [exact I3|apply lookup_insert_eq| |].
  { intros _. rewrite D3, dget_insert, decide_True by reflexivity. reflexivity. }
  intros s4 D4 I4. rewrite dropped_new in I4 by exact Fr. eapply HQ; [|exact I4|exact L'| |].
  - rewrite D4, D3, D2, D1. reflexivity.
  - rewrite E'. reflexivity.
  - rewrite E'. apply copy_blocks_first. exact Bb.
Qed.

Lemma wp_readHead s Q C :
  inv s ∅ -> wf_disk (l_start l) (disk s) ->
  (forall s' h, disk s' = disk s -> inv s' ∅ -> length_ h = length_ (disk_hdr (l_start l) (disk s)) ->
     firstn (Z.to_nat (length_ h)) (blocks h) = disk_blocks (l_start l) (disk s) ->
     (length (blocks h) = Nat.max (Z.to_nat (length_ h)) (length (blocks (hdr l))))%nat -> Q (with_hdr l h) s') ->
  wp (readHead l) Q C s.
Proof.
  intros I [Ln Bl _] HQ. pose proof (disk_header_blocks _ Ln) as Ld. unfold disk_hdr in *.
  unfold readHead, getBuffer. apply wp_bind. eapply wp_read; [exact I|rewrite lookup_empty, map_size_empty; unfold NBUF; lia|].
  intros i s1 _ D1 I1. rewrite taken_new in I1 by apply lookup_empty. apply wp_bind.
  eapply wp_get; [exact I1|apply lookup_insert_eq|]. cbn [data]. unfold copyFrom. rewrite (proj2 (Z.leb_le _ _)) by lia.
  apply wp_bind. eapply wp_release; [exact I1|apply lookup_insert_eq|intros _; rewrite D1; reflexivity|].
  intros s2 D2 I2. rewrite dropped_new in I2 by apply lookup_empty. apply wp_ret. apply HQ; [congruence|exact I2| | |].
  - reflexivity.
  - cbn [length_ blocks]. apply copy_blocks_first. lia.
  - cbn [length_ blocks]. unfold copy_blocks. rewrite length_app, length_firstn, length_skipn. lia.
Qed.
End Ops.

(** A log with nothing to install. *)
Lemma files_empty logstart d n : length_ (disk_hdr logstart d) = 0 -> files logstart d n = dget d n.
Proof. intros E. unfold files, replay, logged, disk_blocks. rewrite E. reflexivity. Qed.

Lemma header_written logstart d b n :
  length b = words_per_block -> length_ (disk_header b) = 0 -> let d' := <[logstart := b]> d in
  wf_disk logstart d' /\ length_ (disk_hdr logstart d') = 0 /\
  (~ in_log logstart n -> files logstart d' n = dget d n).
Proof.
  intros L E d'. assert (H : dget d' logstart = b) by (unfold d'; rewrite dget_insert, decide_True; reflexivity).
  assert (E' : length_ (disk_hdr logstart d') = 0) by (unfold disk_hdr; rewrite H; exact E).
  split; [split|split]; auto.
  - rewrite H. exact L.
  - rewrite E'. unfold log_size, max_num_operation_blocks. lia.
  - intros m. unfold disk_blocks. rewrite E'. intros K. apply elem_of_nil in K. destruct K.
  - intros Hn. rewrite files_empty by exact E'. unfold d'. rewrite dget_insert, decide_False; [reflexivity|].
    intros <-. apply Hn, start_in.
Qed.

Record idle (dv logstart : Z) (l : log) (s : st) : Prop := {
  id_start : l_start l = logstart;
  id_dev : dev l = dv;
  id_empty : length_ (hdr l) = 0;
  id_cache : cinv dv s ∅;
  id_disk : wf_disk logstart (disk s);
  id_clean : length_ (disk_hdr logstart (disk s)) = 0;
}.

Lemma init_spec undef dv logstart nlog d p :
  dv <> 0 -> 0 <= logstart -> logstart + log_size < 2 ^ 32 -> wf_disk logstart d ->
  wp (init undef dv logstart nlog)
    (fun l s => idle dv logstart l s /\ l_size l = nlog /\ outstanding l = 0 /\ is_commiting l = false /\
       (length undef = Z.to_nat log_size -> length (blocks (hdr l)) = Z.to_nat log_size) /\
       same_files logstart (disk s) d)
    (fun d' => wf_disk logstart d' /\ same_files logstart d' d)
    (St d p init_array).
Proof.
  intros Nz Lo Hi W. unfold init, recoverFromLog. apply wp_bind. set (l0 := Log _ _ _ _ _ _).
  apply (wp_readHead l0); [apply cinv_init; exact Nz|exact W|]. cbn [disk l_start l0].
  intros s h Ds I El Eb Lb. set (l := with_hdr l0 h). apply wp_bind.
  assert (Ws : wf_disk (l_start l) (disk s)) by (rewrite Ds; exact W).
  destruct (wd_length _ _ W) as [Bl1 Bl2].
  eapply (wp_install_rec l); [exact Lo|exact Hi|exact I|exact Ws| | | | |].
  - cbn. rewrite Ds. exact El.
  - cbn. rewrite Ds. exact Eb.
  - cbn. rewrite Lb. lia.
  - intros d' W' S'. split; [exact W'|]. rewrite Ds in S'. exact S'.
  - intros s1 D1 I1. cbn in D1. rewrite Ds in D1.
    destruct (install_prefix logstart d (length (logged logstart d)) W) as (Wr & Kr & Rr).
    rewrite firstn_all in Wr, Kr, Rr. fold (replay logstart d) in Wr, Kr, Rr.
    apply wp_bind. set (l1 := with_length l 0).
    apply (wp_writeHead l1 s1 ∅); [exact I1|apply lookup_empty|rewrite map_size_empty; unfold NBUF; lia| | | | |].
    + rewrite D1. cbn. apply (wd_header _ _ Wr).
    + cbn. unfold log_size, max_num_operation_blocks. lia.
    + cbn. lia.
    + rewrite D1. split; [exact Wr|]. intros n _. unfold files. rewrite Rr. reflexivity.
    + intros s2 b D2 I2 Ln E0 _. apply wp_ret. cbn in D2, E0. rewrite D1 in D2.
      destruct (header_written logstart (replay logstart d) b 0 Ln E0) as (W2 & E2 & _).
      rewrite <- D2 in W2, E2. split; [split; auto|]. split; [reflexivity|]. split; [reflexivity|]. split; [reflexivity|].
      split.
      * cbn. intros Lu. rewrite Lb. cbn. rewrite Lu. rewrite El. lia.
      * intros n Hn. rewrite D2.
        destruct (header_written logstart (replay logstart d) b n Ln E0) as (_ & _ & F). rewrite F by exact Hn. reflexivity.
Qed.


(** * Committing *)

Definition lower (h : hbuf) : option hbuf :=
  if hb_ref h =? 1 then None else Some (HB (hb_idx h) (hb_ref h - 1) (hb_data h)).

Lemma dropped_lookup n h held m :
  dropped n h held !! m = if decide (n = m) then lower h else held !! m.
Proof.
  unfold dropped, lower. destruct (hb_ref h =? 1).
  - rewrite lookup_delete. reflexivity.
  - rewrite lookup_insert. reflexivity.
Qed.

Lemma size_below {A} (m m' : gmap Z A) : (forall k, m !! k = None -> m' !! k = None) -> (size m' <= size m)%nat.
Proof.
  intros H. rewrite <- !size_dom. apply subseteq_size. intros k [x K]%elem_of_dom. apply elem_of_dom.
  destruct (m !! k) eqn:E; [eauto|]. rewrite (H k E) in K. discriminate.
Qed.

Ltac map_lookups := apply map_eq; intros ?;
  repeat first [rewrite dropped_lookup | rewrite lookup_insert]; repeat case_decide; simplify_eq; auto.

Section Commit.
Context (l : log) (Lo : 0 <= l_start l) (Hi : l_start l + log_size < 2 ^ 32).
Local Abbreviation inv := (cinv (dev l)).
Local Abbreviation lb := (log_block (l_start l)).

Lemma wp_log_one s held t n h Q (C : gmap Z block -> Prop) :
  inv s held -> nth t (blocks (hdr l)) 0 = n -> ~ in_log (l_start l) n -> (t < Z.to_nat log_room)%nat ->
  held !! n = Some h -> hb_ref h + 1 < 2 ^ 32 -> held !! lb t = None -> (size held < NBUF)%nat -> C (disk s) ->
  (forall s', disk s' = <[lb t := hb_data h]> (disk s) -> inv s' held -> Q tt s') ->
  wp (log_one l t) Q C s.
Proof.
  intros I En Hn Bt H Rh Fr Sz HC HQ. pose proof (log_block_home l t n Bt Hn) as Ne.
  pose proof (ci_held _ _ _ I _ _ H) as [R _]. destruct h as [j0 r b]. cbn [hb_ref hb_data hb_idx] in *.
  unfold log_one, getBuffer. rewrite log_block_u32, En by auto. apply wp_bind.
  eapply wp_read; [exact I|rewrite Fr; exact Sz|]. intros i s1 _ D1 I1. rewrite taken_new in I1 by exact Fr.
  set (held1 := <[lb t := _]> held) in I1. assert (H1 : held1 !! n = Some (HB j0 r b)) by (unfold held1; rewrite lookup_insert_ne; auto).
  apply wp_bind. eapply wp_read; [exact I1|rewrite H1; exact Rh|]. intros j s2 Ej D2 I2. rewrite (Ej _ H1) in I2 |- *.
  rewrite (taken_held _ _ _ _ _ H1) in I2. cbn [hb_ref hb_data hb_idx] in I2 |- *.
  apply wp_bind. eapply wp_get; [exact I2|apply lookup_insert_eq|]. cbn [data].
  apply wp_bind. eapply (wp_write_data _ _ _ (lb t)); [exact I2|rewrite lookup_insert_ne by congruence; apply lookup_insert_eq|].
  intros s3 D3 I3. apply wp_bind. eapply wp_write; [exact I3|apply lookup_insert_eq|congruence|].
  intros s4 D4 I4. apply wp_bind. eapply (wp_release _ _ _ n); [exact I4|rewrite lookup_insert_ne by exact Ne; apply lookup_insert_eq|lia|].
  intros s5 D5 I5.
  assert (E5 : dropped n (HB j0 (r + 1) b) (<[lb t := HB i 1 b]> (<[n := HB j0 (r + 1) b]> held1)) = <[lb t := HB i 1 b]> held).
  { unfold held1. map_lookups. unfold lower. cbn. rewrite (proj2 (Z.eqb_neq _ _)) by lia.
    rewrite Z.add_simpl_r. auto. }
  rewrite E5 in I5. eapply wp_release; [exact I5|apply lookup_insert_eq| |].
  { intros _. rewrite D5, D4, dget_insert, decide_True by reflexivity. reflexivity. }
  intros s6 D6 I6. rewrite dropped_new in I6 by exact Fr. apply HQ; [|exact I6]. rewrite D6, D5, D4, D3, D2, D1. reflexivity.
Qed.

Lemma wp_install_one_pinned s held t n h Q (C : gmap Z block -> Prop) :
  inv s held -> nth t (blocks (hdr l)) 0 = n -> ~ in_log (l_start l) n -> (t < Z.to_nat log_room)%nat ->
  held !! n = Some h -> hb_ref h + 1 < 2 ^ 32 -> hb_data h = dget (disk s) (lb t) ->
  held !! lb t = None -> (size held < NBUF)%nat -> C (disk s) ->
  (forall s', disk s' = <[n := dget (disk s) (lb t)]> (disk s) -> inv s' (dropped n h held) -> Q tt s') ->
  wp (install_one l false t) Q C s.
Proof.
  intros I En Hn Bt H Rh Eh Fr Sz HC HQ. pose proof (log_block_home l t n Bt Hn) as Ne.
  pose proof (ci_held _ _ _ I _ _ H) as [R _]. destruct h as [j0 r b]. cbn [hb_ref hb_data hb_idx] in *. subst b.
  unfold install_one, getBuffer. rewrite log_block_u32, En by auto. apply wp_bind.
  eapply wp_read; [exact I|rewrite Fr; exact Sz|]. intros i s1 _ D1 I1. rewrite taken_new in I1 by exact Fr.
  set (b := dget (disk s) (lb t)) in *. set (held1 := <[lb t := _]> held) in I1.
  assert (H1 : held1 !! n = Some (HB j0 r b)) by (unfold held1; rewrite lookup_insert_ne; auto).
  apply wp_bind. eapply wp_read; [exact I1|rewrite H1; exact Rh|]. intros j s2 Ej D2 I2. rewrite (Ej _ H1) in I2 |- *.
  rewrite (taken_held _ _ _ _ _ H1) in I2. cbn [hb_ref hb_data hb_idx] in I2 |- *.
  apply wp_bind. eapply (wp_get _ _ _ (lb t)); [exact I2|rewrite lookup_insert_ne by congruence; apply lookup_insert_eq|]. cbn [data].
  apply wp_bind. eapply wp_write_data; [exact I2|apply lookup_insert_eq|].
  intros s3 D3 I3. rewrite insert_insert_eq in I3. apply wp_bind. eapply wp_write; [exact I3|apply lookup_insert_eq|congruence|].
  intros s4 D4 I4. apply wp_bind. eapply wp_unpin; [exact I4|apply lookup_insert_eq|lia|].
  intros s5 D5 I5. rewrite insert_insert_eq, Z.add_simpl_r in I5. apply wp_bind.
  eapply wp_release; [exact I5|apply lookup_insert_eq| |].
  { intros _. rewrite D5, D4, dget_insert, decide_True by reflexivity. reflexivity. }
  intros s6 D6 I6.
  assert (E6 : dropped n (HB j0 r b) (<[n := HB j0 r b]> held1) = <[lb t := HB i 1 b]> (dropped n (HB j0 r b) held)).
  { unfold held1. map_lookups. }
  rewrite E6 in I6. eapply wp_release; [exact I6|apply lookup_insert_eq| |].
  { intros _. rewrite D6, D5, D4, dget_insert, decide_False by congruence. rewrite D3, D2, D1. reflexivity. }
  intros s7 D7 I7. rewrite dropped_new in I7 by (rewrite dropped_lookup, decide_False by congruence; exact Fr).
  apply HQ; [|exact I7]. rewrite D7, D6, D5, D4, D3, D2, D1. reflexivity.
Qed.

(** The contents of a block as the processes see them. *)
Definition view (held : gmap Z hbuf) (d : gmap Z block) (n : Z) : block :=
  match held !! n with Some h => hb_data h | None => dget d n end.

Definition in_header : list Z := firstn (Z.to_nat (length_ (hdr l))) (blocks (hdr l)).

(** A log with the blocks of its header pinned, and nothing else changed. *)
Record pinned (s : st) (held : gmap Z hbuf) : Prop := {
  pn_cache : inv s held;
  pn_length : 0 <= length_ (hdr l) <= log_room;
  pn_blocks : length (blocks (hdr l)) = Z.to_nat log_size;
  pn_nodup : NoDup in_header;
  pn_home n : n ∈ in_header -> ~ in_log (l_start l) n;
  pn_held n : n ∈ in_header -> exists h, held !! n = Some h /\ hb_ref h + 1 < 2 ^ 32;
  pn_rest n h : n ∉ in_header -> held !! n = Some h -> hb_data h = dget (disk s) n;
  pn_log n : in_log (l_start l) n -> held !! n = None;
  pn_room : (size held < NBUF)%nat;
  pn_disk : wf_disk (l_start l) (disk s);
  pn_clean : length_ (disk_hdr (l_start l) (disk s)) = 0;
}.

Lemma in_header_length s held : pinned s held -> length in_header = Z.to_nat (length_ (hdr l)).
Proof. intros P. unfold in_header. rewrite length_firstn, (pn_blocks _ _ P). destruct (pn_length _ _ P). lia. Qed.

Lemma in_header_nth s held t n :
  pinned s held -> in_header !! t = Some n ->
  nth t (blocks (hdr l)) 0 = n /\ (t < Z.to_nat (length_ (hdr l)))%nat /\ (t < Z.to_nat log_room)%nat.
Proof.
  intros P H. pose proof (lookup_lt_Some _ _ _ H) as B. rewrite (in_header_length _ _ P) in B.
  unfold in_header in H. rewrite lookup_take_lt in H by exact B. split; [apply nth_lookup_Some; exact H|].
  destruct (pn_length _ _ P). split; [exact B|lia].
Qed.

Lemma in_header_at s held t :
  pinned s held -> (t < Z.to_nat (length_ (hdr l)))%nat -> exists n h, in_header !! t = Some n /\
    held !! n = Some h /\ hb_ref h + 1 < 2 ^ 32 /\ ~ in_log (l_start l) n.
Proof.
  intros P B. destruct (lookup_lt_is_Some_2 in_header t) as [n Hn]; [rewrite (in_header_length _ _ P); exact B|].
  pose proof (list_elem_of_lookup_2 _ _ _ Hn) as In. destruct (pn_held _ _ P _ In) as (h & H & R).
  exists n, h. split; [exact Hn|]. split; [exact H|]. split; [exact R|]. exact (pn_home _ _ P _ In).
Qed.

(** [writeLog] copies the pinned blocks to the log and touches nothing else. *)
Lemma wp_writeLog s held Q (C : gmap Z block -> Prop) :
  pinned s held ->
  (forall d', (forall m, m = l_start l \/ ~ in_log (l_start l) m -> dget d' m = dget (disk s) m) -> C d') ->
  (forall s', inv s' held ->
     (forall m, m = l_start l \/ ~ in_log (l_start l) m -> dget (disk s') m = dget (disk s) m) ->
     (forall t n, in_header !! t = Some n -> dget (disk s') (lb t) = view held (disk s) n) -> Q tt s') ->
  wp (writeLog l) Q C s.
Proof.
  intros P HC HQ. unfold writeLog. set (N := Z.to_nat (length_ (hdr l))).
  eapply wp_mono; [apply (wp_for (fun k s' => inv s' held /\
     (forall m, m = l_start l \/ ~ in_log (l_start l) m -> dget (disk s') m = dget (disk s) m) /\
     (forall t n, (t < k)%nat -> in_header !! t = Some n -> dget (disk s') (lb t) = view held (disk s) n))
    (log_one l) C)| |auto].
  - split; [apply (pn_cache _ _ P)|]. split; [auto|lia].
  - intros k s1 Bk (I1 & O1 & T1). destruct (in_header_at _ _ k P ltac:(lia)) as (n & h & Hn & H & R & Nn).
    destruct (in_header_nth _ _ _ _ P Hn) as (En & _ & Bt).
    eapply (wp_log_one s1 held k n h); auto.
    + apply (pn_log _ _ P), log_block_in, Bt.
    + apply (pn_room _ _ P).
    + intros s2 D2 I2. split; [exact I2|]. rewrite D2. split.
      * intros m Hm. rewrite dget_insert, decide_False; [apply O1; exact Hm|]. intros <-.
        destruct Hm as [Hm|Hm]; [unfold log_block in Hm; lia|apply Hm, log_block_in, Bt].
      * intros t m Bt' Hm. rewrite dget_insert. destruct (decide (lb k = lb t)) as [E|Ne].
        -- assert (t = k) as -> by (unfold log_block in E; lia). rewrite Hn in Hm. injection Hm as <-.
           unfold view. rewrite H. reflexivity.
        -- apply T1; [|exact Hm]. destruct (decide (t = k)) as [->|]; [destruct Ne; reflexivity|lia].
  - intros [] s' (I' & O' & T'). apply HQ; [exact I'|exact O'|]. intros t n Hn. apply T'; [|exact Hn].
    destruct (in_header_nth _ _ _ _ P Hn). lia.
Qed.

(** [held] with the blocks of [ns] released once. *)
Definition released (ns : list Z) (held held' : gmap Z hbuf) : Prop :=
  forall m, held' !! m = if decide (m ∈ ns) then held !! m ≫= lower else held !! m.

Lemma released_size ns held held' : released ns held held' -> (size held' <= size held)%nat.
Proof.
  intros R. apply size_below. intros k E. rewrite R, E. destruct (decide _); reflexivity.
Qed.

(** Installing a committed transaction moves it home. *)
Lemma wp_install_pinned s held s1 Q (C : gmap Z block -> Prop) :
  pinned s held -> inv s1 held -> wf_disk (l_start l) (disk s1) -> disk_blocks (l_start l) (disk s1) = in_header ->
  (forall t n, in_header !! t = Some n -> dget (disk s1) (lb t) = view held (disk s) n) ->
  (forall d', wf_disk (l_start l) d' -> same_files (l_start l) d' (disk s1) -> C d') ->
  (forall s' held', disk s' = replay (l_start l) (disk s1) -> inv s' held' -> released in_header held held' -> Q tt s') ->
  wp (installTransaction l false) Q C s1.
Proof.
  intros P I W Eb Ed HC HQ. unfold installTransaction. set (N := Z.to_nat (length_ (hdr l))).
  pose proof (in_header_length _ _ P) as Ln. set (d := disk s1) in *.
  eapply wp_mono; [apply (wp_for (fun k s' => disk s' = install (take k (logged (l_start l) d)) d /\
     exists held', inv s' held' /\ released (take k in_header) held held') (install_one l false) C)| |auto].
  - split; [reflexivity|]. exists held. split; [exact I|]. intros m. reflexivity.
  - intros k s2 Bk (D2 & held2 & I2 & R2). destruct (install_prefix (l_start l) d k W) as (Wk & Kk & Rk).
    destruct (in_header_at _ _ k P ltac:(lia)) as (n & h & Hn & H & R & Nn).
    destruct (in_header_nth _ _ _ _ P Hn) as (En & _ & Bt).
    assert (Nt : n ∉ take k in_header).
    { intros K. apply elem_of_take in K as (i & Hj & Bi). pose proof (NoDup_lookup _ _ _ _ (pn_nodup _ _ P) Hj Hn). lia. }
    assert (H2 : held2 !! n = Some h) by (rewrite R2, decide_False by exact Nt; exact H).
    eapply (wp_install_one_pinned s2 held2 k n h); auto.
    + rewrite D2, Kk by (apply log_block_in, Bt). rewrite (Ed _ _ Hn). unfold view. rewrite H. reflexivity.
    + rewrite R2. rewrite (pn_log _ _ P) by (apply log_block_in, Bt). destruct (decide _); reflexivity.
    + pose proof (released_size _ _ _ R2). pose proof (pn_room _ _ P). lia.
    + rewrite D2. apply HC; [exact Wk|]. intros x _. unfold files. rewrite Rk. reflexivity.
    + intros s3 D3 I3. split.
      * rewrite D3, D2. assert (Lg : logged (l_start l) d !! k = Some (n, dget d (lb k))).
        { unfold logged. rewrite list_lookup_imap, Eb, Hn. reflexivity. }
        rewrite (take_S_r _ _ _ Lg), install_app. cbn. f_equal. apply Kk, log_block_in, Bt.
      * exists (dropped n h held2). split; [exact I3|]. intros m. rewrite dropped_lookup, (take_S_r _ _ _ Hn).
        destruct (decide (n = m)) as [<-|Ne].
        -- rewrite decide_True by (apply elem_of_app; right; apply list_elem_of_singleton; reflexivity). rewrite H. reflexivity.
        -- rewrite R2. destruct (decide (m ∈ take k in_header)) as [K|K].
           ++ rewrite decide_True by (apply elem_of_app; auto). reflexivity.
           ++ rewrite decide_False; [reflexivity|]. rewrite elem_of_app, list_elem_of_singleton. intros [?|?]; auto.
  - intros [] s' (D' & held' & I' & R'). rewrite Nat.add_0_l in D', R'. apply (HQ s' held'); [|exact I'|].
    + rewrite D'. unfold replay. rewrite firstn_all2; [reflexivity|]. rewrite <- (length_fmap fst), logged_keys, Eb, Ln. reflexivity.
    + intros m. rewrite R', firstn_all2 by (rewrite Ln; reflexivity). reflexivity.
Qed.

(** What a crash may leave: the old contents or the new ones. *)
Definition atomic (old : Z -> block) (new : Z -> block) (d : gmap Z block) : Prop :=
  wf_disk (l_start l) d /\
  ((forall m, ~ in_log (l_start l) m -> files (l_start l) d m = old m) \/
   (forall m, ~ in_log (l_start l) m -> files (l_start l) d m = new m)).

(** After the header is written the transaction counts. *)
Lemma committed s held d b :
  pinned s held ->
  (forall m, m = l_start l \/ ~ in_log (l_start l) m -> dget d m = dget (disk s) m) ->
  (forall t n, in_header !! t = Some n -> dget d (lb t) = view held (disk s) n) ->
  length b = words_per_block -> length_ (disk_header b) = length_ (hdr l) ->
  firstn (Z.to_nat (length_ (hdr l))) (blocks (disk_header b)) = in_header ->
  let d' := <[l_start l := b]> d in
  wf_disk (l_start l) d' /\ disk_blocks (l_start l) d' = in_header /\
  (forall t n, in_header !! t = Some n -> dget d' (lb t) = view held (disk s) n) /\
  (forall m, ~ in_log (l_start l) m -> files (l_start l) d' m = view held (disk s) m).
Proof.
  intros P O T Lb El Eb d'. assert (Hb : dget d' (l_start l) = b) by (unfold d'; rewrite dget_insert, decide_True; reflexivity).
  assert (Bl : disk_blocks (l_start l) d' = in_header).
  { unfold disk_blocks, disk_hdr. rewrite Hb, El. exact Eb. }
  assert (T' : forall t n, in_header !! t = Some n -> dget d' (lb t) = view held (disk s) n).
  { intros t n Hn. unfold d'. rewrite dget_insert, decide_False by (unfold log_block; lia). apply T, Hn. }
  split; [|split; [exact Bl|split; [exact T'|]]].
  - split; [rewrite Hb; exact Lb| |rewrite Bl; apply (pn_home _ _ P)]. unfold disk_hdr. rewrite Hb, El. apply (pn_length _ _ P).
  - intros m Hm. unfold files, dget at 1, replay. destruct (decide (m ∈ in_header)) as [In|Out].
    + apply list_elem_of_lookup in In as [t Ht].
      rewrite (install_in _ _ m (view held (disk s) m)); [reflexivity| |].
      * rewrite logged_keys, Bl. apply (pn_nodup _ _ P).
      * apply list_elem_of_lookup. exists t. unfold logged. rewrite list_lookup_imap, Bl, Ht. cbn. f_equal. f_equal. apply T', Ht.
    + rewrite install_out by (rewrite logged_keys, Bl; exact Out). fold (dget d' m). unfold d'.
      rewrite dget_insert, decide_False by (intros <-; apply Hm, start_in). rewrite O by auto.
      unfold view. destruct (held !! m) as [h|] eqn:H; [symmetry; eapply (pn_rest _ _ P); eauto|reflexivity].
Qed.

Lemma pinned_files s held m : pinned s held -> files (l_start l) (disk s) m = dget (disk s) m.
Proof. intros P. apply files_empty, (pn_clean _ _ P). Qed.

Lemma wp_commit s held :
  pinned s held ->
  wp (commit l)
    (fun l' s' => l' = with_length l 0 /\ (exists held', inv s' held' /\ released in_header held held') /\
       wf_disk (l_start l) (disk s') /\ length_ (disk_hdr (l_start l) (disk s')) = 0 /\
       forall m, ~ in_log (l_start l) m -> dget (disk s') m = view held (disk s) m)
    (atomic (dget (disk s)) (view held (disk s))) s.
Proof.
  intros P. unfold commit. destruct (Z.ltb_spec 0 (length_ (hdr l))) as [Ps|Z0].
  2:{ apply wp_ret. destruct (pn_length _ _ P) as [B _]. assert (E0 : length_ (hdr l) = 0) by lia.
    assert (Em : in_header = []) by (unfold in_header; rewrite E0; reflexivity).
    split; [unfold with_length, with_hdr; destruct l as [? ? ? ? ? [? ?]]; cbn in *; rewrite E0; reflexivity|].
    split; [exists held; split; [apply (pn_cache _ _ P)|intros m; rewrite Em; reflexivity]|].
    split; [apply (pn_disk _ _ P)|]. split; [apply (pn_clean _ _ P)|]. intros m _. unfold view.
    destruct (held !! m) as [h|] eqn:H; [|reflexivity]. symmetry. eapply (pn_rest _ _ P); [rewrite Em; apply not_elem_of_nil|exact H]. }
  apply wp_bind. eapply (wp_writeLog s held); [exact P| |].
  { intros d O. assert (Eh : disk_hdr (l_start l) d = disk_hdr (l_start l) (disk s)) by (unfold disk_hdr; rewrite O; auto).
    destruct (pn_disk _ _ P) as [W1 W2 W3]. split; [split; [rewrite O; auto|rewrite Eh; exact W2|]|left].
    - unfold disk_blocks in *. rewrite Eh. exact W3.
    - intros m Hm. rewrite files_empty, O; auto. rewrite Eh. apply (pn_clean _ _ P). }
  intros s1 I1 O1 T1. apply wp_bind.
  assert (Hs : dget (disk s1) (l_start l) = dget (disk s) (l_start l)) by (apply O1; auto).
  apply (wp_writeHead l s1 held); [exact I1|apply (pn_log _ _ P), start_in|apply (pn_room _ _ P)| |apply (pn_length _ _ P)| | |].
  - rewrite Hs. apply (wd_header _ _ (pn_disk _ _ P)).
  - rewrite (pn_blocks _ _ P). destruct (pn_length _ _ P). lia.
  - assert (Eh : disk_hdr (l_start l) (disk s1) = disk_hdr (l_start l) (disk s)) by (unfold disk_hdr; rewrite Hs; auto).
    destruct (pn_disk _ _ P) as [W1 W2 W3]. split; [split; [rewrite Hs; auto|rewrite Eh; exact W2|]|left].
    + unfold disk_blocks in *. rewrite Eh. exact W3.
    + intros m Hm. rewrite files_empty, O1; auto. rewrite Eh. apply (pn_clean _ _ P).
  - intros s2 b D2 I2 Lb El Eb. destruct (committed s held (disk s1) b P O1 T1 Lb El Eb) as (W2 & B2 & T2 & F2).
    rewrite <- D2 in W2, B2, T2, F2. apply wp_bind. eapply (wp_install_pinned s held s2); [exact P|exact I2|exact W2|exact B2|exact T2| |].
    { intros d W S. split; [exact W|right]. intros m Hm. rewrite S by exact Hm. apply F2, Hm. }
    intros s3 held3 D3 I3 R3. apply wp_bind.
    destruct (install_prefix (l_start l) (disk s2) (length (logged (l_start l) (disk s2))) W2) as (W3 & K3 & Rp).
    rewrite firstn_all in W3, K3, Rp. fold (replay (l_start l) (disk s2)) in W3, K3, Rp. rewrite <- D3 in W3, K3, Rp.
    apply (wp_writeHead (with_length l 0) s3 held3); [exact I3| | |apply (wd_header _ _ W3)| | | |].
    + cbn. rewrite R3, (pn_log _ _ P) by apply start_in. destruct (decide _); reflexivity.
    + pose proof (released_size _ _ _ R3). pose proof (pn_room _ _ P). lia.
    + cbn. unfold log_size, max_num_operation_blocks. lia.
    + cbn. lia.
    + split; [exact W3|right]. intros m Hm. unfold files. rewrite Rp, D3. apply F2, Hm.
    + intros s4 b4 D4 I4 L4 E4 _. apply wp_ret. split; [reflexivity|]. split; [eauto|]. cbn in D4, E4. rewrite D4.
      split; [apply (header_written _ _ _ 0 L4 E4)|]. split; [apply (header_written _ _ _ 0 L4 E4)|].
      intros m Hm. rewrite dget_insert, decide_False by (intros <-; apply Hm, start_in). rewrite D3. apply F2, Hm.
Qed.
End Commit.

(** * Logging a block *)

Lemma absorb_in n bs : n ∈ bs -> bs !! absorb n bs = Some n.
Proof.
  induction bs as [|b bs IH]; intros H; [apply elem_of_nil in H; destruct H|]. cbn [absorb].
  destruct (Z.eqb_spec b n) as [->|Ne]; [reflexivity|]. apply elem_of_cons in H as [->|H]; [destruct (Ne eq_refl)|]. cbn. auto.
Qed.

Lemma absorb_out n bs : n ∉ bs -> absorb n bs = length bs.
Proof.
  induction bs as [|b bs IH]; intros H; [reflexivity|]. apply not_elem_of_cons in H as [Ne H]. cbn [absorb length].
  rewrite (proj2 (Z.eqb_neq b n)) by congruence. rewrite IH by exact H. reflexivity.
Qed.

Lemma list_set_insert (bs : list Z) i n : list_set bs i n = <[i := n]> bs.
Proof. revert i. induction bs as [|b bs IH]; intros [|i]; cbn; auto. f_equal. apply IH. Qed.
