(* ===== verification/FslogCrash.v ===== *)
(** The promise of the log: an operation on the file system happens as a whole or
    not at all, however often power fails, and the reservation that keeps the
    log from overflowing. *)

From S2P Require Import Prelude.
From stdpp Require Import base gmap list.
From S2P Require Import Bio BioSpec Fslog FslogSpec.

Local Open Scope Z_scope.

(** * An operation *)

(** One update, the way log.zig asks its callers to make it: read the buffer,
    change its data, log it, release it. *)
Definition modify (l : log) (n : Z) (f : block -> block) : io log :=
  Bio.read (DB n (dev l)) ≫= fun i =>
  update i (write_data f) ≫= fun _ =>
  Fslog.write l i ≫= fun l =>
  release i ≫= fun _ => mret l.

Fixpoint modify_all (l : log) (ups : list (Z * (block -> block))) : io log :=
  match ups with
  | [] => mret l
  | (n, f) :: ups => modify l n f ≫= fun l => modify_all l ups
  end.

Definition operation (l : log) (ups : list (Z * (block -> block))) : io log :=
  match beginOperation l with
  | None => mret l
  | Some l => modify_all l ups ≫= endOperation
  end.

(** The contents after the updates. *)
Fixpoint updated (ups : list (Z * (block -> block))) (g : Z -> block) : Z -> block :=
  match ups with
  | [] => g
  | (n, f) :: ups => updated ups (fun m => if decide (m = n) then f (g n) else g m)
  end.

(** * Logging a block *)

(** The log while operations are in progress: exactly its blocks are in use. *)
Record logging (l : log) (s : st) (held : gmap Z hbuf) : Prop := {
  lg_pinned : pinned l s held;
  lg_only m : m ∉ in_header l -> held !! m = None;
  lg_one m h : held !! m = Some h -> hb_ref h = 1;
  lg_size : size held = length (in_header l);
  lg_active : 0 < outstanding l;
}.

(** What [write] does to the header, when it does not panic. *)
Lemma wp_log_write l s held n i r b Q C :
  cinv (dev l) s held -> held !! n = Some (HB i r b) -> r + 1 < 2 ^ 32 ->
  length (blocks (hdr l)) = Z.to_nat log_size -> 0 <= length_ (hdr l) < log_size ->
  length_ (hdr l) < u32 (l_size l - 1) -> 0 < outstanding l ->
  (n ∈ in_header l -> Q l s) ->
  (forall l' s', n ∉ in_header l -> l' = with_hdr l (hdr l') -> length_ (hdr l') = length_ (hdr l) + 1 ->
     length (blocks (hdr l')) = Z.to_nat log_size -> in_header l' = in_header l ++ [n] ->
     disk s' = disk s -> cinv (dev l) s' (<[n := HB i (r + 1) b]> held) -> Q l' s') ->
  wp (Fslog.write l i) Q C s.
Proof.
  intros I H R Lb Bl Bs Bo Q1 Q2. unfold Fslog.write.
  rewrite (proj2 (Z.leb_gt log_size _)), (proj2 (Z.leb_gt (u32 _) _)), (proj2 (Z.ltb_ge (outstanding l) 1)) by lia.
  cbn [orb]. apply wp_bind. eapply wp_get; [exact I|exact H|]. cbn [number bblock]. fold (in_header l).
  assert (Li : length (in_header l) = Z.to_nat (length_ (hdr l))) by (unfold in_header; rewrite length_firstn; lia).
  rewrite list_set_insert. destruct (decide (n ∈ in_header l)) as [In|Out].
  - pose proof (absorb_in _ _ In) as A. pose proof (lookup_lt_Some _ _ _ A) as B. rewrite Li in B.
    rewrite (proj2 (Z.eqb_neq _ _)) by lia. apply wp_ret.
    unfold in_header in A. rewrite lookup_take_lt in A by (fold (in_header l); lia). rewrite list_insert_id by exact A.
    destruct l as [? ? ? ? ? [? ?]]. apply Q1, In.
  - rewrite (absorb_out _ _ Out), Li, Z2Nat.id, Z.eqb_refl by lia. apply wp_bind.
    eapply wp_pin; [exact I|exact H|exact R|]. intros s' D' I'. apply wp_ret. apply Q2; auto; cbn [hdr with_hdr length_ blocks].
    + rewrite length_insert. exact Lb.
    + unfold in_header. cbn [hdr with_hdr length_ blocks]. rewrite Z2Nat.inj_add by lia. change (Z.to_nat 1) with 1%nat.
      rewrite Nat.add_1_r. rewrite (take_S_r _ _ n).
      * rewrite take_insert_ge by lia. reflexivity.
      * apply list_lookup_insert_eq. lia.
Qed.

(** The same place of the disk, and no other field than the header changed. *)
Definition same_log (l l' : log) : Prop := l' = with_hdr l (hdr l').

Lemma in_header_same l h : in_header (with_hdr l h) = firstn (Z.to_nat (length_ h)) (blocks h).
Proof. reflexivity. Qed.

Lemma pinned_after l s held s' n i b :
  pinned l s held -> cinv (dev l) s' (<[n := HB i 1 b]> held) -> disk s' = disk s -> n ∈ in_header l ->
  ~ in_log (l_start l) n -> pinned l s' (<[n := HB i 1 b]> held).
Proof.
  intros P I D In Hn. destruct P. split; auto; rewrite ?D; auto.
  - intros m Hm. destruct (decide (n = m)) as [->|Ne].
    + eexists. split; [apply lookup_insert_eq|]. cbn. lia.
    + rewrite lookup_insert_ne by exact Ne. auto.
  - intros m h Hm. rewrite lookup_insert_ne by (intros <-; auto). eauto.
  - intros m Hm. rewrite lookup_insert_ne by (intros <-; auto). auto.
  - destruct (pn_held n In) as (h & H & _). rewrite map_size_insert_Some by eauto. exact pn_room.
Qed.

Lemma wp_modify l s held n f Q C :
  logging l s held -> ~ in_log (l_start l) n -> length_ (hdr l) < log_size - 1 ->
  length_ (hdr l) < u32 (l_size l - 1) ->
  (forall l' s' held', logging l' s' held' -> same_log l l' -> disk s' = disk s ->
     (forall m, m ∈ in_header l' <-> m ∈ in_header l \/ m = n) ->
     (forall m, view held' (disk s) m = if decide (m = n) then f (view held (disk s) n) else view held (disk s) m) ->
     Q l' s') ->
  wp (modify l n f) Q C s.
Proof.
  intros G Hn Bl Bs HQ. destruct G as [P On One Sz Ac]. pose proof (pn_cache _ _ _ P) as I.
  destruct (pn_length _ _ _ P) as [Bl0 Bl1]. pose proof (in_header_length _ _ _ P) as Li.
  unfold modify. apply wp_bind. eapply wp_read; [exact I| |].
  { destruct (held !! n) as [h|] eqn:H; [rewrite (One _ _ H); lia|]. exact (pn_room _ _ _ P). }
  intros i s1 _ D1 I1. set (b0 := view held (disk s) n).
  assert (Et : exists r, taken n i held (disk s) = HB i r b0 /\ (r = 1 /\ n ∉ in_header l \/ r = 2 /\ n ∈ in_header l)).
  { unfold taken, b0, view. destruct (held !! n) as [h|] eqn:H.
    - rewrite (One _ _ H). eexists. split; [reflexivity|]. right. split; [reflexivity|].
      destruct (decide (n ∈ in_header l)) as [?|Out]; [auto|]. rewrite (On _ Out) in H. discriminate.
    - eexists. split; [reflexivity|]. left. split; [reflexivity|]. intros In.
      destruct (pn_held _ _ _ P _ In) as (h & H' & _). congruence. }
  destruct Et as (r & Et & Cr). rewrite Et in I1. apply wp_bind.
  eapply wp_write_data; [exact I1|apply lookup_insert_eq|]. intros s2 D2 I2. rewrite insert_insert_eq in I2.
  assert (View : forall m, view (<[n := HB i 1 (f b0)]> held) (disk s) m =
    if decide (m = n) then f b0 else view held (disk s) m).
  { intros m. unfold view at 1. rewrite lookup_insert. destruct (decide (n = m)) as [->|Ne].
    - rewrite decide_True by reflexivity. reflexivity.
    - rewrite decide_False by auto. reflexivity. }
  apply wp_bind. eapply wp_log_write; [exact I2|apply lookup_insert_eq|destruct Cr; lia|apply (pn_blocks _ _ _ P)|lia|lia|exact Ac| |].
  - intros In. destruct Cr as [[_ Out]|[-> _]]; [destruct (Out In)|]. apply wp_bind.
    eapply wp_release; [exact I2|apply lookup_insert_eq|lia|]. intros s3 D3 I3.
    unfold dropped in I3. cbn in I3. rewrite insert_insert_eq in I3. change (2 - 1) with 1 in I3. apply wp_ret.
    assert (D : disk s3 = disk s) by (rewrite D3, D2; exact D1).
    eapply HQ; [|destruct l; reflexivity|exact D| |exact View].
    + split; [eapply pinned_after; eauto| | | |exact Ac].
      * intros m Hm. rewrite lookup_insert_ne by (intros <-; auto). auto.
      * intros m h. rewrite lookup_insert. destruct (decide (n = m)); [intros [= <-]; reflexivity|eauto].
      * destruct (pn_held _ _ _ P _ In) as (h & H & _). rewrite map_size_insert_Some by eauto. exact Sz.
    + intros m. split; [auto|intros [?| ->]; auto].
  - intros l' s3 Out El' Len Lb Hd D3 I3. destruct Cr as [[-> _]|[_ In]]; [|destruct (Out In)].
    rewrite insert_insert_eq in I3. apply wp_bind. change (1 + 1) with 2 in I3.
    assert (Ed : dev l' = dev l) by (rewrite El'; reflexivity).
    eapply (wp_release (dev l)); [exact I3|apply lookup_insert_eq|lia|]. intros s4 D4 I4.
    unfold dropped in I4. cbn in I4. rewrite insert_insert_eq in I4. change (2 - 1) with 1 in I4. apply wp_ret.
    assert (D : disk s4 = disk s) by (rewrite D4, D3, D2; exact D1). pose proof (On _ Out) as Fr.
    eapply HQ; [|exact El'|exact D| |exact View].
    + assert (Es : l_start l' = l_start l) by (rewrite El'; reflexivity).
      assert (Ea : outstanding l' = outstanding l) by (rewrite El'; reflexivity).
      destruct P. split; [split|..]; rewrite ?Ed, ?Es, ?Ea, ?D, ?Hd; auto.
      * rewrite Len. lia.
      * apply NoDup_app. split; [exact pn_nodup|]. split; [|apply NoDup_singleton].
        intros m Hm Hm'. apply list_elem_of_singleton in Hm'. congruence.
      * intros m [Hm| ->%list_elem_of_singleton]%elem_of_app; auto.
      * intros m [Hm| ->%list_elem_of_singleton]%elem_of_app.
        -- rewrite lookup_insert_ne by congruence. auto.
        -- eexists. split; [apply lookup_insert_eq|]. cbn. lia.
      * intros m h Hm. rewrite elem_of_app, list_elem_of_singleton in Hm. rewrite lookup_insert_ne by (intros <-; auto). eauto.
      * intros m Hm. rewrite lookup_insert_ne by (intros <-; auto). auto.
      * rewrite map_size_insert_None, Sz, Li by exact Fr. unfold NBUF. unfold log_size, max_num_operation_blocks in Bl. lia.
      * intros m Hm. rewrite elem_of_app, list_elem_of_singleton in Hm. rewrite lookup_insert_ne by (intros <-; auto). auto.
      * intros m h. rewrite lookup_insert. destruct (decide (n = m)); [intros [= <-]; reflexivity|eauto].
      * rewrite map_size_insert_None, Sz, length_app by exact Fr. cbn. lia.
    + intros m. rewrite Hd, elem_of_app, list_elem_of_singleton. reflexivity.
Qed.

(** * The whole operation *)

Lemma updated_ext ups : forall g g' m, (forall m, g m = g' m) -> updated ups g m = updated ups g' m.
Proof.
  induction ups as [|[n f] ups IH]; intros g g' m E; cbn [updated]; [apply E|]. apply IH. intros k. rewrite !E. reflexivity.
Qed.

Lemma short_header l s held (keys : list Z) :
  pinned l s held -> (forall m, m ∈ in_header l -> m ∈ keys) ->
  length_ (hdr l) <= Z.of_nat (length (remove_dups keys)).
Proof.
  intros P Sub. destruct (pn_length _ _ _ P). pose proof (in_header_length _ _ _ P).
  assert (Le : (length (in_header l) <= length (remove_dups keys))%nat); [|lia].
  apply submseteq_length, NoDup_submseteq; [apply (pn_nodup _ _ _ P)|]. intros m Hm. apply elem_of_remove_dups. auto.
Qed.

Lemma wp_modify_all keys ups : forall l s held Q C,
  logging l s held -> (forall m, m ∈ in_header l -> m ∈ keys) -> (forall m, m ∈ ups.*1 -> m ∈ keys) ->
  (forall m, m ∈ keys -> ~ in_log (l_start l) m) ->
  Z.of_nat (length (remove_dups keys)) < log_size - 1 -> Z.of_nat (length (remove_dups keys)) < u32 (l_size l - 1) ->
  (forall l' s' held', logging l' s' held' -> same_log l l' -> disk s' = disk s ->
     (forall m, view held' (disk s) m = updated ups (view held (disk s)) m) -> Q l' s') ->
  wp (modify_all l ups) Q C s.
Proof.
  induction ups as [|[n f] ups IH]; intros l s held Q C G Sub Su Hn B1 B2 HQ; cbn [modify_all].
  - apply wp_ret. apply (HQ l s held); auto. destruct l. reflexivity.
  - pose proof (short_header _ _ _ _ (lg_pinned _ _ _ G) Sub) as Sh.
    assert (Hk : n ∈ keys) by (apply Su; left). apply wp_bind.
    eapply wp_modify; [exact G|apply Hn, Hk|lia|lia|]. intros l1 s1 held1 G1 Sm D1 Hd V1.
    assert (E1 : l_start l1 = l_start l) by (rewrite Sm; reflexivity).
    assert (E2 : l_size l1 = l_size l) by (rewrite Sm; reflexivity).
    eapply (IH l1 s1 held1); [exact G1| | |rewrite E1; exact Hn|exact B1|rewrite E2; exact B2|].
    + intros m [Hm| ->]%Hd; auto.
    + intros m Hm. apply Su. right. exact Hm.
    + intros l2 s2 held2 G2 Sm2 D2 V2. apply (HQ l2 s2 held2); [exact G2| |congruence|].
      * unfold same_log in *. rewrite Sm2, Sm. reflexivity.
      * intros m. rewrite D1 in V2. rewrite V2. cbn [updated]. apply updated_ext. exact V1.
Qed.

(** A log between operations, ready for one. *)
Record quiet (dv logstart nlog : Z) (l : log) (s : st) : Prop := {
  qt_idle : idle dv logstart l s;
  qt_size : l_size l = nlog;
  qt_none : outstanding l = 0;
  qt_free : is_commiting l = false;
  qt_blocks : length (blocks (hdr l)) = Z.to_nat log_size;
}.

Lemma quiet_begin dv logstart nlog l s :
  quiet dv logstart nlog l s -> exists l1, beginOperation l = Some l1 /\ logging l1 s ∅ /\
    l_start l1 = logstart /\ dev l1 = dv /\ l_size l1 = nlog /\ outstanding l1 = 1 /\ is_commiting l1 = false /\ in_header l1 = [].
Proof.
  intros [[E1 E2 E3 E4 E5 E6] Sz No Fr Lb]. unfold beginOperation. rewrite E3, No, Fr. cbn [orb].
  assert (Eh : firstn (Z.to_nat 0) (blocks (hdr l)) = []) by reflexivity.
  eexists. split; [reflexivity|]. unfold in_header. cbn [hdr l_start dev l_size outstanding is_commiting]. rewrite E3.
  split; [|auto 10]. split; cbn [outstanding]; [|reflexivity| | |lia].
  - split; cbn [dev l_start hdr]; rewrite ?E1, ?E2; auto; unfold in_header; cbn [hdr]; rewrite ?E3; cbn.
    + unfold log_size, max_num_operation_blocks. lia.
    + apply NoDup_nil_2.
    + intros m Hm. apply elem_of_nil in Hm. destruct Hm.
    + intros m Hm. apply elem_of_nil in Hm. destruct Hm.
    + intros m h _ Hm. rewrite lookup_empty in Hm. discriminate.
    + rewrite map_size_empty. unfold NBUF. lia.
  - intros m h Hm. rewrite lookup_empty in Hm. discriminate.
  - unfold in_header. cbn [hdr]. rewrite E3, map_size_empty. reflexivity.
Qed.

Lemma released_all l s held held' : logging l s held -> released (in_header l) held held' -> held' = ∅.
Proof.
  intros G R. apply map_eq. intros m. rewrite R, lookup_empty. destruct (decide (m ∈ in_header l)) as [_|Out].
  - destruct (held !! m) as [h|] eqn:H; [|reflexivity]. cbn. unfold lower. rewrite (lg_one _ _ _ G _ _ H). reflexivity.
  - apply (lg_only _ _ _ G _ Out).
Qed.

Lemma pinned_copy l l' s held : pinned l s held -> hdr l' = hdr l -> l_start l' = l_start l -> dev l' = dev l -> pinned l' s held.
Proof. intros [] E1 E2 E3. split; unfold in_header in *; rewrite ?E1, ?E2, ?E3; auto. Qed.

Lemma wp_operation dv logstart nlog l s ups :
  0 <= logstart -> logstart + log_size < 2 ^ 32 -> max_num_operation_blocks + 1 < nlog < 2 ^ 32 ->
  quiet dv logstart nlog l s -> (forall m, m ∈ ups.*1 -> ~ in_log logstart m) ->
  Z.of_nat (length (remove_dups ups.*1)) <= max_num_operation_blocks ->
  wp (operation l ups)
    (fun l' s' => quiet dv logstart nlog l' s' /\
       forall m, ~ in_log logstart m -> dget (disk s') m = updated ups (dget (disk s)) m)
    (fun d => wf_disk logstart d /\
       ((forall m, ~ in_log logstart m -> files logstart d m = dget (disk s) m) \/
        (forall m, ~ in_log logstart m -> files logstart d m = updated ups (dget (disk s)) m)))
    s.
Proof.
  intros Lo Hi Bs Qt Home Few. unfold operation. destruct (quiet_begin _ _ _ _ _ Qt) as (l1 & -> & G1 & <- & <- & <- & O1 & C1 & H1).
  assert (V0 : forall m, view ∅ (disk s) m = dget (disk s) m) by (intros m; unfold view; rewrite lookup_empty; reflexivity).
  apply wp_bind. eapply (wp_modify_all ups.*1); [exact G1| |auto|exact Home| | |].
  - rewrite H1. intros m Hm. apply elem_of_nil in Hm. destruct Hm.
  - unfold log_size, max_num_operation_blocks in *. lia.
  - rewrite u32_small by (unfold max_num_operation_blocks in *; lia). lia.
  - intros l2 s2 held2 G2 Sm D2 V2.
    assert (E : l_start l2 = l_start l1 /\ l_size l2 = l_size l1 /\ dev l2 = dev l1 /\ outstanding l2 = 1 /\ is_commiting l2 = false)
      by (rewrite Sm; cbn; auto).
    destruct E as (Es & Ez & Ed & Eo & Ec). unfold endOperation. cbn [is_commiting outstanding l_start l_size dev hdr].
    rewrite Ec, Eo. change (u32 (1 - 1) =? 0) with true. cbn iota. set (l3 := Log _ _ 0 true _ _).
    pose proof (pinned_copy l2 l3 _ _ (lg_pinned _ _ _ G2) eq_refl eq_refl eq_refl) as P3.
    apply wp_bind. eapply wp_mono; [apply (wp_commit l3); [cbn; lia|cbn; lia|exact P3]| |].
    + intros l4 s4 (-> & (held4 & I4 & R4) & W4 & C4 & V4). apply wp_ret. cbn in I4, W4, C4, V4. rewrite Es in *. rewrite Ed in *.
      rewrite (released_all l2 s2 held2 held4 G2 R4) in I4. split.
      * split; cbn; auto; [split; cbn; auto|apply (pn_blocks _ _ _ P3)].
      * intros m Hm. rewrite V4 by exact Hm. rewrite D2, V2. apply updated_ext, V0.
    + intros d (W & Or). cbn in W, Or. rewrite Es in *. rewrite D2 in *. split; [exact W|].
      destruct Or as [F|F]; [left; exact F|right]. intros m Hm. rewrite F, V2 by exact Hm. apply updated_ext, V0.
Qed.

(** * Rebooting *)

(** Boots of the machine, of which power may cut all but the last short; the
    header of the log is in memory that holds anything. *)
Inductive recovers (dv logstart nlog : Z) : gmap Z block -> gmap Z block -> Prop :=
| rec_done undef d p l s :
    init undef dv logstart nlog (St d p init_array) = Done l s -> recovers dv logstart nlog d (disk s)
| rec_crash undef d p d1 d2 :
    init undef dv logstart nlog (St d p init_array) = Crashed d1 ->
    recovers dv logstart nlog d1 d2 -> recovers dv logstart nlog d d2.

Lemma recovers_files dv logstart nlog d d2 :
  dv <> 0 -> 0 <= logstart -> logstart + log_size < 2 ^ 32 ->
  recovers dv logstart nlog d d2 -> wf_disk logstart d ->
  wf_disk logstart d2 /\ length_ (disk_hdr logstart d2) = 0 /\
  forall m, ~ in_log logstart m -> dget d2 m = files logstart d m.
Proof.
  intros Nz Lo Hi R. induction R as [undef d p l s E|undef d p d1 d2 E R IH]; intros W;
    pose proof (init_spec undef dv logstart nlog d p Nz Lo Hi W) as S; unfold wp in S; rewrite E in S.
  - destruct S as (I & _ & _ & _ & _ & F). split; [apply (id_disk _ _ _ _ I)|]. split; [apply (id_clean _ _ _ _ I)|].
    intros m Hm. rewrite <- F by exact Hm. symmetry. apply files_empty, (id_clean _ _ _ _ I).
  - destruct S as (W1 & F). destruct (IH W1) as (W2 & E2 & F2). split; [exact W2|]. split; [exact E2|].
    intros m Hm. rewrite F2 by exact Hm. apply F, Hm.
Qed.

(** With power nothing is cut short. *)
Definition steady {A} (m : io A) : Prop := forall s, power s = None ->
  match m s with Done _ s' => power s' = None | Crashed _ => False | Panicked => True end.

Lemma steady_bind {A B} (m : io A) (f : A -> io B) : steady m -> (forall a, steady (f a)) -> steady (m ≫= f).
Proof. intros M F s E. unfold mbind, io_bind. specialize (M s E). destruct (m s); auto. apply F, M. Qed.

Lemma steady_ret {A} (a : A) : steady (mret a).
Proof. intros s E. exact E. Qed.
Lemma steady_get i : steady (get i).
Proof. intros s E. unfold get. destruct (_ !! i); auto. Qed.
Lemma steady_set i b : steady (set i b).
Proof. intros s E. exact E. Qed.
Lemma steady_read n : steady (disk_read n).
Proof. intros s E. exact E. Qed.
Lemma steady_write n b : steady (disk_write n b).
Proof. intros s E. unfold disk_write. rewrite E. reflexivity. Qed.
Lemma steady_front i : steady (to_front i).
Proof. intros s E. exact E. Qed.
Lemma steady_panic {A} : steady (@panic A).
Proof. intros s E. exact I. Qed.

Lemma steady_for {A} (xs : list A) f : (forall x, steady (f x)) -> steady (for_each xs f).
Proof. intros F. induction xs; cbn; [apply steady_ret|apply steady_bind; auto]. Qed.

Create HintDb steady.
#[export] Hint Resolve steady_bind steady_ret steady_get steady_set steady_read steady_write steady_front
  steady_panic steady_for : steady.

Ltac steadily := repeat first
  [ apply steady_bind; [|intros ?] | apply steady_for; intros ?
  | progress (auto with steady; try solve [auto with steady])
  | match goal with |- steady (if ?b then _ else _) => destruct b end
  | match goal with |- steady (match ?b with _ => _ end) => destruct b end ].

Lemma steady_update_ret i f : steady (update i f ≫= fun _ => mret i).
Proof. unfold update. steadily. Qed.

Lemma steady_get_buffer blk : steady (get_buffer blk).
Proof.
  intros s E. unfold get_buffer. destruct (find_buffer _ _ _) as [i|]; [exact (steady_update_ret i _ s E)|].
  destruct (find_buffer _ _ _) as [i|]; [exact (steady_update_ret i _ s E)|exact I].
Qed.

Lemma steady_init undef dv logstart nlog : steady (init undef dv logstart nlog).
Proof.
  pose proof steady_get_buffer.
  unfold init, recoverFromLog, readHead, installTransaction, install_one, writeHead, getBuffer, Bio.read, Bio.write,
    release, unpin, update. steadily.
Qed.

Lemma recovery_exists dv logstart nlog d :
  dv <> 0 -> 0 <= logstart -> logstart + log_size < 2 ^ 32 -> wf_disk logstart d ->
  exists d2, recovers dv logstart nlog d d2.
Proof.
  intros Nz Lo Hi W. pose proof (init_spec [] dv logstart nlog d None Nz Lo Hi W) as S. unfold wp in S.
  pose proof (steady_init [] dv logstart nlog (St d None init_array) eq_refl) as P.
  destruct (init [] dv logstart nlog (St d None init_array)) as [l s|d'|] eqn:E; [|destruct P|destruct S].
  exists (disk s). eapply rec_done. exact E.
Qed.

Lemma install_last es : forall t m b d,
  es !! t = Some (m, b) -> (forall t' b', (t < t')%nat -> es !! t' <> Some (m, b')) -> install es d !! m = Some b.
Proof.
  induction es as [|[k c] es IH]; intros [|t] m b d H Last; cbn in *; try discriminate.
  - injection H as -> ->. rewrite install_out; [apply lookup_insert_eq|]. intros In.
    apply list_elem_of_fmap in In as ((k' & b') & -> & In). apply list_elem_of_lookup in In as [t' Ht'].
    apply (Last (S t') b'); [lia|exact Ht'].
  - apply (IH t); [exact H|]. intros t' b' Lt. apply (Last (S t') b'). lia.
Qed.

(** An operation that is cut short is whole or not there, whatever recovery does. *)
Lemma operation_atomic dv logstart nlog l s ups :
  dv <> 0 -> 0 <= logstart -> logstart + log_size < 2 ^ 32 -> max_num_operation_blocks + 1 < nlog < 2 ^ 32 ->
  quiet dv logstart nlog l s -> (forall m, m ∈ ups.*1 -> ~ in_log logstart m) ->
  Z.of_nat (length (remove_dups ups.*1)) <= max_num_operation_blocks ->
  let old := dget (disk s) in
  let new := updated ups old in
  let always d g := forall d2, recovers dv logstart nlog d d2 -> forall m, ~ in_log logstart m -> dget d2 m = g m in
  match operation l ups s with
  | Done l' s' => quiet dv logstart nlog l' s' /\ (forall m, ~ in_log logstart m -> dget (disk s') m = new m) /\
      always (disk s') new
  | Crashed d => (exists d2, recovers dv logstart nlog d d2) /\ (always d old \/ always d new)
  | Panicked => False
  end.
Proof.
  intros Nz Lo Hi Bs Qt Home Few old new always. pose proof (wp_operation _ _ _ _ _ _ Lo Hi Bs Qt Home Few) as W.
  assert (K : forall d g, wf_disk logstart d -> (forall m, ~ in_log logstart m -> files logstart d m = g m) -> always d g).
  { intros d g Wd F d2 R m Hm. destruct (recovers_files _ _ _ _ _ Nz Lo Hi R Wd) as (_ & _ & F2).
    rewrite F2 by exact Hm. apply F, Hm. }
  unfold wp in W. destruct (operation l ups s) as [l' s'|d|]; [|destruct W as (Wd & F)|exact W].
  - destruct W as (Q & F). split; [exact Q|]. split; [exact F|]. destruct (qt_idle _ _ _ _ _ Q).
    apply K; [exact id_disk|]. intros m Hm. rewrite files_empty by exact id_clean. apply F, Hm.
  - split; [exact (recovery_exists dv logstart nlog d Nz Lo Hi Wd)|]. destruct F as [F|F]; [left|right]; apply K; auto.
Qed.

(** * Theorems *)

(** C17: an operation on the file system (log.zig over buffer.zig and
    buffer_cache.zig) is atomic.  An operation that changes up to ten blocks,
    each read, modified, logged and released, begins with the log idle and never
    panics.  If power lasts, the blocks hold the new contents, the log is idle
    again, and any later recovery keeps them.  If power fails after any number of
    disk writes, the disk can be recovered, and either every recovery, however
    often power fails during it, gives the contents before the operation, or
    every recovery gives those after it. *)
Theorem fs_operation_atomic dv logstart nlog l s ups :
  dv <> 0 -> 0 <= logstart -> logstart + log_size < 2 ^ 32 -> max_num_operation_blocks + 1 < nlog < 2 ^ 32 ->
  quiet dv logstart nlog l s -> (forall m, m ∈ ups.*1 -> ~ in_log logstart m) ->
  Z.of_nat (length (remove_dups ups.*1)) <= max_num_operation_blocks ->
  let old := dget (disk s) in
  let new := updated ups old in
  let always d g := forall d2, recovers dv logstart nlog d d2 -> forall m, ~ in_log logstart m -> dget d2 m = g m in
  match operation l ups s with
  | Done l' s' => quiet dv logstart nlog l' s' /\ (forall m, ~ in_log logstart m -> dget (disk s') m = new m) /\
      always (disk s') new
  | Crashed d => (exists d2, recovers dv logstart nlog d d2) /\ (always d old \/ always d new)
  | Panicked => False
  end.
Proof. apply operation_atomic. Qed.

(** C18: recovery (init and recoverFromLog of log.zig) always succeeds and
    installs what was committed.  Started on a disk with a sound log, and started
    again however often power fails in between, it comes to an end, leaves the
    log empty, gives each block the contents of the last entry the log had for
    it, and leaves the others alone. *)
Theorem fs_recovery dv logstart nlog d :
  dv <> 0 -> 0 <= logstart -> logstart + log_size < 2 ^ 32 -> wf_disk logstart d ->
  (exists d2, recovers dv logstart nlog d d2) /\
  forall d2, recovers dv logstart nlog d d2 ->
    length_ (disk_hdr logstart d2) = 0 /\
    (forall m, ~ in_log logstart m -> m ∉ disk_blocks logstart d -> dget d2 m = dget d m) /\
    (forall t m, disk_blocks logstart d !! t = Some m ->
       (forall t', (t < t')%nat -> disk_blocks logstart d !! t' <> Some m) ->
       dget d2 m = dget d (log_block logstart t)).
Proof.
  intros Nz Lo Hi W. split; [exact (recovery_exists dv logstart nlog d Nz Lo Hi W)|].
  intros d2 R. destruct (recovers_files _ _ _ _ _ Nz Lo Hi R W) as (_ & E & F). split; [exact E|]. split.
  - intros m Hm Out. rewrite F by exact Hm. unfold files, replay, dget. rewrite install_out; [reflexivity|].
    rewrite logged_keys. exact Out.
  - intros t m Ht Last. rewrite F by (apply (wd_home _ _ W), (list_elem_of_lookup_2 _ _ _ Ht)).
    unfold files, dget at 1, replay. rewrite (install_last (logged logstart d) t m (dget d (log_block logstart t))); [reflexivity| |].
    + unfold logged. rewrite list_lookup_imap, Ht. reflexivity.
    + intros t' b Lt H. unfold logged in H. rewrite list_lookup_imap in H.
      destruct (disk_blocks logstart d !! t') as [m'|] eqn:H'; [|discriminate]. cbn in H. injection H as -> _. exact (Last t' Lt H').
Qed.

(** * Witnesses *)

(** A disk of zeros with power for four more writes, and an operation on two
    blocks. *)
Definition log1 : log := Log 2 log_size 0 false 18 (Header 0 (replicate 30 0)).
Definition machine1 : st := St ∅ (Some 4%nat) init_array.
Definition ups1 : list (Z * (block -> block)) :=
  [(50, fun b => <[0%nat := 7]> b); (51, fun b => <[1%nat := 8]> b); (50, fun b => <[2%nat := 9]> b)].

Lemma zero_disk_wf : wf_disk 2 ∅.
Proof.
  split; [reflexivity|vm_compute; split; discriminate|].
  intros n H. change (n ∈ @nil Z) in H. apply elem_of_nil in H. destruct H.
Defined.

Lemma machine1_quiet : quiet 18 2 log_size log1 machine1.
Proof.
  split; try reflexivity. split; try reflexivity.
  - apply cinv_init. lia.
  - exact zero_disk_wf.
Defined.

(** Power fails while the first block of the transaction is being moved home:
    recovery completes it. *)
Lemma fs_operation_atomic_witness :
  (exists d, operation log1 ups1 machine1 = Crashed d /\ dget d 51 = zero_block) /\
  exists d, operation log1 ups1 machine1 = Crashed d /\ exists d2, recovers 18 2 log_size d d2.
Proof.
  split; [eexists; split; vm_compute; reflexivity|].
  pose proof (fs_operation_atomic 18 2 log_size log1 machine1 ups1) as T.
  destruct (operation log1 ups1 machine1) as [l s|d|] eqn:E.
  - exfalso. vm_compute in E. discriminate.
  - exists d. split; [reflexivity|]. apply T.
    + lia.
    + lia.
    + vm_compute. reflexivity.
    + vm_compute. split; reflexivity.
    + exact machine1_quiet.
    + intros m Hm. unfold in_log, log_size, max_num_operation_blocks.
      assert (K : m = 50 \/ m = 51 \/ m = 50).
      { apply list_elem_of_In in Hm. cbn in Hm. intuition lia. }
      lia.
    + vm_compute. discriminate.
  - exfalso. vm_compute in E. discriminate.
Defined.

(** The disk that such a failure leaves. *)
Definition torn : gmap Z block :=
  {[ 2 := set_header (Header 2 (50 :: 51 :: replicate 28 0)) zero_block;
     3 := <[0%nat := 7]> zero_block; 4 := <[1%nat := 8]> zero_block; 50 := <[0%nat := 7]> zero_block ]}.

Lemma torn_wf : wf_disk 2 torn.
Proof.
  split; [vm_compute; reflexivity|vm_compute; split; discriminate|].
  intros n H. change (n ∈ [50; 51]) in H. apply list_elem_of_In in H. cbn in H.
  unfold in_log, log_size, max_num_operation_blocks. lia.
Defined.

Lemma fs_recovery_witness :
  exists d2, recovers 18 2 log_size torn d2 /\ dget d2 51 = <[1%nat := 8]> zero_block.
Proof.
  destruct (fs_recovery 18 2 log_size torn) as ((d2 & R) & F).
  - lia.
  - lia.
  - vm_compute. reflexivity.
  - exact torn_wf.
  - exists d2. split; [exact R|]. destruct (F d2 R) as (_ & _ & L).
    rewrite (L 1%nat 51); [vm_compute; reflexivity|vm_compute; reflexivity|].
    intros t' Lt H. apply lookup_lt_Some in H. change (length (disk_blocks 2 torn)) with 2%nat in H. lia.
Defined.
