(* ===== verification/FslogQuota.v ===== *)
(** The space an operation reserves in the log: beginOperation, write and
    endOperation of src/kernel/filesystem/log.zig, with any number of operations
    in progress. *)

From S2P Require Import Prelude.
From stdpp Require Import base gmap list.
From S2P Require Import Bio BioSpec Fslog FslogSpec.

Local Open Scope Z_scope.

(** * Operations in progress *)

(** Each operation by its process, with the blocks it has logged. *)
Abbreviation actives := (gmap nat (gset Z)).

(** [quota] is how many blocks an operation may log.  Between the steps of the
    log the machine may do anything to its buffers and its disk. *)
Inductive qstep (quota : Z) : log * actives * st -> log * actives * st -> Prop :=
| q_begin p l l' ops s :
    ops !! p = None -> beginOperation l = Some l' -> qstep quota (l, ops, s) (l', <[p := ∅]> ops, s)
| q_write p S l l' ops s s' i b :
    ops !! p = Some S -> buffer_array (bcache s) !! i = Some b ->
    Z.of_nat (size ({[number (bblock b)]} ∪ S)) <= quota ->
    Fslog.write l i s = Done l' s' ->
    qstep quota (l, ops, s) (l', <[p := {[number (bblock b)]} ∪ S]> ops, s')
| q_end p S l l' ops s s' :
    ops !! p = Some S -> endOperation l s = Done l' s' -> qstep quota (l, ops, s) (l', delete p ops, s')
| q_other l ops s s' : qstep quota (l, ops, s) (l, ops, s').

Inductive qreach (quota : Z) (l0 : log) : log * actives * st -> Prop :=
| q_init s : qreach quota l0 (l0, ∅, s)
| q_next x y : qreach quota l0 x -> qstep quota x y -> qreach quota l0 y.

(** * What is left of the reservations *)

Definition left_of (S : gset Z) : Z := max_num_operation_blocks - Z.of_nat (size S).
Definition slack (ops : actives) : Z := map_fold (fun _ S n => left_of S + n) 0 ops.

Lemma slack_insert p S ops : ops !! p = None -> slack (<[p := S]> ops) = left_of S + slack ops.
Proof. intros H. unfold slack. rewrite map_fold_insert_L; [reflexivity| |exact H]. intros. lia. Qed.

Lemma slack_delete p S ops : ops !! p = Some S -> slack ops = left_of S + slack (delete p ops).
Proof. intros H. unfold slack. rewrite (map_fold_delete_L _ _ p S); [reflexivity| |exact H]. intros. lia. Qed.

Lemma slack_update p S S' ops : ops !! p = Some S -> slack (<[p := S']> ops) = slack ops - left_of S + left_of S'.
Proof.
  intros H. rewrite <- insert_delete_eq, slack_insert by apply lookup_delete_eq. rewrite (slack_delete p S ops H). lia.
Qed.

(** Every operation below its quota has something left. *)
Lemma slack_at_least k ops :
  (forall p S, ops !! p = Some S -> k <= left_of S) -> k * Z.of_nat (size ops) <= slack ops.
Proof.
  induction ops as [|p S ops Fr IH] using map_ind; intros H.
  - rewrite map_size_empty. unfold slack. rewrite map_fold_empty. lia.
  - rewrite map_size_insert_None, slack_insert by exact Fr.
    pose proof (H p S (lookup_insert_eq _ _ _)). assert (IH' : k * Z.of_nat (size ops) <= slack ops); [|lia].
    apply IH. intros q S' Hq. apply (H q). rewrite lookup_insert_ne; [exact Hq|]. intros <-. congruence.
Qed.

(** * What the operations of the log do *)

Lemma bind_done {A B} (m : io A) (f : A -> io B) s b s' :
  (m ≫= f) s = Done b s' -> exists a s1, m s = Done a s1 /\ f a s1 = Done b s'.
Proof. unfold mbind, io_bind. destruct (m s); try discriminate. eauto. Qed.

Lemma write_done l i s l' s' b :
  buffer_array (bcache s) !! i = Some b -> length (blocks (hdr l)) = Z.to_nat log_size -> 0 <= length_ (hdr l) ->
  Fslog.write l i s = Done l' s' ->
  let n := number (bblock b) in
  l' = with_hdr l (hdr l') /\ length (blocks (hdr l')) = Z.to_nat log_size /\
  ((n ∈ in_header l) /\ hdr l' = hdr l \/
   (n ∉ in_header l) /\ length_ (hdr l') = length_ (hdr l) + 1 /\ in_header l' = in_header l ++ [n]).
Proof.
  intros L Lb Bl E n. unfold Fslog.write in E. destruct (_ || _) eqn:Or; [discriminate|].
  apply orb_false_elim in Or as [O1%Z.leb_gt _]. destruct (outstanding l <? 1); [discriminate|].
  apply bind_done in E as (b' & s1 & Eg & E). unfold get in Eg. rewrite L in Eg. injection Eg as <- <-.
  fold n in E. fold (in_header l) in E.
  assert (Li : length (in_header l) = Z.to_nat (length_ (hdr l))) by (unfold in_header; rewrite length_firstn; lia).
  destruct (decide (n ∈ in_header l)) as [In|Out].
  - pose proof (absorb_in _ _ In) as A. pose proof (lookup_lt_Some _ _ _ A) as B. rewrite Li in B.
    rewrite (proj2 (Z.eqb_neq _ _)) in E by lia. injection E as <- <-.
    unfold in_header in A. rewrite lookup_take_lt in A by (fold (in_header l); lia). rewrite list_set_insert, list_insert_id by exact A.
    destruct l as [? ? ? ? ? [? ?]]. auto.
  - rewrite (absorb_out _ _ Out), Li, Z2Nat.id, Z.eqb_refl in E by lia. apply bind_done in E as ([] & s2 & _ & E).
    injection E as <- <-. cbn [hdr with_hdr length_ blocks]. rewrite list_set_insert, length_insert.
    split; [reflexivity|]. split; [exact Lb|]. right. split; [exact Out|]. split; [reflexivity|].
    unfold in_header. cbn [hdr with_hdr length_ blocks]. rewrite Z2Nat.inj_add by lia. change (Z.to_nat 1) with 1%nat.
    rewrite Nat.add_1_r, (take_S_r _ _ n) by (apply list_lookup_insert_eq; lia). rewrite take_insert_ge by lia. reflexivity.
Qed.

Lemma commit_done l s l' s' : commit l s = Done l' s' -> 0 <= length_ (hdr l) -> l' = with_length l 0.
Proof.
  unfold commit. intros E B. destruct (Z.ltb_spec 0 (length_ (hdr l))) as [|Z0].
  - repeat (apply bind_done in E as (? & ? & _ & E)). injection E as <- _. reflexivity.
  - injection E as <- _. destruct l as [? ? ? ? ? [n ?]]. unfold with_length, with_hdr. cbn in *.
    replace n with 0 by lia. reflexivity.
Qed.

(** * The invariant *)

Section Quota.
Context (quota nlog : Z) (Q : 0 <= quota < max_num_operation_blocks) (Nl : log_size <= nlog < 2 ^ 32).

Record qinv (l : log) (ops : actives) : Prop := {
  qi_size : l_size l = nlog;
  qi_count : outstanding l = Z.of_nat (size ops);
  qi_free : is_commiting l = false;
  qi_blocks : length (blocks (hdr l)) = Z.to_nat log_size;
  qi_length : 0 <= length_ (hdr l);
  qi_logged p S n : ops !! p = Some S -> n ∈ S -> n ∈ in_header l;
  qi_quota p S : ops !! p = Some S -> Z.of_nat (size S) <= quota;
  qi_room : length_ (hdr l) + slack ops <= log_size;
  qi_last : size ops = 1%nat -> length_ (hdr l) + slack ops <= log_size - 1;
  qi_none : size ops = 0%nat -> length_ (hdr l) = 0;
}.

Lemma qinv_left l ops p S : qinv l ops -> ops !! p = Some S -> 1 <= left_of S.
Proof. intros I H. pose proof (qi_quota _ _ I _ _ H). unfold left_of. lia. Qed.

Lemma qinv_size l ops : qinv l ops -> 1 * Z.of_nat (size ops) <= slack ops.
Proof. intros I. apply slack_at_least. intros p S. apply (qinv_left _ _ _ _ I). Qed.

(** An operation may still log something, or has logged it. *)
Lemma qinv_write l ops p S n :
  qinv l ops -> ops !! p = Some S -> Z.of_nat (size ({[n]} ∪ S : gset Z)) <= quota ->
  length_ (hdr l) <= log_size - 2.
Proof.
  intros I H B. pose proof (slack_delete p S ops H) as Sl. pose proof (qinv_left _ _ _ _ I H) as Le.
  assert (Sz : size ops = Datatypes.S (size (delete p ops))).
  { rewrite <- (insert_id _ _ _ H), <- insert_delete_eq at 1. apply map_size_insert_None, lookup_delete_eq. }
  assert (1 * Z.of_nat (size (delete p ops)) <= slack (delete p ops)).
  { apply slack_at_least. intros q S' Hq. apply lookup_delete_Some in Hq as [_ Hq]. exact (qinv_left _ _ _ _ I Hq). }
  pose proof (qi_room _ _ I). pose proof (qi_last _ _ I). destruct (size (delete p ops)) as [|k]; lia.
Qed.

Lemma qinv_begin l l' ops p : qinv l ops -> ops !! p = None -> beginOperation l = Some l' -> qinv l' (<[p := ∅]> ops).
Proof.
  intros I Fr E. unfold beginOperation in E. destruct (_ || _) eqn:Or; [discriminate|]. injection E as <-.
  apply orb_false_elim in Or as [_ Or%Z.ltb_ge]. pose proof (qinv_size _ _ I) as Sz.
  assert (Up : slack ops <= 10 * Z.of_nat (size ops)).
  { clear - ops. induction ops as [|q S ops F IH] using map_ind; [unfold slack; rewrite map_fold_empty; lia|].
    rewrite slack_insert, map_size_insert_None by exact F. unfold left_of, max_num_operation_blocks. lia. }
  destruct I. rewrite qi_count0 in Or. unfold log_size, max_num_operation_blocks in *.
  split; cbn [l_size outstanding is_commiting hdr]; auto.
  - rewrite map_size_insert_None by exact Fr. lia.
  - intros q S n. rewrite lookup_insert. destruct (decide (p = q)); [intros [= <-] K; apply elem_of_empty in K; destruct K|].
    unfold in_header. cbn [hdr]. apply qi_logged0.
  - intros q S. rewrite lookup_insert. destruct (decide (p = q)); [intros [= <-]|apply qi_quota0].
    rewrite size_empty. cbn. lia.
  - rewrite slack_insert by exact Fr. unfold left_of, log_size, max_num_operation_blocks. rewrite size_empty. lia.
  - rewrite map_size_insert_None by exact Fr. intros [= S0]. rewrite slack_insert by exact Fr.
    unfold left_of, log_size, max_num_operation_blocks. rewrite size_empty. rewrite (qi_none0 S0). rewrite S0 in Up. lia.
  - rewrite map_size_insert_None by exact Fr. discriminate.
Qed.

Lemma qinv_log l l' ops p S n :
  qinv l ops -> ops !! p = Some S -> Z.of_nat (size ({[n]} ∪ S : gset Z)) <= quota ->
  l' = with_hdr l (hdr l') -> length (blocks (hdr l')) = Z.to_nat log_size ->
  (n ∈ in_header l) /\ hdr l' = hdr l \/
    (n ∉ in_header l) /\ length_ (hdr l') = length_ (hdr l) + 1 /\ in_header l' = in_header l ++ [n] ->
  qinv l' (<[p := {[n]} ∪ S]> ops).
Proof.
  intros I H B El Lb Or. assert (Sz : size (<[p := {[n]} ∪ S]> ops) = size ops) by (apply map_size_insert_Some; eauto).
  assert (Ge : (size S <= size ({[n]} ∪ S : gset Z))%nat) by (apply subseteq_size, union_subseteq_r).
  assert (Hs : length_ (hdr l') + slack (<[p := {[n]} ∪ S]> ops) <= length_ (hdr l) + slack ops).
  { rewrite (slack_update _ _ _ _ H). unfold left_of. destruct Or as [[_ ->]|(Out & -> & _)]; [lia|].
    rewrite size_union; [rewrite size_singleton; lia|]. apply disjoint_singleton_l. intros K. apply Out.
    exact (qi_logged _ _ I _ _ _ H K). }
  assert (Hd : forall m, m ∈ in_header l -> m ∈ in_header l').
  { intros m Hm. destruct Or as [[_ E]|(_ & _ & ->)]; [unfold in_header; rewrite E; exact Hm|apply elem_of_app; auto]. }
  assert (Hn : n ∈ in_header l').
  { destruct Or as [[K _]|(_ & _ & ->)]; [auto|]. apply elem_of_app. right. apply list_elem_of_singleton. reflexivity. }
  destruct I. split; rewrite ?Sz; try (rewrite El; exact qi_size0); try (rewrite El; exact qi_count0);
    try (rewrite El; exact qi_free0); auto.
  - destruct Or as [[_ ->]|(_ & -> & _)]; lia.
  - intros q S' m. rewrite lookup_insert. destruct (decide (p = q)); [|eauto]. intros [= <-].
    rewrite elem_of_union, elem_of_singleton. intros [->|K]; eauto.
  - intros q S'. rewrite lookup_insert. destruct (decide (p = q)); [intros [= <-]; exact B|eauto].
  - lia.
  - intros E. specialize (qi_last0 E). lia.
  - intros E. exfalso. apply map_size_empty_inv in E. rewrite E, lookup_empty in H. discriminate.
Qed.

Lemma qinv_end l l' ops p S s s' :
  qinv l ops -> ops !! p = Some S -> endOperation l s = Done l' s' -> qinv l' (delete p ops).
Proof.
  intros I H E. pose proof (qinv_left _ _ _ _ I H) as Le. pose proof (slack_delete _ _ _ H) as Sl.
  assert (Sz : size ops = Datatypes.S (size (delete p ops))).
  { rewrite <- (insert_id _ _ _ H), <- insert_delete_eq at 1. apply map_size_insert_None, lookup_delete_eq. }
  pose proof (qinv_size _ _ I) as Low. destruct I. unfold endOperation in E. cbn [is_commiting outstanding] in E.
  rewrite qi_free0, qi_count0 in E. unfold log_size, max_num_operation_blocks in *.
  rewrite u32_small in E by lia. cbn iota in E.
  destruct (Z.eqb_spec (Z.of_nat (size ops) - 1) 0) as [Z0|Nz].
  - apply bind_done in E as (l1 & s1 & E & R). injection R as <- _. apply commit_done in E; [|exact qi_length0]. subst l1.
    assert (S0 : size (delete p ops) = 0%nat) by lia. pose proof (map_size_empty_inv _ S0) as Em.
    split; cbn [l_size outstanding is_commiting hdr with_length with_hdr length_ blocks]; rewrite ?S0, ?Em; auto; try lia.
    + intros q S' m Hq. rewrite lookup_empty in Hq. discriminate.
    + intros q S' Hq. rewrite lookup_empty in Hq. discriminate.
    + unfold slack, log_size, max_num_operation_blocks. rewrite map_fold_empty. lia.
  - injection E as <- _. split; cbn [l_size outstanding is_commiting hdr]; unfold log_size, max_num_operation_blocks; auto.
    + lia.
    + intros q S' m Hq. apply lookup_delete_Some in Hq as [_ Hq]. exact (qi_logged0 _ _ _ Hq).
    + intros q S' Hq. apply lookup_delete_Some in Hq as [_ Hq]. eauto.
    + lia.
    + intros _. lia.
    + lia.
Qed.

Lemma qreach_inv l0 x :
  qinv l0 ∅ -> qreach quota l0 x -> qinv x.1.1 x.1.2.
Proof.
  intros I0 R. induction R as [s|x y R IH T]; [exact I0|].
  destruct T as [p l l' ops s Fr E|p S l l' ops s s' i b H L B E|p S l l' ops s s' H E|l ops s s']; cbn [fst snd] in *.
  - eapply qinv_begin; eauto.
  - destruct (write_done _ _ _ _ _ _ L (qi_blocks _ _ IH) (qi_length _ _ IH) E) as (El & Lb & Or).
    eapply qinv_log; eauto.
  - eapply qinv_end; eauto.
  - exact IH.
Qed.
End Quota.

(** * A log that overflows *)

(** The cache with thirty blocks of the disk in it, and the log of the image
    that the build makes: 30 blocks from block 2 on. *)
Definition full_cache : cache :=
  Cache (List.map (fun k => Buffer true (DB (100 + Z.of_nat k) 18) 1 zero_block) (seq 0 NBUF)) (seq 0 NBUF).
Definition machine0 : st := St ∅ None full_cache.
Definition log0 : log := Log 2 log_size 0 false 18 (Header 0 (replicate 30 0)).

(** Operation [p] logs the blocks of the buffers [ks]. *)
Fixpoint log_all (p : nat) (ks : list nat) (x : log * actives * st) : option (log * actives * st) :=
  match ks with
  | [] => Some x
  | i :: ks =>
      let '(l, ops, s) := x in
      match ops !! p, buffer_array (bcache s) !! i with
      | Some sp, Some b =>
          if Z.of_nat (size ({[number (bblock b)]} ∪ sp)) <=? 10 then
            match Fslog.write l i s with
            | Done l' s' => log_all p ks (l', <[p := {[number (bblock b)]} ∪ sp]> ops, s')
            | _ => None
            end
          else None
      | _, _ => None
      end
  end.

Lemma log_all_reach l0 p ks : forall x y, qreach 10 l0 x -> log_all p ks x = Some y -> qreach 10 l0 y.
Proof.
  induction ks as [|i ks IH]; intros [[l ops] s] y R E; cbn in E; [injection E as <-; exact R|].
  destruct (ops !! p) as [S|] eqn:H; [|discriminate]. destruct (_ !! i) as [b|] eqn:L; [|discriminate].
  destruct (Z.leb_spec (Z.of_nat (size ({[number (bblock b)]} ∪ S))) 10) as [B|]; [|discriminate].
  destruct (Fslog.write l i s) as [l' s'| |] eqn:W; try discriminate.
  eapply IH; [|exact E]. eapply q_next; [exact R|]. eapply q_write; eauto.
Qed.

Definition begun (x : log * actives * st) (p : nat) : option (log * actives * st) :=
  let '(l, ops, s) := x in
  match ops !! p, beginOperation l with
  | None, Some l' => Some (l', <[p := ∅]> ops, s)
  | _, _ => None
  end.

Lemma begun_reach l0 x p y : qreach 10 l0 x -> begun x p = Some y -> qreach 10 l0 y.
Proof.
  destruct x as [[l ops] s]. cbn. intros R E. destruct (ops !! p) eqn:H; [discriminate|].
  destruct (beginOperation l) as [l'|] eqn:B; [|discriminate]. injection E as <-.
  eapply q_next; [exact R|]. apply q_begin; assumption.
Qed.

(** Three operations, of which two have logged ten blocks each and the third nine. *)
Definition crowded : option (log * actives * st) :=
  x ← begun (log0, ∅, machine0) 1%nat; x ← begun x 2%nat; x ← begun x 3%nat;
  x ← log_all 1 (seq 0 10) x; x ← log_all 2 (seq 10 10) x; log_all 3 (seq 20 9) x.

Lemma crowded_reach x : crowded = Some x -> qreach 10 log0 x.
Proof.
  unfold crowded. intros E. repeat (apply bind_Some in E as (? & ? & E)).
  repeat (eapply log_all_reach; [|eassumption]). repeat (eapply begun_reach; [|eassumption]). apply q_init.
Qed.

(** In it, the third operation cannot log its tenth block. *)
Definition stopped (x : option (log * actives * st)) : bool :=
  match x with
  | Some (l, ops, s) =>
      match ops !! 3%nat, buffer_array (bcache s) !! 29%nat with
      | Some sp, Some b =>
          (Z.of_nat (size ({[number (bblock b)]} ∪ sp)) <=? max_num_operation_blocks) &&
          match Fslog.write l 29 s with Panicked => true | _ => false end
      | _, _ => false
      end
  | None => false
  end.

Lemma crowded_stopped : stopped crowded = true.
Proof. vm_compute. reflexivity. Qed.

(** C35: the space that beginOperation reserves in the log.  As long as every
    operation logs at most nine different blocks, no call of write panics, with
    any operations in progress and whatever else the machine does meanwhile.
    The ten blocks that max_num_operation_blocks grants are one too many for the
    log the file system ks made with: three operations that keep to them can
    reach a state in which the next write of a block within the limit stops the
    kernel ("too big a transaction"). *)
Theorem log_reservation quota nlog l0 :
  0 <= quota < max_num_operation_blocks -> log_size <= nlog < 2 ^ 32 ->
  l_size l0 = nlog -> outstanding l0 = 0 -> is_commiting l0 = false -> length_ (hdr l0) = 0 ->
  length (blocks (hdr l0)) = Z.to_nat log_size ->
  (forall l ops s p S i b, qreach quota l0 (l, ops, s) -> ops !! p = Some S ->
     buffer_array (bcache s) !! i = Some b -> Z.of_nat (size ({[number (bblock b)]} ∪ S : gset Z)) <= quota ->
     exists l' s', Fslog.write l i s = Done l' s') /\
  exists l ops s p S i b, qreach max_num_operation_blocks log0 (l, ops, s) /\ ops !! p = Some S /\
    buffer_array (bcache s) !! i = Some b /\
    Z.of_nat (size ({[number (bblock b)]} ∪ S : gset Z)) <= max_num_operation_blocks /\
    Fslog.write l i s = Panicked.
Proof.
  intros Q Nl E1 E2 E3 E4 E5. split.
  - intros l ops s p S i b R H L B.
    assert (I0 : qinv quota nlog l0 ∅).
    { split; auto; rewrite ?E4, ?map_size_empty; unfold slack; rewrite ?map_fold_empty; try lia;
        try (intros ? ? K; rewrite lookup_empty in K; discriminate);
        try (intros ? ? ? K; rewrite lookup_empty in K; discriminate);
        unfold log_size, max_num_operation_blocks; lia. }
    pose proof (qreach_inv quota nlog Q l0 _ I0 R) as I. cbn [fst snd] in I.
    pose proof (qinv_write quota nlog Q l ops p S _ I H B) as Len. pose proof (qi_size _ _ _ _ I).
    pose proof (qi_count _ _ _ _ I) as C. unfold Fslog.write.
    rewrite (proj2 (Z.leb_gt log_size _)) by lia.
    rewrite (proj2 (Z.leb_gt (u32 _) _)) by (rewrite u32_small; unfold log_size, max_num_operation_blocks in *; lia).
    assert (Ne : size ops <> 0%nat).
    { intros K. apply map_size_empty_inv in K. rewrite K, lookup_empty in H. discriminate. }
    rewrite (proj2 (Z.ltb_ge _ _)) by lia. cbn [orb]. unfold mbind, io_bind, get at 1. rewrite L.
    destruct (_ =? _); [|eexists _, _; reflexivity]. unfold pin. rewrite (update_at _ _ _ _ L). eexists _, _. reflexivity.
  - pose proof crowded_stopped as St. destruct crowded as [[[l ops] s]|] eqn:Cr; [|discriminate]. cbn [stopped] in St.
    destruct (ops !! 3%nat) as [S|] eqn:H; [|discriminate]. destruct (_ !! 29%nat) as [b|] eqn:L; [|discriminate].
    apply andb_true_iff in St as [B%Z.leb_le W]. exists l, ops, s, 3%nat, S, 29%nat, b.
    split; [exact (crowded_reach _ Cr)|]. split; [exact H|]. split; [exact L|]. split; [exact B|].
    destruct (Fslog.write l 29 s); [discriminate|discriminate|reflexivity].
Qed.

Lemma log_reservation_witness :
  0 <= 9 < max_num_operation_blocks /\
  exists l ops s p S i b, qreach max_num_operation_blocks log0 (l, ops, s) /\ ops !! p = Some S /\
    buffer_array (bcache s) !! i = Some b /\
    Z.of_nat (size ({[number (bblock b)]} ∪ S : gset Z)) <= max_num_operation_blocks /\
    Fslog.write l i s = Panicked.
Proof.
  split; [vm_compute; split; [discriminate|reflexivity]|].
  apply (log_reservation 9 log_size log0).
  - vm_compute. split; [discriminate|reflexivity].
  - vm_compute. split; [discriminate|reflexivity].
  - reflexivity.
  - reflexivity.
  - reflexivity.
  - reflexivity.
  - reflexivity.
Defined.
