(* ===== verification/Pipe.v ===== *)
(** Pipes: src/kernel/filesystem/pipe.zig, with the sleeping and waking of the
    processes that use one.

    A process holds the lock of the pipe from where a call begins, or wakes up,
    to where it sleeps or returns; that stretch is one turn.  [write_turn] and
    [read_turn] are the loops of the code; they give the outcome, the pipe, and
    the bytes that were moved.  An addition of the counters that overflows their
    32 bits is illegal in Zig, [Illegal] here.  The flag that a process has been
    killed may change while it runs: it is asked for at each test. *)

From S2P Require Import Prelude Mem.
From stdpp Require Import base gmap list.
From S2P Require Import Boundary.

Local Open Scope Z_scope.

Definition pipe_size : Z := 512.

Record pipe : Type := Pipe {
  data : list Z; read_count : Z; write_count : Z; read_is_open : bool; write_is_open : bool
}.

Definition new_pipe (garbage : list Z) : pipe := Pipe garbage 0 0 true true.

Definition add32 (a b : Z) : option Z := if a + b <? 2 ^ 32 then Some (a + b) else None.
Definition sub32 (a b : Z) : option Z := if b <=? a then Some (a - b) else None.

Variant outcome : Type :=
| Returned (n : Z)
| PipeReadIsClosed
| ProcessKilled
| Sleeps (n : Z)      (* with the bytes moved so far *)
| Illegal.

(** * Writing *)

Fixpoint write_turn (fuel : nat) (tr : translation) (pm : mem) (killed : nat -> bool) (address count written : Z) (p : pipe)
  : outcome * pipe * list Z :=
  match fuel with
  | O => (Illegal, p, [])
  | S fuel =>
      if negb (written <? count) then (Returned written, p, [])
      else if negb (read_is_open p) then (PipeReadIsClosed, p, [])
      else if killed fuel then (ProcessKilled, p, [])
      else
        match add32 (read_count p) pipe_size, sub32 (write_count p) (read_count p) with
        | Some full, Some used =>
            if write_count p =? full then (Sleeps written, p, [])
            else
              match sub32 pipe_size used with
              | None => (Illegal, p, [])
              | Some available_space =>
                  let bytes_to_write := Z.min available_space (count - written) in
                  let write_position := write_count p mod pipe_size in
                  let chunked_write_count := Z.min (pipe_size - write_position) bytes_to_write in
                  let '(bytes, ok) := copyIn tr pm (address + written) (Z.to_nat chunked_write_count) in
                  let d := splice (data p) (Z.to_nat write_position) bytes in
                  if ok then
                    match add32 (write_count p) chunked_write_count with
                    | None => (Illegal, p, [])
                    | Some wc =>
                        let '(r, p, moved) := write_turn fuel tr pm killed address count (written + chunked_write_count)
                          (Pipe d (read_count p) wc (read_is_open p) (write_is_open p)) in
                        (r, p, bytes ++ moved)
                    end
                  else (Returned written, Pipe d (read_count p) (write_count p) (read_is_open p) (write_is_open p), [])
              end
        | _, _ => (Illegal, p, [])
        end
  end.

(** * Reading *)

(** The loop after the wait; memory comes back with the bytes delivered. *)
Fixpoint read_loop (fuel : nat) (tr : translation) (pm : mem) (address count nread : Z) (p : pipe)
  : outcome * pipe * mem * list Z :=
  match fuel with
  | O => (Illegal, p, pm, [])
  | S fuel =>
      if negb (nread <? count) then (Returned nread, p, pm, [])
      else
        match sub32 (write_count p) (read_count p) with
        | None => (Illegal, p, pm, [])
        | Some bytes_remaining =>
            if bytes_remaining =? 0 then (Returned nread, p, pm, [])
            else
              let bytes_to_read := Z.min bytes_remaining (count - nread) in
              let read_position := read_count p mod pipe_size in
              let chunked_read_count := Z.min (pipe_size - read_position) bytes_to_read in
              let bytes := firstn (Z.to_nat chunked_read_count) (skipn (Z.to_nat read_position) (data p)) in
              let '(pm, ok) := copyOut tr pm (address + nread) bytes in
              if ok then
                match add32 (read_count p) chunked_read_count with
                | None => (Illegal, p, pm, [])
                | Some rc =>
                    let '(r, p, pm, moved) := read_loop fuel tr pm address count (nread + chunked_read_count)
                      (Pipe (data p) rc (write_count p) (read_is_open p) (write_is_open p)) in
                    (r, p, pm, bytes ++ moved)
                end
              else (Returned nread, p, pm, [])
        end
  end.

Definition read_turn (fuel : nat) (tr : translation) (pm : mem) (killed : bool) (address count : Z) (p : pipe)
  : outcome * pipe * mem * list Z :=
  if (read_count p =? write_count p) && write_is_open p then
    if killed then (ProcessKilled, p, pm, []) else (Sleeps 0, p, pm, [])
  else read_loop fuel tr pm address count 0 p.

(** [close]: the pipe, and whether its page is freed. *)
Definition close (p : pipe) (close_write : bool) : pipe * bool :=
  let p :=
    if close_write then Pipe (data p) (read_count p) (write_count p) (read_is_open p) false
    else Pipe (data p) (read_count p) (write_count p) false (write_is_open p) in
  (p, negb (read_is_open p) && negb (write_is_open p)).

(** * Processes on a pipe *)

(** What a process asked for; [CallW] with the bytes written before it slept. *)
Variant call : Type :=
| CallW (tr : translation) (address count written : Z)
| CallR (tr : translation) (address count : Z).

(** The channels are the addresses of the two counters. *)
Variant chan : Type := at_read_count | at_write_count.
#[export] Instance chan_eq_dec : EqDecision chan.
Proof. solve_decision. Defined.

(** The processes in a call on the pipe, each with the channel it sleeps on. *)
Record sys : Type := Sys { s_pipe : pipe; s_calls : gmap nat (call * option chan) }.

Definition wakeup (c : chan) (calls : gmap nat (call * option chan)) : gmap nat (call * option chan) :=
  (fun x => (x.1, if decide (x.2 = Some c) then None else x.2)) <$> calls.

Definition is_write (c : call) : bool := match c with CallW _ _ _ _ => true | CallR _ _ _ => false end.

Variant event : Type :=
| Put (pid : nat) (bytes : list Z)
| Got (pid : nat) (bytes : list Z)
| Ret (pid : nat) (o : outcome)
| Other.

Definition turn_fuel (n : Z) : nat := S (Z.to_nat n).

(** The processes after a turn of [write]. *)
Definition after_write (pid : nat) (tr : translation) (address count : Z) (o : outcome) (calls : gmap nat (call * option chan)) :=
  match o with
  | Sleeps n => <[pid := (CallW tr address count n, Some at_write_count)]> (wakeup at_read_count calls)
  | Returned _ => delete pid (wakeup at_read_count calls)
  | _ => delete pid calls
  end.

Definition after_read (pid : nat) (tr : translation) (address count : Z) (o : outcome) (calls : gmap nat (call * option chan)) :=
  match o with
  | Sleeps _ => <[pid := (CallR tr address count, Some at_read_count)]> calls
  | Returned _ => delete pid (wakeup at_write_count calls)
  | _ => delete pid calls
  end.

(** [kills] says whether processes may be killed.  A process in a call holds the
    end it uses open: the other processes can close it only for themselves. *)
Inductive pstep (kills : bool) : sys -> list event -> sys -> Prop :=
| p_write_call pid tr address count p calls :
    calls !! pid = None -> 0 <= count < 2 ^ 32 -> write_is_open p = true ->
    pstep kills (Sys p calls) [Other] (Sys p (<[pid := (CallW tr address count 0, None)]> calls))
| p_read_call pid tr address count p calls :
    calls !! pid = None -> 0 <= count < 2 ^ 32 -> read_is_open p = true ->
    pstep kills (Sys p calls) [Other] (Sys p (<[pid := (CallR tr address count, None)]> calls))
| p_write pid tr pm killed address count written p calls o p' moved :
    calls !! pid = Some (CallW tr address count written, None) -> (kills = false -> forall i, killed i = false) ->
    write_turn (turn_fuel (count - written)) tr pm killed address count written p = (o, p', moved) -> o <> Illegal ->
    pstep kills (Sys p calls) [Put pid moved; Ret pid o] (Sys p' (after_write pid tr address count o calls))
| p_read pid tr pm killed address count p calls o p' pm' moved :
    calls !! pid = Some (CallR tr address count, None) -> (kills = false -> killed = false) ->
    read_turn (turn_fuel count) tr pm killed address count p = (o, p', pm', moved) -> o <> Illegal ->
    pstep kills (Sys p calls) [Got pid moved; Ret pid o] (Sys p' (after_read pid tr address count o calls))
| p_close w p calls p' b :
    (forall pid c, calls !! pid = Some c -> is_write c.1 = negb w) -> close p w = (p', b) ->
    pstep kills (Sys p calls) [Other] (Sys p' (wakeup (if w then at_read_count else at_write_count) calls))
| p_kill pid c p calls :
    kills = true -> calls !! pid = Some c ->
    pstep kills (Sys p calls) [Other] (Sys p (<[pid := (c.1, None)]> calls)).

Inductive preach (kills : bool) (s0 : sys) : list event -> sys -> Prop :=
| p_start : preach kills s0 [] s0
| p_next t s e s' : preach kills s0 t s -> pstep kills s e s' -> preach kills s0 (t ++ e) s'.

(** The bytes that went in, and the bytes that came out. *)
Definition put_bytes_of (t : list event) : list Z :=
  mjoin (List.map (fun e => match e with Put _ l => l | _ => [] end) t).
Definition got_bytes_of (t : list event) : list Z :=
  mjoin (List.map (fun e => match e with Got _ l => l | _ => [] end) t).
