(* ===== verification/PipeSpec.v ===== *)
(** What a pipe promises: a turn of read or write is an operation on a queue of at
    most 512 bytes, bytes come out as they went in, and no process sleeps when it
    could go on. *)

From S2P Require Import Prelude Mem.
From stdpp Require Import base gmap list.
From S2P Require Import Boundary Pipe.

Local Open Scope Z_scope.
Local Open Scope zm_scope.

(** * The queue in the buffer *)

Definition used (p : pipe) : nat := Z.to_nat (write_count p - read_count p).

(** The bytes of a buffer from counter [rc] on. *)
Fixpoint ring (d : list Z) (rc : Z) (n : nat) : list Z :=
  match n with
  | O => []
  | S n => nth (Z.to_nat (rc mod pipe_size)) d 0 :: ring d (rc + 1) n
  end.

Definition contents (p : pipe) : list Z := ring (data p) (read_count p) (used p).

Record wf (p : pipe) : Prop := {
  wf_data : length (data p) = Z.to_nat pipe_size;
  wf_counts : 0 <= read_count p <= write_count p;
  wf_full : write_count p <= read_count p + pipe_size;
  wf_width : write_count p < 2 ^ 32;
}.

Lemma contents_length p : length (contents p) = used p.
Proof. unfold contents. generalize (read_count p). induction (used p); intros rc; cbn; auto. Qed.

Lemma ring_app d n k : forall rc, ring d rc (n + k) = ring d rc n ++ ring d (rc + Z.of_nat n) k.
Proof.
  induction n as [|n IH]; intros rc; cbn [Nat.add ring app]; [rewrite Z.add_0_r; reflexivity|].
  rewrite IH. do 3 f_equal. lia.
Qed.

Lemma ring_ext d d' n : forall rc,
  (forall i, 0 <= i < Z.of_nat n -> nth (Z.to_nat ((rc + i) mod pipe_size)) d 0 = nth (Z.to_nat ((rc + i) mod pipe_size)) d' 0) ->
  ring d rc n = ring d' rc n.
Proof.
  induction n as [|n IH]; intros rc H; cbn [ring]; [reflexivity|]. f_equal.
  - specialize (H 0 ltac:(lia)). rewrite Z.add_0_r in H. exact H.
  - apply IH. intros i B. replace (rc + 1 + i) with (rc + (i + 1)) by lia. apply H. lia.
Qed.

(** A run of the ring that does not wrap is a slice of the buffer. *)
Lemma ring_slice d n : forall rc,
  rc mod pipe_size + Z.of_nat n <= pipe_size -> length d = Z.to_nat pipe_size ->
  ring d rc n = firstn n (skipn (Z.to_nat (rc mod pipe_size)) d).
Proof.
  unfold pipe_size. induction n as [|n IH]; intros rc B L; cbn [ring]; [reflexivity|].
  pose proof (Z.mod_pos_bound rc 512 ltac:(lia)).
  rewrite (skipn_nth_cons _ _ 0) by lia. cbn [firstn]. f_equal. destruct n as [|n]; [reflexivity|].
  assert (E : (rc + 1) mod 512 = rc mod 512 + 1) by (Z.to_euclidean_division_equations; lia).
  rewrite IH by (rewrite ?E; lia). rewrite E. do 2 f_equal. lia.
Qed.

Lemma contents_put p bytes wc :
  wf p -> let n := len bytes in
  write_count p mod pipe_size + n <= pipe_size -> write_count p + n <= read_count p + pipe_size ->
  wc = write_count p + n -> wc < 2 ^ 32 ->
  let p' := Pipe (splice (data p) (Z.to_nat (write_count p mod pipe_size)) bytes) (read_count p) wc
    (read_is_open p) (write_is_open p) in
  wf p' /\ contents p' = contents p ++ bytes.
Proof.
  intros [Ld Cn Fu Wd] n B1 B2 -> B3 p'. unfold pipe_size in *. set (pos := write_count p mod 512) in *.
  pose proof (Z.mod_pos_bound (write_count p) 512 ltac:(lia)) as Bp. fold pos in Bp.
  assert (Ls : length (data p') = 512%nat) by (cbn; rewrite splice_length; lia).
  split; [split; cbn [read_count write_count p']; unfold pipe_size; lia|].
  unfold contents, used. cbn [read_count write_count data p'].
  replace (Z.to_nat (write_count p + n - read_count p)) with (Z.to_nat (write_count p - read_count p) + length bytes)%nat by lia.
  rewrite ring_app. f_equal.
  - apply ring_ext. intros i Bi. unfold pipe_size. rewrite splice_nth by lia.
    destruct (_ && _) eqn:E; [|reflexivity]. apply andb_prop in E as [E1%Nat.leb_le E2%Nat.ltb_lt]. exfalso.
    subst pos. Z.to_euclidean_division_equations. lia.
  - rewrite Z2Nat.id by lia. replace (read_count p + (write_count p - read_count p)) with (write_count p) by lia.
    rewrite ring_slice by (unfold pipe_size; auto). unfold pipe_size. fold pos. unfold splice.
    rewrite skipn_app, length_firstn. replace (Nat.min (Z.to_nat pos) (length (data p))) with (Z.to_nat pos) by lia.
    rewrite Nat.sub_diag. rewrite skipn_all2 by (rewrite length_firstn; lia). cbn [app skipn].
    rewrite drop_0, take_app_length. reflexivity.
Qed.

Lemma contents_take p n rc :
  wf p -> read_count p mod pipe_size + Z.of_nat n <= pipe_size -> read_count p + Z.of_nat n <= write_count p ->
  rc = read_count p + Z.of_nat n ->
  let p' := Pipe (data p) rc (write_count p) (read_is_open p) (write_is_open p) in
  wf p' /\ contents p = firstn n (skipn (Z.to_nat (read_count p mod pipe_size)) (data p)) ++ contents p'.
Proof.
  intros [Ld Cn Fu Wd] B1 B2 -> p'. split; [split; cbn; lia|]. unfold contents, used. cbn [read_count write_count data p'].
  replace (Z.to_nat (write_count p - read_count p)) with
    (n + Z.to_nat (write_count p - (read_count p + Z.of_nat n)))%nat by lia.
  rewrite ring_app, ring_slice by auto. reflexivity.
Qed.

(** * The turns *)

Lemma add32_ok a b : a + b < 2 ^ 32 -> add32 a b = Some (a + b).
Proof. intros H. unfold add32. rewrite (proj2 (Z.ltb_lt _ _)) by exact H. reflexivity. Qed.
Lemma sub32_ok a b : b <= a -> sub32 a b = Some (a - b).
Proof. intros H. unfold sub32. rewrite (proj2 (Z.leb_le _ _)) by exact H. reflexivity. Qed.
Lemma add32_some a b c : add32 a b = Some c -> c = a + b /\ c < 2 ^ 32.
Proof. unfold add32. destruct (Z.ltb_spec (a + b) (2 ^ 32)); [intros [= <-]; auto|discriminate]. Qed.

Lemma bytes_in_length tr pm n : forall v, (length (fst (bytes_in tr pm v n)) <= n)%nat /\
  (snd (bytes_in tr pm v n) = true -> length (fst (bytes_in tr pm v n)) = n).
Proof.
  induction n as [|n IH]; intros v; cbn [bytes_in]; [auto|]. destruct (place tr v); [|cbn; split; [lia|discriminate]].
  destruct (IH (v + 1)) as [I1 I2]. destruct (bytes_in tr pm (v + 1) n) as [l ok]. cbn in *. split; [lia|]. intros E. rewrite I2; auto.
Qed.

Lemma bytes_in_join tr pm n k v l l' :
  bytes_in tr pm v n = (l, true) -> bytes_in tr pm (v + Z.of_nat n) k = (l', true) ->
  bytes_in tr pm v (n + k) = (l ++ l', true).
Proof.
  revert v l. induction n as [|n IH]; intros v l; cbn [bytes_in Nat.add].
  - intros [= <-]. rewrite Z.add_0_r. auto.
  - destruct (place tr v); [|discriminate]. destruct (bytes_in tr pm (v + 1) n) as [m ok] eqn:E. intros [= <- ->] E'.
    rewrite (IH _ _ E); [reflexivity|]. rewrite <- E'. f_equal. lia.
Qed.

(** Bytes that are not counted may be written beyond the queue. *)
Lemma contents_scratch p bytes :
  wf p -> write_count p mod pipe_size + len bytes <= pipe_size -> write_count p + len bytes <= read_count p + pipe_size ->
  let p' := Pipe (splice (data p) (Z.to_nat (write_count p mod pipe_size)) bytes) (read_count p) (write_count p)
    (read_is_open p) (write_is_open p) in
  wf p' /\ contents p' = contents p.
Proof.
  intros W B1 B2 p'. pose proof W as [Ld Cn Fu Wd]. pose proof (Z.mod_pos_bound (write_count p) pipe_size ltac:(reflexivity)).
  split; [split; cbn; auto; rewrite splice_length; lia|].
  unfold contents, used. cbn [read_count write_count data p']. apply ring_ext. intros i Bi.
  rewrite splice_nth by lia. destruct (_ && _) eqn:E; [|reflexivity]. apply andb_prop in E as [E1%Nat.leb_le E2%Nat.ltb_lt].
  exfalso. unfold pipe_size in *. Z.to_euclidean_division_equations. lia.
Qed.

Record turn_of (p p' : pipe) : Prop := {
  to_wf : wf p';
  to_read : read_is_open p' = read_is_open p;
  to_write : write_is_open p' = write_is_open p;
}.

Lemma turn_refl p : wf p -> turn_of p p.
Proof. split; auto. Qed.

(** Some of the [n] addresses from [v] on are not mapped. *)
Definition unmapped (tr : translation) (v n : Z) : Prop := exists i, 0 <= i < n /\ place tr (v + i) = None.

Lemma bytes_in_fail tr pm n : forall v, snd (bytes_in tr pm v n) = false -> unmapped tr v (Z.of_nat n).
Proof.
  induction n as [|n IH]; intros v H; cbn [bytes_in] in *; [discriminate|]. destruct (place tr v) as [p|] eqn:P.
  - specialize (IH (v + 1)). destruct (bytes_in tr pm (v + 1) n). destruct (IH H) as (i & B & E).
    exists (i + 1). split; [lia|]. replace (v + (i + 1)) with (v + 1 + i) by lia. exact E.
  - exists 0. split; [lia|]. rewrite Z.add_0_r. exact P.
Qed.

Lemma bytes_out_fail tr l : forall pm v, snd (bytes_out tr pm v l) = false -> unmapped tr v (len l).
Proof.
  induction l as [|b l IH]; intros pm v H; cbn [bytes_out length] in *; [discriminate|]. destruct (place tr v) as [p|] eqn:P.
  - destruct (IH _ _ H) as (i & B & E). exists (i + 1). split; [lia|].
    replace (v + (i + 1)) with (v + 1 + i) by lia. exact E.
  - exists 0. split; [lia|]. rewrite Z.add_0_r. exact P.
Qed.

Lemma unmapped_more tr v n m : unmapped tr v n -> n <= m -> unmapped tr v m.
Proof. intros (i & B & E) L. exists i. split; [lia|exact E]. Qed.

Lemma copyIn_bytes tr pm v n : copyIn tr pm v n = bytes_in tr pm v n.
Proof. apply copyIn_loop_bytes. lia. Qed.

(** What one turn of [write] does from [written] on. *)
Definition wrote (tr : translation) (pm : mem) (killed : nat -> bool) (address count written : Z) (p p' : pipe)
  (o : outcome) (moved : list Z) : Prop :=
  turn_of p p' /\ contents p' = contents p ++ moved /\
  bytes_in tr pm (address + written) (length moved) = (moved, true) /\
  read_count p' = read_count p /\ write_count p' = write_count p + len moved /\
  len moved <= Z.max 0 (count - written) /\
  match o with
  | Returned n => n = written + len moved /\
      (n < count -> unmapped tr (address + n) (count - n))
  | Sleeps n => n = written + len moved /\ n < count /\ len (contents p') = pipe_size /\ read_is_open p = true
  | PipeReadIsClosed => read_is_open p = false /\ moved = []
  | ProcessKilled => exists i, killed i = true
  | Illegal => 2 ^ 32 <= read_count p + pipe_size
  end.

Lemma wrote_nothing tr pm killed address count written p o :
  wf p ->
  match o with
  | Returned n => n = written /\ (n < count -> unmapped tr (address + n) (count - n))
  | Sleeps n => n = written /\ n < count /\ len (contents p) = pipe_size /\ read_is_open p = true
  | PipeReadIsClosed => read_is_open p = false
  | ProcessKilled => exists i, killed i = true
  | Illegal => 2 ^ 32 <= read_count p + pipe_size
  end -> wrote tr pm killed address count written p p o [].
Proof.
  intros W H. unfold wrote. cbn [length]. rewrite Z.add_0_r, app_nil_r. change (Z.of_nat 0) with 0.
  rewrite !Z.add_0_r. split; [apply turn_refl, W|]. do 4 (split; [auto; lia|]). split; [lia|].
  destruct o; auto.
Qed.

Lemma write_turn_spec tr pm killed address count fuel : forall written p o p' moved,
  wf p -> 0 <= written -> Z.max 0 (count - written) < Z.of_nat fuel ->
  write_turn fuel tr pm killed address count written p = (o, p', moved) ->
  wrote tr pm killed address count written p p' o moved.
Proof.
  induction fuel as [|fuel IH]; intros written p o p' moved W Bw F E; cbn [write_turn] in E; [lia|].
  pose proof W as [Ld Cn Fu Wd]. destruct (Z.ltb_spec written count) as [Lt|Ge]; cbn [negb] in E.
  2:{ injection E as <- <- <-. apply wrote_nothing; [exact W|]. split; [reflexivity|lia]. }
  destruct (read_is_open p) eqn:Ro; cbn [negb] in E; [|injection E as <- <- <-; apply wrote_nothing; auto].
  destruct (killed fuel) eqn:Kl; [injection E as <- <- <-; apply wrote_nothing; eauto|].
  destruct (add32 (read_count p) pipe_size) as [full|] eqn:A.
  2:{ injection E as <- <- <-. apply wrote_nothing; [exact W|]. unfold add32 in A.
    destruct (Z.ltb_spec (read_count p + pipe_size) (2 ^ 32)); [discriminate|lia]. }
  apply add32_some in A as [-> Fb]. rewrite sub32_ok in E by lia.
  destruct (Z.eqb_spec (write_count p) (read_count p + pipe_size)) as [Eq|Ne].
  { injection E as <- <- <-. apply wrote_nothing; [exact W|]. rewrite contents_length. unfold used.
    split; [reflexivity|]. split; [exact Lt|]. split; [unfold pipe_size in *; lia|exact Ro]. }
  rewrite sub32_ok in E by lia. cbv zeta in E.
  set (pos := write_count p mod pipe_size) in *. set (chunk := Z.min (pipe_size - pos) _) in E.
  assert (Bp : 0 <= pos < pipe_size) by (apply Z.mod_pos_bound; reflexivity).
  assert (Bc : 0 < chunk <= count - written /\ chunk <= pipe_size - pos /\ write_count p + chunk <= read_count p + pipe_size)
    by (subst chunk; lia).
  rewrite copyIn_bytes in E. destruct (bytes_in tr pm (address + written) (Z.to_nat chunk)) as [bytes ok] eqn:Ci.
  pose proof (bytes_in_length tr pm (Z.to_nat chunk) (address + written)) as [L1 L2]. rewrite Ci in L1, L2. cbn [fst snd] in L1, L2.
  destruct ok.
  - specialize (L2 eq_refl). rewrite add32_ok in E by lia.
    destruct (contents_put p bytes (write_count p + chunk) W) as [W' C']; [fold pos; lia|lia|lia|lia|].
    fold pos in W', C'. rewrite Ro in W', C'. set (p1 := Pipe _ _ _ _ _) in *. destruct (write_turn fuel _ _ _ _ _ _ _) as [[o1 p2] moved1] eqn:Er.
    injection E as <- <- <-. destruct (IH (written + chunk) p1 o1 p2 moved1 W' ltac:(lia) ltac:(lia) Er) as ([T1 T2 T3] & C & By & Rc & Wc & Lm & O).
    unfold wrote. rewrite length_app. split; [split; [exact T1|cbn in T2; congruence|exact T3]|].
    split; [rewrite C, C', app_assoc; reflexivity|].
    split.
    { rewrite L2. apply bytes_in_join; [exact Ci|]. rewrite <- By. f_equal. lia. }
    split; [exact Rc|]. cbn in Wc. split; [rewrite Wc; lia|]. split; [lia|].
    destruct o1; auto.
    + destruct O as [-> O]. split; [lia|]. exact O.
    + destruct O as [O _]. discriminate O.
    + destruct O as (-> & Lt' & Fl & _). split; [lia|]. auto.
  - destruct (contents_scratch p bytes W) as [W' C']; [fold pos; lia|lia|]. fold pos in W', C'.
    rewrite Ro in W', C'. injection E as <- <- <-. unfold wrote. cbn [length read_count write_count]. rewrite app_nil_r, Z.add_0_r.
    split; [split; [exact W'|auto|reflexivity]|]. split; [exact C'|]. split; [reflexivity|]. split; [reflexivity|].
    split; [cbn; lia|]. split; [cbn; lia|]. split; [cbn; lia|]. intros _.
    apply (unmapped_more _ _ (Z.of_nat (Z.to_nat chunk))); [|lia]. apply (bytes_in_fail tr pm). rewrite Ci. reflexivity.
Qed.

(** What one turn of [read] does, with [nread] bytes read before. *)
Definition delivered (tr : translation) (pm : mem) (address count nread : Z) (p p' : pipe) (pm' : mem) (moved : list Z) : Prop :=
  turn_of p p' /\ contents p = moved ++ contents p' /\ write_count p' = write_count p /\
  len moved <= Z.max 0 (count - nread) /\
  (nread + len moved < count -> contents p' = [] \/ unmapped tr (address + nread + len moved) (count - nread - len moved)) /\
  snd (bytes_out tr pm (address + nread) moved) = true /\
  (~ unmapped tr (address + nread) (count - nread) -> pm' =m= fst (bytes_out tr pm (address + nread) moved)).

Lemma delivered_nothing tr pm address count nread p :
  wf p -> (nread < count -> contents p = []) -> delivered tr pm address count nread p p pm [].
Proof.
  intros W H. unfold delivered. cbn [length app bytes_out]. rewrite !Z.add_0_r, !Z.sub_0_r.
  split; [apply turn_refl, W|]. do 2 (split; [reflexivity|]). split; [lia|]. split; [auto|]. split; [reflexivity|].
  intros _ x. reflexivity.
Qed.

Lemma read_loop_spec tr address count fuel : forall pm nread p o p' pm' moved,
  wf p -> 0 <= nread -> Z.max 0 (count - nread) < Z.of_nat fuel ->
  read_loop fuel tr pm address count nread p = (o, p', pm', moved) ->
  o = Returned (nread + len moved) /\ delivered tr pm address count nread p p' pm' moved.
Proof.
  induction fuel as [|fuel IH]; intros pm nread p o p' pm' moved W Bn F E; cbn [read_loop] in E; [lia|].
  pose proof W as [Ld Cn Fu Wd]. destruct (Z.ltb_spec nread count) as [Lt|Ge]; cbn [negb] in E.
  2:{ injection E as <- <- <- <-. cbn [length]. rewrite Z.add_0_r. split; [reflexivity|]. apply delivered_nothing; [exact W|lia]. }
  rewrite sub32_ok in E by lia. destruct (Z.eqb_spec (write_count p - read_count p) 0) as [Z0|Nz].
  { injection E as <- <- <- <-. cbn [length]. rewrite Z.add_0_r. split; [reflexivity|]. apply delivered_nothing; [exact W|].
    intros _. apply length_zero_iff_nil. rewrite contents_length. unfold used. lia. }
  cbv zeta in E. set (pos := read_count p mod pipe_size) in *. set (chunk := Z.min (pipe_size - pos) _) in E.
  assert (Bp : 0 <= pos < pipe_size) by (apply Z.mod_pos_bound; reflexivity).
  assert (Bc : 0 < chunk <= count - nread /\ chunk <= pipe_size - pos /\ read_count p + chunk <= write_count p)
    by (subst chunk; lia).
  destruct (contents_take p (Z.to_nat chunk) (read_count p + chunk) W) as [W1 C1]; [fold pos; lia|lia|lia|].
  fold pos in W1, C1. set (bytes := firstn (Z.to_nat chunk) _) in *. set (p1 := Pipe _ _ _ _ _) in *.
  assert (Lb : len bytes = chunk) by (unfold bytes; rewrite length_firstn, length_skipn; lia).
  pose proof (copyOut_loop_bytes tr (S (length bytes)) pm (address + nread) bytes ltac:(lia)) as Co.
  fold (copyOut tr pm (address + nread) bytes) in Co. destruct (copyOut tr pm (address + nread) bytes) as [pm1 ok].
  destruct Co as [Co1 Co2]. cbn [fst snd] in Co1, Co2. destruct ok.
  - rewrite add32_ok in E by lia. fold p1 in E. destruct (read_loop fuel tr pm1 address count (nread + chunk) p1) as [[[o1 p2] pm2] moved1] eqn:Er.
    injection E as <- <- <- <-.
    destruct (IH pm1 (nread + chunk) p1 o1 p2 pm2 moved1 W1 ltac:(lia) ltac:(lia) Er) as (-> & [T1 T2 T3] & C & Wc & Lm & St & Bo & Me).
    rewrite length_app, Nat2Z.inj_add, Lb. split; [f_equal; lia|]. unfold delivered. rewrite length_app, Nat2Z.inj_add, Lb.
    split; [split; auto|]. split; [rewrite C1, C, app_assoc; reflexivity|]. split; [exact Wc|]. split; [lia|].
    assert (Sp : exists pm3, bytes_out tr pm (address + nread) bytes = (pm3, true) /\ pm1 =m= pm3).
    { destruct (bytes_out tr pm (address + nread) bytes) as [pm3 ok]. cbn in Co1, Co2. subst ok. eauto. }
    destruct Sp as (pm3 & E3 & M3). rewrite (bytes_out_split _ _ _ _ _ _ E3), Lb.
    pose proof (bytes_out_proper tr pm1 pm3 M3 (address + nread + chunk) _ eq_refl moved1 _ eq_refl) as [P1 P2].
    replace (address + (nread + chunk)) with (address + nread + chunk) in * by lia.
    split; [|split].
    + intros Lt'. destruct (St ltac:(lia)) as [?|U]; [auto|right].
      replace (address + nread + (chunk + len moved1)) with (address + nread + chunk + len moved1) by lia.
      replace (count - nread - (chunk + len moved1)) with (count - (nread + chunk) - len moved1) by lia. exact U.
    + rewrite <- P2. exact Bo.
    + intros Nu. rewrite <- P1. apply Me. intros (i & B & E'). apply Nu. exists (i + chunk). split; [lia|].
      replace (address + nread + (i + chunk)) with (address + nread + chunk + i) by lia. exact E'.
  - injection E as <- <- <- <-. cbn [length]. rewrite Z.add_0_r. split; [reflexivity|]. unfold delivered. cbn [length app].
    rewrite Z.add_0_r, Z.sub_0_r.
    assert (U : unmapped tr (address + nread) (count - nread)).
    { apply (unmapped_more _ _ (len bytes)); [|lia]. apply (bytes_out_fail _ _ pm). auto. }
    split; [apply turn_refl, W|]. do 2 (split; [reflexivity|]). split; [lia|]. split; [intros _; rewrite ?Z.add_0_r; auto|].
    split; [reflexivity|]. intros Nu. destruct (Nu U).
Qed.

Lemma read_turn_spec tr pm killed address count p o p' pm' moved :
  wf p -> 0 <= count -> read_turn (turn_fuel count) tr pm killed address count p = (o, p', pm', moved) ->
  match o with
  | Returned n => n = len moved /\ delivered tr pm address count 0 p p' pm' moved /\
      (contents p = [] -> write_is_open p = false)
  | Sleeps n => n = 0 /\ contents p = [] /\ write_is_open p = true /\ p' = p /\ pm' = pm /\ moved = []
  | ProcessKilled => killed = true /\ p' = p /\ moved = []
  | _ => False
  end.
Proof.
  intros W Bc. unfold read_turn. destruct (_ && _) eqn:Em.
  - apply andb_prop in Em as [Eq%Z.eqb_eq Op]. assert (contents p = []).
    { apply length_zero_iff_nil. rewrite contents_length. unfold used. lia. }
    destruct killed; intros [= <- <- <- <-]; auto 10.
  - intros E. destruct (read_loop_spec tr address count (turn_fuel count) pm 0 p o p' pm' moved W ltac:(lia)) as [-> D];
      [unfold turn_fuel; lia|exact E|]. split; [lia|]. split; [exact D|]. intros Em'.
    apply andb_false_iff in Em as [Ne%Z.eqb_neq|Cl]; [|exact Cl]. exfalso. apply Ne.
    apply (f_equal (@length Z)) in Em'. rewrite contents_length in Em'. cbn in Em'. destruct W as [_ Cn _ _].
    unfold used in Em'. lia.
Qed.

(** * The processes on a pipe *)

Lemma wakeup_lookup c calls pid x :
  wakeup c calls !! pid = Some x <->
  exists y, calls !! pid = Some y /\ x = (y.1, if decide (y.2 = Some c) then None else y.2).
Proof.
  unfold wakeup. rewrite lookup_fmap_Some. split; intros (y & A & B); exists y; auto.
Qed.

(** A call that is sound for its process. *)
Definition call_ok (x : call * option chan) : Prop :=
  match x with
  | (CallW _ _ count written, a) => 0 <= written <= count /\ count < 2 ^ 32 /\ a <> Some at_read_count
  | (CallR _ _ count, a) => 0 <= count < 2 ^ 32 /\ a <> Some at_write_count
  end.

Definition calls_ok (calls : gmap nat (call * option chan)) : Prop :=
  forall pid x, calls !! pid = Some x -> call_ok x.

Lemma call_ok_awake c a : call_ok (c, a) -> call_ok (c, None).
Proof. destruct c; cbn; intuition discriminate. Qed.

Lemma calls_ok_wakeup c calls : calls_ok calls -> calls_ok (wakeup c calls).
Proof.
  intros H pid x (y & L & ->)%wakeup_lookup. specialize (H pid y L). destruct y as [k a]. cbn.
  destruct (decide (a = Some c)); [eapply call_ok_awake|]; eauto.
Qed.

Lemma calls_ok_delete pid calls : calls_ok calls -> calls_ok (delete pid calls).
Proof. intros H q x [_ L]%lookup_delete_Some. eauto. Qed.

Lemma calls_ok_insert pid x calls : calls_ok calls -> call_ok x -> calls_ok (<[pid := x]> calls).
Proof. intros H K q y. rewrite lookup_insert. destruct (decide (pid = q)); [intros [= <-]; exact K|eauto]. Qed.

#[local] Hint Resolve calls_ok_wakeup calls_ok_delete calls_ok_insert : core.

Lemma put_app t e : put_bytes_of (t ++ e) = put_bytes_of t ++ put_bytes_of e.
Proof. unfold put_bytes_of. rewrite List.map_app, join_app. reflexivity. Qed.
Lemma got_app t e : got_bytes_of (t ++ e) = got_bytes_of t ++ got_bytes_of e.
Proof. unfold got_bytes_of. rewrite List.map_app, join_app. reflexivity. Qed.

Record fifo (t : list event) (s : sys) : Prop := {
  ff_wf : wf (s_pipe s);
  ff_calls : calls_ok (s_calls s);
  ff_bytes : put_bytes_of t = got_bytes_of t ++ contents (s_pipe s);
  ff_count : write_count (s_pipe s) = len (put_bytes_of t);
}.

Lemma close_spec p w p' b : close p w = (p', b) -> wf p ->
  wf p' /\ contents p' = contents p /\ write_count p' = write_count p /\
  read_is_open p' = (w && read_is_open p)%bool /\ write_is_open p' = (negb w && write_is_open p)%bool.
Proof. unfold close. intros [= <- _] [A B C D]. destruct w; cbn; repeat split; auto; try apply B. Qed.

Lemma fifo_step kills t s e s' : fifo t s -> pstep kills s e s' -> fifo (t ++ e) s'.
Proof.
  intros [W Ok By Ct] T. destruct T as [pid tr a n p calls Fr B Op|pid tr a n p calls Fr B Op
    |pid tr pm killed a n w p calls o p' mv L Kf E Ni|pid tr pm killed a n p calls o p' pm' mv L Kf E Ni
    |w p calls p' b Cl E|pid c p calls Kl L]; cbn [s_pipe s_calls] in *.
  - split; cbn [s_pipe s_calls]; rewrite ?put_app, ?got_app; cbn; rewrite ?app_nil_r; auto.
    apply calls_ok_insert; [exact Ok|]. cbn. intuition (lia || discriminate).
  - split; cbn [s_pipe s_calls]; rewrite ?put_app, ?got_app; cbn; rewrite ?app_nil_r; auto.
    apply calls_ok_insert; [exact Ok|]. cbn. intuition (lia || discriminate).
  - pose proof (Ok _ _ L) as (Bw & Bn & _).
    destruct (write_turn_spec tr pm killed a n (turn_fuel (n - w)) w p o p' mv W ltac:(lia) ltac:(unfold turn_fuel; lia) E)
      as ([T1 T2 T3] & C & Us & Rc & Wc & Lm & O).
    split; cbn [s_pipe s_calls]; [exact T1| | |].
    + destruct o; cbn [after_write]; auto. apply calls_ok_insert; [auto|]. cbn. destruct O as (-> & O & _).
      intuition (lia || discriminate).
    + rewrite put_app, got_app, By, C. cbn. rewrite !app_nil_r, app_assoc. reflexivity.
    + rewrite put_app, length_app, Wc, Ct. cbn. rewrite app_nil_r. lia.
  - pose proof (Ok _ _ L) as (Bn & _). pose proof (read_turn_spec tr pm killed a n p o p' pm' mv W ltac:(lia) E) as R.
    destruct o as [k| | |k|]; try destruct R; cbn [after_read].
    + destruct H0 as ((T & C & Wc & _) & _). split; cbn [s_pipe s_calls]; [apply T|auto| |].
      * rewrite put_app, got_app, By, C. cbn. rewrite !app_nil_r, app_assoc. reflexivity.
      * rewrite put_app, length_app, Wc, Ct. cbn. lia.
    + destruct H0 as (-> & ->). split; cbn [s_pipe s_calls]; rewrite ?put_app, ?got_app; cbn; rewrite ?app_nil_r; auto.
    + destruct H0 as (_ & _ & -> & -> & ->). split; cbn [s_pipe s_calls]; rewrite ?put_app, ?got_app; cbn; rewrite ?app_nil_r; auto.
      apply calls_ok_insert; [exact Ok|]. cbn. intuition (lia || discriminate).
  - destruct (close_spec _ _ _ _ E W) as (W' & C & Wc & _). split; cbn [s_pipe s_calls];
      rewrite ?put_app, ?got_app; cbn; rewrite ?app_nil_r; auto; congruence.
  - split; cbn [s_pipe s_calls]; rewrite ?put_app, ?got_app; cbn; rewrite ?app_nil_r; auto.
    apply calls_ok_insert; [exact Ok|]. destruct c as [c a]. eapply call_ok_awake. eauto.
Qed.

Lemma fifo_reach kills garbage t s :
  length garbage = Z.to_nat pipe_size -> preach kills (Sys (new_pipe garbage) ∅) t s -> fifo t s.
Proof.
  intros Lg R. induction R as [|t s e s' R IH T]; [|eapply fifo_step; eauto].
  split; cbn [s_pipe s_calls]; auto.
  - split; cbn; auto; unfold pipe_size; lia.
  - intros pid x H. rewrite lookup_empty in H. discriminate.
Qed.

(** ** Who sleeps *)

(** A process that sleeps has nothing to do. *)
Definition rightly_asleep (p : pipe) (x : call * option chan) : Prop :=
  match x with
  | (CallW _ _ _ _, Some _) => len (contents p) = pipe_size /\ read_is_open p = true
  | (CallR _ _ _, Some _) => contents p = [] /\ write_is_open p = true
  | (_, None) => True
  end.

Definition asleep_ok (s : sys) : Prop := forall pid x, s_calls s !! pid = Some x -> rightly_asleep (s_pipe s) x.

Lemma contents_bound p : wf p -> len (contents p) <= pipe_size.
Proof. intros [_ Cn Fu _]. rewrite contents_length. unfold used. lia. Qed.

Lemma app_full {A} (l m : list A) n : len l = n -> len (l ++ m) <= n -> l ++ m = l.
Proof. rewrite length_app. intros E B. destruct m; [apply app_nil_r|cbn in B; lia]. Qed.

(** A turn that leaves a pipe full, or empty, or as it was keeps who may sleep. *)
Lemma asleep_same p p' x :
  contents p' = contents p -> read_is_open p' = read_is_open p -> write_is_open p' = write_is_open p ->
  rightly_asleep p x -> rightly_asleep p' x.
Proof. intros C R W. destruct x as [[] []]; cbn; rewrite ?C, ?R, ?W; auto. Qed.

Lemma asleep_after_write pid tr pm killed a n w p o p' mv calls :
  wf p -> calls_ok calls -> asleep_ok (Sys p calls) -> wrote tr pm killed a n w p p' o mv ->
  o <> ProcessKilled -> o <> Illegal -> asleep_ok (Sys p' (after_write pid tr a n o calls)).
Proof.
  intros W Ok As ([T1 T2 T3] & C & _ & _ & _ & _ & O) Nk Ni q x L. cbn [s_pipe s_calls] in *.
  assert (Wk : forall y, wakeup at_read_count calls !! q = Some y -> rightly_asleep p' y).
  { intros y (z & Lz & ->)%wakeup_lookup. pose proof (Ok q z Lz) as Oz. specialize (As q z Lz).
    destruct z as [[tr' a' n' w'|tr' a' n'] [[]|]]; cbn in *; repeat case_decide; try (intuition congruence).
    rewrite C, T2. pose proof (contents_bound p' T1) as Bd. rewrite C in Bd. rewrite (app_full _ _ pipe_size); tauto. }
  destruct o; cbn [after_write] in L; try congruence.
  - apply lookup_delete_Some in L as [_ L]. auto.
  - apply lookup_delete_Some in L as [_ L]. destruct O as [Ro ->]. rewrite app_nil_r in C.
    eapply asleep_same; [exact C|exact T2|exact T3|]. apply (As q x L).
  - rewrite lookup_insert in L. destruct (decide _) as [->|_]; [injection L as <-|auto]. cbn. rewrite T2. tauto.
Qed.

Lemma asleep_after_read pid tr pm killed a n p o p' pm' mv calls :
  wf p -> 0 <= n -> calls_ok calls -> asleep_ok (Sys p calls) ->
  read_turn (turn_fuel n) tr pm killed a n p = (o, p', pm', mv) -> asleep_ok (Sys p' (after_read pid tr a n o calls)).
Proof.
  intros W Bn Ok As E q x L. pose proof (read_turn_spec _ _ _ _ _ _ _ _ _ _ W Bn E) as R. cbn [s_pipe s_calls] in *.
  destruct o as [k| | |k|]; try destruct R; cbn [after_read] in L.
  - apply lookup_delete_Some in L as [_ (z & Lz & ->)%wakeup_lookup]. pose proof (Ok q z Lz) as Oz. specialize (As q z Lz).
    destruct H0 as (([_ T2 T3] & C & _) & _). destruct z as [[tr' a' n' w'|tr' a' n'] [[]|]]; cbn in *; repeat case_decide; try (intuition congruence).
    rewrite T3. destruct As as [Em ?]. rewrite Em in C. symmetry in C. apply app_eq_nil in C. tauto.
  - apply lookup_delete_Some in L as [_ L]. destruct H0 as [-> _]. apply (As q x L).
  - destruct H0 as (Em & Wo & -> & _). rewrite lookup_insert in L. destruct (decide _) as [->|_]; [injection L as <-; cbn; auto|].
    apply (As q x L).
Qed.

Lemma asleep_step t s e s' : fifo t s -> asleep_ok s -> pstep false s e s' -> asleep_ok s'.
Proof.
  intros [W Ok _ _] As T. destruct T as [pid tr a n p calls Fr B Op|pid tr a n p calls Fr B Op
    |pid tr pm killed a n w p calls o p' mv L Kf E Ni|pid tr pm killed a n p calls o p' pm' mv L Kf E Ni
    |w p calls p' b Cl E|pid c p calls Kl L]; cbn [s_pipe s_calls] in *; [| | | | |discriminate].
  1,2: intros q x; cbn [s_pipe s_calls]; rewrite lookup_insert; destruct (decide _); [intros [= <-]; exact I|apply As].
  - pose proof (Ok _ _ L) as (Bw & Bn & _).
    assert (Wr : wrote tr pm killed a n w p p' o mv)
      by (apply (write_turn_spec tr pm killed a n (turn_fuel (n - w))); [exact W|lia|unfold turn_fuel; lia|exact E]).
    eapply asleep_after_write; [exact W|exact Ok|exact As|exact Wr|intros ->|exact Ni].
    destruct Wr as (_ & _ & _ & _ & _ & _ & i & Ki). rewrite (Kf eq_refl i) in Ki. discriminate.
  - pose proof (Ok _ _ L) as (Bn & _). eapply asleep_after_read; [exact W| |exact Ok|exact As|exact E]. lia.
  - destruct (close_spec _ _ _ _ E W) as (W' & C & _ & Ro & Wo). intros q x (z & Lz & ->)%wakeup_lookup.
    pose proof (Ok q z Lz) as Oz. specialize (As q z Lz). specialize (Cl q z Lz). cbn [s_pipe s_calls].
    destruct w, z as [[tr' a' n' w'|tr' a' n'] [[]|]]; cbn in *; repeat case_decide; intuition congruence.
Qed.

Definition start (garbage : list Z) : sys := Sys (new_pipe garbage) ∅.

Lemma asleep_reach garbage t s :
  length garbage = Z.to_nat pipe_size -> preach false (start garbage) t s -> asleep_ok s.
Proof.
  intros Lg R. induction R as [|t s e s' R IH T]; [|eapply asleep_step; [eapply fifo_reach; eauto|exact IH|exact T]].
  intros pid x H. cbn in H. rewrite lookup_empty in H. discriminate.
Qed.

(** * Wear *)

(** Every address is a byte of physical memory. *)
Definition everywhere : translation := fun v => Some v.

Lemma everywhere_place v : place everywhere v = Some v.
Proof. unfold place, everywhere. f_equal. pose proof (Z.div_mod v 4096). lia. Qed.

Lemma everywhere_mapped v n : ~ unmapped everywhere v n.
Proof. intros (i & _ & E). rewrite everywhere_place in E. discriminate. Qed.

Lemma contents_nil p : wf p -> contents p = [] -> read_count p = write_count p.
Proof. intros [_ Cn _ _] E. apply (f_equal (@length Z)) in E. rewrite contents_length in E. unfold used in E. cbn in E. lia. Qed.

(** One byte goes into an empty pipe, by a process that is alone, *)
Lemma one_in p t s0 :
  preach false s0 t (Sys p ∅) -> wf p -> contents p = [] -> read_is_open p = true -> write_is_open p = true ->
  write_count p + pipe_size < 2 ^ 32 ->
  exists t' p', preach false s0 t' (Sys p' ∅) /\ turn_of p p' /\ len (contents p') = 1 /\ write_count p' = write_count p + 1.
Proof.
  intros R W Em Ro Wo B. pose proof (contents_nil _ W Em) as Rw. assert (B32 : 0 <= 1 < 2 ^ 32) by lia.
  pose proof (p_next _ _ _ _ _ _ R (p_write_call false 0%nat everywhere 0 1 p ∅ (lookup_empty _) B32 Wo)) as R1.
  destruct (write_turn (turn_fuel (1 - 0)) everywhere (fun _ => 0) (fun _ => false) 0 1 0 p) as [[o p1] mv] eqn:E.
  pose proof (write_turn_spec everywhere (fun _ => 0) (fun _ => false) 0 1 (turn_fuel (1 - 0)) 0 p o p1 mv W
    ltac:(lia) eq_refl E) as (Tu & C1 & _ & Rc1 & Wc1 & Lm & O).
  rewrite Em in C1. cbn [app] in C1.
  assert (Lv : len mv = 1 /\ o = Returned 1).
  { destruct o as [n| | |n|].
    - destruct O as [-> O]. destruct (Z.eq_dec (len mv) 1); [split; [assumption|f_equal; lia]|].
      exfalso. apply (everywhere_mapped _ _ (O ltac:(lia))).
    - destruct O. congruence.
    - destruct O. discriminate.
    - destruct O as (_ & _ & F & _). rewrite C1 in F. unfold pipe_size in F. lia.
    - unfold pipe_size in *. lia. }
  destruct Lv as [Lv ->]. eexists _, p1. split; [|split; [exact Tu|split; [rewrite C1; exact Lv|lia]]].
  eapply p_next; [exact R1|].
  exact (p_write false 0%nat everywhere (fun _ => 0) (fun _ => false) 0 1 0 p (<[0%nat := (CallW everywhere 0 1 0, None)]> ∅)
    _ p1 mv (lookup_insert_eq _ _ _) (fun _ _ => eq_refl) E ltac:(discriminate)).
Qed.

(** and out of a pipe that holds nothing else. *)
Lemma one_out p t s0 :
  preach false s0 t (Sys p ∅) -> wf p -> len (contents p) = 1 -> read_is_open p = true ->
  exists t' p', preach false s0 t' (Sys p' ∅) /\ turn_of p p' /\ contents p' = [] /\ write_count p' = write_count p.
Proof.
  intros R W L Ro. assert (B32 : 0 <= 1 < 2 ^ 32) by lia.
  pose proof (p_next _ _ _ _ _ _ R (p_read_call false 0%nat everywhere 0 1 p ∅ (lookup_empty _) B32 Ro)) as R1.
  destruct (read_turn (turn_fuel 1) everywhere (fun _ => 0) false 0 1 p) as [[[o p2] pm2] mv] eqn:E.
  pose proof (read_turn_spec everywhere (fun _ => 0) false 0 1 p o p2 pm2 mv W ltac:(lia) E) as S.
  destruct o as [n| | |n|]; [|destruct S| |destruct S as (_ & Em & _)|destruct S].
  2:{ destruct S. discriminate. }
  2:{ rewrite Em in L. discriminate. }
  destruct S as (_ & (Tu & C & Wc & Lm & St & _) & _). eexists _, p2. split; [|split; [exact Tu|split; [|exact Wc]]].
  - eapply p_next; [exact R1|].
    exact (p_read false 0%nat everywhere (fun _ => 0) false 0 1 p (<[0%nat := (CallR everywhere 0 1, None)]> ∅) _ p2 pm2 mv
      (lookup_insert_eq _ _ _) (fun _ => eq_refl) E ltac:(discriminate)).
  - apply length_zero_iff_nil. apply (f_equal (@length Z)) in C. rewrite length_app in C.
    destruct (Z.eq_dec (len mv) 1); [lia|]. destruct St as [St|U]; [lia|rewrite St; reflexivity|].
    destruct (everywhere_mapped _ _ U).
Qed.

Lemma laps n garbage :
  length garbage = Z.to_nat pipe_size -> Z.of_nat n + pipe_size <= 2 ^ 32 ->
  exists t p, preach false (start garbage) t (Sys p ∅) /\ wf p /\ contents p = [] /\
    read_is_open p = true /\ write_is_open p = true /\ write_count p = Z.of_nat n.
Proof.
  intros Lg. induction n as [|n IH]; intros B.
  - exists [], (new_pipe garbage). split; [apply p_start|]. repeat split; auto; cbn; unfold pipe_size; lia.
  - destruct (IH ltac:(lia)) as (t & p & R & W & Em & Ro & Wo & Wc).
    destruct (one_in p t _ R W Em Ro Wo ltac:(lia)) as (t1 & p1 & R1 & [W1 Ro1 Wo1] & L1 & Wc1).
    destruct (one_out p1 t1 _ R1 W1 L1 ltac:(congruence)) as (t2 & p2 & R2 & [W2 Ro2 Wo2] & Em2 & Wc2).
    exists t2, p2. repeat split; try apply W2; try congruence; try exact R2. lia.
Qed.

(** * Properties *)

(** A turn of [write] or of [read] is an operation on a queue of at most 512
    bytes: what [write] moves is what the caller's memory holds, appended, and it
    stops short only to sleep on a full queue, for a closed end, for a kill, or
    at an address that is not mapped; what [read] moves is the head of the queue,
    it is what the caller's memory holds afterwards, and it sleeps exactly on an
    empty queue that can still be written. *)
Theorem pipe_turns (p : pipe) :
  wf p ->
  (forall tr pm killed address count written o p' moved, 0 <= written <= count ->
    write_turn (turn_fuel (count - written)) tr pm killed address count written p = (o, p', moved) ->
    wrote tr pm killed address count written p p' o moved /\ len (contents p') <= pipe_size /\
    (o = Illegal -> 2 ^ 32 <= read_count p + pipe_size)) /\
  (forall tr pm killed address count o p' pm' moved, 0 <= count ->
    read_turn (turn_fuel count) tr pm killed address count p = (o, p', pm', moved) ->
    (contents p = [] /\ write_is_open p = true /\ p' = p /\ moved = [] /\ o = if killed then ProcessKilled else Sleeps 0) \/
    ((contents p <> [] \/ write_is_open p = false) /\ o = Returned (len moved) /\
      delivered tr pm address count 0 p p' pm' moved)).
Proof.
  intros W. split.
  - intros tr pm killed a n w o p' mv B E. pose proof (write_turn_spec tr pm killed a n (turn_fuel (n - w)) w p o p' mv W
      ltac:(lia) ltac:(unfold turn_fuel; lia) E) as Wr.
    split; [exact Wr|]. destruct Wr as ([T _ _] & _ & _ & _ & _ & _ & O). split; [apply contents_bound, T|].
    intros ->. exact O.
  - intros tr pm killed a n o p' pm' mv B E. pose proof (read_turn_spec _ _ _ _ _ _ _ _ _ _ W B E) as R.
    unfold read_turn in E. destruct o as [k| | |k|]; try destruct R.
    + right. destruct H0 as [D Cl]. split; [|split; [congruence|exact D]]. destruct (contents p); [auto|left; discriminate].
    + left. destruct (_ && _) eqn:Em in E.
      * destruct killed; [|discriminate E]. injection E as <- <- <-. apply andb_prop in Em as [Eq%Z.eqb_eq Op].
        repeat split; auto. apply length_zero_iff_nil. rewrite contents_length. unfold used. lia.
      * destruct (read_loop_spec tr a n (turn_fuel n) pm 0 p _ p' pm' mv W ltac:(lia) ltac:(unfold turn_fuel; lia) E). discriminate.
    + left. destruct H0 as (Em & Op & -> & -> & ->). subst k. destruct (_ && _) in E; [destruct killed; [discriminate|auto 10]|].
      destruct (read_loop_spec tr a n (turn_fuel n) pm 0 p _ p pm [] W ltac:(lia) ltac:(unfold turn_fuel; lia) E). discriminate.
Qed.

(** A buffer that has gone round: three bytes in it, across its end. *)
Definition wrapped : pipe := Pipe (map Z.of_nat (seq 0 512)) 510 513 true true.

Lemma wrapped_wf : wf wrapped.
Proof. split; [reflexivity|cbn; lia|cbn; unfold pipe_size; lia|cbn; lia]. Qed.

Lemma pipe_turns_witness :
  contents wrapped = [510; 511; 0] /\
  exists p pm, read_turn (turn_fuel 5) everywhere (fun _ => 0) false 4096 5 wrapped = (Returned 3, p, pm, [510; 511; 0]) /\
    contents p = [].
Proof.
  split; [vm_compute; reflexivity|].
  destruct (pipe_turns wrapped wrapped_wf) as [_ R].
  set (r := read_turn (turn_fuel 5) everywhere (fun _ => 0) false 4096 5 wrapped).
  assert (Mv : snd r = [510; 511; 0]) by (vm_compute; reflexivity).
  destruct r as [[[o p] pm] mv] eqn:E. cbn [snd] in Mv. subst mv.
  destruct (R everywhere (fun _ => 0) false 4096 5 o p pm _ ltac:(lia) E) as [(Em & _)|(_ & -> & _ & C & _)];
    [vm_compute in Em; discriminate|].
  exists p, pm. split; [reflexivity|]. apply (app_inv_head [510; 511; 0]). rewrite <- C. reflexivity.
Defined.

(** C30: Whatever processes use a pipe, in whatever order and whatever ones are
    killed, what has been read and what is still in the pipe is, byte for byte
    and in order, what has been written; at most 512 bytes are in it; and only
    after 2^32 - 512 bytes can a turn overflow the counters. *)
Theorem pipe_fifo (kills : bool) (garbage : list Z) (t : list event) (s : sys) :
  length garbage = Z.to_nat pipe_size -> preach kills (start garbage) t s ->
  put_bytes_of t = got_bytes_of t ++ contents (s_pipe s) /\ len (contents (s_pipe s)) <= 512 /\
  (forall pid tr address count written pm killed p' moved,
    s_calls s !! pid = Some (CallW tr address count written, None) ->
    write_turn (turn_fuel (count - written)) tr pm killed address count written (s_pipe s) = (Illegal, p', moved) ->
    2 ^ 32 - 512 <= len (got_bytes_of t)) /\
  (forall pid tr address count pm killed p' pm' moved,
    s_calls s !! pid = Some (CallR tr address count, None) ->
    read_turn (turn_fuel count) tr pm killed address count (s_pipe s) <> (Illegal, p', pm', moved)).
Proof.
  intros Lg R. destruct (fifo_reach _ _ _ _ Lg R) as [W Ok By Ct]. split; [exact By|].
  split; [apply contents_bound, W|]. split.
  - intros pid tr a n w pm killed p' mv L E. pose proof (Ok _ _ L) as (Bw & _).
    destruct (write_turn_spec tr pm killed a n (turn_fuel (n - w)) w _ _ p' mv W ltac:(lia) ltac:(unfold turn_fuel; lia) E)
      as (_ & _ & _ & _ & _ & _ & O). rewrite By, length_app, contents_length in Ct. destruct W as [_ Cn _ _].
    unfold used, pipe_size in *. lia.
  - intros pid tr a n pm killed p' pm' mv L E. pose proof (Ok _ _ L) as (Bn & _).
    exact (read_turn_spec _ _ _ _ _ _ _ _ _ _ W (proj1 Bn) E).
Qed.

Definition zeros : list Z := repeat 0 512.

(** A process writes three bytes. *)
Lemma three_bytes : exists t s, preach false (start zeros) t s /\ put_bytes_of t = [7; 7; 7].
Proof.
  assert (B32 : 0 <= 3 < 2 ^ 32) by lia.
  set (calls := <[1%nat := (CallW everywhere 0 3 0, None)]> (∅ : gmap nat (call * option chan))).
  pose proof (p_next _ _ _ _ _ _ (p_start false (start zeros))
    (p_write_call false 1%nat everywhere 0 3 (new_pipe zeros) ∅ (lookup_empty _) B32 eq_refl)) as R.
  pose proof (p_next _ _ _ _ _ _ R (p_write false 1%nat everywhere (fun _ => 7) (fun _ => false) 0 3 0 (new_pipe zeros) calls
    (Returned 3) (Pipe (7 :: 7 :: 7 :: repeat 0 509) 0 3 true true) [7; 7; 7] eq_refl (fun _ _ => eq_refl)
    ltac:(vm_compute; reflexivity) ltac:(discriminate))) as R2.
  eexists _, _. split; [exact R2|reflexivity].
Qed.

Lemma pipe_fifo_witness : exists t s, got_bytes_of t ++ contents (s_pipe s) = [7; 7; 7].
Proof.
  destruct three_bytes as (t & s & R & P). exists t, s.
  rewrite <- (proj1 (pipe_fifo false zeros t s eq_refl R)). exact P.
Defined.

(** A reader sleeps on an empty pipe, a writer puts 512 of its 600 bytes in it and
    is killed: it leaves without waking anybody. *)
Lemma killed_writer : exists t s r x, preach true (start zeros) t s /\ s_calls s !! r = Some x /\
  x.2 = Some at_read_count /\ len (contents (s_pipe s)) = pipe_size.
Proof.
  destruct (write_turn (turn_fuel (600 - 0)) everywhere (fun _ => 0) (fun i => (i =? 599)%nat) 0 600 0 (new_pipe zeros))
    as [[o p] mv] eqn:E.
  assert (B32 : 0 <= 600 < 2 ^ 32) by lia. assert (O : o = ProcessKilled) by (vm_compute in E; congruence).
  set (calls1 := <[1%nat := (CallR everywhere 0 600, None)]> (∅ : gmap nat (call * option chan))).
  set (calls2 := <[1%nat := (CallR everywhere 0 600, Some at_read_count)]> calls1).
  set (calls3 := <[2%nat := (CallW everywhere 0 600 0, None)]> calls2).
  pose proof (p_next _ _ _ _ _ _ (p_start true (start zeros))
    (p_read_call true 1%nat everywhere 0 600 (new_pipe zeros) ∅ (lookup_empty _) B32 eq_refl)) as R1.
  pose proof (p_next _ _ _ _ _ _ R1 (p_read true 1%nat everywhere (fun _ => 0) false 0 600 (new_pipe zeros) calls1
    (Sleeps 0) (new_pipe zeros) (fun _ => 0) [] eq_refl (fun _ => eq_refl) eq_refl ltac:(discriminate))) as R2.
  cbn [after_read] in R2. fold calls2 in R2.
  pose proof (p_next _ _ _ _ _ _ R2 (p_write_call true 2%nat everywhere 0 600 (new_pipe zeros) calls2 eq_refl B32 eq_refl)) as R3.
  fold calls3 in R3.
  assert (Kf : true = false -> forall i, (i =? 599)%nat = false) by discriminate.
  pose proof (p_next _ _ _ _ _ _ R3 (p_write true 2%nat everywhere (fun _ => 0) (fun i => (i =? 599)%nat) 0 600 0
    (new_pipe zeros) calls3 o p mv eq_refl Kf E ltac:(congruence))) as R4.
  subst o. cbn [after_write] in R4. eexists _, _, 1%nat, _. split; [exact R4|]. split; [reflexivity|]. split; [reflexivity|].
  vm_compute in E. injection E as <- _. reflexivity.
Qed.

(** C31: While no process is killed, a process sleeps on a pipe only when it has
    to: a writer when the pipe is full and can be read, a reader when it is empty
    and can be written; so a reader and a writer never both sleep.  A kill can
    break this: a writer that is killed leaves without waking anybody, and a
    reader may sleep on in front of a full pipe. *)
Theorem pipe_no_lost_wakeup (garbage : list Z) (t : list event) (s : sys) :
  length garbage = Z.to_nat pipe_size -> preach false (start garbage) t s ->
  (forall pid x, s_calls s !! pid = Some x -> rightly_asleep (s_pipe s) x) /\
  (forall r w tr a n c tr' a' n' k c',
    s_calls s !! r = Some (CallR tr a n, Some c) -> s_calls s !! w <> Some (CallW tr' a' n' k, Some c')) /\
  (exists t' s' r x, preach true (start zeros) t' s' /\ s_calls s' !! r = Some x /\ x.2 = Some at_read_count /\
    len (contents (s_pipe s')) = pipe_size).
Proof.
  intros Lg R. pose proof (asleep_reach _ _ _ Lg R) as As. split; [exact As|]. split; [|exact killed_writer].
  intros r w tr a n c tr' a' n' k c' Lr Lw. destruct (As _ _ Lr) as [Em _]. destruct (As _ _ Lw) as [Fu _].
  rewrite Em in Fu. discriminate.
Qed.

(** A reader asleep on a new pipe. *)
Definition asleep_call : call * option chan := (CallR everywhere 0 1, Some at_read_count).

Lemma reader_sleeps : exists t s, preach false (start zeros) t s /\ s_calls s !! 1%nat = Some asleep_call.
Proof.
  assert (B32 : 0 <= 1 < 2 ^ 32) by lia. eexists _, _. split.
  - eapply p_next; [eapply p_next; [apply p_start|]|].
    + exact (p_read_call false 1%nat everywhere 0 1 (new_pipe zeros) ∅ (lookup_empty _) B32 eq_refl).
    + exact (p_read false 1%nat everywhere (fun _ => 0) false 0 1 (new_pipe zeros) (<[1%nat := (CallR everywhere 0 1, None)]> ∅)
        (Sleeps 0) (new_pipe zeros) (fun _ => 0) [] eq_refl (fun _ => eq_refl) eq_refl ltac:(discriminate)).
  - reflexivity.
Qed.

Lemma pipe_no_lost_wakeup_witness : exists t s,
  preach false (start zeros) t s /\ s_calls s !! 1%nat = Some asleep_call /\ contents (s_pipe s) = [].
Proof.
  destruct reader_sleeps as (t & s & R & L). exists t, s. split; [exact R|]. split; [exact L|].
  destruct (pipe_no_lost_wakeup zeros t s eq_refl R) as [H _]. exact (proj1 (H 1%nat _ L)).
Defined.

(** Every pipe wears out: after 2^32 - 512 bytes have gone through it, which
    processes can do, any write of a byte or more is illegal. *)
Theorem pipe_wears_out (garbage : list Z) :
  length garbage = Z.to_nat pipe_size ->
  exists t p, preach false (start garbage) t (Sys p ∅) /\ wf p /\ len (put_bytes_of t) = 2 ^ 32 - 512 /\
    read_is_open p = true /\ write_is_open p = true /\
    (forall tr pm killed address count p' moved o, 0 < count -> killed (Z.to_nat count) = false ->
      write_turn (turn_fuel count) tr pm killed address count 0 p = (o, p', moved) -> o = Illegal).
Proof.
  intros Lg. destruct (laps (Z.to_nat (2 ^ 32 - 512)) garbage Lg) as (t & p & R & W & Em & Ro & Wo & Wc);
    [rewrite Z2Nat.id; unfold pipe_size; lia|].
  rewrite Z2Nat.id in Wc by lia. exists t, p. split; [exact R|]. split; [exact W|].
  split; [rewrite <- (ff_count _ _ (fifo_reach _ _ _ _ Lg R)); exact Wc|]. split; [exact Ro|]. split; [exact Wo|].
  intros tr pm killed a n p' mv o Bn Kl. unfold turn_fuel. cbn [write_turn]. rewrite (proj2 (Z.ltb_lt 0 n) Bn), Ro, Kl.
  cbn [negb]. pose proof (contents_nil _ W Em) as Rw. unfold add32 at 1. rewrite (proj2 (Z.ltb_ge _ _)) by (unfold pipe_size; lia).
  congruence.
Qed.

Lemma pipe_wears_out_witness : exists t p, preach false (start zeros) t (Sys p ∅) /\
  fst (fst (write_turn (turn_fuel 1) everywhere (fun _ => 0) (fun _ => false) 0 1 0 p)) = Illegal.
Proof.
  destruct (pipe_wears_out zeros eq_refl) as (t & p & R & _ & _ & _ & _ & I). exists t, p. split; [exact R|].
  destruct (write_turn (turn_fuel 1) everywhere (fun _ => 0) (fun _ => false) 0 1 0 p) as [[o p'] mv] eqn:E.
  apply (I everywhere (fun _ => 0) (fun _ => false) 0 1 p' mv o eq_refl eq_refl E).
Defined.
