(* ===== verification/Utests.v ===== *)
(** src/user/usertests.c: what its tests share, and the driver that runs them.

    A test is a program that gets its own name.  [bail] and [fails] are the
    conditionals that print and exit with status 1; [poke] and [peek] are a store
    and a load that may fault; a call whose pointer lies outside the program's
    memory is a [CRaw] with its registers.  [junk] and [garbage] are what variables
    and arrays hold before they are assigned. *)

From ITree Require Import ITree.
From S2P Require Import Prelude Mem Sys Ulib Printf ShParse Tools Tests Grind.
Import ITreeNotations.
Local Open Scope itree_scope.
Local Open Scope zm_scope.

(** * Constants: param.h, fs.h, memlayout.h, riscv.h *)

Definition BSIZE : Z := 1024.
Definition NDIRECT : Z := 12.
Definition NINDIRECT : Z := BSIZE / 4.
Definition MAXFILE : Z := NDIRECT + NINDIRECT.
Definition MAXOPBLOCKS : Z := 10.
Definition MAXPATH : Z := 128.
Definition MAXARG : Z := 32.
Definition NINODE : Z := 50.
Definition PGSIZE : Z := 4096.
Definition MAXVA : Z := Z.shiftl 1 (9 + 9 + 9 + 12 - 1).
Definition KERNBASE : Z := 0x80000000.
Definition BUFSZ : Z := (MAXOPBLOCKS + 2) * BSIZE.

(** The numbers of the calls made with wild pointers: syscallnum.zig. *)
Definition SYS_pipe : Z := 4.
Definition SYS_read : Z := 5.
Definition SYS_exec : Z := 7.
Definition SYS_open : Z := 15.
Definition SYS_write : Z := 16.
Definition SYS_unlink : Z := 18.
Definition SYS_link : Z := 19.

Notation "x <>? y" := (negb (x =? y)) (at level 70) : zm_scope.
Notation "x .| y" := (Z.lor x y) (at level 40, left associativity) : zm_scope.

Definition line (s : string) : list Z := lit s ++ [newline].

(** The global [buf], and a part of it written over. *)
Definition buf0 : list Z := repeat 0 (Z.to_nat BUFSZ).
Definition overwrite (buf data : list Z) : list Z := data ++ skipn (length data) buf.

(** [sbrk] returns a pointer; -1 is its last value. *)
Definition sbrk (n : Z) : prog Z := r <- sysret (CSbrk n) ;; Ret (u64 r).
Definition sbrk_failed : Z := 2 ^ 64 - 1.

Definition poke (a v : Z) : prog unit :=
  r <- sysret (CAccess a 1 (Some v)) ;; if r <? 0 then abort else Ret tt.
Definition peek (a : Z) : prog Z :=
  r <- sysret (CAccess a 1 None) ;; if r <? 0 then abort else Ret r.

(** [read(fd, buf, n)]: its result and the array afterwards. *)
Definition read_into (fd n : Z) (buf : list Z) : prog (Z * list Z) :=
  r <- sys (CRead fd n) ;; Ret (r_ret r, overwrite buf (delivered r)).

(** [for(i = 0; i < n; i++)], from [i] on, with [k] turns. *)
Fixpoint for_ (k : nat) (i : Z) (body : Z -> prog unit) : prog unit :=
  match k with
  | O => Ret tt
  | S k => body i ;; for_ k (i + 1) body
  end.

Section Programs.
Variable fmt_ptr : Z -> list Z.
Abbreviation printf := (printf fmt_ptr).

Definition bail (bad : bool) (fmt : list Z) (ap : list arg) : prog unit :=
  if bad then printf fmt ap ;; exit_ 1 else Ret tt.

(** [if(bad) { printf("%s: msg\n", s); exit(1); }] *)
Definition fails (s : list Z) (bad : bool) (msg : string) : prog unit :=
  bail bad ($"%s: " ++ line msg) [AStr (Some s)].

(** [fork], in the child [child]; the pid in the parent. *)
Definition fork_child (child : prog unit) (failed : Z -> prog unit) : prog Z :=
  pid <- sysret CFork ;;
  failed pid ;;
  (if pid =? 0 then child else Ret tt) ;;
  Ret pid.

(** * The driver *)

Definition test : Type := ((list Z -> prog unit) * list Z)%type.

(** [xstatus] is not initialised. *)
Definition run (junk : Z) (t : test) : prog bool :=
  let '(f, s) := t in
  printf ($"test %s: ") [AStr (Some s)] ;;
  pid <- sysret CFork ;;
  bail (pid <? 0) (line "runtest: fork error") [] ;;
  if pid =? 0 then f s ;; exit_ 0
  else
    xstatus <- wait_status junk ;;
    (if xstatus <>? 0 then printf (line "FAILED") [] else printf (line "OK") []) ;;
    Ret (xstatus =? 0).

(** [strcmp(t->s, justone) == 0] on two strings. *)
Definition chosen (justone : option (list Z)) (s : list Z) : bool :=
  match justone with
  | None => true
  | Some j => match strcmp (S (length s)) (store (mem_of 0 (s ++ [0])) 65536 (j ++ [0])) 0 65536 with
              | Some c => c =? 0
              | None => false
              end
  end.

Fixpoint runtests (junk : Z) (tests : list test) (justone : option (list Z)) : prog Z :=
  match tests with
  | [] => Ret 0
  | t :: tests =>
      if chosen justone (snd t) then
        passed <- run junk t ;;
        if negb passed then printf (line "SOME TESTS FAILED") [] ;; Ret 1 else runtests junk tests justone
      else runtests junk tests justone
  end.

Definition countfree_child_turn (fd1 : Z) (_ : unit) : prog (unit + unit) :=
  a <- sbrk 4096 ;;
  if a =? sbrk_failed then Ret (inr tt)
  else
    poke (u64 (a + 4096 - 1)) 1 ;;
    n <- sysret (CWrite fd1 ($"x")) ;;
    bail (n <>? 1) (line "write() failed in countfree()") [] ;;
    Ret (inl tt).

Definition countfree_turn (fd0 : Z) (n : Z) : prog (Z + Z) :=
  cc <- sysret (CRead fd0 1) ;;
  bail (cc <? 0) (line "read() failed in countfree()") [] ;;
  if cc =? 0 then Ret (inr n) else Ret (inl (s32 (n + 1))).

Definition countfree : prog Z :=
  r <- sys CPipe ;;
  bail (r_ret r <? 0) (line "pipe() failed in countfree()") [] ;;
  let fds0 := nth 0 (r_out r) 0 in
  let fds1 := nth 1 (r_out r) 0 in
  pid <- sysret CFork ;;
  bail (pid <? 0) (line "fork failed in countfree()") [] ;;
  (if pid =? 0 then
     run_call (CClose fds0) ;;
     ITree.iter (countfree_child_turn fds1) tt ;;
     exit_ 0
   else Ret tt) ;;
  run_call (CClose fds1) ;;
  n <- ITree.iter (countfree_turn fds0) 0 ;;
  run_call (CClose fds0) ;;
  run_call (CWait false) ;;
  Ret n.

Section Drive.
Variables (junk : Z) (quicktests slowtests : list test).

(** One turn of [do ... while(continuous)]. *)
Definition drive_turn (quick : bool) (continuous : Z) (justone : option (list Z)) (_ : unit) : prog (unit + Z) :=
  printf (line "usertests starting") [] ;;
  free0 <- countfree ;;
  q <- runtests junk quicktests justone ;;
  if (q <>? 0) && (continuous <>? 2) then Ret (inr 1)
  else
    sl <- (if quick then Ret 0
           else
             (match justone with None => printf (line "usertests slow tests starting") [] | Some _ => Ret tt end) ;;
             runtests junk slowtests justone) ;;
    if (sl <>? 0) && (continuous <>? 2) then Ret (inr 1)
    else
      free1 <- countfree ;;
      (if free1 <? free0 then
         printf (line "FAILED -- lost some free pages %d (out of %d)") [AInt free1; AInt free0]
       else Ret tt) ;;
      if (free1 <? free0) && (continuous <>? 2) then Ret (inr 1)
      else if continuous =? 0 then Ret (inr 0) else Ret (inl tt).

Definition drivetests (quick : bool) (continuous : Z) (justone : option (list Z)) : prog Z :=
  ITree.iter (drive_turn quick continuous justone) tt.

(** The options: [Some (quick, continuous, justone)], or the usage message. *)
Definition options (argv : list (list Z)) : option (bool * Z * option (list Z)) :=
  match argv with
  | [_; a] =>
      if chosen (Some ($"-q")) a then Some (true, 0, None)
      else if chosen (Some ($"-c")) a then Some (false, 1, None)
      else if chosen (Some ($"-C")) a then Some (false, 2, None)
      else if nth 0 a 0 <>? #"-" then Some (false, 0, Some a)
      else None
  | _ => if len argv >? 1 then None else Some (false, 0, None)
  end.

Definition main (argv : list (list Z)) : prog unit :=
  match options argv with
  | None => printf (line "Usage: usertests [-c] [-C] [-q] [testname]") [] ;; exit_ 1
  | Some (quick, continuous, justone) =>
      r <- drivetests quick continuous justone ;;
      (if r <>? 0 then exit_ 1 else Ret tt) ;;
      printf (line "ALL TESTS PASSED") [] ;;
      exit_ 0
  end.
End Drive.
End Programs.
