(* ===== verification/UtFiles.v ===== *)
(** src/user/usertests.c: the tests of files and directories. *)

From ITree Require Import ITree.
From S2P Require Import Prelude Mem Sys Ulib Printf ShParse Tools Tests Grind Utests.
Import ITreeNotations.
Local Open Scope itree_scope.
Local Open Scope zm_scope.

Section Programs.
Variable fmt_ptr : Z -> list Z.
(** What a local variable, and a local array, hold before they are assigned. *)
Variables (junk : Z) (garbage : list Z).
Abbreviation printf := (printf fmt_ptr).
Abbreviation bail := (bail fmt_ptr).
Abbreviation fails := (fails fmt_ptr).

(** * Truncation *)

Definition tf : list Z := $"truncfile".

Definition wanted (s : list Z) (n k : Z) : prog unit :=
  bail (n <>? k) ($"%s: read %d bytes, wanted " ++ [#"0" + k; newline]) [AStr (Some s); AInt n].

Definition truncate1 (s : list Z) : prog unit :=
  run_call (CUnlink tf) ;;
  fd1 <- sysret (COpen tf (O_CREATE .| O_WRONLY .| O_TRUNC)) ;;
  run_call (CWrite fd1 ($"abcd")) ;;
  run_call (CClose fd1) ;;
  fd2 <- sysret (COpen tf O_RDONLY) ;;
  n <- sysret (CRead fd2 32) ;;
  wanted s n 4 ;;
  fd1 <- sysret (COpen tf (O_WRONLY .| O_TRUNC)) ;;
  fd3 <- sysret (COpen tf O_RDONLY) ;;
  n <- sysret (CRead fd3 32) ;;
  (if n <>? 0 then printf (line "aaa fd3=%d") [AInt fd3] else Ret tt) ;;
  wanted s n 0 ;;
  n <- sysret (CRead fd2 32) ;;
  (if n <>? 0 then printf (line "bbb fd2=%d") [AInt fd2] else Ret tt) ;;
  wanted s n 0 ;;
  run_call (CWrite fd1 ($"abcdef")) ;;
  n <- sysret (CRead fd3 32) ;;
  wanted s n 6 ;;
  n <- sysret (CRead fd2 32) ;;
  wanted s n 2 ;;
  run_call (CUnlink tf) ;;
  run_call (CClose fd1) ;;
  run_call (CClose fd2) ;;
  run_call (CClose fd3).

Definition truncate2 (s : list Z) : prog unit :=
  run_call (CUnlink tf) ;;
  fd1 <- sysret (COpen tf (O_CREATE .| O_TRUNC .| O_WRONLY)) ;;
  run_call (CWrite fd1 ($"abcd")) ;;
  fd2 <- sysret (COpen tf (O_TRUNC .| O_WRONLY)) ;;
  n <- sysret (CWrite fd1 ($"x")) ;;
  bail (n <>? -1) (line "%s: write returned %d, expected -1") [AStr (Some s); AInt n] ;;
  run_call (CUnlink tf) ;;
  run_call (CClose fd1) ;;
  run_call (CClose fd2).

Definition truncate3_child (s : list Z) (_ : Z) : prog unit :=
  fd <- sysret (COpen tf O_WRONLY) ;;
  fails s (fd <? 0) "open failed" ;;
  n <- sysret (CWrite fd ($"1234567890")) ;;
  bail (n <>? 10) (line "%s: write got %d, expected 10") [AStr (Some s); AInt n] ;;
  run_call (CClose fd) ;;
  fd <- sysret (COpen tf O_RDONLY) ;;
  run_call (CRead fd 32) ;;
  run_call (CClose fd).

Definition truncate3_parent (s : list Z) (_ : Z) : prog unit :=
  fd <- sysret (COpen tf (O_CREATE .| O_WRONLY .| O_TRUNC)) ;;
  fails s (fd <? 0) "open failed" ;;
  n <- sysret (CWrite fd ($"xxx")) ;;
  bail (n <>? 3) (line "%s: write got %d, expected 3") [AStr (Some s); AInt n] ;;
  run_call (CClose fd).

Definition truncate3 (s : list Z) : prog unit :=
  fd <- sysret (COpen tf (O_CREATE .| O_TRUNC .| O_WRONLY)) ;;
  run_call (CClose fd) ;;
  fork_child (for_ 100 0 (truncate3_child s) ;; exit_ 0) (fun pid => fails s (pid <? 0) "fork failed") ;;
  for_ 150 0 (truncate3_parent s) ;;
  xstatus <- wait_status junk ;;
  run_call (CUnlink tf) ;;
  exit_ xstatus.

(** * The current directory *)

Definition iputtest (s : list Z) : prog unit :=
  r <- sysret (CMkdir ($"iputdir")) ;;
  fails s (r <? 0) "mkdir failed" ;;
  r <- sysret (CChdir ($"iputdir")) ;;
  fails s (r <? 0) "chdir iputdir failed" ;;
  r <- sysret (CUnlink ($"../iputdir")) ;;
  fails s (r <? 0) "unlink ../iputdir failed" ;;
  r <- sysret (CChdir ($"/")) ;;
  fails s (r <? 0) "chdir / failed".

Definition exitiput_child (s : list Z) : prog unit :=
  r <- sysret (CMkdir ($"iputdir")) ;;
  fails s (r <? 0) "mkdir failed" ;;
  r <- sysret (CChdir ($"iputdir")) ;;
  fails s (r <? 0) "child chdir failed" ;;
  r <- sysret (CUnlink ($"../iputdir")) ;;
  fails s (r <? 0) "unlink ../iputdir failed" ;;
  exit_ 0.

Definition exitiputtest (s : list Z) : prog unit :=
  fork_child (exitiput_child s) (fun pid => fails s (pid <? 0) "fork failed") ;;
  xstatus <- wait_status junk ;;
  exit_ xstatus.

Definition openiput_child (s : list Z) : prog unit :=
  fd <- sysret (COpen ($"oidir") O_RDWR) ;;
  fails s (fd >=? 0) "open directory for write succeeded" ;;
  exit_ 0.

Definition openiputtest (s : list Z) : prog unit :=
  r <- sysret (CMkdir ($"oidir")) ;;
  fails s (r <? 0) "mkdir oidir failed" ;;
  fork_child (openiput_child s) (fun pid => fails s (pid <? 0) "fork failed") ;;
  run_call (CSleep 1) ;;
  r <- sysret (CUnlink ($"oidir")) ;;
  fails s (r <>? 0) "unlink failed" ;;
  xstatus <- wait_status junk ;;
  exit_ xstatus.

(** * Opening, writing, reading *)

Definition opentest (s : list Z) : prog unit :=
  fd <- sysret (COpen ($"echo") 0) ;;
  fails s (fd <? 0) "open echo failed!" ;;
  run_call (CClose fd) ;;
  fd <- sysret (COpen ($"doesnotexist") 0) ;;
  fails s (fd >=? 0) "open doesnotexist succeeded!".

Definition writetest_turn (s : list Z) (fd i : Z) : prog unit :=
  n <- sysret (CWrite fd ($"aaaaaaaaaa")) ;;
  bail (n <>? 10) (line "%s: error: write aa %d new file failed") [AStr (Some s); AInt i] ;;
  n <- sysret (CWrite fd ($"bbbbbbbbbb")) ;;
  bail (n <>? 10) (line "%s: error: write bb %d new file failed") [AStr (Some s); AInt i].

Definition writetest (s : list Z) : prog unit :=
  fd <- sysret (COpen ($"small") (O_CREATE .| O_RDWR)) ;;
  fails s (fd <? 0) "error: creat small failed!" ;;
  for_ 100 0 (writetest_turn s fd) ;;
  run_call (CClose fd) ;;
  fd <- sysret (COpen ($"small") O_RDONLY) ;;
  fails s (fd <? 0) "error: open small failed!" ;;
  i <- sysret (CRead fd (100 * 10 * 2)) ;;
  fails s (i <>? 100 * 10 * 2) "read failed" ;;
  run_call (CClose fd) ;;
  r <- sysret (CUnlink ($"small")) ;;
  fails s (r <? 0) "unlink small failed".

(** The first int of [buf], little-endian. *)
Definition int_bytes (v : Z) : list Z := [u8 v; u8 (Z.shiftr v 8); u8 (Z.shiftr v 16); u8 (Z.shiftr v 24)].
Definition int_at0 (buf : list Z) : Z :=
  s32 (nth 0 buf 0 + 2 ^ 8 * nth 1 buf 0 + 2 ^ 16 * nth 2 buf 0 + 2 ^ 24 * nth 3 buf 0).

Definition writebig_read (s : list Z) (fd : Z) (st : Z * list Z) : prog (Z * list Z + unit) :=
  let '(n, buf) := st in
  r <- read_into fd BSIZE buf ;;
  let '(i, buf) := r in
  if i =? 0 then
    bail (n =? MAXFILE - 1) ($"%s: read only %d blocks from big") [AStr (Some s); AInt n] ;;
    Ret (inr tt)
  else
    bail (i <>? BSIZE) (line "%s: read failed %d") [AStr (Some s); AInt i] ;;
    bail (int_at0 buf <>? n) (line "%s: read content of block %d is %d") [AStr (Some s); AInt n; AInt (int_at0 buf)] ;;
    Ret (inl (s32 (n + 1), buf)).

Definition writebig (s : list Z) : prog unit :=
  fd <- sysret (COpen ($"big") (O_CREATE .| O_RDWR)) ;;
  fails s (fd <? 0) "error: creat big failed!" ;;
  for_ (Z.to_nat MAXFILE) 0 (fun i =>
    n <- sysret (CWrite fd (firstn (Z.to_nat BSIZE) (overwrite buf0 (int_bytes i)))) ;;
    fails s (n <>? BSIZE) "error: write big file failed") ;;
  run_call (CClose fd) ;;
  fd <- sysret (COpen ($"big") O_RDONLY) ;;
  fails s (fd <? 0) "error: open big failed!" ;;
  ITree.iter (writebig_read s fd) (0, overwrite buf0 (int_bytes (MAXFILE - 1))) ;;
  run_call (CClose fd) ;;
  r <- sysret (CUnlink ($"big")) ;;
  fails s (r <? 0) "unlink big failed".

Definition createtest (_ : list Z) : prog unit :=
  let name i := [#"a"; u8 (#"0" + i)] in
  for_ 52 0 (fun i => fd <- sysret (COpen (name i) (O_CREATE .| O_RDWR)) ;; run_call (CClose fd)) ;;
  for_ 52 0 (fun i => run_call (CUnlink (name i))).

Definition dirtest (s : list Z) : prog unit :=
  r <- sysret (CMkdir ($"dir0")) ;;
  fails s (r <? 0) "mkdir failed" ;;
  r <- sysret (CChdir ($"dir0")) ;;
  fails s (r <? 0) "chdir dir0 failed" ;;
  r <- sysret (CChdir ($"..")) ;;
  fails s (r <? 0) "chdir .. failed" ;;
  r <- sysret (CUnlink ($"dir0")) ;;
  fails s (r <? 0) "unlink dir0 failed".

(** * Shared files *)

Definition count_byte (c : Z) (l : list Z) : Z := len (filter (Z.eqb c) l).

(** The counters after a read: all ten bytes of [buf] are looked at. *)
Definition sharedfd_read (fd : Z) (st : Z * Z * list Z) : prog (Z * Z * list Z + Z * Z) :=
  let '(nc, np, buf) := st in
  r <- read_into fd 10 buf ;;
  let '(n, buf) := r in
  if n >? 0 then
    Ret (inl (nc + count_byte (#"c") (firstn 10 buf), np + count_byte (#"p") (firstn 10 buf), buf))
  else Ret (inr (nc, np)).

Definition sharedfd (s : list Z) : prog unit :=
  run_call (CUnlink ($"sharedfd")) ;;
  fd <- sysret (COpen ($"sharedfd") (O_CREATE .| O_RDWR)) ;;
  bail (fd <? 0) ($"%s: cannot open sharedfd for writing") [AStr (Some s)] ;;
  pid <- sysret CFork ;;
  let buf := repeat (if pid =? 0 then #"c" else #"p") 10 in
  for_ 1000 0 (fun _ =>
    n <- sysret (CWrite fd buf) ;;
    fails s (n <>? 10) "write sharedfd failed") ;;
  (if pid =? 0 then exit_ 0
   else
     xstatus <- wait_status junk ;;
     if xstatus <>? 0 then exit_ xstatus else Ret tt) ;;
  run_call (CClose fd) ;;
  fd <- sysret (COpen ($"sharedfd") 0) ;;
  fails s (fd <? 0) "cannot open sharedfd for reading" ;;
  r <- ITree.iter (sharedfd_read fd) (0, 0, buf) ;;
  let '(nc, np) := r in
  run_call (CClose fd) ;;
  run_call (CUnlink ($"sharedfd")) ;;
  if (nc =? 1000 * 10) && (np =? 1000 * 10) then exit_ 0
  else printf (line "%s: nc/np test fails") [AStr (Some s)] ;; exit_ 1.

Definition fourfiles_child (s fname : list Z) (pi : Z) : prog unit :=
  fd <- sysret (COpen fname (O_CREATE .| O_RDWR)) ;;
  bail (fd <? 0) (line "create failed") [AStr (Some s)] ;;
  for_ 12 0 (fun _ =>
    n <- sysret (CWrite fd (repeat (#"0" + pi) 500)) ;;
    bail (n <>? 500) (line "write failed %d") [AInt n]) ;;
  exit_ 0.

Definition fourfiles_read (s : list Z) (fd i : Z) (total : Z) : prog (Z + Z) :=
  r <- sys (CRead fd BUFSZ) ;;
  let n := r_ret r in
  if n >? 0 then
    bail (negb (forallb (Z.eqb (#"0" + i)) (delivered r))) (line "wrong char") [AStr (Some s)] ;;
    Ret (inl (s32 (total + n)))
  else Ret (inr total).

Definition four_name (i : Z) : list Z := [#"f"; #"0" + i].

Definition fourfiles (s : list Z) : prog unit :=
  for_ 4 0 (fun pi =>
    run_call (CUnlink (four_name pi)) ;;
    fork_child (fourfiles_child s (four_name pi) pi) (fun pid => bail (pid <? 0) (line "fork failed") [AStr (Some s)]) ;;
    Ret tt) ;;
  for_ 4 0 (fun _ =>
    xstatus <- wait_status junk ;;
    if xstatus <>? 0 then exit_ xstatus else Ret tt) ;;
  for_ 4 0 (fun i =>
    fd <- sysret (COpen (four_name i) 0) ;;
    total <- ITree.iter (fourfiles_read s fd i) 0 ;;
    run_call (CClose fd) ;;
    bail (total <>? 12 * 500) (line "wrong length %d") [AInt total] ;;
    run_call (CUnlink (four_name i))).

Definition cd_name (a i : Z) : list Z := [u8 (#"p" + a); #"0" + i].

Definition createdelete_child (s : list Z) (pi : Z) : prog unit :=
  for_ 20 0 (fun i =>
    fd <- sysret (COpen (cd_name pi i) (O_CREATE .| O_RDWR)) ;;
    fails s (fd <? 0) "create failed" ;;
    run_call (CClose fd) ;;
    if (i >? 0) && (i mod 2 =? 0) then
      r <- sysret (CUnlink (cd_name pi (i / 2))) ;;
      fails s (r <? 0) "unlink failed"
    else Ret tt) ;;
  exit_ 0.

Definition createdelete_look (s : list Z) (i pi : Z) : prog unit :=
  let name := cd_name pi i in
  fd <- sysret (COpen name 0) ;;
  (if ((i =? 0) || (i >=? 20 / 2)) && (fd <? 0) then
     bail true (line "%s: oops createdelete %s didn't exist") [AStr (Some s); AStr (Some name)]
   else
     bail ((i >=? 1) && (i <? 20 / 2) && (fd >=? 0)) (line "%s: oops createdelete %s did exist")
       [AStr (Some s); AStr (Some name)]) ;;
  if fd >=? 0 then run_call (CClose fd) else Ret tt.

(** The last loop names the files by [i] where [pi] is meant. *)
Definition createdelete (s : list Z) : prog unit :=
  for_ 4 0 (fun pi =>
    fork_child (createdelete_child s pi) (fun pid => bail (pid <? 0) (line "fork failed") [AStr (Some s)]) ;;
    Ret tt) ;;
  for_ 4 0 (fun _ =>
    xstatus <- wait_status junk ;;
    if xstatus <>? 0 then exit_ 1 else Ret tt) ;;
  for_ 20 0 (fun i => for_ 4 0 (createdelete_look s i)) ;;
  for_ 20 0 (fun i => for_ 4 0 (fun _ => run_call (CUnlink (cd_name i i)))).
End Programs.
