(* ===== verification/UtDirs.v ===== *)
(** src/user/usertests.c: the tests of links, directories and full disks. *)

From ITree Require Import ITree.
From S2P Require Import Prelude Mem Sys Ulib Printf ShParse Tools Ls Tests Grind Utests UtFiles.
Import ITreeNotations.
Local Open Scope itree_scope.
Local Open Scope zm_scope.

Section Programs.
Variable fmt_ptr : Z -> list Z.
Variables (junk : Z) (garbage : list Z).
Abbreviation printf := (printf fmt_ptr).
Abbreviation bail := (bail fmt_ptr).
Abbreviation fails := (fails fmt_ptr).

(** A local array of [n] bytes that was not assigned. *)
Definition uninit (n : nat) : list Z := firstn n (garbage ++ repeat 0 n).

(** * Links *)

Definition unlinkread (s : list Z) : prog unit :=
  fd <- sysret (COpen ($"unlinkread") (O_CREATE .| O_RDWR)) ;;
  fails s (fd <? 0) "create unlinkread failed" ;;
  run_call (CWrite fd ($"hello")) ;;
  run_call (CClose fd) ;;
  fd <- sysret (COpen ($"unlinkread") O_RDWR) ;;
  fails s (fd <? 0) "open unlinkread failed" ;;
  r <- sysret (CUnlink ($"unlinkread")) ;;
  fails s (r <>? 0) "unlink unlinkread failed" ;;
  fd1 <- sysret (COpen ($"unlinkread") (O_CREATE .| O_RDWR)) ;;
  run_call (CWrite fd1 ($"yyy")) ;;
  run_call (CClose fd1) ;;
  r <- read_into fd BUFSZ buf0 ;;
  let '(n, buf) := r in
  bail (n <>? 5) ($"%s: unlinkread read failed") [AStr (Some s)] ;;
  fails s (nth 0 buf 0 <>? #"h") "unlinkread wrong data" ;;
  n <- sysret (CWrite fd (firstn 10 buf)) ;;
  fails s (n <>? 10) "unlinkread write failed" ;;
  run_call (CClose fd) ;;
  run_call (CUnlink ($"unlinkread")).

Definition linktest (s : list Z) : prog unit :=
  run_call (CUnlink ($"lf1")) ;;
  run_call (CUnlink ($"lf2")) ;;
  fd <- sysret (COpen ($"lf1") (O_CREATE .| O_RDWR)) ;;
  fails s (fd <? 0) "create lf1 failed" ;;
  n <- sysret (CWrite fd ($"hello")) ;;
  fails s (n <>? 5) "write lf1 failed" ;;
  run_call (CClose fd) ;;
  r <- sysret (CLink ($"lf1") ($"lf2")) ;;
  fails s (r <? 0) "link lf1 lf2 failed" ;;
  run_call (CUnlink ($"lf1")) ;;
  r <- sysret (COpen ($"lf1") 0) ;;
  fails s (r >=? 0) "unlinked lf1 but it is still there!" ;;
  fd <- sysret (COpen ($"lf2") 0) ;;
  fails s (fd <? 0) "open lf2 failed" ;;
  n <- sysret (CRead fd BUFSZ) ;;
  fails s (n <>? 5) "read lf2 failed" ;;
  run_call (CClose fd) ;;
  r <- sysret (CLink ($"lf2") ($"lf2")) ;;
  fails s (r >=? 0) "link lf2 lf2 succeeded! oops" ;;
  run_call (CUnlink ($"lf2")) ;;
  r <- sysret (CLink ($"lf2") ($"lf1")) ;;
  fails s (r >=? 0) "link non-existent succeeded! oops" ;;
  r <- sysret (CLink ($".") ($"lf1")) ;;
  fails s (r >=? 0) "link . lf1 succeeded! oops".

Definition c_file (i : Z) : list Z := [#"C"; #"0" + i].

(** The first loop; the pid is not tested for failure. *)
Definition concreate_make (i : Z) : prog unit :=
  let file := c_file i in
  run_call (CUnlink file) ;;
  pid <- sysret CFork ;;
  (if (pid <>? 0) && (i mod 3 =? 1) then run_call (CLink ($"C0") file)
   else if (pid =? 0) && (i mod 5 =? 1) then run_call (CLink ($"C0") file)
   else
     fd <- sysret (COpen file (O_CREATE .| O_RDWR)) ;;
     bail (fd <? 0) (line "concreate create %s failed") [AStr (Some file)] ;;
     run_call (CClose fd)) ;;
  if pid =? 0 then exit_ 0
  else
    xstatus <- wait_status junk ;;
    if xstatus <>? 0 then exit_ 1 else Ret tt.

(** A directory entry is 32 bytes: an inode number of four, the length of the
    name, and 27 bytes of name.  [fa] marks the files seen, [n] counts them. *)
Definition concreate_read (s : list Z) (fd : Z) (st : list Z * list bool * Z) : prog (list Z * list bool * Z + Z) :=
  let '(de, fa, n) := st in
  r <- read_into fd 32 de ;;
  let '(k, de) := r in
  if k >? 0 then
    if int_at0 de =? 0 then Ret (inl (de, fa, n))
    else
      let name := skipn 5 de in
      if (nth 0 name 0 =? #"C") && (nth 2 name 0 =? 0) then
        let i := nth 1 name 0 - #"0" in
        bail ((i <? 0) || (i >=? 40)) (line "%s: concreate weird file %s") [AStr (Some s); AStr (Some (until_nul name))] ;;
        bail (nth (Z.to_nat i) fa false) (line "%s: concreate duplicate file %s")
          [AStr (Some s); AStr (Some (until_nul name))] ;;
        Ret (inl (de, list_set fa (Z.to_nat i) true, s32 (n + 1)))
      else Ret (inl (de, fa, n))
  else Ret (inr n).

Definition concreate_unmake (s : list Z) (i : Z) : prog unit :=
  let file := c_file i in
  pid <- sysret CFork ;;
  fails s (pid <? 0) "fork failed" ;;
  (if ((i mod 3 =? 0) && (pid =? 0)) || ((i mod 3 =? 1) && (pid <>? 0)) then
     for_ 6 0 (fun _ => fd <- sysret (COpen file 0) ;; run_call (CClose fd))
   else for_ 6 0 (fun _ => run_call (CUnlink file))) ;;
  if pid =? 0 then exit_ 0 else run_call (CWait false).

Definition concreate (s : list Z) : prog unit :=
  for_ 40 0 concreate_make ;;
  fd <- sysret (COpen ($".") 0) ;;
  n <- ITree.iter (concreate_read s fd) (uninit 32, repeat false 40, 0) ;;
  run_call (CClose fd) ;;
  fails s (n <>? 40) "concreate not enough files in directory listing" ;;
  for_ 40 0 (concreate_unmake s).

Fixpoint linkunlink_loop (k : nat) (x : Z) : prog unit :=
  match k with
  | O => Ret tt
  | S k =>
      let x := u32 (x * 1103515245 + 12345) in
      (if x mod 3 =? 0 then
         fd <- sysret (COpen ($"x") (O_RDWR .| O_CREATE)) ;; run_call (CClose fd)
       else if x mod 3 =? 1 then run_call (CLink ($"cat") ($"x"))
       else run_call (CUnlink ($"x"))) ;;
      linkunlink_loop k x
  end.

Definition linkunlink (s : list Z) : prog unit :=
  run_call (CUnlink ($"x")) ;;
  pid <- sysret CFork ;;
  fails s (pid <? 0) "fork failed" ;;
  linkunlink_loop 100 (if pid <>? 0 then 1 else 97) ;;
  if pid <>? 0 then run_call (CWait false) else exit_ 0.

(** * Directories *)

Definition subdir_make (s : list Z) : prog unit :=
  run_call (CUnlink ($"ff")) ;;
  r <- sysret (CMkdir ($"dd")) ;;
  fails s (r <>? 0) "mkdir dd failed" ;;
  fd <- sysret (COpen ($"dd/ff") (O_CREATE .| O_RDWR)) ;;
  fails s (fd <? 0) "create dd/ff failed" ;;
  run_call (CWrite fd ($"ff")) ;;
  run_call (CClose fd) ;;
  r <- sysret (CUnlink ($"dd")) ;;
  fails s (r >=? 0) "unlink dd (non-empty dir) succeeded!" ;;
  r <- sysret (CMkdir ($"/dd/dd")) ;;
  bail (r <>? 0) (line "subdir mkdir dd/dd failed") [AStr (Some s)] ;;
  fd <- sysret (COpen ($"dd/dd/ff") (O_CREATE .| O_RDWR)) ;;
  fails s (fd <? 0) "create dd/dd/ff failed" ;;
  run_call (CWrite fd ($"FF")) ;;
  run_call (CClose fd) ;;
  fd <- sysret (COpen ($"dd/dd/../ff") 0) ;;
  fails s (fd <? 0) "open dd/dd/../ff failed" ;;
  r <- read_into fd BUFSZ buf0 ;;
  let '(cc, buf) := r in
  fails s ((cc <>? 2) || (nth 0 buf 0 <>? #"f")) "dd/dd/../ff wrong content" ;;
  run_call (CClose fd).

Definition subdir_move (s : list Z) : prog unit :=
  r <- sysret (CLink ($"dd/dd/ff") ($"dd/dd/ffff")) ;;
  bail (r <>? 0) (line "link dd/dd/ff dd/dd/ffff failed") [AStr (Some s)] ;;
  r <- sysret (CUnlink ($"dd/dd/ff")) ;;
  fails s (r <>? 0) "unlink dd/dd/ff failed" ;;
  r <- sysret (COpen ($"dd/dd/ff") O_RDONLY) ;;
  fails s (r >=? 0) "open (unlinked) dd/dd/ff succeeded" ;;
  r <- sysret (CChdir ($"dd")) ;;
  fails s (r <>? 0) "chdir dd failed" ;;
  r <- sysret (CChdir ($"dd/../../dd")) ;;
  fails s (r <>? 0) "chdir dd/../../dd failed" ;;
  r <- sysret (CChdir ($"dd/../../../dd")) ;;
  bail (r <>? 0) (line "chdir dd/../../dd failed") [AStr (Some s)] ;;
  r <- sysret (CChdir ($"./..")) ;;
  fails s (r <>? 0) "chdir ./.. failed" ;;
  fd <- sysret (COpen ($"dd/dd/ffff") 0) ;;
  fails s (fd <? 0) "open dd/dd/ffff failed" ;;
  n <- sysret (CRead fd BUFSZ) ;;
  fails s (n <>? 2) "read dd/dd/ffff wrong len" ;;
  run_call (CClose fd).

(** A call that has to fail: [r >= 0] or [r == 0] is reported. *)
Definition no_open (s : list Z) (path : string) (mode : Z) (msg : string) : prog unit :=
  r <- sysret (COpen ($path) mode) ;; fails s (r >=? 0) msg.
Definition no_call (s : list Z) (c : Sys.call) (msg : string) : prog unit :=
  r <- sysret c ;; fails s (r =? 0) msg.

Definition subdir_refused (s : list Z) : prog unit :=
  no_open s "dd/dd/ff" O_RDONLY "open (unlinked) dd/dd/ff succeeded!" ;;
  no_open s "dd/ff/ff" (O_CREATE .| O_RDWR) "create dd/ff/ff succeeded!" ;;
  no_open s "dd/xx/ff" (O_CREATE .| O_RDWR) "create dd/xx/ff succeeded!" ;;
  no_open s "dd" O_CREATE "create dd succeeded!" ;;
  no_open s "dd" O_RDWR "open dd rdwr succeeded!" ;;
  no_open s "dd" O_WRONLY "open dd wronly succeeded!" ;;
  no_call s (CLink ($"dd/ff/ff") ($"dd/dd/xx")) "link dd/ff/ff dd/dd/xx succeeded!" ;;
  no_call s (CLink ($"dd/xx/ff") ($"dd/dd/xx")) "link dd/xx/ff dd/dd/xx succeeded!" ;;
  no_call s (CLink ($"dd/ff") ($"dd/dd/ffff")) "link dd/ff dd/dd/ffff succeeded!" ;;
  no_call s (CMkdir ($"dd/ff/ff")) "mkdir dd/ff/ff succeeded!" ;;
  no_call s (CMkdir ($"dd/xx/ff")) "mkdir dd/xx/ff succeeded!" ;;
  no_call s (CMkdir ($"dd/dd/ffff")) "mkdir dd/dd/ffff succeeded!" ;;
  no_call s (CUnlink ($"dd/xx/ff")) "unlink dd/xx/ff succeeded!" ;;
  no_call s (CUnlink ($"dd/ff/ff")) "unlink dd/ff/ff succeeded!" ;;
  no_call s (CChdir ($"dd/ff")) "chdir dd/ff succeeded!" ;;
  no_call s (CChdir ($"dd/xx")) "chdir dd/xx succeeded!".

Definition subdir_remove (s : list Z) : prog unit :=
  r <- sysret (CUnlink ($"dd/dd/ffff")) ;;
  fails s (r <>? 0) "unlink dd/dd/ff failed" ;;
  r <- sysret (CUnlink ($"dd/ff")) ;;
  fails s (r <>? 0) "unlink dd/ff failed" ;;
  no_call s (CUnlink ($"dd")) "unlink non-empty dd succeeded!" ;;
  r <- sysret (CUnlink ($"dd/dd")) ;;
  fails s (r <? 0) "unlink dd/dd failed" ;;
  r <- sysret (CUnlink ($"dd")) ;;
  fails s (r <? 0) "unlink dd failed".

Definition subdir (s : list Z) : prog unit :=
  subdir_make s ;; subdir_move s ;; subdir_refused s ;; subdir_remove s.

Definition name27 : list Z := $"123456789012345678901234567".
Definition name28 : list Z := $"1234567890123456789012345678".

(** [path] is built by strcpy in an array of 128 bytes. *)
Definition fourteen (s : list Z) : prog unit :=
  r <- sysret (CMkdir name27) ;;
  fails s (r <>? 0) "mkdir 27-char name failed" ;;
  no_call s (CMkdir name28) "mkdir 28-char name succeeded!" ;;
  let path := name27 ++ $"/" ++ name27 in
  r <- sysret (CMkdir path) ;;
  fails s (r <>? 0) "mkdir 27/27 failed" ;;
  let path := path ++ $"/" ++ name27 in
  fd <- sysret (COpen path O_CREATE) ;;
  fails s (fd <? 0) "create 27/27/27 failed" ;;
  run_call (CClose fd) ;;
  fd <- sysret (COpen path 0) ;;
  fails s (fd <? 0) "open 27/27/27 failed" ;;
  run_call (CClose fd) ;;
  no_call s (CMkdir path) "mkdir existing 27/27/27 succeeded!" ;;
  run_call (CUnlink path) ;;
  run_call (CUnlink (name27 ++ $"/" ++ name27)) ;;
  run_call (CUnlink name27).

Definition rmdot (s : list Z) : prog unit :=
  r <- sysret (CMkdir ($"dots")) ;;
  fails s (r <>? 0) "mkdir dots failed" ;;
  r <- sysret (CChdir ($"dots")) ;;
  fails s (r <>? 0) "chdir dots failed" ;;
  no_call s (CUnlink ($".")) "rm . worked!" ;;
  no_call s (CUnlink ($"..")) "rm .. worked!" ;;
  r <- sysret (CChdir ($"/")) ;;
  fails s (r <>? 0) "chdir / failed" ;;
  no_call s (CUnlink ($"dots/.")) "unlink dots/. worked!" ;;
  no_call s (CUnlink ($"dots/..")) "unlink dots/.. worked!" ;;
  r <- sysret (CUnlink ($"dots")) ;;
  fails s (r <>? 0) "unlink dots failed!".

Definition dirfile (s : list Z) : prog unit :=
  fd <- sysret (COpen ($"dirfile") O_CREATE) ;;
  fails s (fd <? 0) "create dirfile failed" ;;
  run_call (CClose fd) ;;
  no_call s (CChdir ($"dirfile")) "chdir dirfile succeeded!" ;;
  no_open s "dirfile/xx" 0 "create dirfile/xx succeeded!" ;;
  no_open s "dirfile/xx" O_CREATE "create dirfile/xx succeeded!" ;;
  no_call s (CMkdir ($"dirfile/xx")) "mkdir dirfile/xx succeeded!" ;;
  no_call s (CUnlink ($"dirfile/xx")) "unlink dirfile/xx succeeded!" ;;
  no_call s (CLink ($"README.md") ($"dirfile/xx")) "link to dirfile/xx succeeded!" ;;
  r <- sysret (CUnlink ($"dirfile")) ;;
  fails s (r <>? 0) "unlink dirfile failed!" ;;
  no_open s "." O_RDWR "open . for writing succeeded!" ;;
  fd <- sysret (COpen ($".") 0) ;;
  n <- sysret (CWrite fd ($"x")) ;;
  fails s (n >? 0) "write . succeeded!" ;;
  run_call (CClose fd).

(** [fd = open(path, O_CREATE); if(fd >= 0) close(fd);] *)
Definition try_create (path : list Z) : prog unit :=
  fd <- sysret (COpen path O_CREATE) ;; if fd >=? 0 then run_call (CClose fd) else Ret tt.

Definition iref (s : list Z) : prog unit :=
  for_ (Z.to_nat (NINODE + 1)) 0 (fun _ =>
    r <- sysret (CMkdir ($"irefd")) ;;
    fails s (r <>? 0) "mkdir irefd failed" ;;
    r <- sysret (CChdir ($"irefd")) ;;
    fails s (r <>? 0) "chdir irefd failed" ;;
    run_call (CMkdir ($"")) ;;
    run_call (CLink ($"README.md") ($"")) ;;
    try_create ($"") ;;
    try_create ($"xx") ;;
    run_call (CUnlink ($"xx"))) ;;
  for_ (Z.to_nat (NINODE + 1)) 0 (fun _ => run_call (CChdir ($"..")) ;; run_call (CUnlink ($"irefd"))) ;;
  run_call (CChdir ($"/")).

(** * Large files and directories *)

(** The sizes 499, 970, ... below [BUFSZ]. *)
Definition bigwrite (s : list Z) : prog unit :=
  run_call (CUnlink ($"bigwrite")) ;;
  for_ (Z.to_nat ((BUFSZ - 499 + 470) / 471)) 0 (fun k =>
    let sz := 499 + 471 * k in
    fd <- sysret (COpen ($"bigwrite") (O_CREATE .| O_RDWR)) ;;
    fails s (fd <? 0) "cannot create bigwrite" ;;
    for_ 2 0 (fun _ =>
      cc <- sysret (CWrite fd (firstn (Z.to_nat sz) buf0)) ;;
      bail (cc <>? sz) (line "%s: write(%d) ret %d") [AStr (Some s); AInt sz; AInt cc]) ;;
    run_call (CClose fd) ;;
    run_call (CUnlink ($"bigwrite"))).

Definition bigfile_read (s : list Z) (fd : Z) (st : Z * Z * list Z) : prog (Z * Z * list Z + Z) :=
  let '(i, total, buf) := st in
  r <- read_into fd 300 buf ;;
  let '(cc, buf) := r in
  fails s (cc <? 0) "read bigfile failed" ;;
  if cc =? 0 then Ret (inr total)
  else
    fails s (cc <>? 300) "short read bigfile" ;;
    fails s ((nth 0 buf 0 <>? i / 2) || (nth 299 buf 0 <>? i / 2)) "read bigfile wrong data" ;;
    Ret (inl (s32 (i + 1), s32 (total + cc), buf)).

Definition bigfile (s : list Z) : prog unit :=
  let dat := $"bigfile.dat" in
  run_call (CUnlink dat) ;;
  fd <- sysret (COpen dat (O_CREATE .| O_RDWR)) ;;
  bail (fd <? 0) ($"%s: cannot create bigfile") [AStr (Some s)] ;;
  for_ 20 0 (fun i =>
    n <- sysret (CWrite fd (repeat (u8 i) 600)) ;;
    fails s (n <>? 600) "write bigfile failed") ;;
  run_call (CClose fd) ;;
  fd <- sysret (COpen dat 0) ;;
  fails s (fd <? 0) "cannot open bigfile" ;;
  total <- ITree.iter (bigfile_read s fd) (0, 0, overwrite buf0 (repeat 19 600)) ;;
  run_call (CClose fd) ;;
  fails s (total <>? 20 * 600) "read bigfile wrong total" ;;
  run_call (CUnlink dat).

Definition bd_name (i : Z) : list Z := [#"x"; #"0" + i / 64; #"0" + i mod 64].

Definition bigdir (s : list Z) : prog unit :=
  run_call (CUnlink ($"bd")) ;;
  fd <- sysret (COpen ($"bd") O_CREATE) ;;
  fails s (fd <? 0) "bigdir create failed" ;;
  run_call (CClose fd) ;;
  for_ 500 0 (fun i =>
    r <- sysret (CLink ($"bd") (bd_name i)) ;;
    bail (r <>? 0) (line "%s: bigdir link(bd, %s) failed") [AStr (Some s); AStr (Some (bd_name i))]) ;;
  run_call (CUnlink ($"bd")) ;;
  for_ 500 0 (fun i =>
    r <- sysret (CUnlink (bd_name i)) ;;
    bail (r <>? 0) ($"%s: bigdir unlink failed") [AStr (Some s)]).

Definition manywrites_child (s : list Z) (ci : Z) : prog unit :=
  let name := [#"b"; #"a" + ci] in
  run_call (CUnlink name) ;;
  for_ 30 0 (fun _ =>
    for_ (Z.to_nat (ci + 1)) 0 (fun _ =>
      fd <- sysret (COpen name (O_CREATE .| O_RDWR)) ;;
      bail (fd <? 0) (line "%s: cannot create %s") [AStr (Some s); AStr (Some name)] ;;
      cc <- sysret (CWrite fd buf0) ;;
      bail (cc <>? BUFSZ) (line "%s: write(%d) ret %d") [AStr (Some s); AInt BUFSZ; AInt cc] ;;
      run_call (CClose fd)) ;;
    run_call (CUnlink name)) ;;
  run_call (CUnlink name) ;;
  exit_ 0.

Definition manywrites (s : list Z) : prog unit :=
  for_ 4 0 (fun ci =>
    fork_child (manywrites_child s ci) (fun pid => bail (pid <? 0) (line "fork failed") []) ;; Ret tt) ;;
  for_ 4 0 (fun _ => st <- wait_status 0 ;; if st <>? 0 then exit_ st else Ret tt) ;;
  exit_ 0.

(** * Running out of blocks and inodes *)

Definition badwrite (_ : list Z) : prog unit :=
  let junk_file := $"junk" in
  run_call (CUnlink junk_file) ;;
  for_ 600 0 (fun _ =>
    fd <- sysret (COpen junk_file (O_CREATE .| O_WRONLY)) ;;
    bail (fd <? 0) (line "open junk failed") [] ;;
    run_call (CRaw SYS_write [fd; 0xffffffffff; 1]) ;;
    run_call (CClose fd) ;;
    run_call (CUnlink junk_file)) ;;
  fd <- sysret (COpen junk_file (O_CREATE .| O_WRONLY)) ;;
  bail (fd <? 0) (line "open junk failed") [] ;;
  n <- sysret (CWrite fd ($"x")) ;;
  bail (n <>? 1) (line "write failed") [] ;;
  run_call (CClose fd) ;;
  run_call (CUnlink junk_file) ;;
  exit_ 0.

Definition big_name (i : Z) : list Z := until_nul ($"big" ++ [u8 (#"0" + i)]).
Definition zz_name (i : Z) : list Z := $"zz" ++ [u8 (#"0" + i / 32); u8 (#"0" + i mod 32)].

(** The blocks of one file: true when the disk is full. *)
Fixpoint fill_file (k : nat) (fd : Z) : prog bool :=
  match k with
  | O => Ret false
  | S k =>
      n <- sysret (CWrite fd (uninit (Z.to_nat BSIZE))) ;;
      if n <>? BSIZE then run_call (CClose fd) ;; Ret true else fill_file k fd
  end.

(** One turn of [for(fi = 0; done == 0; fi++)]: the final [fi]. *)
Definition diskfull_turn (s : list Z) (fi : Z) : prog (Z + Z) :=
  run_call (CUnlink (big_name fi)) ;;
  fd <- sysret (COpen (big_name fi) (O_CREATE .| O_RDWR .| O_TRUNC)) ;;
  if fd <? 0 then
    printf (line "%s: could not create file %s") [AStr (Some s); AStr (Some (big_name fi))] ;; Ret (inr fi)
  else
    done <- fill_file (Z.to_nat MAXFILE) fd ;;
    run_call (CClose fd) ;;
    Ret (if done : bool then inr (s32 (fi + 1)) else inl (s32 (fi + 1))).

(** [for(i = 0; i < nzz; i++)], left when a file cannot be created. *)
Fixpoint create_zz (k : nat) (i : Z) : prog unit :=
  match k with
  | O => Ret tt
  | S k =>
      run_call (CUnlink (zz_name i)) ;;
      fd <- sysret (COpen (zz_name i) (O_CREATE .| O_RDWR .| O_TRUNC)) ;;
      if fd <? 0 then Ret tt else run_call (CClose fd) ;; create_zz k (i + 1)
  end.

(** The message on a mkdir that succeeds has a [%s] without an argument. *)
Definition diskfull (s : list Z) : prog unit :=
  run_call (CUnlink ($"diskfulldir")) ;;
  fi <- ITree.iter (diskfull_turn s) 0 ;;
  create_zz 128 0 ;;
  r <- sysret (CMkdir ($"diskfulldir")) ;;
  (if r =? 0 then printf (line "%s: mkdir(diskfulldir) unexpectedly succeeded!") [] else Ret tt) ;;
  run_call (CUnlink ($"diskfulldir")) ;;
  for_ 128 0 (fun i => run_call (CUnlink (zz_name i))) ;;
  for_ (Z.to_nat fi) 0 (fun i => run_call (CUnlink (big_name i))).

Definition outofinodes (_ : list Z) : prog unit :=
  create_zz (32 * 32) 0 ;;
  for_ (32 * 32) 0 (fun i => run_call (CUnlink (zz_name i))).

Definition fs_name (n : Z) : list Z :=
  [#"f"; u8 (#"0" + n / 1000); #"0" + (n mod 1000) / 100; #"0" + (n mod 100) / 10; #"0" + n mod 10].

Definition fsfull_write (fd : Z) (total : Z) : prog (Z + Z) :=
  cc <- sysret (CWrite fd (firstn (Z.to_nat BSIZE) buf0)) ;;
  Ret (if cc <? BSIZE then inr total else inl (s32 (total + cc))).

Definition fsfull_turn (nfiles : Z) : prog (Z + Z) :=
  let name := fs_name nfiles in
  printf (line "writing %s") [AStr (Some name)] ;;
  fd <- sysret (COpen name (O_CREATE .| O_RDWR)) ;;
  if fd <? 0 then printf (line "open %s failed") [AStr (Some name)] ;; Ret (inr nfiles)
  else
    total <- ITree.iter (fsfull_write fd) 0 ;;
    printf (line "wrote %d bytes") [AInt total] ;;
    run_call (CClose fd) ;;
    Ret (if total =? 0 then inr nfiles else inl (s32 (nfiles + 1))).

(** In no table of tests.  The files are removed from the last one down. *)
Definition fsfull : prog unit :=
  printf (line "fsfull test") [] ;;
  nfiles <- ITree.iter fsfull_turn 0 ;;
  for_ (Z.to_nat (nfiles + 1)) 0 (fun i => run_call (CUnlink (fs_name (nfiles - i)))) ;;
  printf (line "fsfull test finished") [].
End Programs.
