(* ===== verification/UtProcs.v ===== *)
(** src/user/usertests.c: the tests of processes, pipes and bad pointers. *)

From ITree Require Import ITree.
From S2P Require Import Prelude Mem Sys Ulib Printf ShParse Tools Tests Grind Umalloc Utests UtFiles.
Import ITreeNotations.
Local Open Scope itree_scope.
Local Open Scope zm_scope.

Section Programs.
Variable fmt_ptr : Z -> list Z.
Variables (junk : Z) (garbage : list Z).
(** Where the program keeps a string or an array, and its stack pointer. *)
Variables (address : string -> Z) (sp : Z).
Abbreviation printf := (printf fmt_ptr).
Abbreviation bail := (bail fmt_ptr).
Abbreviation fails := (fails fmt_ptr).
Abbreviation exit_ := (@exit_ unit).

(** * Pointers outside the process *)

Definition wild : list Z := [0x80000000; 0xffffffffffffffff].

Fixpoint for_addrs (addrs : list Z) (body : Z -> prog unit) : prog unit :=
  match addrs with [] => Ret tt | a :: addrs => body a ;; for_addrs addrs body end.

Definition pipe_fds (r : reply) : Z * Z := (nth 0 (r_out r) junk, nth 1 (r_out r) junk).

Definition copyin (_ : list Z) : prog unit :=
  for_addrs wild (fun addr =>
    fd <- sysret (COpen ($"copyin1") (O_CREATE .| O_WRONLY)) ;;
    bail (fd <? 0) (line "open(copyin1) failed") [] ;;
    n <- sysret (CRaw SYS_write [fd; addr; 8192]) ;;
    bail (n >=? 0) (line "write(fd, %p, 8192) returned %d, not -1") [AInt addr; AInt n] ;;
    run_call (CClose fd) ;;
    run_call (CUnlink ($"copyin1")) ;;
    n <- sysret (CRaw SYS_write [1; addr; 8192]) ;;
    bail (n >? 0) (line "write(1, %p, 8192) returned %d, not -1 or 0") [AInt addr; AInt n] ;;
    r <- sys CPipe ;;
    bail (r_ret r <? 0) (line "pipe() failed") [] ;;
    let '(fds0, fds1) := pipe_fds r in
    n <- sysret (CRaw SYS_write [fds1; addr; 8192]) ;;
    bail (n >? 0) (line "write(pipe, %p, 8192) returned %d, not -1 or 0") [AInt addr; AInt n] ;;
    run_call (CClose fds0) ;;
    run_call (CClose fds1)).

Definition copyout (_ : list Z) : prog unit :=
  for_addrs wild (fun addr =>
    fd <- sysret (COpen ($"README.md") 0) ;;
    bail (fd <? 0) (line "open(README.md) failed") [] ;;
    n <- sysret (CRaw SYS_read [fd; addr; 8192]) ;;
    bail (n >? 0) (line "read(fd, %p, 8192) returned %d, not -1 or 0") [AInt addr; AInt n] ;;
    run_call (CClose fd) ;;
    r <- sys CPipe ;;
    bail (r_ret r <? 0) (line "pipe() failed") [] ;;
    let '(fds0, fds1) := pipe_fds r in
    n <- sysret (CWrite fds1 ($"x")) ;;
    bail (n <>? 1) (line "pipe write failed") [] ;;
    n <- sysret (CRaw SYS_read [fds0; addr; 8192]) ;;
    bail (n >? 0) (line "read(pipe, %p, 8192) returned %d, not -1 or 0") [AInt addr; AInt n] ;;
    run_call (CClose fds0) ;;
    run_call (CClose fds1)).

Definition copyinstr1 (_ : list Z) : prog unit :=
  for_addrs wild (fun addr =>
    fd <- sysret (CRaw SYS_open [addr; O_CREATE .| O_WRONLY]) ;;
    bail (fd >=? 0) (line "open(%p) returned %d, not -1") [AInt addr; AInt fd]).

(** The path of MAXPATH characters; a message for exec prints [fd]. *)
Definition copyinstr2_paths : prog unit :=
  let b := repeat (#"x") (Z.to_nat MAXPATH) in
  ret <- sysret (CUnlink b) ;;
  bail (ret <>? -1) (line "unlink(%s) returned %d, not -1") [AStr (Some b); AInt ret] ;;
  fd <- sysret (COpen b (O_CREATE .| O_WRONLY)) ;;
  bail (fd <>? -1) (line "open(%s) returned %d, not -1") [AStr (Some b); AInt fd] ;;
  ret <- sysret (CLink b b) ;;
  bail (ret <>? -1) (line "link(%s, %s) returned %d, not -1") [AStr (Some b); AStr (Some b); AInt ret] ;;
  ret <- sysret (CExec b [$"xx"]) ;;
  bail (ret <>? -1) (line "exec(%s) returned %d, not -1") [AStr (Some b); AInt fd] ;;
  Ret tt.

(** By then [fd] is -1. *)
Definition copyinstr2 (_ : list Z) : prog unit :=
  copyinstr2_paths ;;
  pid <- sysret CFork ;;
  bail (pid <? 0) (line "fork failed") [] ;;
  (if pid =? 0 then
     let big := repeat (#"x") (Z.to_nat PGSIZE) in
     ret <- sysret (CExec ($"echo") [big; big; big]) ;;
     bail (ret <>? -1) (line "exec(echo, BIG) returned %d, not -1") [AInt (-1)] ;;
     exit_ 747
   else Ret tt) ;;
  st <- wait_status 0 ;;
  bail (st <>? 747) (line "exec(echo, BIG) succeeded, should have failed") [].

(** The string at [b] runs past the end of memory. *)
Definition copyinstr3 (_ : list Z) : prog unit :=
  sbrk 8192 ;;
  top <- sbrk 0 ;;
  (if top mod PGSIZE <>? 0 then sbrk (PGSIZE - top mod PGSIZE) ;; Ret tt else Ret tt) ;;
  top <- sbrk 0 ;;
  bail (top mod PGSIZE <>? 0) (line "oops") [] ;;
  let b := u64 (top - 1) in
  poke b (#"x") ;;
  ret <- sysret (CRaw SYS_unlink [b]) ;;
  bail (ret <>? -1) (line "unlink(%s) returned %d, not -1") [AInt b; AInt ret] ;;
  fd <- sysret (CRaw SYS_open [b; O_CREATE .| O_WRONLY]) ;;
  bail (fd <>? -1) (line "open(%s) returned %d, not -1") [AInt b; AInt fd] ;;
  ret <- sysret (CRaw SYS_link [b; b]) ;;
  bail (ret <>? -1) (line "link(%s, %s) returned %d, not -1") [AInt b; AInt b; AInt ret] ;;
  ret <- sysret (CRaw SYS_exec [b; address "args"]) ;;
  bail (ret <>? -1) (line "exec(%s) returned %d, not -1") [AInt b; AInt fd].

Definition rwsbrk (_ : list Z) : prog unit :=
  a <- sbrk 8192 ;;
  bail (a =? sbrk_failed) (line "sbrk(rwsbrk) failed") [] ;;
  r <- sbrk (-8192) ;;
  bail (r =? sbrk_failed) (line "sbrk(rwsbrk) shrink failed") [] ;;
  fd <- sysret (COpen ($"rwsbrk") (O_CREATE .| O_WRONLY)) ;;
  bail (fd <? 0) (line "open(rwsbrk) failed") [] ;;
  n <- sysret (CRaw SYS_write [fd; u64 (a + 4096); 1024]) ;;
  bail (n >=? 0) (line "write(fd, %p, 1024) returned %d, not -1") [AInt (u64 (a + 4096)); AInt n] ;;
  run_call (CClose fd) ;;
  run_call (CUnlink ($"rwsbrk")) ;;
  fd <- sysret (COpen ($"README.md") O_RDONLY) ;;
  bail (fd <? 0) (line "open(rwsbrk) failed") [] ;;
  n <- sysret (CRaw SYS_read [fd; u64 (a + 4096); 10]) ;;
  bail (n >=? 0) (line "read(fd, %p, 10) returned %d, not -1") [AInt (u64 (a + 4096)); AInt n] ;;
  run_call (CClose fd) ;;
  exit_ 0.

Definition validatetest (s : list Z) : prog unit :=
  for_ (Z.to_nat (1100 * 1024 / PGSIZE + 1)) 0 (fun i =>
    r <- sysret (CRaw SYS_link [address "nosuchfile"; PGSIZE * i]) ;;
    fails s (r <>? -1) "link should not succeed").

Definition argptest (s : list Z) : prog unit :=
  fd <- sysret (COpen ($"init") O_RDONLY) ;;
  fails s (fd <? 0) "open failed" ;;
  b <- sbrk 0 ;;
  run_call (CRaw SYS_read [fd; u64 (b - 1); -1]) ;;
  run_call (CClose fd).

Definition pgbug (_ : list Z) : prog unit :=
  let big := 0xeaeb0b5b00002f5e in
  run_call (CRaw SYS_exec [big; address "argv"]) ;;
  run_call (CRaw SYS_pipe [big]) ;;
  exit_ 0.

Definition badarg (_ : list Z) : prog unit :=
  for_ (Z.to_nat 50000) 0 (fun _ => run_call (CRaw SYS_exec [address "echo"; address "argv"])) ;;
  exit_ 0.

(** * exec and pipes *)

Definition exectest (s : list Z) : prog unit :=
  run_call (CUnlink ($"echo-ok")) ;;
  pid <- sysret CFork ;;
  fails s (pid <? 0) "fork failed" ;;
  (if pid =? 0 then
     run_call (CClose 1) ;;
     fd <- sysret (COpen ($"echo-ok") (O_CREATE .| O_WRONLY)) ;;
     fails s (fd <? 0) "create failed" ;;
     fails s (fd <>? 1) "wrong fd" ;;
     r <- sysret (CExec ($"echo") [$"echo"; $"OK"]) ;;
     fails s (r <? 0) "exec echo failed"
   else Ret tt) ;;
  w <- sys (CWait true) ;;
  let xstatus := nth 0 (r_out w) junk in
  (if r_ret w <>? pid then printf (line "%s: wait failed!") [AStr (Some s)] else Ret tt) ;;
  (if xstatus <>? 0 then exit_ xstatus else Ret tt) ;;
  fd <- sysret (COpen ($"echo-ok") O_RDONLY) ;;
  fails s (fd <? 0) "open failed" ;;
  r <- read_into fd 2 (firstn 3 garbage) ;;
  let '(n, buf) := r in
  fails s (n <>? 2) "read failed" ;;
  run_call (CUnlink ($"echo-ok")) ;;
  if (nth 0 buf 0 =? #"O") && (nth 1 buf 0 =? #"K") then exit_ 0
  else printf (line "%s: wrong output") [AStr (Some s)] ;; exit_ 1.

(** The bytes [seq], [seq + 1], ... as chars. *)
Fixpoint seq_bytes (k : nat) (seq : Z) : list Z :=
  match k with O => [] | S k => u8 seq :: seq_bytes k (seq + 1) end.

Fixpoint in_sequence (l : list Z) (seq : Z) : bool :=
  match l with [] => true | c :: l => (Z.land c 0xff =? Z.land seq 0xff) && in_sequence l (seq + 1) end.

(** The parent's loop over [total], [cc] and [seq]; [inr None] is the return. *)
Definition pipe1_read (s : list Z) (fds0 : Z) (st : Z * Z * Z) : prog (Z * Z * Z + option Z) :=
  let '(total, cc, seq) := st in
  r <- sys (CRead fds0 cc) ;;
  let n := r_ret r in
  if n >? 0 then
    if negb (in_sequence (delivered r) seq) then
      printf (line "%s: pipe1 oops 2") [AStr (Some s)] ;; Ret (inr None)
    else
      let cc := cc * 2 in
      Ret (inl (s32 (total + n), if cc >? BUFSZ then BUFSZ else cc, s32 (seq + n)))
  else Ret (inr (Some total)).

(** The message about the total prints it with [%s]. *)
Definition pipe1 (s : list Z) : prog unit :=
  r <- sys CPipe ;;
  fails s (r_ret r <>? 0) "pipe() failed" ;;
  let '(fds0, fds1) := pipe_fds r in
  pid <- sysret CFork ;;
  if pid =? 0 then
    run_call (CClose fds0) ;;
    for_ 5 0 (fun n =>
      w <- sysret (CWrite fds1 (seq_bytes 1033 (1033 * n))) ;;
      fails s (w <>? 1033) "pipe1 oops 1") ;;
    exit_ 0
  else if pid >? 0 then
    run_call (CClose fds1) ;;
    t <- ITree.iter (pipe1_read s fds0) (0, 1, 0) ;;
    match t with
    | None => Ret tt
    | Some total =>
        bail (total <>? 5 * 1033) (line "%s: pipe1 oops 3 total %d") [AInt total] ;;
        run_call (CClose fds0) ;;
        xstatus <- wait_status junk ;;
        exit_ xstatus
    end
  else printf (line "%s: fork() failed") [AStr (Some s)] ;; exit_ 1.

(** * fork, exit, wait, kill *)

Fixpoint killstatus_loop (s : list Z) (k : nat) (xst : Z) : prog unit :=
  match k with
  | O => Ret tt
  | S k =>
      pid1 <- fork_child (ITree.iter (fun _ : unit => run_call CGetpid ;; Ret (inl tt)) tt)
        (fun pid => fails s (pid <? 0) "fork failed") ;;
      run_call (CSleep 1) ;;
      run_call (CKill pid1) ;;
      xst <- wait_status xst ;;
      fails s (xst <>? -1) "status should be -1" ;;
      killstatus_loop s k xst
  end.

Definition killstatus (s : list Z) : prog unit := killstatus_loop s 100 junk ;; exit_ 0.

Definition preempt (s : list Z) : prog unit :=
  pid1 <- fork_child ITree.spin (fun pid => bail (pid <? 0) ($"%s: fork failed") [AStr (Some s)]) ;;
  pid2 <- fork_child ITree.spin (fun pid => fails s (pid <? 0) "fork failed") ;;
  p <- sys CPipe ;;
  let '(pfds0, pfds1) := pipe_fds p in
  pid3 <- fork_child
    (run_call (CClose pfds0) ;;
     n <- sysret (CWrite pfds1 ($"x")) ;;
     (if n <>? 1 then printf ($"%s: preempt write error") [AStr (Some s)] else Ret tt) ;;
     run_call (CClose pfds1) ;;
     ITree.spin)
    (fun pid => fails s (pid <? 0) "fork failed") ;;
  run_call (CClose pfds1) ;;
  n <- sysret (CRead pfds0 BUFSZ) ;;
  if n <>? 1 then printf ($"%s: preempt read error") [AStr (Some s)]
  else
    run_call (CClose pfds0) ;;
    printf ($"kill... ") [] ;;
    run_call (CKill pid1) ;; run_call (CKill pid2) ;; run_call (CKill pid3) ;;
    printf ($"wait... ") [] ;;
    run_call (CWait false) ;; run_call (CWait false) ;; run_call (CWait false).

Definition exitwait (s : list Z) : prog unit :=
  for_ 100 0 (fun i =>
    pid <- sysret CFork ;;
    fails s (pid <? 0) "fork failed" ;;
    if pid <>? 0 then
      w <- sys (CWait true) ;;
      fails s (r_ret w <>? pid) "wait wrong pid" ;;
      fails s (i <>? nth 0 (r_out w) junk) "wait wrong exit status"
    else exit_ i).

Definition reparent (s : list Z) : prog unit :=
  master_pid <- sysret CGetpid ;;
  for_ 200 0 (fun _ =>
    pid <- sysret CFork ;;
    fails s (pid <? 0) "fork failed" ;;
    if pid <>? 0 then
      w <- sysret (CWait false) ;;
      fails s (w <>? pid) "wait wrong pid"
    else
      pid2 <- sysret CFork ;;
      (if pid2 <? 0 then run_call (CKill master_pid) ;; exit_ 1 else Ret tt) ;;
      exit_ 0) ;;
  exit_ 0.

Definition twochildren (s : list Z) : prog unit :=
  for_ 1000 0 (fun _ =>
    fork_child (exit_ 0) (fun pid => fails s (pid <? 0) "fork failed") ;;
    fork_child (exit_ 0) (fun pid => fails s (pid <? 0) "fork failed") ;;
    run_call (CWait false) ;;
    run_call (CWait false)).

Definition forkfork_child : prog unit :=
  for_ 200 0 (fun _ =>
    pid1 <- sysret CFork ;;
    (if pid1 <? 0 then exit_ 1 else Ret tt) ;;
    (if pid1 =? 0 then exit_ 0 else Ret tt) ;;
    run_call (CWait false)) ;;
  exit_ 0.

Fixpoint forkfork_wait (s : list Z) (k : nat) (xstatus : Z) : prog unit :=
  match k with
  | O => Ret tt
  | S k =>
      xstatus <- wait_status xstatus ;;
      bail (xstatus <>? 0) ($"%s: fork in child failed") [AStr (Some s)] ;;
      forkfork_wait s k xstatus
  end.

Definition forkfork (s : list Z) : prog unit :=
  for_ 2 0 (fun _ =>
    fork_child forkfork_child (fun pid => bail (pid <? 0) ($"%s: fork failed") [AStr (Some s)]) ;; Ret tt) ;;
  forkfork_wait s 2 junk.

Definition stop : list Z := $"stopforking".

Definition forkforkfork_turn (_ : unit) : prog (unit + unit) :=
  fd <- sysret (COpen stop 0) ;;
  (if fd >=? 0 then exit_ 0 else Ret tt) ;;
  pid <- sysret CFork ;;
  (if pid <? 0 then touch stop else Ret tt) ;;
  Ret (inl tt).

Definition forkforkfork (s : list Z) : prog unit :=
  run_call (CUnlink stop) ;;
  fork_child (ITree.iter forkforkfork_turn tt) (fun pid => bail (pid <? 0) ($"%s: fork failed") [AStr (Some s)]) ;;
  run_call (CSleep 20) ;;
  touch stop ;;
  run_call (CWait false) ;;
  run_call (CSleep 10).

Definition reparent2 (_ : list Z) : prog unit :=
  for_ 800 0 (fun _ =>
    fork_child (run_call CFork ;; run_call CFork ;; exit_ 0) (fun pid => bail (pid <? 0) (line "fork failed") []) ;;
    run_call (CWait false)) ;;
  exit_ 0.

(** The loop of forks, leaving with [n]. *)
Definition forktest (s : list Z) : prog unit :=
  n <- fork_all 1000 0 ;;
  fails s (n =? 0) "no fork at all!" ;;
  fails s (n =? 1000) "fork claimed to work 1000 times!" ;;
  for_ (Z.to_nat n) 0 (fun _ =>
    w <- sysret (CWait false) ;;
    fails s (w <? 0) "wait stopped early") ;;
  w <- sysret (CWait false) ;;
  fails s (w <>? -1) "wait got too many".

Definition bigarg : list Z := line "bigargs test: failed" ++ repeat (#" ") 199.

Definition bigargtest (s : list Z) : prog unit :=
  run_call (CUnlink ($"bigarg-ok")) ;;
  pid <- sysret CFork ;;
  (if pid =? 0 then
     run_call (CExec ($"echo") (repeat bigarg (Z.to_nat (MAXARG - 1)))) ;;
     fd <- sysret (COpen ($"bigarg-ok") O_CREATE) ;;
     run_call (CClose fd) ;;
     exit_ 0
   else fails s (pid <? 0) "bigargtest: fork failed") ;;
  xstatus <- wait_status junk ;;
  (if xstatus <>? 0 then exit_ xstatus else Ret tt) ;;
  fd <- sysret (COpen ($"bigarg-ok") 0) ;;
  fails s (fd <? 0) "bigarg test failed!" ;;
  run_call (CClose fd).

(** * Faults *)

(** The child dies of a fault, which [wait] reports as -1. *)
Definition killed_or (xstatus : Z) : prog unit := if xstatus =? -1 then exit_ 0 else exit_ xstatus.

Definition stacktest (s : list Z) : prog unit :=
  pid <- sysret CFork ;;
  (if pid =? 0 then
     v <- peek (u64 (sp - PGSIZE)) ;;
     printf (line "%s: stacktest: read below stack %p") [AStr (Some s); AInt v] ;;
     exit_ 1
   else fails s (pid <? 0) "fork failed") ;;
  xstatus <- wait_status junk ;;
  killed_or xstatus.

Definition textwrite (s : list Z) : prog unit :=
  pid <- sysret CFork ;;
  (if pid =? 0 then
     r <- sysret (CAccess 0 4 (Some 10)) ;;
     (if r <? 0 then abort else Ret tt) ;;
     exit_ 1
   else fails s (pid <? 0) "fork failed") ;;
  xstatus <- wait_status junk ;;
  killed_or xstatus.

(** [if(xstatus != -1) exit(1)]: did the kernel kill the child? *)
Definition must_die (s : list Z) (child : prog unit) : prog unit :=
  fork_child child (fun pid => fails s (pid <? 0) "fork failed") ;;
  xstatus <- wait_status junk ;;
  if xstatus <>? -1 then exit_ 1 else Ret tt.

Definition kernmem (s : list Z) : prog unit :=
  for_ (Z.to_nat (2000000 / 50000)) 0 (fun i =>
    let a := KERNBASE + 50000 * i in
    must_die s
      (v <- peek a ;;
       printf (line "%s: oops could read %x = %x") [AStr (Some s); AInt a; AInt v] ;;
       exit_ 1)).

Definition MAXVAplus (s : list Z) : prog unit :=
  for_ 26 0 (fun i =>
    let a := Z.shiftl MAXVA i in
    must_die s
      (poke a 99 ;;
       printf (line "%s: oops wrote %x") [AStr (Some s); AInt a] ;;
       exit_ 1)).
End Programs.
