(* ===== verification/UtMem.v ===== *)
(** src/user/usertests.c: the tests of memory, and the two tables of tests. *)

From ITree Require Import ITree.
From S2P Require Import Prelude Mem Sys Ulib Printf ShParse Tools Tests Grind Umalloc.
From S2P Require Import Utests UtFiles UtDirs UtProcs.
Import ITreeNotations.
Local Open Scope itree_scope.
Local Open Scope zm_scope.

Section Programs.
Variable fmt_ptr : Z -> list Z.
Variables (junk : Z) (garbage : list Z).
Variables (address : string -> Z) (sp : Z).
(** The fuel of the allocator's searches, and the address of its [base]. *)
Variables (fuel : nat) (base : Z).
(** The global array [uninit]. *)
Variable uninit_bss : list Z.
Abbreviation printf := (printf fmt_ptr).
Abbreviation bail := (bail fmt_ptr).
Abbreviation fails := (fails fmt_ptr).
Abbreviation exit_ := (@exit_ unit).

(** * malloc *)

(** The blocks are chained through their first word: [next]. *)
Definition mem_alloc_turn (st : heap * (Z -> Z) * Z) : prog (heap * (Z -> Z) * Z + heap * (Z -> Z) * Z) :=
  let '(h, next, m1) := st in
  r <- malloc fuel base h 10001 ;;
  let '(h, m2) := r in
  Ret (if m2 =? 0 then inr (h, next, m1) else inl (h, fun a => if a =? m2 then m1 else next a, m2)).

Definition mem_free_turn (st : heap * (Z -> Z) * Z) : prog (heap * (Z -> Z) * Z + heap) :=
  let '(h, next, m1) := st in
  if m1 =? 0 then Ret (inr h)
  else
    let m2 := next m1 in
    match free fuel h m1 with
    | Some h => Ret (inl (h, next, m2))
    | None => abort
    end.

Definition mem_child (s : list Z) : prog unit :=
  st <- ITree.iter mem_alloc_turn (Heap (fun _ => Hdr 0 0) 0, fun _ => 0, 0) ;;
  h <- ITree.iter mem_free_turn st ;;
  r <- malloc fuel base h (1024 * 20) ;;
  let '(h, m1) := r in
  bail (m1 =? 0) (line "couldn't allocate mem?!!") [AStr (Some s)] ;;
  match free fuel h m1 with
  | Some _ => exit_ 0
  | None => abort
  end.

Definition mem (s : list Z) : prog unit :=
  pid <- sysret CFork ;;
  if pid =? 0 then mem_child s
  else
    xstatus <- wait_status junk ;;
    (if xstatus =? -1 then exit_ 0 else Ret tt) ;;
    exit_ xstatus.

(** * sbrk *)

Definition TOOMUCH : Z := 1024 * 1024 * 1024.
Definition BIG : Z := 100 * 1024 * 1024.

(** A store to every page from [a] on, [k] pages. *)
Definition touch_pages (k : nat) (a v : Z) : prog unit := for_ k 0 (fun i => poke (u64 (a + 4096 * i)) v).

Definition sbrkbasic_child : prog unit :=
  a <- sbrk TOOMUCH ;;
  (if a =? sbrk_failed then exit_ 0 else Ret tt) ;;
  touch_pages (Z.to_nat (TOOMUCH / 4096)) a 99 ;;
  exit_ 1.

(** [for(i = 0; i < 5000; i++)]: the final [a]. *)
Fixpoint sbrk_bytes (s : list Z) (k : nat) (i a : Z) : prog Z :=
  match k with
  | O => Ret a
  | S k =>
      b <- sbrk 1 ;;
      bail (b <>? a) (line "%s: sbrk test failed %d %x %x") [AStr (Some s); AInt i; AInt a; AInt b] ;;
      poke b 1 ;;
      sbrk_bytes s k (i + 1) (u64 (b + 1))
  end.

Definition sbrkbasic (s : list Z) : prog unit :=
  fork_child sbrkbasic_child (fun pid => bail (pid <? 0) (line "fork failed in sbrkbasic") []) ;;
  xstatus <- wait_status junk ;;
  fails s (xstatus =? 1) "too much memory allocated!" ;;
  a <- sbrk 0 ;;
  a <- sbrk_bytes s (Z.to_nat 5000) 0 a ;;
  pid <- sysret CFork ;;
  fails s (pid <? 0) "sbrk test fork failed" ;;
  sbrk 1 ;;
  c <- sbrk 1 ;;
  fails s (c <>? u64 (a + 1)) "sbrk test failed post-fork" ;;
  (if pid =? 0 then exit_ 0 else Ret tt) ;;
  xstatus <- wait_status xstatus ;;
  exit_ xstatus.

Definition sbrkmuch_shrink (s : list Z) : prog unit :=
  a <- sbrk 0 ;;
  c <- sbrk (- PGSIZE) ;;
  fails s (c =? sbrk_failed) "sbrk could not deallocate" ;;
  c <- sbrk 0 ;;
  bail (c <>? u64 (a - PGSIZE)) (line "%s: sbrk deallocation produced wrong address, a %x c %x")
    [AStr (Some s); AInt a; AInt c].

Definition sbrkmuch_regrow (s : list Z) (lastaddr : Z) : prog unit :=
  a <- sbrk 0 ;;
  c <- sbrk PGSIZE ;;
  bad <- (if c <>? a then Ret true else b <- sbrk 0 ;; Ret (b <>? u64 (a + PGSIZE))) ;;
  bail bad (line "%s: sbrk re-allocation failed, a %x c %x") [AStr (Some s); AInt a; AInt c] ;;
  v <- peek lastaddr ;;
  fails s (v =? 99) "sbrk de-allocation didn't really deallocate".

Definition sbrkmuch (s : list Z) : prog unit :=
  oldbrk <- sbrk 0 ;;
  a <- sbrk 0 ;;
  let amt := u64 (BIG - a) in
  p <- sbrk (s32 amt) ;;
  fails s (p <>? a) "sbrk test failed to grow big address space; enough phys mem?" ;;
  eee <- sbrk 0 ;;
  touch_pages (Z.to_nat ((eee - a + 4095) / 4096)) a 1 ;;
  let lastaddr := BIG - 1 in
  poke lastaddr 99 ;;
  sbrkmuch_shrink s ;;
  sbrkmuch_regrow s lastaddr ;;
  a <- sbrk 0 ;;
  b <- sbrk 0 ;;
  c <- sbrk (s32 (- (b - oldbrk))) ;;
  bail (c <>? a) (line "%s: sbrk downsize failed, a %x c %x") [AStr (Some s); AInt a; AInt c].

(** ** Running out of memory *)

Definition sbrkfail_child (fds1 : Z) : prog unit :=
  a <- sbrk 0 ;;
  sbrk (s32 (u64 (BIG - a))) ;;
  run_call (CWrite fds1 ($"x")) ;;
  ITree.iter (fun _ : unit => run_call (CSleep 1000) ;; Ret (inl tt)) tt.

(** The pids of the children, in order. *)
Fixpoint sbrkfail_forks (k : nat) (fds0 fds1 : Z) : prog (list Z) :=
  match k with
  | O => Ret []
  | S k =>
      pid <- sysret CFork ;;
      (if pid =? 0 then sbrkfail_child fds1 else Ret tt) ;;
      (if pid <>? -1 then run_call (CRead fds0 1) else Ret tt) ;;
      pids <- sbrkfail_forks k fds0 fds1 ;;
      Ret (pid :: pids)
  end.

Fixpoint sbrkfail_kills (pids : list Z) : prog unit :=
  match pids with
  | [] => Ret tt
  | pid :: pids =>
      (if pid =? -1 then Ret tt else run_call (CKill pid) ;; run_call (CWait false)) ;;
      sbrkfail_kills pids
  end.

(** [n += *(a+i)] over [k] pages. *)
Fixpoint sum_pages (k : nat) (a n : Z) : prog Z :=
  match k with
  | O => Ret n
  | S k => v <- peek (u64 a) ;; sum_pages k (a + PGSIZE) (s32 (n + v))
  end.

Definition sbrkfail (s : list Z) : prog unit :=
  r <- sys CPipe ;;
  fails s (r_ret r <>? 0) "pipe() failed" ;;
  let '(fds0, fds1) := pipe_fds junk r in
  pids <- sbrkfail_forks 10 fds0 fds1 ;;
  c <- sbrk PGSIZE ;;
  sbrkfail_kills pids ;;
  fails s (c =? sbrk_failed) "failed sbrk leaked memory" ;;
  fork_child
    (a <- sbrk 0 ;;
     sbrk (10 * BIG) ;;
     n <- sum_pages (Z.to_nat (10 * BIG / PGSIZE)) a 0 ;;
     printf (line "%s: allocate a lot of memory succeeded %d") [AStr (Some s); AInt n] ;;
     exit_ 1)
    (fun pid => fails s (pid <? 0) "fork failed") ;;
  xstatus <- wait_status junk ;;
  if (xstatus <>? -1) && (xstatus <>? 2) then exit_ 1 else Ret tt.

(** ** Arguments and small changes *)

Definition sbrkarg (s : list Z) : prog unit :=
  a <- sbrk PGSIZE ;;
  fd <- sysret (COpen ($"sbrk") (O_CREATE .| O_WRONLY)) ;;
  run_call (CUnlink ($"sbrk")) ;;
  fails s (fd <? 0) "open sbrk failed" ;;
  n <- sysret (CRaw SYS_write [fd; a; PGSIZE]) ;;
  fails s (n <? 0) "write sbrk failed" ;;
  run_call (CClose fd) ;;
  a <- sbrk PGSIZE ;;
  r <- sysret (CRaw SYS_pipe [a]) ;;
  fails s (r <>? 0) "pipe() failed".

Definition bsstest (s : list Z) : prog unit :=
  fails s (negb (forallb (Z.eqb 0) uninit_bss)) "bss test failed".

(** A child that changes its size, and the parent waiting for it. *)
Definition sbrkbug (child : prog unit) : prog unit :=
  fork_child child (fun pid => bail (pid <? 0) (line "fork failed") []) ;;
  run_call (CWait false).

Definition sbrkbugs (_ : list Z) : prog unit :=
  sbrkbug
    (sz <- sbrk 0 ;;
     let sz := s32 sz in
     sbrk (s32 (- sz)) ;;
     exit_ 0) ;;
  sbrkbug
    (sz <- sbrk 0 ;;
     let sz := s32 sz in
     sbrk (s32 (- (sz - 3500))) ;;
     exit_ 0) ;;
  sbrkbug
    (a <- sbrk 0 ;;
     sbrk (s32 (u64 (10 * 4096 + 2048 - a))) ;;
     sbrk (-10) ;;
     exit_ 0) ;;
  exit_ 0.

Definition sbrklast (_ : list Z) : prog unit :=
  top <- sbrk 0 ;;
  (if top mod 4096 <>? 0 then sbrk (4096 - top mod 4096) ;; Ret tt else Ret tt) ;;
  sbrk 4096 ;;
  sbrk 10 ;;
  sbrk (-20) ;;
  top <- sbrk 0 ;;
  let p := u64 (top - 64) in
  poke p (#"x") ;;
  poke (u64 (p + 1)) 0 ;;
  fd <- sysret (CRaw SYS_open [p; O_RDWR .| O_CREATE]) ;;
  run_call (CRaw SYS_write [fd; p; 1]) ;;
  run_call (CClose fd) ;;
  fd <- sysret (CRaw SYS_open [p; O_RDWR]) ;;
  poke p 0 ;;
  run_call (CRaw SYS_read [fd; p; 1]) ;;
  v <- peek p ;;
  if v <>? #"x" then exit_ 1 else Ret tt.

Definition sbrk8000 (_ : list Z) : prog unit :=
  sbrk (s32 0x80000004) ;;
  top <- sbrk 0 ;;
  v <- peek (u64 (top - 1)) ;;
  poke (u64 (top - 1)) (u8 (v + 1)).

Definition execout_alloc (_ : unit) : prog (unit + unit) :=
  a <- sbrk 4096 ;;
  if a =? sbrk_failed then Ret (inr tt) else poke (u64 (a + 4096 - 1)) 1 ;; Ret (inl tt).

Definition execout (_ : list Z) : prog unit :=
  for_ 15 0 (fun avail =>
    pid <- sysret CFork ;;
    bail (pid <? 0) (line "fork failed") [] ;;
    if pid =? 0 then
      ITree.iter execout_alloc tt ;;
      for_ (Z.to_nat avail) 0 (fun _ => sbrk (-4096) ;; Ret tt) ;;
      run_call (CClose 1) ;;
      run_call (CExec ($"echo") [$"echo"; $"x"]) ;;
      exit_ 0
    else run_call (CWait false)) ;;
  exit_ 0.

(** * The tables *)

Definition quicktests : list test := [
  (copyin fmt_ptr junk, $"copyin"); (copyout fmt_ptr junk, $"copyout");
  (copyinstr1 fmt_ptr, $"copyinstr1"); (copyinstr2 fmt_ptr, $"copyinstr2"); (copyinstr3 fmt_ptr address, $"copyinstr3");
  (rwsbrk fmt_ptr, $"rwsbrk");
  (truncate1 fmt_ptr, $"truncate1"); (truncate2 fmt_ptr, $"truncate2"); (truncate3 fmt_ptr junk, $"truncate3");
  (openiputtest fmt_ptr junk, $"openiput"); (exitiputtest fmt_ptr junk, $"exitiput"); (iputtest fmt_ptr, $"iput");
  (opentest fmt_ptr, $"opentest"); (writetest fmt_ptr, $"writetest"); (writebig fmt_ptr, $"writebig");
  (createtest, $"createtest"); (dirtest fmt_ptr, $"dirtest"); (exectest fmt_ptr junk garbage, $"exectest");
  (pipe1 fmt_ptr junk, $"pipe1"); (killstatus fmt_ptr junk, $"killstatus"); (preempt fmt_ptr junk, $"preempt");
  (exitwait fmt_ptr junk, $"exitwait"); (reparent fmt_ptr, $"reparent"); (twochildren fmt_ptr, $"twochildren");
  (forkfork fmt_ptr junk, $"forkfork"); (forkforkfork fmt_ptr, $"forkforkfork"); (reparent2 fmt_ptr, $"reparent2");
  (mem, $"mem"); (sharedfd fmt_ptr junk, $"sharedfd"); (fourfiles fmt_ptr junk, $"fourfiles");
  (createdelete fmt_ptr junk, $"createdelete"); (unlinkread fmt_ptr, $"unlinkread"); (linktest fmt_ptr, $"linktest");
  (concreate fmt_ptr junk garbage, $"concreate"); (linkunlink fmt_ptr, $"linkunlink"); (subdir fmt_ptr, $"subdir");
  (bigwrite fmt_ptr, $"bigwrite"); (bigfile fmt_ptr, $"bigfile"); (fourteen fmt_ptr, $"fourteen");
  (rmdot fmt_ptr, $"rmdot"); (dirfile fmt_ptr, $"dirfile"); (iref fmt_ptr, $"iref"); (forktest fmt_ptr, $"forktest");
  (sbrkbasic, $"sbrkbasic"); (sbrkmuch, $"sbrkmuch"); (kernmem fmt_ptr junk, $"kernmem");
  (MAXVAplus fmt_ptr junk, $"MAXVAplus"); (sbrkfail, $"sbrkfail"); (sbrkarg, $"sbrkarg");
  (validatetest fmt_ptr address, $"validatetest"); (bsstest, $"bsstest"); (bigargtest fmt_ptr junk, $"bigargtest");
  (argptest fmt_ptr, $"argptest"); (stacktest fmt_ptr junk sp, $"stacktest"); (textwrite fmt_ptr junk, $"textwrite");
  (pgbug address, $"pgbug"); (sbrkbugs, $"sbrkbugs"); (sbrklast, $"sbrklast"); (sbrk8000, $"sbrk8000");
  (badarg address, $"badarg")].

Definition slowtests : list test := [
  (bigdir fmt_ptr, $"bigdir"); (manywrites fmt_ptr, $"manywrites"); (badwrite fmt_ptr, $"badwrite");
  (execout, $"execout"); (diskfull fmt_ptr garbage, $"diskfull"); (outofinodes, $"outofinodes")].

Definition usertests_main (argv : list (list Z)) : prog unit := main fmt_ptr junk quicktests slowtests argv.
End Programs.
