(* ===== verification/UtSpec.v ===== *)
(** What usertests.c promises: a test that complains fails, and the driver says
    that all tests passed only when they did. *)

From ITree Require Import ITree.
From S2P Require Import Prelude Mem Sys Ulib Printf ShParse Tools Tests Grind GrindSpec Umalloc.
From S2P Require Import Utests UtFiles UtDirs UtProcs UtMem.
Import ITreeNotations.
Local Open Scope itree_scope.
Local Open Scope zm_scope.

(** The standard output is in use: no other file gets its descriptor. *)
Class Stdout (E : env) : Prop := {
  so_open h p m r : E h (COpen p m) r -> r_ret r <> 1;
  so_raw_open h a r : E h (CRaw SYS_open a) r -> r_ret r <> 1;
  so_pipe h r : E h CPipe r -> 0 <= r_ret r -> exists a b, r_out r = [a; b] /\ a <> 1 /\ b <> 1;
}.

(** ** Honest programs *)

Definition says (c : Sys.call) : bool := match c with CWrite fd _ => fd =? 1 | _ => false end.

(** How many times the program has written to the standard output. *)
Definition said (h : history) : nat := length (filter (fun e => says (Datatypes.fst e)) h).

Definition passes {R} (o : outcome R) : bool :=
  match o with Done _ => true | Exited n => n =? 0 | _ => false end.

Lemma said_snoc h c r : says c = false -> said (h ++ [(c, r)]) = said h.
Proof. intros E. unfold said. rewrite filter_app, length_app. cbn. rewrite E. cbn. lia. Qed.

Section Honest.
Context (E : env) (So : Stdout E) (fmt_ptr : Z -> list Z).

(** [t] passes, or goes on, only if it has said nothing. *)
Definition honest {R} (t : prog R) : Prop :=
  forall h, wpt E h t (fun o h' => passes o = true -> said h' = said h).

(** [t] never passes. *)
Definition doomed {R} (t : prog R) : Prop := forall h, wpt E h t (fun o _ => passes o = false).

Lemma honest_ret {R} (r : R) : honest (Ret r).
Proof. intros h. wstep. auto. Qed.

Lemma honest_exit {R} n : honest (R := R) (exit_ n).
Proof. intros h. wstep. auto. Qed.

Lemma honest_doomed {R} (t : prog R) : doomed t -> honest t.
Proof. intros D h. eapply wpt_mono; [apply D|]. intros o h' -> Hp. discriminate Hp. Qed.

Lemma honest_abort {R} : honest (R := R) abort.
Proof. apply honest_doomed. intros h. eapply twp_sound. tstep. reflexivity. Qed.

Lemma honest_bind {R S} (t : prog R) (k : R -> prog S) :
  honest t -> (forall r, honest (k r)) -> honest (ITree.bind t k).
Proof.
  intros T K h. wstep. eapply wpt_mono; [apply T|]. intros [r|n|p a|] h' H; cbn [wseqpost]; auto; try discriminate.
  specialize (H eq_refl). eapply wpt_mono; [apply K|]. intros o h2 H2 P. rewrite (H2 P). exact H.
Qed.

(** What the environment says about the reply. *)
Lemma honest_sys {R} c (k : reply -> prog R) :
  plain c -> says c = false -> (forall h r, E h c r -> honest (k r)) -> honest (r <- sys c ;; k r).
Proof.
  intros P N K h. wstep. apply wpt_sys; [exact P|]. intros r Er. cbn [wseqpost].
  eapply wpt_mono; [eapply K, Er|]. intros o h' H Hp. rewrite (H Hp). apply said_snoc, N.
Qed.

Lemma honest_sysret {R} c (k : Z -> prog R) :
  plain c -> says c = false -> (forall h r, E h c r -> honest (k (r_ret r))) -> honest (z <- sysret c ;; k z).
Proof.
  intros P N K h. wstep. apply wpt_sysret; [exact P|]. intros r Er. cbn [wseqpost].
  eapply wpt_mono; [eapply K, Er|]. intros o h' H Hp. rewrite (H Hp). apply said_snoc, N.
Qed.

Lemma honest_call c : plain c -> says c = false -> honest (run_call c).
Proof. intros P N. apply honest_sysret; auto using @honest_ret. Qed.

(** A program that is replaced has not passed. *)
Lemma honest_exec {R} p a (k : Z -> prog R) : (forall z, honest (k z)) -> honest (z <- sysret (CExec p a) ;; k z).
Proof.
  intros K h. wstep. apply wpt_exec; intros r Er Hr; cbn [wseqpost]; [discriminate|].
  eapply wpt_mono; [apply K|]. intros o h' H Hp. rewrite (H Hp). apply said_snoc. reflexivity.
Qed.

Lemma honest_iter {I R} (body : I -> prog (I + R)) i : (forall i, honest (body i)) -> honest (ITree.iter body i).
Proof.
  intros B h. apply wpt_iter with (Inv := fun _ h' => said h' = said h); [|reflexivity].
  intros j h' Eh. eapply wpt_mono; [apply B|]. intros [[i'|r]|n|p a|] h2 H; cbn [turnpost]; rewrite <- Eh; auto.
Qed.

Lemma honest_for k body : (forall i, honest (body i)) -> forall i, honest (for_ k i body).
Proof. intros B. induction k as [|k IH]; intros i; cbn [for_]; auto using @honest_ret, @honest_bind. Qed.

(** *** Complaints *)

Lemma printf_goes_on fmt ap h : wpt E h (printf fmt_ptr fmt ap) (fun o _ => is_done o = true \/ relay (S := unit) o = Trapped).
Proof. apply twp_sound. eapply twp_mono; [apply printf_ends|]. auto. Qed.

Lemma doomed_print {R} fmt ap (k : prog R) : doomed k -> doomed (printf fmt_ptr fmt ap ;; k).
Proof.
  intros D h. wstep. eapply wpt_mono; [apply printf_goes_on|]. intros [u|n|p a|] h' [H|H]; cbn [wseqpost]; try discriminate; auto.
Qed.

Lemma doomed_exit {R} n : n <> 0 -> doomed (R := R) (exit_ n).
Proof. intros N h. wstep. cbn. apply Z.eqb_neq, N. Qed.

Lemma doomed_seq {R S} (t : prog R) (k : R -> prog S) : doomed t -> doomed (ITree.bind t k).
Proof.
  intros D h. wstep. eapply wpt_mono; [apply D|]. intros [r|n|p a|] h' H; cbn [wseqpost]; auto; discriminate.
Qed.

Lemma doomed_complaint {R} fmt ap : doomed (R := R) (printf fmt_ptr fmt ap ;; exit_ 1).
Proof. apply doomed_print, doomed_exit. lia. Qed.

Lemma honest_complaint {R} fmt ap : honest (R := R) (printf fmt_ptr fmt ap ;; exit_ 1).
Proof. apply honest_doomed, doomed_complaint. Qed.

Lemma honest_bail bad fmt ap : honest (bail fmt_ptr bad fmt ap).
Proof. unfold bail. case_if; [apply honest_complaint|apply honest_ret]. Qed.

(** After a test that was not failed. *)
Lemma honest_bail_seq {R} bad fmt ap (k : prog R) : (bad = false -> honest k) -> honest (bail fmt_ptr bad fmt ap ;; k).
Proof.
  intros K. unfold bail. destruct bad.
  - apply honest_doomed, doomed_seq, doomed_complaint.
  - apply honest_bind; [apply honest_ret|]. auto.
Qed.

Lemma honest_fork_child child failed :
  honest child -> (forall pid, honest (failed pid)) -> honest (fork_child child failed).
Proof.
  intros C F. unfold fork_child. apply honest_sysret; [plain_tac|reflexivity|]. intros h r _.
  apply honest_bind; [apply F|]. intros _. apply honest_bind; [|auto using @honest_ret]. case_if; auto using @honest_ret.
Qed.

Lemma honest_wait st : honest (wait_status st).
Proof. apply honest_sys; [plain_tac|reflexivity|]. intros. apply honest_ret. Qed.

Lemma honest_sbrk n : honest (sbrk n).
Proof. apply honest_sysret; [plain_tac|reflexivity|]. intros. apply honest_ret. Qed.

Lemma honest_poke a v : honest (poke a v).
Proof. apply honest_sysret; [plain_tac|reflexivity|]. intros. case_if; [apply honest_abort|apply honest_ret]. Qed.

Lemma honest_peek a : honest (peek a).
Proof. apply honest_sysret; [plain_tac|reflexivity|]. intros. case_if; [apply honest_abort|apply honest_ret]. Qed.

Lemma honest_read fd n buf : honest (read_into fd n buf).
Proof. apply honest_sys; [plain_tac|reflexivity|]. intros. apply honest_ret. Qed.
Lemma honest_addrs l body : (forall a, honest (body a)) -> honest (for_addrs l body).
Proof. intros B. induction l as [|a l IH]; cbn [for_addrs]; auto using @honest_ret, @honest_bind. Qed.
End Honest.

Create HintDb honest.
#[export] Hint Resolve honest_ret honest_exit honest_abort honest_bail honest_complaint honest_wait honest_sbrk
  honest_poke honest_peek honest_read honest_iter honest_for honest_fork_child : honest.

(** One step through a program of usertests. *)
Ltac head_of t := lazymatch t with ?f _ => head_of f | _ => t end.
Ltac honest_says := cbn [says]; first [reflexivity | apply Z.eqb_neq; assumption].
Ltac honest_step :=
  lazymatch goal with
  | |- honest _ (ITree.bind (bail _ _ _ _) _) => apply honest_bail_seq; intros ?
  | |- honest _ (ITree.bind (fails _ _ _ _) _) => apply honest_bail_seq; intros ?
  | |- honest _ (ITree.bind (sysret (CExec _ _)) _) => apply honest_exec; intros ?z
  | |- honest _ (ITree.bind (sysret (COpen _ _)) _) =>
      apply honest_sysret; [plain_tac|reflexivity|];
      let h := fresh "h" in let r := fresh "r" in let H := fresh "Er" in
      intros h r H; apply so_open in H; generalize dependent (r_ret r); intros
  | |- honest _ (ITree.bind (sysret (CRaw SYS_open _)) _) =>
      apply honest_sysret; [plain_tac|reflexivity|];
      let h := fresh "h" in let r := fresh "r" in let H := fresh "Er" in
      intros h r H; apply so_raw_open in H; generalize dependent (r_ret r); intros
  | |- honest _ (ITree.bind (sysret _) _) => apply honest_sysret; [plain_tac|honest_says|intros ?h ?r _]
  | |- honest _ (ITree.bind (sys CPipe) _) => apply honest_sys; [plain_tac|reflexivity|intros ?h ?r ?Er]
  | |- honest _ (ITree.bind (sys _) _) => apply honest_sys; [plain_tac|honest_says|intros ?h ?r _]
  | |- honest _ (ITree.bind (run_call (CExec _ _)) _) => apply honest_bind; [apply honest_exec; intros; apply honest_ret|intros ?]
  | |- honest _ (run_call (CExec _ _)) => apply honest_exec; intros; apply honest_ret
  | |- honest _ (run_call _) => apply honest_call; [plain_tac|honest_says]
  | |- honest _ (fails _ _ _ _) => apply honest_bail
  | |- honest _ (ITree.bind (ITree.bind (printf _ _ _) _) _) => apply honest_doomed, doomed_seq, doomed_complaint
  | |- honest _ (ITree.bind (printf _ _ _) _) => apply honest_complaint
  | |- honest _ (ITree.bind _ _) => apply honest_bind; [|intros ?]
  | |- honest _ (if ?b then _ else _) => destruct b eqn:?
  | Er : _ CPipe ?r |- honest _ (let '(_, _) := pipe_fds _ ?r in _) =>
      let P := fresh in
      assert (P : 0 <= r_ret r) by (breflect; lia);
      destruct (so_pipe _ _ Er P) as (? & ? & Eo & ? & ?); unfold pipe_fds; rewrite Eo; cbn [nth]; clear Er
  | |- honest _ (let '(_, _) := ?x in _) => destruct x
  | |- honest _ (match ?x with _ => _ end) => destruct x
  | |- honest _ (ITree.iter _ _) => apply honest_iter; intros ?
  | |- honest _ (for_ _ _ _) => apply honest_for; intros ?
  | |- honest _ (for_addrs _ _) => apply honest_addrs; intros ?
  | |- honest _ (fork_child _ _ _) => apply honest_fork_child; [|intros ?]
  | |- honest _ ?t => first [solve [eauto with honest] | let f := head_of t in unfold f]
  end; cbv zeta.
Ltac honestly := repeat honest_step.

Section Loops.
Context (E : env) (So : Stdout E) (fmt_ptr : Z -> list Z).

Lemma honest_fork_all k n : honest E (fork_all k n).
Proof. revert n. induction k as [|k IH]; intros n; cbn [fork_all]; honestly. Qed.
Lemma honest_linkunlink k x : honest E (linkunlink_loop k x).
Proof. revert x. induction k as [|k IH]; intros x; cbn [linkunlink_loop]; honestly. Qed.
Lemma honest_fill garbage k fd : fd <> 1 -> honest E (fill_file garbage k fd).
Proof. intros N. induction k as [|k IH]; cbn [fill_file]; honestly. Qed.
Lemma honest_zz k i : honest E (create_zz k i).
Proof. revert i. induction k as [|k IH]; intros i; cbn [create_zz]; honestly. Qed.
Lemma honest_killstatus s k x : honest E (killstatus_loop fmt_ptr s k x).
Proof. revert x. induction k as [|k IH]; intros x; cbn [killstatus_loop]; honestly. Qed.
Lemma honest_forkwait s k x : honest E (forkfork_wait fmt_ptr s k x).
Proof. revert x. induction k as [|k IH]; intros x; cbn [forkfork_wait]; honestly. Qed.
Lemma honest_sbrk_bytes s k i a : honest E (sbrk_bytes fmt_ptr s k i a).
Proof. revert i a. induction k as [|k IH]; intros i a; cbn [sbrk_bytes]; honestly. Qed.
Lemma honest_sum k a n : honest E (sum_pages k a n).
Proof. revert a n. induction k as [|k IH]; intros a n; cbn [sum_pages]; honestly. Qed.
Lemma honest_kills pids : honest E (sbrkfail_kills pids).
Proof. induction pids as [|p pids IH]; cbn [sbrkfail_kills]; honestly. Qed.
Lemma honest_forks k fds0 fds1 : fds1 <> 1 -> honest E (sbrkfail_forks k fds0 fds1).
Proof. intros N. induction k as [|k IH]; cbn [sbrkfail_forks]; honestly. Qed.
Lemma honest_malloc_loop fuel h n p q : honest E (malloc_loop fuel h n p q).
Proof.
  revert h p q. induction fuel as [|fuel IH]; intros h p q; cbn [malloc_loop]; honestly.
Qed.
End Loops.

#[export] Hint Resolve honest_fork_all honest_linkunlink honest_fill honest_zz honest_killstatus honest_forkwait
  honest_sbrk_bytes honest_sum honest_kills honest_forks honest_malloc_loop : honest.

Section Tests.
Context (E : env) (So : Stdout E) (fmt_ptr : Z -> list Z) (junk : Z) (garbage : list Z) (s : list Z).
Context (address : string -> Z) (sp : Z) (fuel : nat) (base : Z) (uninit_bss : list Z).

Abbreviation quick := (quicktests fmt_ptr junk garbage address sp fuel base uninit_bss).
Abbreviation slow := (slowtests fmt_ptr garbage).

(** A remark that is made only before a failure. *)
Lemma honest_remark {R} (b : bool) fmt ap fmt' ap' (k : prog R) :
  (b = false -> honest E k) ->
  honest E ((if b then printf fmt_ptr fmt ap else Ret tt) ;; bail fmt_ptr b fmt' ap' ;; k).
Proof.
  intros K. destruct b.
  - apply honest_doomed, doomed_print. unfold bail. apply doomed_seq, doomed_complaint.
  - apply honest_bind; [apply honest_ret|]. intros _. apply honest_bail_seq, K.
Qed.

Lemma truncate1_honest : honest E (truncate1 fmt_ptr s).
Proof.
  unfold truncate1, wanted. do 9 honest_step. do 2 (honest_step; apply honest_remark; intros _). honestly.
Qed.

(** The tests that may pass although they complained. *)
Definition loud : list (list Z) := [$"exectest"; $"pipe1"; $"preempt"; $"diskfull"].
End Tests.

#[export] Hint Resolve truncate1_honest : honest.

Ltac table_honest :=
  repeat (apply Forall_cons; [cbn [Datatypes.fst Datatypes.snd]|]); [> .. |apply Forall_nil];
  [> first [left; cbn; tauto | right; intros s; solve [eauto with honest | honestly]] ..].

Section Table.
Context (E : env) (So : Stdout E) (fmt_ptr : Z -> list Z) (junk : Z) (garbage : list Z).
Context (address : string -> Z) (sp : Z) (fuel : nat) (base : Z) (uninit_bss : list Z).

Lemma quick_honest : Forall (fun t => In (snd t) loud \/ forall s, honest E (fst t s))
  (quicktests fmt_ptr junk garbage address sp fuel base uninit_bss).
Proof. unfold quicktests. table_honest. Qed.

Lemma slow_honest : Forall (fun t => In (snd t) loud \/ forall s, honest E (fst t s)) (slowtests fmt_ptr garbage).
Proof. unfold slowtests. table_honest. Qed.
End Table.

(** * A complaint that is not a failure *)

(** A kernel whose pipes deliver another byte than was written. *)
Definition stdio : env := fun _ c r =>
  match c with
  | COpen _ _ | CRaw _ _ => r_ret r <> 1
  | CPipe => r = Reply 0 [3; 4]
  | _ => True
  end.

#[export] Instance stdio_stdout : Stdout stdio.
Proof. split; cbn; auto. intros _ r -> _. exists 3, 4. repeat split; lia. Qed.

Definition pipe1_name : list Z := $"pipe1".

(** The pipe gives 7 where 0 was written; every write is taken whole. *)
Definition pipe1_replies : list reply :=
  [Reply 0 [3; 4]; Reply 5 []; Reply 0 []; Reply 1 [7]; Reply 5 []] ++ repeat (Reply 1 []) 15.

Definition pipe1_run : option (history * outcome unit) := play 400 (pipe1 (fun _ => []) 0 pipe1_name) pipe1_replies.

Lemma pipe1_run_ends : exists h, pipe1_run = Some (h, Done tt) /\ allowed stdio [] h /\ said h = 16%nat /\
  In (CRead 3 1, Reply 1 [7]) h.
Proof. eexists. split; [vm_compute; reflexivity|]. split; [cbn; repeat split; lia|]. split; [reflexivity|cbn; tauto]. Qed.

(** C38: In every test of usertests.c but four (exectest, pipe1, preempt and
    diskfull), in every process it forks, and whatever the kernel replies as long
    as the standard output stays in use, a process that passes (it returns, or
    exits with status 0) has said nothing: each complaint ends in a failure.  The
    exception is real: pipe1 finds a byte that was not written to the pipe, says
    so, and passes. *)
Theorem usertests_honest E (So : Stdout E) fmt_ptr junk garbage address sp fuel base uninit_bss :
  Forall (fun t => In (snd t) loud \/ forall s h n h' o, exec E n h (fst t s) h' o -> passes o = true -> said h' = said h)
    (quicktests fmt_ptr junk garbage address sp fuel base uninit_bss ++ slowtests fmt_ptr garbage) /\
  exists n h, exec stdio n [] (pipe1 (fun _ => []) 0 pipe1_name) h (Done tt) /\ said h = 16%nat /\ In (CRead 3 1, Reply 1 [7]) h.
Proof.
  split.
  - assert (I : forall t : test, (In (snd t) loud \/ forall s, honest E (fst t s)) -> In (snd t) loud \/
      forall s h n h' o, exec E n h (fst t s) h' o -> passes o = true -> said h' = said h).
    { intros t [L|H]; [left; exact L|right]. intros s h n h' o X P. exact (H s h n h' o X P). }
    apply Forall_app. split; apply (Forall_impl _ I); eauto using quick_honest, slow_honest.
  - destruct pipe1_run_ends as (h & P & A & S & I). exists 400%nat, h.
    split; [|split; [exact S|exact I]]. exact (play_exec stdio 400 [] _ _ _ _ P A).
Qed.

Lemma usertests_honest_witness : exists n h, exec stdio n [] (pipe1 (fun _ => []) 0 pipe1_name) h (Done tt) /\ said h <> said [].
Proof.
  destruct (usertests_honest stdio stdio_stdout (fun _ => []) 0 [] (fun _ => 0) 0 0 0 []) as [_ (n & h & X & S & _)].
  exists n, h. split; [exact X|]. rewrite S. discriminate.
Defined.

Import ITreeNotations.
Local Open Scope itree_scope.
Local Open Scope zm_scope.

(** * What a history says *)

Section History.
Variable junk : Z.

(** The statuses that [wait(&status)] gave. *)
Definition ev_verdict (e : event) : list Z :=
  match e with (CWait true, r) => [nth 0 (r_out r) junk] | _ => [] end.
Definition verdicts (h : history) : list Z := flat_map ev_verdict h.

(** The bytes read up to each end of file, and since the last one. *)
Definition tally (st : list Z * Z) (e : event) : list Z * Z :=
  match e with
  | (CRead _ _, r) =>
      if r_ret r =? 0 then (Datatypes.fst st ++ [Datatypes.snd st], 0)
      else if r_ret r <? 0 then st else (Datatypes.fst st, s32 (Datatypes.snd st + 1))
  | _ => st
  end.
Definition tallies (h : history) : list Z * Z := fold_left tally h ([], 0).

(** A call failed, a test failed, or fewer pages were found than before. *)
Definition complaint (h : history) : Prop :=
  (exists c r, In (c, r) h /\ In c [CFork; CPipe] /\ r_ret r < 0) \/
  (exists fd r, In (CRead fd 1, r) h /\ r_ret r < 0) \/
  (exists v, In v (verdicts h) /\ v <> 0) \/
  (exists t a b, Datatypes.fst (tallies h) = t ++ [a; b] /\ b < a).

Lemma verdicts_app h h' : verdicts (h ++ h') = verdicts h ++ verdicts h'.
Proof. apply flat_map_app. Qed.

Lemma tallies_snoc h e : tallies (h ++ [e]) = tally (tallies h) e.
Proof. unfold tallies. rewrite fold_left_app. reflexivity. Qed.

(** The driver's books: verdicts and tallies. *)
Definition books (h : history) : list Z * (list Z * Z) := (verdicts h, tallies h).

(** Calls that leave the books alone. *)
Definition aside (c : Sys.call) : Prop := plain c /\ forall h r, books (h ++ [(c, r)]) = books h.

Lemma aside_intro c : plain c -> (forall r, ev_verdict (c, r) = []) -> (forall st r, tally st (c, r) = st) -> aside c.
Proof.
  intros P V T. split; [exact P|]. intros h r. unfold books. rewrite verdicts_app, tallies_snoc, T.
  unfold verdicts at 2. cbn [flat_map]. rewrite V, !app_nil_r. reflexivity.
Qed.

Section Driver.
Context (E : env) (fmt_ptr : Z -> list Z).

(** [t], run by the driver itself, ends in a trap, in a child, or with [Q] of its
    result and the books, or exits with 1 when it has seen a reason to. *)
Definition keeps {R} (t : prog R) (Q : R -> list Z * (list Z * Z) -> list Z * (list Z * Z) -> Prop) : Prop :=
  forall h, wpt E h t (fun o h' => child h' \/ o = Trapped \/ (o = Exited 1 /\ complaint h') \/
    exists r, o = Done r /\ Q r (books h) (books h')).

Lemma keeps_ret {R} (r : R) (Q : R -> _ -> _ -> Prop) : (forall b, Q r b b) -> keeps (Ret r) Q.
Proof. intros H h. wstep. eauto 6. Qed.

Lemma keeps_mono {R} (t : prog R) (P Q : R -> _ -> _ -> Prop) :
  keeps t P -> (forall r b b', P r b b' -> Q r b b') -> keeps t Q.
Proof. intros T H h. eapply wpt_mono; [apply T|]. intros o h' [C|[Tr|[X|(r & -> & A)]]]; eauto 7. Qed.

Lemma keeps_bind {R S} (t : prog R) (k : R -> prog S) P Q :
  keeps t P -> (forall r, keeps (k r) (fun x b' b2 => forall b, P r b b' -> Q x b b2)) -> keeps (ITree.bind t k) Q.
Proof.
  intros T K h. wstep. eapply wpt_mono; [apply T|]. intros o h' [C|[->|[[-> X]|(r & -> & A)]]]; cbn [wseqpost]; auto.
  - destruct o as [r|n|p a|]; cbn [wseqpost]; auto. apply child_wpt; auto.
  - eapply wpt_mono; [apply K|]. intros o h2 [C|[Tr|[X|(x & -> & B)]]]; eauto 7.
Qed.

(** A sequence whose first part leaves the books alone. *)
Definition quiet {R} (t : prog R) : Prop := keeps t (fun _ b b' => b' = b).

Lemma keeps_seq {R S} (t : prog R) (k : R -> prog S) Q :
  quiet t -> (forall r, keeps (k r) Q) -> keeps (ITree.bind t k) Q.
Proof. intros T K. eapply keeps_bind; [exact T|]. intros r. eapply keeps_mono; [apply K|]. cbn. intros x b b' q b0 ->. exact q. Qed.

Lemma quiet_sysret c : aside c -> quiet (sysret c).
Proof. intros [P A] h. apply wpt_sysret; [exact P|]. intros r _. rewrite A. eauto 7. Qed.

Lemma quiet_call c : aside c -> quiet (run_call c).
Proof. intros A. apply keeps_seq; [apply quiet_sysret, A|]. intros r. apply keeps_ret. reflexivity. Qed.

Lemma aside_write fd d : aside (CWrite fd d).
Proof. apply aside_intro; [plain_tac| |]; reflexivity. Qed.
Lemma aside_close fd : aside (CClose fd).
Proof. apply aside_intro; [plain_tac| |]; reflexivity. Qed.
Lemma aside_wait : aside (CWait false).
Proof. apply aside_intro; [plain_tac| |]; reflexivity. Qed.

Lemma keeps_abort {R} Q : keeps (R := R) abort Q.
Proof. intros h. apply twp_sound. tstep. auto. Qed.

Lemma quiet_zwrite d : quiet (zwrite d).
Proof.
  apply keeps_seq; [apply quiet_sysret, aside_write|]. intros n. case_if; [apply keeps_abort|apply keeps_ret; reflexivity].
Qed.

Lemma quiet_zprint d : quiet (zprint d).
Proof. unfold zprint. case_if; [apply keeps_abort|apply quiet_zwrite]. Qed.

Lemma quiet_printf fmt ap : quiet (printf fmt_ptr fmt ap).
Proof.
  unfold printf. destruct fmt as [|c0 fmt0]; [apply keeps_abort|]. set (fmt := c0 :: fmt0). clearbody fmt.
  remember (length fmt) as n eqn:N. revert fmt ap N.
  induction n as [n IH] using lt_wf_ind. intros [|c [|d fmt]] ap ->; cbn [zprintf_loop].
  { apply keeps_ret. reflexivity. }
  { case_if; [|apply keeps_ret; reflexivity]. apply keeps_seq; [apply quiet_zwrite|]. intros. apply keeps_ret. reflexivity. }
  pose proof (fun l a H => IH (length l) H l a eq_refl) as IH'. cbn [length] in IH'.
  case_if.
  { apply keeps_seq; [apply quiet_zwrite|]. intros _. apply (IH' (d :: fmt)). cbn. lia. }
  repeat first [apply quiet_zwrite | apply quiet_zprint | apply keeps_seq; intros | case_if
    | apply IH'; lia | apply keeps_abort | destruct ap as [|[v|[x|]] ap] ].
Qed.
(** ** Failed calls *)

Definition failed (h : history) : Prop :=
  (exists c r, In (c, r) h /\ In c [CFork; CPipe] /\ r_ret r < 0) \/ (exists fd r, In (CRead fd 1, r) h /\ r_ret r < 0).

Lemma failed_complaint h tr : failed h -> complaint (h ++ tr).
Proof.
  intros [(c & r & I & C & N)|(fd & r & I & N)]; [left; exists c, r|right; left; exists fd, r];
    (split; [apply in_or_app; auto|auto]).
Qed.

Lemma fail_stops {R} fmt ap h (Q : R -> _ -> _ -> Prop) h0 :
  failed h -> wpt E h (printf fmt_ptr fmt ap ;; exit_ 1) (fun o h' => child h' \/ o = Trapped \/ (o = Exited 1 /\ complaint h') \/
    exists r, o = Done r /\ Q r (books h0) (books h')).
Proof.
  intros F. wstep. eapply wpt_mono; [apply wpt_extends, (quiet_printf fmt ap)|].
  intros o h' [[C|[->|[[-> X]|(u & -> & _)]]] (tr & ->)]; cbn [wseqpost]; auto.
  - destruct o as [u|n|p a|]; cbn [wseqpost]; auto. apply child_wpt; auto.
  - wstep. right. right. left. split; [reflexivity|]. apply failed_complaint, F.
Qed.

Lemma aside_fork : aside CFork.
Proof. apply aside_intro; [plain_tac| |]; reflexivity. Qed.
Lemma aside_pipe : aside CPipe.
Proof. apply aside_intro; [plain_tac| |]; reflexivity. Qed.

(** A fork that is tested: the driver goes on with the pid of its child. *)
Lemma keeps_fork {R} msg (k : Z -> prog R) Q :
  (forall pid, pid <> 0 -> keeps (k pid) Q) -> keeps (pid <- sysret CFork ;; bail fmt_ptr (pid <? 0) msg [] ;; k pid) Q.
Proof.
  intros K h. wstep. apply wpt_sysret; [plain_tac|]. intros r _. cbn [wseqpost].
  destruct (Z.eq_dec (r_ret r) 0) as [Z0|Nz].
  { apply child_wpt; [|auto]. exists r. split; [apply in_or_app; right; left; reflexivity|exact Z0]. }
  unfold bail. destruct (Z.ltb_spec (r_ret r) 0) as [N|P].
  - apply wpt_bind. eapply wpt_mono; [apply (fail_stops (R := unit) msg [] _ (fun _ _ _ => False) h)|].
    + left. exists CFork, r. split; [apply in_or_app; right; left; reflexivity|]. split; [cbn; auto|exact N].
    + intros o h' [C|[->|[[-> X]|(u & _ & [])]]]; cbn [wseqpost]; auto.
      destruct o as [u|n|p a|]; cbn [wseqpost]; auto. apply child_wpt; auto.
  - wstep. wstep. eapply wpt_mono; [apply K, Nz|]. rewrite (proj2 aside_fork). auto.
Qed.

Lemma keeps_pipe {R} msg (k : reply -> prog R) Q :
  (forall r, keeps (k r) Q) -> keeps (r <- sys CPipe ;; bail fmt_ptr (r_ret r <? 0) msg [] ;; k r) Q.
Proof.
  intros K h. wstep. apply wpt_sys; [plain_tac|]. intros r _. cbn [wseqpost].
  unfold bail. destruct (Z.ltb_spec (r_ret r) 0) as [N|P].
  - apply wpt_bind. eapply wpt_mono; [apply (fail_stops (R := unit) msg [] _ (fun _ _ _ => False) h)|].
    + left. exists CPipe, r. split; [apply in_or_app; right; left; reflexivity|]. split; [cbn; auto|exact N].
    + intros o h' [C|[->|[[-> X]|(u & _ & [])]]]; cbn [wseqpost]; auto.
      destruct o as [u|n|p a|]; cbn [wseqpost]; auto. apply child_wpt; auto.
  - wstep. wstep. eapply wpt_mono; [apply K|]. rewrite (proj2 aside_pipe). auto.
Qed.

(** ** One test, and a table *)

Lemma keeps_wait : keeps (wait_status junk) (fun v b b' => b' = (Datatypes.fst b ++ [v], Datatypes.snd b)).
Proof.
  intros h. unfold wait_status. wstep. apply wpt_sys; [plain_tac|]. intros r _. cbn [wseqpost]. wstep.
  right. right. right. eexists. split; [reflexivity|]. unfold books. rewrite verdicts_app, tallies_snoc. reflexivity.
Qed.

Lemma keeps_run t : keeps (run fmt_ptr junk t)
  (fun ok b b' => exists v, ok = (v =? 0) /\ b' = (Datatypes.fst b ++ [v], Datatypes.snd b)).
Proof.
  destruct t as [f s]. unfold run. apply keeps_seq; [apply quiet_printf|]. intros _. apply keeps_fork. intros pid Nz.
  rewrite (proj2 (Z.eqb_neq _ _) Nz). eapply keeps_bind; [apply keeps_wait|]. intros v.
  eapply keeps_seq; [case_if; apply quiet_printf|]. intros _. apply keeps_ret. intros b b0 ->. eauto.
Qed.

Definition pick (justone : option (list Z)) (tests : list test) : list test :=
  filter (fun t => chosen justone (Datatypes.snd t)) tests.

(** The tests up to the first one that fails. *)
Definition passed_all (n : nat) (z : Z) (l l' : list Z) : Prop :=
  (z = 0 /\ l' = l ++ repeat 0 n) \/ (z = 1 /\ exists k v, (k < n)%nat /\ v <> 0 /\ l' = l ++ repeat 0 k ++ [v]).

Lemma keeps_runtests justone tests : keeps (runtests fmt_ptr junk tests justone)
  (fun z b b' => Datatypes.snd b' = Datatypes.snd b /\
    passed_all (length (pick justone tests)) z (Datatypes.fst b) (Datatypes.fst b')).
Proof.
  induction tests as [|t tests IH]; cbn [runtests pick filter].
  { apply keeps_ret. intros b. split; [reflexivity|]. left. rewrite app_nil_r. auto. }
  fold (pick justone tests). destruct (chosen justone (Datatypes.snd t)); [|exact IH]. cbn [length].
  eapply keeps_bind; [apply keeps_run|]. intros ok. destruct ok; cbn [negb].
  - eapply keeps_mono; [apply IH|]. intros z b b' [Sb P] b0 (v & V & ->). cbn [Datatypes.fst Datatypes.snd] in *.
    symmetry in V. apply Z.eqb_eq in V. subst v. split; [exact Sb|]. unfold passed_all in *. cbn [repeat].
    destruct P as [[-> L]|(-> & k & v & B & N & L)]; [left|right; split; [reflexivity|]; exists (S k), v];
      rewrite L, <- app_assoc; cbn [app repeat]; auto. repeat split; auto. lia.
  - eapply keeps_seq; [apply quiet_printf|]. intros _. apply keeps_ret. intros b b0 (v & V & ->).
    split; [reflexivity|]. right. split; [reflexivity|]. exists O, v. symmetry in V. apply Z.eqb_neq in V.
    repeat split; auto. lia.
Qed.

(** ** Counting pages *)

Lemma tallies_read h fd n r : tallies (h ++ [(CRead fd n, r)]) =
  if r_ret r =? 0 then (Datatypes.fst (tallies h) ++ [Datatypes.snd (tallies h)], 0)
  else if r_ret r <? 0 then tallies h else (Datatypes.fst (tallies h), s32 (Datatypes.snd (tallies h) + 1)).
Proof. apply tallies_snoc. Qed.

Lemma verdicts_read h fd n r : verdicts (h ++ [(CRead fd n, r)]) = verdicts h.
Proof. rewrite verdicts_app. apply app_nil_r. Qed.

(** A loop of the driver, with what it keeps in its books. *)
Lemma keeps_iter {I R} (body : I -> prog (I + R)) (Inv : I -> list Z * (list Z * Z) -> list Z * (list Z * Z) -> Prop) Q i :
  (forall i, keeps (body i) (fun x b' b2 => forall b, Inv i b b' ->
     match x with inl i' => Inv i' b b2 | inr r => Q r b b2 end)) ->
  (forall b, Inv i b b) -> keeps (ITree.iter body i) Q.
Proof.
  intros B I0 h. apply wpt_iter with (Inv := fun j h' => child h' \/ Inv j (books h) (books h')); [|auto].
  intros j h' [C|Ij].
  - apply child_wpt; [exact C|]. intros [[i'|r]|n|p a|] h2 C2; cbn [turnpost]; auto.
  - eapply wpt_mono; [apply B|]. intros o h2 [C|[->|[[-> X]|(x & -> & H)]]]; cbn [turnpost]; auto.
    + destruct o as [[i'|r]|n|p a|]; cbn [turnpost]; auto.
    + specialize (H _ Ij). destruct x; cbn [turnpost]; eauto 6.
Qed.

(** A tested read: at the end of file a tally is closed. *)
Lemma keeps_read {R} fd msg (k : Z -> prog R) Q :
  (forall cc, 0 <= cc -> keeps (k cc) (fun x b' b2 => forall b,
     b' = (Datatypes.fst b, if cc =? 0 then (Datatypes.fst (Datatypes.snd b) ++ [Datatypes.snd (Datatypes.snd b)], 0)
           else (Datatypes.fst (Datatypes.snd b), s32 (Datatypes.snd (Datatypes.snd b) + 1))) -> Q x b b2)) ->
  keeps (cc <- sysret (CRead fd 1) ;; bail fmt_ptr (cc <? 0) msg [] ;; k cc) Q.
Proof.
  intros K h. wstep. apply wpt_sysret; [plain_tac|]. intros r _. cbn [wseqpost].
  unfold bail. destruct (Z.ltb_spec (r_ret r) 0) as [N|P].
  - apply wpt_bind. eapply wpt_mono; [apply (fail_stops (R := unit) _ [] _ (fun _ _ _ => False) h)|].
    + right. exists fd, r. split; [apply in_or_app; right; left; reflexivity|exact N].
    + intros o h' [C|[->|[[-> X]|(u & _ & [])]]]; cbn [wseqpost]; auto.
      destruct o as [u|n|p a|]; cbn [wseqpost]; auto. apply child_wpt; auto.
  - wstep. wstep. eapply wpt_mono; [apply K, P|]. intros o h' [C|[Tr|[X|(x & -> & H)]]]; auto.
    right. right. right. exists x. split; [reflexivity|]. apply H. unfold books. rewrite tallies_read, verdicts_read.
    rewrite (proj2 (Z.ltb_ge _ _) P). reflexivity.
Qed.

Lemma keeps_count_loop fd0 : keeps (ITree.iter (countfree_turn fmt_ptr fd0) 0)
  (fun m b b' => Datatypes.snd (Datatypes.snd b) = 0 ->
     b' = (Datatypes.fst b, (Datatypes.fst (Datatypes.snd b) ++ [m], 0))).
Proof.
  apply keeps_iter with (Inv := fun m b b' => Datatypes.snd (Datatypes.snd b) = 0 ->
    b' = (Datatypes.fst b, (Datatypes.fst (Datatypes.snd b), m))).
  2:{ intros [v [t c]] E0. cbn in *. subst. reflexivity. }
  intros m. unfold countfree_turn. apply keeps_read. intros cc P. destruct (cc =? 0); apply keeps_ret;
    intros b' [v [t c]] -> [v0 [t0 c0]] H E0; cbn in *; specialize (H E0); injection H as -> -> ->; reflexivity.
Qed.

Lemma keeps_countfree : keeps (countfree fmt_ptr)
  (fun m b b' => Datatypes.snd (Datatypes.snd b) = 0 ->
     b' = (Datatypes.fst b, (Datatypes.fst (Datatypes.snd b) ++ [m], 0))).
Proof.
  unfold countfree. apply keeps_pipe. intros r. cbv zeta. apply keeps_fork. intros pid Nz.
  rewrite (proj2 (Z.eqb_neq _ _) Nz). apply keeps_seq; [apply keeps_ret; reflexivity|]. intros _.
  apply keeps_seq; [apply quiet_call, aside_close|]. intros _.
  eapply keeps_bind; [apply keeps_count_loop|]. intros m.
  apply keeps_seq; [apply quiet_call, aside_close|]. intros _.
  apply keeps_seq; [apply quiet_call, aside_wait|]. intros _. apply keeps_ret. auto.
Qed.
(** ** The driver *)

Context (quicktests slowtests : list test) (quick : bool) (continuous : Z) (justone : option (list Z)).

Definition chosen_tests : list test := pick justone (quicktests ++ if quick then [] else slowtests).

(** The books give a reason to fail. *)
Definition bad_books (b : list Z * (list Z * Z)) : Prop :=
  (exists v, In v (Datatypes.fst b) /\ v <> 0) \/
  (exists t a c, Datatypes.fst (Datatypes.snd b) = t ++ [a; c] /\ c < a).

Lemma bad_complaint h : bad_books (books h) -> complaint h.
Proof. intros [V|T]; [right; right; left; exact V|right; right; right; exact T]. Qed.

Definition turn_end (x : unit + Z) (b b' : list Z * (list Z * Z)) : Prop :=
  Datatypes.snd (Datatypes.snd b) = 0 ->
  match x with
  | inl _ => continuous <> 0 /\ Datatypes.snd (Datatypes.snd b') = 0
  | inr z => (z = 1 /\ bad_books b') \/
      (z = 0 /\ continuous = 0 /\ Datatypes.fst b' = Datatypes.fst b ++ repeat 0 (length chosen_tests) /\
       exists a c, Datatypes.snd b' = (Datatypes.fst (Datatypes.snd b) ++ [a; c], 0) /\ a <= c)
  end.

Lemma passed_bad n z l l' t : passed_all n z l l' -> z <> 0 -> bad_books (l', t).
Proof.
  intros [[-> _]|(_ & k & v & _ & N & ->)] Nz; [congruence|]. left. exists v. split; [|exact N].
  cbn. apply in_or_app. right. apply in_or_app. right. left. reflexivity.
Qed.

Lemma passed_zero n z l l' : passed_all n z l l' -> z = 0 -> l' = l ++ repeat 0 n.
Proof. intros [[_ ->]|(-> & _)] Z0; [reflexivity|discriminate]. Qed.

Lemma continued c : (c =? 0) = true -> (c <>? 2) = true.
Proof. intros E0%Z.eqb_eq. subst. reflexivity. Qed.

Lemma keeps_turn : keeps (drive_turn fmt_ptr junk quicktests slowtests quick continuous justone tt) turn_end.
Proof.
  unfold drive_turn. apply keeps_seq; [apply quiet_printf|]. intros _.
  eapply keeps_bind; [apply keeps_countfree|]. intros free0.
  eapply keeps_bind; [apply keeps_runtests|]. intros q.
  destruct ((q <>? 0) && (continuous <>? 2)) eqn:Q.
  { apply keeps_ret. intros [l [t c]] [l1 [t1 c1]] [S1 P] [l0 [t0 c0]] H E0. cbn in *. left. split; [reflexivity|].
    breflect. eapply passed_bad; [exact P|auto]. }
  eapply keeps_bind with (P := fun sl b b' => Datatypes.snd b' = Datatypes.snd b /\
    passed_all (length (pick justone (if quick then [] else slowtests))) sl (Datatypes.fst b) (Datatypes.fst b')).
  { destruct quick; [apply keeps_ret; intros b; split; [reflexivity|]; left; cbn; rewrite app_nil_r; auto|].
    apply keeps_seq; [destruct justone; [apply keeps_ret; reflexivity|apply quiet_printf]|]. intros _. apply keeps_runtests. }
  intros sl. destruct ((sl <>? 0) && (continuous <>? 2)) eqn:Sl.
  { apply keeps_ret. intros [l [t c]] [l2 [t2 c2]] [S2 P2] [l1 [t1 c1]] [S1 P1] [l0 [t0 c0]] H E0. cbn in *. left.
    split; [reflexivity|]. breflect. eapply passed_bad; [exact P2|auto]. }
  eapply keeps_bind; [apply keeps_countfree|]. intros free1.
  apply keeps_seq; [case_if; [apply quiet_printf|apply keeps_ret; reflexivity]|]. intros _.
  assert (Pk : length chosen_tests = (length (pick justone quicktests) + length (pick justone (if quick then [] else slowtests)))%nat).
  { unfold chosen_tests, pick. rewrite filter_app, length_app. reflexivity. }
  assert (Bk : forall b b1 b2 b3 b4 : list Z * (list Z * Z), Datatypes.snd (Datatypes.snd b) = 0 ->
    (Datatypes.snd (Datatypes.snd b) = 0 -> b1 = (Datatypes.fst b, (Datatypes.fst (Datatypes.snd b) ++ [free0], 0))) ->
    Datatypes.snd b2 = Datatypes.snd b1 -> Datatypes.snd b3 = Datatypes.snd b2 ->
    (Datatypes.snd (Datatypes.snd b3) = 0 -> b4 = (Datatypes.fst b3, (Datatypes.fst (Datatypes.snd b3) ++ [free1], 0))) ->
    Datatypes.fst b1 = Datatypes.fst b /\ b4 = (Datatypes.fst b3, (Datatypes.fst (Datatypes.snd b) ++ [free0; free1], 0))).
  { intros [l [t c]] [l1 [t1 c1]] [l2 [t2 c2]] [l3 [t3 c3]] b4 E0 H1 H2 H3 H4. cbn in *. specialize (H1 E0).
    injection H1 as -> -> ->. injection H2 as -> ->. injection H3 as -> ->. rewrite (H4 eq_refl), <- app_assoc. auto. }
  destruct ((free1 <? free0) && (continuous <>? 2)) eqn:F; [|destruct (continuous =? 0) eqn:C];
    apply keeps_ret; intros b4 b3 H4 b2 [H3 P3] b1 [H2 P2] b H1 E0; destruct (Bk _ _ _ _ _ E0 H1 H2 H3 H4) as [L1 ->].
  - left. split; [reflexivity|]. right. breflect. cbn. exists (Datatypes.fst (Datatypes.snd b)), free0, free1. auto.
  - right. rewrite (continued _ C) in Q, Sl, F. rewrite andb_true_r in Q, Sl, F. apply Z.eqb_eq in C.
    breflect. split; [reflexivity|]. split; [exact C|]. cbn. split.
    + rewrite (passed_zero _ _ _ _ P3), (passed_zero _ _ _ _ P2) by auto. rewrite L1, <- app_assoc, <- repeat_app, Pk. reflexivity.
    + exists free0, free1. auto.
  - apply Z.eqb_neq in C. split; [exact C|reflexivity].
Qed.

Lemma keeps_drive : keeps (drivetests fmt_ptr junk quicktests slowtests quick continuous justone)
  (fun z b b' => b = ([], ([], 0)) ->
     (z = 1 /\ bad_books b') \/
     (z = 0 /\ continuous = 0 /\ Datatypes.fst b' = repeat 0 (length chosen_tests) /\
      exists a c, Datatypes.fst (Datatypes.snd b') = [a; c] /\ a <= c)).
Proof.
  unfold drivetests. apply keeps_iter with (Inv := fun _ b b' => b = ([], ([], 0)) ->
    Datatypes.snd (Datatypes.snd b') = 0 /\ (continuous = 0 -> b' = b)).
  2:{ intros b ->. auto. }
  intros []. eapply keeps_mono; [apply keeps_turn|]. intros x b1 b2 T b I.
  destruct x as [u|z]; intros E0; destruct (I E0) as [Z0 Same]; specialize (T Z0).
  - destruct T as [N Z2]. split; [exact Z2|]. intros C. contradiction.
  - destruct T as [T|(-> & C & L & a & c & Sb & Le)]; [auto|right]. rewrite (Same C), E0 in L, Sb. cbn in L, Sb.
    split; [reflexivity|]. split; [exact C|]. split; [exact L|]. exists a, c. rewrite Sb. auto.
Qed.
End Driver.
End History.

(** The verdict of usertests.c, for any tables of tests, any options and any
    kernel.  The process that runs the tests exits with 0 only without -c or -C,
    and then [wait] has reported status 0 exactly once for each chosen test, in
    a row, and the second count of pages is no lower than the first.  It exits
    with 1 for the usage message, or with a reason: a call that failed, a status
    that is not 0, or pages lost.  Otherwise it never ends, or dies of a trap
    while it prints. *)
Theorem usertests_verdict E fmt_ptr junk quicktests slowtests argv :
  wpt E [] (main fmt_ptr junk quicktests slowtests argv) (fun o h => child h \/ o = Trapped \/
    match options argv with
    | None => o = Exited 1
    | Some (quick, continuous, justone) =>
        (o = Exited 1 /\ complaint junk h) \/
        (o = Exited 0 /\ continuous = 0 /\
         verdicts junk h = repeat 0 (length (chosen_tests quicktests slowtests quick justone)) /\
         exists free0 free1, Datatypes.fst (tallies h) = [free0; free1] /\ free0 <= free1)
    end).
Proof.
  unfold main. destruct (options argv) as [[[quick continuous] justone]|].
  - apply wpt_bind. eapply wpt_mono; [apply (keeps_drive junk E fmt_ptr quicktests slowtests quick continuous justone)|].
    intros o h [C|[->|[[-> X]|(z & -> & H)]]]; cbn [wseqpost].
    + destruct o; cbn [wseqpost]; auto. apply child_wpt; auto.
    + auto.
    + auto.
    + destruct (H eq_refl) as [[-> B]|(-> & Cn & V & T)].
      * change (1 <>? 0) with true. wstep. wstep. right. right. left. split; [reflexivity|]. apply bad_complaint, B.
      * change (0 <>? 0) with false. wstep. wstep. wstep. eapply wpt_mono; [apply (quiet_printf junk)|].
        intros o h' [C|[->|[[-> X]|(u & -> & Bk)]]]; cbn [wseqpost]; auto.
        -- destruct o; cbn [wseqpost]; auto. apply child_wpt; auto.
        -- wstep. right. right. right. injection Bk as Bv Bt. rewrite Bv, Bt. auto.
  - wstep. eapply wpt_mono; [apply (quiet_printf junk)|].
    intros o h' [C|[->|[[-> X]|(u & -> & Bk)]]]; cbn [wseqpost]; auto.
    + destruct o; cbn [wseqpost]; auto. apply child_wpt; auto.
    + wstep. auto.
Qed.
