(* ===== verification/Unix.v ===== *)
(** The kernel the tests of usertests.c expect, as an executable specification:
    files, directories, links, descriptors, pipes, fork and wait, without a disk
    and without a scheduler.

    A forked child runs to its end before its parent goes on, so a pipe has no
    bound and a read of an empty one is at its end.  Memory above the break is
    not there, a pointer that is not the program's own is refused, and [exec]
    finds no program.  [run_test] runs a program of Sys.v on it. *)

From ITree Require Import ITree.
From S2P Require Import Prelude Sys ShParse Utests.
Local Open Scope zm_scope.

Definition name_eqb (a b : list Z) : bool := if list_eq_dec Z.eq_dec a b then true else false.

(** * Files and directories *)

Inductive node : Type :=
| File (data : list Z)
| Dir (entries : list (list Z * nat)).

(** The inodes by number; the root is inode 1, number 0 marks a free entry. *)
Definition nodes : Type := list node.
Definition root : nat := 1.
Definition node_at (fs : nodes) (i : nat) : node := nth i fs (File []).

Fixpoint entry (es : list (list Z * nat)) (name : list Z) : option nat :=
  match es with
  | [] => None
  | (n, i) :: es => if name_eqb n name then Some i else entry es name
  end.

(** The components of a path. *)
Fixpoint split_path (p cur : list Z) : list (list Z) :=
  match p with
  | [] => match cur with [] => [] | _ => [cur] end
  | c :: p => if c =? #"/" then match cur with [] => split_path p [] | _ => cur :: split_path p [] end
              else split_path p (cur ++ [c])
  end.

Fixpoint walk (fs : nodes) (i : nat) (names : list (list Z)) : option nat :=
  match names with
  | [] => Some i
  | n :: names =>
      match node_at fs i with
      | Dir es => match entry es n with Some j => walk fs j names | None => None end
      | File _ => None
      end
  end.

Definition max_name : Z := 27.
Definition max_path : Z := 128.

Definition absolute (p : list Z) : bool := match p with c :: _ => c =? #"/" | [] => false end.

Definition lookup (fs : nodes) (cwd : nat) (p : list Z) : option nat :=
  if max_path <=? len p then None else walk fs (if absolute p then root else cwd) (split_path p []).

(** The directory a path ends in, and the last name. *)
Definition parent_of (fs : nodes) (cwd : nat) (p : list Z) : option (nat * list (list Z * nat) * list Z) :=
  if max_path <=? len p then None
  else
    match rev (split_path p []) with
    | [] => None
    | name :: dirs =>
        if max_name <? len name then None
        else
          match walk fs (if absolute p then root else cwd) (rev dirs) with
          | Some d => match node_at fs d with Dir es => Some (d, es, name) | File _ => None end
          | None => None
          end
    end.

(** * Descriptors *)

Inductive ofile : Type :=
| Console
| OFile (ino : nat) (off : Z) (readable writable : bool)
| PipeEnd (id : nat) (write_end : bool).

Record proc : Type := Proc { cwd : nat; fds : list (option nat); brk : Z }.

Record kern : Type := Kern {
  inodes : nodes; opened : list ofile; pipes : list (list Z); me : proc; zombies : list (Z * Z); next_pid : Z
}.

Definition with_nodes (k : kern) (fs : nodes) : kern :=
  Kern fs (opened k) (pipes k) (me k) (zombies k) (next_pid k).
Definition with_proc (k : kern) (p : proc) : kern :=
  Kern (inodes k) (opened k) (pipes k) p (zombies k) (next_pid k).

Fixpoint free_fd (l : list (option nat)) : option nat :=
  match l with
  | [] => None
  | None :: _ => Some O
  | Some _ :: l => option_map S (free_fd l)
  end.

(** A new open file on the lowest free descriptor. *)
Definition new_fd (k : kern) (f : ofile) : kern * Z :=
  match free_fd (fds (me k)) with
  | None => (k, -1)
  | Some fd =>
      (Kern (inodes k) (opened k ++ [f]) (pipes k)
         (Proc (cwd (me k)) (list_set (fds (me k)) fd (Some (length (opened k)))) (brk (me k)))
         (zombies k) (next_pid k), Z.of_nat fd)
  end.

Definition get_fd (k : kern) (fd : Z) : option (nat * ofile) :=
  if fd <? 0 then None
  else
    match nth (Z.to_nat fd) (fds (me k)) None with
    | Some i => option_map (fun f => (i, f)) (nth_error (opened k) i)
    | None => None
    end.

(** * Calls *)

Definition add_node (fs : nodes) (d : nat) (es : list (list Z * nat)) (name : list Z) (mk : nat -> node) : nodes * nat :=
  let i := length fs in
  (list_set (fs ++ [mk i]) d (Dir (es ++ [(name, i)])), i).

Definition open_node (k : kern) (i : nat) (mode : Z) : kern * Z :=
  match node_at (inodes k) i with
  | Dir _ => if mode =? O_RDONLY then new_fd k (OFile i 0 true false) else (k, -1)
  | File _ =>
      let k := if Z.land mode O_TRUNC =? 0 then k else with_nodes k (list_set (inodes k) i (File [])) in
      new_fd k (OFile i 0 (Z.land mode O_WRONLY =? 0) (negb (Z.land mode (O_WRONLY .| O_RDWR) =? 0)))
  end.

Definition do_open (k : kern) (p : list Z) (mode : Z) : kern * Z :=
  if Z.land mode O_CREATE =? 0 then
    match lookup (inodes k) (cwd (me k)) p with Some i => open_node k i mode | None => (k, -1) end
  else
    match parent_of (inodes k) (cwd (me k)) p with
    | None => (k, -1)
    | Some (d, es, name) =>
        match entry es name with
        | Some i => match node_at (inodes k) i with Dir _ => (k, -1) | File _ => open_node k i mode end
        | None =>
            let '(fs, i) := add_node (inodes k) d es name (fun _ => File []) in
            open_node (with_nodes k fs) i mode
        end
    end.

(** The bytes of a directory: 32 for each entry. *)
Definition entry_bytes (e : list Z * nat) : list Z :=
  let '(name, i) := e in
  firstn 32 ([u8 (Z.of_nat i); u8 (Z.shiftr (Z.of_nat i) 8); 0; 0; len name] ++ name ++ repeat 0 27).

Definition bytes_of (n : node) : list Z :=
  match n with File d => d | Dir es => flat_map entry_bytes es end.

Definition set_file (k : kern) (i : nat) (f : ofile) : kern :=
  Kern (inodes k) (list_set (opened k) i f) (pipes k) (me k) (zombies k) (next_pid k).

Definition do_read (k : kern) (fd n : Z) : kern * reply :=
  if n <? 0 then (k, Reply (-1) [])
  else
    match get_fd k fd with
    | Some (i, OFile ino off true w) =>
        let d := firstn (Z.to_nat n) (skipn (Z.to_nat off) (bytes_of (node_at (inodes k) ino))) in
        (set_file k i (OFile ino (off + len d) true w), Reply (len d) d)
    | Some (i, PipeEnd id false) =>
        let d := nth id (pipes k) [] in
        (Kern (inodes k) (opened k) (list_set (pipes k) id (skipn (Z.to_nat n) d)) (me k) (zombies k) (next_pid k),
         Reply (len (firstn (Z.to_nat n) d)) (firstn (Z.to_nat n) d))
    | Some (_, Console) => (k, Reply 0 [])
    | _ => (k, Reply (-1) [])
    end.

Definition put_at (d : list Z) (off : nat) (new : list Z) : list Z :=
  firstn off d ++ new ++ skipn (off + length new) d.

Definition do_write (k : kern) (fd : Z) (new : list Z) : kern * Z :=
  match get_fd k fd with
  | Some (i, OFile ino off r true) =>
      match node_at (inodes k) ino with
      | File d =>
          if (len d <? off) || (MAXFILE * BSIZE <? off + len new) then (k, -1)
          else
            (set_file (with_nodes k (list_set (inodes k) ino (File (put_at d (Z.to_nat off) new)))) i
               (OFile ino (off + len new) r true), len new)
      | Dir _ => (k, -1)
      end
  | Some (_, PipeEnd id true) =>
      (Kern (inodes k) (opened k) (list_set (pipes k) id (nth id (pipes k) [] ++ new)) (me k) (zombies k) (next_pid k), len new)
  | Some (_, Console) => (k, len new)
  | _ => (k, -1)
  end.

Definition dot : list Z := $".".
Definition dotdot : list Z := $"..".

Definition removable (n : node) : bool :=
  match n with File _ => true | Dir es => (length es <=? 2)%nat end.

Definition do_unlink (k : kern) (p : list Z) : kern * Z :=
  match parent_of (inodes k) (cwd (me k)) p with
  | None => (k, -1)
  | Some (d, es, name) =>
      if name_eqb name dot || name_eqb name dotdot then (k, -1)
      else
        match entry es name with
        | Some i =>
            if removable (node_at (inodes k) i) then
              (with_nodes k (list_set (inodes k) d (Dir (filter (fun e => negb (name_eqb (fst e) name)) es))), 0)
            else (k, -1)
        | None => (k, -1)
        end
  end.

Definition do_link (k : kern) (old new : list Z) : kern * Z :=
  match lookup (inodes k) (cwd (me k)) old, parent_of (inodes k) (cwd (me k)) new with
  | Some i, Some (d, es, name) =>
      match node_at (inodes k) i, entry es name with
      | File _, None => (with_nodes k (list_set (inodes k) d (Dir (es ++ [(name, i)]))), 0)
      | _, _ => (k, -1)
      end
  | _, _ => (k, -1)
  end.

Definition do_mkdir (k : kern) (p : list Z) : kern * Z :=
  match parent_of (inodes k) (cwd (me k)) p with
  | None => (k, -1)
  | Some (d, es, name) =>
      match entry es name with
      | Some _ => (k, -1)
      | None => (with_nodes k (fst (add_node (inodes k) d es name (fun i => Dir [(dot, i); (dotdot, d)]))), 0)
      end
  end.

Definition do_chdir (k : kern) (p : list Z) : kern * Z :=
  match lookup (inodes k) (cwd (me k)) p with
  | Some i =>
      match node_at (inodes k) i with
      | Dir _ => (with_proc k (Proc i (fds (me k)) (brk (me k))), 0)
      | File _ => (k, -1)
      end
  | None => (k, -1)
  end.

Definition do_close (k : kern) (fd : Z) : kern * Z :=
  match get_fd k fd with
  | Some _ => (with_proc k (Proc (cwd (me k)) (list_set (fds (me k)) (Z.to_nat fd) None) (brk (me k))), 0)
  | None => (k, -1)
  end.

Definition do_pipe (k : kern) : kern * reply :=
  let id := length (pipes k) in
  let k := Kern (inodes k) (opened k) (pipes k ++ [[]]) (me k) (zombies k) (next_pid k) in
  let '(k, a) := new_fd k (PipeEnd id false) in
  let '(k, b) := new_fd k (PipeEnd id true) in
  (k, Reply (if (a <? 0) || (b <? 0) then -1 else 0) [a; b]).

Definition max_brk : Z := 128 * 1024 * 1024.

Definition do_sbrk (k : kern) (n : Z) : kern * Z :=
  let old := brk (me k) in
  if (old + n <? 0) || (max_brk <? old + n) then (k, -1)
  else (with_proc k (Proc (cwd (me k)) (fds (me k)) (old + n)), old).

Definition do_wait (k : kern) : kern * reply :=
  match zombies k with
  | [] => (k, Reply (-1) [])
  | (pid, status) :: zs => (Kern (inodes k) (opened k) (pipes k) (me k) zs (next_pid k), Reply pid [status])
  end.

Definition plain_reply (x : kern * Z) : kern * reply := (fst x, Reply (snd x) []).

(** The program's text, which cannot be written; a page that is not there; the
    stack; and the heap up to the break. *)
Definition text_end : Z := 8192.
Definition stack_start : Z := 12288.
Definition accessible (k : kern) (a n : Z) (store : option Z) : bool :=
  (a + n <=? brk (me k)) &&
  ((stack_start <=? a) || match store with None => a + n <=? text_end | Some _ => false end).

(** The calls but fork and exit. *)
Definition answer (k : kern) (c : call) : kern * reply :=
  match c with
  | COpen p mode => plain_reply (do_open k p mode)
  | CRead fd n => do_read k fd n
  | CWrite fd d => plain_reply (do_write k fd d)
  | CClose fd => plain_reply (do_close k fd)
  | CUnlink p => plain_reply (do_unlink k p)
  | CLink a b => plain_reply (do_link k a b)
  | CMkdir p => plain_reply (do_mkdir k p)
  | CChdir p => plain_reply (do_chdir k p)
  | CPipe => do_pipe k
  | CSbrk n => plain_reply (do_sbrk k n)
  | CWait _ => do_wait k
  | CGetpid | CSleep _ | CKill _ | CUptime => (k, Reply 0 [])
  | CAccess a n store => (k, Reply (if accessible k a n store then 0 else -1) [])
  | _ => (k, Reply (-1) [])
  end.

(** * Running *)

Variant result : Type := Passed | Failed (status : Z) | Died | Hung.

Definition zombie_status (r : result) : Z :=
  match r with Passed => 0 | Failed n => n | _ => -1 end.

Section Run.
Variable ans : kern -> call -> kern * reply.

Fixpoint run_prog (fuel : nat) (k : kern) (t : prog unit) : kern * result :=
  match fuel with
  | O => (k, Hung)
  | S fuel =>
      match view t with
      | NRet _ => (k, Passed)
      | NTau t => run_prog fuel k t
      | NSys (CExit n) _ => (k, if n =? 0 then Passed else Failed n)
      | NSys CTrap _ => (k, Died)
      | NSys CFork kk =>
          let pid := next_pid k in
          let '(k1, r) := run_prog fuel (Kern (inodes k) (opened k) (pipes k) (me k) [] (pid + 1)) (kk (Reply 0 [])) in
          match r with
          | Hung => (k1, Hung)
          | _ => run_prog fuel (Kern (inodes k1) (opened k1) (pipes k1) (me k) (zombies k ++ [(pid, zombie_status r)])
                   (next_pid k1)) (kk (Reply pid []))
          end
      | NSys c kk => let '(k, r) := ans k c in run_prog fuel k (kk r)
      end
  end.
End Run.

(** The system after boot, some files in its root. *)
Definition boot : kern :=
  let files := [$"README.md"; $"cat"; $"echo"; $"init"] in
  Kern (File [] :: Dir ([(dot, root); (dotdot, root)] ++ combine files (seq 2 4)) :: repeat (File ($"text")) 4)
    [Console] [] (Proc root (repeat (Some O) 3 ++ repeat None 13) 16384) [] 4.

Definition run_test (ans : kern -> call -> kern * reply) (fuel : nat) (t : test) : result :=
  snd (run_prog ans fuel boot (fst t (snd t))).
