(* ===== verification/UtAccept.v ===== *)
(** The tests of usertests.c against the specification of Unix.v, and against
    kernels that break it. *)

From ITree Require Import ITree.
From S2P Require Import Prelude Sys ShParse Utests UtFiles UtDirs UtProcs UtMem Unix.
Local Open Scope zm_scope.

(** The tables of usertests.c, for a program with an empty [uninit] and with
    nothing in its unassigned variables. *)
Definition the_tests : list test :=
  quicktests (fun _ => []) 0 [] (fun _ => 0) 16000 10 0 [] ++ slowtests (fun _ => []) [].

(** Those that need the memory, the programs or the scheduler the specification
    does not have, and those that only take long to run on it. *)
Definition left_out : list (list Z) :=
  [$"exectest"; $"killstatus"; $"preempt"; $"forkforkfork"; $"mem"; $"forktest"; $"sbrkfail"; $"sbrkarg"; $"sbrklast";
   $"execout"; $"diskfull"; $"outofinodes"; $"manywrites";
   $"writebig"; $"sharedfd"; $"sbrkbasic"; $"sbrkmuch"].

Definition runnable : list test := filter (fun t => negb (existsb (name_eqb (snd t)) left_out)) the_tests.

Definition steps : nat := Z.to_nat 60000.

(** ** Broken kernels *)

Definition kernel : Type := kern -> call -> kern * reply.

(** [open] does not truncate. *)
Definition no_trunc : kernel := fun k c =>
  match c with COpen p mode => answer k (COpen p (Z.land mode (O_CREATE .| O_WRONLY .| O_RDWR))) | _ => answer k c end.
(** A write beyond the end of a file succeeds. *)
Definition write_hole : kernel := fun k c =>
  match c with CWrite fd d => (fst (answer k c), Reply (len d) []) | _ => answer k c end.
(** [unlink] answers 0 and does nothing. *)
Definition no_unlink : kernel := fun k c => match c with CUnlink _ => (k, Reply 0 []) | _ => answer k c end.
(** [unlink] removes any directory. *)
Definition unlink_full : kernel := fun k c =>
  match c with
  | CUnlink p =>
      match parent_of (inodes k) (cwd (me k)) p with
      | Some (d, es, name) =>
          (with_nodes k (list_set (inodes k) d (Dir (filter (fun e => negb (name_eqb (fst e) name)) es))), Reply 0 [])
      | None => (k, Reply (-1) [])
      end
  | _ => answer k c
  end.
(** Directories open for writing. *)
Definition write_dirs : kernel := fun k c =>
  match c with
  | COpen p mode => if Z.land mode O_CREATE =? 0 then
      match lookup (inodes k) (cwd (me k)) p with
      | Some i => match node_at (inodes k) i with
                  | Dir _ => plain_reply (new_fd k (OFile i 0 true true)) | File _ => answer k c end
      | None => answer k c
      end else answer k c
  | _ => answer k c
  end.
(** Names are cut instead of refused. *)
Definition cut_names : kernel := fun k c =>
  match c with CMkdir p => answer k (CMkdir (if 27 <? len p then firstn 27 p ++ [#"x"] else p)) | _ => answer k c end.
(** [wait] reports status 0 for every child. *)
Definition lose_status : kernel := fun k c =>
  match c with CWait _ => let '(k, r) := answer k c in (k, Reply (r_ret r) [0]) | _ => answer k c end.
(** Wild pointers are read and written. *)
Definition wild_ok : kernel := fun k c => match c with CRaw _ _ => (k, Reply 1 []) | _ => answer k c end.
(** Kernel memory can be read. *)
Definition open_memory : kernel := fun k c => match c with CAccess _ _ _ => (k, Reply 0 []) | _ => answer k c end.

Definition verdict_of (ans : kernel) (name : string) : option result :=
  option_map (run_test ans steps) (find (fun t => name_eqb (snd t) (lit name)) the_tests).

(** A kernel that forgets what is written to a file after its first 20 blocks. *)
Definition forgetful : kernel := fun k c =>
  match c with
  | CWrite fd d =>
      match get_fd k fd with
      | Some (i, OFile ino off r true) =>
          if 20 * BSIZE <=? off then (set_file k i (OFile ino (off + len d) r true), Reply (len d) [])
          else answer k c
      | _ => answer k c
      end
  | _ => answer k c
  end.

(** * Theorems *)

Definition passed (r : result) : bool := match r with Passed => true | _ => false end.

Lemma all_passed ans : forallb (fun t => passed (run_test ans steps t)) runnable = true ->
  Forall (fun t => run_test ans steps t = Passed) runnable.
Proof.
  intros H. apply Forall_forall. intros t I. apply (proj1 (forallb_forall _ _) H) in I.
  destruct (run_test ans steps t); [reflexivity|discriminate..].
Qed.

(** The specification of Unix.v and usertests.c agree: 49 of the tests, run
    to their end as the child of the driver runs them, with all the processes
    they fork, pass on a kernel that follows it. *)
Theorem usertests_accept :
  length runnable = 49%nat /\ Forall (fun t => run_test answer steps t = Passed) runnable.
Proof. split; [vm_compute; reflexivity|]. apply all_passed. vm_compute. reflexivity. Qed.

(** Each broken kernel with a test. *)
Definition detections : list (kernel * string) := [
  (no_trunc, "truncate1"%string); (write_hole, "truncate2"%string); (no_unlink, "linktest"%string);
  (unlink_full, "subdir"%string); (write_dirs, "openiput"%string); (cut_names, "fourteen"%string);
  (lose_status, "exitwait"%string); (wild_ok, "copyin"%string); (open_memory, "kernmem"%string)].

(** The tests find faults: each of nine kernels that break one promise fails a
    test.  They miss one: a kernel that drops all that is written to a file after
    its first 20 blocks, and reports it as written, passes writebig and the other
    tests that [usertests_accept] runs: writebig takes an early end of file for
    the right one unless exactly one block is missing. *)
Theorem usertests_detect :
  Forall (fun x => verdict_of (fst x) (snd x) = Some (Failed 1)) detections /\
  Forall (fun t => run_test forgetful steps t = Passed) runnable /\
  verdict_of forgetful "writebig" = Some Passed.
Proof.
  split; [repeat constructor; vm_compute; reflexivity|]. split; [apply all_passed|]; vm_compute; reflexivity.
Qed.
