(* ===== verification/KProc.v ===== *)
(** Processes: src/kernel/execution/process.zig and the sleeping and waking of
    scheduler.zig.

    The process table is a list, and a process is named by its place in it.  What
    a process does in the kernel between two places where others can run is one
    step: the part of [fork] under the child's lock, the setting of the parent, the
    part of [exit] under waitLock, [kill], [wakeup].  A turn of [wait] is two steps,
    since [kill] does not take waitLock: the search for a child, and the going to
    sleep.  What a process is doing is kept beside the table, as its kernel stack
    is, and so is that it holds waitLock.  Memory,
    files and the directory of a process are not here: that a copy of memory or a
    copy to the caller fails is an argument of the operation. *)

From S2P Require Import Prelude.
Local Open Scope zm_scope.

(** * The table *)

Variant pstate : Type := Unused | Used | Sleeping | Runnable | Running | Zombie.

(** What a process sleeps on: a process of the table, or something else. *)
Variant channel : Type := OnProc (p : nat) | OnOther (c : Z).

Record process : Type := Process {
  p_state : pstate;
  p_chan : option channel;
  p_killed : bool;
  p_status : Z;
  p_pid : Z;
  p_parent : option nat;
}.

Definition NPROC : nat := 64.

Definition free_process : process := Process Unused None false 0 0 None.

Definition table : Type := list process.
Definition proc_at (t : table) (i : nat) : process := nth i t free_process.
Definition update (i : nat) (f : process -> process) (t : table) : table := list_set t i (f (proc_at t i)).

Definition set_state (st : pstate) (x : process) : process := Process st (p_chan x) (p_killed x) (p_status x) (p_pid x) (p_parent x).
Definition set_chan (c : option channel) (x : process) : process := Process (p_state x) c (p_killed x) (p_status x) (p_pid x) (p_parent x).
Definition set_killed (x : process) : process := Process (p_state x) (p_chan x) true (p_status x) (p_pid x) (p_parent x).
Definition set_status (z : Z) (x : process) : process := Process (p_state x) (p_chan x) (p_killed x) z (p_pid x) (p_parent x).
Definition set_parent (o : option nat) (x : process) : process := Process (p_state x) (p_chan x) (p_killed x) (p_status x) (p_pid x) o.

Definition is_state (st : pstate) (x : process) : bool :=
  match p_state x, st with
  | Unused, Unused | Used, Used | Sleeping, Sleeping | Runnable, Runnable | Running, Running | Zombie, Zombie => true
  | _, _ => false
  end.
Definition is_parent (p : nat) (x : process) : bool := match p_parent x with Some q => (q =? p)%nat | None => false end.
Definition sleeps_on (c : channel) (x : process) : bool :=
  is_state Sleeping x &&
  match p_chan x, c with
  | Some (OnProc p), OnProc q => (p =? q)%nat
  | Some (OnOther a), OnOther b => a =? b
  | _, _ => false
  end.

(** All places, and the first one where [f] holds. *)
Definition places (t : table) : list nat := seq 0 (length t).
Definition first_place (f : process -> bool) (t : table) : option nat := find (fun i => f (proc_at t i)) (places t).

(** * scheduler.zig *)

(** The loop of [wakeup]; the process that calls it is passed over. *)
Definition wakeup (current : option nat) (c : channel) (t : table) : table :=
  fold_left (fun t i =>
    if match current with Some p => (p =? i)%nat | None => false end then t
    else if sleeps_on c (proc_at t i) then update i (set_state Runnable) t else t) (places t) t.

Definition putProcessToSleep (c : channel) (p : nat) (t : table) : table :=
  update p (fun x => set_state Sleeping (set_chan (Some c) x)) t.

(** * process.zig *)

(** [allocProcessId] with the first part of [init]. *)
Definition alloc (next_pid : Z) (t : table) : option (nat * table) :=
  match first_place (is_state Unused) t with
  | None => None
  | Some i => Some (i, update i (fun x => Process Used (p_chan x) (p_killed x) (p_status x) next_pid (p_parent x)) t)
  end.

(** The fields of [free]. *)
Definition free (i : nat) (t : table) : table := update i (fun _ => free_process) t.

(** [mem]: the pages for the trap frame, the page table and the copy of the
    parent's memory could be had. *)
Definition fork_alloc (mem : bool) (next_pid : Z) (t : table) : option (option nat * table) :=
  match alloc next_pid t with
  | None => None
  | Some (i, t) => if mem then Some (Some i, t) else Some (None, free i t)
  end.

Definition reparentChildren (initial current : nat) (t : table) : table :=
  fold_left (fun t i =>
    if is_parent current (proc_at t i)
    then wakeup (Some current) (OnProc initial) (update i (set_parent (Some initial)) t)
    else t) (places t) t.

(** From the check for the first process, then under waitLock; [None] for a panic. *)
Definition exit_ (initial p : nat) (status : Z) (t : table) : option table :=
  if (p =? initial)%nat then None
  else
    let t := reparentChildren initial p t in
    match p_parent (proc_at t p) with
    | None => None
    | Some parent =>
        let t := wakeup (Some p) (OnProc parent) t in
        Some (update p (fun x => set_state Zombie (set_status status x)) t)
    end.

Variant waited : Type :=
| Reap (i : nat) (pid status : Z)
| WaitFails
| WaitSleeps.

(** One turn of the loop of [wait], up to the sleep; [out]: the status can be
    copied out. *)
Definition wait_turn (out : bool) (p : nat) (t : table) : waited * table :=
  match first_place (fun x => is_parent p x && is_state Zombie x) t with
  | Some i =>
      if out then (Reap i (p_pid (proc_at t i)) (p_status (proc_at t i)), free i t) else (WaitFails, t)
  | None =>
      if negb (existsb (fun i => is_parent p (proc_at t i)) (places t)) then (WaitFails, t)
      else if p_killed (proc_at t p) then (WaitFails, t)
      else (WaitSleeps, t)
  end.

(** [None] if there is no such process. *)
Definition kill (target_pid : Z) (t : table) : option table :=
  match first_place (fun x => p_pid x =? target_pid) t with
  | None => None
  | Some i => Some (update i (fun x => (if is_state Sleeping x then set_state Runnable else fun x => x) (set_killed x)) t)
  end.

(** * Interleaving *)

(** Where the kernel stack of a process is: nowhere in particular, in [fork] with
    a child without and with a parent, in [wait] before the sleep, with waitLock, or
    after it, in another sleep. *)
Variant activity : Type := InUser | InFork (child : nat) | InForkParent (child : nat) | InWaitLocked | InWait | InSleep.

Record sys : Type := Sys { s_table : table; s_next : Z; s_doing : list activity }.
Definition doing (s : sys) (p : nat) : activity := nth p (s_doing s) InUser.
Definition now (s : sys) (p : nat) (t : table) (a : activity) : sys := Sys t (s_next s) (list_set (s_doing s) p a).

Variant event : Type := Born (pid : Z) | Exited (pid status : Z) | Reaped (p : nat) (pid status : Z).

Section Steps.
Variable initial : nat.

Definition runs (s : sys) (p : nat) : Prop := (p < length (s_table s))%nat /\ p_state (proc_at (s_table s) p) = Running.

(** waitLock is free. *)
Definition unlocked (s : sys) : Prop := forall q, doing s q <> InWaitLocked.

(** The table when [p] goes on, in [wait] after a sleep. *)
Definition resumed (s : sys) (p : nat) : table :=
  match doing s p with InWait => update p (set_chan None) (s_table s) | _ => s_table s end.

Inductive step : sys -> list event -> sys -> Prop :=
| S_schedule s p : (p < length (s_table s))%nat -> p_state (proc_at (s_table s) p) = Runnable ->
    step s [] (now s p (update p (set_state Running) (s_table s)) (doing s p))
| S_yield s p : runs s p -> step s [] (now s p (update p (set_state Runnable) (s_table s)) (doing s p))
| S_fork_full s p : runs s p -> doing s p = InUser -> fork_alloc true (s_next s) (s_table s) = None -> step s [] s
| S_fork_fails s p t : runs s p -> doing s p = InUser -> fork_alloc false (s_next s) (s_table s) = Some (None, t) ->
    step s [Born (s_next s)] (Sys t (u32 (s_next s + 1)) (s_doing s))
| S_fork_alloc s p i t : runs s p -> doing s p = InUser -> fork_alloc true (s_next s) (s_table s) = Some (Some i, t) ->
    step s [Born (s_next s)] (Sys t (u32 (s_next s + 1)) (list_set (list_set (s_doing s) p (InFork i)) i InUser))
| S_fork_parent s p i : runs s p -> doing s p = InFork i -> unlocked s ->
    step s [] (now s p (update i (set_parent (Some p)) (s_table s)) (InForkParent i))
| S_fork_run s p i : runs s p -> doing s p = InForkParent i ->
    step s [] (now s p (update i (set_state Runnable) (s_table s)) InUser)
| S_exit s p status t : runs s p -> doing s p = InUser -> unlocked s -> exit_ initial p status (s_table s) = Some t ->
    step s [Exited (p_pid (proc_at (s_table s) p)) status] (now s p t InUser)
| S_wait s p out w t : runs s p -> doing s p = InUser \/ doing s p = InWait -> unlocked s ->
    wait_turn out p (resumed s p) = (w, t) ->
    step s (match w with Reap _ pid status => [Reaped p pid status] | _ => [] end)
      (now s p t (match w with WaitSleeps => InWaitLocked | _ => InUser end))
| S_wait_sleep s p : runs s p -> doing s p = InWaitLocked ->
    step s [] (now s p (putProcessToSleep (OnProc p) p (s_table s)) InWait)
| S_sleep s p c : runs s p -> doing s p = InUser -> step s [] (now s p (putProcessToSleep (OnOther c) p (s_table s)) InSleep)
| S_resume s p : runs s p -> doing s p = InSleep -> step s [] (now s p (update p (set_chan None) (s_table s)) InUser)
| S_wakeup s current c : step s [] (Sys (wakeup current (OnOther c) (s_table s)) (s_next s) (s_doing s))
| S_set_killed s p : runs s p -> doing s p = InUser -> step s [] (now s p (update p set_killed (s_table s)) InUser)
| S_kill s p pid t : runs s p -> doing s p = InUser -> kill pid (s_table s) = Some t -> step s [] (Sys t (s_next s) (s_doing s))
| S_kill_none s p pid : runs s p -> doing s p = InUser -> kill pid (s_table s) = None -> step s [] s.

(** After the first process has been set up. *)
Definition start : sys :=
  Sys (update initial (fun x => Process Runnable None false 0 1 None) (repeat free_process NPROC)) 2 (repeat InUser NPROC).

(** The events, the latest first. *)
Inductive reach : list event -> sys -> Prop :=
| R_start : reach [Born 1] start
| R_step h s e s' : reach h s -> step s e s' -> reach (e ++ h) s'.
End Steps.
