(* ===== verification/KProcSpec.v ===== *)
(** What processes promise: under every interleaving the table is a tree of
    processes under the first one, each exit is reported by [wait] at most once and
    with its status, and no parent sleeps in [wait] while a child of it has exited. *)

From S2P Require Import Prelude KProc.
Local Open Scope zm_scope.

(** * The table *)

Lemma update_eq i f t : (i < length t)%nat -> proc_at (update i f t) i = f (proc_at t i).
Proof. intros H. apply nth_set_eq, H. Qed.
Lemma update_ne i j f t : i <> j -> proc_at (update i f t) j = proc_at t j.
Proof. intros H. apply nth_set_ne, H. Qed.
Lemma update_length i f t : length (update i f t) = length t.
Proof. apply list_set_length. Qed.
Lemma update_id i t : update i (fun x => x) t = t.
Proof. apply set_same. Qed.
Lemma outside t i : (length t <= i)%nat -> proc_at t i = free_process.
Proof. intros H. apply nth_overflow, H. Qed.
Lemma inside t i : p_state (proc_at t i) <> Unused -> (i < length t)%nat.
Proof. intros H. destruct (Nat.ltb_spec i (length t)) as [L|L]; [exact L|]. rewrite (outside t i L) in H. contradiction. Qed.

Lemma doing_now s p t a q : (p < length (s_doing s))%nat ->
  doing (now s p t a) q = if (p =? q)%nat then a else doing s q.
Proof.
  intros H. unfold doing, now. cbn [s_doing]. destruct (Nat.eqb_spec p q) as [<-|Ne]; [apply nth_set_eq, H|apply nth_set_ne, Ne].
Qed.

Lemma is_state_true st x : is_state st x = true <-> p_state x = st.
Proof. unfold is_state. destruct (p_state x), st; split; congruence. Qed.
Lemma is_parent_true p x : is_parent p x = true <-> p_parent x = Some p.
Proof.
  unfold is_parent. destruct (p_parent x) as [q|]; [|split; discriminate].
  destruct (Nat.eqb_spec q p); split; congruence.
Qed.

Lemma first_place_some f t i : first_place f t = Some i -> (i < length t)%nat /\ f (proc_at t i) = true.
Proof. intros H. apply find_some in H as [I H]. apply in_seq in I. split; [lia|exact H]. Qed.
Lemma first_place_none f t i : first_place f t = None -> (i < length t)%nat -> f (proc_at t i) = false.
Proof. intros H I. apply (find_none _ _ H i), in_seq. lia. Qed.

(** A loop over places that changes each of them. *)
Lemma fold_update (g : nat -> process -> process) l : forall t, NoDup l ->
  length (fold_left (fun t i => update i (g i) t) l t) = length t /\
  forall i, proc_at (fold_left (fun t i => update i (g i) t) l t) i =
    if existsb (Nat.eqb i) l && (i <? length t)%nat then g i (proc_at t i) else proc_at t i.
Proof.
  induction l as [|j l IH]; intros t Nd; cbn [fold_left existsb]; [auto|]. inv Nd.
  destruct (IH (update j (g j) t) H2) as [L H]. rewrite update_length in *. split; [exact L|]. intros i. rewrite H.
  destruct (Nat.eqb_spec i j) as [->|Ne]; cbn [orb].
  - assert (E : existsb (Nat.eqb j) l = false).
    { apply not_true_is_false. intros X. apply existsb_exists in X as (y & Y & E). apply Nat.eqb_eq in E. congruence. }
    rewrite E. cbn [andb]. destruct (Nat.ltb_spec j (length t)) as [B|B]; [apply update_eq, B|].
    rewrite !outside by (rewrite ?update_length; exact B). reflexivity.
  - rewrite update_ne by auto. reflexivity.
Qed.

Lemma in_places t i : existsb (Nat.eqb i) (places t) && (i <? length t)%nat = (i <? length t)%nat.
Proof.
  destruct (Nat.ltb_spec i (length t)) as [B|B]; [|apply andb_false_r]. rewrite andb_true_r. apply existsb_exists.
  exists i. split; [apply in_seq; lia|apply Nat.eqb_refl].
Qed.

Definition wakes (current : option nat) (c : channel) (i : nat) (x : process) : process :=
  if negb (match current with Some p => (p =? i)%nat | None => false end) && sleeps_on c x then set_state Runnable x else x.

Lemma wakeup_spec current c t :
  length (wakeup current c t) = length t /\ forall i, proc_at (wakeup current c t) i = wakes current c i (proc_at t i).
Proof.
  assert (E : wakeup current c t = fold_left (fun t i => update i (wakes current c i) t) (places t) t).
  { unfold wakeup. generalize (places t) as l. intros l. revert t. induction l as [|j l IH]; intros t; cbn [fold_left]; [reflexivity|].
    rewrite <- IH. f_equal. unfold wakes, update. destruct (match current with Some p => _ | None => _ end); cbn [negb andb].
    - symmetry. apply set_same.
    - destruct (sleeps_on c (proc_at t j)); [reflexivity|symmetry; apply set_same]. }
  destruct (fold_update (wakes current c) (places t) t (seq_NoDup _ _)) as [L H]. rewrite <- E in *. split; [exact L|].
  intros i. rewrite H, in_places. destruct (Nat.ltb_spec i (length t)) as [B|B]; [reflexivity|].
  rewrite outside by exact B. unfold wakes. rewrite andb_false_r. reflexivity.
Qed.

(** [y] is [x], unless it slept on [c] and was woken. *)
Definition woken (c : channel) (x y : process) : Prop := y = x \/ sleeps_on c x = true /\ y = set_state Runnable x.

Lemma wakes_woken current c i x : woken c x (wakes current c i x).
Proof. unfold woken, wakes. destruct (negb _); cbn [andb]; [|auto]. destruct (sleeps_on c x) eqn:E; auto. Qed.

Lemma woken_sleeps c x y : woken c x y -> sleeps_on c y = true -> y = x.
Proof. intros [->|[_ ->]] H; [reflexivity|discriminate]. Qed.

(** What [reparentChildren] leaves at place [i]. *)
Definition adopted (initial current : nat) (x : process) : process :=
  if is_parent current x then set_parent (Some initial) x else x.

Lemma woken_trans c x y z : woken c x y -> woken c y z -> woken c x z.
Proof. intros [->|[S ->]] W; [exact W|]. destruct W as [->|[S' _]]; [right; auto|discriminate]. Qed.

Lemma adopted_woken initial current c x y : woken c x y -> woken c (adopted initial current x) (adopted initial current y).
Proof.
  unfold adopted. intros [->|[S ->]]; [left; reflexivity|right]. change (is_parent current (set_state Runnable x)) with (is_parent current x).
  destruct (is_parent current x); split; try exact S; reflexivity.
Qed.

Lemma reparent_turn initial current t j : (j < length t)%nat ->
  let t1 := if is_parent current (proc_at t j)
    then wakeup (Some current) (OnProc initial) (update j (set_parent (Some initial)) t) else t in
  length t1 = length t /\
  (forall i, woken (OnProc initial) (if (i =? j)%nat then adopted initial current (proc_at t i) else proc_at t i) (proc_at t1 i)) /\
  (is_parent current (proc_at t j) = true -> forall i, i <> current -> sleeps_on (OnProc initial) (proc_at t1 i) = false) /\
  (is_parent current (proc_at t j) = false -> t1 = t).
Proof.
  intros Hj. cbv zeta. destruct (is_parent current (proc_at t j)) eqn:P; cycle 1.
  { split; [reflexivity|]. split; [|split; [discriminate|reflexivity]]. intros i. left. destruct (Nat.eqb_spec i j) as [->|]; [|reflexivity].
    unfold adopted. rewrite P. reflexivity. }
  destruct (wakeup_spec (Some current) (OnProc initial) (update j (set_parent (Some initial)) t)) as [L H].
  rewrite update_length in L. split; [exact L|]. split; [|split; [|discriminate]].
  - intros i. rewrite H. destruct (Nat.eqb_spec i j) as [->|Ne].
    + unfold adopted. rewrite P, update_eq by exact Hj. apply wakes_woken.
    + rewrite update_ne by auto. apply wakes_woken.
  - intros _ i Ne. rewrite H. unfold wakes. rewrite (proj2 (Nat.eqb_neq current i)) by auto. cbn [negb andb].
    destruct (sleeps_on (OnProc initial) (proc_at (update j _ t) i)) eqn:S; [reflexivity|exact S].
Qed.

Lemma reparent_spec initial current t :
  length (reparentChildren initial current t) = length t /\
  (forall i, woken (OnProc initial) (adopted initial current (proc_at t i)) (proc_at (reparentChildren initial current t) i)) /\
  ((exists i, is_parent current (proc_at t i) = true) ->
   forall j, j <> current -> sleeps_on (OnProc initial) (proc_at (reparentChildren initial current t) j) = false).
Proof.
  unfold reparentChildren.
  assert (G : forall l t0, NoDup l -> (forall i, In i l -> (i < length t0)%nat) ->
    let t' := fold_left (fun t i => if is_parent current (proc_at t i)
      then wakeup (Some current) (OnProc initial) (update i (set_parent (Some initial)) t) else t) l t0 in
    length t' = length t0 /\
    (forall i, woken (OnProc initial) (if existsb (Nat.eqb i) l then adopted initial current (proc_at t0 i) else proc_at t0 i) (proc_at t' i)) /\
    ((exists i, In i l /\ is_parent current (proc_at t0 i) = true) \/
     (forall j, j <> current -> sleeps_on (OnProc initial) (proc_at t0 j) = false) ->
     forall j, j <> current -> sleeps_on (OnProc initial) (proc_at t' j) = false)).
  { induction l as [|j l IH]; intros t0 Nd In_; cbn [fold_left existsb]; cbv zeta.
    { split; [reflexivity|]. split; [intros i; left; reflexivity|]. intros [(i & [] & _)|H]; exact H. }
    inv Nd. destruct (reparent_turn initial current t0 j (In_ j (or_introl eq_refl))) as (L1 & W1 & S1 & N1). cbv zeta in *.
    set (t1 := if is_parent current (proc_at t0 j)
      then wakeup (Some current) (OnProc initial) (update j (set_parent (Some initial)) t0) else t0) in *.
    destruct (IH t1 H2) as (L2 & W2 & S2); [intros i I; rewrite L1; apply In_; right; exact I|]. cbv zeta in *.
    split; [congruence|]. split.
    - intros i. specialize (W1 i). specialize (W2 i). destruct (Nat.eqb_spec i j) as [Eq|Ne]; cbn [orb].
      + rewrite Eq in *. assert (E : existsb (Nat.eqb j) l = false).
        { apply not_true_is_false. intros X. apply existsb_exists in X as (y & Y & E). apply Nat.eqb_eq in E. congruence. }
        rewrite E in W2. exact (woken_trans _ _ _ _ W1 W2).
      + destruct (existsb (Nat.eqb i) l); [|exact (woken_trans _ _ _ _ W1 W2)].
        exact (woken_trans _ _ _ _ (adopted_woken initial current _ _ _ W1) W2).
    - intros H. apply S2. destruct (is_parent current (proc_at t0 j)) eqn:P; [right; exact (S1 eq_refl)|].
      rewrite (N1 eq_refl). destruct H as [(i & [<-|I] & C)|H]; [congruence|left; eauto|right; exact H]. }
  destruct (G (places t) t (seq_NoDup _ _)) as (L & W & S); [intros i I; apply in_seq in I; lia|].
  split; [exact L|]. split.
  - intros i. specialize (W i). destruct (Nat.ltb_spec i (length t)) as [B|B].
    + pose proof (in_places t i) as E. rewrite (proj2 (Nat.ltb_lt _ _) B), andb_true_r in E. rewrite E in W. exact W.
    + rewrite (outside t i B) in *. destruct (existsb _ _); exact W.
  - intros (i & I). apply S. left. exists i. split; [|exact I]. apply in_seq.
    destruct (Nat.ltb_spec i (length t)) as [B|B]; [lia|]. rewrite outside in I by exact B. discriminate.
Qed.

(** * What a step changes *)

Definition live (x : process) : Prop := p_state x = Sleeping \/ p_state x = Runnable \/ p_state x = Running.

(** [y] is [x], or [x] woken. *)
Definition roused (x y : process) : Prop := y = x \/ p_state x = Sleeping /\ y = set_state Runnable x.

Lemma woken_roused c x y : woken c x y -> roused x y.
Proof. intros [->|[S ->]]; [left; reflexivity|right]. unfold sleeps_on in S. apply andb_prop in S as [S _]. apply is_state_true in S. auto. Qed.

Lemma roused_trans x y z : roused x y -> roused y z -> roused x z.
Proof. intros [->|[S ->]] R; [exact R|]. destruct R as [->|[S' _]]; [right; auto|discriminate]. Qed.

(** Nothing but the state has changed, and that only between those of a live process. *)
Record calm (x y : process) : Prop := {
  cm_parent : p_parent y = p_parent x;
  cm_pid : p_pid y = p_pid x;
  cm_status : p_state x = Zombie -> p_status y = p_status x;
  cm_state : p_state y = p_state x /\ (p_state x = Sleeping -> p_chan y = p_chan x) \/ live x /\ (p_state y = Runnable \/ p_state y = Running);
}.

Lemma roused_calm x y : roused x y -> calm x y.
Proof. intros [->|[S ->]]; split; auto; right; unfold live; cbn; auto. Qed.
Lemma calm_refl x : calm x x.
Proof. split; auto. Qed.

Lemma calm_live x y : calm x y -> live x -> live y.
Proof. intros [_ _ _ [[S _]|[_ S]]] L; unfold live in *; rewrite ?S in *; tauto. Qed.

Lemma calm_state x y st : calm x y -> p_state y = st -> st <> Runnable -> st <> Running -> p_state x = st /\ (st = Sleeping -> p_chan y = p_chan x).
Proof. intros [_ _ _ [[S C]|[_ [S|S]]]] <- N1 N2; [rewrite S; auto|congruence..]. Qed.

Lemma calm_back x y st : calm x y -> p_state x = st -> st = Unused \/ st = Used \/ st = Zombie -> p_state y = st.
Proof. intros [_ _ _ [[S C]|[L _]]] <- N; [auto|]. unfold live in L. destruct L as [L|[L|L]]; rewrite L in N; destruct N as [|[|]]; discriminate. Qed.

Lemma exit_spec initial p st t t' : exit_ initial p st t = Some t' -> (p < length t)%nat -> p_state (proc_at t p) = Running ->
  p <> initial /\ length t' = length t /\
  exists r, p_parent (adopted initial p (proc_at t p)) = Some r /\
    proc_at t' p = set_state Zombie (set_status st (adopted initial p (proc_at t p))) /\
    (forall i, i <> p -> roused (adopted initial p (proc_at t i)) (proc_at t' i)) /\
    (forall j, j <> p -> sleeps_on (OnProc r) (proc_at t' j) = false) /\
    ((exists i, is_parent p (proc_at t i) = true) -> forall j, j <> p -> sleeps_on (OnProc initial) (proc_at t' j) = false).
Proof.
  unfold exit_. destruct (Nat.eqb_spec p initial) as [|Ne]; [discriminate|]. intros E Hp R.
  destruct (reparent_spec initial p t) as (L1 & W1 & S1). set (t1 := reparentChildren initial p t) in *.
  assert (Same : proc_at t1 p = adopted initial p (proc_at t p)).
  { destruct (W1 p) as [W|[W _]]; [exact W|]. unfold sleeps_on, adopted, is_state in W. destruct (is_parent p (proc_at t p)); cbn in W; rewrite R in W; discriminate. }
  rewrite Same in E. destruct (p_parent (adopted initial p (proc_at t p))) as [r|] eqn:P; [|discriminate]. injection E as <-.
  destruct (wakeup_spec (Some p) (OnProc r) t1) as [L2 W2]. split; [exact Ne|]. split; [rewrite update_length; congruence|].
  exists r. split; [reflexivity|].
  assert (Hp2 : (p < length (wakeup (Some p) (OnProc r) t1))%nat) by congruence. split; [|split; [|split]].
  - rewrite update_eq by exact Hp2. rewrite W2. unfold wakes. rewrite Nat.eqb_refl. cbn [negb andb]. rewrite Same. reflexivity.
  - intros i N. rewrite update_ne by auto. rewrite W2. eapply roused_trans; [exact (woken_roused _ _ _ (W1 i))|].
    exact (woken_roused _ _ _ (wakes_woken _ _ _ _)).
  - intros j N. rewrite update_ne by auto. rewrite W2. unfold wakes. rewrite (proj2 (Nat.eqb_neq p j)) by auto. cbn [negb andb].
    destruct (sleeps_on (OnProc r) (proc_at t1 j)) eqn:S; [reflexivity|exact S].
  - intros C j N. rewrite update_ne by auto. rewrite W2. specialize (S1 C j N). unfold wakes.
    destruct (_ && _); [reflexivity|exact S1].
Qed.

(** * The invariant of the table *)

Definition act (d : list activity) (p : nat) : activity := nth p d InUser.
Definition forking (d : list activity) (p i : nat) : Prop := act d p = InFork i \/ act d p = InForkParent i.
Definition no_zombie (t : table) (p : nat) : Prop := forall q, p_parent (proc_at t q) = Some p -> p_state (proc_at t q) <> Zombie.

Section Invariant.
Variable initial : nat.

Record ctl (t : table) (d : list activity) : Prop := {
  c_len : length d = length t;
  c_init : live (proc_at t initial) /\ p_parent (proc_at t initial) = None;
  c_act p : act d p <> InUser -> live (proc_at t p);
  c_fork p i : act d p = InFork i -> p_state (proc_at t i) = Used /\ p_parent (proc_at t i) = None;
  c_forkp p i : act d p = InForkParent i -> p_state (proc_at t i) = Used /\ p_parent (proc_at t i) = Some p;
  c_uniq p q i : forking d p i -> forking d q i -> p = q;
  c_used i : p_state (proc_at t i) = Used -> exists p, forking d p i;
  c_lock p : act d p = InWaitLocked -> no_zombie t p;
  c_sleep p : p_state (proc_at t p) = Sleeping ->
    act d p = InWait /\ p_chan (proc_at t p) = Some (OnProc p) /\ no_zombie t p \/
    act d p = InSleep /\ exists c, p_chan (proc_at t p) = Some (OnOther c);
  c_free i : p_state (proc_at t i) = Unused -> p_parent (proc_at t i) = None /\ p_pid (proc_at t i) = 0;
  c_parent i : live (proc_at t i) \/ p_state (proc_at t i) = Zombie -> i <> initial ->
    exists r, p_parent (proc_at t i) = Some r /\ live (proc_at t r) /\ r <> i;
}.

Lemma live_state x : live x -> p_state x <> Unused /\ p_state x <> Used /\ p_state x <> Zombie.
Proof. unfold live. intros [H|[H|H]]; rewrite H; repeat split; discriminate. Qed.

Lemma live_inside t i : live (proc_at t i) -> (i < length t)%nat.
Proof. intros L. apply inside, live_state, L. Qed.

Lemma running_live x : p_state x = Running -> live x.
Proof. unfold live. auto. Qed.
#[local] Hint Resolve running_live : core.

Lemma calm_zombie t t' p : (forall i, calm (proc_at t i) (proc_at t' i)) -> no_zombie t p -> no_zombie t' p.
Proof.
  intros C N q P Z. rewrite (cm_parent _ _ (C q)) in P. apply (N q P).
  apply (calm_state _ _ Zombie (C q) Z); discriminate.
Qed.

Lemma ctl_calm t t' d : ctl t d -> length t' = length t -> (forall i, calm (proc_at t i) (proc_at t' i)) -> ctl t' d.
Proof.
  intros H L C.
  assert (Back : forall i st, p_state (proc_at t i) = st -> st = Unused \/ st = Used \/ st = Zombie -> p_state (proc_at t' i) = st)
    by (intros i st; apply calm_back, C).
  assert (Fore : forall i st, p_state (proc_at t' i) = st -> st = Unused \/ st = Used \/ st = Zombie -> p_state (proc_at t i) = st).
  { intros i st S N. apply (calm_state _ _ st (C i) S); intros ->; destruct N as [|[|]]; discriminate. }
  assert (Live : forall i, live (proc_at t' i) -> live (proc_at t i)).
  { intros i Li. destruct (cm_state _ _ (C i)) as [[S _]|[Lo _]]; [unfold live in *; rewrite S in Li; exact Li|exact Lo]. }
  split.
  - rewrite L. apply H.
  - destruct (c_init _ _ H) as [Li P]. split; [exact (calm_live _ _ (C initial) Li)|rewrite (cm_parent _ _ (C initial)); exact P].
  - intros p A. exact (calm_live _ _ (C p) (c_act _ _ H p A)).
  - intros p i A. destruct (c_fork _ _ H p i A) as [U P]. rewrite (cm_parent _ _ (C i)). split; [apply Back; auto|exact P].
  - intros p i A. destruct (c_forkp _ _ H p i A) as [U P]. rewrite (cm_parent _ _ (C i)). split; [apply Back; auto|exact P].
  - exact (c_uniq _ _ H).
  - intros i U. apply (c_used _ _ H). apply Fore; auto.
  - intros p A. exact (calm_zombie t t' p C (c_lock _ _ H p A)).
  - intros p S. destruct (calm_state _ _ Sleeping (C p) S) as [So Ch]; [discriminate..|]. rewrite Ch by reflexivity.
    destruct (c_sleep _ _ H p So) as [(A & Cp & N)|D]; [left|right; exact D].
    split; [exact A|]. split; [exact Cp|]. exact (calm_zombie t t' p C N).
  - intros i U. rewrite (cm_parent _ _ (C i)), (cm_pid _ _ (C i)). apply (c_free _ _ H). apply Fore; auto.
  - intros i S N. rewrite (cm_parent _ _ (C i)). destruct (c_parent _ _ H i) as (r & P & Lr & Ne); [|exact N|].
    + destruct S as [S|S]; [left; apply Live, S|right; apply Fore; auto].
    + exists r. split; [exact P|]. split; [exact (calm_live _ _ (C r) Lr)|exact Ne].
Qed.

Lemma act_set d p a q : (p < length d)%nat -> act (list_set d p a) q = if (p =? q)%nat then a else act d q.
Proof. intros H. unfold act. destruct (Nat.eqb_spec p q) as [<-|Ne]; [apply nth_set_eq, H|apply nth_set_ne, Ne]. Qed.

(** A process that is not in [fork] goes on to something else. *)
Lemma ctl_act t d p a : ctl t d -> p_state (proc_at t p) = Running ->
  (forall i, ~ forking d p i) -> (forall i, a <> InFork i /\ a <> InForkParent i) ->
  (a = InWaitLocked -> no_zombie t p) -> ctl t (list_set d p a).
Proof.
  intros H R Nf Na Z. assert (Hp : (p < length d)%nat) by (rewrite (c_len _ _ H); apply live_inside; auto).
  assert (F : forall q i, forking (list_set d p a) q i <-> forking d q i).
  { intros q i. unfold forking. rewrite act_set by exact Hp. destruct (Nat.eqb_spec p q) as [<-|Ne]; [|reflexivity].
    destruct (Na i) as [N1 N2]. specialize (Nf i). unfold forking in Nf. tauto. }
  split; try apply H.
  - rewrite list_set_length. apply H.
  - intros q. rewrite act_set by exact Hp. destruct (Nat.eqb_spec p q) as [<-|Ne]; [auto|apply H].
  - intros q i A. assert (G : forking d q i) by (apply F; left; exact A). rewrite act_set in A by exact Hp.
    destruct (Nat.eqb_spec p q) as [<-|Ne]; [destruct (Na i); congruence|exact (c_fork _ _ H q i A)].
  - intros q i A. rewrite act_set in A by exact Hp. destruct (Nat.eqb_spec p q) as [<-|Ne]; [destruct (Na i); congruence|exact (c_forkp _ _ H q i A)].
  - intros q r i A B. apply (c_uniq _ _ H q r i); apply F; assumption.
  - intros i U. destruct (c_used _ _ H i U) as (q & Q). exists q. apply F, Q.
  - intros q. rewrite act_set by exact Hp. destruct (Nat.eqb_spec p q) as [<-|Ne]; [auto|apply H].
  - intros q S. rewrite act_set by exact Hp. destruct (Nat.eqb_spec p q) as [<-|Ne]; [congruence|exact (c_sleep _ _ H q S)].
Qed.

Lemma forking_set d p a q i : (p < length d)%nat ->
  forking (list_set d p a) q i <-> if (p =? q)%nat then a = InFork i \/ a = InForkParent i else forking d q i.
Proof. intros H. unfold forking. rewrite act_set by exact H. destruct (p =? q)%nat; reflexivity. Qed.

Lemma forking_used t d p i : ctl t d -> forking d p i -> p_state (proc_at t i) = Used.
Proof. intros H [A|A]; [apply (c_fork _ _ H p i A)|apply (c_forkp _ _ H p i A)]. Qed.
Lemma forking_live t d p i : ctl t d -> forking d p i -> live (proc_at t p).
Proof. intros H F. apply (c_act _ _ H). destruct F as [F|F]; rewrite F; discriminate. Qed.

(** Places [i] and [j] are told apart, and the table is looked up. *)
Ltac tell i j := destruct (Nat.eq_dec i j) as [<-|];
  [rewrite ?update_eq in * by assumption|rewrite ?update_ne in * by assumption].

Lemma not_zombie_update t i f p : no_zombie t p -> (i < length t)%nat ->
  (p_parent (f (proc_at t i)) = Some p -> p_state (f (proc_at t i)) <> Zombie) -> no_zombie (update i f t) p.
Proof. intros N Hi Z q. tell i q; [exact Z|apply N]. Qed.

Lemma ctl_fork_alloc t d p i pid : ctl t d -> p_state (proc_at t p) = Running -> act d p = InUser ->
  (i < length t)%nat -> p_state (proc_at t i) = Unused ->
  ctl (update i (fun x => Process Used (p_chan x) (p_killed x) (p_status x) pid (p_parent x)) t)
    (list_set (list_set d p (InFork i)) i InUser).
Proof.
  intros H R A Hi U. set (f := fun x => _). destruct (c_free _ _ H i U) as [Pi _].
  assert (Hp : (p < length d)%nat) by (rewrite (c_len _ _ H); apply live_inside; auto).
  assert (Hi' : (i < length (list_set d p (InFork i)))%nat) by (rewrite list_set_length, (c_len _ _ H); exact Hi).
  assert (Nei : i <> p) by congruence.
  assert (Act : forall q, act (list_set (list_set d p (InFork i)) i InUser) q = if (i =? q)%nat then InUser else if (p =? q)%nat then InFork i else act d q).
  { intros q. rewrite act_set by exact Hi'. destruct (i =? q)%nat; [reflexivity|apply act_set, Hp]. }
  assert (Di : act d i = InUser).
  { destruct (act d i) eqn:E; [reflexivity|..]; destruct (live_state _ (c_act _ _ H i ltac:(congruence))) as [N _]; contradiction. }
  assert (Old : forall q, q <> p -> act (list_set (list_set d p (InFork i)) i InUser) q = act d q).
  { intros q N. rewrite Act. destruct (Nat.eqb_spec i q) as [<-|]; [auto|]. rewrite (proj2 (Nat.eqb_neq p q)) by auto. reflexivity. }
  assert (New : act (list_set (list_set d p (InFork i)) i InUser) p = InFork i).
  { rewrite Act, (proj2 (Nat.eqb_neq i p)), Nat.eqb_refl by auto. reflexivity. }
  assert (Fo : forall q j, forking (list_set (list_set d p (InFork i)) i InUser) q j <-> (q = p /\ j = i) \/ forking d q j).
  { intros q j. unfold forking. destruct (Nat.eq_dec q p) as [->|N].
    - rewrite New, A. split; [intros [E|E]; [injection E as ->; auto|discriminate]|intros [[_ ->]|[E|E]]; [auto|discriminate..]].
    - rewrite Old by exact N. tauto. }
  assert (Liv : forall q, live (proc_at t q) -> live (proc_at (update i f t) q)).
  { intros q L. tell i q; [|exact L]. destruct (live_state _ L) as [N _]. contradiction. }
  split.
  - rewrite !list_set_length, update_length. apply H.
  - destruct (c_init _ _ H) as [L P]. split; [apply Liv, L|]. tell i initial; [exact P|exact P].
  - intros q Q. destruct (Nat.eq_dec q p) as [->|N]; [apply Liv; auto|]. rewrite Old in Q by exact N. apply Liv, (c_act _ _ H q Q).
  - intros q j Q. destruct (Nat.eq_dec q p) as [->|N].
    + rewrite New in Q. injection Q as <-. rewrite update_eq by exact Hi. auto.
    + rewrite Old in Q by exact N. pose proof (c_fork _ _ H q j Q) as [X Y]. tell i j; [congruence|auto].
  - intros q j Q. destruct (Nat.eq_dec q p) as [->|N]; [congruence|]. rewrite Old in Q by exact N.
    pose proof (c_forkp _ _ H q j Q) as [X Y]. tell i j; [congruence|auto].
  - intros q r j Q1 Q2. apply Fo in Q1 as [[-> ->]|Q1], Q2 as [[-> E]|Q2]; auto.
    + apply (forking_used _ _ _ _ H) in Q2. congruence.
    + subst j. apply (forking_used _ _ _ _ H) in Q1. congruence.
    + exact (c_uniq _ _ H q r j Q1 Q2).
  - intros j. tell i j; [intros _; exists p; apply Fo; auto|]. intros Uj. destruct (c_used _ _ H j Uj) as (q & Q). exists q. apply Fo. auto.
  - intros q Q. destruct (Nat.eq_dec q p) as [->|N]; [congruence|]. rewrite Old in Q by exact N.
    apply not_zombie_update; [exact (c_lock _ _ H q Q)|exact Hi|]. cbn. discriminate.
  - intros q. tell i q; [discriminate|]. intros S. assert (N : q <> p) by congruence. rewrite Old by exact N.
    destruct (c_sleep _ _ H q S) as [(X & Y & Z)|D]; [left|right; exact D]. split; [exact X|]. split; [exact Y|].
    apply not_zombie_update; [exact Z|exact Hi|]. cbn. discriminate.
  - intros j. tell i j; [discriminate|]. apply H.
  - intros j. tell i j; [intros [L|Z]; [apply live_state in L as (_ & L & _); contradiction|discriminate]|].
    intros S N. destruct (c_parent _ _ H j S N) as (r & P & L & Ne). exists r. split; [exact P|]. split; [apply Liv, L|exact Ne].
Qed.

(** The second and the third part of [fork]. *)
Lemma ctl_fork_parent t d p i : ctl t d -> p_state (proc_at t p) = Running -> act d p = InFork i ->
  ctl (update i (set_parent (Some p)) t) (list_set d p (InForkParent i)).
Proof.
  intros H R A. destruct (c_fork _ _ H p i A) as [U P].
  assert (Hi : (i < length t)%nat) by (apply inside; congruence).
  assert (Hp : (p < length d)%nat) by (rewrite (c_len _ _ H); apply live_inside; auto).
  assert (Liv : forall q, live (proc_at t q) -> live (proc_at (update i (set_parent (Some p)) t) q)) by (intros q; tell i q; auto).
  assert (Fo : forall q j, forking (list_set d p (InForkParent i)) q j <-> forking d q j).
  { intros q j. rewrite forking_set by exact Hp. destruct (Nat.eqb_spec p q) as [<-|]; [|reflexivity]. unfold forking. rewrite A.
    split; intros [E|E]; (discriminate || (injection E as <-; auto)). }
  split.
  - rewrite list_set_length, update_length. apply H.
  - destruct (c_init _ _ H) as [L Pi]. split; [apply Liv, L|]. tell i initial; [|exact Pi].
    apply live_state in L as (_ & L & _). contradiction.
  - intros q. rewrite act_set by exact Hp. destruct (Nat.eqb_spec p q) as [<-|]; intros Q; apply Liv; [auto|apply (c_act _ _ H q Q)].
  - intros q j. rewrite act_set by exact Hp. destruct (Nat.eqb_spec p q) as [<-|Ne]; [discriminate|]. intros Q.
    tell i j; [|exact (c_fork _ _ H q j Q)]. destruct Ne. apply (c_uniq _ _ H p q i); left; assumption.
  - intros q j. rewrite act_set by exact Hp. destruct (Nat.eqb_spec p q) as [<-|Ne].
    + intros E. injection E as <-. rewrite update_eq by exact Hi. auto.
    + intros Q. tell i j; [|exact (c_forkp _ _ H q j Q)]. destruct Ne. apply (c_uniq _ _ H p q i); [left|right]; assumption.
  - intros q r j Q1 Q2. apply (c_uniq _ _ H q r j); apply Fo; assumption.
  - intros j. tell i j; intros Uj; [exists p; apply Fo; left; exact A|]. destruct (c_used _ _ H j Uj) as (q & Q). exists q. apply Fo, Q.
  - intros q. rewrite act_set by exact Hp. destruct (Nat.eqb_spec p q) as [<-|]; [discriminate|]. intros Q.
    apply not_zombie_update; [exact (c_lock _ _ H q Q)|exact Hi|]. cbn. congruence.
  - intros q S. rewrite act_set by exact Hp.
    assert (S' : p_state (proc_at t q) = Sleeping /\ p_chan (proc_at (update i (set_parent (Some p)) t) q) = p_chan (proc_at t q)) by (tell i q; auto).
    destruct S' as [S' ->]. destruct (Nat.eqb_spec p q) as [<-|]; [congruence|].
    destruct (c_sleep _ _ H q S') as [(X & Y & Z)|D]; [left|right; exact D]. split; [exact X|]. split; [exact Y|].
    apply not_zombie_update; [exact Z|exact Hi|]. cbn. congruence.
  - intros j. tell i j; [cbn; congruence|apply H].
  - intros j. tell i j; [cbn; intros [L|L]; [apply live_state in L as (_ & L & _); contradiction|cbn in L; congruence]|].
    intros S N. destruct (c_parent _ _ H j S N) as (r & Pr & L & Ne). exists r. split; [exact Pr|]. split; [apply Liv, L|exact Ne].
Qed.

Lemma ctl_fork_run t d p i : ctl t d -> p_state (proc_at t p) = Running -> act d p = InForkParent i ->
  ctl (update i (set_state Runnable) t) (list_set d p InUser).
Proof.
  intros H R A. destruct (c_forkp _ _ H p i A) as [U P].
  assert (Hi : (i < length t)%nat) by (apply inside; congruence).
  assert (Hp : (p < length d)%nat) by (rewrite (c_len _ _ H); apply live_inside; auto).
  assert (Liv : forall q, live (proc_at t q) -> live (proc_at (update i (set_state Runnable) t) q)).
  { intros q L. tell i q; [|exact L]. unfold live. cbn. auto. }
  assert (Fp : forking d p i) by (right; exact A).
  assert (Fo : forall q j, forking (list_set d p InUser) q j <-> q <> p /\ forking d q j).
  { intros q j. rewrite forking_set by exact Hp. destruct (Nat.eqb_spec p q) as [<-|Ne].
    - split; [intros [E|E]; discriminate|intros [[] _]; reflexivity].
    - split; [auto|tauto]. }
  split.
  - rewrite list_set_length, update_length. apply H.
  - destruct (c_init _ _ H) as [L Pi]. split; [apply Liv, L|]. tell i initial; exact Pi.
  - intros q. rewrite act_set by exact Hp. destruct (Nat.eqb_spec p q) as [<-|]; [contradiction|]. intros Q. apply Liv, (c_act _ _ H q Q).
  - intros q j. rewrite act_set by exact Hp. destruct (Nat.eqb_spec p q) as [<-|Ne]; [discriminate|]. intros Q.
    tell i j; [|exact (c_fork _ _ H q j Q)]. destruct Ne. apply (c_uniq _ _ H p q i Fp). left. exact Q.
  - intros q j. rewrite act_set by exact Hp. destruct (Nat.eqb_spec p q) as [<-|Ne]; [discriminate|]. intros Q.
    tell i j; [|exact (c_forkp _ _ H q j Q)]. destruct Ne. apply (c_uniq _ _ H p q i Fp). right. exact Q.
  - intros q r j Q1 Q2. apply Fo in Q1 as [_ Q1], Q2 as [_ Q2]. exact (c_uniq _ _ H q r j Q1 Q2).
  - intros j. tell i j; [discriminate|]. intros Uj. destruct (c_used _ _ H j Uj) as (q & Q). exists q. apply Fo. split; [|exact Q].
    intros ->. destruct Fp as [F|F], Q as [Q|Q]; congruence.
  - intros q. rewrite act_set by exact Hp. destruct (Nat.eqb_spec p q) as [<-|]; [discriminate|]. intros Q.
    apply not_zombie_update; [exact (c_lock _ _ H q Q)|exact Hi|]. cbn. discriminate.
  - intros q. tell i q; [discriminate|]. intros S. rewrite act_set by exact Hp.
    destruct (Nat.eqb_spec p q) as [<-|]; [congruence|].
    destruct (c_sleep _ _ H q S) as [(X & Y & Z)|D]; [left|right; exact D]. split; [exact X|]. split; [exact Y|].
    apply not_zombie_update; [exact Z|exact Hi|]. cbn. discriminate.
  - intros j. tell i j; [discriminate|apply H].
  - intros j S N. destruct (Nat.eq_dec i j) as [<-|Ne].
    + rewrite update_eq by exact Hi. exists p. split; [exact P|]. split; [apply Liv; auto|congruence].
    + rewrite update_ne in * by exact Ne. destruct (c_parent _ _ H j S N) as (r & Pr & L & Nr). exists r. split; [exact Pr|]. split; [apply Liv, L|exact Nr].
Qed.

Lemma ctl_exit t d p st t' : ctl t d -> p_state (proc_at t p) = Running -> act d p = InUser ->
  (forall q, act d q <> InWaitLocked) -> exit_ initial p st t = Some t' -> ctl t' d.
Proof.
  intros H R A Un E. assert (Hp : (p < length t)%nat) by (apply live_inside; auto).
  destruct (exit_spec initial p st t t' E Hp R) as (Np & L & r & Pr & Pp & Ro & Sr & Si).
  destruct (c_parent _ _ H p (or_introl (running_live _ R)) Np) as (r0 & Pr0 & Lr & Nr).
  assert (Ad : adopted initial p (proc_at t p) = proc_at t p).
  { unfold adopted, is_parent. rewrite Pr0, (proj2 (Nat.eqb_neq r0 p)) by auto. reflexivity. }
  rewrite Ad in *. assert (r0 = r) by congruence. subst r0.
  assert (Ads : forall x, p_state (adopted initial p x) = p_state x /\ p_chan (adopted initial p x) = p_chan x /\ p_pid (adopted initial p x) = p_pid x).
  { intros x. unfold adopted. destruct (is_parent p x); auto. }
  assert (Adp : forall x, p_parent x <> Some p -> adopted initial p x = x).
  { intros x N. unfold adopted. destruct (is_parent p x) eqn:Q; [|reflexivity]. apply is_parent_true in Q. contradiction. }
  assert (Calm : forall q, q <> p -> calm (adopted initial p (proc_at t q)) (proc_at t' q)) by (intros q N; apply roused_calm, Ro, N).
  assert (Liv : forall q, q <> p -> live (proc_at t q) -> live (proc_at t' q)).
  { intros q N Lq. apply (calm_live _ _ (Calm q N)). unfold live. rewrite (proj1 (Ads _)). exact Lq. }
  assert (Back : forall q, q <> p -> live (proc_at t' q) -> live (proc_at t q)).
  { intros q N Lq. destruct (Ro q N) as [E'|[S _]]; [rewrite E' in Lq; unfold live in *; rewrite (proj1 (Ads _)) in Lq; exact Lq|].
    rewrite (proj1 (Ads _)) in S. unfold live. auto. }
  assert (St : forall q st', q <> p -> p_state (proc_at t' q) = st' -> st' <> Runnable -> proc_at t' q = adopted initial p (proc_at t q) /\ p_state (proc_at t q) = st').
  { intros q st' N S Ns. destruct (Ro q N) as [E'|[_ E']]; [|rewrite E' in S; cbn in S; congruence].
    split; [exact E'|]. rewrite E', (proj1 (Ads _)) in S. exact S. }
  assert (Zp : p_state (proc_at t' p) = Zombie) by (rewrite Pp; reflexivity).
  assert (Us : forall q, p_state (proc_at t q) = Used \/ p_state (proc_at t q) = Unused -> proc_at t' q = proc_at t q).
  { intros q U. assert (N : q <> p) by (intros ->; destruct U; congruence).
    assert (Pq : p_parent (proc_at t q) <> Some p).
    { destruct U as [U|U]; [|destruct (c_free _ _ H q U); congruence]. destruct (c_used _ _ H q U) as (f & [F|F]).
      - destruct (c_fork _ _ H f q F); congruence.
      - destruct (c_forkp _ _ H f q F) as [_ X]. intros Y. assert (f = p) by congruence. congruence. }
    destruct (Ro q N) as [E'|[S _]]; [rewrite E'; apply Adp, Pq|]. rewrite (proj1 (Ads _)) in S. destruct U; congruence. }
  destruct (c_init _ _ H) as [Li Pi].
  split.
  - rewrite L. apply H.
  - split; [apply Liv; auto|]. rewrite (cm_parent _ _ (Calm initial (not_eq_sym Np))), Adp by congruence. exact Pi.
  - intros q Q. assert (q <> p) by congruence. apply Liv; [assumption|apply (c_act _ _ H q Q)].
  - intros q j Q. destruct (c_fork _ _ H q j Q) as [U P]. rewrite Us by auto. auto.
  - intros q j Q. destruct (c_forkp _ _ H q j Q) as [U P]. rewrite Us by auto. auto.
  - exact (c_uniq _ _ H).
  - intros j U. assert (N : j <> p) by congruence. apply (c_used _ _ H). apply (St j Used N U). discriminate.
  - intros q Q. destruct (Un q Q).
  - intros q S. assert (N : q <> p) by congruence. destruct (St q Sleeping N S ltac:(discriminate)) as [Eq S0].
    rewrite Eq, (proj1 (proj2 (Ads _))). destruct (c_sleep _ _ H q S0) as [(X & Y & Z)|D]; [left|right; exact D].
    split; [exact X|]. split; [exact Y|].
    assert (Slp : forall c, (c = q) -> sleeps_on (OnProc c) (proc_at t' q) = true).
    { intros c ->. unfold sleeps_on. rewrite (proj2 (is_state_true Sleeping _) S), Eq, (proj1 (proj2 (Ads _))), Y. apply Nat.eqb_refl. }
    intros j Pj Zj. destruct (Nat.eq_dec j p) as [->|Nj].
    + rewrite Pp in Pj. cbn in Pj. assert (r = q) by congruence. specialize (Sr q N). rewrite (Slp r) in Sr by assumption. discriminate.
    + destruct (St j Zombie Nj Zj ltac:(discriminate)) as [Ej Zj0]. rewrite Ej in Pj. unfold adopted in Pj.
      destruct (is_parent p (proc_at t j)) eqn:Q; [|exact (Z j Pj Zj0)]. cbn in Pj. assert (initial = q) by congruence.
      specialize (Si (ex_intro _ j Q) q N). rewrite (Slp initial) in Si by assumption. discriminate.
  - intros j U. assert (N : j <> p) by congruence. destruct (St j Unused N U ltac:(discriminate)) as [_ U0]. rewrite Us by auto. apply (c_free _ _ H j U0).
  - intros j S Nj. destruct (Nat.eq_dec j p) as [->|N].
    + exists r. rewrite Pp. split; [exact Pr|]. split; [apply Liv; auto|exact Nr].
    + assert (S0 : live (proc_at t j) \/ p_state (proc_at t j) = Zombie).
      { destruct S as [S|S]; [left; apply Back; assumption|right; apply (St j Zombie N S); discriminate]. }
      destruct (c_parent _ _ H j S0 Nj) as (r0 & P0 & L0 & N0). rewrite (cm_parent _ _ (Calm j N)).
      unfold adopted. destruct (is_parent p (proc_at t j)) eqn:Q.
      * exists initial. split; [reflexivity|]. split; [apply Liv; auto|auto].
      * exists r0. split; [exact P0|]. split; [|exact N0]. apply Liv; [|exact L0]. intros ->.
        apply (proj2 (is_parent_true p _)) in P0. congruence.
Qed.

Lemma ctl_free t d i : ctl t d -> p_state (proc_at t i) = Zombie -> ctl (free i t) d.
Proof.
  intros H Z. assert (Hi : (i < length t)%nat) by (apply inside; congruence). unfold free.
  assert (Ne : forall q, p_state (proc_at t q) = Used \/ live (proc_at t q) -> i <> q).
  { intros q [U|L] <-; [congruence|]. apply live_state in L as (_ & _ & L). contradiction. }
  assert (Liv : forall q, live (proc_at t q) -> live (proc_at (update i (fun _ => free_process) t) q)).
  { intros q L. rewrite update_ne by (apply Ne; auto). exact L. }
  assert (Nz : forall q, no_zombie t q -> no_zombie (update i (fun _ => free_process) t) q).
  { intros q N. apply not_zombie_update; [exact N|exact Hi|discriminate]. }
  split.
  - rewrite update_length. apply H.
  - destruct (c_init _ _ H) as [L P]. split; [apply Liv, L|]. rewrite update_ne by (apply Ne; auto). exact P.
  - intros q Q. apply Liv, (c_act _ _ H q Q).
  - intros q j Q. pose proof (c_fork _ _ H q j Q) as [U P]. rewrite update_ne by (apply Ne; auto). auto.
  - intros q j Q. pose proof (c_forkp _ _ H q j Q) as [U P]. rewrite update_ne by (apply Ne; auto). auto.
  - exact (c_uniq _ _ H).
  - intros j. tell i j; [discriminate|apply H].
  - intros q Q. apply Nz, (c_lock _ _ H q Q).
  - intros q. tell i q; [discriminate|]. intros S. destruct (c_sleep _ _ H q S) as [(X & Y & N)|D]; [left; auto|right; exact D].
  - intros j. tell i j; [auto|apply H].
  - intros j. tell i j; [intros [[S|[S|S]]|S]; discriminate|]. intros S N. destruct (c_parent _ _ H j S N) as (r & P & L & Nr).
    exists r. split; [exact P|]. split; [apply Liv, L|exact Nr].
Qed.

Lemma ctl_sleep t d p c a : ctl t d -> p_state (proc_at t p) = Running -> (forall i, ~ forking d p i) ->
  (a = InWait /\ c = OnProc p /\ no_zombie t p) \/ (a = InSleep /\ exists z, c = OnOther z) ->
  ctl (putProcessToSleep c p t) (list_set d p a).
Proof.
  intros H R Nf D. assert (Hp : (p < length t)%nat) by (apply live_inside; auto).
  assert (Na : (forall i, a <> InFork i /\ a <> InForkParent i) /\ a <> InWaitLocked) by (destruct D as [(-> & _)|(-> & _)]; repeat split; discriminate).
  destruct Na as [Na Nl]. pose proof (ctl_act t d p a H R Nf Na ltac:(congruence)) as H1.
  assert (Hd : (p < length d)%nat) by (rewrite (c_len _ _ H); exact Hp). unfold putProcessToSleep.
  set (f := fun x => set_state Sleeping (set_chan (Some c) x)).
  assert (Liv : forall q, live (proc_at t q) -> live (proc_at (update p f t) q)).
  { intros q L. tell p q; [left; reflexivity|exact L]. }
  assert (Nz : forall q, no_zombie t q -> no_zombie (update p f t) q).
  { intros q N. apply not_zombie_update; [exact N|exact Hp|discriminate]. }
  assert (Npu : forall j, p_state (proc_at t j) = Used -> p <> j) by congruence.
  split.
  - rewrite update_length. apply H1.
  - destruct (c_init _ _ H) as [L P]. split; [apply Liv, L|]. tell p initial; exact P.
  - intros q Q. apply Liv, (c_act _ _ H1 q Q).
  - intros q j Q. pose proof (c_fork _ _ H1 q j Q) as [U P]. rewrite update_ne by auto. auto.
  - intros q j Q. pose proof (c_forkp _ _ H1 q j Q) as [U P]. rewrite update_ne by auto. auto.
  - exact (c_uniq _ _ H1).
  - intros j. tell p j; [discriminate|apply H1].
  - intros q Q. apply Nz, (c_lock _ _ H1 q Q).
  - intros q. destruct (Nat.eq_dec p q) as [<-|Ne].
    + intros _. rewrite update_eq, act_set, Nat.eqb_refl by assumption. cbn [p_chan f set_state set_chan].
      destruct D as [(-> & -> & N)|(-> & z & ->)]; [left; auto|right; eauto].
    + rewrite update_ne by exact Ne. intros S. destruct (c_sleep _ _ H1 q S) as [(X & Y & N)|X]; [left; auto|right; exact X].
  - intros j. tell p j; [discriminate|apply H1].
  - intros j S N. assert (S0 : live (proc_at t j) \/ p_state (proc_at t j) = Zombie).
    { destruct (Nat.eq_dec p j) as [<-|Ne]; [left; auto|]. rewrite update_ne in S by exact Ne. exact S. }
    destruct (c_parent _ _ H j S0 N) as (r & P & L & Nr). exists r. split; [tell p j; exact P|]. split; [apply Liv, L|exact Nr].
Qed.
(** * Every step keeps the invariant *)

Lemma calm_update t i f j : (i < length t)%nat -> calm (proc_at t i) (f (proc_at t i)) -> calm (proc_at t j) (proc_at (update i f t) j).
Proof. intros Hi C. tell i j; [exact C|apply calm_refl]. Qed.

Lemma calm_wakeup current c t i : calm (proc_at t i) (proc_at (wakeup current c t) i).
Proof. rewrite (proj2 (wakeup_spec current c t) i). apply roused_calm, (woken_roused c), wakes_woken. Qed.

Lemma calm_running x st : live x -> st = Runnable \/ st = Running -> calm x (set_state st x).
Proof. intros L S. split; auto. Qed.

Lemma calm_chan x : p_state x = Running -> calm x (set_chan None x).
Proof. intros R. split; auto. Qed.

Lemma ctl_same t d p f : ctl t d -> (p < length t)%nat -> calm (proc_at t p) (f (proc_at t p)) ->
  ctl (update p f t) (list_set d p (nth p d InUser)).
Proof.
  intros H Hp C. rewrite set_same. apply (ctl_calm t); [exact H|apply update_length|]. intros j. apply calm_update; assumption.
Qed.

Lemma alloc_place next t i t1 : alloc next t = Some (i, t1) ->
  (i < length t)%nat /\ p_state (proc_at t i) = Unused /\
  t1 = update i (fun x => Process Used (p_chan x) (p_killed x) (p_status x) next (p_parent x)) t.
Proof.
  unfold alloc. destruct (first_place _ t) as [j|] eqn:E; [|discriminate]. intros H. injection H as <- <-.
  apply first_place_some in E as [L E]. apply is_state_true in E. auto.
Qed.

Lemma free_alloc i f t : free i (update i f t) = free i t.
Proof. unfold free, update. apply set_set. Qed.

(** A [fork] that fails leaves a free place as [free] leaves it. *)
Lemma fork_fails_spec next t t' : fork_alloc false next t = Some (None, t') ->
  exists i, (i < length t)%nat /\ p_state (proc_at t i) = Unused /\ t' = free i t.
Proof.
  unfold fork_alloc. destruct (alloc next t) as [[i t1]|] eqn:E; [|discriminate]. intros H. injection H as <-.
  apply alloc_place in E as (L & U & ->). exists i. rewrite free_alloc. auto.
Qed.

Lemma fork_alloc_spec next t i t' : fork_alloc true next t = Some (Some i, t') -> alloc next t = Some (i, t').
Proof. unfold fork_alloc. destruct (alloc next t) as [[j t1]|]; congruence. Qed.

Lemma calm_free t d i : ctl t d -> p_state (proc_at t i) = Unused -> calm (proc_at t i) free_process.
Proof.
  intros H U. destruct (c_free _ _ H i U) as [P Q]. split; cbn; try congruence. left. split; congruence.
Qed.

Lemma wait_turn_spec out p t w t' : wait_turn out p t = (w, t') ->
  match w with
  | Reap i pid st => p_parent (proc_at t i) = Some p /\ p_state (proc_at t i) = Zombie /\ out = true /\
      pid = p_pid (proc_at t i) /\ st = p_status (proc_at t i) /\ t' = free i t
  | WaitFails => t' = t
  | WaitSleeps => t' = t /\ no_zombie t p
  end.
Proof.
  unfold wait_turn. destruct (first_place _ t) as [i|] eqn:E.
  - apply first_place_some in E as [_ E]. apply andb_prop in E as [P Z]. apply is_parent_true in P. apply is_state_true in Z.
    destruct out; intros H; injection H as <- <-; auto 10.
  - destruct (negb _); [intros H; injection H as <- <-; reflexivity|]. destruct (p_killed _); intros H; injection H as <- <-; [reflexivity|].
    split; [reflexivity|]. intros q P Z. assert (Hq : (q < length t)%nat) by (apply inside; congruence).
    pose proof (first_place_none _ _ q E Hq) as N. cbn beta in N.
    rewrite (proj2 (is_parent_true p _) P), (proj2 (is_state_true Zombie _) Z) in N. discriminate.
Qed.

Lemma calm_resumed s p i : runs s p -> calm (proc_at (s_table s) i) (proc_at (resumed s p) i).
Proof. intros [Hp R]. unfold resumed. destruct (doing s p); try apply calm_refl. apply calm_update; [exact Hp|apply calm_chan, R]. Qed.

Lemma resumed_length s p : length (resumed s p) = length (s_table s).
Proof. unfold resumed. destruct (doing s p); try reflexivity. apply update_length. Qed.

Lemma resumed_state s p i : p_state (proc_at (resumed s p) i) = p_state (proc_at (s_table s) i).
Proof.
  unfold resumed. destruct (doing s p); try reflexivity. destruct (Nat.ltb_spec p (length (s_table s))) as [Hp|Hp]; [tell p i; reflexivity|].
  destruct (Nat.eq_dec p i) as [<-|]; [rewrite !outside by (rewrite ?update_length; exact Hp)|rewrite update_ne by assumption]; reflexivity.
Qed.

Lemma kill_spec pid t t' : kill pid t = Some t' ->
  exists i, (i < length t)%nat /\ p_pid (proc_at t i) = pid /\ p_killed (proc_at t' i) = true /\
    length t' = length t /\ forall j, calm (proc_at t j) (proc_at t' j).
Proof.
  unfold kill. destruct (first_place _ t) as [i|] eqn:E; [|discriminate]. apply first_place_some in E as [L E]. intros H. injection H as <-.
  exists i. split; [exact L|]. split; [lia|]. split; [|split; [apply update_length|]].
  - rewrite update_eq by exact L. destruct (is_state _ _); reflexivity.
  - intros j. apply calm_update; [exact L|]. destruct (is_state Sleeping (proc_at t i)) eqn:S; [|split; auto].
    apply is_state_true in S. split; auto. right. unfold live. cbn. auto.
Qed.

Lemma not_forking d p a : act d p = a -> (forall i, a <> InFork i /\ a <> InForkParent i) -> forall i, ~ forking d p i.
Proof. intros A N i [F|F]; destruct (N i); congruence. Qed.

Lemma ctl_wait s p out w t : ctl (s_table s) (s_doing s) -> runs s p -> doing s p = InUser \/ doing s p = InWait ->
  wait_turn out p (resumed s p) = (w, t) ->
  ctl t (list_set (s_doing s) p (match w with WaitSleeps => InWaitLocked | _ => InUser end)).
Proof.
  intros H [Hp R] A W.
  assert (H1 : ctl (resumed s p) (s_doing s)).
  { apply (ctl_calm (s_table s)); [exact H|apply resumed_length|]. intros i. apply calm_resumed. split; assumption. }
  assert (R1 : p_state (proc_at (resumed s p) p) = Running) by (rewrite resumed_state; exact R).
  assert (Nf : forall i, ~ forking (s_doing s) p i).
  { apply (not_forking _ _ _ eq_refl). unfold act, doing in *. destruct A as [-> | ->]; split; discriminate. }
  apply wait_turn_spec in W. destruct w as [i pid st| |].
  - destruct W as (_ & Z & _ & _ & _ & ->). apply ctl_free; [|exact Z]. apply ctl_act; try assumption; [split|]; discriminate.
  - subst t. apply ctl_act; try assumption; [split|]; discriminate.
  - destruct W as [-> N]. apply ctl_act; try assumption; [split; discriminate|auto].
Qed.

Lemma step_ctl s e s' : step initial s e s' -> ctl (s_table s) (s_doing s) -> ctl (s_table s') (s_doing s').
Proof.
  intros St H. destruct St; unfold now; cbn [s_table s_doing]; try exact H.
  - apply ctl_same; [assumption..|]. apply calm_running; [unfold live|]; auto.
  - match goal with X : runs _ _ |- _ => destruct X as [Hp R] end. apply ctl_same; [assumption..|]. apply calm_running; auto.
  - match goal with X : fork_alloc _ _ _ = _ |- _ => apply fork_fails_spec in X as (i & L & U & ->) end.
    apply (ctl_calm (s_table s)); [exact H|apply update_length|]. intros j. apply calm_update; [exact L|exact (calm_free _ _ _ H U)].
  - match goal with X : fork_alloc _ _ _ = _ |- _ => apply fork_alloc_spec, alloc_place in X as (L & U & ->) end.
    match goal with X : runs _ _ |- _ => destruct X as [Hp R] end. apply ctl_fork_alloc; assumption.
  - match goal with X : runs _ _ |- _ => destruct X as [Hp R] end. apply ctl_fork_parent; assumption.
  - match goal with X : runs _ _ |- _ => destruct X as [Hp R] end. apply ctl_fork_run; assumption.
  - match goal with X : runs _ _ |- _ => destruct X as [Hp R] end.
    match goal with X : doing s p = _ |- _ => rewrite <- X end. unfold doing. rewrite set_same. eapply ctl_exit; eassumption.
  - eapply ctl_wait; eassumption.
  - match goal with X : runs _ _ |- _ => destruct X as [Hp R] end. apply ctl_sleep; try assumption.
    + eapply not_forking; [eassumption|]. split; discriminate.
    + left. split; [reflexivity|]. split; [reflexivity|]. apply (c_lock _ _ H). assumption.
  - match goal with X : runs _ _ |- _ => destruct X as [Hp R] end. apply ctl_sleep; try assumption.
    + eapply not_forking; [eassumption|]. split; discriminate.
    + right. eauto.
  - match goal with X : runs _ _ |- _ => destruct X as [Hp R] end. apply ctl_act; try discriminate; try (split; discriminate).
    + apply (ctl_calm (s_table s)); [exact H|apply update_length|]. intros j. apply calm_update; [exact Hp|apply calm_chan, R].
    + rewrite update_eq by exact Hp. exact R.
    + eapply not_forking; [eassumption|]. split; discriminate.
  - apply (ctl_calm (s_table s)); [exact H|apply wakeup_spec|]. intros j. apply calm_wakeup.
  - match goal with X : runs _ _ |- _ => destruct X as [Hp R] end.
    match goal with X : doing s p = _ |- _ => rewrite <- X end. apply ctl_same; [assumption..|]. split; auto.
  - match goal with X : kill _ _ = _ |- _ => apply kill_spec in X as (i & _ & _ & _ & L & C) end.
    apply (ctl_calm (s_table s)); assumption.
Qed.

Lemma start_table i : (initial < NPROC)%nat -> proc_at (s_table (start initial)) i =
  if (i =? initial)%nat then Process Runnable None false 0 1 None else free_process.
Proof.
  intros H. unfold start. cbn [s_table]. destruct (Nat.eqb_spec i initial) as [->|Ne].
  - apply update_eq. rewrite repeat_length. exact H.
  - rewrite update_ne by auto. unfold proc_at. apply nth_repeat.
Qed.

Lemma start_ctl : (initial < NPROC)%nat -> ctl (s_table (start initial)) (s_doing (start initial)).
Proof.
  intros Hi. assert (A : forall q, act (s_doing (start initial)) q = InUser) by (intros q; unfold act, start; apply nth_repeat).
  assert (S : forall i, i <> initial -> proc_at (s_table (start initial)) i = free_process).
  { intros i N. rewrite start_table, (proj2 (Nat.eqb_neq _ _) N) by exact Hi. reflexivity. }
  assert (I : proc_at (s_table (start initial)) initial = Process Runnable None false 0 1 None).
  { rewrite start_table, Nat.eqb_refl by exact Hi. reflexivity. }
  split.
  - unfold start. cbn [s_table s_doing]. rewrite update_length, !repeat_length. reflexivity.
  - rewrite I. split; [right; left; reflexivity|reflexivity].
  - intros p X. destruct (X (A p)).
  - intros p i X. rewrite A in X. discriminate.
  - intros p i X. rewrite A in X. discriminate.
  - intros p q i [X|X]; rewrite A in X; discriminate.
  - intros i. destruct (Nat.eq_dec i initial) as [->|N]; [rewrite I|rewrite (S i N)]; discriminate.
  - intros p X. rewrite A in X. discriminate.
  - intros p. destruct (Nat.eq_dec p initial) as [->|N]; [rewrite I|rewrite (S p N)]; discriminate.
  - intros i. destruct (Nat.eq_dec i initial) as [->|N]; [rewrite I; discriminate|rewrite (S i N); auto].
  - intros i L N. rewrite (S i N) in L. destruct L as [[L|[L|L]]|L]; discriminate.
Qed.

Lemma reach_ctl h s : (initial < NPROC)%nat -> reach initial h s -> ctl (s_table s) (s_doing s).
Proof. intros Hi R. induction R as [|h s e s' R IH St]; [apply start_ctl, Hi|exact (step_ctl _ _ _ St IH)]. Qed.
End Invariant.
