(* ===== verification/KProcHist.v ===== *)
(** The history of processes: process ids are not used twice, each exit is
    reported by [wait] at most once and with its status, one that is not reported
    yet is kept in the table, and [kill] finds the one process of its id. *)

From S2P Require Import Prelude KProc KProcSpec.
Local Open Scope zm_scope.

(** * What the events say *)

Fixpoint births (h : list event) : Z :=
  match h with [] => 0 | Born _ :: h => 1 + births h | _ :: h => births h end.
Fixpoint exits (h : list event) : list (Z * Z) :=
  match h with [] => [] | Exited pid st :: h => (pid, st) :: exits h | _ :: h => exits h end.
Fixpoint reaps (h : list event) : list (Z * Z) :=
  match h with [] => [] | Reaped _ pid st :: h => (pid, st) :: reaps h | _ :: h => reaps h end.

Lemma births_nonneg h : 0 <= births h.
Proof. induction h as [|[]]; cbn [births]; lia. Qed.

(** * The invariant of the history *)

Definition taken (x : process) : Prop := p_state x <> Unused.

Record hist (h : list event) (t : table) (next : Z) : Prop := {
  h_pid i : taken (proc_at t i) -> 1 <= p_pid (proc_at t i) < next;
  h_inj i j : taken (proc_at t i) -> taken (proc_at t j) -> p_pid (proc_at t i) = p_pid (proc_at t j) -> i = j;
  h_exits : NoDup (map fst (exits h));
  h_reaps : NoDup (map fst (reaps h));
  h_sub : incl (reaps h) (exits h);
  h_old pid : In pid (map fst (exits h)) -> pid < next;
  h_zombie i : p_state (proc_at t i) = Zombie ->
    In (p_pid (proc_at t i), p_status (proc_at t i)) (exits h) /\ ~ In (p_pid (proc_at t i)) (map fst (reaps h));
  h_kept pid st : In (pid, st) (exits h) -> In (pid, st) (reaps h) \/
    exists i, p_state (proc_at t i) = Zombie /\ p_pid (proc_at t i) = pid /\ p_status (proc_at t i) = st;
  h_live i : taken (proc_at t i) -> p_state (proc_at t i) <> Zombie -> ~ In (p_pid (proc_at t i)) (map fst (exits h));
}.

(** Places that the history does not tell apart. *)
Record kin (x y : process) : Prop := {
  k_unused : p_state y = Unused <-> p_state x = Unused;
  k_zombie : p_state y = Zombie <-> p_state x = Zombie;
  k_pid : taken x -> p_pid y = p_pid x;
  k_status : p_state x = Zombie -> p_status y = p_status x;
}.

Lemma calm_kin x y : calm x y -> kin x y.
Proof.
  intros C. assert (B : forall st, st = Unused \/ st = Zombie -> (p_state y = st <-> p_state x = st)).
  { intros st N. split; intros S.
    - apply (calm_state _ _ _ C S); intros ->; destruct N as [|]; discriminate.
    - apply (calm_back _ _ _ C S). tauto. }
  split; auto; intros; apply C; assumption.
Qed.

Lemma adopted_kin initial p x : kin x (adopted initial p x).
Proof. unfold adopted. destruct (is_parent p x); split; (reflexivity || tauto). Qed.

Lemma kin_trans x y z : kin x y -> kin y z -> kin x z.
Proof.
  intros A B. split.
  - rewrite (k_unused _ _ B). apply A.
  - rewrite (k_zombie _ _ B). apply A.
  - intros T. rewrite (k_pid _ _ B); [apply A, T|]. unfold taken in *. rewrite (k_unused _ _ A). exact T.
  - intros Z. rewrite (k_status _ _ B); [apply A, Z|]. apply A, Z.
Qed.

Lemma hist_kin h t t' next : hist h t next -> (forall i, kin (proc_at t i) (proc_at t' i)) -> hist h t' next.
Proof.
  intros H K.
  assert (T : forall i, taken (proc_at t' i) -> taken (proc_at t i)) by (intros i; unfold taken; rewrite (k_unused _ _ (K i)); auto).
  split; try apply H.
  - intros i Ti. rewrite (k_pid _ _ (K i)) by auto. apply (h_pid _ _ _ H), T, Ti.
  - intros i j Ti Tj. rewrite (k_pid _ _ (K i)), (k_pid _ _ (K j)) by auto. apply (h_inj _ _ _ H); auto.
  - intros i Z. apply (k_zombie _ _ (K i)) in Z. rewrite (k_pid _ _ (K i)), (k_status _ _ (K i)); [|exact Z|unfold taken; congruence].
    apply (h_zombie _ _ _ H i Z).
  - intros pid st X. destruct (h_kept _ _ _ H pid st X) as [R|(i & Z & P & S)]; [left; exact R|right]. exists i.
    rewrite (k_pid _ _ (K i)), (k_status _ _ (K i)); [|exact Z|unfold taken; congruence]. split; [apply (k_zombie _ _ (K i)), Z|auto].
  - intros i Ti N. rewrite (k_pid _ _ (K i)) by auto. apply (h_live _ _ _ H); [auto|]. rewrite <- (k_zombie _ _ (K i)). exact N.
Qed.

Lemma hist_born h t next pid : hist h t next -> hist (Born pid :: h) t (next + 1).
Proof.
  intros H. split; cbn [exits reaps]; try apply H.
  - intros i T. pose proof (h_pid _ _ _ H i T). lia.
  - intros p X. pose proof (h_old _ _ _ H p X). lia.
Qed.

Lemma hist_alloc h t next i t' : hist h t next -> 1 <= next -> alloc next t = Some (i, t') -> hist (Born next :: h) t' (next + 1).
Proof.
  intros H N A. apply alloc_place in A as (L & U & ->). set (f := fun x => _). pose proof (hist_born _ _ _ next H) as B.
  assert (New : proc_at (update i f t) i = f (proc_at t i)) by (apply update_eq, L).
  assert (Old : forall j, j <> i -> proc_at (update i f t) j = proc_at t j) by (intros j Nj; apply update_ne; auto).
  assert (Free : forall j, j <> i -> taken (proc_at t j) -> p_pid (proc_at t j) <> next).
  { intros j _ T E. pose proof (h_pid _ _ _ H j T). lia. }
  split; try apply B.
  - intros j. destruct (Nat.eq_dec j i) as [->|Nj]; [rewrite New; cbn; lia|rewrite Old by exact Nj; apply B].
  - intros j k. destruct (Nat.eq_dec j i) as [->|Nj], (Nat.eq_dec k i) as [->|Nk]; rewrite ?New, ?Old by assumption; [reflexivity|..|apply B].
    + intros _ T E. destruct (Free k Nk T). symmetry. exact E.
    + intros T _ E. destruct (Free j Nj T E).
  - intros j. destruct (Nat.eq_dec j i) as [->|Nj]; [rewrite New; discriminate|rewrite Old by exact Nj; apply B].
  - intros pid st X. destruct (h_kept _ _ _ B pid st X) as [R|(j & Z & P)]; [left; exact R|right]. exists j.
    rewrite Old; [auto|]. intros ->. congruence.
  - intros j. destruct (Nat.eq_dec j i) as [->|Nj]; [|rewrite Old by exact Nj; apply B].
    rewrite New. intros _ _ X. apply (h_old _ _ _ H) in X. cbn in X. lia.
Qed.

Lemma hist_exited h t t' next p st : hist h t next -> taken (proc_at t p) -> p_state (proc_at t p) <> Zombie ->
  p_state (proc_at t' p) = Zombie -> p_pid (proc_at t' p) = p_pid (proc_at t p) -> p_status (proc_at t' p) = st ->
  (forall i, i <> p -> kin (proc_at t i) (proc_at t' i)) -> hist (Exited (p_pid (proc_at t p)) st :: h) t' next.
Proof.
  intros H Tp Np Z P S K. assert (Np' : ~ In (p_pid (proc_at t p)) (map fst (exits h))) by (apply (h_live _ _ _ H); assumption).
  assert (T : forall i, taken (proc_at t' i) -> taken (proc_at t i)).
  { intros i. destruct (Nat.eq_dec i p) as [->|N]; [auto|]. unfold taken. rewrite (k_unused _ _ (K i N)). auto. }
  assert (Pid : forall i, taken (proc_at t' i) -> p_pid (proc_at t' i) = p_pid (proc_at t i)).
  { intros i Ti. destruct (Nat.eq_dec i p) as [->|N]; [exact P|]. apply K; auto. }
  assert (Other : forall i, i <> p -> taken (proc_at t' i) -> p_pid (proc_at t i) <> p_pid (proc_at t p)).
  { intros i N Ti E. apply N, (h_inj _ _ _ H); auto. }
  split; cbn [exits reaps map fst].
  - intros i Ti. rewrite Pid by exact Ti. apply (h_pid _ _ _ H), T, Ti.
  - intros i j Ti Tj. rewrite !Pid by assumption. apply (h_inj _ _ _ H); auto.
  - constructor; [exact Np'|apply H].
  - apply H.
  - intros x X. right. apply (h_sub _ _ _ H), X.
  - intros pid [<-|X]; [apply (h_pid _ _ _ H), Tp|apply (h_old _ _ _ H), X].
  - intros i Zi. destruct (Nat.eq_dec i p) as [->|N].
    + rewrite P, S. split; [left; reflexivity|]. intros X. apply Np'. apply in_map_iff in X as (x & E & X).
      apply in_map_iff. exists x. split; [exact E|apply (h_sub _ _ _ H), X].
    + destruct (K i N) as [_ KZ KP KS]. apply KZ in Zi. rewrite KP, KS; [|exact Zi|unfold taken; congruence].
      destruct (h_zombie _ _ _ H i Zi). split; [right|]; assumption.
  - intros pid st' [E|X]; [injection E as <- <-; right; exists p; auto|].
    destruct (h_kept _ _ _ H pid st' X) as [R|(i & Zi & Pi & Si)]; [left; exact R|right]. exists i.
    assert (N : i <> p) by congruence. destruct (K i N) as [_ KZ KP KS]. rewrite KP, KS; [|exact Zi|unfold taken; congruence].
    split; [apply KZ, Zi|auto].
  - intros i Ti Ni [E|X].
    + assert (N : i <> p) by congruence. apply (Other i N Ti). rewrite <- Pid by exact Ti. auto.
    + rewrite Pid in X by exact Ti. assert (N : i <> p) by congruence. refine (h_live _ _ _ H i (T i Ti) _ X).
      rewrite <- (k_zombie _ _ (K i N)). exact Ni.
Qed.

Lemma hist_reap h t next i p : hist h t next -> p_state (proc_at t i) = Zombie ->
  hist (Reaped p (p_pid (proc_at t i)) (p_status (proc_at t i)) :: h) (free i t) next.
Proof.
  intros H Z. assert (L : (i < length t)%nat) by (apply inside; congruence).
  assert (New : proc_at (free i t) i = free_process) by (apply update_eq, L).
  assert (Old : forall j, j <> i -> proc_at (free i t) j = proc_at t j) by (intros j Nj; apply update_ne; auto).
  assert (Ti : taken (proc_at t i)) by (unfold taken; congruence).
  assert (T : forall j, taken (proc_at (free i t) j) -> j <> i) by (intros j X ->; rewrite New in X; apply X; reflexivity).
  destruct (h_zombie _ _ _ H i Z) as [Zx Zr].
  split; cbn [exits reaps map fst]; try apply H.
  - intros j X. rewrite Old in * by auto. exact (h_pid _ _ _ H j X).
  - intros j k X Y. pose proof (T j X). pose proof (T k Y). rewrite (Old j), (Old k) in * by assumption. exact (h_inj _ _ _ H j k X Y).
  - constructor; [exact Zr|apply H].
  - intros x [<-|X]; [exact Zx|apply (h_sub _ _ _ H), X].
  - intros j X. assert (N : j <> i) by (apply T; unfold taken; congruence). rewrite Old in * by exact N.
    destruct (h_zombie _ _ _ H j X) as [A B]. split; [exact A|]. intros [E|Y]; [|exact (B Y)].
    apply N, (h_inj _ _ _ H); unfold taken; congruence.
  - intros pid st X. destruct (h_kept _ _ _ H pid st X) as [R|(j & Zj & P & S)]; [left; right; exact R|].
    destruct (Nat.eq_dec j i) as [->|N]; [left; left; congruence|right]. exists j. rewrite Old by exact N. auto.
  - intros j X N. rewrite Old in * by auto. exact (h_live _ _ _ H j X N).
Qed.

(** * Every step keeps it *)

Section History.
Variable initial : nat.

Lemma kin_resumed s p i : runs s p -> kin (proc_at (s_table s) i) (proc_at (resumed s p) i).
Proof. intros R. apply calm_kin, calm_resumed, R. Qed.

Lemma kin_update t p f i : (p < length t)%nat -> kin (proc_at t p) (f (proc_at t p)) -> kin (proc_at t i) (proc_at (update p f t) i).
Proof.
  intros L K. destruct (Nat.eq_dec p i) as [<-|N]; [rewrite update_eq by exact L; exact K|].
  rewrite update_ne by exact N. apply calm_kin, calm_refl.
Qed.

Lemma kin_state st x : live x -> st <> Unused -> st <> Zombie -> kin x (set_state st x).
Proof. intros L N1 N2. apply live_state in L as (U & _ & Z). split; cbn; tauto. Qed.

Lemma kin_parent o x : kin x (set_parent o x).
Proof. split; cbn; tauto. Qed.

Lemma kin_killed x : kin x (set_killed x).
Proof. split; cbn; tauto. Qed.

Lemma kin_sleep c x : live x -> kin x (set_state Sleeping (set_chan (Some c) x)).
Proof. intros L. apply live_state in L as (U & _ & Z). split; cbn; try tauto; split; congruence. Qed.

Lemma step_hist s e s' h : ctl initial (s_table s) (s_doing s) -> 1 <= s_next s -> step initial s e s' ->
  hist h (s_table s) (s_next s) -> s_next s = 1 + births h -> births (e ++ h) < 2 ^ 32 - 1 ->
  hist (e ++ h) (s_table s') (s_next s') /\ s_next s' = 1 + births (e ++ h).
Proof.
  intros C N St H Nx B.
  assert (U : forall n, n = 1 + births h -> births h < 2 ^ 32 - 2 -> u32 (n + 1) = n + 1).
  { intros n E L. pose proof (births_nonneg h). apply Z.mod_small. lia. }
  destruct St; unfold now; cbn [s_table s_next app]; cbn [app births] in B;
    try match goal with X : runs _ _ |- _ => pose proof X as [Hp R] end; try (split; [|exact Nx]); try exact H.
  - apply (hist_kin _ (s_table s)); [exact H|]. intros i. apply kin_update; [assumption|apply kin_state; [unfold live; auto|discriminate..]].
  - apply (hist_kin _ (s_table s)); [exact H|]. intros i. apply kin_update; [assumption|apply kin_state; [unfold live; auto|discriminate..]].
  - rewrite U by lia. split; [|cbn [births]; lia].
    match goal with X : fork_alloc _ _ _ = _ |- _ => apply fork_fails_spec in X as (i & L & F & ->) end.
    apply (hist_kin _ (s_table s)); [apply hist_born, H|]. intros j. apply kin_update; [exact L|].
    apply calm_kin. exact (calm_free _ _ _ _ C F).
  - rewrite U by lia. split; [|cbn [births]; lia].
    match goal with X : fork_alloc _ _ _ = _ |- _ => apply fork_alloc_spec in X; apply (hist_alloc _ _ _ _ _ H N X) end.
  - assert (L : (i < length (s_table s))%nat).
    { apply inside. destruct (c_fork _ _ _ C p i) as [F _]; [assumption|]. congruence. }
    apply (hist_kin _ (s_table s)); [exact H|]. intros j. apply kin_update; [exact L|apply kin_parent].
  - destruct (c_forkp _ _ _ C p i) as [F _]; [assumption|]. assert (L : (i < length (s_table s))%nat) by (apply inside; congruence).
    apply (hist_kin _ (s_table s)); [exact H|]. intros j. apply kin_update; [exact L|]. split; cbn; try tauto; split; congruence.
  - match goal with X : exit_ _ _ _ _ = _ |- _ => destruct (exit_spec _ _ _ _ _ X Hp R) as (_ & _ & r & _ & E & Ro & _) end.
    apply (hist_exited h (s_table s) t).
    + exact H.
    + unfold taken. congruence.
    + congruence.
    + rewrite E. reflexivity.
    + rewrite E. unfold adopted. destruct (is_parent _ _); reflexivity.
    + rewrite E. reflexivity.
    + intros i Ni. apply (kin_trans _ _ _ (adopted_kin initial p _)), calm_kin, roused_calm, Ro, Ni.
  - assert (Hr : hist h (resumed s p) (s_next s)) by (apply (hist_kin _ (s_table s)); [exact H|intros i; apply kin_resumed; assumption]).
    match goal with X : wait_turn _ _ _ = _ |- _ => apply wait_turn_spec in X end. destruct w as [i pid st| |].
    + match goal with X : _ /\ _ |- _ => destruct X as (_ & Z & _ & -> & -> & ->) end. split; [apply hist_reap; assumption|exact Nx].
    + subst t. split; [exact Hr|exact Nx].
    + match goal with X : _ /\ _ |- _ => destruct X as [-> _] end. split; [exact Hr|exact Nx].
  - apply (hist_kin _ (s_table s)); [exact H|]. intros i. apply kin_update; [assumption|apply kin_sleep, running_live, R].
  - apply (hist_kin _ (s_table s)); [exact H|]. intros i. apply kin_update; [assumption|apply kin_sleep, running_live, R].
  - apply (hist_kin _ (s_table s)); [exact H|]. intros i. apply kin_update; [assumption|apply calm_kin, calm_chan, R].
  - apply (hist_kin _ (s_table s)); [exact H|]. intros i. apply calm_kin, calm_wakeup.
  - apply (hist_kin _ (s_table s)); [exact H|]. intros i. apply kin_update; [assumption|apply kin_killed].
  - match goal with X : kill _ _ = _ |- _ => apply kill_spec in X as (i & _ & _ & _ & _ & K) end.
    apply (hist_kin _ (s_table s)); [exact H|]. intros j. apply calm_kin, K.
Qed.

(** * Parents are older than their children *)

Record order (t : table) (d : list activity) : Prop := {
  o_init : p_pid (proc_at t initial) = 1;
  o_parent i r : p_parent (proc_at t i) = Some r -> p_pid (proc_at t r) < p_pid (proc_at t i);
  o_fork p i : forking d p i -> p_pid (proc_at t p) < p_pid (proc_at t i);
}.

Lemma ctl_parent t d i r : ctl initial t d -> p_parent (proc_at t i) = Some r -> taken (proc_at t i) /\ taken (proc_at t r).
Proof.
  intros C P. split.
  { intros U. destruct (c_free _ _ _ C i U). congruence. }
  destruct (Nat.eq_dec i initial) as [->|N]; [destruct (c_init _ _ _ C); congruence|].
  destruct (p_state (proc_at t i)) eqn:S.
  - destruct (c_free _ _ _ C i S). congruence.
  - destruct (c_used _ _ _ C i S) as (q & [F|F]); [destruct (c_fork _ _ _ C q i F); congruence|].
    destruct (c_forkp _ _ _ C q i F) as [_ Q]. assert (q = r) as -> by congruence.
    apply (live_state _ (c_act _ _ _ C r ltac:(congruence))).
  - destruct (c_parent _ _ _ C i) as (q & Q & L & _); [unfold live; auto|exact N|]. assert (q = r) as -> by congruence. apply (live_state _ L).
  - destruct (c_parent _ _ _ C i) as (q & Q & L & _); [unfold live; auto|exact N|]. assert (q = r) as -> by congruence. apply (live_state _ L).
  - destruct (c_parent _ _ _ C i) as (q & Q & L & _); [unfold live; auto|exact N|]. assert (q = r) as -> by congruence. apply (live_state _ L).
  - destruct (c_parent _ _ _ C i) as (q & Q & L & _); [auto|exact N|]. assert (q = r) as -> by congruence. apply (live_state _ L).
Qed.

Lemma forking_taken t d p i : ctl initial t d -> forking d p i -> taken (proc_at t p) /\ taken (proc_at t i).
Proof.
  intros C F. split; [apply (live_state _ (forking_live _ _ _ _ _ C F))|]. unfold taken. rewrite (forking_used _ _ _ _ _ C F). discriminate.
Qed.

(** The ids of the processes that are left are the old ones, and parents new to
    their children are older. *)
Lemma order_move t d t' d' : order t d -> ctl initial t' d' -> (forall i, taken (proc_at t' i) -> p_pid (proc_at t' i) = p_pid (proc_at t i)) ->
  (forall i r, p_parent (proc_at t' i) = Some r -> p_pid (proc_at t r) < p_pid (proc_at t i)) ->
  (forall p i, forking d' p i -> forking d p i) -> order t' d'.
Proof.
  intros O C P A F. split.
  - rewrite P; [apply (o_init _ _ O)|]. apply live_state, (c_init _ _ _ C).
  - intros i r Q. destruct (ctl_parent _ _ _ _ C Q). rewrite !P by assumption. apply A, Q.
  - intros p i Q. destruct (forking_taken _ _ _ _ C Q). rewrite !P by assumption. apply (o_fork _ _ O), F, Q.
Qed.

Lemma order_calm t d t' d' : order t d -> ctl initial t' d' -> (forall i, calm (proc_at t i) (proc_at t' i)) ->
  (forall p i, forking d' p i -> forking d p i) -> order t' d'.
Proof.
  intros O C K F. apply (order_move t d); try assumption.
  - intros i _. apply K.
  - intros i r Q. rewrite (cm_parent _ _ (K i)) in Q. apply (o_parent _ _ O), Q.
Qed.

Lemma forking_sub d p a q i : (forall i, a <> InFork i /\ a <> InForkParent i) -> forking (list_set d p a) q i -> forking d q i.
Proof.
  intros N. destruct (Nat.ltb_spec p (length d)) as [L|L].
  - rewrite forking_set by exact L. destruct (p =? q)%nat; [|auto]. intros [E|E]; destruct (N i); contradiction.
  - unfold forking, act. rewrite list_set_nth, (proj2 (Nat.ltb_ge _ _) L), andb_false_r. auto.
Qed.

Lemma order_alloc t d t' p i next : order t d -> ctl initial t d -> (forall j, taken (proc_at t j) -> p_pid (proc_at t j) < next) ->
  p_state (proc_at t p) = Running -> act d p = InUser -> alloc next t = Some (i, t') ->
  order t' (list_set (list_set d p (InFork i)) i InUser).
Proof.
  intros O C B R A X. apply alloc_place in X as (L & U & ->). set (f := fun x => _).
  assert (Nt : forall j, taken (proc_at t j) -> proc_at (update i f t) j = proc_at t j).
  { intros j T. apply update_ne. intros <-. exact (T U). }
  assert (New : p_pid (proc_at (update i f t) i) = next) by (rewrite update_eq by exact L; reflexivity).
  assert (Tp : taken (proc_at t p)) by (unfold taken; congruence).
  split.
  - rewrite Nt; [apply (o_init _ _ O)|]. apply live_state, (c_init _ _ _ C).
  - intros j r Q. assert (Q' : p_parent (proc_at t j) = Some r).
    { destruct (Nat.eq_dec i j) as [<-|N]; [rewrite update_eq in Q by exact L|rewrite update_ne in Q by exact N]; exact Q. }
    destruct (ctl_parent _ _ _ _ C Q'). rewrite !Nt by assumption. apply (o_parent _ _ O), Q'.
  - intros q j F. apply forking_sub in F; [|split; discriminate].
    assert (Lp : (p < length d)%nat).
    { rewrite (c_len _ _ _ C). apply inside, Tp. }
    rewrite forking_set in F by exact Lp. destruct (Nat.eqb_spec p q) as [<-|N].
    + destruct F as [F|F]; [|discriminate]. injection F as <-. rewrite New, Nt by exact Tp. apply B, Tp.
    + destruct (forking_taken _ _ _ _ C F). rewrite !Nt by assumption. apply (o_fork _ _ O), F.
Qed.

Lemma order_exit t d t' p st : order t d -> ctl initial t d -> ctl initial t' d -> (forall j, taken (proc_at t j) -> 1 <= p_pid (proc_at t j)) ->
  p_state (proc_at t p) = Running -> exit_ initial p st t = Some t' -> order t' d.
Proof.
  intros O C C' B R X. assert (L : (p < length t)%nat) by (apply inside; congruence).
  destruct (exit_spec _ _ _ _ _ X L R) as (_ & _ & r & _ & E & Ro & _).
  assert (K : forall i, p_pid (proc_at t' i) = p_pid (proc_at t i) /\ p_parent (proc_at t' i) = p_parent (adopted initial p (proc_at t i))).
  { intros i. destruct (Nat.eq_dec i p) as [->|N].
    - rewrite E. split; [|reflexivity]. unfold adopted. destruct (is_parent _ _); reflexivity.
    - destruct (roused_calm _ _ (Ro i N)) as [-> -> _ _]. split; [|reflexivity]. unfold adopted. destruct (is_parent _ _); reflexivity. }
  apply (order_move t d); auto; [intros i _; apply K|]. intros i q. rewrite (proj2 (K i)). unfold adopted.
  destruct (is_parent p (proc_at t i)) eqn:Q; [|apply (o_parent _ _ O)]. intros Z. injection Z as <-.
  rewrite (o_init _ _ O). apply is_parent_true in Q. pose proof (o_parent _ _ O i p Q). assert (1 <= p_pid (proc_at t p)) by (apply B; unfold taken; congruence). lia.
Qed.

Lemma order_free t d d' i : order t d -> ctl initial (free i t) d' -> (i < length t)%nat ->
  (forall p i, forking d' p i -> forking d p i) -> order (free i t) d'.
Proof.
  intros O C L F. unfold free in *. apply (order_move t d); try assumption.
  - intros j T. destruct (Nat.eq_dec i j) as [<-|N]; [|rewrite update_ne by exact N; reflexivity].
    rewrite update_eq in T by exact L. destruct (T eq_refl).
  - intros j r. destruct (Nat.eq_dec i j) as [<-|N]; [rewrite update_eq by exact L; discriminate|].
    rewrite update_ne by exact N. apply (o_parent _ _ O).
Qed.

Lemma order_update t d d' i f : order t d -> ctl initial (update i f t) d' -> (i < length t)%nat ->
  (forall x, p_pid (f x) = p_pid x) -> (forall x, p_parent (f x) = p_parent x) -> (forall p i, forking d' p i -> forking d p i) ->
  order (update i f t) d'.
Proof.
  intros O C L Fp Fq F. apply (order_move t d); try assumption.
  - intros j _. destruct (Nat.eq_dec i j) as [<-|N]; [rewrite update_eq by exact L; apply Fp|rewrite update_ne by exact N; reflexivity].
  - intros j r. destruct (Nat.eq_dec i j) as [<-|N]; [rewrite update_eq, Fq by exact L|rewrite update_ne by exact N]; apply (o_parent _ _ O).
Qed.

Lemma step_order s e s' h : ctl initial (s_table s) (s_doing s) -> hist h (s_table s) (s_next s) -> step initial s e s' ->
  ctl initial (s_table s') (s_doing s') -> order (s_table s) (s_doing s) -> order (s_table s') (s_doing s').
Proof.
  intros C H St C' O.
  destruct St; unfold now in *; cbn [s_table s_doing] in *; try exact O;
    try match goal with X : runs _ _ |- _ => pose proof X as [Hp R] end.
  - apply (order_calm (s_table s) (s_doing s)); auto; [|intros q i; unfold doing; rewrite set_same; auto].
    intros i. apply calm_update; [assumption|apply calm_running; [unfold live|]; auto].
  - apply (order_calm (s_table s) (s_doing s)); auto; [|intros q i; unfold doing; rewrite set_same; auto].
    intros i. apply calm_update; [assumption|apply calm_running; [unfold live|]; auto].
  - match goal with X : fork_alloc _ _ _ = _ |- _ => apply fork_fails_spec in X as (i & L & F & ->) end.
    apply (order_free _ (s_doing s)); auto.
  - match goal with X : fork_alloc _ _ _ = _ |- _ => apply fork_alloc_spec in X; refine (order_alloc _ _ _ _ _ _ O C _ R _ X) end; [|assumption].
    intros j T. apply (h_pid _ _ _ H j T).
  - assert (F : forking (s_doing s) p i) by (left; assumption). pose proof (o_fork _ _ O p i F) as Lt.
    assert (L : (i < length (s_table s))%nat) by (apply inside; destruct (forking_taken _ _ _ _ C F); assumption).
    apply (order_move (s_table s) (s_doing s)); auto.
    + intros j _. destruct (Nat.eq_dec i j) as [<-|N]; [rewrite update_eq by exact L|rewrite update_ne by exact N]; reflexivity.
    + intros j r. destruct (Nat.eq_dec i j) as [<-|N]; [rewrite update_eq by exact L|rewrite update_ne by exact N; apply (o_parent _ _ O)].
      cbn. congruence.
    + intros q j. rewrite forking_set by (rewrite (c_len _ _ _ C); exact Hp). destruct (Nat.eqb_spec p q) as [<-|]; [|auto].
      intros [E|E]; [discriminate|injection E as <-; exact F].
  - destruct (c_forkp _ _ _ C p i) as [F _]; [assumption|]. assert (L : (i < length (s_table s))%nat) by (apply inside; congruence).
    apply (order_update (s_table s) (s_doing s)); auto. intros q j; apply forking_sub; split; discriminate.
  - assert (Sd : list_set (s_doing s) p InUser = s_doing s).
    { match goal with X : doing s p = InUser |- _ => rewrite <- X end. apply set_same. }
    rewrite Sd in *. eapply order_exit; try eassumption. intros j T. apply (h_pid _ _ _ H j T).
  - assert (Fk : forall q j, forking (list_set (s_doing s) p match w with WaitSleeps => InWaitLocked | _ => InUser end) q j -> forking (s_doing s) q j).
    { intros q j. apply forking_sub. destruct w; split; discriminate. }
    assert (Or : order (resumed s p) (s_doing s)).
    { apply (order_calm (s_table s) (s_doing s)); auto; [|intros i; apply calm_resumed; assumption].
      apply (ctl_calm _ (s_table s)); [exact C|apply resumed_length|intros i; apply calm_resumed; assumption]. }
    match goal with X : wait_turn _ _ _ = _ |- _ => apply wait_turn_spec in X end. destruct w as [i pid st| |].
    + match goal with X : _ /\ _ |- _ => destruct X as (_ & Z & _ & _ & _ & ->) end.
      apply (order_free _ (s_doing s)); auto. apply inside. congruence.
    + subst t. apply (order_calm (resumed s p) (s_doing s)); auto. intros; apply calm_refl.
    + match goal with X : _ /\ _ |- _ => destruct X as [-> _] end.
      apply (order_calm (resumed s p) (s_doing s)); auto. intros; apply calm_refl.
  - unfold putProcessToSleep in *. apply (order_update (s_table s) (s_doing s)); auto. intros q j; apply forking_sub; split; discriminate.
  - unfold putProcessToSleep in *. apply (order_update (s_table s) (s_doing s)); auto. intros q j; apply forking_sub; split; discriminate.
  - apply (order_calm (s_table s) (s_doing s)); auto; [|intros q j; apply forking_sub; split; discriminate].
    intros i. apply calm_update; [assumption|apply calm_chan, R].
  - apply (order_calm (s_table s) (s_doing s)); auto. intros i. apply calm_wakeup.
  - apply (order_calm (s_table s) (s_doing s)); auto; [|intros q j; apply forking_sub; split; discriminate].
    intros i. apply calm_update; [assumption|split; auto].
  - match goal with X : kill _ _ = _ |- _ => apply kill_spec in X as (i & _ & _ & _ & _ & K) end.
    apply (order_calm (s_table s) (s_doing s)); auto.
Qed.

(** * Every reachable state *)

Lemma births_app e h : births h <= births (e ++ h).
Proof. induction e as [|[]]; cbn [app births]; lia. Qed.

Lemma start_hist : (initial < NPROC)%nat -> hist [Born 1] (s_table (start initial)) 2 /\ order (s_table (start initial)) (s_doing (start initial)).
Proof.
  intros Hi. assert (S : forall i, taken (proc_at (s_table (start initial)) i) -> i = initial).
  { intros i. rewrite start_table by exact Hi. destruct (Nat.eqb_spec i initial) as [->|]; [reflexivity|]. intros T. destruct (T eq_refl). }
  assert (I : proc_at (s_table (start initial)) initial = Process Runnable None false 0 1 None).
  { rewrite start_table, Nat.eqb_refl by exact Hi. reflexivity. }
  split; split; cbn [exits reaps map].
  - intros i T. rewrite (S i T), I. cbn. lia.
  - intros i j Ti Tj _. rewrite (S i Ti), (S j Tj). reflexivity.
  - constructor.
  - constructor.
  - intros x [].
  - intros x [].
  - intros i Z. assert (i = initial) as -> by (apply S; unfold taken; congruence). rewrite I in Z. discriminate.
  - intros pid st [].
  - intros i _ _ [].
  - rewrite I. reflexivity.
  - intros i r. rewrite start_table by exact Hi. destruct (i =? initial)%nat; discriminate.
  - intros p i [X|X]; unfold act, start in X; cbn [s_doing] in X; rewrite nth_repeat in X; discriminate.
Qed.

Lemma reach_all h s : (initial < NPROC)%nat -> reach initial h s -> births h < 2 ^ 32 - 1 ->
  hist h (s_table s) (s_next s) /\ s_next s = 1 + births h /\ order (s_table s) (s_doing s).
Proof.
  intros Hi R. induction R as [|h s e s' R IH St]; intros B.
  - destruct (start_hist Hi) as [H O]. auto.
  - pose proof (births_app e h). destruct IH as (H1 & N & O); [lia|]. pose proof (reach_ctl _ _ _ Hi R) as C.
    pose proof (births_nonneg h). destruct (step_hist _ _ _ h C ltac:(lia) St H1 N B) as [H2 N2].
    split; [exact H2|]. split; [exact N2|]. apply (step_order _ _ _ h C H1 St); [|exact O]. exact (step_ctl _ _ _ _ St C).
Qed.

(** [i] is the first process, or the child of a live one that descends from it. *)
Inductive descends (t : table) : nat -> Prop :=
| D_initial : descends t initial
| D_child i r : p_parent (proc_at t i) = Some r -> live (proc_at t r) -> descends t r -> descends t i.

Lemma tree_descends t d : ctl initial t d -> order t d -> (forall i, taken (proc_at t i) -> 1 <= p_pid (proc_at t i)) ->
  forall i, live (proc_at t i) \/ p_state (proc_at t i) = Zombie -> descends t i.
Proof.
  intros C O P. assert (G : forall n i, p_pid (proc_at t i) < Z.of_nat n -> live (proc_at t i) \/ p_state (proc_at t i) = Zombie -> descends t i).
  { induction n as [|n IH]; intros i L S.
    - assert (T : taken (proc_at t i)) by (destruct S as [S|S]; [apply (live_state _ S)|unfold taken; congruence]).
      specialize (P i T). lia.
    - destruct (Nat.eq_dec i initial) as [->|N]; [constructor|]. destruct (c_parent _ _ _ C i S N) as (r & Q & Lr & _).
      apply (D_child _ _ r Q Lr), IH; [|auto]. pose proof (o_parent _ _ O i r Q). lia. }
  intros i. apply (G (S (Z.to_nat (p_pid (proc_at t i))))). lia.
Qed.

Lemma wait_turn_finds p i t : p_parent (proc_at t i) = Some p -> p_state (proc_at t i) = Zombie ->
  exists j, wait_turn true p t = (Reap j (p_pid (proc_at t j)) (p_status (proc_at t j)), free j t).
Proof.
  intros P Z. unfold wait_turn. destruct (first_place _ t) as [j|] eqn:E; [exists j; reflexivity|].
  assert (L : (i < length t)%nat) by (apply inside; congruence). pose proof (first_place_none _ _ i E L) as N. cbn beta in N.
  rewrite (proj2 (is_parent_true p _) P), (proj2 (is_state_true Zombie _) Z) in N. discriminate.
Qed.
End History.

(** * What [wait] and [exit] promise *)

(** C5: In every reachable state the processes form a tree: the first process is live, and every live or exited
    process descends from it through live parents, each older than its child. *)
Theorem proc_tree initial h s (Hi : (initial < NPROC)%nat) (R : reach initial h s) (B : births h < 2 ^ 32 - 1) :
  live (proc_at (s_table s) initial) /\
  forall i, live (proc_at (s_table s) i) \/ p_state (proc_at (s_table s) i) = Zombie ->
    descends initial (s_table s) i /\
    forall r, p_parent (proc_at (s_table s) i) = Some r -> p_pid (proc_at (s_table s) r) < p_pid (proc_at (s_table s) i).
Proof.
  pose proof (reach_ctl _ _ _ Hi R) as C. destruct (reach_all _ _ _ Hi R B) as (H & _ & O). split; [apply C|].
  intros i S. split; [|intros r; apply (o_parent _ _ _ O)]. apply (tree_descends _ _ _ C O); [|exact S].
  intros j T. apply (h_pid _ _ _ H j T).
Qed.

(** C4: No wakeup of [wait] is lost: under every interleaving, a process asleep on a process is asleep on itself, in
    [wait], and has no child that has exited. *)
Theorem proc_wait_wakes initial h s p q (Hi : (initial < NPROC)%nat) (R : reach initial h s)
  (S : p_state (proc_at (s_table s) p) = Sleeping) (Ch : p_chan (proc_at (s_table s) p) = Some (OnProc q)) :
  q = p /\ doing s p = InWait /\
  forall i, p_parent (proc_at (s_table s) i) = Some p -> p_state (proc_at (s_table s) i) <> Zombie.
Proof.
  destruct (c_sleep _ _ _ (reach_ctl _ _ _ Hi R) p S) as [(A & X & N)|(_ & c & X)]; [|congruence].
  split; [congruence|]. split; [exact A|exact N].
Qed.

(** C3: Under every interleaving each process exits at most once, [wait] reports each process at most once, and with
    the status it exited with, and an exit that is not yet reported is in the table with its status, as the child of a live
    process whose next turn of [wait] reports an exit. *)
Theorem proc_exit_once initial h s (Hi : (initial < NPROC)%nat) (R : reach initial h s) (B : births h < 2 ^ 32 - 1) :
  NoDup (map fst (exits h)) /\ NoDup (map fst (reaps h)) /\ incl (reaps h) (exits h) /\
  forall pid st, In (pid, st) (exits h) -> In (pid, st) (reaps h) \/
    exists i r, p_state (proc_at (s_table s) i) = Zombie /\ p_pid (proc_at (s_table s) i) = pid /\ p_status (proc_at (s_table s) i) = st /\
      p_parent (proc_at (s_table s) i) = Some r /\ live (proc_at (s_table s) r) /\
      exists j, wait_turn true r (s_table s) =
        (Reap j (p_pid (proc_at (s_table s) j)) (p_status (proc_at (s_table s) j)), free j (s_table s)).
Proof.
  pose proof (reach_ctl _ _ _ Hi R) as C. destruct (reach_all _ _ _ Hi R B) as (H & _ & _).
  split; [apply H|]. split; [apply H|]. split; [apply H|]. intros pid st X.
  destruct (h_kept _ _ _ H pid st X) as [Y|(i & Z & P & S)]; [left; exact Y|right].
  destruct (c_parent _ _ _ C i (or_intror Z)) as (r & Q & L & _).
  { intros ->. apply (live_state _ (proj1 (c_init _ _ _ C))), Z. }
  exists i, r. repeat (split; [assumption|]). exact (wait_turn_finds r i _ Q Z).
Qed.

(** * What [kill] promises *)

Lemma first_place_ext f g t t' : length t = length t' -> (forall i, f (proc_at t i) = g (proc_at t' i)) -> first_place f t = first_place g t'.
Proof.
  intros L E. unfold first_place, places. rewrite L. induction (seq 0 (length t')) as [|i l IH]; cbn [find]; [reflexivity|].
  rewrite E, IH. reflexivity.
Qed.

(** [kill] of an id other than 0 sets the flag of the one process with this id, wakes it if it sleeps, and changes
    nothing else; it fails only if no process has the id. *)
Theorem kill_targets initial h s pid (Hi : (initial < NPROC)%nat) (R : reach initial h s) (B : births h < 2 ^ 32 - 1) (Pid : pid <> 0) :
  match kill pid (s_table s) with
  | Some t => exists i, taken (proc_at (s_table s) i) /\ p_pid (proc_at (s_table s) i) = pid /\
      (forall j, taken (proc_at (s_table s) j) -> p_pid (proc_at (s_table s) j) = pid -> j = i) /\
      p_killed (proc_at t i) = true /\ p_state (proc_at t i) <> Sleeping /\
      forall j, j <> i -> proc_at t j = proc_at (s_table s) j
  | None => forall i, taken (proc_at (s_table s) i) -> p_pid (proc_at (s_table s) i) <> pid
  end.
Proof.
  pose proof (reach_ctl _ _ _ Hi R) as C. destruct (reach_all _ _ _ Hi R B) as (H & _ & _).
  unfold kill. destruct (first_place _ _) as [i|] eqn:E.
  - apply first_place_some in E as [L E]. apply Z.eqb_eq in E.
    assert (T : taken (proc_at (s_table s) i)) by (intros U; destruct (c_free _ _ _ C i U); congruence).
    exists i. split; [exact T|]. split; [exact E|]. split; [|split; [|split]].
    + intros j Tj P. apply (h_inj _ _ _ H); congruence.
    + rewrite update_eq by exact L. destruct (is_state _ _); reflexivity.
    + rewrite update_eq by exact L. destruct (is_state Sleeping (proc_at (s_table s) i)) eqn:S; [discriminate|].
      intros X. cbn in X. apply not_true_iff_false in S. apply S, is_state_true, X.
    + intros j N. apply update_ne. auto.
  - intros i T P. assert (L : (i < length (s_table s))%nat) by (apply inside, T).
    pose proof (first_place_none _ _ i E L) as N. cbn beta in N. apply Z.eqb_neq in N. contradiction.
Qed.

(** [kill] of id 0 does not fail while a place of the table is free: it sets the flag of that place, and the next
    process that [fork] makes is born killed. *)
Theorem kill_zero_kills_next_fork initial h s t (Hi : (initial < NPROC)%nat) (R : reach initial h s) (B : births h < 2 ^ 32 - 1)
  (K : kill 0 (s_table s) = Some t) :
  exists i t', fork_alloc true (s_next s) t = Some (Some i, t') /\ p_pid (proc_at t' i) = s_next s /\
    p_killed (proc_at t' i) = true /\ ~ taken (proc_at (s_table s) i).
Proof.
  pose proof (reach_ctl _ _ _ Hi R) as C. destruct (reach_all _ _ _ Hi R B) as (H & _ & _).
  assert (Z0 : forall j, p_pid (proc_at (s_table s) j) = 0 -> p_state (proc_at (s_table s) j) = Unused).
  { intros j P. destruct (p_state (proc_at (s_table s) j)) eqn:S; [reflexivity|..];
      pose proof (h_pid _ _ _ H j ltac:(unfold taken; congruence)); lia. }
  unfold kill in K. destruct (first_place _ _) as [i|] eqn:E; [|discriminate]. injection K as <-.
  pose proof (first_place_some _ _ _ E) as [L P]. cbn beta in P. apply Z.eqb_eq in P. pose proof (Z0 i P) as U.
  assert (Ns : is_state Sleeping (proc_at (s_table s) i) = false) by (unfold is_state; rewrite U; reflexivity).
  set (t := update i _ (s_table s)).
  assert (Kx : p_killed (proc_at t i) = true) by (unfold t; rewrite update_eq, Ns by exact L; reflexivity).
  assert (Same : forall j, p_state (proc_at t j) = p_state (proc_at (s_table s) j)).
  { intros j. unfold t. destruct (Nat.eq_dec i j) as [<-|N]; [rewrite update_eq, Ns by exact L|rewrite update_ne by exact N]; reflexivity. }
  assert (F : first_place (is_state Unused) t = Some i).
  { rewrite <- E. apply first_place_ext; [apply update_length|]. intros j.
    destruct (is_state Unused (proc_at t j)) eqn:Uj.
    - apply is_state_true in Uj. rewrite Same in Uj. symmetry. apply Z.eqb_eq. apply (c_free _ _ _ C j Uj).
    - symmetry. apply Z.eqb_neq. intros Pj. apply Z0 in Pj. rewrite <- Same in Pj.
      apply (proj2 (is_state_true Unused _)) in Pj. congruence. }
  unfold fork_alloc, alloc. rewrite F. eexists. eexists. split; [reflexivity|].
  rewrite update_eq by (unfold t; rewrite update_length; exact L). split; [reflexivity|]. split; [exact Kx|]. unfold taken. tauto.
Qed.

(** * Runs *)

(** The steps of a run, to be evaluated. *)
Variant move : Type :=
| M_schedule (p : nat) | M_yield (p : nat) | M_fork (p : nat) | M_fork_parent (p : nat) | M_fork_run (p : nat)
| M_exit (p : nat) (status : Z) | M_wait (p : nat) | M_wait_sleep (p : nat) | M_kill (p : nat) (pid : Z).

Section Runs.
Variable initial : nat.

Definition running_b (s : sys) (p : nat) : bool := (p <? length (s_table s))%nat && is_state Running (proc_at (s_table s) p).
Definition unlocked_b (s : sys) : bool := forallb (fun a => match a with InWaitLocked => false | _ => true end) (s_doing s).

Definition take (s : sys) (m : move) : option (list event * sys) :=
  match m with
  | M_schedule p =>
      if (p <? length (s_table s))%nat && is_state Runnable (proc_at (s_table s) p)
      then Some ([], now s p (update p (set_state Running) (s_table s)) (doing s p)) else None
  | M_yield p => if running_b s p then Some ([], now s p (update p (set_state Runnable) (s_table s)) (doing s p)) else None
  | M_fork p =>
      match running_b s p, doing s p, fork_alloc true (s_next s) (s_table s) with
      | true, InUser, Some (Some i, t) =>
          Some ([Born (s_next s)], Sys t (u32 (s_next s + 1)) (list_set (list_set (s_doing s) p (InFork i)) i InUser))
      | _, _, _ => None
      end
  | M_fork_parent p =>
      match running_b s p && unlocked_b s, doing s p with
      | true, InFork i => Some ([], now s p (update i (set_parent (Some p)) (s_table s)) (InForkParent i))
      | _, _ => None
      end
  | M_fork_run p =>
      match running_b s p, doing s p with
      | true, InForkParent i => Some ([], now s p (update i (set_state Runnable) (s_table s)) InUser)
      | _, _ => None
      end
  | M_exit p st =>
      match running_b s p && unlocked_b s, doing s p, exit_ initial p st (s_table s) with
      | true, InUser, Some t => Some ([Exited (p_pid (proc_at (s_table s) p)) st], now s p t InUser)
      | _, _, _ => None
      end
  | M_wait p =>
      match running_b s p && unlocked_b s, doing s p with
      | true, (InUser | InWait) =>
          let '(w, t) := wait_turn true p (resumed s p) in
          Some (match w with Reap _ pid status => [Reaped p pid status] | _ => [] end,
            now s p t (match w with WaitSleeps => InWaitLocked | _ => InUser end))
      | _, _ => None
      end
  | M_wait_sleep p =>
      match running_b s p, doing s p with
      | true, InWaitLocked => Some ([], now s p (putProcessToSleep (OnProc p) p (s_table s)) InWait)
      | _, _ => None
      end
  | M_kill p pid =>
      match running_b s p, doing s p, kill pid (s_table s) with
      | true, InUser, Some t => Some ([], Sys t (s_next s) (s_doing s))
      | _, _, _ => None
      end
  end.

Lemma running_b_runs s p : running_b s p = true -> runs s p.
Proof. intros H. apply andb_prop in H as [L R]. split; [apply Nat.ltb_lt, L|apply is_state_true, R]. Qed.

Lemma unlocked_b_unlocked s : unlocked_b s = true -> unlocked s.
Proof.
  intros H q E. unfold doing in E. destruct (Nat.ltb_spec q (length (s_doing s))) as [L|L].
  - pose proof (proj1 (forallb_forall _ _) H _ (nth_In _ InUser L)) as X. rewrite E in X. discriminate.
  - rewrite nth_overflow in E by exact L. discriminate.
Qed.

Lemma take_step s m e s' : take s m = Some (e, s') -> step initial s e s'.
Proof.
  destruct m; cbn [take];
    repeat match goal with
    | |- context [running_b ?s ?p && unlocked_b ?s] => destruct (running_b s p && unlocked_b s) eqn:RU; [apply andb_prop in RU as [Ru Un]|]
    | |- context [running_b ?s ?p] => destruct (running_b s p) eqn:Ru
    end; try discriminate; try apply running_b_runs in Ru; try apply unlocked_b_unlocked in Un.
  - destruct ((p <? _)%nat && _) eqn:E; [|discriminate]. intros H. injection H as <- <-.
    apply andb_prop in E as [L E]. apply Nat.ltb_lt in L. apply is_state_true in E. constructor; assumption.
  - intros H. injection H as <- <-. constructor. exact Ru.
  - destruct (doing s p) eqn:D; try discriminate. destruct (fork_alloc _ _ _) as [[[i|] t]|] eqn:F; try discriminate.
    intros H. injection H as <- <-. econstructor; eassumption.
  - destruct (doing s p) eqn:D; try discriminate. intros H. injection H as <- <-. constructor; assumption.
  - destruct (doing s p) eqn:D; try discriminate. intros H. injection H as <- <-. constructor; assumption.
  - destruct (doing s p) eqn:D; try discriminate. destruct (exit_ _ _ _ _) as [t|] eqn:X; try discriminate.
    intros H. injection H as <- <-. constructor; assumption.
  - destruct (doing s p) eqn:D; try discriminate; destruct (wait_turn _ _ _) as [w t] eqn:W; intros H; injection H as <- <-;
      econstructor; try eassumption; auto.
  - destruct (doing s p) eqn:D; try discriminate. intros H. injection H as <- <-. constructor; assumption.
  - destruct (doing s p) eqn:D; try discriminate. destruct (kill _ _) as [t|] eqn:X; try discriminate.
    intros H. injection H as <- <-. econstructor; eassumption.
Qed.

(** [None] if a step is not possible. *)
Fixpoint play (ms : list move) (h : list event) (s : sys) : option (list event * sys) :=
  match ms with
  | [] => Some (h, s)
  | m :: ms => match take s m with Some (e, s') => play ms (e ++ h) s' | None => None end
  end.

Lemma play_reach ms : forall h s h' s', reach initial h s -> play ms h s = Some (h', s') -> reach initial h' s'.
Proof.
  induction ms as [|m ms IH]; intros h s h' s' R; cbn [play]; [intros H; injection H as <- <-; exact R|].
  destruct (take s m) as [[e s1]|] eqn:G; [|discriminate]. apply IH. econstructor; [exact R|exact (take_step _ _ _ _ G)].
Qed.

Definition result (ms : list move) : list event * sys :=
  match play ms [Born 1] (start initial) with Some r => r | None => ([Born 1], start initial) end.

Lemma result_reach ms : reach initial (fst (result ms)) (snd (result ms)).
Proof.
  unfold result. destruct (play ms _ _) as [[h s]|] eqn:P; cbn [fst snd]; [|constructor].
  exact (play_reach ms _ _ _ _ (R_start initial) P).
Qed.
End Runs.

(** The first process makes a child, which makes a child. *)
Definition family : list move :=
  [M_schedule 0; M_fork 0; M_fork_parent 0; M_fork_run 0; M_schedule 1; M_fork 1; M_fork_parent 1; M_fork_run 1; M_schedule 2].

(** A wakeup by [kill] can be lost: a process is killed after it has found itself not killed, and goes to sleep in
    [wait] nevertheless, while its child runs on. *)
Theorem kill_before_sleep_is_lost : exists h s p child, reach 0 h s /\
  p_state (proc_at (s_table s) p) = Sleeping /\ p_chan (proc_at (s_table s) p) = Some (OnProc p) /\
  p_killed (proc_at (s_table s) p) = true /\
  p_parent (proc_at (s_table s) child) = Some p /\ p_state (proc_at (s_table s) child) = Running.
Proof.
  set (ms := family ++ [M_wait 1; M_kill 2 2; M_wait_sleep 1]).
  exists (fst (result 0 ms)), (snd (result 0 ms)), 1%nat, 2%nat. split; [apply result_reach|]. vm_compute. repeat split; reflexivity.
Qed.

Definition exited : list event * sys := result 0 (family ++ [M_wait 1; M_wait_sleep 1; M_exit 2 7]).

Lemma proc_tree_witness : descends 0 (s_table (snd exited)) 2.
Proof.
  refine (proj1 (proj2 (proc_tree 0 (fst exited) (snd exited) _ _ _) 2%nat _));
    [apply Nat.ltb_lt; reflexivity|apply result_reach|vm_compute; reflexivity|right; vm_compute; reflexivity].
Defined.

Definition asleep : list event * sys := result 0 (family ++ [M_wait 1; M_wait_sleep 1]).

Lemma proc_wait_wakes_witness : doing (snd asleep) 1 = InWait.
Proof.
  refine (proj1 (proj2 (proc_wait_wakes 0 (fst asleep) (snd asleep) 1 1 _ _ _ _)));
    [apply Nat.ltb_lt; reflexivity|apply result_reach|vm_compute; reflexivity..].
Defined.

Lemma proc_exit_once_witness : exits (fst exited) = [(3, 7)] /\ reaps (fst exited) = [] /\
  exists i, p_state (proc_at (s_table (snd exited)) i) = Zombie /\ p_pid (proc_at (s_table (snd exited)) i) = 3.
Proof.
  split; [vm_compute; reflexivity|]. split; [vm_compute; reflexivity|].
  destruct (proc_exit_once 0 (fst exited) (snd exited)) as (_ & _ & _ & H); [apply Nat.ltb_lt; reflexivity|apply result_reach|vm_compute; reflexivity|].
  destruct (H 3 7) as [X|(i & r & Z & P & _)]; [vm_compute; left; reflexivity|vm_compute in X; destruct X|]. exists i. split; [exact Z|exact P].
Defined.

Lemma kill_targets_witness : match kill 2 (s_table (snd asleep)) with Some t => True | None => False end.
Proof.
  pose proof (kill_targets 0 (fst asleep) (snd asleep) 2) as H.
  destruct (kill 2 (s_table (snd asleep))) as [t|] eqn:E; [exact I|].
  refine (H _ _ _ _ 1%nat _ _); [apply Nat.ltb_lt; reflexivity|apply result_reach|vm_compute; reflexivity|discriminate|vm_compute; discriminate|vm_compute; reflexivity].
Defined.

Lemma kill_zero_kills_next_fork_witness : exists i t t', kill 0 (s_table (snd asleep)) = Some t /\
  fork_alloc true 4 t = Some (Some i, t') /\ p_killed (proc_at t' i) = true.
Proof.
  destruct (kill 0 (s_table (snd asleep))) as [t|] eqn:K; [|vm_compute in K; discriminate].
  destruct (kill_zero_kills_next_fork 0 (fst asleep) (snd asleep) t) as (i & t' & F & _ & X & _);
    [apply Nat.ltb_lt; reflexivity|apply result_reach|vm_compute; reflexivity|exact K|].
  exists i, t, t'. split; [reflexivity|]. split; [exact F|exact X].
Defined.
