(* ===== verification/KFile.v ===== *)
(** Open files and the calls that work on them: src/kernel/filesystem/file.zig,
    the ends of a pipe in pipe.zig, the references and locks of inode.zig, and the
    system calls of src/kernel/traps/sysfile.zig.

    A call is a program over atomic operations ([op]): what the code does while it
    holds the lock of the file table, of the inode table, of a pipe or of the log,
    or what only its own process can see.  Calls of different processes interleave
    between operations; every [defer] and [errdefer] is written out at the places
    where it runs.  What a directory holds, the type of an inode, whether memory can
    be had or copied to are answers from outside, one number for each operation. *)

From S2P Require Import Prelude.
From stdpp Require Import base list.

Local Open Scope Z_scope.

(** * Files, inodes and pipes *)

Definition NOFILE : nat := 16.
Definition NFILE : nat := 100.
Definition NINODE : nat := 50.
Definition max_device_count : Z := 10.

(** A pipe and an inode are named by their places below. *)
Variant fdata : Set :=
| FNone
| FPipe (p : nat)
| FInode (i : nat) (offset : Z)
| FDevice (i : nat) (major : Z).

Record file : Set := File { f_count : Z; is_readable : bool; is_writeable : bool; data : fdata }.

(** An entry of the inode table; [i_lock] is the process that holds its lock. *)
Record inode : Set := Inode { i_device : Z; i_number : Z; i_count : Z; i_lock : option nat }.

Record pipe_ends : Set := Ends { read_is_open : bool; write_is_open : bool }.

(** [outstanding] operations of the log; a pipe that is made gets the next place of [pipes]. *)
Record shared : Set := Shared { files : list file; inodes : list inode; pipes : list pipe_ends; outstanding : Z }.

(** What a process keeps: its open files and its directory. *)
Record local : Set := Local { openFiles : list (option nat); cwd : option nat }.

Definition set_files (l : list file) (s : shared) : shared := Shared l (inodes s) (pipes s) (outstanding s).
Definition set_inodes (l : list inode) (s : shared) : shared := Shared (files s) l (pipes s) (outstanding s).
Definition set_pipes (l : list pipe_ends) (s : shared) : shared := Shared (files s) (inodes s) l (outstanding s).
Definition set_outstanding (n : Z) (s : shared) : shared := Shared (files s) (inodes s) (pipes s) n.

Definition set_count (n : Z) (x : file) : file := File n (is_readable x) (is_writeable x) (data x).
Definition set_refs (n : Z) (y : inode) : inode := Inode (i_device y) (i_number y) n (i_lock y).
Definition set_lock (o : option nat) (y : inode) : inode := Inode (i_device y) (i_number y) (i_count y) o.

(** * Atomic operations *)

(** [disk_inode.type], with the major number of a device. *)
Variant itype : Set := TDirectory | TRegular | TDevice (major : Z).

Inductive op : Set -> Type :=
| OAsk : op Z                                         (* an answer from outside *)
| OFdGet (fd : nat) : op (option nat)
| OFdSet (fd : nat) (o : option nat) : op unit
| OCwd : op (option nat)
| OCwdSet (i : nat) : op unit
| OAlloc : op (option nat)                            (* File.alloc *)
| OSet (f : nat) (d : fdata) (r w : bool) : op unit   (* the fields of a new file *)
| ODup (f : nat) : op unit                            (* File.duplicate *)
| ODrop (f : nat) : op (option file)                  (* the part of File.close under the lock *)
| OData (f : nat) : op file                           (* the fields of a file *)
| OSeek (f : nat) (n : Z) : op unit                   (* offset += n *)
| OPipe : op (option nat)                             (* a page for a pipe *)
| OPipeClose (p : nat) (w : bool) : op unit           (* Pipe.close *)
| OGet (dev n : Z) : op nat                           (* Inode.get *)
| OLookup (i : nat) (name : list Z) : op (option nat) (* Directory.lookupChild *)
| ONew (i : nat) : op (option nat)                    (* Inode.alloc on the device of [i] *)
| OIdup (i : nat) : op unit                           (* Inode.duplicate *)
| OLock (i : nat) : op unit                           (* Inode.lock *)
| ORelease (i : nat) : op unit                        (* Inode.release *)
| OType (i : nat) : op itype
| ODevice (i : nat) : op Z                            (* filesystem_device *)
| OPut (i : nat) : op bool                            (* Inode.put, up to the truncation if there is one *)
| OPutEnd (i : nat) : op unit                         (* and after it *)
| OBegin : op unit                                    (* beginOperation *)
| OEnd : op unit.                                     (* endOperation *)

Variant stop : Set :=
| NoInodes             (* no inodes available *)
| Broken.              (* any other panic, or an illegal operation *)

(** [Waits]: the operation cannot go on now.  [Never]: there is no such answer. *)
Variant outcome (X : Set) : Set :=
| Done (x : X) (l : local) (s : shared)
| Waits
| Never
| Stops (w : stop).
Arguments Done {X}. Arguments Waits {X}. Arguments Never {X}. Arguments Stops {X}.

(** A packed struct: the major number 2 in the low four bits, the minor number 1 above. *)
Definition root_fs_device : Z := Z.lor 2 (Z.shiftl 1 4).
Definition dot : list Z := [46].
Definition dotdot : list Z := [46; 46].
Definition dots (name : list Z) : bool := bool_decide (name = dot) || bool_decide (name = dotdot).

Definition first_where {A} (f : A -> bool) (l : list A) : option nat :=
  find (fun i => match l !! i with Some x => f x | None => false end) (seq 0 (length l)).

(** [get]: the entry of the inode, or the first free one. *)
Definition get (dev n : Z) (l : local) (s : shared) : outcome nat :=
  match first_where (fun y => (0 <? i_count y) && (i_device y =? dev) && (i_number y =? n)) (inodes s) with
  | Some i =>
      match inodes s !! i with
      | Some y => Done i l (set_inodes (<[i := set_refs (i_count y + 1) y]> (inodes s)) s)
      | None => Never
      end
  | None =>
      match first_where (fun y => i_count y =? 0) (inodes s) with
      | Some i =>
          match inodes s !! i with
          | Some y => Done i l (set_inodes (<[i := Inode dev n 1 (i_lock y)]> (inodes s)) s)
          | None => Never
          end
      | None => Stops NoInodes
      end
  end.

Definition lift_get (r : outcome nat) : outcome (option nat) :=
  match r with Done i l s => Done (Some i) l s | Waits => Waits | Never => Never | Stops w => Stops w end.

Definition seek (n : Z) (x : file) : file :=
  match data x with
  | FInode i off => File (f_count x) (is_readable x) (is_writeable x) (FInode i (off + n))
  | _ => x
  end.

(** Operation [o] of process [p], with answer [a].  An entry of the list of names
    of a directory leads back to the directory only if it is [.] or [..], and an
    inode that is free on the disk is not the directory that asks for it. *)
Definition exec {X : Set} (o : op X) (p : nat) (a : Z) (l : local) (s : shared) : outcome X :=
  match o in op X return outcome X with
  | OAsk => Done a l s
  | OFdGet fd => Done (match openFiles l !! fd with Some o => o | None => None end) l s
  | OFdSet fd o => Done tt (Local (<[fd := o]> (openFiles l)) (cwd l)) s
  | OCwd => Done (cwd l) l s
  | OCwdSet i => Done tt (Local (openFiles l) (Some i)) s
  | OAlloc =>
      match first_where (fun x => f_count x =? 0) (files s) with
      | Some f =>
          match files s !! f with
          | Some x => Done (Some f) l (set_files (<[f := set_count 1 x]> (files s)) s)
          | None => Never
          end
      | None => Done None l s
      end
  | OSet f d r w =>
      match files s !! f with
      | Some x => Done tt l (set_files (<[f := File (f_count x) r w d]> (files s)) s)
      | None => Stops Broken
      end
  | ODup f =>
      match files s !! f with
      | Some x => if f_count x <? 1 then Stops Broken else Done tt l (set_files (<[f := set_count (f_count x + 1) x]> (files s)) s)
      | None => Stops Broken
      end
  | ODrop f =>
      match files s !! f with
      | Some x =>
          if f_count x <? 1 then Stops Broken
          else if 0 <? f_count x - 1 then Done None l (set_files (<[f := set_count (f_count x - 1) x]> (files s)) s)
          else Done (Some x) l (set_files (<[f := File 0 (is_readable x) (is_writeable x) FNone]> (files s)) s)
      | None => Stops Broken
      end
  | OData f => match files s !! f with Some x => Done x l s | None => Stops Broken end
  | OSeek f n =>
      match files s !! f with Some x => Done tt l (set_files (<[f := seek n x]> (files s)) s) | None => Stops Broken end
  | OPipe => if a =? 0 then Done None l s else Done (Some (length (pipes s))) l (set_pipes (pipes s ++ [Ends true true]) s)
  | OPipeClose q w =>
      match pipes s !! q with
      | Some e =>
          if (if w then write_is_open e else read_is_open e)
          then Done tt l (set_pipes (<[q := if w then Ends (read_is_open e) false else Ends false (write_is_open e)]> (pipes s)) s)
          else Stops Broken
      | None => Stops Broken
      end
  | OGet dev n => get dev n l s
  | OLookup i name =>
      match inodes s !! i with
      | Some y => if a =? 0 then Done None l s else if (a =? i_number y) && negb (dots name) then Never else lift_get (get (i_device y) a l s)
      | None => Stops Broken
      end
  | ONew i =>
      match inodes s !! i with
      | Some y => if a =? 0 then Done None l s else if a =? i_number y then Never else lift_get (get (i_device y) a l s)
      | None => Stops Broken
      end
  | OIdup i =>
      match inodes s !! i with Some y => Done tt l (set_inodes (<[i := set_refs (i_count y + 1) y]> (inodes s)) s) | None => Stops Broken end
  | OLock i =>
      match inodes s !! i with
      | Some y =>
          if i_count y <? 1 then Stops Broken
          else match i_lock y with Some _ => Waits | None => Done tt l (set_inodes (<[i := set_lock (Some p) y]> (inodes s)) s) end
      | None => Stops Broken
      end
  | ORelease i =>
      match inodes s !! i with
      | Some y =>
          if negb (bool_decide (i_lock y = Some p)) || (i_count y <? 1) then Stops Broken
          else Done tt l (set_inodes (<[i := set_lock None y]> (inodes s)) s)
      | None => Stops Broken
      end
  | OType i =>
      match inodes s !! i with
      | Some _ => Done (if a =? 1 then TDirectory else if a =? 2 then TRegular else TDevice (a - 3)) l s
      | None => Stops Broken
      end
  | ODevice i => match inodes s !! i with Some y => Done (i_device y) l s | None => Stops Broken end
  | OPut i =>
      match inodes s !! i with
      | Some y =>
          if (i_count y =? 1) && negb (a =? 0)
          then match i_lock y with Some _ => Waits | None => Done true l (set_inodes (<[i := set_lock (Some p) y]> (inodes s)) s) end
          else if i_count y <? 1 then Stops Broken
          else Done false l (set_inodes (<[i := set_refs (i_count y - 1) y]> (inodes s)) s)
      | None => Stops Broken
      end
  | OPutEnd i =>
      match inodes s !! i with
      | Some y => if i_count y <? 1 then Stops Broken else Done tt l (set_inodes (<[i := Inode (i_device y) (i_number y) (i_count y - 1) None]> (inodes s)) s)
      | None => Stops Broken
      end
  | OBegin => if a =? 0 then Waits else Done tt l (set_outstanding (outstanding s + 1) s)
  | OEnd => if outstanding s <? 1 then Stops Broken else Done tt l (set_outstanding (outstanding s - 1) s)
  end.

(** * Programs *)

Inductive code (A : Type) : Type :=
| Ret (a : A)
| Act (X : Set) (o : op X) (k : X -> code A).
Arguments Ret {A}. Arguments Act {A X}.

Fixpoint bind {A B} (f : A -> code B) (c : code A) : code B :=
  match c with
  | Ret a => f a
  | Act o k => Act o (fun x => bind f (k x))
  end.
#[export] Instance code_ret : MRet code := fun A a => Ret a.
#[export] Instance code_bind : MBind code := fun A B f c => bind f c.

Definition act {X : Set} (o : op X) : code X := Act o (fun x => Ret x).
Definition ask : code bool := a ← act OAsk; mret (a =? 0).

(** ** inode.zig *)

(** The truncation and the freeing on the disk lie between the two operations. *)
Definition put (i : nat) : code unit :=
  b ← act (OPut i);
  if b : bool then act (OPutEnd i) else mret tt.

Definition releasePut (i : nat) : code unit := act (ORelease i);; put i.

(** [skipPathElement]: the next name and what follows it. *)
Definition slash : Z := 47.
Fixpoint skip_slashes (path : list Z) : list Z :=
  match path with c :: path' => if c =? slash then skip_slashes path' else path | [] => [] end.
Fixpoint split_slash (path : list Z) : list Z * list Z :=
  match path with
  | [] => ([], [])
  | c :: path' => if c =? slash then ([], path) else let '(name, rest) := split_slash path' in (c :: name, rest)
  end.
Definition skipPathElement (path : list Z) : option (list Z * list Z) :=
  match skip_slashes path with
  | [] => None
  | p => let '(name, rest) := split_slash p in Some (name, skip_slashes rest)
  end.

(** The names the loop of [resolvePathHelper] goes through, each with whether it is the last. *)
Fixpoint elements (fuel : nat) (path : list Z) : list (list Z * bool) :=
  match fuel with
  | O => []
  | S fuel =>
      match skipPathElement path with
      | None => []
      | Some (name, rest) => (name, bool_decide (rest = [])) :: elements fuel rest
      end
  end.

Fixpoint resolve_loop (returnParent : bool) (es : list (list Z * bool)) (cur : nat) : code (option (nat * list Z)) :=
  match es with
  | [] => if returnParent then put cur;; mret None else mret (Some (cur, []))
  | (name, last) :: es =>
      act (OLock cur);;
      t ← act (OType cur);
      match t with
      | TDirectory =>
          if returnParent && last then act (ORelease cur);; mret (Some (cur, name))
          else
            child ← act (OLookup cur name);
            releasePut cur;;
            match child with Some i => resolve_loop returnParent es i | None => mret None end
      | _ => releasePut cur;; mret None
      end
  end.

Definition resolvePathHelper (path : list Z) (returnParent : bool) : code (option (nat * list Z)) :=
  match path with
  | [] => mret None
  | c :: _ =>
      cur ← (if c =? slash then i ← act (OGet root_fs_device 1); mret (Some i)
             else d ← act OCwd; match d with Some i => act (OIdup i);; mret (Some i) | None => mret None end);
      match cur with
      | Some cur => resolve_loop returnParent (elements (S (length path)) path) cur
      | None => mret None
      end
  end.

Definition resolvePath (path : list Z) : code (option nat) :=
  r ← resolvePathHelper path false; Ret (match r with Some (i, _) => Some i | None => None end).
Definition resolvePathParent (path : list Z) : code (option (nat * list Z)) := resolvePathHelper path true.

(** ** directory.zig *)

(** [linkEntry]; true if the entry was written.  Writing it may fail. *)
Definition linkEntry (dir : nat) (name : list Z) : code bool :=
  if (27 <? length name)%nat then Ret false
  else
    existing ← act (OLookup dir name);
    match existing with
    | Some i => put i;; Ret false
    | None => ask
    end.

(** ** file.zig *)

Definition close (f : nat) : code unit :=
  r ← act (ODrop f);
  match r with
  | None => Ret tt
  | Some closed_file =>
      match data closed_file with
      | FPipe p => act (OPipeClose p (is_writeable closed_file))
      | FInode i _ | FDevice i _ => act OBegin;; put i;; act OEnd
      | FNone => Ret tt
      end
  end.

(** [getStatus]; the copy to the process may fail. *)
Definition getStatus (f : nat) : code bool :=
  x ← act (OData f);
  match data x with
  | FInode i _ | FDevice i _ => act (OLock i);; act (ORelease i);; ask
  | _ => Ret false
  end.

(** Reading from a pipe, a device or an inode gives a number, or fails (a negative one). *)
Definition transfer : code (option Z) := a ← act OAsk; Ret (if a <? 0 then None else Some a).

Definition read (f : nat) (count : Z) : code (option Z) :=
  x ← act (OData f);
  if negb (is_readable x) then Ret None
  else match data x with
  | FPipe _ => transfer
  | FDevice _ major => if max_device_count <=? major then Ret None else transfer
  | FInode i _ =>
      act (OLock i);;
      r ← transfer;
      match r with
      | Some n => act (OSeek f n);; act (ORelease i);; Ret (Some n)
      | None => act (ORelease i);; Ret None
      end
  | FNone => Ret None
  end.

(** [max_bytes], and the pieces [write] cuts what it is given into. *)
Definition max_bytes : Z := (10 - 1 - 1 - 2) / 2 * 1024.
Definition pieces (count : Z) : list Z :=
  repeat max_bytes (Z.to_nat (count / max_bytes)) ++ (if count mod max_bytes =? 0 then [] else [count mod max_bytes]).

Fixpoint write_loop (f i : nat) (l : list Z) : code bool :=
  match l with
  | [] => Ret true
  | bytes_to_write :: l =>
      act OBegin;;
      act (OLock i);;
      r ← transfer;
      match r with
      | Some n => act (OSeek f n);; act (ORelease i);; act OEnd;; if n =? bytes_to_write then write_loop f i l else Ret false
      | None => act (ORelease i);; act OEnd;; Ret false
      end
  end.

Definition write (f : nat) (count : Z) : code (option Z) :=
  x ← act (OData f);
  if negb (is_writeable x) then Ret None
  else match data x with
  | FPipe _ => transfer
  | FDevice _ major => if max_device_count <=? major then Ret None else transfer
  | FInode i _ => ok ← write_loop f i (pieces count); Ret (if ok : bool then Some count else None)
  | FNone => Ret None
  end.

(** ** sysargs.zig *)

Definition getFile (fd : Z) : code (option nat) :=
  if (fd <? 0) || (Z.of_nat NOFILE <=? fd) then Ret None else act (OFdGet (Z.to_nat fd)).

Fixpoint allocate_from (fds : list nat) (f : nat) : code (option nat) :=
  match fds with
  | [] => Ret None
  | fd :: fds =>
      o ← act (OFdGet fd);
      match o with
      | None => act (OFdSet fd (Some f));; Ret (Some fd)
      | Some _ => allocate_from fds f
      end
  end.
Definition fileDescriptorAllocate (f : nat) : code (option nat) := allocate_from (seq 0 NOFILE) f.

(** ** pipe.zig *)

Definition alloc : code (option (nat * nat)) :=
  r ← act OAlloc;
  match r with
  | None => Ret None
  | Some read_file =>
      w ← act OAlloc;
      match w with
      | None => close read_file;; Ret None
      | Some write_file =>
          page ← act OPipe;
          match page with
          | None => close write_file;; close read_file;; Ret None
          | Some p => act (OSet read_file (FPipe p) true false);; act (OSet write_file (FPipe p) false true);; Ret (Some (read_file, write_file))
          end
      end
  end.

(** * System calls

    The result is what the call returns, or [None] for -1.  The arguments are given as
    values: a null address or a path that cannot be fetched ends a call with -1
    before it does anything. *)

Definition sys_dup (fd : Z) : code (option Z) :=
  o ← getFile fd;
  match o with
  | None => Ret None
  | Some f =>
      r ← fileDescriptorAllocate f;
      match r with
      | None => Ret None
      | Some n => act (ODup f);; Ret (Some (Z.of_nat n))
      end
  end.

Definition sys_close (fd : Z) : code (option Z) :=
  o ← getFile fd;
  match o with
  | None => Ret None
  | Some f => act (OFdSet (Z.to_nat fd) None);; close f;; Ret (Some 0)
  end.

Definition sys_read (fd count : Z) : code (option Z) :=
  o ← getFile fd; match o with None => Ret None | Some f => read f count end.
Definition sys_write (fd count : Z) : code (option Z) :=
  o ← getFile fd; match o with None => Ret None | Some f => write f count end.
Definition sys_fstat (fd : Z) : code (option Z) :=
  o ← getFile fd;
  match o with None => Ret None | Some f => ok ← getStatus f; Ret (if ok : bool then Some 0 else None) end.

Definition sys_pipe : code (option Z) :=
  r ← alloc;
  match r with
  | None => Ret None
  | Some (readFile, writeFile) =>
      a ← fileDescriptorAllocate readFile;
      match a with
      | None => close readFile;; close writeFile;; Ret None
      | Some fd0 =>
          b ← fileDescriptorAllocate writeFile;
          match b with
          | None => act (OFdSet fd0 None);; close readFile;; close writeFile;; Ret None
          | Some fd1 =>
              copied ← ask;
              if copied : bool then Ret (Some 0)
              else act (OFdSet fd1 None);; act (OFdSet fd0 None);; close readFile;; close writeFile;; Ret None
          end
      end
  end.

(** [create]: the inode, locked. *)
Definition create (path : list Z) (kind : itype) : code (option nat) :=
  r ← resolvePathParent path;
  match r with
  | None => Ret None
  | Some (parent, name) =>
      act (OLock parent);;
      child ← act (OLookup parent name);
      match child with
      | Some i =>
          act (OLock i);;
          t ← act (OType i);
          match kind, t with
          | TRegular, (TRegular | TDevice _) => releasePut parent;; Ret (Some i)
          | _, _ => releasePut i;; releasePut parent;; Ret None
          end
      | None =>
          n ← act (ONew parent);
          match n with
          | None => releasePut parent;; Ret None
          | Some i =>
              act (OLock i);;
              linked ← (match kind with
                        | TDirectory => a ← linkEntry i dot; if a : bool then linkEntry i dotdot else Ret false
                        | _ => Ret true
                        end);
              if linked : bool then
                entered ← linkEntry parent name;
                if entered : bool then releasePut parent;; Ret (Some i)
                else releasePut i;; releasePut parent;; Ret None
              else releasePut i;; releasePut parent;; Ret None
          end
      end
  end.

(** [OpenMode.fromUsize]: the access mode with the bits for creation and truncation. *)
Variant access : Type := read_only | write_only | read_write.
Record OpenMode : Type := Mode { m_access : access; m_create : bool; m_trunc : bool }.
Definition isWritable (a : access) : bool := match a with read_only => false | _ => true end.
Definition isReadable (a : access) : bool := match a with write_only => false | _ => true end.
Definition fromUsize (input : Z) : option OpenMode :=
  if negb (Z.shiftr input 11 =? 0) then None
  else match Z.land input 3 with
  | 0 => Some (Mode read_only (Z.testbit input 9) (Z.testbit input 10))
  | 1 => Some (Mode write_only (Z.testbit input 9) (Z.testbit input 10))
  | 2 => Some (Mode read_write (Z.testbit input 9) (Z.testbit input 10))
  | _ => None
  end.

(** The inode [open] works on, locked. *)
Definition open_inode (path : list Z) (m : OpenMode) : code (option nat) :=
  if m_create m then create path TRegular
  else
    r ← resolvePath path;
    match r with
    | None => Ret None
    | Some i =>
        act (OLock i);;
        t ← act (OType i);
        match t, m_access m with
        | TDirectory, (write_only | read_write) => releasePut i;; Ret None
        | _, _ => Ret (Some i)
        end
    end.

(** From there on: [file.close] comes first when there is no descriptor left,
    before the inode is released and put. *)
Definition open_file (i : nat) (m : OpenMode) : code (option Z) :=
  t ← act (OType i);
  if (match t with TDevice major => max_device_count <=? major | _ => false end)
  then act (ORelease i);; put i;; Ret None
  else
    o ← act OAlloc;
    match o with
    | None => act (ORelease i);; put i;; Ret None
    | Some f =>
        act (OSet f (match t with TDevice major => FDevice i major | _ => FInode i 0 end) (isReadable (m_access m)) (isWritable (m_access m)));;
        r ← fileDescriptorAllocate f;
        match r with
        | Some fd => act (ORelease i);; Ret (Some (Z.of_nat fd))
        | None => close f;; act (ORelease i);; put i;; Ret None
        end
    end.

Definition sys_open (path : list Z) (mode : Z) : code (option Z) :=
  match fromUsize mode with
  | None => Ret None
  | Some m =>
      act OBegin;;
      o ← open_inode path m;
      match o with
      | None => act OEnd;; Ret None
      | Some i => r ← open_file i m; act OEnd;; Ret r
      end
  end.

Definition sys_mkdir (path : list Z) : code (option Z) :=
  act OBegin;;
  o ← create path TDirectory;
  match o with
  | None => act OEnd;; Ret None
  | Some i => releasePut i;; act OEnd;; Ret (Some 0)
  end.

Definition sys_mknod (path : list Z) (major minor : Z) : code (option Z) :=
  if (max_device_count <=? major) || (2 ^ 28 - 1 <=? minor) then Ret None
  else
    act OBegin;;
    o ← create path (TDevice major);
    match o with
    | None => act OEnd;; Ret None
    | Some i => releasePut i;; act OEnd;; Ret (Some 0)
    end.

(** [link] after the count of links has gone up; true if the entry was made. *)
Definition link_entry (i : nat) (new : list Z) : code bool :=
  r ← resolvePathParent new;
  match r with
  | None => Ret false
  | Some (dir, name) =>
      act (OLock dir);;
      d ← act (ODevice dir);
      e ← act (ODevice i);
      if negb (d =? e) then releasePut dir;; Ret false
      else ok ← linkEntry dir name; releasePut dir;; Ret ok
  end.

Definition sys_link (old new : list Z) : code (option Z) :=
  act OBegin;;
  o ← resolvePath old;
  match o with
  | None => act OEnd;; Ret None
  | Some i =>
      act (OLock i);;
      t ← act (OType i);
      match t with
      | TDirectory => act (ORelease i);; put i;; act OEnd;; Ret None
      | _ =>
          act (ORelease i);;
          ok ← link_entry i new;
          if ok : bool then put i;; act OEnd;; Ret (Some 0)
          else act (OLock i);; act (ORelease i);; put i;; act OEnd;; Ret None
      end
  end.

Definition sys_unlink (path : list Z) : code (option Z) :=
  act OBegin;;
  r ← resolvePathParent path;
  match r with
  | None => act OEnd;; Ret None
  | Some (dir, name) =>
      act (OLock dir);;
      if dots name then releasePut dir;; act OEnd;; Ret None
      else
        child ← act (OLookup dir name);
        match child with
        | None => releasePut dir;; act OEnd;; Ret None
        | Some i =>
            act (OLock i);;
            removed ← ask;
            releasePut i;; releasePut dir;; act OEnd;; Ret (if removed : bool then Some 0 else None)
        end
  end.

Definition sys_chdir (path : list Z) : code (option Z) :=
  act OBegin;;
  o ← resolvePath path;
  match o with
  | None => act OEnd;; Ret None
  | Some i =>
      act (OLock i);;
      t ← act (OType i);
      match t with
      | TDirectory =>
          act (ORelease i);;
          d ← act OCwd;
          match d with Some d => put d | None => Ret tt end;;
          act (OCwdSet i);; act OEnd;; Ret (Some 0)
      | _ => act (ORelease i);; put i;; act OEnd;; Ret None
      end
  end.

(** ** process.zig *)

(** The open files and the directory [fork] gives to the child. *)
Fixpoint duplicate_from (fds : list nat) : code (list (option nat)) :=
  match fds with
  | [] => Ret []
  | fd :: fds =>
      o ← act (OFdGet fd);
      match o with Some f => act (ODup f) | None => Ret tt end;;
      l ← duplicate_from fds;
      Ret (o :: l)
  end.
Definition fork_files : code local :=
  l ← duplicate_from (seq 0 NOFILE);
  d ← act OCwd;
  match d with Some i => act (OIdup i) | None => Ret tt end;;
  Ret (Local l d).

(** What [exit] gives up. *)
Fixpoint close_from (fds : list nat) : code unit :=
  match fds with
  | [] => Ret tt
  | fd :: fds =>
      o ← act (OFdGet fd);
      match o with Some f => close f;; act (OFdSet fd None) | None => Ret tt end;;
      close_from fds
  end.
Definition exit_files : code unit :=
  close_from (seq 0 NOFILE);;
  act OBegin;;
  d ← act OCwd;
  match d with Some i => put i | None => Ret tt end;;
  act OEnd.

(** * All processes *)

(** Whether the last name of a path is neither [.] nor [..]. *)
Definition plain (path : list Z) : bool :=
  forallb (fun e => negb (snd e && dots (fst e))) (elements (S (length path)) path).

Variant call : Type :=
| SDup (fd : Z) | SClose (fd : Z) | SRead (fd n : Z) | SWrite (fd n : Z) | SFstat (fd : Z)
| SOpen (path : list Z) (mode : Z) | SPipe | SLink (old new : list Z) | SUnlink (path : list Z)
| SMkdir (path : list Z) | SMknod (path : list Z) (major minor : Z) | SChdir (path : list Z) | SFork | SExit.

Variant reply : Type := RNum (r : option Z) | RFork (child : local) | RExit.

Definition num (m : code (option Z)) : code reply := r ← m; Ret (RNum r).
Definition run_call (c : call) : code reply :=
  match c with
  | SDup fd => num (sys_dup fd)
  | SClose fd => num (sys_close fd)
  | SRead fd n => num (sys_read fd n)
  | SWrite fd n => num (sys_write fd n)
  | SFstat fd => num (sys_fstat fd)
  | SOpen path mode => num (sys_open path mode)
  | SPipe => num sys_pipe
  | SLink old new => num (sys_link old new)
  | SUnlink path => num (sys_unlink path)
  | SMkdir path => num (sys_mkdir path)
  | SMknod path major minor => num (sys_mknod path major minor)
  | SChdir path => num (sys_chdir path)
  | SFork => child ← fork_files; Ret (RFork child)
  | SExit => exit_files;; Ret RExit
  end.

(** A process in user mode has no [t_code]; a free place has no directory. *)
Record thread : Type := Thread { t_local : local; t_code : option (code reply) }.
Record world : Type := World { w_shared : shared; w_threads : list thread }.
Definition free_thread : thread := Thread (Local (repeat None NOFILE) None) None.

(** Steps of a world where a process makes only calls [ok]. *)
Inductive wstep (ok : local -> call -> Prop) : world -> world -> Prop :=
| W_call s ts p l c : ts !! p = Some (Thread l None) -> cwd l <> None -> ok l c ->
    wstep ok (World s ts) (World s (<[p := Thread l (Some (run_call c))]> ts))
| W_act s ts p l X (o : op X) k a x l' s' : ts !! p = Some (Thread l (Some (Act o k))) -> exec o p a l s = Done x l' s' ->
    wstep ok (World s ts) (World s' (<[p := Thread l' (Some (k x))]> ts))
| W_ret s ts p l r : ts !! p = Some (Thread l (Some (Ret (RNum r)))) -> wstep ok (World s ts) (World s (<[p := Thread l None]> ts))
| W_fork s ts p l child c : ts !! p = Some (Thread l (Some (Ret (RFork child)))) -> ts !! c = Some free_thread ->
    wstep ok (World s ts) (World s (<[c := Thread child None]> (<[p := Thread l None]> ts)))
| W_exit s ts p l : ts !! p = Some (Thread l (Some (Ret RExit))) -> wstep ok (World s ts) (World s (<[p := free_thread]> ts)).

(** The first process has the root directory. *)
Definition boot : world :=
  World (Shared (repeat (File 0 false false FNone) NFILE)
           (Inode root_fs_device 1 1 None :: repeat (Inode 0 0 0 None) (NINODE - 1)) [] 0)
    (Thread (Local (repeat None NOFILE) (Some 0%nat)) None :: repeat free_thread 63).

Inductive wreach (ok : local -> call -> Prop) : world -> Prop :=
| WR_boot : wreach ok boot
| WR_step w w' : wreach ok w -> wstep ok w w' -> wreach ok w'.

(** A process that leaves a descriptor free for [open], and, if it is [strict], makes
    no [.] and no [..]. *)
Definition roomy (l : local) (c : call) : Prop := match c with SOpen _ _ => exists fd, openFiles l !! fd = Some None | _ => True end.
Definition makes (c : call) : option (list Z) :=
  match c with
  | SOpen path mode => match fromUsize mode with Some m => if m_create m then Some path else None | None => None end
  | SMkdir path | SMknod path _ _ => Some path
  | _ => None
  end.
Definition careful (strict : Prop) (l : local) (c : call) : Prop :=
  roomy l c /\ (strict -> match makes c with Some path => plain path = true | None => True end).
