(* ===== verification/KFileSpec.v ===== *)
(** A type system for the calls on files, and its soundness under every
    interleaving.

    A call owns what it must give back: a reference to a file or an inode, an end
    of a pipe, a lock, an operation of the log.  [rule] says what an operation
    takes and gives; [typed] carries that through a program.  If every process runs
    a typed program, then no count in the tables is ever wrong. *)

From S2P Require Import Prelude.
From stdpp Require Import base list.
From S2P Require Import KFile.

Local Open Scope Z_scope.

(** * What is owned *)

Variant kind : Set := KPipe (p : nat) (w : bool) | KInode (i : nat) | KDevice (i : nat).

Variant token : Set :=
| TFile (f : nat) (k : kind)   (* a reference to an open file *)
| TFresh (f : nat)             (* a file just allocated, with nothing in it *)
| TInode (i : nat)             (* a reference to an inode *)
| TPipe (p : nat) (w : bool)   (* an end of a pipe *)
| TLock (i p : nat)            (* the lock of an inode, held by process [p] *)
| TOp.                         (* an operation of the log *)

Definition kind_of (x : file) : option kind :=
  match data x with
  | FNone => None
  | FPipe p => Some (KPipe p (is_writeable x))
  | FInode i _ => Some (KInode i)
  | FDevice i _ => Some (KDevice i)
  end.

(** What a file of this kind holds on to. *)
Definition res (k : kind) : token := match k with KPipe p w => TPipe p w | KInode i | KDevice i => TInode i end.
Definition held_by (x : file) : list token := match kind_of x with Some k => [res k] | None => [] end.
Definition held_by_files (s : shared) : list token := flat_map held_by (files s).

Definition on_file (f : nat) (t : token) : bool := match t with TFile g _ | TFresh g => (g =? f)%nat | _ => false end.
Definition on_inode (i : nat) (t : token) : bool := match t with TInode j => (j =? i)%nat | _ => false end.
Definition on_pipe (p : nat) (w : bool) (t : token) : bool := match t with TPipe q v => (q =? p)%nat && Bool.eqb v w | _ => false end.
Definition on_lock (i p : nat) (t : token) : bool := match t with TLock j q => (j =? i)%nat && (q =? p)%nat | _ => false end.
Definition on_op (t : token) : bool := match t with TOp => true | _ => false end.

Fixpoint count (P : token -> bool) (l : list token) : Z :=
  match l with [] => 0 | t :: l => (if P t then 1 else 0) + count P l end.

Lemma count_app P l l' : count P (l ++ l') = count P l + count P l'.
Proof. induction l as [|t l IH]; cbn [count app]; [reflexivity|]. rewrite IH. lia. Qed.
Lemma count_nonneg P l : 0 <= count P l.
Proof. induction l as [|t l IH]; cbn [count]; [lia|]. destruct (P t); lia. Qed.
#[export] Instance count_perm P : Proper ((≡ₚ) ==> eq) (count P).
Proof. intros l l' H. induction H; cbn [count]; lia. Qed.
Lemma count_in P l t : t ∈ l -> P t = true -> 1 <= count P l.
Proof.
  intros H E. apply list_elem_of_split in H as (l1 & l2 & ->). rewrite count_app. cbn [count]. rewrite E.
  pose proof (count_nonneg P l1). pose proof (count_nonneg P l2). lia.
Qed.
Lemma count_pos P l : 1 <= count P l -> exists t, t ∈ l /\ P t = true.
Proof.
  induction l as [|t l IH]; cbn [count]; [lia|]. intros H. destruct (P t) eqn:E; [exists t; split; [left|exact E]|].
  destruct IH as (u & I & U); [lia|]. exists u. split; [right; exact I|exact U].
Qed.

(** [p] may look at the locked inode: a reference keeps it in the table. *)
Definition has_ref (i : nat) (T : list token) : Prop :=
  TInode i ∈ T \/ exists f k, TFile f k ∈ T /\ res k = TInode i.
Definition guarded (T : list token) : Prop := forall i p, TLock i p ∈ T -> has_ref i T.
Definition mine (p : nat) (T : list token) : Prop := forall i q, TLock i q ∈ T -> q = p.

(** * Rules *)

Section Rules.
Variables (strict : Prop) (p : nat).

(** Operation [o], from [l] and [T]: what it needs, and [K] for everything it can give. *)
Definition rule {X : Set} (o : op X) (l : local) (T : list token) : (X -> local -> list token -> Prop) -> Prop :=
  match o in op X return (X -> local -> list token -> Prop) -> Prop with
  | OAsk => fun K => forall a, K a l T
  | OFdGet fd => fun K => K (match openFiles l !! fd with Some o => o | None => None end) l T
  | OFdSet fd o => fun K => K tt (Local (<[fd := o]> (openFiles l)) (cwd l)) T
  | OCwd => fun K => K (cwd l) l T
  | OCwdSet i => fun K => K tt (Local (openFiles l) (Some i)) T
  | OAlloc => fun K => K None l T /\ forall f, K (Some f) l (TFresh f :: T)
  | OSet f d r w => fun K =>
      exists k T1, kind_of (File 1 r w d) = Some k /\ T ≡ₚ (TFresh f :: res k :: T1) /\ K tt l (TFile f k :: T1)
  | ODup f => fun K => exists k, TFile f k ∈ T /\ K tt l (TFile f k :: T)
  | ODrop f => fun K =>
      (exists k T1, T ≡ₚ (TFile f k :: T1) /\ guarded T1 /\ K None l T1 /\
        forall x, kind_of x = Some k -> K (Some x) l (res k :: T1)) \/
      (exists T1, T ≡ₚ (TFresh f :: T1) /\ forall x, kind_of x = None -> K (Some x) l T1)
  | OData f => fun K => exists k, TFile f k ∈ T /\ forall x, kind_of x = Some k -> K x l T
  | OSeek f n => fun K => exists k, TFile f k ∈ T /\ K tt l T
  | OPipe => fun K => K None l T /\ forall q, K (Some q) l (TPipe q false :: TPipe q true :: T)
  | OPipeClose q w => fun K => exists T1, T ≡ₚ (TPipe q w :: T1) /\ K tt l T1
  | OGet _ _ => fun K => forall i, K i l (TInode i :: T)
  | OLookup i name => fun K =>
      TLock i p ∈ T /\ K None l T /\ forall j, (j = i -> dots name = true) -> K (Some j) l (TInode j :: T)
  | ONew i => fun K => TLock i p ∈ T /\ K None l T /\ forall j, j <> i -> K (Some j) l (TInode j :: T)
  | OIdup i => fun K => has_ref i T /\ K tt l (TInode i :: T)
  | OLock i => fun K => has_ref i T /\ (TLock i p ∈ T -> TOp ∈ T /\ ~ strict) /\ ((TLock i p ∉ T) -> K tt l (TLock i p :: T))
  | ORelease i => fun K => exists T1, T ≡ₚ (TLock i p :: T1) /\ K tt l T1
  | OType i => fun K => TLock i p ∈ T /\ forall t, K t l T
  | ODevice i => fun K => has_ref i T /\ forall d, K d l T
  | OPut i => fun K =>
      TOp ∈ T /\ exists T1, T ≡ₚ (TInode i :: T1) /\ guarded T1 /\ K false l T1 /\
        (has_ref i T1 \/ (TLock i p ∉ T) /\ K true l (TLock i p :: T))
  | OPutEnd i => fun K => exists T1, T ≡ₚ (TLock i p :: TInode i :: T1) /\ guarded T1 /\ K tt l T1
  | OBegin => fun K => (TOp ∉ T) /\ K tt l (TOp :: T)
  | OEnd => fun K => exists T1, T ≡ₚ (TOp :: T1) /\ K tt l T1
  end.

Fixpoint typed {A} (m : code A) (l : local) (T : list token) (Q : A -> local -> list token -> Prop) : Prop :=
  match m with
  | Ret a => Q a l T
  | Act o k => rule o l T (fun x l' T' => typed (k x) l' T' Q)
  end.
End Rules.

(** * What the tables say *)

Definition fcount (s : shared) (f : nat) : Z := match files s !! f with Some x => f_count x | None => 0 end.
Definition icount (s : shared) (i : nat) : Z := match inodes s !! i with Some y => i_count y | None => 0 end.
Definition holder (s : shared) (i p : nat) : Z :=
  match inodes s !! i with Some y => if bool_decide (i_lock y = Some p) then 1 else 0 | None => 0 end.
Definition end_open (s : shared) (q : nat) (w : bool) : Z :=
  match pipes s !! q with Some e => if (if w then write_is_open e else read_is_open e) then 1 else 0 | None => 0 end.

(** The tables count what is owned, by processes ([G]) and by files. *)
Record counted (s : shared) (G : list token) : Prop := {
  n_file f : fcount s f = count (on_file f) G;
  n_kind f k : TFile f k ∈ G -> exists x, files s !! f = Some x /\ kind_of x = Some k;
  n_fresh f : TFresh f ∈ G -> exists x, files s !! f = Some x /\ kind_of x = None /\ f_count x = 1;
  n_free f x : files s !! f = Some x -> f_count x = 0 -> kind_of x = None;
  n_inode i : icount s i = count (on_inode i) (G ++ held_by_files s);
  n_pipe q w : end_open s q w = count (on_pipe q w) (G ++ held_by_files s);
  n_lock i p : holder s i p = count (on_lock i p) G;
  n_op : outstanding s = count on_op G;
}.

Lemma counted_perm s G G' : G ≡ₚ G' -> counted s G -> counted s G'.
Proof.
  intros P H. split; intros.
  - rewrite <- P. apply (n_file _ _ H).
  - apply (n_kind _ _ H). rewrite P. assumption.
  - apply (n_fresh _ _ H). rewrite P. assumption.
  - eapply (n_free _ _ H); eassumption.
  - rewrite <- P. apply (n_inode _ _ H).
  - rewrite <- P. apply (n_pipe _ _ H).
  - rewrite <- P. apply (n_lock _ _ H).
  - rewrite <- P. apply (n_op _ _ H).
Qed.

Lemma flat_map_insert {A B} (g : A -> list B) (l : list A) i x x' : l !! i = Some x ->
  exists r, flat_map g l ≡ₚ g x ++ r /\ flat_map g (<[i:=x']> l) ≡ₚ g x' ++ r.
Proof.
  intros E. exists (flat_map g (take i l) ++ flat_map g (drop (S i) l)).
  pose proof (lookup_lt_Some _ _ _ E) as L. split.
  - rewrite <- (take_drop_middle l i x E) at 1. rewrite flat_map_app. cbn [flat_map]. solve_Permutation.
  - rewrite insert_take_drop by exact L. rewrite flat_map_app. cbn [flat_map]. solve_Permutation.
Qed.

(** A file is changed. *)
Lemma counted_files s G G' f x x' : counted s G -> files s !! f = Some x ->
  (forall g, g <> f -> count (on_file g) G' = count (on_file g) G) -> f_count x' = count (on_file f) G' ->
  (forall g k, g <> f -> TFile g k ∈ G' -> TFile g k ∈ G) -> (forall k, TFile f k ∈ G' -> kind_of x' = Some k) ->
  (forall g, g <> f -> TFresh g ∈ G' -> TFresh g ∈ G) -> (TFresh f ∈ G' -> kind_of x' = None /\ f_count x' = 1) ->
  (f_count x' = 0 -> kind_of x' = None) ->
  (forall P, (forall g, P (TFresh g) = false) -> (forall g k, P (TFile g k) = false) ->
    count P (G' ++ held_by x') = count P (G ++ held_by x)) ->
  counted (set_files (<[f := x']> (files s)) s) G'.
Proof.
  intros H E Og Of Kg Kf Fg Ff Fr Rs.
  assert (L : (f < length (files s))%nat) by exact (lookup_lt_Some _ _ _ E).
  assert (At : <[f := x']> (files s) !! f = Some x') by (apply list_lookup_insert_eq, L).
  assert (Ne : forall g, g <> f -> <[f := x']> (files s) !! g = files s !! g) by (intros; apply list_lookup_insert_ne; auto).
  destruct (flat_map_insert held_by (files s) f x x' E) as (r & P1 & P2).
  assert (All : forall P, (forall g, P (TFresh g) = false) -> (forall g k, P (TFile g k) = false) ->
    count P (G' ++ flat_map held_by (<[f := x']> (files s))) = count P (G ++ held_by_files s)).
  { intros P A B. specialize (Rs P A B). unfold held_by_files. rewrite !count_app in *. rewrite P1, P2, !count_app. lia. }
  assert (Own : forall P, (forall g, P (TFresh g) = false) -> (forall g k, P (TFile g k) = false) ->
    (forall i, P (TInode i) = false) -> (forall q w, P (TPipe q w) = false) -> count P G' = count P G).
  { intros P A B C D. specialize (Rs P A B). rewrite !count_app in Rs.
    assert (N : forall y, count P (held_by y) = 0).
    { intros y. unfold held_by. destruct (kind_of y) as [[]|]; cbn [count res]; rewrite ?C, ?D; reflexivity. }
    rewrite !N in Rs. lia. }
  split; unfold fcount, icount, holder, end_open, held_by_files, set_files; cbn [files inodes pipes outstanding].
  - intros g. destruct (Nat.eq_dec g f) as [->|N]; [rewrite At; exact Of|]. rewrite Ne, Og by exact N. apply (n_file _ _ H).
  - intros g k T. destruct (Nat.eq_dec g f) as [->|N]; [rewrite At; eauto|]. rewrite Ne by exact N. apply (n_kind _ _ H), Kg; assumption.
  - intros g T. destruct (Nat.eq_dec g f) as [->|N]; [rewrite At; destruct (Ff T); eauto|]. rewrite Ne by exact N.
    apply (n_fresh _ _ H), Fg; assumption.
  - intros g y. destruct (Nat.eq_dec g f) as [->|N]; [rewrite At; intros Y; injection Y as <-; exact Fr|]. rewrite Ne by exact N. apply (n_free _ _ H).
  - intros i. rewrite All by reflexivity. apply (n_inode _ _ H).
  - intros q w. rewrite All by reflexivity. apply (n_pipe _ _ H).
  - intros i q. rewrite Own by reflexivity. apply (n_lock _ _ H).
  - rewrite Own by reflexivity. apply (n_op _ _ H).
Qed.

(** An inode is changed. *)
Lemma counted_inodes s G G' i y y' : counted s G -> inodes s !! i = Some y ->
  (forall P, (forall j, P (TInode j) = false) -> (forall j q, P (TLock j q) = false) -> count P G' = count P G) ->
  (forall f k, TFile f k ∈ G' -> TFile f k ∈ G) -> (forall f, TFresh f ∈ G' -> TFresh f ∈ G) ->
  (forall j, j <> i -> count (on_inode j) G' = count (on_inode j) G) ->
  i_count y' - i_count y = count (on_inode i) G' - count (on_inode i) G ->
  (forall j q, j <> i -> count (on_lock j q) G' = count (on_lock j q) G) ->
  (forall q, (if bool_decide (i_lock y' = Some q) then 1 else 0) = count (on_lock i q) G') ->
  counted (set_inodes (<[i := y']> (inodes s)) s) G'.
Proof.
  intros H E Oth Kf Ff Ij Ii Lj Li.
  assert (L : (i < length (inodes s))%nat) by exact (lookup_lt_Some _ _ _ E).
  assert (At : <[i := y']> (inodes s) !! i = Some y') by (apply list_lookup_insert_eq, L).
  assert (Ne : forall j, j <> i -> <[i := y']> (inodes s) !! j = inodes s !! j) by (intros; apply list_lookup_insert_ne; auto).
  split; unfold fcount, icount, holder, end_open, held_by_files, set_inodes; cbn [files inodes pipes outstanding].
  - intros f. rewrite Oth by reflexivity. apply (n_file _ _ H).
  - intros f k T. apply (n_kind _ _ H), Kf, T.
  - intros f T. apply (n_fresh _ _ H), Ff, T.
  - apply (n_free _ _ H).
  - intros j. pose proof (n_inode _ _ H j) as N. unfold icount, held_by_files in N. rewrite count_app in *.
    destruct (Nat.eq_dec j i) as [->|D]; [rewrite At; rewrite E in N; lia|]. rewrite Ne, Ij by exact D. exact N.
  - intros q w. pose proof (n_pipe _ _ H q w) as N. unfold end_open, held_by_files in N. rewrite count_app in *. rewrite Oth by reflexivity. exact N.
  - intros j q. destruct (Nat.eq_dec j i) as [->|D]; [rewrite At; apply Li|]. rewrite Ne, Lj by exact D. apply (n_lock _ _ H).
  - rewrite Oth by reflexivity. apply (n_op _ _ H).
Qed.

(** * Guards *)

Lemma has_ref_mono i T T' : (forall t, t ∈ T -> t ∈ T') -> has_ref i T -> has_ref i T'.
Proof. intros S [H|(f & k & H & E)]; [left; auto|right; exists f, k; auto]. Qed.
Lemma has_ref_perm i T T' : T ≡ₚ T' -> has_ref i T -> has_ref i T'.
Proof. intros P. apply has_ref_mono. intros t. rewrite P. auto. Qed.
Lemma guarded_perm T T' : T ≡ₚ T' -> guarded T -> guarded T'.
Proof. intros P G i p H. rewrite <- P in H. apply (has_ref_perm i T T' P), (G i p H). Qed.
Lemma guarded_app T T' : guarded T -> guarded T' -> guarded (T ++ T').
Proof.
  intros G G' i p H. apply elem_of_app in H as [H|H]; [apply (has_ref_mono i T)|apply (has_ref_mono i T')]; eauto;
    intros; apply elem_of_app; auto.
Qed.
Lemma guarded_cons t T : guarded T -> (forall i q, t <> TLock i q) -> guarded (t :: T).
Proof.
  intros G N i p H. apply elem_of_cons in H as [H|H]; [destruct (N i p); auto|].
  apply (has_ref_mono i T); [intros; right; assumption|exact (G i p H)].
Qed.
Lemma guarded_lock i p T : guarded T -> has_ref i T -> guarded (TLock i p :: T).
Proof.
  intros G R j q H. apply elem_of_cons in H as [H|H]; [injection H as -> ->|]; apply (has_ref_mono _ T); try (intros; right; assumption); eauto.
Qed.
Lemma guarded_remove t T T1 : T ≡ₚ t :: T1 -> guarded T -> (forall i, t <> TInode i) -> (forall f k, t <> TFile f k) -> guarded T1.
Proof.
  intros P G N1 N2 i p H. destruct (G i p) as [R|(f & k & R & E)]; [rewrite P; right; exact H| |]; rewrite P in R.
  - apply elem_of_cons in R as [R|R]; [destruct (N1 i); auto|left; exact R].
  - apply elem_of_cons in R as [R|R]; [destruct (N2 f k); auto|right; exists f, k; auto].
Qed.
(** The file takes the place of what it holds. *)
Lemma guarded_swap f k T : guarded (res k :: T) -> guarded (TFile f k :: T).
Proof.
  intros G i p H. apply elem_of_cons in H as [H|H]; [discriminate|].
  destruct (G i p) as [R|(g & k' & R & E)]; [right; exact H| |]; apply elem_of_cons in R as [R|R].
  - right. exists f, k. split; [left|auto].
  - left. right. exact R.
  - destruct k; discriminate.
  - right. exists g, k'. split; [right; exact R|exact E].
Qed.
Lemma mine_sub p T T' : mine p T -> (forall i q, TLock i q ∈ T' -> TLock i q ∈ T) -> mine p T'.
Proof. intros M S i q H. apply (M i q), S, H. Qed.
Lemma mine_cons p t T : mine p T -> (forall i q, t = TLock i q -> q = p) -> mine p (t :: T).
Proof. intros M N i q H. apply elem_of_cons in H as [H|H]; [apply (N i), eq_sym, H|apply (M i q H)]. Qed.
Lemma mine_perm p T T' : T ≡ₚ T' -> mine p T -> mine p T'.
Proof. intros P M i q H. rewrite <- P in H. exact (M i q H). Qed.
Lemma mine_tail p t T : mine p (t :: T) -> mine p T.
Proof. intros M i q H. apply (M i q). right. exact H. Qed.

Lemma first_where_some {A} (f : A -> bool) l i : first_where f l = Some i -> exists x, l !! i = Some x /\ f x = true.
Proof.
  intros H. apply List.find_some in H as [_ H]. destruct (l !! i) as [x|]; [exists x; auto|discriminate].
Qed.

(** * Soundness of the rules *)

Lemma count_file_fresh s T f k : counted s T -> TFile f k ∈ T -> 1 <= fcount s f.
Proof. intros H I. rewrite (n_file _ _ H). apply (count_in _ _ _ I). cbn. apply Nat.eqb_refl. Qed.

(** A reference is worth a count. *)
Lemma ref_counted s G i : counted s G -> has_ref i G -> exists y, inodes s !! i = Some y /\ 1 <= i_count y.
Proof.
  intros H R. assert (C : 1 <= icount s i).
  { rewrite (n_inode _ _ H), count_app. pose proof (count_nonneg (on_inode i) G). pose proof (count_nonneg (on_inode i) (held_by_files s)).
    destruct R as [R|(f & k & R & E)].
    - pose proof (count_in (on_inode i) _ _ R (Nat.eqb_refl i)). lia.
    - destruct (n_kind _ _ H f k R) as (x & X & K). assert (I : TInode i ∈ held_by_files s).
      { unfold held_by_files. apply list_elem_of_In, in_flat_map. exists x. split; [apply list_elem_of_In, (list_elem_of_lookup_2 _ _ _ X)|].
        unfold held_by. rewrite K, E. left. reflexivity. }
      pose proof (count_in (on_inode i) _ _ I (Nat.eqb_refl i)). lia. }
  unfold icount in C. destruct (inodes s !! i) as [y|]; [exists y; auto|lia].
Qed.

(** What can make an operation wait: the lock of an inode, held by another process
    if the rules are strict, or the log. *)
Definition waits_on (strict : Prop) {X : Set} (o : op X) (T R : list token) : Prop :=
  match o with
  | OLock i => exists q, TLock i q ∈ T ++ R /\ (strict -> TLock i q ∈ R)
  | OBegin => True
  | _ => False
  end.

Definition sound (strict : Prop) {X : Set} (p : nat) (o : op X) (K : X -> local -> list token -> Prop) (T R : list token) (r : outcome X) : Prop :=
  match r with
  | Done x l' s' => exists T', K x l' T' /\ counted s' (T' ++ R) /\ guarded T' /\ mine p T'
  | Waits => waits_on strict o T R
  | Never => True
  | Stops w => w = NoInodes
  end.

Ltac scan := intros; cbn [count app on_file on_inode on_pipe on_lock on_op i_count i_lock set_lock set_refs f_count set_count]; rewrite ?count_app; cbn [count]; try lia.

Lemma counted_refs s G i y n : counted s G -> inodes s !! i = Some y -> n = i_count y + 1 ->
  forall dev num, counted (set_inodes (<[i := Inode dev num n (i_lock y)]> (inodes s)) s) (TInode i :: G).
Proof.
  intros H E -> dev num. apply (counted_inodes s G _ i y); try assumption.
  - intros P A B. cbn [count]. rewrite A. lia.
  - intros f k I. apply elem_of_cons in I as [I|I]; [discriminate|exact I].
  - intros f I. apply elem_of_cons in I as [I|I]; [discriminate|exact I].
  - intros j N. cbn [count on_inode]. rewrite (proj2 (Nat.eqb_neq i j)) by auto. lia.
  - cbn [count on_inode i_count]. rewrite Nat.eqb_refl. lia.
  - scan.
  - intros q. cbn [i_lock count on_lock]. rewrite <- (n_lock _ _ H). unfold holder. rewrite E. lia.
Qed.

Lemma get_counted dev n l s G : counted s G ->
  match get dev n l s with
  | Done i l' s' => l' = l /\ counted s' (TInode i :: G) /\ forall y, inodes s !! i = Some y -> 1 <= i_count y -> i_number y = n
  | Stops w => w = NoInodes
  | _ => False
  end.
Proof.
  intros H. unfold get. destruct (first_where _ (inodes s)) as [i|] eqn:F.
  - apply first_where_some in F as (y & E & F). rewrite E. apply andb_prop in F as [F N]. split; [reflexivity|]. split.
    + apply (counted_refs s G i y); auto.
    + intros y' E' _. assert (y' = y) as -> by congruence. lia.
  - clear F. destruct (first_where _ (inodes s)) as [i|] eqn:F; [|reflexivity].
    apply first_where_some in F as (y & E & F). rewrite E. split; [reflexivity|]. split.
    + apply (counted_refs s G i y); auto. lia.
    + intros y' E' C. assert (y' = y) as -> by congruence. lia.
Qed.

(** A lock is taken or given back. *)
Lemma counted_lock s T p i y : counted s T -> inodes s !! i = Some y -> i_lock y = None ->
  counted (set_inodes (<[i := set_lock (Some p) y]> (inodes s)) s) (TLock i p :: T).
Proof.
  intros H E N. apply (counted_inodes s T _ i y); try assumption.
  - intros P A B. cbn [count]. rewrite B. lia.
  - intros f k I. apply elem_of_cons in I as [I|I]; [discriminate|exact I].
  - intros f I. apply elem_of_cons in I as [I|I]; [discriminate|exact I].
  - scan.
  - scan.
  - intros j q D. cbn [count on_lock]. rewrite (proj2 (Nat.eqb_neq i j)) by auto. cbn [andb]. lia.
  - intros q. cbn [count on_lock i_lock set_lock]. rewrite Nat.eqb_refl. cbn [andb]. rewrite <- (n_lock _ _ H). unfold holder. rewrite E, N.
    rewrite (bool_decide_eq_false_2 (None = Some q)) by discriminate.
    destruct (Nat.eqb_spec p q) as [->|D]; [rewrite bool_decide_eq_true_2 by reflexivity; lia|rewrite bool_decide_eq_false_2 by congruence; lia].
Qed.

Lemma holder_lock s G i y p : counted s G -> inodes s !! i = Some y -> TLock i p ∈ G -> i_lock y = Some p.
Proof.
  intros H E I. pose proof (count_in (on_lock i p) _ _ I) as C. cbn [on_lock] in C. rewrite !Nat.eqb_refl in C. specialize (C eq_refl).
  rewrite <- (n_lock _ _ H) in C. unfold holder in C. rewrite E in C. destruct (bool_decide_reflect (i_lock y = Some p)); [assumption|lia].
Qed.

Lemma lock_held s G i y q : counted s G -> inodes s !! i = Some y -> i_lock y = Some q -> TLock i q ∈ G.
Proof.
  intros H E L. destruct (count_pos (on_lock i q) G) as (t & I & P).
  - rewrite <- (n_lock _ _ H). unfold holder. rewrite E, L, bool_decide_eq_true_2 by reflexivity. lia.
  - destruct t; try discriminate. cbn in P. apply andb_prop in P as [P1 P2]. apply Nat.eqb_eq in P1, P2. subst. exact I.
Qed.

(** A lock is given back, with or without a reference. *)
Lemma counted_unlock s T p i y : counted s (TLock i p :: T) -> inodes s !! i = Some y ->
  counted (set_inodes (<[i := set_lock None y]> (inodes s)) s) T.
Proof.
  intros H E. pose proof (holder_lock _ _ _ _ _ H E (list_elem_of_here _ _)) as N.
  apply (counted_inodes s (TLock i p :: T) _ i y); try assumption.
  - intros P A B. cbn [count]. rewrite B. lia.
  - intros f k I. right. exact I.
  - intros f I. right. exact I.
  - scan.
  - scan.
  - intros j q D. cbn [count on_lock]. rewrite (proj2 (Nat.eqb_neq i j)) by auto. cbn [andb]. lia.
  - intros q. pose proof (n_lock _ _ H i q) as C. unfold holder in C. rewrite E, N in C. cbn [count on_lock] in C. rewrite Nat.eqb_refl in C.
    cbn [i_lock set_lock]. rewrite (bool_decide_eq_false_2 (None = Some q)) by discriminate. cbn [andb] in C.
    destruct (Nat.eqb_spec p q) as [->|D]; [rewrite bool_decide_eq_true_2 in C by reflexivity|rewrite bool_decide_eq_false_2 in C by congruence]; lia.
Qed.

Lemma counted_drop_ref s T i y : counted s (TInode i :: T) -> inodes s !! i = Some y ->
  counted (set_inodes (<[i := set_refs (i_count y - 1) y]> (inodes s)) s) T.
Proof.
  intros H E. apply (counted_inodes s (TInode i :: T) _ i y); try assumption.
  - intros P A B. cbn [count]. rewrite A. lia.
  - intros f k I. right. exact I.
  - intros f I. right. exact I.
  - intros j N. cbn [count on_inode]. rewrite (proj2 (Nat.eqb_neq i j)) by auto. lia.
  - cbn [count on_inode i_count set_refs]. rewrite Nat.eqb_refl. lia.
  - scan.
  - intros q. cbn [i_lock set_refs]. pose proof (n_lock _ _ H i q) as C. unfold holder in C. rewrite E in C. exact C.
Qed.

(** Files. *)
Lemma no_file s G f : counted s G -> fcount s f = 0 -> (forall k, TFile f k ∉ G) /\ (TFresh f ∉ G).
Proof.
  intros H C. rewrite (n_file _ _ H) in C. split; [intros k|]; intros I;
    pose proof (count_in (on_file f) _ _ I (Nat.eqb_refl f)); lia.
Qed.

Lemma only_file s G f t : counted s (t :: G) -> fcount s f = 1 -> on_file f t = true -> (forall k, TFile f k ∉ G) /\ (TFresh f ∉ G).
Proof.
  intros H C E. rewrite (n_file _ _ H) in C. cbn [count] in C. rewrite E in C.
  split; [intros k|]; intros I; pose proof (count_in (on_file f) _ _ I (Nat.eqb_refl f)); lia.
Qed.

Lemma fcount_at s f x : files s !! f = Some x -> fcount s f = f_count x.
Proof. unfold fcount. intros ->. reflexivity. Qed.

Ltac other_file := intros; cbn [count on_file]; rewrite ?(proj2 (Nat.eqb_neq _ _)) by auto; try lia.

Lemma counted_alloc s G f x : counted s G -> files s !! f = Some x -> f_count x = 0 ->
  counted (set_files (<[f := set_count 1 x]> (files s)) s) (TFresh f :: G).
Proof.
  intros H E C. pose proof (fcount_at _ _ _ E) as Fc. rewrite C in Fc. destruct (no_file s G f H Fc) as [N1 N2].
  apply (counted_files s G _ f x); auto.
  - other_file.
  - cbn [count on_file f_count set_count]. rewrite Nat.eqb_refl, <- (n_file _ _ H), Fc. reflexivity.
  - intros g k N I. apply elem_of_cons in I as [I|I]; [discriminate|exact I].
  - intros k I. apply elem_of_cons in I as [I|I]; [discriminate|destruct (N1 k I)].
  - intros g N I. apply elem_of_cons in I as [I|I]; [congruence|exact I].
  - intros _. split; [exact (n_free _ _ H f x E C)|reflexivity].
  - cbn. lia.
  - intros P A B. cbn [app count]. rewrite A, !count_app. reflexivity.
Qed.

Lemma counted_set s G f x k r w d : counted s (TFresh f :: res k :: G) -> files s !! f = Some x -> kind_of (File 1 r w d) = Some k ->
  counted (set_files (<[f := File (f_count x) r w d]> (files s)) s) (TFile f k :: G).
Proof.
  intros H E K. destruct (n_fresh _ _ H f (list_elem_of_here _ _)) as (x' & E' & Kx & C). assert (x' = x) as -> by congruence.
  pose proof (fcount_at _ _ _ E) as Fc. rewrite C in Fc.
  destruct (only_file s (res k :: G) f (TFresh f) H Fc (Nat.eqb_refl f)) as [N1 N2].
  assert (Rk : on_file f (res k) = false /\ forall g, on_file g (res k) = false) by (destruct k; split; reflexivity).
  apply (counted_files s (TFresh f :: res k :: G) _ f x); auto.
  - intros g N. cbn [count]. rewrite (proj2 Rk). cbn [on_file]. rewrite !(proj2 (Nat.eqb_neq f g)) by auto. lia.
  - pose proof (n_file _ _ H f) as F. rewrite Fc in F. cbn [count] in F. rewrite (proj1 Rk) in F. cbn [count on_file f_count] in *.
    rewrite Nat.eqb_refl in *. lia.
  - intros g k' N I. apply elem_of_cons in I as [I|I]; [congruence|right; right; exact I].
  - intros k' I. apply elem_of_cons in I as [I|I]; [injection I as ->; exact K|]. destruct (N1 k'). right. exact I.
  - intros g N I. apply elem_of_cons in I as [I|I]; [congruence|right; right; exact I].
  - intros I. apply elem_of_cons in I as [I|I]; [discriminate|]. destruct N2. right. exact I.
  - cbn. lia.
  - intros P A B. unfold held_by. rewrite Kx. assert (kind_of (File (f_count x) r w d) = Some k) as -> by exact K.
    rewrite app_nil_r. cbn [app count]. rewrite count_app. cbn [count]. rewrite A, B. lia.
Qed.

Lemma counted_dup s G f x k : counted s G -> files s !! f = Some x -> TFile f k ∈ G ->
  counted (set_files (<[f := set_count (f_count x + 1) x]> (files s)) s) (TFile f k :: G).
Proof.
  intros H E I. destruct (n_kind _ _ H f k I) as (x' & E' & K). assert (x' = x) as -> by congruence.
  pose proof (count_file_fresh _ _ _ _ H I) as Pos. rewrite (fcount_at _ _ _ E) in Pos.
  apply (counted_files s G _ f x); auto.
  - other_file.
  - cbn [count on_file f_count set_count]. rewrite Nat.eqb_refl, <- (n_file _ _ H), (fcount_at _ _ _ E). lia.
  - intros g k' N J. apply elem_of_cons in J as [J|J]; [congruence|exact J].
  - intros k' J. apply elem_of_cons in J as [J|J]; [injection J as ->; exact K|].
    destruct (n_kind _ _ H f k' J) as (x' & E2 & K2). assert (x' = x) as -> by congruence. exact K2.
  - intros g N J. apply elem_of_cons in J as [J|J]; [discriminate|exact J].
  - intros J. apply elem_of_cons in J as [J|J]; [discriminate|]. destruct (n_fresh _ _ H f J) as (x' & E2 & K2 & _). congruence.
  - cbn. lia.
  - intros P A B. cbn [app count]. rewrite B, !count_app. reflexivity.
Qed.

Lemma counted_undup s G f x k : counted s (TFile f k :: G) -> files s !! f = Some x -> 0 < f_count x - 1 ->
  counted (set_files (<[f := set_count (f_count x - 1) x]> (files s)) s) G.
Proof.
  intros H E C. apply (counted_files s (TFile f k :: G) _ f x); auto.
  - other_file.
  - pose proof (n_file _ _ H f) as F. rewrite (fcount_at _ _ _ E) in F. cbn [count on_file f_count set_count] in *. rewrite Nat.eqb_refl in F. lia.
  - intros g k' N J. right. exact J.
  - intros k' J. destruct (n_kind _ _ H f k' (list_elem_of_further _ _ _ J)) as (x' & E2 & K2). assert (x' = x) as -> by congruence. exact K2.
  - intros g N J. right. exact J.
  - intros J. destruct (n_fresh _ _ H f (list_elem_of_further _ _ _ J)) as (x' & E2 & K2 & C2). assert (x' = x) as -> by congruence. lia.
  - cbn [f_count set_count]. lia.
  - intros P A B. cbn [app count]. rewrite B, !count_app. reflexivity.
Qed.

(** The last reference goes, and what the file held on to is the process's. *)
Lemma counted_last s G f x t : counted s (t :: G) -> files s !! f = Some x -> f_count x = 1 -> on_file f t = true ->
  (forall P, (forall g, P (TFresh g) = false) -> (forall g k, P (TFile g k) = false) -> P t = false) ->
  (forall g, g <> f -> on_file g t = false) ->
  counted (set_files (<[f := File 0 (is_readable x) (is_writeable x) FNone]> (files s)) s) (held_by x ++ G).
Proof.
  intros H E C Ot Pt Og. pose proof (fcount_at _ _ _ E) as Fc. rewrite C in Fc. destruct (only_file s G f t H Fc Ot) as [N1 N2].
  assert (Hx : forall g, count (on_file g) (held_by x) = 0) by (intros g; unfold held_by; destruct (kind_of x) as [[]|]; reflexivity).
  assert (Kx : (forall g k, TFile g k ∉ held_by x) /\ forall g, TFresh g ∉ held_by x).
  { unfold held_by. destruct (kind_of x) as [[]|]; split; intros ? ** I; apply list_elem_of_In in I; cbn in I; intuition discriminate. }
  apply (counted_files s (t :: G) _ f x); auto.
  - intros g N. rewrite count_app, Hx. cbn [count]. rewrite Og by exact N. lia.
  - rewrite count_app, Hx. pose proof (n_file _ _ H f) as F. rewrite Fc in F. cbn [count f_count] in *. rewrite Ot in F. lia.
  - intros g k N J. apply elem_of_app in J as [J|J]; [destruct (proj1 Kx g k J)|right; exact J].
  - intros k J. apply elem_of_app in J as [J|J]; [destruct (proj1 Kx f k J)|destruct (N1 k J)].
  - intros g N J. apply elem_of_app in J as [J|J]; [destruct (proj2 Kx g J)|right; exact J].
  - intros J. apply elem_of_app in J as [J|J]; [destruct (proj2 Kx f J)|destruct (N2 J)].
  - intros P A B. change (held_by (File 0 (is_readable x) (is_writeable x) FNone)) with (@nil token). rewrite app_nil_r. cbn [app count].
    rewrite (Pt P A B), !count_app. lia.
Qed.

Lemma kind_seek n x : kind_of (seek n x) = kind_of x.
Proof. unfold seek, kind_of. destruct (data x) eqn:E; cbn [data is_writeable]; rewrite ?E; reflexivity. Qed.

Lemma counted_seek s G f x n : counted s G -> files s !! f = Some x -> counted (set_files (<[f := seek n x]> (files s)) s) G.
Proof.
  intros H E. assert (Ec : f_count (seek n x) = f_count x) by (unfold seek; destruct (data x); reflexivity).
  apply (counted_files s G _ f x); auto; rewrite ?Ec, ?kind_seek.
  - rewrite <- (n_file _ _ H). symmetry. exact (fcount_at _ _ _ E).
  - intros k J. destruct (n_kind _ _ H f k J) as (x' & E2 & K2). assert (x' = x) as -> by congruence. exact K2.
  - intros J. destruct (n_fresh _ _ H f J) as (x' & E2 & K2 & C2). assert (x' = x) as -> by congruence. auto.
  - apply (n_free _ _ H f x E).
  - intros P A B. unfold held_by. rewrite kind_seek. reflexivity.
Qed.

(** Pipes and the log. *)
Lemma counted_other s G G' (ps : list pipe_ends) n : counted s G ->
  (forall P, (forall q w, P (TPipe q w) = false) -> P TOp = false -> count P G' = count P G) ->
  (forall f k, TFile f k ∈ G' -> TFile f k ∈ G) -> (forall f, TFresh f ∈ G' -> TFresh f ∈ G) ->
  n = count on_op G' ->
  (forall (q : nat) (w : bool), match ps !! q with Some e => if (if w then write_is_open e else read_is_open e) then 1 else 0 | None => 0 end - end_open s q w =
    count (on_pipe q w) G' - count (on_pipe q w) G) ->
  counted (Shared (files s) (inodes s) ps n) G'.
Proof.
  intros H Oth Kf Ff -> Pq. split; unfold fcount, icount, holder, end_open, held_by_files; cbn [files inodes pipes outstanding]; auto.
  - intros f. rewrite Oth by reflexivity. apply (n_file _ _ H).
  - intros f k I. apply (n_kind _ _ H), Kf, I.
  - intros f I. apply (n_fresh _ _ H), Ff, I.
  - apply (n_free _ _ H).
  - intros i. pose proof (n_inode _ _ H i) as N. unfold icount, held_by_files in N. rewrite count_app in *. rewrite Oth by reflexivity. exact N.
  - intros q w. pose proof (n_pipe _ _ H q w) as N. unfold held_by_files in N. specialize (Pq q w). rewrite count_app in *. lia.
  - intros i q. rewrite Oth by reflexivity. apply (n_lock _ _ H).
Qed.

Lemma counted_pipe s G : counted s G ->
  counted (set_pipes (pipes s ++ [Ends true true]) s) (TPipe (length (pipes s)) false :: TPipe (length (pipes s)) true :: G).
Proof.
  intros H. apply (counted_other s G); auto.
  - intros P A B. cbn [count]. rewrite !A. reflexivity.
  - intros f k I. apply elem_of_cons in I as [I|I]; [discriminate|]. apply elem_of_cons in I as [I|I]; [discriminate|exact I].
  - intros f I. apply elem_of_cons in I as [I|I]; [discriminate|]. apply elem_of_cons in I as [I|I]; [discriminate|exact I].
  - apply (n_op _ _ H).
  - intros q w. unfold end_open. cbn [count on_pipe]. destruct (Nat.eqb_spec (length (pipes s)) q) as [<-|N].
    + rewrite list_lookup_middle, lookup_ge_None_2 by reflexivity. destruct w; cbn; lia.
    + cbn [andb]. destruct (Nat.ltb_spec q (length (pipes s))) as [L|L].
      * rewrite lookup_app_l by exact L. lia.
      * rewrite !lookup_ge_None_2; [lia|exact L|]. rewrite length_app. cbn. lia.
Qed.

Lemma counted_pipe_close s G q w e : counted s (TPipe q w :: G) -> pipes s !! q = Some e -> (if w then write_is_open e else read_is_open e) = true ->
  counted (set_pipes (<[q := if w then Ends (read_is_open e) false else Ends false (write_is_open e)]> (pipes s)) s) G.
Proof.
  intros H E O. apply (counted_other s (TPipe q w :: G)); auto.
  - intros P A B. cbn [count]. rewrite A. lia.
  - intros f k I. right. exact I.
  - intros f I. right. exact I.
  - rewrite (n_op _ _ H). reflexivity.
  - intros q' w'. unfold end_open. cbn [count on_pipe]. destruct (Nat.eqb_spec q q') as [<-|N].
    + rewrite list_lookup_insert_eq by exact (lookup_lt_Some _ _ _ E). rewrite E.
      destruct w, w'; cbn [andb Bool.eqb read_is_open write_is_open]; rewrite ?O; lia.
    + rewrite list_lookup_insert_ne by exact N. cbn [andb]. lia.
Qed.

Lemma counted_op s G n : counted s G -> forall G', G' = TOp :: G /\ n = outstanding s + 1 \/ G = TOp :: G' /\ n = outstanding s - 1 ->
  counted (set_outstanding n s) G'.
Proof.
  intros H G' C. assert (O := n_op _ _ H). apply (counted_other s G); auto; destruct C as [[-> ->]|[-> ->]]; cbn [count on_op] in *.
  - intros P A ->. lia.
  - intros P A ->. lia.
  - intros f k I. apply elem_of_cons in I as [I|I]; [discriminate|exact I].
  - intros f k I. right. exact I.
  - intros f I. apply elem_of_cons in I as [I|I]; [discriminate|exact I].
  - intros f I. right. exact I.
  - lia.
  - lia.
  - intros q w. cbn [on_pipe]. unfold end_open. lia.
  - intros q w. cbn [on_pipe]. unfold end_open. lia.
Qed.

(** Another reference than [i]'s own, by the same process or another. *)
Lemma two_refs s T R i y : counted s (TInode i :: T ++ R) -> inodes s !! i = Some y -> has_ref i (T ++ R) -> 2 <= i_count y.
Proof.
  intros H E Rf.
  assert (C : i_count y = count (on_inode i) (TInode i :: T ++ R) + count (on_inode i) (held_by_files s)).
  { rewrite <- count_app, <- (n_inode _ _ H). unfold icount. rewrite E. reflexivity. }
  cbn [count on_inode] in C. rewrite Nat.eqb_refl in C.
  pose proof (count_nonneg (on_inode i) (T ++ R)). pose proof (count_nonneg (on_inode i) (held_by_files s)).
  destruct Rf as [I|(f & k & I & Ek)].
  - pose proof (count_in (on_inode i) _ _ I (Nat.eqb_refl i)). lia.
  - destruct (n_kind _ _ H f k (list_elem_of_further _ _ _ I)) as (x & X & K). assert (J : TInode i ∈ held_by_files s).
    { unfold held_by_files. apply list_elem_of_In, in_flat_map. exists x. split; [apply list_elem_of_In, (list_elem_of_lookup_2 _ _ _ X)|].
      unfold held_by. rewrite K, Ek. left. reflexivity. }
    pose proof (count_in (on_inode i) _ _ J (Nat.eqb_refl i)). lia.
Qed.

Section Soundness.
Variables (strict : Prop) (p : nat) (R : list token).
Hypothesis GR : guarded R.

Lemma sound_done {X : Set} (o : op X) (K : X -> local -> list token -> Prop) {T} x l s T' : K x l T' -> counted s (T' ++ R) -> guarded T' -> mine p T' ->
  sound strict p o K T R (Done x l s).
Proof. intros A B C D. exists T'. auto. Qed.

Lemma put_sound i a l s T K : rule strict p (OPut i) l T K -> counted s (T ++ R) -> guarded T -> mine p T ->
  sound strict p (OPut i) K T R (exec (OPut i) p a l s).
Proof.
  intros (Op & T1 & Pm & G1 & K1 & C) H G M. assert (H1 : counted s (TInode i :: T1 ++ R)) by (refine (counted_perm _ _ _ _ H); rewrite Pm; reflexivity).
  destruct (ref_counted s (T ++ R) i H) as (y & E & C1); [left; rewrite Pm; left|]. cbn [exec]. rewrite E.
  destruct ((i_count y =? 1) && negb (a =? 0)) eqn:B.
  - apply andb_prop in B as [B _]. assert (One : i_count y = 1) by lia.
    assert (No : forall q, i_lock y = Some q -> False).
    { intros q Lq. pose proof (lock_held _ _ _ _ _ H E Lq) as I. apply elem_of_app in I as [I|I].
      - destruct C as [Rf|[N _]]; [|apply N; rewrite <- (M i q I); exact I].
        pose proof (two_refs s T1 R i y H1 E (has_ref_mono _ T1 _ (fun t J => proj2 (elem_of_app _ _ _) (or_introl J)) Rf)). lia.
      - pose proof (two_refs s T1 R i y H1 E (has_ref_mono _ R _ (fun t J => proj2 (elem_of_app _ _ _) (or_intror J)) (GR i q I))). lia. }
    destruct (i_lock y) as [q|] eqn:Lq; [destruct (No q eq_refl)|].
    destruct C as [Rf|[N K2]].
    { pose proof (two_refs s T1 R i y H1 E (has_ref_mono _ T1 _ (fun t J => proj2 (elem_of_app _ _ _) (or_introl J)) Rf)). lia. }
    apply (sound_done _ _ _ _ _ (TLock i p :: T)); [exact K2|exact (counted_lock s (T ++ R) p i y H E Lq)| |].
    + apply guarded_lock; [exact G|]. left. rewrite Pm. left.
    + apply mine_cons; [exact M|]. intros j q J. injection J. auto.
  - rewrite (proj2 (Z.ltb_ge _ _)) by exact C1. apply (sound_done _ _ _ _ _ T1); [exact K1| |exact G1|].
    + exact (counted_drop_ref s (T1 ++ R) i y H1 E).
    + apply (mine_tail p (TInode i)), (mine_perm p T _ Pm M).
Qed.

Lemma drop_sound f a l s T K : rule strict p (ODrop f) l T K -> counted s (T ++ R) -> guarded T -> mine p T ->
  sound strict p (ODrop f) K T R (exec (ODrop f) p a l s).
Proof.
  intros [(k & T1 & Pm & G1 & K1 & K2)|(T1 & Pm & K2)] H G M.
  - assert (H1 : counted s (TFile f k :: T1 ++ R)) by (refine (counted_perm _ _ _ _ H); rewrite Pm; reflexivity).
    assert (M1 : mine p T1) by (apply (mine_tail p (TFile f k)), (mine_perm p T _ Pm M)).
    destruct (n_kind _ _ H1 f k (list_elem_of_here _ _)) as (x & E & Kx).
    pose proof (count_file_fresh _ _ _ _ H1 (list_elem_of_here _ _)) as C. rewrite (fcount_at _ _ _ E) in C.
    cbn [exec]. rewrite E, (proj2 (Z.ltb_ge _ _)) by exact C. destruct (Z.ltb_spec 0 (f_count x - 1)) as [B|B].
    + apply (sound_done _ _ _ _ _ T1); [exact K1|exact (counted_undup _ _ _ _ _ H1 E B)|exact G1|exact M1].
    + apply (sound_done _ _ _ _ _ (res k :: T1)); [exact (K2 x Kx)| | |].
      * assert (Q := counted_last s (T1 ++ R) f x (TFile f k) H1 E ltac:(lia) (Nat.eqb_refl f)). unfold held_by in Q. rewrite Kx in Q.
        apply Q; [intros P A A2; apply A2|]. intros g N. cbn. apply Nat.eqb_neq. auto.
      * apply guarded_cons; [exact G1|]. destruct k; discriminate.
      * apply mine_cons; [exact M1|]. destruct k; discriminate.
  - assert (H1 : counted s (TFresh f :: T1 ++ R)) by (refine (counted_perm _ _ _ _ H); rewrite Pm; reflexivity).
    destruct (n_fresh _ _ H1 f (list_elem_of_here _ _)) as (x & E & Kx & C).
    cbn [exec]. rewrite E, C. cbn [Z.ltb Z.compare Z.sub Z.add Z.opp Z.pos_sub Pos.compare Pos.compare_cont].
    apply (sound_done _ _ _ _ _ T1); [exact (K2 x Kx)| | |].
    + assert (Q := counted_last s (T1 ++ R) f x (TFresh f) H1 E C (Nat.eqb_refl f)). unfold held_by in Q. rewrite Kx in Q.
      apply Q; [intros P A A2; apply A|]. intros g N. cbn. apply Nat.eqb_neq. auto.
    + apply (guarded_remove (TFresh f) T); auto; discriminate.
    + apply (mine_tail p (TFresh f)), (mine_perm p T _ Pm M).
Qed.

Lemma lift_sound (o : op (option nat)) dev n l s T (K : option nat -> local -> list token -> Prop) (Ok : nat -> Prop) :
  counted s (T ++ R) -> guarded T -> mine p T -> (forall j, Ok j -> K (Some j) l (TInode j :: T)) ->
  (forall j, (forall y, inodes s !! j = Some y -> 1 <= i_count y -> i_number y = n) -> Ok j) ->
  sound strict p o K T R (lift_get (get dev n l s)).
Proof.
  intros H G M Kj Oj. pose proof (get_counted dev n l s _ H) as C. destruct (get dev n l s) as [j l' s'| | |w]; cbn [lift_get]; try contradiction.
  - destruct C as (-> & C & D). apply (sound_done _ _ _ _ _ (TInode j :: T)); [apply Kj, Oj, D|exact C| |].
    + apply guarded_cons; [exact G|discriminate].
    + apply mine_cons; [exact M|discriminate].
  - exact C.
Qed.

Lemma lock_refs s T i : counted s (T ++ R) -> guarded T -> TLock i p ∈ T -> exists y, inodes s !! i = Some y /\ 1 <= i_count y /\ i_lock y = Some p.
Proof.
  intros H G I. destruct (ref_counted s (T ++ R) i H) as (y & E & C).
  { apply (has_ref_mono i T); [|exact (G i p I)]. intros t J. apply elem_of_app. auto. }
  exists y. split; [exact E|]. split; [exact C|]. apply (holder_lock _ _ _ _ _ H E). apply elem_of_app. auto.
Qed.

Theorem exec_sound {X : Set} (o : op X) a l s T K : rule strict p o l T K -> counted s (T ++ R) -> guarded T -> mine p T ->
  sound strict p o K T R (exec o p a l s).
Proof.
  intros Ru H G M.
  assert (Sub : forall t, t ∈ T -> t ∈ T ++ R) by (intros; apply elem_of_app; auto).
  assert (Cons : forall t, (forall i q, t <> TLock i q) -> guarded (t :: T) /\ mine p (t :: T)).
  { intros t N. split; [apply guarded_cons; assumption|]. apply mine_cons; [exact M|]. intros i q E. destruct (N i q E). }
  destruct o; cbn [rule] in Ru; try (cbn [exec]; eapply sound_done; [exact Ru|assumption..]).
  - cbn [exec]. eapply sound_done; [apply Ru|assumption..].
  - destruct Ru as [K0 K1]. cbn [exec]. destruct (first_where _ (files s)) as [f|] eqn:F; [|eapply sound_done; [exact K0|assumption..]].
    apply first_where_some in F as (x & E & F). rewrite E. destruct (Cons (TFresh f)) as [G' M']; [discriminate|].
    eapply sound_done; [apply K1|apply counted_alloc; [exact H|exact E|lia]|assumption..].
  - destruct Ru as (k & T1 & Kd & Pm & K1).
    assert (H1 : counted s (TFresh f :: res k :: T1 ++ R)) by (refine (counted_perm _ _ _ _ H); rewrite Pm; reflexivity).
    destruct (n_fresh _ _ H1 f (list_elem_of_here _ _)) as (x & E & _ & C). cbn [exec]. rewrite E.
    assert (G1 : guarded (res k :: T1)) by (apply (guarded_remove (TFresh f) T); auto; discriminate).
    eapply sound_done; [exact K1|exact (counted_set s (T1 ++ R) f x k r w d H1 E Kd)|exact (guarded_swap f k T1 G1)|].
    apply mine_cons; [|discriminate]. apply (mine_tail p (res k)), (mine_tail p (TFresh f)), (mine_perm p T _ Pm M).
  - destruct Ru as (k & I & K1). destruct (n_kind _ _ H f k (Sub _ I)) as (x & E & Kx).
    pose proof (count_file_fresh _ _ _ _ H (Sub _ I)) as C. rewrite (fcount_at _ _ _ E) in C. cbn [exec].
    rewrite E, (proj2 (Z.ltb_ge _ _)) by exact C. destruct (Cons (TFile f k)) as [G' M']; [discriminate|].
    eapply sound_done; [exact K1|exact (counted_dup _ _ _ _ _ H E (Sub _ I))|assumption..].
  - apply (drop_sound f a l s T K); assumption.
  - destruct Ru as (k & I & K1). destruct (n_kind _ _ H f k (Sub _ I)) as (x & E & Kx). cbn [exec]. rewrite E.
    eapply sound_done; [exact (K1 x Kx)|assumption..].
  - destruct Ru as (k & I & K1). destruct (n_kind _ _ H f k (Sub _ I)) as (x & E & Kx). cbn [exec]. rewrite E.
    eapply sound_done; [exact K1|apply counted_seek; assumption|assumption..].
  - destruct Ru as [K0 K1]. cbn [exec]. destruct (a =? 0); [eapply sound_done; [exact K0|assumption..]|].
    eapply sound_done; [apply K1|apply counted_pipe, H| |].
    + apply guarded_cons; [|discriminate]. apply guarded_cons; [exact G|discriminate].
    + apply mine_cons; [|discriminate]. apply mine_cons; [exact M|discriminate].
  - destruct Ru as (T1 & Pm & K1). assert (H1 : counted s (TPipe p0 w :: T1 ++ R)) by (refine (counted_perm _ _ _ _ H); rewrite Pm; reflexivity).
    assert (O : end_open s p0 w >= 1).
    { rewrite (n_pipe _ _ H1). cbn [app]. apply Z.le_ge. apply (count_in _ _ (TPipe p0 w)); [left|]. cbn. rewrite Nat.eqb_refl, eqb_reflx. reflexivity. }
    unfold end_open in O. cbn [exec]. destruct (pipes s !! p0) as [e|] eqn:E; [|lia].
    destruct (if w then write_is_open e else read_is_open e) eqn:B; [|lia].
    eapply sound_done; [exact K1|exact (counted_pipe_close _ _ _ _ _ H1 E B)| |].
    + apply (guarded_remove (TPipe p0 w) T); auto; discriminate.
    + apply (mine_tail p (TPipe p0 w)), (mine_perm p T _ Pm M).
  - cbn [exec]. pose proof (get_counted dev n l s _ H) as C. destruct (get dev n l s) as [j l' s'| | |w]; try contradiction; [|exact C].
    destruct C as (-> & C & _). destruct (Cons (TInode j)) as [G' M']; [discriminate|]. eapply sound_done; [apply Ru|exact C|assumption..].
  - destruct Ru as (I & K0 & K1). destruct (lock_refs s T i H G I) as (y & E & C & _). cbn [exec]. rewrite E.
    destruct (a =? 0); [eapply sound_done; [exact K0|assumption..]|]. destruct (Z.eqb_spec a (i_number y)) as [->|N]; cbn [andb].
    + destruct (dots name) eqn:D; cbn [negb]; [|exact Logic.I]. apply (lift_sound _ _ _ _ _ _ _ (fun _ => True) H G M); auto.
    + apply (lift_sound _ _ _ _ _ _ _ (fun j => j <> i) H G M); [intros j Nj; apply K1; congruence|].
      intros j Nj ->. apply N. symmetry. exact (Nj y E C).
  - destruct Ru as (I & K0 & K1). destruct (lock_refs s T i H G I) as (y & E & C & _). cbn [exec]. rewrite E.
    destruct (a =? 0); [eapply sound_done; [exact K0|assumption..]|]. destruct (Z.eqb_spec a (i_number y)) as [->|N]; [exact Logic.I|].
    apply (lift_sound _ _ _ _ _ _ _ (fun j => j <> i) H G M); [exact K1|]. intros j Nj ->. apply N. symmetry. exact (Nj y E C).
  - destruct Ru as (Rf & K1). destruct (ref_counted s (T ++ R) i H (has_ref_mono _ _ _ Sub Rf)) as (y & E & C). cbn [exec]. rewrite E.
    destruct (Cons (TInode i)) as [G' M']; [discriminate|].
    eapply sound_done; [exact K1|exact (counted_refs s (T ++ R) i y _ H E eq_refl (i_device y) (i_number y))|assumption..].
  - destruct Ru as (Rf & N & K1). destruct (ref_counted s (T ++ R) i H (has_ref_mono _ _ _ Sub Rf)) as (y & E & C). cbn [exec].
    rewrite E, (proj2 (Z.ltb_ge _ _)) by exact C. destruct (i_lock y) as [q|] eqn:Lq.
    + cbn [sound waits_on]. exists q. pose proof (lock_held _ _ _ _ _ H E Lq) as J. split; [exact J|]. intros St.
      apply elem_of_app in J as [J|J]; [|exact J]. rewrite (M i q J) in J. destruct (proj2 (N J) St).
    + eapply sound_done; [apply K1; intros I; destruct (lock_refs s T i H G I) as (y' & E' & _ & Ly); congruence|exact (counted_lock s (T ++ R) p i y H E Lq)| |].
      * apply guarded_lock; assumption.
      * apply mine_cons; [exact M|]. intros j q J. injection J. auto.
  - destruct Ru as (T1 & Pm & K1). assert (I : TLock i p ∈ T) by (rewrite Pm; left).
    destruct (lock_refs s T i H G I) as (y & E & C & Lq). cbn [exec]. rewrite E, Lq, bool_decide_eq_true_2, (proj2 (Z.ltb_ge _ _)) by (auto || exact C).
    cbn [negb orb]. assert (H1 : counted s (TLock i p :: T1 ++ R)) by (refine (counted_perm _ _ _ _ H); rewrite Pm; reflexivity).
    eapply sound_done; [exact K1|exact (counted_unlock _ _ _ _ _ H1 E)| |].
    + apply (guarded_remove (TLock i p) T); auto; discriminate.
    + apply (mine_tail p (TLock i p)), (mine_perm p T _ Pm M).
  - destruct Ru as (I & K1). destruct (lock_refs s T i H G I) as (y & E & _). cbn [exec]. rewrite E. eapply sound_done; [apply K1|assumption..].
  - destruct Ru as (Rf & K1). destruct (ref_counted s (T ++ R) i H (has_ref_mono _ _ _ Sub Rf)) as (y & E & C). cbn [exec]. rewrite E.
    eapply sound_done; [apply K1|assumption..].
  - apply (put_sound i a l s T K); assumption.
  - destruct Ru as (T1 & Pm & G1 & K1). assert (I : TLock i p ∈ T) by (rewrite Pm; left).
    destruct (lock_refs s T i H G I) as (y & E & C & Lq). cbn [exec]. rewrite E, (proj2 (Z.ltb_ge _ _)) by exact C.
    assert (H1 : counted s (TLock i p :: TInode i :: T1 ++ R)) by (refine (counted_perm _ _ _ _ H); rewrite Pm; reflexivity).
    pose proof (counted_unlock _ _ _ _ _ H1 E) as H2.
    assert (E2 : inodes (set_inodes (<[i := set_lock None y]> (inodes s)) s) !! i = Some (set_lock None y)).
    { apply list_lookup_insert_eq. exact (lookup_lt_Some _ _ _ E). }
    pose proof (counted_drop_ref _ _ _ _ H2 E2) as H3. cbn [set_inodes inodes files pipes outstanding] in H3. rewrite list_insert_insert_eq in H3.
    eapply sound_done; [exact K1|exact H3|exact G1|].
    apply (mine_tail p (TInode i)), (mine_tail p (TLock i p)), (mine_perm p T _ Pm M).
  - destruct Ru as (N & K1). cbn [exec]. destruct (a =? 0); [exact Logic.I|]. destruct (Cons TOp) as [G' M']; [discriminate|].
    eapply sound_done; [exact K1|apply (counted_op s (T ++ R)); auto|assumption..].
  - destruct Ru as (T1 & Pm & K1). assert (H1 : counted s (TOp :: T1 ++ R)) by (refine (counted_perm _ _ _ _ H); rewrite Pm; reflexivity).
    pose proof (n_op _ _ H1) as O. cbn [count on_op] in O. pose proof (count_nonneg on_op (T1 ++ R)). cbn [exec].
    rewrite (proj2 (Z.ltb_ge _ _)) by lia. eapply sound_done; [exact K1|apply (counted_op s (TOp :: T1 ++ R)); auto| |].
    + apply (guarded_remove TOp T); auto; discriminate.
    + apply (mine_tail p TOp), (mine_perm p T _ Pm M).
Qed.
End Soundness.
