(* ===== verification/KFileCalls.v ===== *)
(** Every system call of sysfile.zig is typed, but for the two that are not:
    [open] when the process has no descriptor left and, if the rules are strict, the
    making of [.] or [..]. *)

From S2P Require Import Prelude.
From stdpp Require Import base list.
From S2P Require Import KFile KFileSpec.

Local Open Scope Z_scope.

(** * Programs *)

#[export] Instance kind_eq_dec : EqDecision kind.
Proof. solve_decision. Defined.
#[export] Instance token_eq_dec : EqDecision token.
Proof. solve_decision. Defined.

Section Calls.
Variables (strict : Prop) (p : nat).

Lemma typed_bind {A B} (m : code A) (f : A -> code B) l T Q :
  typed strict p m l T (fun a l' T' => typed strict p (f a) l' T' Q) -> typed strict p (m ≫= f) l T Q.
Proof.
  unfold mbind, code_bind. revert l T. induction m as [a|X o k IH]; intros l T; cbn [typed bind]; [auto|].
  generalize (fun x => IH x). destruct o; cbn [rule]; firstorder.
Qed.

Lemma typed_mono {A} (m : code A) l T (Q Q' : A -> local -> list token -> Prop) :
  typed strict p m l T Q -> (forall a l' T', Q a l' T' -> Q' a l' T') -> typed strict p m l T Q'.
Proof.
  intros H S. revert l T H. induction m as [a|X o k IH]; intros l T; cbn [typed]; [auto|].
  generalize (fun x => IH x). destruct o; cbn [rule]; firstorder.
Qed.

Definition unlocked (T : list token) : Prop := forall i q, TLock i q ∉ T.

Lemma unlocked_guarded T : unlocked T -> guarded T.
Proof. intros U i q I. destruct (U i q I). Qed.
Lemma unlocked_cons t T : unlocked T -> (forall i q, t <> TLock i q) -> unlocked (t :: T).
Proof. intros U N i q I. apply elem_of_cons in I as [I|I]; [destruct (N i q); auto|exact (U i q I)]. Qed.
Lemma unlocked_perm T T' : T ≡ₚ T' -> unlocked T -> unlocked T'.
Proof. intros P U i q I. rewrite <- P in I. exact (U i q I). Qed.

(** [put], in an operation, of a reference that is not all that keeps a lock. *)
Lemma typed_put i l T T1 (Q : unit -> local -> list token -> Prop) : TOp ∈ T -> T ≡ₚ (TInode i :: T1) -> guarded T1 -> has_ref i T1 \/ (TLock i p ∉ T) ->
  (forall T', T' ≡ₚ T1 -> Q tt l T') -> typed strict p (put i) l T Q.
Proof.
  intros Op Pm G C K. unfold put. cbn. split; [exact Op|]. exists T1. split; [exact Pm|]. split; [exact G|].
  split; [apply K; reflexivity|]. destruct C as [C|C]; [left; exact C|right]. split; [exact C|].
  exists T1. split; [rewrite Pm; reflexivity|]. split; [exact G|]. apply K. reflexivity.
Qed.

(** [close] of a reference, outside of an operation and with no lock. *)
Lemma typed_close f k l T T1 (Q : unit -> local -> list token -> Prop) : T ≡ₚ (TFile f k :: T1) -> unlocked T1 -> (TOp ∉ T1) ->
  (forall T', T' ≡ₚ T1 -> Q tt l T') -> typed strict p (close f) l T Q.
Proof.
  intros Pm U N K. unfold close. cbn. left. exists k, T1. split; [exact Pm|]. split; [apply unlocked_guarded, U|].
  split; [apply K; reflexivity|]. intros x Kx.
  assert (Inode : forall i, res k = TInode i -> typed strict p (act OBegin;; put i;; act OEnd) l (res k :: T1) Q).
  { intros i E. refine (conj _ _).
    - rewrite E. intros I. apply elem_of_cons in I as [I|I]; [discriminate|exact (N I)].
    - apply (typed_bind (put i) (fun _ => act OEnd)). apply (typed_put i l _ (TOp :: T1)).
      + left.
      + rewrite E. apply Permutation_swap.
      + apply unlocked_guarded, unlocked_cons; [exact U|discriminate].
      + right. rewrite E. intros I. apply elem_of_cons in I as [I|I]; [discriminate|]. apply elem_of_cons in I as [I|I]; [discriminate|exact (U _ _ I)].
      + intros T' P'. cbn. exists T1. split; [exact P'|]. apply K. reflexivity. }
  unfold kind_of in Kx. destruct (data x) as [|q|i off|i major]; [discriminate|..]; injection Kx as <-.
  - cbn. exists T1. split; [reflexivity|]. apply K. reflexivity.
  - exact (Inode i eq_refl).
  - exact (Inode i eq_refl).
Qed.

(** [close] of a file with nothing in it. *)
Lemma typed_close_fresh f l T T1 (Q : unit -> local -> list token -> Prop) : T ≡ₚ (TFresh f :: T1) -> Q tt l T1 -> typed strict p (close f) l T Q.
Proof.
  intros Pm K. unfold close. cbn. right. exists T1. split; [exact Pm|]. intros x Kx. unfold kind_of in Kx.
  destruct (data x); try discriminate. exact K.
Qed.

Lemma typed_allocate f l T (Q : option nat -> local -> list token -> Prop) fds :
  Forall (fun fd => fd < length (openFiles l))%nat fds ->
  (forall fd, openFiles l !! fd = Some None -> Q (Some fd) (Local (<[fd := Some f]> (openFiles l)) (cwd l)) T) ->
  ((forall fd, fd ∈ fds -> exists g, openFiles l !! fd = Some (Some g)) -> Q None l T) -> typed strict p (allocate_from fds f) l T Q.
Proof.
  intros B S N. induction fds as [|fd fds IH]; cbn.
  - apply N. intros fd I. inversion I.
  - inversion B as [|? ? Bd Bs]; subst. destruct (lookup_lt_is_Some_2 _ _ Bd) as [o E]. rewrite E. destruct o as [g|]; [|exact (S fd E)].
    apply IH; [exact Bs|]. intros A. apply N. intros fd' I. apply elem_of_cons in I as [->|I]; [exists g; exact E|exact (A fd' I)].
Qed.

(** * What a process owns between operations *)

(** The files of the descriptors, the directory, and [E]. *)
Definition toks (fs : list (option (nat * kind))) : list token :=
  flat_map (fun o => match o with Some (f, k) => [TFile f k] | None => [] end) fs.

Record own (fs : list (option (nat * kind))) (d : nat) (E : list token) (l : local) (T : list token) : Prop := {
  w_files : openFiles l = map (option_map fst) fs;
  w_cwd : cwd l = Some d;
  w_toks : T ≡ₚ toks fs ++ TInode d :: E;
}.

Lemma toks_unlocked fs d E : unlocked E -> unlocked (toks fs ++ TInode d :: E).
Proof.
  intros U i q I. apply elem_of_app in I as [I|I].
  - apply list_elem_of_In, in_flat_map in I as ([[f k]|] & _ & I); [destruct I as [I|[]]; discriminate|destruct I].
  - apply elem_of_cons in I as [I|I]; [discriminate|exact (U i q I)].
Qed.

Lemma toks_lock fs d E i : TLock i p ∈ toks fs ++ TInode d :: E -> TLock i p ∈ E.
Proof.
  intros I. apply elem_of_app in I as [I|I].
  - apply list_elem_of_In, in_flat_map in I as ([[f k]|] & _ & I); [destruct I as [I|[]]; discriminate|destruct I].
  - apply elem_of_cons in I as [I|I]; [discriminate|exact I].
Qed.

Lemma toks_op fs d E : TOp ∈ toks fs ++ TInode d :: E -> TOp ∈ E.
Proof.
  intros I. apply elem_of_app in I as [I|I].
  - apply list_elem_of_In, in_flat_map in I as ([[f k]|] & _ & I); [destruct I as [I|[]]; discriminate|destruct I].
  - apply elem_of_cons in I as [I|I]; [discriminate|exact I].
Qed.

(** Each lock in [E] is kept by a reference in [E]. *)
Definition kept (E : list token) : Prop := forall i q, TLock i q ∈ E -> TInode i ∈ E.

Lemma kept_guarded fs d E T : T ≡ₚ toks fs ++ TInode d :: E -> kept E -> guarded T.
Proof.
  intros Pm K. apply (guarded_perm (toks fs ++ TInode d :: E)); [symmetry; exact Pm|]. apply guarded_app.
  - apply unlocked_guarded. intros i q I. apply list_elem_of_In, in_flat_map in I as ([[f k]|] & _ & I); [destruct I as [I|[]]; discriminate|destruct I].
  - apply guarded_cons; [|discriminate]. intros i q I. left. exact (K i q I).
Qed.

(** [m], from descriptors [fs], directory [d] and [E]. *)
Definition tri {A} (fs : list (option (nat * kind))) (d : nat) (E : list token) (m : code A)
    (Q : A -> list (option (nat * kind)) -> nat -> list token -> Prop) : Prop :=
  forall l T, own fs d E l T -> typed strict p m l T (fun a l' T' => exists fs' d' E', own fs' d' E' l' T' /\ Q a fs' d' E').

Lemma tri_perm {A} fs d E E' (m : code A) Q : E ≡ₚ E' -> tri fs d E' m Q -> tri fs d E m Q.
Proof. intros P H l T [F C W]. apply H. split; auto. rewrite W, P. reflexivity. Qed.

Lemma tri_ret {A} fs d E (a : A) (Q : A -> list (option (nat * kind)) -> nat -> list token -> Prop) : Q a fs d E -> tri fs d E (Ret a) Q.
Proof. intros H l T W. exists fs, d, E. auto. Qed.

Lemma tri_bind {A B} fs d E (m : code A) (f : A -> code B) Q1 Q :
  tri fs d E m Q1 -> (forall a fs' d' E', Q1 a fs' d' E' -> tri fs' d' E' (f a) Q) -> tri fs d E (m ≫= f) Q.
Proof.
  intros H K l T W. apply typed_bind, (typed_mono _ _ _ _ _ (H l T W)). intros a l' T' (fs' & d' & E' & W' & Qa). exact (K a fs' d' E' Qa l' T' W').
Qed.

Lemma tri_mono {A} fs d E (m : code A) (Q Q' : A -> list (option (nat * kind)) -> nat -> list token -> Prop) :
  tri fs d E m Q -> (forall a fs' d' E', Q a fs' d' E' -> Q' a fs' d' E') -> tri fs d E m Q'.
Proof. intros H S l T W. apply (typed_mono _ _ _ _ _ (H l T W)). intros a l' T' (fs' & d' & E' & W' & Qa). exists fs', d', E'. auto. Qed.

(** A program and nothing after it. *)
Lemma typed_tail {A} (m : code A) l T Q : typed strict p (m ≫= fun a => Ret a) l T Q -> typed strict p m l T Q.
Proof.
  unfold mbind, code_bind. revert l T. induction m as [a|X o k IH]; intros l T; cbn [typed bind]; [auto|].
  generalize (fun x => IH x). destruct o; cbn [rule]; firstorder.
Qed.

Lemma tri_tail {A} fs d E (m : code A) Q : tri fs d E (m ≫= fun a => Ret a) Q -> tri fs d E m Q.
Proof. intros H l T W. apply typed_tail, (H l T W). Qed.

(** ** Operations *)

Lemma tri_ask fs d E {B} (k : bool -> code B) Q : (forall b, tri fs d E (k b) Q) -> tri fs d E (ask ≫= k) Q.
Proof. intros H l T W. cbn. intros a. exact (H _ l T W). Qed.

Lemma tri_transfer fs d E {B} (k : option Z -> code B) Q : (forall r, tri fs d E (k r) Q) -> tri fs d E (transfer ≫= k) Q.
Proof. intros H l T W. cbn. intros a. exact (H _ l T W). Qed.

Lemma own_cons fs d E l T t : own fs d E l T -> own fs d (t :: E) l (t :: T).
Proof. intros [F C W]. split; auto. rewrite W. solve_Permutation. Qed.

Lemma own_uncons fs d E E1 l T t : own fs d E l T -> E ≡ₚ (t :: E1) -> exists T1, T ≡ₚ (t :: T1) /\ own fs d E1 l T1.
Proof.
  intros [F C W] P. exists (toks fs ++ TInode d :: E1). split; [rewrite W, P; solve_Permutation|]. split; auto.
Qed.

Lemma own_in fs d E l T t : own fs d E l T -> t ∈ E -> t ∈ T.
Proof. intros [F C W] I. rewrite W. apply elem_of_app. right. right. exact I. Qed.

Lemma own_lock fs d E l T i : own fs d E l T -> (TLock i p ∉ E) -> TLock i p ∉ T.
Proof. intros [F C W] N I. rewrite W in I. exact (N (toks_lock _ _ _ _ I)). Qed.

Lemma tri_begin fs d E {B} (k : unit -> code B) Q : (TOp ∉ E) -> tri fs d (TOp :: E) (k tt) Q -> tri fs d E (act OBegin ≫= k) Q.
Proof.
  intros N H l T W. cbn. split; [|exact (H _ _ (own_cons _ _ _ _ _ _ W))]. destruct W as [F C W]. rewrite W. intros I. exact (N (toks_op _ _ _ I)).
Qed.

Lemma tri_end fs d E E1 {B} (k : unit -> code B) Q : E ≡ₚ (TOp :: E1) -> tri fs d E1 (k tt) Q -> tri fs d E (act OEnd ≫= k) Q.
Proof. intros P H l T W. cbn. destruct (own_uncons _ _ _ _ _ _ _ W P) as (T1 & P1 & W1). exists T1. split; [exact P1|exact (H _ _ W1)]. Qed.

(** The process may try to take a lock it has: it never gets it then. *)
Lemma tri_relock fs d E i {B} (k : unit -> code B) Q : TInode i ∈ E -> (TLock i p ∈ E -> TOp ∈ E /\ ~ strict) -> ((TLock i p ∉ E) -> tri fs d (TLock i p :: E) (k tt) Q) ->
  tri fs d E (act (OLock i) ≫= k) Q.
Proof.
  intros I N H l T W. cbn. split; [left; exact (own_in _ _ _ _ _ _ W I)|]. split.
  { intros I2. destruct (decide (TLock i p ∈ E)) as [J|J]; [|destruct (own_lock _ _ _ _ _ _ W J I2)]. destruct (N J) as [Op St]. split; [exact (own_in _ _ _ _ _ _ W Op)|exact St]. }
  intros O. apply (H (fun I => O (own_in _ _ _ _ _ _ W I))), own_cons, W.
Qed.

Lemma tri_lock fs d E i {B} (k : unit -> code B) Q : TInode i ∈ E -> (TLock i p ∉ E) -> tri fs d (TLock i p :: E) (k tt) Q ->
  tri fs d E (act (OLock i) ≫= k) Q.
Proof. intros I N H. apply tri_relock; [exact I|intros J; destruct (N J)|auto]. Qed.

Lemma tri_release fs d E E1 i {B} (k : unit -> code B) Q : E ≡ₚ (TLock i p :: E1) -> tri fs d E1 (k tt) Q -> tri fs d E (act (ORelease i) ≫= k) Q.
Proof. intros P H l T W. cbn. destruct (own_uncons _ _ _ _ _ _ _ W P) as (T1 & P1 & W1). exists T1. split; [exact P1|exact (H _ _ W1)]. Qed.

Lemma tri_put fs d E E1 i {B} (k : unit -> code B) Q : TOp ∈ E -> E ≡ₚ (TInode i :: E1) -> kept E1 -> TInode i ∈ E1 \/ (TLock i p ∉ E) ->
  tri fs d E1 (k tt) Q -> tri fs d E (put i ≫= k) Q.
Proof.
  intros Op P K C H l T W. destruct (own_uncons _ _ _ _ _ _ _ W P) as (T1 & P1 & W1). apply typed_bind, (typed_put i l T T1).
  - exact (own_in _ _ _ _ _ _ W Op).
  - exact P1.
  - exact (kept_guarded fs d E1 T1 (w_toks _ _ _ _ _ W1) K).
  - destruct C as [C|C]; [left; left; exact (own_in _ _ _ _ _ _ W1 C)|right; exact (own_lock _ _ _ _ _ _ W C)].
  - intros T' P'. apply H. destruct W1 as [F Cw W1]. split; auto. rewrite P'. exact W1.
Qed.

Lemma tri_releasePut fs d E E1 i {B} (k : unit -> code B) Q : TOp ∈ E -> E ≡ₚ (TLock i p :: TInode i :: E1) -> kept E1 -> (TLock i p ∉ E1) ->
  tri fs d E1 (k tt) Q -> tri fs d E (releasePut i ≫= k) Q.
Proof.
  intros Op P K N H. change (tri fs d E (act (ORelease i) ≫= (fun _ => put i ≫= k)) Q). apply (tri_release _ _ _ (TInode i :: E1)); [exact P|].
  apply (tri_put _ _ _ E1); auto.
  - rewrite P in Op. apply elem_of_cons in Op as [Op|Op]; [discriminate|exact Op].
  - right. intros I. apply elem_of_cons in I as [I|I]; [discriminate|exact (N I)].
Qed.

Lemma tri_type fs d E i {B} (k : itype -> code B) Q : TLock i p ∈ E -> (forall t, tri fs d E (k t) Q) -> tri fs d E (act (OType i) ≫= k) Q.
Proof. intros I H l T W. cbn. split; [exact (own_in _ _ _ _ _ _ W I)|]. intros t. exact (H t _ _ W). Qed.

Lemma tri_device fs d E i {B} (k : Z -> code B) Q : TInode i ∈ E -> (forall t, tri fs d E (k t) Q) -> tri fs d E (act (ODevice i) ≫= k) Q.
Proof. intros I H l T W. cbn. split; [left; exact (own_in _ _ _ _ _ _ W I)|]. intros t. exact (H t _ _ W). Qed.

Lemma tri_get fs d E dev n {B} (k : nat -> code B) Q : (forall i, tri fs d (TInode i :: E) (k i) Q) -> tri fs d E (act (OGet dev n) ≫= k) Q.
Proof. intros H l T W. cbn. intros i. exact (H i _ _ (own_cons _ _ _ _ _ _ W)). Qed.

Lemma tri_lookup fs d E i name {B} (k : option nat -> code B) Q : TLock i p ∈ E -> tri fs d E (k None) Q ->
  (forall j, (j = i -> dots name = true) -> tri fs d (TInode j :: E) (k (Some j)) Q) -> tri fs d E (act (OLookup i name) ≫= k) Q.
Proof.
  intros I N H l T W. cbn. split; [exact (own_in _ _ _ _ _ _ W I)|]. split; [exact (N _ _ W)|]. intros j J.
  exact (H j J _ _ (own_cons _ _ _ _ _ _ W)).
Qed.

Lemma tri_new fs d E i {B} (k : option nat -> code B) Q : TLock i p ∈ E -> tri fs d E (k None) Q ->
  (forall j, j <> i -> tri fs d (TInode j :: E) (k (Some j)) Q) -> tri fs d E (act (ONew i) ≫= k) Q.
Proof.
  intros I N H l T W. cbn. split; [exact (own_in _ _ _ _ _ _ W I)|]. split; [exact (N _ _ W)|]. intros j J.
  exact (H j J _ _ (own_cons _ _ _ _ _ _ W)).
Qed.

Lemma tri_cwd fs d E {B} (k : option nat -> code B) Q : tri fs d E (k (Some d)) Q -> tri fs d E (act OCwd ≫= k) Q.
Proof. intros H l T W. cbn. rewrite (w_cwd _ _ _ _ _ W). exact (H _ _ W). Qed.

Lemma tri_idup_cwd fs d E {B} (k : unit -> code B) Q : tri fs d (TInode d :: E) (k tt) Q -> tri fs d E (act (OIdup d) ≫= k) Q.
Proof.
  intros H l T W. cbn. split; [|exact (H _ _ (own_cons _ _ _ _ _ _ W))]. left. destruct W as [F C W]. rewrite W. apply elem_of_app. right. left.
Qed.

(** A file the process has open. *)
Lemma own_file fs d E l T fd f k : own fs d E l T -> fs !! fd = Some (Some (f, k)) -> TFile f k ∈ T.
Proof.
  intros [F C W] I. rewrite W. apply elem_of_app. left. apply list_elem_of_In, in_flat_map. exists (Some (f, k)).
  split; [apply list_elem_of_In, (list_elem_of_lookup_2 _ _ _ I)|left; reflexivity].
Qed.

Lemma own_fd fs d E l T fd : own fs d E l T ->
  match openFiles l !! fd with Some o => o | None => None end = match fs !! fd with Some (Some (f, _)) => Some f | _ => None end.
Proof. intros [F C W]. rewrite F, list_lookup_fmap. destruct (fs !! fd) as [[[f k]|]|]; reflexivity. Qed.

(** ** Paths *)

Ltac mem := match goal with |- _ ∈ _ => first [assumption | apply list_elem_of_here | apply list_elem_of_further; mem] end.
Ltac nomem :=
  match goal with |- ?t ∉ _ => let I := fresh in intros I;
    repeat (apply elem_of_cons in I as [I|I]; [first [discriminate I | injection I; intros; subst; congruence]|]);
    first [solve [inversion I] | match goal with U : unlocked _ |- _ => exact (U _ _ I) | N : _ ∉ _ |- _ => exact (N I) end]
  end.
Ltac keeps :=
  match goal with |- kept _ => let I := fresh in intros ? ? I;
    repeat (apply elem_of_cons in I as [I|I]; [first [discriminate I | injection I; intros; subst; mem]|]);
    first [solve [inversion I] | match goal with U : unlocked _ |- _ => destruct (U _ _ I) end]
  end.
Ltac side := first [mem | nomem | keeps | solve_Permutation | (right; nomem) | (left; mem)].

Lemma tri_resolve_loop rp es : forall fs d E cur, unlocked E -> TOp ∈ E ->
  tri fs d (TInode cur :: E) (resolve_loop rp es cur) (fun r fs' d' E' => fs' = fs /\ d' = d /\
    match r with None => E' = E | Some (i, n) => E' = TInode i :: E /\ (rp = true -> (n, true) ∈ es) end).
Proof.
  induction es as [|[name last] es IH]; intros fs d E cur U Op; cbn [resolve_loop].
  - destruct rp.
    + apply (tri_put _ _ _ E); try side. apply tri_ret. auto.
    + apply tri_ret. split; [reflexivity|]. split; [reflexivity|]. split; [reflexivity|discriminate].
  - apply tri_lock; try side. apply tri_type; [side|]. intros t.
    assert (Out : forall (m : code (option (nat * list Z))) Q, tri fs d E m Q -> tri fs d (TLock cur p :: TInode cur :: E) (releasePut cur;; m) Q).
    { intros m Q H. apply (tri_releasePut _ _ _ E); try side. exact H. }
    destruct t; try (apply Out, tri_ret; auto). destruct (rp && last) eqn:B.
    + apply andb_prop in B as [-> ->]. apply (tri_release _ _ _ (TInode cur :: E)); try side. apply tri_ret.
      split; [reflexivity|]. split; [reflexivity|]. split; [reflexivity|]. intros _. left.
    + apply tri_lookup; [side| |].
      * apply Out, tri_ret. auto.
      * intros j _. apply (tri_releasePut _ _ _ (TInode j :: E)); try side. eapply tri_mono; [apply IH; assumption|].
        intros r fs' d' E' (-> & -> & X). split; [reflexivity|]. split; [reflexivity|]. destruct r as [[i n]|]; [|exact X].
        destruct X as [-> X]. split; [reflexivity|]. intros Rp. right. exact (X Rp).
Qed.

Lemma tri_resolve rp path fs d E : unlocked E -> TOp ∈ E ->
  tri fs d E (resolvePathHelper path rp) (fun r fs' d' E' => fs' = fs /\ d' = d /\
    match r with None => E' = E | Some (i, n) => E' = TInode i :: E /\ (rp = true -> (n, true) ∈ elements (S (length path)) path) end).
Proof.
  intros U Op. unfold resolvePathHelper. destruct path as [|c path]; [apply tri_ret; auto|]. set (es := elements _ _).
  apply (tri_bind _ _ _ _ _ (fun o fs' d' E' => fs' = fs /\ d' = d /\ exists i, o = Some i /\ E' = TInode i :: E)).
  - destruct (c =? slash).
    + apply tri_get. intros i. apply tri_ret. eauto 10.
    + apply tri_cwd. apply tri_idup_cwd. apply tri_ret. eauto 10.
  - intros o fs' d' E' (-> & -> & i & -> & ->). apply tri_resolve_loop; assumption.
Qed.

Lemma tri_resolvePath path fs d E {B} (k : option nat -> code B) Q : unlocked E -> TOp ∈ E ->
  tri fs d E (k None) Q -> (forall i, tri fs d (TInode i :: E) (k (Some i)) Q) -> tri fs d E (resolvePath path ≫= k) Q.
Proof.
  intros U Op N S. apply (tri_bind _ _ _ _ _ (fun o fs' d' E' => fs' = fs /\ d' = d /\ match o with None => E' = E | Some i => E' = TInode i :: E end)).
  - unfold resolvePath. eapply tri_bind; [apply tri_resolve; assumption|]. intros r fs' d' E' (-> & -> & X). apply tri_ret.
    destruct r as [[i n]|]; [destruct X as [-> _]|]; auto.
  - intros o fs' d' E' (-> & -> & X). destruct o as [i|]; rewrite X; auto.
Qed.

Lemma tri_resolvePathParent path fs d E {B} (k : option (nat * list Z) -> code B) Q : unlocked E -> TOp ∈ E ->
  tri fs d E (k None) Q -> (forall i n, (n, true) ∈ elements (S (length path)) path -> tri fs d (TInode i :: E) (k (Some (i, n))) Q) ->
  tri fs d E (resolvePathParent path ≫= k) Q.
Proof.
  intros U Op N S. eapply tri_bind; [apply (tri_resolve true); assumption|]. intros o fs' d' E' (-> & -> & X).
  destruct o as [[i n]|]; [destruct X as [-> X]; exact (S i n (X eq_refl))|rewrite X; exact N].
Qed.

Lemma plain_last path n : plain path = true -> (n, true) ∈ elements (S (length path)) path -> dots n = false.
Proof.
  intros P I. apply list_elem_of_In in I. pose proof (proj1 (forallb_forall _ _) P _ I) as H. cbn [fst snd andb] in H.
  destruct (dots n); [discriminate|reflexivity].
Qed.

Lemma tri_linkEntry dir name fs d E : TOp ∈ E -> TLock dir p ∈ E -> kept E ->
  tri fs d E (linkEntry dir name) (fun b fs' d' E' => fs' = fs /\ d' = d /\ E' = E).
Proof.
  intros Op L K. unfold linkEntry. destruct (27 <? length name)%nat; [apply tri_ret; auto|].
  apply tri_lookup; [exact L| |].
  - intros l T W. cbn. intros a. exists fs, d, E. auto.
  - intros j _. apply (tri_put _ _ _ E); [mem|reflexivity|exact K| |apply tri_ret; auto].
    destruct (decide (TLock j p ∈ E)) as [I|I]; [left; exact (K j p I)|right; nomem].
Qed.

Lemma tri_create path kd fs d E {B} (k : option nat -> code B) Q : unlocked E -> TOp ∈ E -> (strict -> plain path = true) ->
  tri fs d E (k None) Q -> (forall i, tri fs d (TLock i p :: TInode i :: E) (k (Some i)) Q) -> tri fs d E (create path kd ≫= k) Q.
Proof.
  intros U Op Pl N S. unfold create.
  apply (tri_bind _ _ _ _ _ (fun o fs' d' E' => fs' = fs /\ d' = d /\ match o with None => E' = E | Some i => E' ≡ₚ (TLock i p :: TInode i :: E) end)).
  2:{ intros o fs' d' E' (-> & -> & X). destruct o as [i|]; [apply (tri_perm _ _ _ _ _ _ X), S|rewrite X; exact N]. }
  clear N S k Q. apply tri_resolvePathParent; [assumption..|apply tri_ret; auto|]. intros parent name Nm.
  assert (Pl' : strict -> dots name = false) by (intros St; apply (plain_last path); auto). clear Pl Nm. rename Pl' into Pl.
  apply tri_lock; try side.
  assert (Fail : forall i, i <> parent -> tri fs d (TLock i p :: TInode i :: TLock parent p :: TInode parent :: E) (releasePut i;; releasePut parent;; Ret None)
    (fun o fs' d' E' => fs' = fs /\ d' = d /\ match o with None => E' = E | Some i => E' ≡ₚ (TLock i p :: TInode i :: E) end)).
  { intros i Ni. apply (tri_releasePut _ _ _ (TLock parent p :: TInode parent :: E)); try side.
    apply (tri_releasePut _ _ _ E); try side. apply tri_ret. auto. }
  assert (Good : forall i, i <> parent -> tri fs d (TLock i p :: TInode i :: TLock parent p :: TInode parent :: E) (releasePut parent;; Ret (Some i))
    (fun o fs' d' E' => fs' = fs /\ d' = d /\ match o with None => E' = E | Some i => E' ≡ₚ (TLock i p :: TInode i :: E) end)).
  { intros i Ni. apply (tri_releasePut _ _ _ (TLock i p :: TInode i :: E)); try side. apply tri_ret. auto. }
  apply tri_lookup; [side| |].
  - apply tri_new; [side| |].
    + apply (tri_releasePut _ _ _ E); try side. apply tri_ret. auto.
    + intros i Ni. apply tri_lock; try side.
      apply (tri_bind _ _ _ _ _ (fun (b : bool) fs' d' E' => fs' = fs /\ d' = d /\ E' = TLock i p :: TInode i :: TLock parent p :: TInode parent :: E)).
      * destruct kd; try (apply tri_ret; auto). eapply tri_bind; [apply tri_linkEntry; side|].
        intros b fs' d' E' (-> & -> & ->). destruct b; [apply tri_linkEntry; side|apply tri_ret; auto].
      * intros b fs' d' E' (-> & -> & ->). destruct b; [|apply Fail, Ni]. eapply tri_bind; [apply tri_linkEntry; side|].
        intros b fs' d' E' (-> & -> & ->). destruct b; [apply Good, Ni|apply Fail, Ni].
  - intros i Di. apply tri_relock; [side| |].
    { intros J. split; [mem|]. intros St. assert (Ni : i <> parent) by (intros ->; rewrite Di in Pl; [discriminate (Pl St)|reflexivity]).
      assert (Nm : TLock i p ∉ (TInode i :: TLock parent p :: TInode parent :: E)) by nomem. exact (Nm J). }
    intros O. assert (Ni : i <> parent) by (intros ->; apply O; mem). apply tri_type; [side|]. intros t.
    destruct kd, t; first [apply Good, Ni | apply Fail, Ni].
Qed.

(** ** Descriptors *)

Lemma toks_insert fs fd o o' : fs !! fd = Some o -> exists r,
  toks fs ≡ₚ match o with Some (f, k) => [TFile f k] | None => [] end ++ r /\
  toks (<[fd := o']> fs) ≡ₚ match o' with Some (f, k) => [TFile f k] | None => [] end ++ r.
Proof. apply (flat_map_insert (fun o => match o with Some (f, k) => [TFile f k] | None => [] end)). Qed.

Lemma files_insert (fs : list (option (nat * kind))) fd o : map (option_map fst) (<[fd := o]> fs) = <[fd := option_map fst o]> (map (option_map fst) fs).
Proof. apply (list_fmap_insert (option_map fst)). Qed.

(** A descriptor is cleared, and the process keeps the reference. *)
Lemma tri_clear fs d E fd f kd {B} (k : unit -> code B) Q : fs !! fd = Some (Some (f, kd)) ->
  tri (<[fd := None]> fs) d (TFile f kd :: E) (k tt) Q -> tri fs d E (act (OFdSet fd None) ≫= k) Q.
Proof.
  intros I H l T [F C W]. apply (H (Local (<[fd := None]> (openFiles l)) (cwd l)) T). destruct (toks_insert fs fd _ None I) as (r & P1 & P2). split.
  - rewrite files_insert, <- F. reflexivity.
  - exact C.
  - rewrite W, P1, P2. solve_Permutation.
Qed.

Lemma tri_allocate fs d E E1 f kd {B} (k : option nat -> code B) Q : length fs = NOFILE -> E ≡ₚ (TFile f kd :: E1) ->
  (forall fd, fs !! fd = Some None -> tri (<[fd := Some (f, kd)]> fs) d E1 (k (Some fd)) Q) ->
  ((forall fd, fs !! fd <> Some None) -> tri fs d E (k None) Q) -> tri fs d E (fileDescriptorAllocate f ≫= k) Q.
Proof.
  intros L P S N l T W. pose proof W as [F C Wt].
  assert (Lf : length (openFiles l) = NOFILE) by (rewrite F, length_map; exact L).
  apply typed_bind, typed_allocate.
  - apply List.Forall_forall. intros fd I. apply in_seq in I. lia.
  - intros fd I. rewrite F in I. rewrite list_lookup_fmap in I. destruct (fs !! fd) as [[[g kg]|]|] eqn:Fd; try discriminate.
    apply (S fd Fd). destruct (toks_insert fs fd _ (Some (f, kd)) Fd) as (r & P1 & P2). split.
    + rewrite files_insert, <- F. reflexivity.
    + exact C.
    + rewrite Wt, P, P1, P2. solve_Permutation.
  - intros A. apply N; [|exact W]. intros fd Fd. destruct (A fd) as (g & G).
    + apply list_elem_of_In, in_seq. pose proof (lookup_lt_Some _ _ _ Fd). lia.
    + rewrite F, list_lookup_fmap, Fd in G. discriminate.
Qed.

Lemma tri_close fs d E E1 f kd {B} (k : unit -> code B) Q : E ≡ₚ (TFile f kd :: E1) -> unlocked E1 -> (TOp ∉ E1) ->
  tri fs d E1 (k tt) Q -> tri fs d E (close f ≫= k) Q.
Proof.
  intros P U N H l T W. destruct (own_uncons _ _ _ _ _ _ _ W P) as (T1 & P1 & W1). pose proof W1 as [F C Wt].
  apply typed_bind, (typed_close f kd l T T1); [exact P1| | |].
  - apply (unlocked_perm (toks fs ++ TInode d :: E1)); [symmetry; exact Wt|apply toks_unlocked, U].
  - rewrite Wt. intros I. exact (N (toks_op _ _ _ I)).
  - intros T' P'. apply H. split; auto. rewrite P'. exact Wt.
Qed.

Lemma tri_close_fresh fs d E E1 f {B} (k : unit -> code B) Q : E ≡ₚ (TFresh f :: E1) -> tri fs d E1 (k tt) Q -> tri fs d E (close f ≫= k) Q.
Proof.
  intros P H l T W. destruct (own_uncons _ _ _ _ _ _ _ W P) as (T1 & P1 & W1). apply typed_bind, (typed_close_fresh f l T T1); [exact P1|].
  exact (H _ _ W1).
Qed.

(** The file of a descriptor is closed before the descriptor is cleared. *)
Lemma tri_close_fd fs d E fd f kd {B} (k : unit -> code B) Q : fs !! fd = Some (Some (f, kd)) -> unlocked E -> (TOp ∉ E) ->
  tri (<[fd := None]> fs) d E (k tt) Q -> tri fs d E (close f;; act (OFdSet fd None) ≫= k) Q.
Proof.
  intros I U N H l T [F C W]. destruct (toks_insert fs fd _ None I) as (r & P1 & P2).
  apply typed_bind, (typed_close f kd l T (toks (<[fd := None]> fs) ++ TInode d :: E)).
  - rewrite W, P1, P2. solve_Permutation.
  - apply toks_unlocked, U.
  - intros J. exact (N (toks_op _ _ _ J)).
  - intros T' P'. apply (H (Local (<[fd := None]> (openFiles l)) (cwd l)) T'). split; [rewrite files_insert, <- F; reflexivity|exact C|exact P'].
Qed.

Lemma tri_alloc fs d E {B} (k : option nat -> code B) Q : tri fs d E (k None) Q -> (forall f, tri fs d (TFresh f :: E) (k (Some f)) Q) ->
  tri fs d E (act OAlloc ≫= k) Q.
Proof. intros N S l T W. cbn. split; [exact (N _ _ W)|]. intros f. exact (S f _ _ (own_cons _ _ _ _ _ _ W)). Qed.

Lemma tri_set fs d E E1 f data r w kd {B} (k : unit -> code B) Q : kind_of (File 1 r w data) = Some kd -> E ≡ₚ (TFresh f :: res kd :: E1) ->
  tri fs d (TFile f kd :: E1) (k tt) Q -> tri fs d E (act (OSet f data r w) ≫= k) Q.
Proof.
  intros K P H l T W. cbn. exists kd, (toks fs ++ TInode d :: E1). split; [exact K|]. pose proof W as [F C Wt]. split; [rewrite Wt, P; solve_Permutation|].
  apply H. split; [exact F|exact C|]. solve_Permutation.
Qed.

Lemma tri_pipe fs d E {B} (k : option nat -> code B) Q : tri fs d E (k None) Q ->
  (forall q, tri fs d (TPipe q false :: TPipe q true :: E) (k (Some q)) Q) -> tri fs d E (act OPipe ≫= k) Q.
Proof.
  intros N S l T W. cbn. split; [exact (N _ _ W)|]. intros q. apply S. apply own_cons, own_cons, W.
Qed.

Lemma tri_fdget fs d E fd o {B} (k : option nat -> code B) Q : fs !! fd = Some o -> tri fs d E (k (option_map fst o)) Q ->
  tri fs d E (act (OFdGet fd) ≫= k) Q.
Proof. intros I H l T W. cbn. rewrite (own_fd _ _ _ _ _ _ W), I. destruct o as [[f kd]|]; exact (H l T W). Qed.

Lemma tri_getFile fs d E fd {B} (k : option nat -> code B) Q : tri fs d E (k None) Q ->
  (forall f kd, fs !! Z.to_nat fd = Some (Some (f, kd)) -> tri fs d E (k (Some f)) Q) -> tri fs d E (getFile fd ≫= k) Q.
Proof.
  intros N S. unfold getFile. destruct (_ || _); [exact N|]. intros l T W. cbn. rewrite (own_fd _ _ _ _ _ _ W).
  destruct (fs !! Z.to_nat fd) as [[[f kd]|]|] eqn:I; [exact (S f kd eq_refl l T W)|exact (N l T W)..].
Qed.

Lemma tri_dup fs d E fd f kd {B} (k : unit -> code B) Q : fs !! fd = Some (Some (f, kd)) -> tri fs d (TFile f kd :: E) (k tt) Q ->
  tri fs d E (act (ODup f) ≫= k) Q.
Proof. intros I H l T W. cbn. exists kd. split; [exact (own_file _ _ _ _ _ _ _ _ W I)|exact (H _ _ (own_cons _ _ _ _ _ _ W))]. Qed.

Lemma tri_data fs d E fd f kd {B} (k : file -> code B) Q : fs !! fd = Some (Some (f, kd)) -> (forall x, kind_of x = Some kd -> tri fs d E (k x) Q) ->
  tri fs d E (act (OData f) ≫= k) Q.
Proof. intros I H l T W. cbn. exists kd. split; [exact (own_file _ _ _ _ _ _ _ _ W I)|]. intros x K. exact (H x K _ _ W). Qed.

Lemma tri_seek fs d E fd f kd n {B} (k : unit -> code B) Q : fs !! fd = Some (Some (f, kd)) -> tri fs d E (k tt) Q -> tri fs d E (act (OSeek f n) ≫= k) Q.
Proof. intros I H l T W. cbn. exists kd. split; [exact (own_file _ _ _ _ _ _ _ _ W I)|exact (H _ _ W)]. Qed.

(** The lock of the inode of an open file. *)
Lemma tri_lock_file fs d E fd f kd i {B} (k : unit -> code B) Q : fs !! fd = Some (Some (f, kd)) -> res kd = TInode i -> (TLock i p ∉ E) ->
  tri fs d (TLock i p :: E) (k tt) Q -> tri fs d E (act (OLock i) ≫= k) Q.
Proof.
  intros I R N H l T W. cbn. split; [right; exists f, kd; split; [exact (own_file _ _ _ _ _ _ _ _ W I)|exact R]|].
  split; [intros J; destruct (own_lock _ _ _ _ _ _ W N J)|intros _; exact (H _ _ (own_cons _ _ _ _ _ _ W))].
Qed.

(** The directory is put, and another one takes its place. *)
Lemma tri_chdir fs d i E {B} (k : unit -> code B) Q : unlocked E -> TOp ∈ E -> tri fs i E (k tt) Q ->
  tri fs d (TInode i :: E) (put d;; act (OCwdSet i) ≫= k) Q.
Proof.
  intros U Op H l T [F C W]. apply typed_bind, (typed_put d l T (toks fs ++ TInode i :: E)).
  - rewrite W. apply elem_of_app. right. right. right. exact Op.
  - rewrite W. solve_Permutation.
  - apply unlocked_guarded, toks_unlocked, U.
  - right. rewrite W. intros I. apply toks_lock in I. apply elem_of_cons in I as [I|I]; [discriminate|exact (U _ _ I)].
  - intros T' P'. apply (H (Local (openFiles l) (Some i)) T'). split; [exact F|reflexivity|exact P'].
Qed.

(** * The calls *)

(** A call ends with nothing but what the descriptors and the directory own. *)
Definition rests {A} (_ : A) (fs : list (option (nat * kind))) (_ : nat) (E : list token) : Prop := length fs = NOFILE /\ E = [].

Lemma tri_rest {A} fs d (a : A) : length fs = NOFILE -> tri fs d [] (Ret a) rests.
Proof. intros L. apply tri_ret. split; auto. Qed.

Lemma nil_unlocked : unlocked [].
Proof. intros i q I. inversion I. Qed.
Lemma op_unlocked : unlocked [TOp].
Proof. apply unlocked_cons; [exact nil_unlocked|discriminate]. Qed.
Lemma ref_unlocked i : unlocked [TInode i; TOp].
Proof. apply unlocked_cons; [exact op_unlocked|discriminate]. Qed.
#[local] Hint Resolve nil_unlocked op_unlocked ref_unlocked tri_rest : core.

Ltac ends := apply tri_end with (E1 := []); [reflexivity|]; auto.

Lemma sys_dup_typed fs d fd : length fs = NOFILE -> tri fs d [] (sys_dup fd) rests.
Proof.
  intros L. unfold sys_dup. apply tri_getFile; [auto|]. intros f kd I l T W. apply typed_bind, typed_allocate.
  - pose proof (w_files _ _ _ _ _ W) as F. apply List.Forall_forall. intros n J. apply in_seq in J. rewrite F, length_map. lia.
  - intros n J. cbn. exists kd. split; [exact (own_file _ _ _ _ _ _ _ _ W I)|]. destruct W as [F C W].
    rewrite F, list_lookup_fmap in J. destruct (fs !! n) as [[[g kg]|]|] eqn:Fn; try discriminate.
    destruct (toks_insert fs n _ (Some (f, kd)) Fn) as (r & P1 & P2). exists (<[n := Some (f, kd)]> fs), d, [].
    split; [|split; [rewrite length_insert; exact L|reflexivity]]. split; [rewrite files_insert, <- F; reflexivity|exact C|].
    rewrite P2, W, P1. solve_Permutation.
  - intros _. exists fs, d, []. split; [exact W|]. split; auto.
Qed.

Lemma sys_close_typed fs d fd : length fs = NOFILE -> tri fs d [] (sys_close fd) rests.
Proof.
  intros L. unfold sys_close. apply tri_getFile; [auto|]. intros f kd I. apply (tri_clear _ _ _ _ f kd); [exact I|].
  apply (tri_close _ _ _ [] f kd); [reflexivity|auto|nomem|]. apply tri_rest. rewrite length_insert. exact L.
Qed.

Lemma sys_fstat_typed fs d fd : length fs = NOFILE -> tri fs d [] (sys_fstat fd) rests.
Proof.
  intros L. unfold sys_fstat. apply tri_getFile; [auto|]. intros f kd I. apply (tri_bind _ _ _ _ _ rests).
  - unfold getStatus. apply (tri_data _ _ _ _ f kd _ _ I). intros x K.
    assert (In : forall i, res kd = TInode i -> tri fs d [] (act (OLock i);; act (ORelease i);; ask) rests).
    { intros i R. eapply (tri_lock_file _ _ _ _ f kd); [exact I|exact R|nomem|]. apply (tri_release _ _ _ []); [reflexivity|].
      intros l T W. cbn. intros a. exists fs, d, []. split; [exact W|]. split; auto. }
    unfold kind_of in K. destruct (data x); try (injection K as <-); auto.
  - intros b fs' d' E' [L' ->]. auto.
Qed.

Lemma sys_read_typed fs d fd n : length fs = NOFILE -> tri fs d [] (sys_read fd n) rests.
Proof.
  intros L. unfold sys_read. apply tri_getFile; [auto|]. intros f kd I. unfold read. apply (tri_data _ _ _ _ f kd _ _ I). intros x K.
  assert (Tr : tri fs d [] transfer rests).
  { intros l T W. cbn. intros a. exists fs, d, []. split; [exact W|]. split; auto. }
  destruct (negb _); [auto|]. unfold kind_of in K. destruct (data x) as [|q|i off|i major]; [auto|exact Tr| |destruct (_ <=? _); auto].
  injection K as <-. eapply (tri_lock_file _ _ _ _ f (KInode i)); [exact I|reflexivity|nomem|]. apply tri_transfer. intros [m|].
  - apply (tri_seek _ _ _ _ f _ _ _ _ I). apply (tri_release _ _ _ []); auto.
  - apply (tri_release _ _ _ []); auto.
Qed.

Lemma write_loop_typed fs d fd f i ps : length fs = NOFILE -> fs !! fd = Some (Some (f, KInode i)) -> tri fs d [] (write_loop f i ps) 
  (fun _ fs' d' E' => fs' = fs /\ E' = []).
Proof.
  intros L I. induction ps as [|b ps IH]; cbn [write_loop]; [apply tri_ret; auto|].
  apply tri_begin; [nomem|]. eapply (tri_lock_file _ _ _ _ f (KInode i)); [exact I|reflexivity|nomem|]. apply tri_transfer. intros [m|].
  - apply (tri_seek _ _ _ _ f _ _ _ _ I). apply (tri_release _ _ _ [TOp]); [reflexivity|]. ends. destruct (m =? b); [exact IH|apply tri_ret; auto].
  - apply (tri_release _ _ _ [TOp]); [reflexivity|]. ends. apply tri_ret. auto.
Qed.

Lemma sys_write_typed fs d fd n : length fs = NOFILE -> tri fs d [] (sys_write fd n) rests.
Proof.
  intros L. unfold sys_write. apply tri_getFile; [auto|]. intros f kd I. unfold write. apply (tri_data _ _ _ _ f kd _ _ I). intros x K.
  assert (Tr : tri fs d [] transfer rests).
  { intros l T W. cbn. intros a. exists fs, d, []. split; [exact W|]. split; auto. }
  destruct (negb _); [auto|]. unfold kind_of in K. destruct (data x) as [|q|i off|i major]; [auto|exact Tr| |destruct (_ <=? _); auto].
  injection K as <-. eapply tri_bind; [exact (write_loop_typed _ _ _ _ _ _ L I)|]. intros b fs' d' E' (-> & ->). auto.
Qed.

Lemma sys_mkdir_typed fs d path : length fs = NOFILE -> (strict -> plain path = true) -> tri fs d [] (sys_mkdir path) rests.
Proof.
  intros L P. unfold sys_mkdir. apply tri_begin; [nomem|]. apply tri_create; [auto|mem|exact P|ends|].
  intros i. apply (tri_releasePut _ _ _ [TOp]); try side. ends.
Qed.

Lemma sys_mknod_typed fs d path major minor : length fs = NOFILE -> (strict -> plain path = true) -> tri fs d [] (sys_mknod path major minor) rests.
Proof.
  intros L P. unfold sys_mknod. destruct (_ || _); [auto|]. apply tri_begin; [nomem|]. apply tri_create; [auto|mem|exact P|ends|].
  intros i. apply (tri_releasePut _ _ _ [TOp]); try side. ends.
Qed.

Lemma open_file_typed fs d i m : length fs = NOFILE -> (exists fd, fs !! fd = Some None) ->
  tri fs d [TLock i p; TInode i; TOp] (open_file i m) (fun _ fs' d' E' => length fs' = NOFILE /\ E' = [TOp]).
Proof.
  intros L (n & Free). unfold open_file. apply tri_type; [mem|]. intros t.
  assert (Fail : tri fs d [TLock i p; TInode i; TOp] (act (ORelease i);; put i;; Ret None) (fun (_ : option Z) fs' d' E' => length fs' = NOFILE /\ E' = [TOp])).
  { apply (tri_release _ _ _ [TInode i; TOp]); [reflexivity|]. apply (tri_put _ _ _ [TOp]); try side. apply tri_ret. auto. }
  destruct (match t with TDevice major => _ | _ => _ end); [exact Fail|]. apply tri_alloc; [exact Fail|]. intros f.
  set (data := match t with TDevice _ => _ | _ => _ end).
  assert (K : exists kd, kind_of (File 1 (isReadable (m_access m)) (isWritable (m_access m)) data) = Some kd /\ res kd = TInode i).
  { unfold data. destruct t; eexists; split; reflexivity. }
  destruct K as (kd & K & Rk). apply (tri_set _ _ _ [TLock i p; TOp] f _ _ _ kd); [exact K|rewrite Rk; solve_Permutation|].
  apply (tri_allocate _ _ _ [TLock i p; TOp] f kd); [exact L|reflexivity| |].
  - intros fd Fd. apply (tri_release _ _ _ [TOp]); [reflexivity|]. apply tri_ret. rewrite length_insert. auto.
  - intros Full. destruct (Full n Free).
Qed.

Lemma sys_open_typed fs d path mode : length fs = NOFILE -> (exists fd, fs !! fd = Some None) ->
  (forall m, fromUsize mode = Some m -> m_create m = true -> strict -> plain path = true) -> tri fs d [] (sys_open path mode) rests.
Proof.
  intros L Free P. unfold sys_open. destruct (fromUsize mode) as [m|] eqn:Fm; [|auto]. specialize (P m eq_refl).
  apply tri_begin; [nomem|].
  apply (tri_bind _ _ _ _ _ (fun o fs' d' E' => fs' = fs /\ d' = d /\ match o with None => E' = [TOp] | Some i => E' = [TLock i p; TInode i; TOp] end)).
  - unfold open_inode. destruct (m_create m).
    + apply tri_tail. apply tri_create; [auto|mem|exact (P eq_refl)|apply tri_ret; auto|]. intros i. apply tri_ret. auto.
    + apply tri_resolvePath; [auto|mem|apply tri_ret; auto|]. intros i. apply tri_lock; try side. apply tri_type; [mem|]. intros t.
      assert (Bad : tri fs d [TLock i p; TInode i; TOp] (releasePut i;; Ret None)
        (fun (o : option nat) fs' d' E' => fs' = fs /\ d' = d /\ match o with None => E' = [TOp] | Some i => E' = [TLock i p; TInode i; TOp] end)).
      { apply (tri_releasePut _ _ _ [TOp]); try side. apply tri_ret. auto. }
      destruct t, (m_access m); first [exact Bad | apply tri_ret; auto].
  - intros o fs' d' E' (-> & -> & X). destruct o as [i|]; rewrite X; [|ends].
    eapply tri_bind; [apply open_file_typed; assumption|]. intros r fs' d' E2 (L2 & ->). ends.
Qed.

Lemma sys_pipe_typed fs d : length fs = NOFILE -> tri fs d [] sys_pipe rests.
Proof.
  intros L. unfold sys_pipe.
  apply (tri_bind _ _ _ _ _ (fun o fs' d' E' => fs' = fs /\ d' = d /\ match o with None => E' = []
    | Some (r, w) => exists q, E' = [TFile r (KPipe q false); TFile w (KPipe q true)] end)).
  - unfold alloc. apply tri_alloc; [apply tri_ret; auto|]. intros r. apply tri_alloc.
    + apply (tri_close_fresh _ _ _ []); [reflexivity|]. apply tri_ret. auto.
    + intros w. apply tri_pipe.
      * apply (tri_close_fresh _ _ _ [TFresh r]); [reflexivity|]. apply (tri_close_fresh _ _ _ []); [reflexivity|]. apply tri_ret. auto.
      * intros q. apply (tri_set _ _ _ [TPipe q true; TFresh w] _ _ _ _ (KPipe q false)); [reflexivity|cbn [res]; solve_Permutation|].
        apply (tri_set _ _ _ [TFile r (KPipe q false)] _ _ _ _ (KPipe q true)); [reflexivity|cbn [res]; solve_Permutation|].
        apply (tri_perm _ _ _ [TFile r (KPipe q false); TFile w (KPipe q true)]); [solve_Permutation|]. apply tri_ret. eauto 10.
  - intros o fs' d' E' (-> & -> & X). destruct o as [[r w]|]; [destruct X as (q & ->)|rewrite X; auto].
    set (kr := KPipe q false). set (kw := KPipe q true).
    assert (Shut : forall fs E, length fs = NOFILE -> E ≡ₚ [TFile r kr; TFile w kw] -> tri fs d E (close r;; close w;; Ret None) (@rests (option Z))).
    { intros fs' E Lf P. apply (tri_close _ _ _ [TFile w kw] r kr); [exact P|apply unlocked_cons; [auto|discriminate]|nomem|].
      apply (tri_close _ _ _ [] w kw); [reflexivity|auto|nomem|auto]. }
    apply (tri_allocate _ _ _ [TFile w kw] r kr); [exact L|reflexivity| |intros _; apply Shut; auto].
    intros fd0 F0. assert (L1 : length (<[fd0 := Some (r, kr)]> fs) = NOFILE) by (rewrite length_insert; exact L).
    assert (A0 : <[fd0 := Some (r, kr)]> fs !! fd0 = Some (Some (r, kr))) by (apply list_lookup_insert_eq, (lookup_lt_Some _ _ _ F0)).
    apply (tri_allocate _ _ _ [] w kw); [exact L1|reflexivity| |].
    + intros fd1 F1. assert (N : fd1 <> fd0) by congruence. apply tri_ask. intros [|].
      * apply tri_rest. rewrite length_insert. exact L1.
      * apply (tri_clear _ _ _ _ w kw); [apply list_lookup_insert_eq, (lookup_lt_Some _ _ _ F1)|].
        apply (tri_clear _ _ _ _ r kr); [rewrite !list_lookup_insert_ne by auto; exact A0|].
        apply Shut; [rewrite !length_insert; exact L|solve_Permutation].
    + intros _. apply (tri_clear _ _ _ _ r kr); [exact A0|]. apply Shut; [rewrite length_insert; exact L1|reflexivity].
Qed.

Lemma sys_unlink_typed fs d path : length fs = NOFILE -> tri fs d [] (sys_unlink path) rests.
Proof.
  intros L. unfold sys_unlink. apply tri_begin; [nomem|]. apply tri_resolvePathParent; [auto|mem|ends|]. intros dir name _.
  apply tri_lock; try side.
  assert (Out : forall z, tri fs d [TLock dir p; TInode dir; TOp] (releasePut dir;; act OEnd;; Ret z) (@rests (option Z))).
  { intros z. apply (tri_releasePut _ _ _ [TOp]); try side. ends. }
  destruct (dots name) eqn:D; [apply Out|]. apply tri_lookup; [mem|apply Out|]. intros i Ne.
  assert (Ni : i <> dir) by (intros ->; rewrite D in Ne; discriminate Ne; reflexivity).
  apply tri_lock; try side. apply tri_ask. intros b.
  apply (tri_releasePut _ _ _ [TLock dir p; TInode dir; TOp]); try side. apply Out.
Qed.

Lemma link_entry_typed fs d i new : tri fs d [TInode i; TOp] (link_entry i new) (fun _ fs' d' E' => fs' = fs /\ d' = d /\ E' = [TInode i; TOp]).
Proof.
  unfold link_entry. apply tri_resolvePathParent; [auto|mem|apply tri_ret; auto|]. intros dir name _. apply tri_lock; try side.
  apply tri_device; [mem|]. intros x. apply tri_device; [mem|]. intros y.
  assert (Out : forall z : bool, tri fs d [TLock dir p; TInode dir; TInode i; TOp] (releasePut dir;; Ret z) (fun _ fs' d' E' => fs' = fs /\ d' = d /\ E' = [TInode i; TOp])).
  { intros z. apply (tri_releasePut _ _ _ [TInode i; TOp]); try side. apply tri_ret. auto. }
  destruct (negb _); [apply Out|]. eapply tri_bind; [apply tri_linkEntry; side|]. intros b fs' d' E' (-> & -> & ->). apply Out.
Qed.

Lemma sys_link_typed fs d old new : length fs = NOFILE -> tri fs d [] (sys_link old new) rests.
Proof.
  intros L. unfold sys_link. apply tri_begin; [nomem|]. apply tri_resolvePath; [auto|mem|ends|]. intros i.
  apply tri_lock; try side. apply tri_type; [mem|]. intros t.
  assert (Drop : forall z, tri fs d [TInode i; TOp] (put i;; act OEnd;; Ret z) (@rests (option Z))).
  { intros z. apply (tri_put _ _ _ [TOp]); try side. ends. }
  assert (Go : tri fs d [TLock i p; TInode i; TOp] (act (ORelease i);; ok ← link_entry i new;
    (if ok : bool then put i;; act OEnd;; Ret (Some 0) else act (OLock i);; act (ORelease i);; put i;; act OEnd;; Ret None)) (@rests (option Z))).
  { apply (tri_release _ _ _ [TInode i; TOp]); [reflexivity|]. eapply tri_bind; [apply link_entry_typed|].
    intros b fs' d' E' (-> & -> & ->). destruct b; [apply Drop|]. apply tri_lock; try side.
    apply (tri_release _ _ _ [TInode i; TOp]); [reflexivity|]. apply Drop. }
  destruct t; [|exact Go..]. apply (tri_release _ _ _ [TInode i; TOp]); [reflexivity|]. apply Drop.
Qed.

Lemma sys_chdir_typed fs d path : length fs = NOFILE -> tri fs d [] (sys_chdir path) rests.
Proof.
  intros L. unfold sys_chdir. apply tri_begin; [nomem|]. apply tri_resolvePath; [auto|mem|ends|]. intros i.
  apply tri_lock; try side. apply tri_type; [mem|]. intros t.
  assert (Bad : tri fs d [TLock i p; TInode i; TOp] (act (ORelease i);; put i;; act OEnd;; Ret None) (@rests (option Z))).
  { apply (tri_release _ _ _ [TInode i; TOp]); [reflexivity|]. apply (tri_put _ _ _ [TOp]); try side. ends. }
  destruct t; [|exact Bad..]. apply (tri_release _ _ _ [TInode i; TOp]); [reflexivity|]. apply tri_cwd.
  apply tri_chdir; [auto|mem|]. ends.
Qed.

(** [fork] takes a reference for each of the child's. *)
Lemma tri_duplicate fs d : forall rest pre E, fs = pre ++ rest ->
  tri fs d E (duplicate_from (seq (length pre) (length rest))) (fun l fs' d' E' => fs' = fs /\ d' = d /\ l = map (option_map fst) rest /\ E' ≡ₚ toks rest ++ E).
Proof.
  induction rest as [|o rest IH]; intros pre E Eq; cbn [duplicate_from seq length]; [apply tri_ret; auto|].
  assert (At : fs !! length pre = Some o) by (rewrite Eq; apply list_lookup_middle; reflexivity).
  assert (Next : forall E, tri fs d E (duplicate_from (seq (S (length pre)) (length rest))) (fun l fs' d' E' => fs' = fs /\ d' = d /\ l = map (option_map fst) rest /\ E' ≡ₚ toks rest ++ E)).
  { intros E0. replace (S (length pre)) with (length (pre ++ [o])) by (rewrite length_app; cbn; lia). apply IH. rewrite <- app_assoc. exact Eq. }
  assert (Go : forall E0, E0 ≡ₚ match o with Some (f, k) => [TFile f k] | None => [] end ++ E ->
    tri fs d E0 (l ← duplicate_from (seq (S (length pre)) (length rest)); Ret (option_map fst o :: l))
      (fun l fs' d' E' => fs' = fs /\ d' = d /\ l = map (option_map fst) (o :: rest) /\ E' ≡ₚ toks (o :: rest) ++ E)).
  { intros E0 P. eapply tri_bind; [apply Next|]. intros l fs' d' E' (-> & -> & -> & P'). apply tri_ret.
    split; [reflexivity|]. split; [reflexivity|]. split; [reflexivity|]. rewrite P', P. cbn [toks flat_map]. fold (toks rest). solve_Permutation. }
  apply (tri_fdget _ _ _ _ o _ _ At). destruct o as [[f k]|]; cbn [option_map fst].
  - eapply (tri_bind _ _ _ _ _ (fun _ fs' d' E' => fs' = fs /\ d' = d /\ E' = TFile f k :: E)).
    + apply (tri_dup fs d E (length pre) f k (fun u => Ret u) _ At). apply tri_ret. auto.
    + intros _ fs' d' E' (-> & -> & ->). apply Go. reflexivity.
  - apply Go. reflexivity.
Qed.

Lemma fork_files_typed fs d : length fs = NOFILE -> tri fs d [] fork_files (fun l' fs' d' E' => fs' = fs /\ d' = d /\
  l' = Local (map (option_map fst) fs) (Some d) /\ E' ≡ₚ toks fs ++ [TInode d]).
Proof.
  intros L. unfold fork_files. rewrite <- L. eapply tri_bind; [apply (tri_duplicate fs d fs []); reflexivity|].
  intros l fs' d' E' (-> & -> & -> & P). apply tri_cwd. apply tri_idup_cwd, tri_ret. split; [reflexivity|]. split; [reflexivity|].
  split; [reflexivity|]. rewrite P, app_nil_r. solve_Permutation.
Qed.

(** [exit] gives everything back. *)
Lemma tri_close_from d : forall rest pre, toks pre = [] ->
  tri (pre ++ rest) d [] (close_from (seq (length pre) (length rest))) (fun _ fs' d' E' => toks fs' = [] /\ d' = d /\ E' = []).
Proof.
  induction rest as [|o rest IH]; intros pre Tp; cbn [close_from seq length].
  - apply tri_ret. rewrite app_nil_r. auto.
  - assert (At : (pre ++ o :: rest) !! length pre = Some o) by (apply list_lookup_middle; reflexivity).
    assert (Next : tri (pre ++ None :: rest) d [] (close_from (seq (S (length pre)) (length rest))) (fun _ fs' d' E' => toks fs' = [] /\ d' = d /\ E' = [])).
    { replace (S (length pre)) with (length (pre ++ [None : option (nat * kind)])) by (rewrite length_app; cbn; lia).
      replace (pre ++ None :: rest) with ((pre ++ [None : option (nat * kind)]) ++ rest) by (rewrite <- app_assoc; reflexivity).
      apply IH. unfold toks in *. rewrite flat_map_app, Tp. reflexivity. }
    apply (tri_fdget _ _ _ _ o _ _ At). destruct o as [[f k]|]; cbn [option_map fst]; [|exact Next].
    eapply (tri_bind _ _ _ _ _ (fun _ fs' d' E' => fs' = pre ++ None :: rest /\ d' = d /\ E' = [])).
    + apply (tri_close_fd _ _ _ _ f k (fun u => Ret u) _ At nil_unlocked); [nomem|]. apply tri_ret.
      rewrite insert_app_r_alt, Nat.sub_diag by lia. auto.
    + intros _ fs' d' E' (-> & -> & ->). exact Next.
Qed.

(** [exit] gives back everything. *)
Lemma exit_files_typed fs d l T : length fs = NOFILE -> own fs d [] l T -> typed strict p exit_files l T (fun _ _ T' => T' = []).
Proof.
  intros L W. unfold exit_files. apply typed_bind. rewrite <- L.
  apply (typed_mono _ _ _ _ _ (tri_close_from d fs [] eq_refl l T W)). intros _ l' T' (fs' & d' & E' & [F C Wt] & Tf & -> & ->).
  rewrite Tf in Wt. cbn [app] in Wt. apply Permutation_singleton_r in Wt. subst T'. refine (conj _ _); [nomem|].
  change (typed strict p (d0 ← act OCwd; match d0 with Some i => put i | None => Ret tt end;; act OEnd) l' [TOp; TInode d] (fun _ _ T' => T' = [])).
  apply (typed_bind (act OCwd)). cbn [typed act rule]. rewrite C. apply typed_bind, (typed_put d l' _ [TOp]).
  - left.
  - solve_Permutation.
  - apply unlocked_guarded, op_unlocked.
  - right. nomem.
  - intros T' P. apply Permutation_singleton_r in P. subst T'. exists []. split; reflexivity.
Qed.
End Calls.
