(* ===== verification/KFileUser.v ===== *)
(** What the counts of the file table and of the inodes mean: under every
    interleaving of careful processes they are right; and what the two calls that
    are not careful do. *)

From S2P Require Import Prelude.
From stdpp Require Import base list.
From S2P Require Import KFile KFileSpec KFileCalls.

Local Open Scope Z_scope.

(** * Every call is typed *)

Definition at_rest (l : local) (T : list token) : Prop := exists fs d, own fs d [] l T /\ length fs = NOFILE.

Definition reply_ok (r : reply) (l : local) (T : list token) : Prop :=
  match r with
  | RNum _ => at_rest l T
  | RFork child => exists T1 T2, T ≡ₚ T1 ++ T2 /\ at_rest l T1 /\ at_rest child T2
  | RExit => T = []
  end.

Section Strict.
Variable strict : Prop.

Lemma num_typed p m l T : typed strict p m l T (fun _ l' T' => at_rest l' T') -> typed strict p (num m) l T reply_ok.
Proof. intros H. apply typed_bind, (typed_mono _ _ _ _ _ _ _ H). auto. Qed.

Lemma rests_typed p fs d (m : code (option Z)) l T : own fs d [] l T -> tri strict p fs d [] m rests -> typed strict p (num m) l T reply_ok.
Proof.
  intros W H. apply num_typed, (typed_mono _ _ _ _ _ _ _ (H l T W)). intros r l' T' (fs' & d' & E' & W' & L' & ->). exists fs', d'. auto.
Qed.

(** C8: Every system call on files, made by a process at rest that is careful, is well typed: it takes and gives
    references to files and inodes, ends of pipes, locks and operations of the log by the rules, and ends at rest.
    Careful: a call of [open] has a descriptor free; and for the strict rules, by which nobody asks for a lock he has,
    [open], [mkdir] and [mknod] make no name [.] or [..].  Without strict rules these names are allowed, and a process
    may wait for its own lock. *)
Theorem calls_typed p c l T (Rest : at_rest l T) (Care : careful strict l c) : typed strict p (run_call c) l T reply_ok.
Proof.
  destruct Rest as (fs & d & W & L). destruct c; cbn [run_call]; try (apply (rests_typed p fs d _ _ _ W)).
  - apply sys_dup_typed, L.
  - apply sys_close_typed, L.
  - apply sys_read_typed, L.
  - apply sys_write_typed, L.
  - apply sys_fstat_typed, L.
  - destruct Care as [(fd & Free) Pl]. apply sys_open_typed; [exact L| |].
    + exists fd. rewrite (w_files _ _ _ _ _ W), list_lookup_fmap in Free. destruct (fs !! fd) as [[x|]|]; try discriminate. reflexivity.
    + intros m E C St. specialize (Pl St). cbn [makes] in Pl. rewrite E, C in Pl. exact Pl.
  - apply sys_pipe_typed, L.
  - apply sys_link_typed, L.
  - apply sys_unlink_typed, L.
  - apply sys_mkdir_typed; [exact L|exact (proj2 Care)].
  - apply sys_mknod_typed; [exact L|exact (proj2 Care)].
  - apply sys_chdir_typed, L.
  - apply typed_bind, (typed_mono _ _ _ _ _ _ _ (fork_files_typed strict p fs d L l T W)).
    intros child l' T' (fs' & d' & E' & [F C Wt] & -> & -> & -> & P). exists (toks fs ++ [TInode d]), (toks fs ++ [TInode d]). split; [|split].
    + rewrite Wt, P. solve_Permutation.
    + exists fs, d. split; [split; auto|exact L].
    + exists fs, d. split; [split; auto|exact L].
  - apply typed_bind, (typed_mono _ _ _ _ _ _ _ (exit_files_typed strict p fs d l T L W)). intros _ l' T' H. exact H.
Qed.

(** * All processes *)

Definition thread_ok (p : nat) (th : thread) (T : list token) : Prop :=
  match t_code th with
  | None => at_rest (t_local th) T \/ th = free_thread /\ T = []
  | Some m => typed strict p m (t_local th) T reply_ok
  end.

Record fine (w : world) (Ts : list (list token)) : Prop := {
  g_len : length Ts = length (w_threads w);
  g_counted : counted (w_shared w) (concat Ts);
  g_guarded p T : Ts !! p = Some T -> guarded T;
  g_mine p T : Ts !! p = Some T -> mine p T;
  g_thread p th T : w_threads w !! p = Some th -> Ts !! p = Some T -> thread_ok p th T;
}.

(** The tokens of one process, and those of the others. *)
Lemma concat_others (Ts : list (list token)) p T : Ts !! p = Some T -> exists R,
  concat Ts ≡ₚ T ++ R /\ (forall T', concat (<[p := T']> Ts) ≡ₚ T' ++ R) /\ forall t, t ∈ R -> exists q Tq, q <> p /\ Ts !! q = Some Tq /\ t ∈ Tq.
Proof.
  intros E. exists (concat (take p Ts) ++ concat (drop (S p) Ts)). pose proof (lookup_lt_Some _ _ _ E) as L. split; [|split].
  - rewrite <- (take_drop_middle Ts p T E) at 1. rewrite concat_app. cbn [concat]. solve_Permutation.
  - intros T'. rewrite insert_take_drop by exact L. rewrite concat_app. cbn [concat]. solve_Permutation.
  - intros t I. apply elem_of_app in I as [I|I]; apply list_elem_of_In, in_concat in I as (Tq & I & J); apply list_elem_of_In, list_elem_of_lookup in I as (q & Q).
    + pose proof (lookup_lt_Some _ _ _ Q) as Lq. rewrite length_take in Lq. exists q, Tq. rewrite lookup_take_lt in Q by lia.
      split; [lia|]. split; [exact Q|]. apply list_elem_of_In, J.
    + rewrite lookup_drop in Q. exists (S p + q)%nat, Tq. split; [lia|]. split; [exact Q|]. apply list_elem_of_In, J.
Qed.

Lemma thread_tokens w Ts p th : fine w Ts -> w_threads w !! p = Some th -> exists T, Ts !! p = Some T.
Proof. intros F E. apply lookup_lt_is_Some_2. rewrite (g_len _ _ F). exact (lookup_lt_Some _ _ _ E). Qed.

(** What one operation of one process can do. *)
Lemma fine_exec w Ts p l X (o : op X) k a T : fine w Ts -> w_threads w !! p = Some (Thread l (Some (Act o k))) -> Ts !! p = Some T ->
  match exec o p a l (w_shared w) with
  | Done x l' s' => exists T', fine (World s' (<[p := Thread l' (Some (k x))]> (w_threads w))) (<[p := T']> Ts)
  | Waits => match o with OLock i => exists q Tq, (strict -> q <> p) /\ Ts !! q = Some Tq /\ TLock i q ∈ Tq | OBegin => True | _ => False end
  | Never => True
  | Stops v => v = NoInodes
  end.
Proof.
  intros F E ET. destruct (concat_others Ts p T ET) as (R & P & P' & In). pose proof (g_thread _ _ F p _ T E ET) as Ty. cbn [thread_ok t_code t_local typed] in Ty.
  assert (GR : guarded R).
  { intros i q I. destruct (In _ I) as (q' & Tq & Nq & Q & J). apply (has_ref_mono i Tq); [|exact (g_guarded _ _ F q' Tq Q i q J)].
    intros t J'. assert (J2 : t ∈ concat (<[p := []]> Ts)).
    { apply list_elem_of_In, in_concat. exists Tq. split; [|apply list_elem_of_In, J']. apply list_elem_of_In, (list_elem_of_lookup_2 _ q').
      rewrite list_lookup_insert_ne by auto. exact Q. }
    rewrite P' in J2. exact J2. }
  pose proof (exec_sound strict p R GR o a l (w_shared w) T _ Ty (counted_perm _ _ _ P (g_counted _ _ F)) (g_guarded _ _ F p T ET) (g_mine _ _ F p T ET)) as S.
  destruct (exec o p a l (w_shared w)) as [x l' s'| | |v]; cbn [sound] in S; [| |exact I|exact S].
  - destruct S as (T' & Ty' & C & G & M). exists T'. assert (Lp : (p < length Ts)%nat) by exact (lookup_lt_Some _ _ _ ET).
    split; cbn [w_shared w_threads].
    + rewrite !length_insert. apply (g_len _ _ F).
    + apply (counted_perm _ (T' ++ R)); [symmetry; apply P'|exact C].
    + intros q Tq. destruct (Nat.eq_dec p q) as [<-|N]; [rewrite list_lookup_insert_eq by exact Lp; intros Eq; injection Eq as <-; exact G|].
      rewrite list_lookup_insert_ne by exact N. apply (g_guarded _ _ F).
    + intros q Tq. destruct (Nat.eq_dec p q) as [<-|N]; [rewrite list_lookup_insert_eq by exact Lp; intros Eq; injection Eq as <-; exact M|].
      rewrite list_lookup_insert_ne by exact N. apply (g_mine _ _ F).
    + intros q th Tq. destruct (Nat.eq_dec p q) as [<-|N].
      * rewrite !list_lookup_insert_eq by (exact Lp || exact (lookup_lt_Some _ _ _ E)). intros H1 H2. injection H1 as <-. injection H2 as <-. exact Ty'.
      * rewrite !list_lookup_insert_ne by exact N. apply (g_thread _ _ F).
  - destruct o; try contradiction.
    + destruct S as (q & J & St). apply elem_of_app in J as [J|J].
      * pose proof (g_mine _ _ F p T ET i q J). subst q. exists p, T. split; [|auto]. intros S. specialize (St S).
        destruct (In _ St) as (q' & Tq & Nq & Q & J'). intros _. apply Nq. symmetry. exact (g_mine _ _ F q' Tq Q i p J').
      * destruct (In _ J) as (q' & Tq & Nq & Q & J'). pose proof (g_mine _ _ F q' Tq Q i q J'). subst q'. exists q, Tq. auto.
    + exact I.
Qed.

(** A process goes on to something it has the tokens for. *)
Lemma fine_set w Ts p th T T' : fine w Ts -> Ts !! p = Some T -> T' ≡ₚ T -> thread_ok p th T' -> fine (World (w_shared w) (<[p := th]> (w_threads w))) (<[p := T']> Ts).
Proof.
  intros F ET P Ok. assert (Lp : (p < length Ts)%nat) by exact (lookup_lt_Some _ _ _ ET).
  destruct (concat_others Ts p T ET) as (R & P1 & P2 & _). split; cbn [w_shared w_threads].
  - rewrite !length_insert. apply (g_len _ _ F).
  - apply (counted_perm _ (concat Ts)); [rewrite P1, P2, P; reflexivity|apply (g_counted _ _ F)].
  - intros q Tq. destruct (Nat.eq_dec p q) as [<-|N]; [|rewrite list_lookup_insert_ne by exact N; apply (g_guarded _ _ F)].
    rewrite list_lookup_insert_eq by exact Lp. intros H. injection H as <-. apply (guarded_perm T); [symmetry; exact P|exact (g_guarded _ _ F p T ET)].
  - intros q Tq. destruct (Nat.eq_dec p q) as [<-|N]; [|rewrite list_lookup_insert_ne by exact N; apply (g_mine _ _ F)].
    rewrite list_lookup_insert_eq by exact Lp. intros H. injection H as <-. apply (mine_perm p T); [symmetry; exact P|exact (g_mine _ _ F p T ET)].
  - intros q th' Tq. destruct (Nat.eq_dec p q) as [<-|N]; [|rewrite !list_lookup_insert_ne by exact N; apply (g_thread _ _ F)].
    rewrite !list_lookup_insert_eq by (rewrite <- ?(g_len _ _ F); exact Lp). intros H1 H2. injection H1 as <-. injection H2 as <-. exact Ok.
Qed.

Lemma fine_set_same w Ts p th T : fine w Ts -> Ts !! p = Some T -> thread_ok p th T -> fine (World (w_shared w) (<[p := th]> (w_threads w))) Ts.
Proof. intros F ET Ok. rewrite <- (list_insert_id Ts p T ET). apply (fine_set w Ts p th T T); auto. Qed.

Lemma rest_unlocked l T : at_rest l T -> unlocked T.
Proof. intros (fs & d & W & _). apply (unlocked_perm (toks fs ++ TInode d :: [])); [symmetry; apply W|apply toks_unlocked]. intros i q I. inversion I. Qed.

(** Tokens move from one process to another. *)
Lemma fine_split w Ts p c th T1 T2 : fine w Ts -> p <> c -> Ts !! p = Some (T1 ++ T2) -> Ts !! c = Some [] -> unlocked T1 -> unlocked T2 ->
  thread_ok p th T1 -> forall th', thread_ok c th' T2 ->
  fine (World (w_shared w) (<[c := th']> (<[p := th]> (w_threads w)))) (<[c := T2]> (<[p := T1]> Ts)).
Proof.
  intros F Npc Ep Ec U1 U2 Ok th' Ok'. assert (Lp : (p < length Ts)%nat) by exact (lookup_lt_Some _ _ _ Ep).
  assert (Lc : (c < length Ts)%nat) by exact (lookup_lt_Some _ _ _ Ec).
  destruct (concat_others Ts p _ Ep) as (R & P1 & P2 & _).
  assert (Ec' : <[p := T1]> Ts !! c = Some []) by (rewrite list_lookup_insert_ne by exact Npc; exact Ec).
  destruct (concat_others (<[p := T1]> Ts) c _ Ec') as (R' & P3 & P4 & _).
  assert (Look : forall q Tq, <[c := T2]> (<[p := T1]> Ts) !! q = Some Tq -> q = c /\ Tq = T2 \/ q = p /\ Tq = T1 \/ q <> c /\ q <> p /\ Ts !! q = Some Tq).
  { intros q Tq. destruct (Nat.eq_dec c q) as [<-|N]; [rewrite list_lookup_insert_eq by (rewrite length_insert; exact Lc); intros H; injection H; auto|].
    rewrite list_lookup_insert_ne by exact N. destruct (Nat.eq_dec p q) as [<-|N2]; [rewrite list_lookup_insert_eq by exact Lp; intros H; injection H; auto|].
    rewrite list_lookup_insert_ne by exact N2. auto 10. }
  split; cbn [w_shared w_threads].
  - rewrite !length_insert. apply (g_len _ _ F).
  - apply (counted_perm _ (concat Ts)); [|apply (g_counted _ _ F)]. rewrite P4, P1. rewrite P2 in P3. cbn [app] in P3. rewrite <- P3. solve_Permutation.
  - intros q Tq H. apply Look in H as [[-> ->]|[[-> ->]|(_ & _ & H)]]; [apply unlocked_guarded, U2|apply unlocked_guarded, U1|exact (g_guarded _ _ F q Tq H)].
  - intros q Tq H. apply Look in H as [[-> ->]|[[-> ->]|(_ & _ & H)]]; [intros i x I; destruct (U2 i x I)|intros i x I; destruct (U1 i x I)|exact (g_mine _ _ F q Tq H)].
  - intros q x Tq Hx H. apply Look in H as [[-> ->]|[[-> ->]|(Nc & Np & H)]].
    + rewrite list_lookup_insert_eq in Hx by (rewrite length_insert, <- (g_len _ _ F); exact Lc). injection Hx as <-. exact Ok'.
    + rewrite list_lookup_insert_ne, list_lookup_insert_eq in Hx by (auto || (rewrite <- (g_len _ _ F); exact Lp)). injection Hx as <-. exact Ok.
    + rewrite !list_lookup_insert_ne in Hx by auto. exact (g_thread _ _ F q x Tq Hx H).
Qed.

(** A process that waits, whatever the answer. *)
Definition blocked (p : nat) (th : thread) (s : shared) : Prop :=
  match t_code th with Some (Act o _) => forall a, exec o p a (t_local th) s = Waits | _ => False end.

(** A step keeps the counts right, and leaves a process that is blocked as it is. *)
Lemma fine_step w w' Ts : fine w Ts -> wstep (careful strict) w w' -> exists Ts', fine w' Ts' /\
  forall q th, w_threads w !! q = Some th -> blocked q th (w_shared w) -> w_threads w' !! q = Some th /\ Ts' !! q = Ts !! q.
Proof.
  intros F St. destruct St as [s ts p l c E Al Ok|s ts p l X o k a x l' s' E Ex|s ts p l r E|s ts p l child c E Ec|s ts p l E];
    destruct (thread_tokens _ _ _ _ F E) as (T & ET); pose proof (g_thread _ _ F p _ T E ET) as Th; cbn [thread_ok t_code t_local typed] in Th.
  - destruct Th as [Th|[Eq ->]]; [|injection Eq as ->; destruct (Al eq_refl)]. exists Ts. split.
    + apply (fine_set_same _ _ p _ T F ET). cbn [thread_ok t_code t_local]. apply calls_typed; assumption.
    + cbn [w_threads]. intros q th Eq B. assert (p <> q) by (intros ->; rewrite E in Eq; injection Eq as <-; exact B).
      rewrite list_lookup_insert_ne by assumption. auto.
  - pose proof (fine_exec _ Ts p l X o k a T F E ET) as H. cbn [w_shared w_threads] in H. rewrite Ex in H. destruct H as (T' & H).
    eexists. split; [exact H|]. cbn [w_threads w_shared]. intros q th Eq B.
    assert (p <> q) by (intros ->; rewrite E in Eq; injection Eq as <-; specialize (B a); cbn in B; congruence).
    rewrite !list_lookup_insert_ne by assumption. auto.
  - exists Ts. split; [apply (fine_set_same _ _ p _ T F ET); left; exact Th|]. cbn [w_threads]. intros q th Eq B.
    assert (p <> q) by (intros ->; rewrite E in Eq; injection Eq as <-; exact B). rewrite list_lookup_insert_ne by assumption. auto.
  - destruct Th as (T1 & T2 & P & R1 & R2). assert (Npc : p <> c) by (intros ->; rewrite E in Ec; discriminate Ec).
    destruct (thread_tokens _ _ _ _ F Ec) as (Tc & ETc). pose proof (g_thread _ _ F c _ Tc Ec ETc) as Thc. cbn [thread_ok t_code] in Thc.
    assert (Tc = []) as -> by (destruct Thc as [(fs & d & W & _)|[_ Eq]]; [destruct W as [_ C _]; discriminate|exact Eq]).
    assert (Lp : (p < length Ts)%nat) by exact (lookup_lt_Some _ _ _ ET).
    pose proof (fine_set _ Ts p (Thread l (Some (Ret (RFork child)))) T (T1 ++ T2) F ET ltac:(symmetry; exact P)) as F1.
    cbn [w_shared w_threads] in F1. rewrite (list_insert_id ts p _ E) in F1.
    assert (Ok1 : thread_ok p (Thread l (Some (Ret (RFork child)))) (T1 ++ T2)) by (exists T1, T2; auto). specialize (F1 Ok1).
    eexists. split; [apply (fine_split _ _ p c (Thread l None) T1 T2 F1 Npc)|].
    + apply list_lookup_insert_eq, Lp.
    + rewrite list_lookup_insert_ne by exact Npc. exact ETc.
    + exact (rest_unlocked _ _ R1).
    + exact (rest_unlocked _ _ R2).
    + left. exact R1.
    + left. exact R2.
    + cbn [w_threads]. intros q th Eq B. assert (p <> q) by (intros ->; rewrite E in Eq; injection Eq as <-; exact B).
      assert (c <> q) by (intros ->; rewrite Ec in Eq; injection Eq as <-; exact B). rewrite !list_lookup_insert_ne by assumption. auto.
  - exists Ts. split; [apply (fine_set_same _ _ p _ T F ET); right; auto|]. cbn [w_threads]. intros q th Eq B.
    assert (p <> q) by (intros ->; rewrite E in Eq; injection Eq as <-; exact B). rewrite list_lookup_insert_ne by assumption. auto.
Qed.

(** ** The start *)

Lemma lookup_repeat {A} (x y : A) n i : repeat x n !! i = Some y -> y = x.
Proof. intros E. apply (repeat_spec n x). apply list_elem_of_In, (list_elem_of_lookup_2 _ _ _ E). Qed.

Lemma fine_boot : fine boot ([TInode 0] :: repeat [] 63).
Proof.
  assert (Cat : concat ([TInode 0] :: repeat [] 63) = [TInode 0]) by reflexivity.
  assert (Emp : forall q T, ([TInode 0] :: repeat [] 63) !! q = Some T -> unlocked T).
  { intros [|q] T E; [injection E as <-; intros i x I; apply list_elem_of_singleton in I; discriminate|].
    cbn [lookup list_lookup] in E. apply lookup_repeat in E as ->. intros i x I. inversion I. }
  split.
  - reflexivity.
  - rewrite Cat. change (w_shared boot) with (Shared (repeat (File 0 false false FNone) NFILE) (Inode root_fs_device 1 1 None :: repeat (Inode 0 0 0 None) 49) [] 0).
    assert (Held : held_by_files (w_shared boot) = []) by reflexivity. split; cbn [files inodes pipes outstanding].
    + intros f. unfold fcount. cbn [files]. destruct (_ !! f) as [x|] eqn:E; [apply lookup_repeat in E as ->|]; reflexivity.
    + intros f k I. apply list_elem_of_singleton in I. discriminate.
    + intros f I. apply list_elem_of_singleton in I. discriminate.
    + intros f x E _. apply lookup_repeat in E as ->. reflexivity.
    + intros i. unfold icount. cbn [inodes]. change (held_by_files _) with (@nil token). destruct i as [|i]; [reflexivity|].
      cbn [lookup list_lookup]. destruct (_ !! i) as [x|] eqn:E; [apply lookup_repeat in E as ->|]; reflexivity.
    + intros q v. reflexivity.
    + intros i p. unfold holder. cbn [inodes]. destruct i as [|i]; [reflexivity|].
      cbn [lookup list_lookup]. destruct (_ !! i) as [x|] eqn:E; [apply lookup_repeat in E as ->|]; reflexivity.
    + reflexivity.
  - intros p T E. exact (unlocked_guarded _ (Emp p T E)).
  - intros p T E i q I. destruct (Emp p T E i q I).
  - intros [|p] th T E ET.
    + injection E as <-. injection ET as <-. left. exists (repeat None NOFILE), 0%nat. split; [split; reflexivity|reflexivity].
    + cbn [lookup list_lookup boot w_threads] in E, ET. apply lookup_repeat in E as ->. apply lookup_repeat in ET as ->. right. auto.
Qed.

Lemma reach_fine w : wreach (careful strict) w -> exists Ts, fine w Ts.
Proof.
  induction 1 as [|w w' R (Ts & F) St]; [exists ([TInode 0] :: repeat [] 63); exact fine_boot|].
  destruct (fine_step _ _ _ F St) as (Ts' & F' & _). eauto.
Qed.
End Strict.

(** A lock that is owned is held. *)
Lemma holder_held strict w Ts q Tq i : fine strict w Ts -> Ts !! q = Some Tq -> TLock i q ∈ Tq -> holder (w_shared w) i q = 1.
Proof.
  intros F Q I. assert (J : TLock i q ∈ concat Ts).
  { apply list_elem_of_In, in_concat. exists Tq. split; apply list_elem_of_In; [exact (list_elem_of_lookup_2 _ _ _ Q)|exact I]. }
  pose proof (count_in (on_lock i q) _ _ J) as C. cbn [on_lock] in C. rewrite !Nat.eqb_refl in C. specialize (C eq_refl).
  rewrite <- (n_lock _ _ (g_counted _ _ _ F)) in C. unfold holder in *. destruct (_ !! i) as [y|]; [|lia]. destruct (bool_decide _); lia.
Qed.

(** * What holds at every moment *)

(** C7: If no process calls [open] without a free descriptor or makes a [.] or [..], then no operation of any call, in
    any interleaving, ever panics for a wrong count or a lock not held, and an operation that waits waits for
    the log or for the lock of an inode that another process holds; a full inode table is the only way to stop. *)
Theorem calls_never_break w p l X (o : op X) k a (Rw : wreach (careful True) w)
    (E : w_threads w !! p = Some (Thread l (Some (Act o k)))) :
  match exec o p a l (w_shared w) with
  | Done _ _ _ | Never => True
  | Waits => match o with OLock i => exists q, q <> p /\ holder (w_shared w) i q = 1 | OBegin => True | _ => False end
  | Stops why => why = NoInodes
  end.
Proof.
  destruct (reach_fine _ _ Rw) as (Ts & F). destruct (thread_tokens _ _ _ _ _ F E) as (T & ET).
  pose proof (fine_exec _ _ _ p l X o k a T F E ET) as H. destruct (exec o p a l (w_shared w)); auto.
  destruct o; auto. destruct H as (q & Tq & N & Q & I). exists q. split; [exact (N Logic.I)|]. exact (holder_held _ _ _ _ _ _ F Q I).
Qed.

(** * What the counts mean when no call is running *)

(** The descriptors that name file [f], the processes whose directory is inode [i],
    and the files on inode [i] and on an end of pipe [q]. *)
Definition descriptors (w : world) (f : nat) : Z :=
  Z.of_nat (length (filter (eq (Some f)) (flat_map (fun th => openFiles (t_local th)) (w_threads w)))).
Definition directories (w : world) (i : nat) : Z :=
  Z.of_nat (length (filter (fun th => cwd (t_local th) = Some i) (w_threads w))).
Definition on (t : token) (s : shared) : Z := Z.of_nat (length (filter (fun x => res <$> kind_of x = Some t) (files s))).

Lemma count_held P t (l : list file) : (forall u, P u = bool_decide (u = t)) ->
  count P (flat_map held_by l) = Z.of_nat (length (filter (fun x => res <$> kind_of x = Some t) l)).
Proof.
  intros H. induction l as [|x l IH]; cbn [flat_map]; [reflexivity|]. rewrite count_app, IH, filter_cons. unfold held_by.
  destruct (kind_of x) as [k|]; cbn [count fmap option_fmap option_map].
  - rewrite H. case_bool_decide as Eq; destruct (decide (Some (res k) = Some t)) as [Eq2|N]; cbn [length]; try congruence; lia.
  - destruct (decide (None = Some t)); [discriminate|]. cbn [count]. lia.
Qed.

Definition resting (l : local) (T : list token) : Prop := at_rest l T \/ l = t_local free_thread /\ T = [].

Lemma resting_files l T f : resting l T -> count (on_file f) T = Z.of_nat (length (filter (eq (Some f)) (openFiles l))).
Proof.
  intros [(fs & d & [F C W] & _)|[-> ->]]; [|reflexivity]. rewrite W, F, count_app. cbn [count on_file]. clear.
  induction fs as [|[[g k]|] fs IH]; cbn [map option_map fst]; [reflexivity|..]; rewrite filter_cons; cbn [toks flat_map app count on_file] in *; fold (toks fs) in *.
  - destruct (decide (Some f = Some g)) as [Eq|N]; cbn [length].
    + injection Eq as <-. rewrite Nat.eqb_refl. lia.
    + destruct (Nat.eqb_spec g f); [congruence|]. lia.
  - destruct (decide (Some f = None)); [discriminate|]. exact IH.
Qed.

Lemma count_toks P fs : (forall f k, P (TFile f k) = false) -> count P (toks fs) = 0.
Proof. intros H. induction fs as [|[[f k]|] fs IH]; cbn [toks flat_map app count] in *; rewrite ?H; auto. Qed.

Lemma resting_other P l T : resting l T -> (forall f k, P (TFile f k) = false) -> (forall i, P (TInode i) = false) -> count P T = 0.
Proof.
  intros [(fs & d & [F C W] & _)|[-> ->]] Hf Hi; [|reflexivity]. rewrite W, count_app, count_toks by exact Hf. cbn [count]. rewrite Hi. reflexivity.
Qed.

Lemma resting_inode l T i : resting l T -> count (on_inode i) T = if decide (cwd l = Some i) then 1 else 0.
Proof.
  intros [(fs & d & [F C W] & _)|[-> ->]]; [|reflexivity]. rewrite W, C, count_app, count_toks by reflexivity. cbn [count on_inode].
  destruct (Nat.eqb_spec d i) as [->|N]; destruct (decide _); try congruence; reflexivity.
Qed.

Lemma count_concat P (Ts : list (list token)) (ths : list thread) (g : thread -> Z) :
  Forall2 (fun th T => count P T = g th) ths Ts -> count P (concat Ts) = foldr (fun th n => g th + n) 0 ths.
Proof. induction 1 as [|th T ths Ts H _ IH]; cbn [concat foldr]; [reflexivity|]. rewrite count_app, H, IH. reflexivity. Qed.

Lemma all_resting strict w Ts : fine strict w Ts -> (forall p th, w_threads w !! p = Some th -> t_code th = None) ->
  Forall2 (fun th T => resting (t_local th) T) (w_threads w) Ts.
Proof.
  intros F U. apply Forall2_same_length_lookup. split; [symmetry; apply (g_len _ _ _ F)|]. intros p th T E ET.
  pose proof (g_thread _ _ _ F p th T E ET) as H. unfold thread_ok in H. rewrite (U p th E) in H.
  destruct H as [H|[-> ->]]; [left; exact H|right; auto].
Qed.

(** C6: If no process calls [open] without a free descriptor, then whenever no process is in a call: the count of
    each open file is the number of descriptors that name it; the count of each inode is the number of processes
    with it as directory plus the number of files on it; an end of a pipe is open exactly if one file is on it, and
    closed if none is; no inode is locked, and the log has no operation outstanding. *)
Theorem counts_at_rest w (R : wreach (careful False) w) (U : forall p th, w_threads w !! p = Some th -> t_code th = None) :
  (forall f, fcount (w_shared w) f = descriptors w f) /\
  (forall i, icount (w_shared w) i = directories w i + on (TInode i) (w_shared w)) /\
  (forall q v, end_open (w_shared w) q v = on (TPipe q v) (w_shared w)) /\
  (forall i p, holder (w_shared w) i p = 0) /\
  outstanding (w_shared w) = 0.
Proof.
  destruct (reach_fine _ _ R) as (Ts & F). pose proof (all_resting _ _ _ F U) as A. pose proof (g_counted _ _ _ F) as C.
  assert (Zero : forall P, (forall f k, P (TFile f k) = false) -> (forall i, P (TInode i) = false) -> count P (concat Ts) = 0).
  { intros P H1 H2. rewrite (count_concat P Ts (w_threads w) (fun _ => 0)).
    - clear. induction (w_threads w) as [|th ths IH]; cbn [foldr]; [reflexivity|]. rewrite IH. reflexivity.
    - apply (Forall2_impl _ _ _ _ A). intros th T H. exact (resting_other P _ _ H H1 H2). }
  split; [|split; [|split; [|split]]].
  - intros f. rewrite (n_file _ _ C), (count_concat _ Ts (w_threads w) (fun th => Z.of_nat (length (filter (eq (Some f)) (openFiles (t_local th)))))).
    + unfold descriptors. clear. induction (w_threads w) as [|th ths IH]; cbn [foldr flat_map]; [reflexivity|]. rewrite IH, filter_app, length_app. lia.
    + apply (Forall2_impl _ _ _ _ A). intros th T H. exact (resting_files _ _ f H).
  - intros i. rewrite (n_inode _ _ C), count_app. unfold held_by_files. rewrite (count_held _ (TInode i)).
    2:{ intros u. case_bool_decide as Eq; [subst u; apply Nat.eqb_refl|]. destruct u; try reflexivity. cbn. destruct (Nat.eqb_spec i0 i); congruence. }
    f_equal. rewrite (count_concat _ Ts (w_threads w) (fun th => if decide (cwd (t_local th) = Some i) then 1 else 0)).
    + unfold directories. clear. induction (w_threads w) as [|th ths IH]; cbn [foldr]; [reflexivity|]. rewrite IH, filter_cons.
      destruct (decide (cwd (t_local th) = Some i)); cbn [length]; lia.
    + apply (Forall2_impl _ _ _ _ A). intros th T H. exact (resting_inode _ _ i H).
  - intros q v. rewrite (n_pipe _ _ C), count_app, Zero by reflexivity. unfold held_by_files. rewrite (count_held _ (TPipe q v)); [reflexivity|].
    intros u. case_bool_decide as Eq; [subst u; cbn; rewrite Nat.eqb_refl, eqb_reflx; reflexivity|]. destruct u; try reflexivity. cbn.
    destruct (Nat.eqb_spec p q) as [->|]; [|reflexivity]. destruct (eqb_spec w0 v); [congruence|reflexivity].
  - intros i p. rewrite (n_lock _ _ C). apply Zero; reflexivity.
  - rewrite (n_op _ _ C). apply Zero; reflexivity.
Qed.

(** * A process that waits for itself *)

Inductive wsteps (ok : local -> call -> Prop) : world -> world -> Prop :=
| WS_refl w : wsteps ok w w
| WS_step w w' w'' : wsteps ok w w' -> wstep ok w' w'' -> wsteps ok w w''.

(** A process that waits for the lock of an inode that it holds itself waits forever, whatever the other processes do
    (none of them calling [open] without a free descriptor): it never leaves this point, the lock is never released, and its
    operation of the log is always outstanding, so that the log never commits again.  [mkdir] of [.] gets there: [create]
    locks the directory, looks up the name, and locks what it found. *)
Theorem relock_forever w w' p l i k (R : wreach (careful False) w) (E : w_threads w !! p = Some (Thread l (Some (Act (OLock i) k))))
    (H : holder (w_shared w) i p = 1) (S : wsteps (careful False) w w') :
  w_threads w' !! p = Some (Thread l (Some (Act (OLock i) k))) /\
  (forall a, exec (OLock i) p a l (w_shared w') = Waits) /\ holder (w_shared w') i p = 1 /\ 1 <= outstanding (w_shared w').
Proof.
  set (th := Thread l (Some (Act (OLock i) k))) in *.
  destruct (reach_fine _ _ R) as (Ts & F). destruct (thread_tokens _ _ _ _ _ F E) as (T & ET).
  assert (I : TLock i p ∈ T).
  { pose proof (n_lock _ _ (g_counted _ _ _ F) i p) as N. rewrite H in N. destruct (count_pos (on_lock i p) (concat Ts)) as (t & J & Pt); [lia|].
    destruct t; try discriminate. cbn in Pt. apply andb_prop in Pt as [P1 P2]. apply Nat.eqb_eq in P1, P2. subst.
    apply list_elem_of_In, in_concat in J as (Tq & J1 & J2). apply list_elem_of_In in J1, J2. apply list_elem_of_lookup in J1 as (q & Q).
    pose proof (g_mine _ _ _ F q Tq Q i p J2) as <-. congruence. }
  pose proof (g_thread _ _ _ F p _ T E ET) as (Rf & Own & _). destruct (Own I) as [Op _]. clear Own.
  (* what follows from [fine] *)
  assert (Now : forall w Ts, fine False w Ts -> Ts !! p = Some T -> (forall a, exec (OLock i) p a l (w_shared w) = Waits) /\ holder (w_shared w) i p = 1 /\ 1 <= outstanding (w_shared w)).
  { clear - I Op Rf. intros w Ts F ET. assert (Sub : forall t, t ∈ T -> t ∈ concat Ts).
    { intros t J. apply list_elem_of_In, in_concat. exists T. split; apply list_elem_of_In; [exact (list_elem_of_lookup_2 _ _ _ ET)|exact J]. }
    pose proof (g_counted _ _ _ F) as C. destruct (ref_counted _ _ i C (has_ref_mono _ _ _ Sub Rf)) as (y & Y & Cy).
    pose proof (holder_lock _ _ _ _ _ C Y (Sub _ I)) as Ly. split; [|split].
    - intros a. cbn [exec]. rewrite Y, (proj2 (Z.ltb_ge _ _)) by exact Cy. rewrite Ly. reflexivity.
    - exact (holder_held _ _ _ _ _ _ F ET I).
    - rewrite (n_op _ _ C). exact (count_in on_op _ _ (Sub _ Op) eq_refl). }
  assert (Inv : exists Ts', fine False w' Ts' /\ w_threads w' !! p = Some th /\ Ts' !! p = Some T).
  { clear Rf. induction S as [w|w w' w'' S IH St]; [exists Ts; auto|]. destruct (IH R E H F) as (Ts1 & F1 & E1 & ET1).
    destruct (fine_step _ _ _ _ F1 St) as (Ts2 & F2 & Still). destruct (Still p th E1) as [E2 ET2].
    { exact (proj1 (Now _ _ F1 ET1)). }
    exists Ts2. rewrite ET2. auto. }
  destruct Inv as (Ts' & F' & E' & ET'). split; [exact E'|exact (Now _ _ F' ET')].
Qed.

(** * Runs *)

(** Process [p] alone, with an answer for each operation. *)
Fixpoint drive {A} (p : nat) (m : code A) (answers : list Z) (l : local) (s : shared) {struct answers} : option (code A * local * shared) :=
  match answers with
  | [] => Some (m, l, s)
  | a :: answers =>
      match m with
      | Ret _ => None
      | Act o k => match exec o p a l s with Done x l' s' => drive p (k x) answers l' s' | _ => None end
      end
  end.

Lemma drive_reach ok p answers : forall w m l m' l' s', wreach ok w -> w_threads w !! p = Some (Thread l (Some m)) ->
  drive p m answers l (w_shared w) = Some (m', l', s') -> wreach ok (World s' (<[p := Thread l' (Some m')]> (w_threads w))).
Proof.
  induction answers as [|a answers IH]; intros [s ts] m l m' l' s' R E D; cbn [drive w_shared w_threads] in *.
  - injection D as <- <- <-. rewrite list_insert_id by exact E. exact R.
  - destruct m as [|X o k]; [discriminate|]. destruct (exec o p a l s) as [x l1 s1| | |] eqn:Ex; try discriminate.
    pose proof (WR_step _ _ _ R (W_act ok s ts p l X o k a x l1 s1 E Ex)) as R1. pose proof (lookup_lt_Some _ _ _ E) as L.
    specialize (IH _ (k x) l1 m' l' s' R1 (list_lookup_insert_eq _ _ _ L) D). cbn [w_threads] in IH. rewrite list_insert_insert_eq in IH. exact IH.
Qed.

(** A call of process 0, when it alone has run. *)
Definition begun (l : local) (c : call) : thread := Thread l (Some (run_call c)).
Lemma call_reach ok w p l c : wreach ok w -> w_threads w !! p = Some (Thread l None) -> cwd l <> None -> ok l c ->
  wreach ok (World (w_shared w) (<[p := begun l c]> (w_threads w))).
Proof. destruct w as [s ts]. intros R E C Ok. exact (WR_step _ _ _ R (W_call ok s ts p l c E C Ok)). Qed.

Lemma return_reach ok w p l r : wreach ok w -> w_threads w !! p = Some (Thread l (Some (Ret (RNum r)))) ->
  wreach ok (World (w_shared w) (<[p := Thread l None]> (w_threads w))).
Proof. destruct w as [s ts]. intros R E. exact (WR_step _ _ _ R (W_ret ok s ts p l r E)). Qed.

(** No process is in a call. *)
Definition quiet (w : world) : bool := forallb (fun th => match t_code th with None => true | Some _ => false end) (w_threads w).
Lemma quiet_all w : quiet w = true -> forall p th, w_threads w !! p = Some th -> t_code th = None.
Proof.
  intros Q p th E. pose proof (proj1 (forallb_forall _ _) Q th (proj1 (list_elem_of_In _ _) (list_elem_of_lookup_2 _ _ _ E))) as H.
  cbn beta in H. destruct (t_code th); [discriminate H|reflexivity].
Qed.

Definition local0 : local := Local (repeat None NOFILE) (Some 0%nat).

Lemma calls_typed_witness : at_rest local0 [TInode 0] /\ typed True 0 (run_call SPipe) local0 [TInode 0] reply_ok.
Proof.
  assert (R : at_rest local0 [TInode 0]) by (exists (repeat None NOFILE), 0%nat; split; [split; reflexivity|reflexivity]).
  split; [exact R|]. apply (calls_typed True 0 SPipe local0 [TInode 0] R). split; [exact Logic.I|intros _; exact Logic.I].
Defined.

(** The file table of a process that opens the root directory. *)
Lemma calls_never_break_witness : exists w l k, wreach (careful True) w /\ w_threads w !! 0%nat = Some (Thread l (Some (Act OAlloc k))) /\
  match exec OAlloc 0 0 l (w_shared w) with Stops why => why = NoInodes | Waits => False | _ => True end.
Proof.
  set (c := SOpen [slash] 0).
  assert (Ok : careful True local0 c) by (split; [exists 0%nat; reflexivity|intros _; exact Logic.I]).
  pose proof (call_reach (careful True) boot 0 local0 c (WR_boot _) eq_refl ltac:(discriminate) Ok) as R.
  pose proof (drive_reach _ 0 [1; 0; 0; 1; 1] _ (run_call c) local0 _ _ _ R eq_refl eq_refl) as R1.
  eexists _, _, _. split; [exact R1|]. split; [reflexivity|].
  apply (calls_never_break _ 0 _ _ OAlloc _ 0 R1 eq_refl).
Defined.

Lemma counts_at_rest_witness : exists w, wreach (careful False) w /\ (forall p th, w_threads w !! p = Some th -> t_code th = None) /\
  descriptors w 0 = 1 /\ descriptors w 1 = 1 /\ (forall f, fcount (w_shared w) f = descriptors w f).
Proof.
  pose proof (call_reach (careful False) boot 0 local0 SPipe (WR_boot _) eq_refl ltac:(discriminate) ltac:(split; [exact Logic.I|intros []])) as R.
  pose proof (drive_reach _ 0 [0; 0; 1; 0; 0; 0; 0; 0; 0; 0; 0] _ (run_call SPipe) local0 _ _ _ R eq_refl eq_refl) as R1.
  pose proof (return_reach _ _ 0 _ _ R1 eq_refl) as R2.
  eexists. split; [exact R2|]. match type of R2 with wreach _ ?w => assert (U := quiet_all w eq_refl) end. split; [exact U|].
  split; [reflexivity|]. split; [reflexivity|]. exact (proj1 (counts_at_rest _ R2 U)).
Defined.

(** The first process makes a [.] and never comes back. *)
Lemma relock_forever_witness : exists w l k, wreach (careful False) w /\
  (exists s, drive 0 (run_call (SMkdir dot)) [1; 0; 0; 0; 1; 0; 0; 1] local0 (w_shared boot) = Some (Act (OLock 0) k, l, s) /\ w_shared w = s) /\
  forall w', wsteps (careful False) w w' -> w_threads w' !! 0%nat = Some (Thread l (Some (Act (OLock 0) k))) /\ 1 <= outstanding (w_shared w').
Proof.
  pose proof (call_reach (careful False) boot 0 local0 (SMkdir dot) (WR_boot _) eq_refl ltac:(discriminate) ltac:(split; [exact Logic.I|intros []])) as R.
  pose proof (drive_reach _ 0 [1; 0; 0; 0; 1; 0; 0; 1] _ (run_call (SMkdir dot)) local0 _ _ _ R eq_refl eq_refl) as R1.
  eexists _, _, _. split; [exact R1|]. split; [eexists; split; reflexivity|]. intros w' S.
  pose proof (relock_forever _ w' 0 _ 0 _ R1 eq_refl eq_refl S) as (A & _ & _ & B). auto.
Defined.
