(* ===== verification/KFileRuns.v ===== *)
(** What the calls on files do to the descriptors of a process, in every interleaving;
    the names of a path; and [open] without a free descriptor. *)

From S2P Require Import Prelude.
From stdpp Require Import base list.
From S2P Require Import KFile KFileSpec KFileCalls KFileUser.

Local Open Scope Z_scope.

(** * The names of a path *)

(** The pieces between slashes, and those that are not empty. *)
Fixpoint between (path : list Z) : list (list Z) :=
  match path with
  | [] => [[]]
  | c :: path =>
      if c =? slash then [] :: between path
      else match between path with w :: ws => (c :: w) :: ws | [] => [[c]] end
  end.
Definition names (path : list Z) : list (list Z) := filter (fun w => w <> []) (between path).

Lemma between_cons path : exists w ws, between path = w :: ws.
Proof. induction path as [|c path (w & ws & E)]; cbn [between]; [eauto|]. rewrite E. destruct (c =? slash); eauto. Qed.

Lemma names_slash c path : c = slash -> names (c :: path) = names path.
Proof. intros ->. unfold names. cbn [between]. rewrite Z.eqb_refl, filter_cons. destruct (decide _) as [N|]; [destruct (N eq_refl)|reflexivity]. Qed.

Lemma names_skip path : names (skip_slashes path) = names path.
Proof.
  induction path as [|c path IH]; cbn [skip_slashes]; [reflexivity|]. destruct (Z.eqb_spec c slash) as [->|N]; [|reflexivity].
  rewrite names_slash by reflexivity. exact IH.
Qed.

Lemma skip_head path : match skip_slashes path with [] => True | c :: _ => c <> slash end.
Proof. induction path as [|c path IH]; cbn [skip_slashes]; [exact Logic.I|]. destruct (Z.eqb_spec c slash); assumption. Qed.

Lemma skip_length path : (length (skip_slashes path) <= length path)%nat.
Proof. induction path as [|c path IH]; cbn [skip_slashes length]; [lia|]. destruct (c =? slash); cbn [length]; lia. Qed.

Lemma names_split c path : c <> slash -> let '(name, rest) := split_slash (c :: path) in
  names (c :: path) = name :: names rest /\ (length rest <= length path)%nat.
Proof.
  intros N. destruct (split_slash (c :: path)) as [name rest] eqn:E. revert c N name rest E.
  induction path as [|e path IH]; intros c N name rest E; cbn [split_slash] in E; destruct (Z.eqb_spec c slash) as [|_]; try contradiction.
  - injection E as <- <-. split; [|cbn; lia]. unfold names. cbn [between]. rewrite (proj2 (Z.eqb_neq _ _) N). reflexivity.
  - destruct (Z.eqb_spec e slash) as [->|Ne]; cbn in E.
    + injection E as <- <-. split; [|cbn; lia]. unfold names. cbn [between]. rewrite (proj2 (Z.eqb_neq _ _) N), Z.eqb_refl.
      rewrite filter_cons. destruct (decide _) as [_|X]; [|destruct X; discriminate]. reflexivity.
    + destruct (split_slash path) as [n' r'] eqn:E'. destruct (IH e Ne (e :: n') r') as [Eq Le].
      { cbn [split_slash]. rewrite (proj2 (Z.eqb_neq _ _) Ne), E'. reflexivity. }
      injection E as <- <-. split; [|cbn [length]; lia]. revert Eq. unfold names. cbn [between].
      rewrite (proj2 (Z.eqb_neq _ _) N), (proj2 (Z.eqb_neq _ _) Ne). destruct (between_cons path) as (w & ws & ->). rewrite !filter_cons.
      destruct (decide _) as [_|X]; [|destruct X; discriminate]. destruct (decide _) as [_|X]; [|destruct X; discriminate].
      intros Eq. injection Eq as -> ->. reflexivity.
Qed.

(** Only the last name is marked. *)
Fixpoint marked (l : list (list Z)) : list (list Z * bool) :=
  match l with [] => [] | [w] => [(w, true)] | w :: l => (w, false) :: marked l end.

Lemma elements_marked fuel : forall path, (length path < fuel)%nat -> elements fuel path = marked (names path).
Proof.
  induction fuel as [|fuel IH]; intros path L; [lia|]. cbn [elements]. unfold skipPathElement.
  pose proof (names_skip path) as Nm. pose proof (skip_head path) as Hd. pose proof (skip_length path) as Ls.
  destruct (skip_slashes path) as [|c p]; [rewrite <- Nm; reflexivity|].
  pose proof (names_split c p Hd) as Sp. destruct (split_slash (c :: p)) as [name rest]. destruct Sp as [Eq Le].
  rewrite <- Nm, Eq. pose proof (skip_length rest) as Lr. rewrite IH by (cbn [length] in Ls; lia). rewrite names_skip.
  pose proof (names_skip rest) as Nr. pose proof (skip_head rest) as Hr. destruct (skip_slashes rest) as [|c' r'].
  - rewrite bool_decide_eq_true_2 by reflexivity. rewrite <- Nr. reflexivity.
  - rewrite bool_decide_eq_false_2 by discriminate. pose proof (names_split c' r' Hr) as S'. destruct (split_slash (c' :: r')) as [n2 r2].
    destruct S' as [E2 _]. rewrite <- Nr, E2. reflexivity.
Qed.

(** The loop of [resolvePathHelper] goes through exactly the non-empty pieces of the path between slashes, in order, and
    takes only the last of them for the last; a path is never too long for it. *)
Theorem elements_are_names path : elements (S (length path)) path = marked (names path).
Proof. apply elements_marked. lia. Qed.

(** * What a call does to the descriptors of its process

    Other processes may change anything that is shared between two operations. *)

Fixpoint gives {A} (p : nat) (m : code A) (l : local) (Q : A -> local -> Prop) : Prop :=
  match m with
  | Ret a => Q a l
  | Act o k => forall a s x l1 s1, exec o p a l s = Done x l1 s1 -> gives p (k x) l1 Q
  end.

Definition first_free (l : local) : option nat := first_where (fun o => match o with None => true | Some _ => false end) (openFiles l).
Definition opened (fd f : nat) (l : local) : local := Local (<[fd := Some f]> (openFiles l)) (cwd l).
Definition closed (fd : nat) (l : local) : local := Local (<[fd := None]> (openFiles l)) (cwd l).
Definition names_file (l : local) (fd : Z) (f : nat) : Prop := 0 <= fd /\ openFiles l !! Z.to_nat fd = Some (Some f).

(** What a process finds changed. *)
Definition effect (c : call) (l : local) (r : reply) (l' : local) : Prop :=
  match c, r with
  | SDup fd, RNum (Some n) => exists f k, names_file l fd f /\ first_free l = Some k /\ n = Z.of_nat k /\ l' = opened k f l
  | SClose fd, RNum (Some n) => n = 0 /\ exists f, names_file l fd f /\ l' = closed (Z.to_nat fd) l
  | SClose fd, RNum None => l' = l /\ forall f, ~ names_file l fd f
  | SOpen _ _, RNum (Some n) => exists f k, first_free l = Some k /\ n = Z.of_nat k /\ l' = opened k f l
  | SPipe, RNum (Some n) => n = 0 /\ exists f g a b, first_free l = Some a /\ first_free (opened a f l) = Some b /\ l' = opened b g (opened a f l)
  | SChdir _, RNum (Some n) => n = 0 /\ exists i, l' = Local (openFiles l) (Some i)
  | SFork, RFork child => child = l /\ l' = l
  | SFork, _ => False
  | SExit, RExit => l' = Local (repeat None NOFILE) (cwd l)
  | SExit, _ => False
  | _, RNum _ => l' = l
  | _, _ => False
  end.

Section Effect.
Variable p : nat.

Lemma gives_mono {A} (m : code A) l (Q Q' : A -> local -> Prop) : gives p m l Q -> (forall a l', Q a l' -> Q' a l') -> gives p m l Q'.
Proof. intros H S. revert l H. induction m as [a|X o k IH]; intros l H; cbn [gives] in *; [auto|]. intros a s x l1 s1 E. apply IH, (H a s x l1 s1 E). Qed.

Lemma gives_bind {A B} (m : code A) (f : A -> code B) l Q : gives p m l (fun a l' => gives p (f a) l' Q) -> gives p (m ≫= f) l Q.
Proof.
  unfold mbind, code_bind. revert l. induction m as [a|X o k IH]; intros l H; cbn [gives bind] in *; [exact H|].
  intros a s x l1 s1 E. apply IH, (H a s x l1 s1 E).
Qed.

(** Operations that change nothing of the process's own. *)
Definition outside {X : Set} (o : op X) : bool := match o with OFdSet _ _ | OCwdSet _ => false | _ => true end.
Fixpoint silent {A} (m : code A) : Prop := match m with Ret _ => True | Act o k => outside o = true /\ forall x, silent (k x) end.

Lemma get_local dev n l s x l1 s1 : get dev n l s = Done x l1 s1 -> l1 = l.
Proof. unfold get. repeat case_match; intros E; inversion E; reflexivity. Qed.

Lemma outside_local {X : Set} (o : op X) a l s x l1 s1 : outside o = true -> exec o p a l s = Done x l1 s1 -> l1 = l.
Proof.
  intros O E. destruct o; try discriminate O; cbn [exec] in E; unfold lift_get in E;
    repeat case_match; try (inversion E; reflexivity); try discriminate E;
    first [eapply get_local; eassumption | inversion E; subst; eapply get_local; eassumption].
Qed.

Lemma gives_silent {A} (m : code A) l (Q : A -> local -> Prop) : silent m -> (forall a, Q a l) -> gives p m l Q.
Proof.
  intros S H. induction m as [a|X o k IH]; cbn [gives silent] in *; [apply H|]. destruct S as [O S].
  intros a s x l1 s1 E. rewrite (outside_local o a l s x l1 s1 O E). apply IH, S.
Qed.

Lemma gives_then {A B} (m : code A) (f : A -> code B) l Q : silent m -> (forall a, gives p (f a) l Q) -> gives p (m ≫= f) l Q.
Proof. intros S H. apply gives_bind, gives_silent; [exact S|exact H]. Qed.

Lemma gives_fdget {B} fd (k : option nat -> code B) l Q : gives p (k (match openFiles l !! fd with Some o => o | None => None end)) l Q ->
  gives p (act (OFdGet fd) ≫= k) l Q.
Proof. intros H. cbn. intros a s x l1 s1 E. inversion E; subst. exact H. Qed.
Lemma gives_fdset {B} fd o (k : unit -> code B) l Q : gives p (k tt) (Local (<[fd := o]> (openFiles l)) (cwd l)) Q -> gives p (act (OFdSet fd o) ≫= k) l Q.
Proof. intros H. cbn. intros a s x l1 s1 E. inversion E; subst. exact H. Qed.
Lemma gives_cwd {B} (k : option nat -> code B) l Q : gives p (k (cwd l)) l Q -> gives p (act OCwd ≫= k) l Q.
Proof. intros H. cbn. intros a s x l1 s1 E. inversion E; subst. exact H. Qed.
Lemma gives_cwdset {B} i (k : unit -> code B) l Q : gives p (k tt) (Local (openFiles l) (Some i)) Q -> gives p (act (OCwdSet i) ≫= k) l Q.
Proof. intros H. cbn. intros a s x l1 s1 E. inversion E; subst. exact H. Qed.
End Effect.

Lemma silent_bind {A B} (m : code A) (f : A -> code B) : silent m -> (forall a, silent (f a)) -> silent (m ≫= f).
Proof. unfold mbind, code_bind. intros S H. induction m as [a|X o k IH]; cbn [silent bind] in *; [apply H|]. destruct S as [O S]. auto. Qed.
Lemma silent_act {X : Set} (o : op X) : outside o = true -> silent (act o).
Proof. intros O. split; [exact O|]. intros x. exact Logic.I. Qed.
Lemma silent_ret {A} (a : A) : silent (Ret a).
Proof. exact Logic.I. Qed.

Create HintDb silent.
#[export] Hint Resolve silent_ret silent_act : silent.
(** A program without the operations that change what the process has. *)
Ltac hush := repeat first
  [ exact Logic.I
  | match goal with
    | |- silent (_ ≫= _) => apply silent_bind; [|intros ?]
    | |- silent (mret _) => exact Logic.I
    | |- silent (act _) => apply silent_act; reflexivity
    | |- silent (match ?x with _ => _ end) => destruct x
    | |- silent (let _ := _ in _) => cbv zeta
    end
  | solve [auto with silent] ].

Lemma silent_ask : silent ask.  Proof. unfold ask. hush. Qed.
Lemma silent_put i : silent (put i).  Proof. unfold put. hush. Qed.
#[export] Hint Resolve silent_ask silent_put : silent.
Lemma silent_releasePut i : silent (releasePut i).  Proof. unfold releasePut. hush. Qed.
#[export] Hint Resolve silent_releasePut : silent.
Lemma silent_loop rp es : forall cur, silent (resolve_loop rp es cur).
Proof. induction es as [|[name last] es IH]; intros cur; cbn [resolve_loop]; hush. Qed.
#[export] Hint Resolve silent_loop : silent.
Lemma silent_resolve path rp : silent (resolvePathHelper path rp).
Proof. unfold resolvePathHelper. destruct path as [|c path]; hush. Qed.
#[export] Hint Resolve silent_resolve : silent.
Lemma silent_path path : silent (resolvePath path).  Proof. unfold resolvePath. hush. Qed.
Lemma silent_parent path : silent (resolvePathParent path).  Proof. apply silent_resolve. Qed.
Lemma silent_linkEntry dir name : silent (linkEntry dir name).  Proof. unfold linkEntry. hush. Qed.
Lemma silent_close f : silent (close f).  Proof. unfold close. hush. Qed.
#[export] Hint Resolve silent_path silent_parent silent_linkEntry silent_close : silent.
Lemma silent_create path kind : silent (create path kind).  Proof. unfold create. hush. Qed.
#[export] Hint Resolve silent_create : silent.
Lemma silent_open_inode path m : silent (open_inode path m).  Proof. unfold open_inode. hush. Qed.
Lemma silent_transfer : silent transfer.  Proof. unfold transfer. hush. Qed.
#[export] Hint Resolve silent_transfer : silent.
Lemma silent_write_loop f i l : silent (write_loop f i l).
Proof. induction l as [|n l IH]; cbn [write_loop]; hush. Qed.
Lemma silent_getStatus f : silent (getStatus f).  Proof. unfold getStatus. hush. Qed.
#[export] Hint Resolve silent_write_loop silent_getStatus : silent.
Lemma silent_read f n : silent (read f n).  Proof. unfold read. hush. Qed.
Lemma silent_write f n : silent (write f n).  Proof. unfold write. hush. Qed.
Lemma silent_getFile fd : silent (getFile fd).  Proof. unfold getFile. hush. Qed.
Lemma silent_link_entry i path : silent (link_entry i path).  Proof. unfold link_entry. hush. Qed.
Lemma silent_alloc : silent alloc.  Proof. unfold alloc. hush. Qed.
#[export] Hint Resolve silent_read silent_write silent_getFile silent_link_entry silent_alloc silent_open_inode : silent.
Lemma silent_duplicate fds : silent (duplicate_from fds).
Proof. induction fds as [|fd fds IH]; cbn [duplicate_from]; hush. Qed.
#[export] Hint Resolve silent_duplicate : silent.

Section Effects.
Variable p : nat.

Lemma find_first l f : forall fds (Q : option nat -> local -> Prop),
  Forall (fun fd => fd < length (openFiles l))%nat fds ->
  match find (fun i => match openFiles l !! i with Some o => match o with None => true | Some _ => false end | None => false end) fds with
  | Some fd => Q (Some fd) (opened fd f l)
  | None => Q None l
  end -> gives p (allocate_from fds f) l Q.
Proof.
  induction fds as [|fd fds IH]; intros Q B H; cbn [allocate_from find] in *; [exact H|]. inversion B as [|? ? Bd Bs]; subst.
  destruct (lookup_lt_is_Some_2 _ _ Bd) as [o E]. apply gives_fdget. rewrite E in *. destruct o as [g|].
  - apply IH; assumption.
  - apply gives_fdset. exact H.
Qed.

Lemma gives_allocate f l (Q : option nat -> local -> Prop) : length (openFiles l) = NOFILE ->
  match first_free l with Some fd => Q (Some fd) (opened fd f l) | None => Q None l end -> gives p (fileDescriptorAllocate f) l Q.
Proof.
  intros L H. apply find_first.
  - apply List.Forall_forall. intros fd I. apply in_seq in I. lia.
  - unfold first_free, first_where in H. rewrite L in H. exact H.
Qed.

Lemma first_free_at l fd : first_free l = Some fd -> openFiles l !! fd = Some None.
Proof. intros H. apply first_where_some in H as (o & E & H). destruct o; [discriminate|exact E]. Qed.

Lemma gives_getFile {B} fd (k : option nat -> code B) l Q : (forall f, names_file l fd f -> gives p (k (Some f)) l Q) ->
  ((forall f, ~ names_file l fd f) -> gives p (k None) l Q) -> length (openFiles l) = NOFILE -> gives p (getFile fd ≫= k) l Q.
Proof.
  intros S N L. unfold getFile. destruct (_ || _) eqn:Bd.
  - apply N. intros f [H E]. apply lookup_lt_Some in E. rewrite L in E. apply orb_prop in Bd as [Bd|Bd]; lia.
  - apply gives_fdget. destruct (openFiles l !! Z.to_nat fd) as [[f|]|] eqn:E; [apply S; split; [lia|exact E]|..]; apply N; intros f [_ E']; congruence.
Qed.

Lemma close_all d (Q : unit -> local -> Prop) : forall rest n, Q tt (Local (repeat None (n + length rest)) d) ->
  gives p (close_from (seq n (length rest))) (Local (repeat None n ++ rest) d) Q.
Proof.
  induction rest as [|o rest IH]; intros n H; cbn [close_from seq length].
  - cbn [gives length] in *. rewrite app_nil_r. rewrite Nat.add_0_r in H. exact H.
  - assert (Ln : length (repeat (@None nat) n) = n) by apply repeat_length.
    apply gives_fdget. cbn [openFiles]. rewrite list_lookup_middle by (symmetry; exact Ln).
    assert (Next : gives p (close_from (seq (S n) (length rest))) (Local (repeat None n ++ None :: rest) d) Q).
    { change (None :: rest) with ([None] ++ rest). rewrite app_assoc, <- repeat_cons. apply (IH (S n)).
      cbn [length] in H. replace (S n + length rest)%nat with (n + S (length rest))%nat by lia. exact H. }
    destruct o as [f|]; [|exact Next]. apply gives_bind, (gives_then p (close f)); [hush|]. intros _.
    apply (gives_fdset p n None (fun u => Ret u)). cbn [gives openFiles cwd]. rewrite insert_app_r_alt, Ln, Nat.sub_diag by (rewrite Ln; lia). exact Next.
Qed.

Lemma gives_num (m : code (option Z)) l (Q : reply -> local -> Prop) : gives p m l (fun r l' => Q (RNum r) l') -> gives p (num m) l Q.
Proof. intros H. apply gives_bind. exact H. Qed.

(** A call that only looks at a file. *)
Lemma gives_looks fd l (m : option nat -> code (option Z)) : (forall o, silent (m o)) -> gives p (getFile fd ≫= m) l (fun _ l' => l' = l).
Proof. intros S. apply gives_silent; [apply silent_bind; [apply silent_getFile|exact S]|reflexivity]. Qed.

(** Through the operations that change nothing. *)
Ltac calm := repeat (apply gives_then; [hush|intros ?]); cbn [gives].

Lemma dup_effect fd l : length (openFiles l) = NOFILE -> gives p (sys_dup fd) l (fun r => effect (SDup fd) l (RNum r)).
Proof.
  intros L. unfold sys_dup. apply gives_getFile; [|reflexivity|exact L]. intros f Nf. apply gives_bind, gives_allocate; [exact L|].
  destruct (first_free l) as [k|] eqn:Ff; [|reflexivity]. calm. exists f, k. auto.
Qed.

Lemma close_effect fd l : length (openFiles l) = NOFILE -> gives p (sys_close fd) l (fun r => effect (SClose fd) l (RNum r)).
Proof.
  intros L. unfold sys_close. apply gives_getFile; [| |exact L].
  - intros f Nf. apply gives_fdset. calm. split; [reflexivity|]. exists f. auto.
  - intros N. split; [reflexivity|exact N].
Qed.

Lemma open_effect path mode l : length (openFiles l) = NOFILE -> gives p (sys_open path mode) l (fun r => effect (SOpen path mode) l (RNum r)).
Proof.
  intros L. unfold sys_open. destruct (fromUsize mode) as [m|]; [|reflexivity]. apply gives_then; [hush|]. intros _.
  apply gives_then; [hush|]. intros [i|]; [|calm; reflexivity]. apply gives_bind.
  apply (gives_mono p _ l (fun r => effect (SOpen path mode) l (RNum r))); [|intros r l' H; calm; exact H].
  unfold open_file. apply gives_then; [hush|]. intros t. destruct (match t with TDevice major => _ | _ => _ end); [calm; reflexivity|].
  apply gives_then; [hush|]. intros [f|]; [|calm; reflexivity].
  apply gives_then; [hush|]. intros _. apply gives_bind, gives_allocate; [exact L|]. destruct (first_free l) as [k|] eqn:Ff.
  - calm. exists f, k. auto.
  - calm. reflexivity.
Qed.

Lemma reset fds fd f : fds !! fd = Some None -> <[fd := None]> (<[fd := Some f]> fds) = fds :> list (option nat).
Proof. intros E. rewrite list_insert_insert_eq. apply list_insert_id, E. Qed.

Lemma pipe_effect l : length (openFiles l) = NOFILE -> gives p sys_pipe l (fun r => effect SPipe l (RNum r)).
Proof.
  intros L. unfold sys_pipe. apply gives_then; [hush|]. intros [[f g]|]; [|reflexivity].
  apply gives_bind, gives_allocate; [exact L|]. destruct (first_free l) as [a|] eqn:Fa; [|calm; reflexivity].
  pose proof (first_free_at _ _ Fa) as Ea.
  apply gives_bind, gives_allocate; [cbn [opened openFiles]; rewrite length_insert; exact L|].
  destruct (first_free (opened a f l)) as [b|] eqn:Fb; [pose proof (first_free_at _ _ Fb) as Eb; cbn [opened openFiles] in Eb|].
  - apply gives_then; [hush|]. intros [|]; [split; [reflexivity|]; exists f, g, a, b; auto|].
    apply gives_fdset, gives_fdset. calm. cbn [opened openFiles cwd]. rewrite (reset _ _ _ Eb), (reset _ _ _ Ea). destruct l; reflexivity.
  - apply gives_fdset. calm. cbn [opened openFiles cwd]. rewrite (reset _ _ _ Ea). destruct l; reflexivity.
Qed.

Lemma chdir_effect path l : gives p (sys_chdir path) l (fun r => effect (SChdir path) l (RNum r)).
Proof.
  unfold sys_chdir. apply gives_then; [hush|]. intros _. apply gives_then; [hush|]. intros [i|]; [|calm; reflexivity].
  apply gives_then; [hush|]. intros _. apply gives_then; [hush|]. intros [| |major]; [|calm; reflexivity..].
  apply gives_then; [hush|]. intros _. apply gives_then; [hush|]. intros d. apply gives_then; [hush|]. intros _.
  apply gives_cwdset. calm. split; [reflexivity|]. exists i. reflexivity.
Qed.

Lemma duplicate_effect l : forall fds, gives p (duplicate_from fds) l (fun r l' => l' = l /\
  r = map (fun fd => match openFiles l !! fd with Some o => o | None => None end) fds).
Proof.
  induction fds as [|fd fds IH]; cbn [duplicate_from map]; [split; reflexivity|]. apply gives_fdget, gives_then; [hush|]. intros _.
  apply gives_bind, (gives_mono p _ l _ _ IH). intros r l' [-> ->]. split; reflexivity.
Qed.

Lemma fork_effect l : length (openFiles l) = NOFILE -> gives p fork_files l (fun child l' => child = l /\ l' = l).
Proof.
  intros L. unfold fork_files. apply gives_bind, (gives_mono p _ l _ _ (duplicate_effect l _)). intros r l' [-> ->]. apply gives_cwd.
  apply gives_then; [hush|]. intros _. split; [|reflexivity]. destruct l as [fds d]. cbn [openFiles cwd] in *. f_equal.
  rewrite <- L. clear. apply list_eq. intros i. rewrite list_lookup_fmap. destruct (decide (i < length fds)%nat) as [H|H].
  - rewrite lookup_seq_lt by exact H. destruct (lookup_lt_is_Some_2 _ _ H) as [o E]. cbn. rewrite E. reflexivity.
  - rewrite lookup_seq_ge, (lookup_ge_None_2 fds) by lia. reflexivity.
Qed.

Lemma exit_effect l : length (openFiles l) = NOFILE -> gives p exit_files l (fun _ l' => l' = Local (repeat None NOFILE) (cwd l)).
Proof.
  intros L. unfold exit_files. apply gives_bind. destruct l as [fds d]. cbn [openFiles cwd] in *. rewrite <- L.
  refine (close_all d _ fds 0 _). apply gives_silent; [hush|]. intros _. rewrite L. reflexivity.
Qed.
End Effects.

(** C9: What a call does to the descriptors of its process, in every interleaving: [dup], [open] and [pipe] give the lowest
    free descriptors and change no other, [close] frees its own, [fork] copies all and [exit] leaves none; a call that fails
    leaves the descriptors and the directory of its process as they were, and [close] fails only if the descriptor is
    not open.  This says nothing of the tables that all processes share, for which see KFileUser.v. *)
Theorem call_effect p c l (L : length (openFiles l) = NOFILE) : gives p (run_call c) l (effect c l).
Proof.
  destruct c; cbn [run_call]; try apply gives_num.
  - apply dup_effect, L.
  - apply close_effect, L.
  - apply gives_looks. intros [f|]; hush.
  - apply gives_looks. intros [f|]; hush.
  - apply gives_looks. intros [f|]; hush.
  - apply open_effect, L.
  - apply pipe_effect, L.
  - unfold sys_link. apply gives_silent; [hush|]. reflexivity.
  - unfold sys_unlink. apply gives_silent; [hush|]. reflexivity.
  - unfold sys_mkdir. apply gives_silent; [hush|]. reflexivity.
  - unfold sys_mknod. apply gives_silent; [hush|]. reflexivity.
  - apply chdir_effect.
  - apply gives_bind, (gives_mono p _ l _ _ (fork_effect p l L)). intros child l' H. exact H.
  - apply gives_bind, (gives_mono p _ l _ _ (exit_effect p l L)). intros _ l' H. exact H.
Qed.

Lemma call_effect_witness : length (openFiles local0) = NOFILE /\ gives 0 (run_call SPipe) local0 (effect SPipe local0).
Proof. split; [reflexivity|]. apply (call_effect 0 SPipe local0). reflexivity. Defined.

(** * [open] without a free descriptor *)

Lemma drive_bind {A B} p (m : code A) (g : A -> code B) answers more : forall l s a l1 s1, drive p m answers l s = Some (Ret a, l1, s1) ->
  drive p (m ≫= g) (answers ++ more) l s = drive p (g a) more l1 s1.
Proof.
  revert m. induction answers as [|z answers IH]; intros m l s a l1 s1 D; cbn [drive app] in *.
  - injection D as -> -> ->. reflexivity.
  - destruct m as [|X o k]; [discriminate|]. unfold mbind, code_bind. cbn [bind drive]. destruct (exec o p z l s); try discriminate.
    exact (IH _ _ _ _ _ _ D).
Qed.

Lemma drive_full p l s f : forall fds, Forall (fun fd => exists g, openFiles l !! fd = Some (Some g)) fds ->
  drive p (allocate_from fds f) (repeat 0 (length fds)) l s = Some (Ret None, l, s).
Proof.
  induction 1 as [|fd fds (g & E) _ IH]; [reflexivity|]. cbn [length repeat allocate_from drive]. unfold act, mbind, code_bind. cbn [bind drive exec].
  rewrite E. exact IH.
Qed.

Lemma drive_act {X : Set} {A} p (o : op X) (k : X -> code A) a answers l s x l1 s1 : exec o p a l s = Done x l1 s1 ->
  drive p (act o ≫= k) (a :: answers) l s = drive p (k x) answers l1 s1.
Proof. intros E. unfold act, mbind, code_bind. cbn [bind drive]. rewrite E. reflexivity. Qed.

(** [open] of a regular file, from where it has the inode locked to where it releases it. *)
Definition open_answers : list Z := [2; 0; 0] ++ repeat 0 NOFILE ++ [0; 1; 0; 0].

(** An [open] of a file that finds no free descriptor puts its inode twice: once when the file is closed, before the
    inode is released, and once after.  If nothing else has the inode, its count is zero when it is to be released, and
    the kernel panics; otherwise the call fails and has taken away a reference of someone else. *)
Theorem open_without_descriptor p i m f l s x y (Len : length (openFiles l) = NOFILE) (Full : forall fd, openFiles l !! fd <> Some None)
    (Free : first_where (fun x => f_count x =? 0) (files s) = Some f) (Fx : files s !! f = Some x) (E : inodes s !! i = Some y)
    (Lock : i_lock y = Some p) (Ref : 1 <= i_count y) (Log : 0 <= outstanding s) :
  exists k s', drive p (open_file i m) open_answers l s = Some (Act (ORelease i) k, l, s') /\
    icount s' i = icount s i - 1 /\
    (icount s i = 1 -> forall a, exec (ORelease i) p a l s' = Stops Broken) /\
    (1 < icount s i -> exists s'', drive p (Act (ORelease i) k) [0; 0] l s' = Some (Ret None, l, s'') /\ icount s'' i = icount s i - 2).
Proof.
  unfold open_file, open_answers. cbn [app]. set (data := FInode i 0). set (r := isReadable (m_access m)). set (w := isWritable (m_access m)).
  pose proof (lookup_lt_Some _ _ _ Fx) as Lf. pose proof (lookup_lt_Some _ _ _ E) as Li.
  set (new := File 1 r w data).
  set (s1 := set_files (<[f := set_count 1 x]> (files s)) s). set (s2 := set_files (<[f := new]> (files s)) s).
  set (s3 := set_files (<[f := File 0 r w FNone]> (files s)) s). set (s4 := set_outstanding (outstanding s + 1) s3).
  set (s5 := set_inodes (<[i := set_refs (i_count y - 1) y]> (inodes s)) s4). set (s6 := set_outstanding (outstanding s + 1 - 1) s5).
  assert (A2 : exec (OSet f data r w) p 0 l s1 = Done tt l s2).
  { cbn [exec s1 set_files files]. rewrite list_lookup_insert_eq by exact Lf. unfold s2, new, set_files, s1. cbn. rewrite list_insert_insert_eq. reflexivity. }
  assert (A3 : exec (ODrop f) p 0 l s2 = Done (Some new) l s3).
  { cbn [exec s2 set_files files]. rewrite list_lookup_insert_eq by exact Lf. change (f_count new <? 1) with false.
    change (0 <? f_count new - 1) with false. cbv iota. unfold s3, set_files, s2. cbn. rewrite list_insert_insert_eq. reflexivity. }
  assert (A5 : exec (OPut i) p 0 l s4 = Done false l s5).
  { cbn [exec s4 s3 set_outstanding set_files inodes]. rewrite E, andb_false_r, (proj2 (Z.ltb_ge _ _)) by exact Ref. reflexivity. }
  assert (A6 : exec OEnd p 0 l s5 = Done tt l s6).
  { cbn [exec s5 s4 set_inodes set_outstanding outstanding]. rewrite (proj2 (Z.ltb_ge _ _)) by lia. reflexivity. }
  assert (I6 : inodes s6 !! i = Some (set_refs (i_count y - 1) y)) by (apply list_lookup_insert_eq, Li).
  assert (C6 : icount s6 i = icount s i - 1) by (unfold icount; rewrite I6, E; reflexivity).
  assert (Cy : icount s i = i_count y) by (unfold icount; rewrite E; reflexivity).
  eexists (fun _ => put i;; Ret None), s6. split; [|split; [exact C6|split]].
  - rewrite (drive_act p (OType i) _ 2 _ l s TRegular l s) by (cbn [exec]; rewrite E; reflexivity). cbv iota.
    rewrite (drive_act p OAlloc _ 0 _ l s (Some f) l s1) by (cbn [exec]; rewrite Free, Fx; reflexivity). cbv iota.
    rewrite (drive_act p _ _ 0 _ l s1 tt l s2 A2).
    rewrite (drive_bind p _ _ (repeat 0 NOFILE) _ l s2 None l s2).
    2:{ apply (drive_full p l s2 f (seq 0 NOFILE)). apply List.Forall_forall. intros fd I. apply in_seq in I.
        destruct (lookup_lt_is_Some_2 (openFiles l) fd) as [[g|] G]; [lia|exists g; exact G|destruct (Full fd G)]. }
    unfold close. change [0; 1; 0; 0] with ([0; 1; 0; 0] ++ []). rewrite (drive_bind p _ _ [0; 1; 0; 0] [] l s2 tt l s6); [reflexivity|].
    rewrite (drive_act p _ _ 0 _ l s2 (Some new) l s3 A3). cbv iota. change (KFile.data new) with data. unfold data at 1. cbv iota.
    rewrite (drive_act p OBegin _ 1 _ l s3 tt l s4) by reflexivity.
    change [0; 0] with ([0] ++ [0]). rewrite (drive_bind p (put i) _ [0] [0] l s4 tt l s5).
    + change (act OEnd) with (Act OEnd (fun x => Ret x)). cbn [drive]. rewrite A6. reflexivity.
    + unfold put. rewrite (drive_act p (OPut i) _ 0 _ l s4 false l s5 A5). reflexivity.
  - intros One a. cbn [exec]. rewrite I6. cbn [set_refs i_lock i_count]. rewrite Lock, bool_decide_eq_true_2 by reflexivity. cbn [negb orb].
    rewrite (proj2 (Z.ltb_lt _ _)) by lia. reflexivity.
  - intros More. cbn [drive exec]. rewrite I6. cbn [set_refs i_lock i_count]. rewrite Lock, bool_decide_eq_true_2 by reflexivity. cbn [negb orb].
    rewrite (proj2 (Z.ltb_ge _ _)) by lia. pose proof (lookup_lt_Some _ _ _ I6) as L6.
    set (s7 := set_inodes _ s6). assert (I7 : inodes s7 !! i = Some (set_lock None (set_refs (i_count y - 1) y))) by (apply list_lookup_insert_eq, L6).
    set (s8 := set_inodes (<[i := set_refs (i_count y - 1 - 1) (set_lock None (set_refs (i_count y - 1) y))]> (inodes s7)) s7).
    assert (A8 : exec (OPut i) p 0 l s7 = Done false l s8).
    { cbn [exec]. rewrite I7. cbn [set_lock set_refs i_count]. rewrite andb_false_r, (proj2 (Z.ltb_ge _ _)) by lia. reflexivity. }
    exists s8. split.
    + refine (eq_trans (drive_bind p (put i) (fun _ => Ret None) [0] [] l s7 tt l s8 _) eq_refl).
      unfold put. rewrite (drive_act p (OPut i) _ 0 _ l s7 false l s8 A8). reflexivity.
    + unfold icount at 1. change (inodes s8) with (<[i := set_refs (i_count y - 1 - 1) (set_lock None (set_refs (i_count y - 1) y))]> (inodes s7)).
      rewrite list_lookup_insert_eq by exact (lookup_lt_Some _ _ _ I7). cbn [i_count set_refs set_lock]. lia.
Qed.

(** Calls one after the other. *)
Fixpoint script (p : nat) (calls : list (call * list Z)) (l : local) (s : shared) : option (local * shared) :=
  match calls with
  | [] => Some (l, s)
  | (c, answers) :: calls =>
      match drive p (run_call c) answers l s with
      | Some (Ret (RNum _), l', s') => match cwd l with Some _ => script p calls l' s' | None => None end
      | _ => None
      end
  end.

Lemma script_reach p calls : forall w l l' s', wreach (fun _ _ => True) w -> w_threads w !! p = Some (Thread l None) ->
  script p calls l (w_shared w) = Some (l', s') -> wreach (fun _ _ => True) (World s' (<[p := Thread l' None]> (w_threads w))).
Proof.
  induction calls as [|[c answers] calls IH]; intros w l l' s' R E S; cbn [script] in S.
  - injection S as <- <-. rewrite list_insert_id by exact E. destruct w. exact R.
  - destruct (drive p (run_call c) answers l (w_shared w)) as [[[[a|X o k] l1] s1]|] eqn:D; try discriminate.
    destruct a as [r| |]; try discriminate. destruct (cwd l) as [d|] eqn:Cd; [|discriminate]. pose proof (lookup_lt_Some _ _ _ E) as L.
    assert (Cn : cwd l <> None) by (rewrite Cd; discriminate).
    pose proof (call_reach _ w p l c R E Cn Logic.I) as R1.
    pose proof (drive_reach _ p answers _ (run_call c) l _ _ _ R1 (list_lookup_insert_eq _ _ _ L) D) as R2.
    cbn [w_threads] in R2. rewrite list_insert_insert_eq in R2.
    pose proof (return_reach _ _ p _ _ R2 (list_lookup_insert_eq _ _ _ L)) as R3. cbn [w_threads w_shared] in R3. rewrite list_insert_insert_eq in R3.
    specialize (IH _ l1 l' s' R3 (list_lookup_insert_eq _ _ _ L) S). cbn [w_threads] in IH. rewrite list_insert_insert_eq in IH. exact IH.
Qed.

Lemma drive_inside {A B} p (m : code A) (g : A -> code B) answers : forall l s m' l' s', drive p m answers l s = Some (m', l', s') ->
  drive p (m ≫= g) answers l s = Some (m' ≫= g, l', s').
Proof.
  revert m. induction answers as [|z answers IH]; intros m l s m' l' s' D; cbn [drive] in *; [congruence|].
  destruct m as [|X o k]; [discriminate|]. unfold mbind, code_bind. cbn [bind drive]. destruct (exec o p z l s); try discriminate.
  exact (IH _ _ _ _ _ _ D).
Qed.

(** The first process opens a file, duplicates the descriptor fifteen times, and opens another file. *)
Definition open_f : call * list Z := (SOpen [slash; 102] 0, [1; 0; 0; 1; 2; 0; 0; 0; 2; 2; 0; 0; 0; 0; 0; 0]).
Definition fill : list (call * list Z) := open_f :: map (fun n => (SDup 0, repeat 0 (n + 4))) (seq 1 15).

Lemma open_without_descriptor_witness : exists w l i k, wreach (fun _ _ => True) w /\
  w_threads w !! 0%nat = Some (Thread l (Some (Act (ORelease i) k))) /\ forall a, exec (ORelease i) 0 a l (w_shared w) = Stops Broken.
Proof.
  set (g := SOpen [slash; 103] 0).
  destruct (script 0 fill local0 (w_shared boot)) as [[l s]|] eqn:S; [|vm_compute in S; discriminate S].
  pose proof (script_reach 0 fill boot local0 l s (WR_boot _) eq_refl S) as R. set (w := World _ _) in R.
  assert (Ll : l = Local (repeat (Some 0%nat) NOFILE) (Some 0%nat)) by (vm_compute in S; injection S as <- _; reflexivity).
  assert (Cd : cwd l <> None) by (rewrite Ll; discriminate).
  pose proof (call_reach _ w 0 l g R eq_refl Cd Logic.I) as R1.
  destruct (drive 0 (run_call g) [1; 0; 0; 1; 3; 0; 0; 0; 2] l s) as [[[m1 l1] s1]|] eqn:D; [|exfalso; clear - S D; vm_compute in S; injection S as <- <-; vm_compute in D; discriminate D].
  pose proof (drive_reach _ 0 _ _ (run_call g) l m1 l1 s1 R1 eq_refl D) as R2.
  set (mode := Mode read_only false false). set (rest := fun r : option Z => act OEnd;; Ret r). set (wrap := fun r : option Z => Ret (RNum r)).
  assert (Eq : m1 = ((open_file 2 mode ≫= rest) ≫= wrap) /\ l1 = l).
  { clear - S D. vm_compute in S. injection S as <- <-. lazy -[open_file] in D. injection D as <- <- _. split; reflexivity. }
  destruct Eq as [-> ->].
  assert (St : first_where (fun x => f_count x =? 0) (files s1) = Some 1%nat /\ files s1 !! 1%nat = Some (File 0 false false FNone) /\
    inodes s1 !! 2%nat = Some (Inode root_fs_device 3 1 (Some 0%nat)) /\ outstanding s1 = 1).
  { clear - S D. vm_compute in S. injection S as <- <-. vm_compute in D. injection D as <-. repeat split; reflexivity. }
  destruct St as (Free & Fx & Ei & Log).
  destruct (open_without_descriptor 0 2 mode 1 l s1 _ _ ltac:(rewrite Ll; reflexivity)
    ltac:(rewrite Ll; intros fd Q; apply lookup_repeat in Q; discriminate Q) Free Fx Ei eq_refl ltac:(cbn [i_count]; lia) ltac:(lia))
    as (k & s' & Dr & _ & Dead & _).
  pose proof (drive_inside 0 _ wrap _ _ _ _ _ _ (drive_inside 0 _ rest _ _ _ _ _ _ Dr)) as Dr2.
  pose proof (drive_reach _ 0 _ _ _ l _ _ _ R2 eq_refl Dr2) as R3.
  eexists _, l, 2%nat, _. split; [exact R3|]. split; [reflexivity|]. apply Dead. unfold icount. rewrite Ei. reflexivity.
Defined.
