(* ===== verification/KInode.v ===== *)
(** What is on the disk below the log: the allocation of blocks (diskblock.zig), the
    inodes and the contents of files (inode.zig) of src/kernel/filesystem.

    A program here is one thread of the file system between [beginOperation] and
    [endOperation], with the inode it works on locked.  It reads and changes blocks
    in the buffer cache, and hands those it has changed to the log: [disk] is what
    the cache shows of the disk, [trace] the blocks given to [log.write] in order.
    Block numbers, sizes and offsets are [u32]. *)

From S2P Require Import Prelude.
From stdpp Require Import base list gmap.

Local Open Scope Z_scope.

(** * State *)

Definition block_size : Z := 1024.
Definition bitmap_bits_per_block : Z := block_size * 8.
Definition direct_pointer_count : Z := 12.
Definition indirect_pointer_block_index : Z := direct_pointer_count.
Definition indirect_pointer_count : Z := block_size / 4.
Definition max_file_block_count : Z := direct_pointer_count + indirect_pointer_count.

(** The fields of the super block that are used. *)
Record super : Set := Super { size : Z; ninodes : Z; inodestart : Z; bmapstart : Z }.

Variant inode_type : Set := free | directory | file | device.

Record disk_inode : Set := DiskInode { d_device : Z; d_size : Z; addrs : list Z; type : inode_type; link_count : Z }.

Definition zero_block : list Z := repeat 0 (Z.to_nat block_size).
Definition block_at (d : gmap Z (list Z)) (n : Z) : list Z := default zero_block (d !! n).

Record st : Set := St { di : disk_inode; disk : gmap Z (list Z); trace : list (Z * list Z) }.

(** Zig's errors keep what was done before them; a panic ends everything. *)
Variant outcome (A : Type) : Type :=
| Done (a : A) (s : st)
| Failed (s : st)
| Panicked.
Arguments Done {A}. Arguments Failed {A}. Arguments Panicked {A}.

Definition M (A : Type) : Type := st -> outcome A.
#[export] Instance m_ret : MRet M := fun A a s => Done a s.
#[export] Instance m_bind : MBind M := fun A B f m s => match m s with Done a s => f a s | Failed s => Failed s | Panicked => Panicked end.
Definition fail {A} : M A := fun s => Failed s.
Definition panic {A} : M A := fun _ => Panicked.
Definition try {A} (m : M A) : M (option A) := fun s =>
  match m s with Done a s => Done (Some a) s | Failed s => Done None s | Panicked => Panicked end.

Fixpoint for_each {A} (l : list A) (f : A -> M unit) : M unit :=
  match l with [] => mret tt | x :: l => f x ;; for_each l f end.

(** The data of a block; a change of it in the cache; and a change that is logged. *)
Definition read_block (n : Z) : M (list Z) := fun s => Done (block_at (disk s) n) s.
Definition poke (n : Z) (b : list Z) : M unit := fun s => Done tt (St (di s) (<[n := b]> (disk s)) (trace s)).
Definition log_write (n : Z) : M unit := fun s => Done tt (St (di s) (disk s) (trace s ++ [(n, block_at (disk s) n)])).
Definition change (n : Z) (b : list Z) : M unit := poke n b ;; log_write n.
Definition get_inode : M disk_inode := fun s => Done (di s) s.
Definition set_inode (f : disk_inode -> disk_inode) : M unit := fun s => Done tt (St (f (di s)) (disk s) (trace s)).

Section Disk.
Variable sb : super.

(** * Blocks *)

Definition getFreeMapBlockNumber (b : Z) : Z := b / bitmap_bits_per_block + bmapstart sb.

Definition mask (bit_index : Z) : Z := Z.shiftl 1 (bit_index mod 8).
Definition byte_index (bit_index : Z) : nat := Z.to_nat (bit_index / 8).
Definition isUsed (bytes : list Z) (bit_index : Z) : bool := negb (Z.land (nth (byte_index bit_index) bytes 0) (mask bit_index) =? 0).
Definition markUsed (bytes : list Z) (bit_index : Z) : list Z :=
  list_set bytes (byte_index bit_index) (Z.lor (nth (byte_index bit_index) bytes 0) (mask bit_index)).
Definition markFree (bytes : list Z) (bit_index : Z) : option (list Z) :=
  if isUsed bytes bit_index
  then Some (list_set bytes (byte_index bit_index) (Z.land (nth (byte_index bit_index) bytes 0) (Z.lxor 255 (mask bit_index))))
  else None.
Definition findFree (bytes : list Z) (max_bits : Z) : option Z :=
  find (fun bit_index => negb (isUsed bytes bit_index)) (map Z.of_nat (seq 0 (Z.to_nat max_bits))).

Definition zero (b : Z) : M unit := change b zero_block.

(** The first block of each block of the bitmap. *)
Definition map_starts : list Z := map (fun k => Z.of_nat k * bitmap_bits_per_block) (seq 0 (Z.to_nat ((size sb + bitmap_bits_per_block - 1) / bitmap_bits_per_block))).

Fixpoint allocate_from (starts : list Z) : M Z :=
  match starts with
  | [] => fail
  | block_number :: starts =>
      let m := getFreeMapBlockNumber block_number in
      bytes ← read_block m;
      match findFree bytes (Z.min bitmap_bits_per_block (size sb - block_number)) with
      | Some block_index => change m (markUsed bytes block_index) ;; zero (block_number + block_index) ;; mret (block_number + block_index)
      | None => allocate_from starts
      end
  end.
Definition allocate : M Z := allocate_from map_starts.

Definition free_block (b : Z) : M unit :=
  let m := getFreeMapBlockNumber b in
  bytes ← read_block m;
  match markFree bytes (b mod bitmap_bits_per_block) with
  | Some bytes => change m bytes
  | None => panic
  end.

(** * Inodes on the disk: 64 bytes each.  A type is one of four numbers; a larger one
    on the disk is illegal in the source, whose enum has no other value, and is read as
    free here. *)

Definition type_number (t : inode_type) : Z := match t with free => 0 | directory => 1 | file => 2 | device => 3 end.
Definition type_of (n : Z) : inode_type := match n with 1 => directory | 2 => file | 3 => device | _ => free end.

Definition inodes_per_block : Z := block_size / 64.
Definition getInodeBlock (inode_number : Z) : Z := inode_number / inodes_per_block + inodestart sb.

Definition encode (i : disk_inode) : list Z :=
  le_bytes 4 (d_device i) ++ le_bytes 4 (d_size i) ++ flat_map (le_bytes 4) (addrs i) ++ le_bytes 2 (type_number (type i)) ++ le_bytes 2 (link_count i).
Definition number_at (width : nat) (bytes : list Z) (at_ : nat) : Z := of_le (firstn width (skipn at_ bytes)).
Definition decode (bytes : list Z) : disk_inode :=
  DiskInode (number_at 4 bytes 0) (number_at 4 bytes 4) (map (fun k => number_at 4 bytes (8 + 4 * k)) (seq 0 13))
    (type_of (number_at 2 bytes 60)) (number_at 2 bytes 62).

Definition inode_offset (inode_number : Z) : nat := Z.to_nat (64 * (inode_number mod inodes_per_block)).
Definition getDiskInode (bytes : list Z) (inode_number : Z) : disk_inode := decode (firstn 64 (skipn (inode_offset inode_number) bytes)).

Definition empty_inode : disk_inode := DiskInode 0 0 (repeat 0 13) free 0.

(** [Inode.alloc]: the number; the rest is [get]. *)
Fixpoint alloc_from (t : inode_type) (numbers : list Z) : M Z :=
  match numbers with
  | [] => fail
  | n :: numbers =>
      bytes ← read_block (getInodeBlock n);
      match type (getDiskInode bytes n) with
      | free => change (getInodeBlock n) (splice bytes (inode_offset n) (encode (DiskInode 0 0 (repeat 0 13) t 0))) ;; mret n
      | _ => alloc_from t numbers
      end
  end.
Definition inode_alloc (t : inode_type) : M Z := alloc_from t (map Z.of_nat (seq 1 (Z.to_nat (ninodes sb) - 1))).

Section Inode.
Variable inode_number : Z.

(** What [lock] does when the inode is not valid. *)
Definition load : M unit :=
  bytes ← read_block (getInodeBlock inode_number);
  set_inode (fun _ => getDiskInode bytes inode_number) ;;
  i ← get_inode;
  match type i with free => panic | _ => mret tt end.

Definition update : M unit :=
  bytes ← read_block (getInodeBlock inode_number);
  i ← get_inode;
  change (getInodeBlock inode_number) (splice bytes (inode_offset inode_number) (encode i)).

(** ** The blocks of a file *)

Definition set_addr (k n : Z) (i : disk_inode) : disk_inode := DiskInode (d_device i) (d_size i) (list_set (addrs i) (Z.to_nat k) n) (type i) (link_count i).
Definition set_size (n : Z) (i : disk_inode) : disk_inode := DiskInode (d_device i) n (addrs i) (type i) (link_count i).
Definition set_type (t : inode_type) (i : disk_inode) : disk_inode := DiskInode (d_device i) (d_size i) (addrs i) t (link_count i).

Definition getDiskBlockDirect (index : Z) : M Z :=
  if direct_pointer_count <? index then panic else i ← get_inode; mret (nth (Z.to_nat index) (addrs i) 0).

Definition direct_or_new (index : Z) : M Z :=
  b ← getDiskBlockDirect index;
  if b =? 0 then n ← allocate; set_inode (set_addr index n) ;; mret n else mret b.

Definition getBlock (index : Z) : M Z :=
  if index <? direct_pointer_count then direct_or_new index
  else
    let k := index - direct_pointer_count in
    if indirect_pointer_count <=? k then panic
    else
      indirect_block ← direct_or_new indirect_pointer_block_index;
      addresses ← read_block indirect_block;
      let block_number := number_at 4 addresses (Z.to_nat (4 * k)) in
      if negb (block_number =? 0) then mret block_number
      else
        n ← allocate;
        addresses ← read_block indirect_block;
        change indirect_block (splice addresses (Z.to_nat (4 * k)) (le_bytes 4 n)) ;;
        mret n.

Definition free_direct (k : Z) : M unit :=
  b ← getDiskBlockDirect k;
  if b =? 0 then mret tt else free_block b ;; set_inode (set_addr k 0).

(** The second half of [truncate]. *)
Definition free_indirect : M unit :=
  indirect_block ← getDiskBlockDirect indirect_pointer_block_index;
  if indirect_block =? 0 then mret tt
  else
    addresses ← read_block indirect_block;
    for_each (map (fun k => number_at 4 addresses (4 * k)) (seq 0 256)) (fun b => if b =? 0 then mret tt else free_block b) ;;
    free_block indirect_block ;;
    set_inode (set_addr indirect_pointer_block_index 0).

Definition truncate : M unit :=
  for_each (map Z.of_nat (seq 0 12)) free_direct ;;
  free_indirect ;;
  set_inode (set_size 0) ;;
  update.

(** What [put] does for an inode without links and other references. *)
Definition discard : M unit := truncate ;; set_inode (set_type free) ;; update.

(** ** Reading and writing *)

(** [copyOut at_ piece]: whether [piece] can be copied to the destination, from its
    byte [at_] on.  The result is what was copied there. *)
Fixpoint read_loop (copyOut : Z -> list Z -> bool) (fuel : nat) (bytes_to_read bytes_read current_offset : Z) : M (list Z) :=
  match fuel with
  | O => mret []
  | S fuel =>
      if bytes_read <? bytes_to_read then
        b ← try (getBlock (current_offset / block_size));
        match b with
        | None => mret []
        | Some b =>
            data ← read_block b;
            let block_offset := current_offset mod block_size in
            let n := Z.min (bytes_to_read - bytes_read) (block_size - block_offset) in
            let piece := firstn (Z.to_nat n) (skipn (Z.to_nat block_offset) data) in
            if copyOut bytes_read piece
            then rest ← read_loop copyOut fuel bytes_to_read (bytes_read + n) (current_offset + n); mret (piece ++ rest)
            else fail
        end
      else mret []
  end.

Definition turns (n : Z) : nat := Z.to_nat (n / block_size + 2).

Definition read (copyOut : Z -> list Z -> bool) (offset count : Z) : M (list Z) :=
  i ← get_inode;
  if d_size i <? offset then mret []
  else if 2 ^ 32 <=? offset + count then fail
  else
    let bytes_to_read := if d_size i <? offset + count then d_size i - offset else count in
    read_loop copyOut (turns bytes_to_read) bytes_to_read 0 offset.

(** [copyIn at_ n]: what is copied of the [n] bytes of the source from its byte [at_]
    on: all of them, or only some if the copy fails. *)
Fixpoint write_loop (copyIn : Z -> Z -> list Z) (fuel : nat) (count bytes_written current_offset : Z) : M Z :=
  match fuel with
  | O => mret bytes_written
  | S fuel =>
      if bytes_written <? count then
        b ← try (getBlock (current_offset / block_size));
        match b with
        | None => mret bytes_written
        | Some b =>
            data ← read_block b;
            let block_offset := current_offset mod block_size in
            let n := Z.min (count - bytes_written) (block_size - block_offset) in
            let piece := copyIn bytes_written n in
            poke b (splice data (Z.to_nat block_offset) piece) ;;
            if len piece =? n
            then log_write b ;; write_loop copyIn fuel count (bytes_written + n) (current_offset + n)
            else mret bytes_written
        end
      else mret bytes_written
  end.

Definition write (copyIn : Z -> Z -> list Z) (offset count : Z) : M Z :=
  i ← get_inode;
  if d_size i <? offset then fail
  else if 2 ^ 32 <=? offset + count then fail
  else if block_size * max_file_block_count <? offset + count then fail
  else
    bytes_written ← write_loop copyIn (turns count) count 0 offset;
    i ← get_inode;
    (if d_size i <? offset + bytes_written then set_inode (set_size (offset + bytes_written)) else mret tt) ;;
    update ;;
    mret bytes_written.
End Inode.
End Disk.
