(* ===== verification/KInodeSpec.v ===== *)
(** Bits, numbers and blocks: what the allocation of blocks does, and what it means
    for an inode to be sound; the blocks of a file, and that [getBlock] keeps it sound and
    cannot be seen in the contents. *)

From S2P Require Import Prelude.
From stdpp Require Import base list gmap.
From S2P Require Import KInode.

Local Open Scope Z_scope.

(** * Bits of a bitmap *)

Lemma land_mask x i : 0 <= i -> (Z.land x (Z.shiftl 1 i) =? 0) = negb (Z.testbit x i).
Proof.
  intros H. rewrite Z.shiftl_1_l. destruct (Z.testbit x i) eqn:E; cbn [negb].
  - apply Z.eqb_neq. intros Z0. assert (T : Z.testbit (Z.land x (2 ^ i)) i = true) by (rewrite Z.land_spec, E, Z.pow2_bits_true by lia; reflexivity).
    rewrite Z0, Z.bits_0 in T. discriminate.
  - apply Z.eqb_eq, Z.bits_inj'. intros n Hn. rewrite Z.land_spec, Z.bits_0, Z.pow2_bits_eqb by lia.
    destruct (Z.eqb_spec i n) as [<-|]; [rewrite E|]; apply andb_false_r || reflexivity.
Qed.

Lemma isUsed_bit bytes i : isUsed bytes i = Z.testbit (nth (byte_index i) bytes 0) (i mod 8).
Proof. unfold isUsed, mask. rewrite land_mask by (apply Z.mod_pos_bound; lia). apply negb_involutive. Qed.

Lemma byte_index_lt (bytes : list Z) i n : 0 <= i < 8 * n -> len bytes = n -> (byte_index i < length bytes)%nat.
Proof. unfold byte_index. intros H L. assert (i / 8 < n) by (apply Z.div_lt_upper_bound; lia). pose proof (Z.div_pos i 8). lia. Qed.

Lemma same_bit i j : 0 <= i -> 0 <= j -> byte_index i = byte_index j -> i mod 8 = j mod 8 -> i = j.
Proof.
  unfold byte_index. intros Hi Hj E1 E2. pose proof (Z.div_pos i 8). pose proof (Z.div_pos j 8).
  rewrite (Z.div_mod i 8), (Z.div_mod j 8) by lia. lia.
Qed.

Lemma isUsed_markUsed bytes i j : 0 <= i < 8 * len bytes -> 0 <= j -> isUsed (markUsed bytes i) j = (i =? j) || isUsed bytes j.
Proof.
  intros Hi Hj. rewrite !isUsed_bit. unfold markUsed. pose proof (byte_index_lt bytes i _ Hi eq_refl) as L.
  destruct (decide (byte_index i = byte_index j)) as [E|N].
  - rewrite <- E, nth_set_eq by exact L. rewrite Z.lor_spec. unfold mask. rewrite Z.shiftl_1_l, Z.pow2_bits_eqb by (apply Z.mod_pos_bound; lia).
    rewrite orb_comm. f_equal. destruct (Z.eqb_spec i j) as [->|N]; [apply Z.eqb_refl|].
    apply Z.eqb_neq. intros M. apply N, same_bit; auto; lia.
  - rewrite nth_set_ne by exact N. destruct (Z.eqb_spec i j) as [->|_]; [destruct (N eq_refl)|reflexivity].
Qed.

Lemma isUsed_markFree bytes i bytes' j : 0 <= i < 8 * len bytes -> 0 <= j -> Forall is_byte bytes -> markFree bytes i = Some bytes' ->
  isUsed bytes' j = negb (i =? j) && isUsed bytes j.
Proof.
  intros Hi Hj B H. unfold markFree in H. destruct (isUsed bytes i); [|discriminate]. injection H as <-. rewrite !isUsed_bit.
  pose proof (byte_index_lt bytes i _ Hi eq_refl) as L.
  destruct (decide (byte_index i = byte_index j)) as [E|N].
  - rewrite <- E, nth_set_eq by exact L. rewrite Z.land_spec, Z.lxor_spec. unfold mask.
    pose proof (Z.mod_pos_bound i 8 ltac:(lia)). pose proof (Z.mod_pos_bound j 8 ltac:(lia)).
    rewrite Z.shiftl_1_l, Z.pow2_bits_eqb by lia. rewrite andb_comm. f_equal.
    replace (Z.testbit 255 (j mod 8)) with true.
    2:{ change 255 with (Z.ones 8). rewrite Z.ones_spec_low by lia. reflexivity. }
    cbn [xorb]. destruct (Z.eqb_spec i j) as [->|N]; [rewrite Z.eqb_refl; reflexivity|].
    replace (i mod 8 =? j mod 8) with false; [reflexivity|]. symmetry. apply Z.eqb_neq. intros M. apply N, same_bit; auto; lia.
  - rewrite nth_set_ne by exact N. destruct (Z.eqb_spec i j) as [->|_]; [destruct (N eq_refl)|reflexivity].
Qed.

Lemma byte_lor a b : is_byte a -> is_byte b -> is_byte (Z.lor a b).
Proof.
  unfold is_byte. intros A B. split; [apply Z.lor_nonneg; lia|]. change 256 with (2 ^ 8). destruct (Z.eq_dec (Z.lor a b) 0) as [->|N]; [lia|].
  assert (0 < Z.lor a b) by (pose proof (proj2 (Z.lor_nonneg a b)); lia).
  apply Z.log2_lt_pow2; [lia|]. rewrite Z.log2_lor by lia.
  apply Z.max_lub_lt; [destruct (Z.eq_dec a 0) as [->|]; [cbn; lia|apply Z.log2_lt_pow2; lia]|destruct (Z.eq_dec b 0) as [->|]; [cbn; lia|apply Z.log2_lt_pow2; lia]].
Qed.

Lemma byte_land a b : is_byte a -> 0 <= b -> is_byte (Z.land a b).
Proof.
  unfold is_byte. intros A B. split; [apply Z.land_nonneg; lia|]. change 256 with (2 ^ 8).
  destruct (Z.eq_dec (Z.land a b) 0) as [->|N]; [lia|]. assert (0 < Z.land a b) by (pose proof (proj2 (Z.land_nonneg a b)); lia).
  assert (a <> 0) by (intros ->; rewrite Z.land_0_l in N; lia).
  apply Z.log2_lt_pow2; [lia|]. apply Z.le_lt_trans with (Z.log2 a); [|apply Z.log2_lt_pow2; lia].
  apply Z.le_trans with (Z.min (Z.log2 a) (Z.log2 b)); [apply Z.log2_land; lia|apply Z.le_min_l].
Qed.

Lemma mask_byte i : is_byte (mask i).
Proof.
  unfold is_byte, mask. rewrite Z.shiftl_1_l. pose proof (Z.mod_pos_bound i 8 ltac:(lia)) as H. split; [apply Z.pow_nonneg; lia|].
  change 256 with (2 ^ 8). apply Z.pow_lt_mono_r; lia.
Qed.

Lemma forall_nth (l : list Z) i : Forall is_byte l -> is_byte (nth i l 0).
Proof.
  intros F. destruct (Nat.lt_ge_cases i (length l)) as [H|H]; [|rewrite nth_overflow by exact H; unfold is_byte; lia].
  rewrite List.Forall_forall in F. apply F, nth_In, H.
Qed.

Lemma forall_set (l : list Z) i v : Forall is_byte l -> is_byte v -> Forall is_byte (list_set l i v).
Proof. intros F V. revert i. induction F as [|x l X F IH]; intros [|i]; cbn [list_set]; constructor; auto. Qed.

(** A block is 1024 bytes. *)
Definition good (b : list Z) : Prop := length b = 1024%nat /\ Forall is_byte b.

Lemma good_zero : good zero_block.
Proof. split; [reflexivity|]. apply List.Forall_forall. intros x I. apply repeat_spec in I as ->. unfold is_byte. lia. Qed.

Lemma good_used b i : good b -> good (markUsed b i).
Proof.
  intros [L F]. split; [unfold markUsed; rewrite list_set_length; exact L|]. apply forall_set; [exact F|]. apply byte_lor; [apply forall_nth, F|apply mask_byte].
Qed.

Lemma good_free b i b' : good b -> markFree b i = Some b' -> good b'.
Proof.
  intros [L F] H. unfold markFree in H. destruct (isUsed b i); [|discriminate]. injection H as <-. split; [rewrite list_set_length; exact L|].
  apply forall_set; [exact F|]. apply byte_land; [apply forall_nth, F|]. apply Z.lxor_nonneg. pose proof (mask_byte i) as M. unfold is_byte in M. lia.
Qed.

Lemma good_splice b i l : good b -> Forall is_byte l -> (i + length l <= 1024)%nat -> good (splice b i l).
Proof.
  intros [L F] Fl B. split; [rewrite splice_length; lia|]. unfold splice. rewrite !Forall_app. split; [|split; [exact Fl|]].
  - apply Forall_take, F.
  - apply Forall_drop, F.
Qed.

Lemma le_bytes_length n : forall v, length (le_bytes n v) = n.
Proof. induction n; cbn; auto. Qed.
Lemma le_bytes_good n : forall v, Forall is_byte (le_bytes n v).
Proof. induction n as [|n IH]; intros v; constructor; [unfold is_byte; apply Z.mod_pos_bound; lia|apply IH]. Qed.

Lemma findFree_some bytes n i : findFree bytes n = Some i -> 0 <= i < n /\ isUsed bytes i = false.
Proof.
  intros H. apply List.find_some in H as [I U]. apply in_map_iff in I as (k & <- & I). apply in_seq in I.
  apply negb_true_iff in U. split; [lia|exact U].
Qed.

Lemma findFree_none bytes n : findFree bytes n = None -> forall i, 0 <= i < n -> isUsed bytes i = true.
Proof.
  intros H i B. pose proof (List.find_none _ _ H i) as N. apply negb_false_iff, N. apply in_map_iff. exists (Z.to_nat i).
  split; [lia|]. apply in_seq. lia.
Qed.

(** ** Numbers in a block *)

Lemma splice_inside b i l : (i + length l <= length b)%nat -> firstn (length l) (skipn i (splice b i l)) = l.
Proof.
  intros B. unfold splice. rewrite skipn_app, (skipn_all2 (firstn i b)) by (rewrite length_firstn; lia). cbn [app]. rewrite length_firstn.
  replace (i - Nat.min i (length b))%nat with 0%nat by lia. change (skipn 0 ?x) with x. rewrite firstn_app, Nat.sub_diag, firstn_all. apply app_nil_r.
Qed.

Lemma splice_outside b i l j n : (i + length l <= length b)%nat -> (j + n <= i \/ i + length l <= j)%nat ->
  firstn n (skipn j (splice b i l)) = firstn n (skipn j b).
Proof.
  intros B O. apply (list_eq_nth _ _ 0).
  - rewrite !length_firstn, !length_skipn, splice_length by exact B. reflexivity.
  - intros k Hk. rewrite length_firstn, length_skipn, splice_length in Hk by exact B. rewrite !nth_firstn, !nth_skipn.
    destruct (k <? n)%nat eqn:Kn; [|reflexivity]. apply Nat.ltb_lt in Kn. rewrite splice_nth by exact B.
    destruct (Nat.leb_spec i (j + k)); cbn [andb]; [|reflexivity]. destruct (Nat.ltb_spec (j + k) (i + length l)); [lia|reflexivity].
Qed.

Lemma number_splice b i v : 0 <= v < 2 ^ 32 -> (i + 4 <= length b)%nat -> number_at 4 (splice b i (le_bytes 4 v)) i = v.
Proof.
  intros V B. unfold number_at. pose proof (splice_inside b i (le_bytes 4 v)) as S. rewrite le_bytes_length in S. rewrite S by exact B.
  apply of_le_bytes. exact V.
Qed.

Lemma number_other b i v j : (i + 4 <= length b)%nat -> (j + 4 <= i \/ i + 4 <= j)%nat -> number_at 4 (splice b i (le_bytes 4 v)) j = number_at 4 b j.
Proof. intros B O. unfold number_at. rewrite splice_outside; rewrite ?le_bytes_length; auto. Qed.

Lemma of_le_zeros n : of_le (repeat 0 n) = 0.
Proof. induction n as [|n IH]; cbn [repeat of_le]; lia. Qed.

Lemma skipn_repeat {A} (x : A) i n : skipn i (repeat x n) = repeat x (n - i).
Proof. revert n. induction i as [|i IH]; intros [|n]; cbn; auto. Qed.
Lemma firstn_repeat {A} (x : A) i n : firstn i (repeat x n) = repeat x (Nat.min i n).
Proof. revert n. induction i as [|i IH]; intros [|n]; cbn; f_equal; auto. Qed.

Lemma number_zero n : number_at 4 zero_block n = 0.
Proof.
  unfold number_at, zero_block. rewrite skipn_repeat, firstn_repeat. apply of_le_zeros.
Qed.

Lemma number_range b i : Forall is_byte b -> 0 <= number_at 4 b i < 2 ^ 32.
Proof.
  intros F. unfold number_at. assert (G : forall n l, Forall is_byte l -> (length l <= n)%nat -> 0 <= of_le l < 256 ^ Z.of_nat n).
  { induction n as [|n IH]; intros l Fl L; destruct Fl as [|x l X Fl]; cbn [of_le length] in *; try lia.
    rewrite Nat2Z.inj_succ, Z.pow_succ_r by lia. specialize (IH l Fl ltac:(lia)). unfold is_byte in X. lia. }
  apply (G 4%nat); [apply Forall_take, Forall_drop, F|rewrite length_firstn; lia].
Qed.

(** * Blocks in use *)

Lemma block_insert d n b m : block_at (<[n := b]> d) m = if decide (n = m) then b else block_at d m.
Proof. unfold block_at. destruct (decide (n = m)) as [->|N]; [rewrite lookup_insert_eq|rewrite lookup_insert_ne by exact N]; reflexivity. Qed.

Section Disk.
Variable sb : super.

Definition map_count : Z := (size sb + bitmap_bits_per_block - 1) / bitmap_bits_per_block.

(** Boot block, super block and log; inodes; the bitmap; data. *)
Record laid_out : Prop := {
  l_inodes : 0 < ninodes sb;
  l_start : 0 <= inodestart sb;
  l_map : inodestart sb + (ninodes sb + inodes_per_block - 1) / inodes_per_block <= bmapstart sb;
  l_data : bmapstart sb + map_count < size sb;
  l_size : 0 < size sb /\ size sb + bitmap_bits_per_block <= 2 ^ 32;
}.

Definition is_map (n : Z) : Prop := bmapstart sb <= n < bmapstart sb + map_count.
Definition is_data (n : Z) : Prop := bmapstart sb + map_count <= n < size sb.
Definition used (d : gmap Z (list Z)) (b : Z) : bool := isUsed (block_at d (getFreeMapBlockNumber sb b)) (b mod bitmap_bits_per_block).
Definition all_good (d : gmap Z (list Z)) : Prop := forall n, good (block_at d n).

Lemma all_good_insert d n b : all_good d -> good b -> all_good (<[n := b]> d).
Proof. intros G B m. rewrite block_insert. destruct (decide (n = m)); auto. Qed.

Context (L : laid_out).

Lemma size_pos : 0 < size sb.
Proof. exact (proj1 (l_size L)). Qed.

Lemma start_pos : 0 <= bmapstart sb.
Proof.
  pose proof (l_start L). pose proof (l_map L). pose proof (l_inodes L).
  assert (0 <= (ninodes sb + inodes_per_block - 1) / inodes_per_block); [|lia].
  change inodes_per_block with 16. apply Z.div_pos; lia.
Qed.

Lemma map_count_pos : 0 <= map_count.
Proof. pose proof size_pos. unfold map_count. change bitmap_bits_per_block with 8192. apply Z.div_pos; lia. Qed.

Lemma map_of b : 0 <= b < size sb -> is_map (getFreeMapBlockNumber sb b).
Proof.
  intros B. unfold is_map, getFreeMapBlockNumber, map_count, bitmap_bits_per_block, block_size. pose proof (Z.div_pos b (1024 * 8)).
  assert (b / (1024 * 8) < (size sb + 1024 * 8 - 1) / (1024 * 8)); [|lia].
  apply Z.div_lt_upper_bound; [lia|]. pose proof (Z.mul_succ_div_gt (size sb + 1024 * 8 - 1) (1024 * 8)). lia.
Qed.

Lemma map_not_data n : is_map n -> ~ is_data n.
Proof. unfold is_map, is_data. lia. Qed.

Lemma bit_range b : 0 <= b mod bitmap_bits_per_block < bitmap_bits_per_block.
Proof. apply Z.mod_pos_bound. unfold bitmap_bits_per_block, block_size. lia. Qed.

Lemma same_block b x : getFreeMapBlockNumber sb b = getFreeMapBlockNumber sb x -> b mod bitmap_bits_per_block = x mod bitmap_bits_per_block -> b = x.
Proof.
  unfold getFreeMapBlockNumber, bitmap_bits_per_block, block_size. intros E1 E2. rewrite (Z.div_mod b (1024 * 8)), (Z.div_mod x (1024 * 8)) by lia. lia.
Qed.

(** A bit of the bitmap is set or cleared; [v] is what it becomes. *)
Lemma used_change d b x (bytes : list Z) (v : bool) : (forall j, 0 <= j -> isUsed bytes j = if b mod bitmap_bits_per_block =? j then v else isUsed (block_at d (getFreeMapBlockNumber sb b)) j) ->
  used (<[getFreeMapBlockNumber sb b := bytes]> d) x = if x =? b then v else used d x.
Proof.
  intros H. unfold used. rewrite block_insert. destruct (decide (getFreeMapBlockNumber sb b = getFreeMapBlockNumber sb x)) as [E|N].
  - rewrite H by apply bit_range. destruct (Z.eqb_spec x b) as [->|N]; [rewrite Z.eqb_refl; reflexivity|].
    destruct (Z.eqb_spec (b mod bitmap_bits_per_block) (x mod bitmap_bits_per_block)) as [E2|_]; [destruct N; symmetry; apply same_block; assumption|].
    rewrite E. reflexivity.
  - destruct (Z.eqb_spec x b) as [->|_]; [destruct (N eq_refl)|reflexivity].
Qed.

Lemma bits_good b bytes : good bytes -> 0 <= b mod bitmap_bits_per_block < 8 * len bytes.
Proof. intros [G _]. rewrite G. apply bit_range. Qed.

(** ** Allocation *)

(** What is left after block [b] has been allocated. *)
Definition marked (d : gmap Z (list Z)) (b : Z) : gmap Z (list Z) :=
  <[getFreeMapBlockNumber sb b := markUsed (block_at d (getFreeMapBlockNumber sb b)) (b mod bitmap_bits_per_block)]> d.
Definition with_block (d : gmap Z (list Z)) (b : Z) : gmap Z (list Z) := <[b := zero_block]> (marked d b).

Lemma starts_in k : (k < Z.to_nat map_count)%nat -> 0 <= Z.of_nat k * bitmap_bits_per_block < size sb.
Proof.
  intros K. unfold map_count, bitmap_bits_per_block, block_size in *.
  pose proof (Z.mul_div_le (size sb + 1024 * 8 - 1) (1024 * 8)). lia.
Qed.

Lemma allocate_from_spec s : forall ks, (forall k, k ∈ ks -> (k < Z.to_nat map_count)%nat) ->
  match allocate_from sb (map (fun k => Z.of_nat k * bitmap_bits_per_block) ks) s with
  | Done b s' => 0 <= b < size sb /\ used (disk s) b = false /\ di s' = di s /\ disk s' = with_block (disk s) b /\
      trace s' = trace s ++ [(getFreeMapBlockNumber sb b, block_at (marked (disk s) b) (getFreeMapBlockNumber sb b)); (b, zero_block)]
  | Failed s' => s' = s /\ forall b, 0 <= b < size sb -> Z.to_nat (b / bitmap_bits_per_block) ∈ ks -> used (disk s) b = true
  | Panicked => False
  end.
Proof.
  induction ks as [|k ks IH]; intros In; cbn [map allocate_from].
  - split; [reflexivity|]. intros b _ I. inversion I.
  - pose proof (starts_in k (In k (list_elem_of_here _ _))) as Bk. set (start := Z.of_nat k * bitmap_bits_per_block) in *.
    unfold mbind, m_bind, read_block. destruct (findFree _ _) as [i|] eqn:F.
    + apply findFree_some in F as [Bi Ui]. assert (Bi' : 0 <= i < bitmap_bits_per_block /\ start + i < size sb) by lia.
      assert (Em : (start + i) mod bitmap_bits_per_block = i).
      { unfold start. rewrite Z.add_comm, Z_mod_plus_full. apply Z.mod_small. lia. }
      assert (Ed : getFreeMapBlockNumber sb (start + i) = getFreeMapBlockNumber sb start).
      { unfold getFreeMapBlockNumber, start. unfold bitmap_bits_per_block, block_size in *. rewrite Z_div_mult_full, Z.div_add_l, (Z.div_small i) by lia. lia. }
      cbn. split; [lia|]. split; [unfold used; rewrite Ed, Em; exact Ui|]. split; [reflexivity|].
      unfold with_block, marked. rewrite Ed, Em. split; [reflexivity|].
      cbn [trace disk di]. rewrite <- app_assoc. cbn [app]. do 3 f_equal. rewrite block_insert, decide_True by reflexivity. reflexivity.
    + specialize (IH (fun k' I => In k' (list_elem_of_further _ _ _ I))). destruct (allocate_from _ _ s) as [b s'|s'|]; [exact IH| |exact IH].
      destruct IH as [-> IH]. split; [reflexivity|]. intros b Bb I. apply elem_of_cons in I as [E|I]; [|exact (IH b Bb I)].
      pose proof (findFree_none _ _ F (b mod bitmap_bits_per_block)) as U. unfold used.
      assert (Es : start = b - b mod bitmap_bits_per_block).
      { unfold start. rewrite <- E, Z2Nat.id by (apply Z.div_pos; unfold bitmap_bits_per_block, block_size; lia).
        pose proof (Z.div_mod b bitmap_bits_per_block). unfold bitmap_bits_per_block, block_size in *. lia. }
      replace (getFreeMapBlockNumber sb b) with (getFreeMapBlockNumber sb start).
      * apply U. pose proof (bit_range b). lia.
      * unfold getFreeMapBlockNumber. f_equal. unfold start. rewrite Z_div_mult_full by (unfold bitmap_bits_per_block, block_size; lia).
        rewrite <- E, Z2Nat.id by (apply Z.div_pos; unfold bitmap_bits_per_block, block_size; lia). reflexivity.
Qed.

(** All that is not data is in use. *)
Definition meta_used (d : gmap Z (list Z)) : Prop := forall b, 0 <= b < bmapstart sb + map_count -> used d b = true.

Lemma allocate_spec s : meta_used (disk s) ->
  match allocate sb s with
  | Done b s' => is_data b /\ used (disk s) b = false /\ di s' = di s /\ disk s' = with_block (disk s) b /\
      trace s' = trace s ++ [(getFreeMapBlockNumber sb b, block_at (marked (disk s) b) (getFreeMapBlockNumber sb b)); (b, zero_block)]
  | Failed s' => s' = s /\ forall b, is_data b -> used (disk s) b = true
  | Panicked => False
  end.
Proof.
  intros Mu. pose proof (allocate_from_spec s (seq 0 (Z.to_nat map_count))) as S. unfold allocate, map_starts. fold map_count.
  assert (In : forall k, k ∈ seq 0 (Z.to_nat map_count) -> (k < Z.to_nat map_count)%nat) by (intros k I; apply list_elem_of_In, in_seq in I; lia).
  specialize (S In). pose proof start_pos as Ps. pose proof map_count_pos.
  destruct (allocate_from _ _ s) as [b s'|s'|]; [| |exact S].
  - destruct S as (B & U & S). split; [|split; [exact U|exact S]]. split; [|lia].
    destruct (Z.lt_ge_cases b (bmapstart sb + map_count)) as [Lt|Ge]; [|exact Ge]. rewrite (Mu b) in U by lia. discriminate.
  - destruct S as [-> S]. split; [reflexivity|]. intros b [B1 B2].
    apply S; [lia|]. apply list_elem_of_In, in_seq. pose proof (map_of b ltac:(lia)) as M. unfold is_map, getFreeMapBlockNumber in M.
    pose proof (Z.div_pos b bitmap_bits_per_block ltac:(lia)). unfold bitmap_bits_per_block, block_size in *. lia.
Qed.

Lemma marked_used d b x : all_good d -> used (marked d b) x = if x =? b then true else used d x.
Proof.
  intros G. apply used_change. intros j J. rewrite isUsed_markUsed by (exact J || apply bits_good, G). destruct (_ =? j); reflexivity.
Qed.
Lemma marked_good d b : all_good d -> all_good (marked d b).
Proof. intros G. apply all_good_insert; [exact G|apply good_used, G]. Qed.
Lemma with_block_good d b : all_good d -> all_good (with_block d b).
Proof. intros G. apply all_good_insert; [apply marked_good, G|apply good_zero]. Qed.

(** The bitmap is not changed by what is written to data. *)
Lemma used_data d n b x : is_data n -> 0 <= x < size sb -> used (<[n := b]> d) x = used d x.
Proof.
  intros D X. unfold used. rewrite block_insert. destruct (decide (n = getFreeMapBlockNumber sb x)) as [->|_]; [|reflexivity].
  destruct (map_not_data _ (map_of x X) D).
Qed.

Lemma with_block_used d b x : all_good d -> is_data b -> 0 <= x < size sb -> used (with_block d b) x = if x =? b then true else used d x.
Proof. intros G D X. unfold with_block. rewrite used_data by assumption. apply marked_used, G. Qed.

Lemma with_block_at d b n : is_data b -> ~ is_map n -> block_at (with_block d b) n = if decide (b = n) then zero_block else block_at d n.
Proof.
  intros D N. unfold with_block, marked. rewrite !block_insert. destruct (decide (b = n)); [reflexivity|].
  destruct (decide (getFreeMapBlockNumber sb b = n)) as [<-|]; [|reflexivity]. destruct N. apply map_of.
  destruct D. pose proof start_pos. pose proof map_count_pos. lia.
Qed.

(** ** Freeing *)

Lemma free_block_spec b s : all_good (disk s) -> is_data b -> used (disk s) b = true -> 0 <= b ->
  exists bytes, good bytes /\ free_block sb b s = Done tt (St (di s) (<[getFreeMapBlockNumber sb b := bytes]> (disk s)) (trace s ++ [(getFreeMapBlockNumber sb b, bytes)])) /\
    forall x, used (<[getFreeMapBlockNumber sb b := bytes]> (disk s)) x = if x =? b then false else used (disk s) x.
Proof.
  intros G D U P. unfold free_block, mbind, m_bind, read_block. destruct (markFree _ _) as [bytes|] eqn:F.
  - exists bytes. split; [exact (good_free _ _ _ (G _) F)|]. split.
    + unfold change, poke, log_write, mbind, m_bind. cbn [disk trace di]. rewrite block_insert, decide_True by reflexivity. reflexivity.
    + intros x. apply used_change. intros j J. rewrite (isUsed_markFree _ _ _ j (bits_good _ _ (G _)) J (proj2 (G _)) F). destruct (_ =? j); reflexivity.
  - exfalso. unfold markFree in F. unfold used in U. rewrite U in F. discriminate.
Qed.
End Disk.

(** * What a file is *)

(** The places for block numbers: the 12 direct ones, the one of the indirect block, and
    the 256 in it. *)
Definition slots : nat := 269.
Definition indirect (i : disk_inode) : Z := nth 12 (addrs i) 0.
Definition slot (d : gmap Z (list Z)) (i : disk_inode) (k : nat) : Z :=
  if (k <=? 12)%nat then nth k (addrs i) 0
  else if indirect i =? 0 then 0 else number_at 4 (block_at d (indirect i)) (4 * (k - 13)).

(** The place for block [index] of the file. *)
Definition place (index : Z) : nat := if index <? 12 then Z.to_nat index else Z.to_nat (index + 1).

(** Byte [j] of the file. *)
Definition content (d : gmap Z (list Z)) (i : disk_inode) (j : Z) : Z :=
  let b := slot d i (place (j / block_size)) in
  if b =? 0 then 0 else nth (Z.to_nat (j mod block_size)) (block_at d b) 0.

Definition max_size : Z := block_size * max_file_block_count.

Lemma place_lt index : 0 <= index < max_file_block_count -> (place index < slots)%nat /\ place index <> 12%nat.
Proof. unfold place, slots, max_file_block_count, direct_pointer_count, indirect_pointer_count, block_size. intros H. change (1024 / 4) with 256 in H. destruct (Z.ltb_spec index 12); lia. Qed.

Lemma place_inj a b : 0 <= a -> 0 <= b -> place a = place b -> a = b.
Proof. unfold place. intros A B. destruct (Z.ltb_spec a 12), (Z.ltb_spec b 12); lia. Qed.

Lemma index_range j : 0 <= j < max_size -> 0 <= j / block_size < max_file_block_count.
Proof.
  unfold max_size. intros H. split; [apply Z.div_pos; unfold block_size; lia|]. apply Z.div_lt_upper_bound; [unfold block_size; lia|exact (proj2 H)].
Qed.

Section Disk.
Variable sb : super.
Context (L : laid_out sb).
Abbreviation is_data := (is_data sb).
Abbreviation is_map := (is_map sb).
Abbreviation used := (used sb).

(** [R]: the blocks of data that other files have. *)
Record sound (R : Z -> Prop) (s : st) : Prop := {
  s_good : all_good (disk s);
  s_meta : meta_used sb (disk s);
  s_len : length (addrs (di s)) = 13%nat;
  s_size : 0 <= d_size (di s) <= max_size;
  s_inj k k' : (k < slots)%nat -> (k' < slots)%nat -> slot (disk s) (di s) k = slot (disk s) (di s) k' -> slot (disk s) (di s) k <> 0 -> k = k';
  s_slot k : (k < slots)%nat -> slot (disk s) (di s) k <> 0 ->
    is_data (slot (disk s) (di s) k) /\ used (disk s) (slot (disk s) (di s) k) = true /\ ~ R (slot (disk s) (di s) k);
  s_rest b : R b -> is_data b /\ used (disk s) b = true;
  s_all b : is_data b -> used (disk s) b = true -> R b \/ exists k, (k < slots)%nat /\ slot (disk s) (di s) k = b;
}.

(** What a change of the blocks of a file leaves alone.  [W]: the places it uses. *)
Record keeps (R : Z -> Prop) (W : list nat) (s s' : st) : Prop := {
  k_rest n : R n -> block_at (disk s') n = block_at (disk s) n;
  k_meta n : n < bmapstart sb -> block_at (disk s') n = block_at (disk s) n;
  k_slots k : (k < slots)%nat -> slot (disk s) (di s) k <> 0 -> slot (disk s') (di s') k = slot (disk s) (di s) k;
  k_content j : 0 <= j < max_size -> content (disk s') (di s') j = content (disk s) (di s) j;
  k_size : d_size (di s') = d_size (di s);
  k_fields : d_device (di s') = d_device (di s) /\ type (di s') = type (di s) /\ link_count (di s') = link_count (di s);
  k_trace : exists tr, trace s' = trace s ++ tr /\ (forall n, n ∈ tr.*1 -> is_map n \/ exists k, k ∈ W /\ (k < slots)%nat /\ slot (disk s') (di s') k = n /\ n <> 0) /\
    forall n, block_at (disk s') n = block_at (fold_left (fun d e => <[fst e := snd e]> d) tr (disk s)) n;
}.

Lemma keeps_refl R W s : keeps R W s s.
Proof. split; auto. exists []. split; [rewrite app_nil_r; reflexivity|]. split; [intros n I; inversion I|reflexivity]. Qed.

Lemma replay_ext tr : forall d d', (forall n, block_at d n = block_at d' n) ->
  forall n, block_at (fold_left (fun d e => <[fst e := snd e]> d) tr d) n = block_at (fold_left (fun d e => <[fst e := snd e]> d) tr d') n.
Proof.
  induction tr as [|[m b] tr IH]; intros d d' H n; cbn [fold_left fst snd]; [apply H|]. apply IH. intros x. rewrite !block_insert.
  destruct (decide (m = x)); auto.
Qed.

Lemma keeps_trans R W s1 s2 s3 : keeps R W s1 s2 -> keeps R W s2 s3 -> keeps R W s1 s3.
Proof.
  intros [A1 A2 A3 A4 A5 A6 A7] [B1 B2 B3 B4 B5 B6 B7]. split.
  - intros n H. rewrite B1, A1 by exact H. reflexivity.
  - intros n H. rewrite B2, A2 by exact H. reflexivity.
  - intros k K N. rewrite B3, A3; auto. rewrite A3; auto.
  - intros j J. rewrite B4, A4 by exact J. reflexivity.
  - congruence.
  - destruct A6 as (? & ? & ?), B6 as (? & ? & ?). repeat split; congruence.
  - destruct A7 as (t1 & E1 & I1 & P1), B7 as (t2 & E2 & I2 & P2). exists (t1 ++ t2). split; [rewrite E2, E1, app_assoc; reflexivity|]. split.
    + intros n I. rewrite fmap_app in I. apply elem_of_app in I as [I|I]; [|exact (I2 n I)].
      destruct (I1 n I) as [M|(k & K & Lt & E & N)]; [left; exact M|right]. exists k. split; [exact K|]. split; [exact Lt|].
      split; [rewrite B3; [exact E|exact Lt|rewrite E; exact N]|exact N].
    + intros n. rewrite P2, fold_left_app. apply replay_ext, P1.
Qed.

Lemma keeps_more R W W' s s' : (forall k, k ∈ W -> k ∈ W') -> keeps R W s s' -> keeps R W' s s'.
Proof.
  intros Sub [A1 A2 A3 A4 A5 A6 (tr & E & I & P)]. split; auto. exists tr. split; [exact E|]. split; [|exact P].
  intros n H. destruct (I n H) as [M|(k & K & X)]; [left; exact M|right; exists k; auto].
Qed.

Lemma data_pos n : is_data n -> 0 < n < size sb.
Proof.
  intros [A B]. split; [|exact B]. pose proof (start_pos sb L). pose proof (l_data _ L).
  assert (0 < map_count sb); [|lia]. unfold map_count. change bitmap_bits_per_block with 8192. pose proof (size_pos sb L).
  apply Z.div_str_pos. lia.
Qed.

(** * A file gets one more block *)

(** From [s] to [s'], block [b], which was free, has come to place [k]. *)
Record grown (s s' : st) (k : nat) (b : Z) : Prop := {
  g_place : (k < slots)%nat;
  g_zero : slot (disk s) (di s) k = 0;
  g_data : is_data b;
  g_unused : used (disk s) b = false;
  g_good : all_good (disk s');
  g_len : length (addrs (di s')) = 13%nat;
  g_used x : 0 <= x < size sb -> used (disk s') x = if x =? b then true else used (disk s) x;
  g_slot x : (x < slots)%nat -> slot (disk s') (di s') x = if (x =? k)%nat then b else slot (disk s) (di s) x;
  g_at : block_at (disk s') b = zero_block;
  g_frame n : ~ is_map n -> n <> b -> (k <= 12 \/ n <> indirect (di s))%nat -> block_at (disk s') n = block_at (disk s) n;
  g_indirect : (k <= 12)%nat \/ indirect (di s) <> 0;
  g_fields : d_size (di s') = d_size (di s) /\ d_device (di s') = d_device (di s) /\ type (di s') = type (di s) /\ link_count (di s') = link_count (di s);
}.

Section Grow.
Context (R : Z -> Prop) (s s' : st) (k : nat) (b : Z) (S : sound R s) (Gr : grown s s' k b).

Lemma grow_sound : sound R s'.
Proof.
  destruct Gr as [K Zero Db Ub G' Len' U' Sl At Fr Ind Fl].
  pose proof (data_pos b Db) as Pb.
  split.
  - exact G'.
  - intros x X. rewrite U' by (pose proof (start_pos sb L); pose proof (l_data _ L); lia). destruct (x =? b); [reflexivity|]. apply (s_meta _ _ S), X.
  - exact Len'.
  - rewrite (proj1 Fl). apply (s_size _ _ S).
  - intros x x' X X'. rewrite !Sl by assumption. destruct (Nat.eqb_spec x k) as [->|N], (Nat.eqb_spec x' k) as [->|N']; auto.
    + intros E _. exfalso. destruct (s_slot _ _ S x' X') as (_ & U & _); [rewrite <- E; lia|]. rewrite <- E in U. congruence.
    + intros E N0. exfalso. destruct (s_slot _ _ S x X N0) as (_ & U & _). rewrite E in U. congruence.
    + apply (s_inj _ _ S); assumption.
  - intros x X. rewrite Sl by exact X. destruct (Nat.eqb_spec x k) as [->|N]; intros N0.
    + split; [exact Db|]. split; [rewrite U', Z.eqb_refl by lia; reflexivity|]. intros Rb. destruct (s_rest _ _ S b Rb). congruence.
    + destruct (s_slot _ _ S x X N0) as (D & U & NR). split; [exact D|]. split; [|exact NR]. pose proof (data_pos _ D).
      rewrite U' by lia. destruct (_ =? b); [reflexivity|exact U].
  - intros x Rx. destruct (s_rest _ _ S x Rx) as [D U]. split; [exact D|]. pose proof (data_pos _ D). rewrite U' by lia. destruct (_ =? b); [reflexivity|exact U].
  - intros x D. pose proof (data_pos _ D). rewrite U' by lia. destruct (Z.eqb_spec x b) as [->|N].
    + intros _. right. exists k. split; [exact K|]. rewrite Sl, Nat.eqb_refl by exact K. reflexivity.
    + intros U. destruct (s_all _ _ S x D U) as [Rx|(k' & K' & E)]; [left; exact Rx|right]. exists k'. split; [exact K'|].
      rewrite Sl by exact K'. destruct (Nat.eqb_spec k' k) as [->|_]; [|exact E]. rewrite Zero in E. lia.
Qed.

Lemma indirect_slot i d : slot d i 12 = indirect i.
Proof. reflexivity. Qed.

Lemma not_indirect x : (x < slots)%nat -> x <> 12%nat -> slot (disk s) (di s) x <> 0 -> slot (disk s) (di s) x <> indirect (di s).
Proof. intros X N N0 E. apply N, (s_inj _ _ S x 12); [exact X|unfold slots; lia|exact E|exact N0]. Qed.

Lemma grow_content j : 0 <= j < max_size -> content (disk s') (di s') j = content (disk s) (di s) j.
Proof.
  destruct Gr as [K Zero Db Ub G' Len' U' Sl At Fr Ind Fl].
  intros J. pose proof (place_lt _ (index_range j J)) as [P N12]. unfold content. rewrite Sl by exact P.
  destruct (Nat.eqb_spec (place (j / block_size)) k) as [E|N].
  - rewrite E, Zero, Z.eqb_refl. pose proof (data_pos b Db). rewrite (proj2 (Z.eqb_neq b 0)) by lia. rewrite At. apply nth_repeat.
  - destruct (Z.eqb_spec (slot (disk s) (di s) (place (j / block_size))) 0) as [_|N0]; [reflexivity|]. destruct (s_slot _ _ S _ P N0) as (D & U & _). rewrite Fr; [reflexivity| | |].
    + intros M. exact (map_not_data sb _ M D).
    + intros E. rewrite E in U. congruence.
    + right. apply not_indirect; assumption.
Qed.

Lemma grow_frame n : (R n \/ n < bmapstart sb) -> block_at (disk s') n = block_at (disk s) n.
Proof.
  destruct Gr as [K Zero Db Ub G' Len' U' Sl At Fr Ind Fl].
  intros H. apply Fr.
  - intros M. destruct H as [Rn|Lt]; [exact (map_not_data sb _ M (proj1 (s_rest _ _ S n Rn)))|]. unfold KInodeSpec.is_map in M. lia.
  - intros ->. destruct H as [Rn|Lt]; [destruct (s_rest _ _ S b Rn); congruence|]. pose proof (map_count_pos sb L). destruct Db. lia.
  - destruct Ind as [Lt|N0]; [left; exact Lt|right]. intros ->. destruct (s_slot _ _ S 12 ltac:(unfold slots; lia) N0) as (D & _ & NR).
    destruct H as [Rn|Lt]; [exact (NR Rn)|]. pose proof (map_count_pos sb L). change (is_data (indirect (di s))) in D. destruct D. lia.
Qed.

Lemma grow_keeps W : k ∈ W -> (exists tr, trace s' = trace s ++ tr /\ (forall n, n ∈ tr.*1 -> is_map n \/ n = b \/ n = indirect (di s) /\ n <> 0 /\ 12%nat ∈ W) /\
    forall n, block_at (disk s') n = block_at (fold_left (fun d e => <[fst e := snd e]> d) tr (disk s)) n) ->
  keeps R W s s'.
Proof.
  destruct Gr as [K Zero Db Ub G' Len' U' Sl At Fr Ind Fl].
  intros Wk (tr & E & I & P). destruct Fl as (F1 & F2 & F3 & F4). split; auto.
  - intros n Rn. apply grow_frame. auto.
  - intros n Lt. apply grow_frame. auto.
  - intros x X N0. rewrite Sl by exact X. destruct (Nat.eqb_spec x k) as [->|_]; [congruence|reflexivity].
  - apply grow_content.
  - exists tr. split; [exact E|]. split; [|exact P]. intros n In. destruct (I n In) as [M|[->|(-> & N0 & W12)]]; [left; exact M|right..].
    + exists k. split; [exact Wk|]. split; [exact K|]. split; [rewrite Sl, Nat.eqb_refl by exact K; reflexivity|]. pose proof (data_pos b Db). lia.
    + exists 12%nat. split; [exact W12|]. split; [unfold slots; lia|]. split; [|exact N0]. rewrite Sl by (unfold slots; lia).
      destruct (Nat.eqb_spec 12 k) as [<-|_]; [|apply indirect_slot]. rewrite indirect_slot in Zero. congruence.
Qed.
End Grow.

(** * [getBlock] *)

Lemma slot_direct d i k n x : (k <= 12)%nat -> length (addrs i) = 13%nat -> (k = 12%nat -> block_at d n = zero_block) -> (k = 12%nat -> indirect i = 0) -> (x < slots)%nat ->
  slot d (set_addr (Z.of_nat k) n i) x = if (x =? k)%nat then n else slot d i x.
Proof.
  intros K Len Z0 I0 X. unfold slot, indirect, set_addr in *. cbn [addrs]. rewrite Nat2Z.id.
  destruct (Nat.leb_spec x 12) as [Le|Gt].
  - destruct (Nat.eqb_spec x k) as [->|N]; [apply nth_set_eq; lia|apply nth_set_ne; auto].
  - destruct (Nat.eqb_spec x k) as [->|_]; [lia|]. destruct (decide (k = 12%nat)) as [->|N].
    + rewrite nth_set_eq, (I0 eq_refl) by lia. cbn [Z.eqb]. destruct (n =? 0); [reflexivity|]. rewrite (Z0 eq_refl). apply number_zero.
    + rewrite nth_set_ne by exact N. reflexivity.
Qed.

(** The slots only depend on the inode and on its indirect block. *)
Lemma slot_same d d' i x : (indirect i <> 0 -> block_at d' (indirect i) = block_at d (indirect i)) -> slot d' i x = slot d i x.
Proof.
  intros H. unfold slot. destruct (x <=? 12)%nat; [reflexivity|]. destruct (Z.eqb_spec (indirect i) 0) as [|N]; [reflexivity|]. rewrite H by exact N. reflexivity.
Qed.

Lemma with_block_frame d b n : is_data b -> ~ is_map n -> n <> b -> block_at (with_block sb d b) n = block_at d n.
Proof. intros D M N. rewrite with_block_at by assumption. destruct (decide (b = n)); [congruence|reflexivity]. Qed.

Lemma indirect_data R s : sound R s -> indirect (di s) <> 0 -> is_data (indirect (di s)) /\ used (disk s) (indirect (di s)) = true /\ ~ R (indirect (di s)).
Proof. intros S N. exact (s_slot _ _ S 12 ltac:(unfold slots; lia) N). Qed.

Lemma direct_or_new_spec R s k : sound R s -> (k <= 12)%nat ->
  match direct_or_new sb (Z.of_nat k) s with
  | Done b s' => sound R s' /\ keeps R [k] s s' /\ b = slot (disk s') (di s') k /\ b <> 0
  | Failed s' => s' = s /\ forall b, is_data b -> used (disk s) b = true
  | Panicked => False
  end.
Proof.
  intros S K. unfold direct_or_new, getDiskBlockDirect, direct_pointer_count. rewrite (proj2 (Z.ltb_ge 12 (Z.of_nat k))) by lia.
  unfold mbind, m_bind, get_inode, mret, m_ret. rewrite Nat2Z.id.
  assert (Ks : slot (disk s) (di s) k = nth k (addrs (di s)) 0) by (unfold slot; rewrite (proj2 (Nat.leb_le _ _) K); reflexivity).
  destruct (Z.eqb_spec (nth k (addrs (di s)) 0) 0) as [E|N].
  2:{ split; [exact S|]. split; [apply keeps_refl|]. auto. }
  pose proof (allocate_spec sb L s (s_meta _ _ S)) as A. destruct (allocate sb s) as [b s1|s1|]; [|exact A|exact A].
  destruct A as (Db & Ub & Ed & Edisk & Etr). cbn [set_inode]. set (s' := St _ _ _).
  pose proof (data_pos b Db) as Pb. pose proof (s_good _ _ S) as G.
  assert (Eb : block_at (disk s') b = zero_block).
  { unfold s'. cbn [disk]. rewrite Edisk. unfold with_block. rewrite block_insert, decide_True by reflexivity. reflexivity. }
  assert (Same : forall x, slot (disk s') (di s) x = slot (disk s) (di s) x).
  { intros x. apply slot_same. intros N0. destruct (indirect_data R s S N0) as (D & U & _). unfold s'. cbn [disk]. rewrite Edisk.
    apply with_block_frame; [exact Db|intros M; exact (map_not_data sb _ M D)|intros E2; rewrite E2 in U; congruence]. }
  assert (Sl : forall x, (x < slots)%nat -> slot (disk s') (di s') x = if (x =? k)%nat then b else slot (disk s) (di s) x).
  { intros x X. unfold s' at 2. cbn [di]. rewrite Ed, slot_direct; [rewrite Same; reflexivity|exact K|exact (s_len _ _ S)|intros _; exact Eb| |exact X].
    intros ->. exact E. }
  assert (Zero : slot (disk s) (di s) k = 0) by (rewrite Ks; exact E).
  assert (Ks' : (k < slots)%nat) by (unfold slots; lia).
  assert (G' : all_good (disk s')) by (unfold s'; cbn [disk]; rewrite Edisk; apply with_block_good; assumption).
  assert (Len' : length (addrs (di s')) = 13%nat).
  { unfold s'. cbn [di set_addr addrs]. rewrite Ed, list_set_length. apply (s_len _ _ S). }
  assert (U' : forall x, 0 <= x < size sb -> used (disk s') x = if x =? b then true else used (disk s) x).
  { intros x X. unfold s'. cbn [disk]. rewrite Edisk. apply with_block_used; assumption. }
  assert (Fr : forall n, ~ is_map n -> n <> b -> (k <= 12 \/ n <> indirect (di s))%nat -> block_at (disk s') n = block_at (disk s) n).
  { intros n M N _. unfold s'. cbn [disk]. rewrite Edisk. apply with_block_frame; assumption. }
  assert (Fl : d_size (di s') = d_size (di s) /\ d_device (di s') = d_device (di s) /\ type (di s') = type (di s) /\ link_count (di s') = link_count (di s)).
  { unfold s'. cbn [di set_addr d_size d_device type link_count]. rewrite Ed. auto. }
  assert (Gr : grown s s' k b) by (split; auto).
  split; [exact (grow_sound R s s' k b S Gr)|]. split; [|split].
  - apply (grow_keeps R s s' k b S Gr); [apply list_elem_of_here|]. eexists. split; [unfold s'; cbn [trace]; exact Etr|]. split.
    + intros n I. cbn in I. apply elem_of_cons in I as [->|I]; [left; apply map_of; lia|]. apply elem_of_cons in I as [->|I]; [right; left; reflexivity|inversion I].
    + intros n. unfold s'. cbn [disk fold_left fst snd]. rewrite Edisk. unfold with_block, marked. rewrite !block_insert.
      destruct (decide (b = n)); [reflexivity|]. destruct (decide (getFreeMapBlockNumber sb b = n)); [|reflexivity]. rewrite decide_True by reflexivity. reflexivity.
  - rewrite Sl, Nat.eqb_refl by exact Ks'. reflexivity.
  - lia.
Qed.

(** The file has the blocks it is allowed to have, and no block is free. *)
Definition full (d : gmap Z (list Z)) : Prop := forall b, is_data b -> used d b = true.

(** An entry of the indirect block is filled. *)
Lemma grow_entry R s k b s1 : sound R s -> (13 <= k < slots)%nat -> indirect (di s) <> 0 -> slot (disk s) (di s) k = 0 ->
  is_data b -> used (disk s) b = false -> di s1 = di s -> disk s1 = with_block sb (disk s) b ->
  trace s1 = trace s ++ [(getFreeMapBlockNumber sb b, block_at (marked sb (disk s) b) (getFreeMapBlockNumber sb b)); (b, zero_block)] ->
  let new := splice (block_at (disk s1) (indirect (di s))) (4 * (k - 13)) (le_bytes 4 b) in
  let s' := St (di s1) (<[indirect (di s) := new]> (disk s1)) (trace s1 ++ [(indirect (di s), new)]) in
  sound R s' /\ keeps R [12%nat; k] s s' /\ slot (disk s') (di s') k = b.
Proof.
  intros S Kr N0 Zero Db Ub Ed Edisk Etr new s'. pose proof (data_pos b Db) as Pb. pose proof (s_good _ _ S) as G.
  destruct (indirect_data R s S N0) as (Di & Ui & NRi). set (ind := indirect (di s)) in *. pose proof (data_pos _ Di) as Pi.
  assert (Nb : b <> ind) by (intros ->; congruence).
  assert (Old : block_at (disk s1) ind = block_at (disk s) ind).
  { rewrite Edisk. apply with_block_frame; [exact Db|intros M; exact (map_not_data sb _ M Di)|auto]. }
  assert (Gn : good new).
  { apply good_splice; [rewrite Old; apply G|apply le_bytes_good|rewrite le_bytes_length; unfold slots in Kr; lia]. }
  assert (L1 : length (block_at (disk s1) ind) = 1024%nat) by (rewrite Old; apply G).
  assert (Rg : 0 <= b < 2 ^ 32) by (pose proof (l_size _ L) as [_ ?]; unfold bitmap_bits_per_block, block_size in *; lia).
  assert (In' : indirect (di s') = ind) by (unfold s'; cbn [di]; rewrite Ed; reflexivity).
  assert (Sl : forall x, (x < slots)%nat -> slot (disk s') (di s') x = if (x =? k)%nat then b else slot (disk s) (di s) x).
  { intros x X. unfold slot. rewrite In'. unfold s'. cbn [di disk]. rewrite Ed.
    destruct (Nat.leb_spec x 12) as [Le|Gt]; [destruct (Nat.eqb_spec x k); [lia|reflexivity]|]. fold ind.
    rewrite (proj2 (Z.eqb_neq ind 0)) by exact N0. rewrite block_insert, decide_True by reflexivity. unfold new.
    destruct (Nat.eqb_spec x k) as [->|N].
    - apply number_splice; [exact Rg|rewrite L1; unfold slots in Kr; lia].
    - rewrite number_other by (rewrite ?L1; unfold slots in *; lia). rewrite Old. reflexivity. }
  assert (G1 : all_good (disk s1)) by (rewrite Edisk; apply with_block_good; assumption).
  assert (Gr : grown s s' k b).
  { split; try assumption.
    - lia.
    - unfold s'. cbn [disk]. apply all_good_insert; assumption.
    - unfold s'. cbn [di]. rewrite Ed. apply (s_len _ _ S).
    - intros x X. unfold s'. cbn [disk]. rewrite used_data by assumption. rewrite Edisk. apply with_block_used; assumption.
    - unfold s'. cbn [disk]. rewrite block_insert, decide_False by auto. rewrite Edisk. unfold with_block. rewrite block_insert, decide_True by reflexivity. reflexivity.
    - intros n M N Or. unfold s'. cbn [disk]. rewrite block_insert. destruct (decide (ind = n)) as [E|NE]; [destruct Or as [Or|Or]; [lia|destruct Or; symmetry; exact E]|].
      rewrite Edisk. apply with_block_frame; assumption.
    - right. exact N0.
    - unfold s'. cbn [di]. rewrite Ed. auto. }
  split; [exact (grow_sound R s s' k b S Gr)|]. split; [|rewrite Sl, Nat.eqb_refl by lia; reflexivity].
  apply (grow_keeps R s s' k b S Gr); [apply list_elem_of_further, list_elem_of_here|]. eexists. split; [unfold s'; cbn [trace]; rewrite Etr, <- app_assoc; reflexivity|]. split.
  - intros n I. cbn in I. apply elem_of_cons in I as [->|I]; [left; apply map_of; lia|]. apply elem_of_cons in I as [->|I]; [right; left; reflexivity|].
    apply list_elem_of_singleton in I as ->. right. right. split; [reflexivity|]. split; [exact N0|apply list_elem_of_here].
  - intros n. unfold s'. cbn [disk fold_left fst snd app]. rewrite Edisk. unfold with_block, marked. rewrite !block_insert.
    destruct (decide (ind = n)); [reflexivity|]. destruct (decide (b = n)); [reflexivity|].
    destruct (decide (getFreeMapBlockNumber sb b = n)); [|reflexivity]. rewrite decide_True by reflexivity. reflexivity.
Qed.

(** [getBlock] never panics, keeps the file sound, and changes no byte of it; it fails
    only when no block is free. *)
Lemma getBlock_spec R s index : sound R s -> 0 <= index < max_file_block_count ->
  match getBlock sb index s with
  | Done b s' => sound R s' /\ keeps R [12%nat; place index] s s' /\ b = slot (disk s') (di s') (place index) /\ b <> 0
  | Failed s' => sound R s' /\ keeps R [12%nat; place index] s s' /\ full (disk s')
  | Panicked => False
  end.
Proof.
  intros S B. unfold getBlock, direct_pointer_count. destruct (Z.ltb_spec index 12) as [Lt|Ge].
  - assert (P : place index = Z.to_nat index) by (unfold place; rewrite (proj2 (Z.ltb_lt _ _) Lt); reflexivity). rewrite P.
    pose proof (direct_or_new_spec R s (Z.to_nat index) S ltac:(lia)) as D. rewrite Z2Nat.id in D by lia.
    destruct (direct_or_new sb index s) as [b s'|s'|]; [| |exact D].
    + destruct D as (S' & K & D). split; [exact S'|]. split; [|exact D]. apply (keeps_more R [Z.to_nat index]); [|exact K].
      intros k I. apply list_elem_of_further, I.
    + destruct D as [-> F]. split; [exact S|]. split; [apply keeps_refl|exact F].
  - assert (P : place index = Z.to_nat (index + 1)) by (unfold place; rewrite (proj2 (Z.ltb_ge _ _) Ge); reflexivity).
    assert (B' : 0 <= index - 12 < 256) by (unfold max_file_block_count, direct_pointer_count, indirect_pointer_count, block_size in B; change (1024 / 4) with 256 in B; lia).
    unfold indirect_pointer_count, block_size. change (1024 / 4) with 256. rewrite (proj2 (Z.leb_gt 256 (index - 12))) by lia.
    unfold mbind, m_bind. pose proof (direct_or_new_spec R s 12 S ltac:(lia)) as D. change (Z.of_nat 12) with 12 in D.
    unfold indirect_pointer_block_index, direct_pointer_count. destruct (direct_or_new sb 12 s) as [ib s1|s1|]; [| |exact D].
    2:{ destruct D as [-> F]. split; [exact S|]. split; [apply keeps_refl|exact F]. }
    destruct D as (S1 & K1 & Ei & Ni). rewrite indirect_slot in Ei. subst ib.
    assert (K1' : keeps R [12%nat; place index] s s1) by (apply (keeps_more R [12%nat]); [intros k I; apply list_elem_of_singleton in I as ->; apply list_elem_of_here|exact K1]).
    unfold read_block. set (k := place index). assert (Kr : (13 <= k < slots)%nat) by (unfold k, slots; lia).
    assert (E4 : Z.to_nat (4 * (index - 12)) = (4 * (k - 13))%nat) by (unfold k; lia).
    assert (Sk : slot (disk s1) (di s1) k = number_at 4 (block_at (disk s1) (indirect (di s1))) (4 * (k - 13))).
    { unfold slot. rewrite (proj2 (Nat.leb_gt k 12)) by lia. rewrite (proj2 (Z.eqb_neq _ _) Ni). reflexivity. }
    rewrite E4, <- Sk. destruct (Z.eqb_spec (slot (disk s1) (di s1) k) 0) as [Z0|N0]; cbn [negb].
    2:{ split; [exact S1|]. split; [exact K1'|]. auto. }
    pose proof (allocate_spec sb L s1 (s_meta _ _ S1)) as A. destruct (allocate sb s1) as [b s2|s2|]; [| |exact A].
    2:{ destruct A as [-> F]. split; [exact S1|]. split; [exact K1'|exact F]. }
    destruct A as (Db & Ub & Ed & Edisk & Etr).
    pose proof (grow_entry R s1 k b s2 S1 Kr Ni Z0 Db Ub Ed Edisk Etr) as Gr. cbn zeta in Gr.
    unfold change, poke, log_write, mbind, m_bind, mret, m_ret. cbn [disk trace di]. rewrite block_insert, decide_True by reflexivity.
    destruct Gr as (S2 & K2 & E2). split; [exact S2|]. split; [exact (keeps_trans R _ _ _ _ K1' K2)|]. split; [symmetry; exact E2|].
    pose proof (data_pos b Db). lia.
Qed.
End Disk.
