(* ===== verification/KInodeIO.v ===== *)
(** Reading and writing a file, and what the log is given for it. *)

From S2P Require Import Prelude.
From stdpp Require Import base list gmap.
From S2P Require Import KInode KInodeSpec.

Local Open Scope Z_scope.

(** * The inode on the disk *)

(** Numbers that fit. *)
Definition fits (i : disk_inode) : Prop :=
  0 <= d_device i < 2 ^ 32 /\ 0 <= d_size i < 2 ^ 32 /\ length (addrs i) = 13%nat /\ Forall (fun a => 0 <= a < 2 ^ 32) (addrs i) /\ 0 <= link_count i < 2 ^ 16.

Lemma flat_length l : length (flat_map (le_bytes 4) l) = (4 * length l)%nat.
Proof. induction l as [|x l IH]; cbn [flat_map length]; [reflexivity|]. rewrite length_app, le_bytes_length, IH. lia. Qed.

Lemma encode_length i : length (addrs i) = 13%nat -> length (encode i) = 64%nat.
Proof. intros E. unfold encode. rewrite !length_app, !le_bytes_length, flat_length, E. reflexivity. Qed.

Lemma encode_good i : Forall is_byte (encode i).
Proof.
  unfold encode. rewrite !Forall_app. split; [apply le_bytes_good|]. split; [apply le_bytes_good|]. split; [|split; apply le_bytes_good].
  induction (addrs i) as [|x l IH]; cbn [flat_map]; [constructor|]. apply Forall_app. split; [apply le_bytes_good|exact IH].
Qed.

Lemma number_head w a rest n : length a = w -> n = 0%nat -> number_at w (a ++ rest) n = of_le a.
Proof. intros <- ->. unfold number_at. rewrite drop_0. rewrite firstn_app, firstn_all, Nat.sub_diag. cbn [firstn]. rewrite app_nil_r. reflexivity. Qed.

Lemma number_tail w a rest n : (length a <= n)%nat -> number_at w (a ++ rest) n = number_at w rest (n - length a).
Proof. intros H. unfold number_at. rewrite skipn_app, skipn_all2 by exact H. reflexivity. Qed.

Lemma number_flat l k : (k < length l)%nat -> Forall (fun a => 0 <= a < 2 ^ 32) l -> forall rest, number_at 4 (flat_map (le_bytes 4) l ++ rest) (4 * k) = nth k l 0.
Proof.
  revert k. induction l as [|x l IH]; intros k K F rest; cbn [length] in K; [lia|]. inversion F as [|? ? X F']; subst. cbn [flat_map]. rewrite <- app_assoc.
  destruct k as [|k].
  - rewrite number_head by (apply le_bytes_length || reflexivity). apply of_le_bytes. exact X.
  - rewrite number_tail by (rewrite le_bytes_length; lia). rewrite le_bytes_length. replace (4 * S k - 4)%nat with (4 * k)%nat by lia.
    apply IH; [lia|exact F'].
Qed.

Lemma type_of_number t : type_of (type_number t) = t.
Proof. destruct t; reflexivity. Qed.

Lemma nth_map_seq {A} (f : nat -> A) n k d : (k < n)%nat -> nth k (map f (seq 0 n)) d = f k.
Proof. intros K. rewrite nth_indep with (d' := f 0%nat) by (rewrite length_map, length_seq; exact K). rewrite map_nth, seq_nth by exact K. reflexivity. Qed.

Lemma decode_encode i : fits i -> decode (encode i) = i.
Proof.
  intros (D & Sz & Len & A & Lk). unfold decode, encode. destruct i as [dev sz ad ty lk]. cbn [d_device d_size addrs type link_count] in *.
  assert (N4 : forall v, length (le_bytes 4 v) = 4%nat) by (intros; apply le_bytes_length). assert (N2 : forall v, length (le_bytes 2 v) = 2%nat) by (intros; apply le_bytes_length).
  f_equal.
  - rewrite number_head by auto. apply of_le_bytes. exact D.
  - rewrite number_tail by (rewrite N4; lia). rewrite N4, number_head by auto. apply of_le_bytes. exact Sz.
  - apply (list_eq_nth _ _ 0); [rewrite length_map, length_seq; symmetry; exact Len|]. intros k K. rewrite length_map, length_seq in K.
    rewrite nth_map_seq by exact K. rewrite number_tail by (rewrite N4; lia). rewrite N4, number_tail by (rewrite N4; lia). rewrite N4.
    replace (8 + 4 * k - 4 - 4)%nat with (4 * k)%nat by lia. apply number_flat; [lia|exact A].
  - rewrite !number_tail by (rewrite ?N4, ?flat_length, ?Len; lia). rewrite !N4, flat_length, Len.
    rewrite number_head by auto. rewrite of_le_bytes by (destruct ty; cbn; lia). apply type_of_number.
  - rewrite !number_tail by (rewrite ?N4, ?flat_length, ?Len, ?N2; lia). rewrite !N4, flat_length, Len, N2. cbn [Nat.sub Nat.mul Nat.add].
    unfold number_at. rewrite drop_0. rewrite firstn_all2 by (rewrite N2; lia). apply of_le_bytes. exact Lk.
Qed.

Section Disk.
Variable sb : super.
Context (L : laid_out sb).
Abbreviation is_data := (is_data sb).
Abbreviation is_map := (is_map sb).
Abbreviation used := (used sb).

(** What the disk says of an inode. *)
Definition on_disk (d : gmap Z (list Z)) (n : Z) : disk_inode := getDiskInode (block_at d (getInodeBlock sb n)) n.

Lemma inode_block n : 0 <= n < ninodes sb -> inodestart sb <= getInodeBlock sb n < bmapstart sb.
Proof.
  intros B. unfold getInodeBlock. pose proof (l_map _ L) as M. change inodes_per_block with 16 in *.
  assert (0 <= n / 16) by (apply Z.div_pos; lia). assert (n / 16 < (ninodes sb + 16 - 1) / 16); [|lia].
  apply Z.div_lt_upper_bound; [lia|]. pose proof (Z.mul_succ_div_gt (ninodes sb + 16 - 1) 16). lia.
Qed.

Lemma inode_block_meta n : 0 <= n < ninodes sb -> ~ is_map (getInodeBlock sb n) /\ ~ is_data (getInodeBlock sb n).
Proof. intros B. pose proof (inode_block n B). pose proof (map_count_pos sb L). unfold KInodeSpec.is_map, KInodeSpec.is_data. lia. Qed.

Lemma offset_range n : 0 <= n -> (inode_offset n + 64 <= 1024)%nat.
Proof. intros H. unfold inode_offset. change inodes_per_block with 16. pose proof (Z.mod_pos_bound n 16). lia. Qed.

(** An inode is put into its block: the others are as before. *)
Lemma on_disk_insert d i n m : all_good d -> fits i -> 0 <= n < ninodes sb -> 0 <= m < ninodes sb ->
  on_disk (<[getInodeBlock sb n := splice (block_at d (getInodeBlock sb n)) (inode_offset n) (encode i)]> d) m = if m =? n then i else on_disk d m.
Proof.
  intros G F N M. unfold on_disk. rewrite block_insert. pose proof (encode_length i (proj1 (proj2 (proj2 F)))) as Le. pose proof (offset_range n ltac:(lia)).
  pose proof (proj1 (G (getInodeBlock sb n))) as Lb.
  destruct (decide (getInodeBlock sb n = getInodeBlock sb m)) as [E|Ne].
  - unfold getDiskInode. destruct (Z.eqb_spec m n) as [->|Nm].
    + rewrite <- Le at 1. rewrite splice_inside by (rewrite Le, Lb; lia). apply decode_encode, F.
    + rewrite splice_outside, E; [reflexivity|rewrite Le, Lb; lia|]. rewrite Le. unfold getInodeBlock, inode_offset in *. change inodes_per_block with 16 in *.
      pose proof (Z.mod_pos_bound n 16). pose proof (Z.mod_pos_bound m 16).
      assert (n mod 16 <> m mod 16) by (intros X; apply Nm; rewrite (Z.div_mod m 16), (Z.div_mod n 16) by lia; lia). lia.
  - destruct (Z.eqb_spec m n) as [->|_]; [destruct (Ne eq_refl)|reflexivity].
Qed.

Lemma sound_fits R s : sound sb R s -> 0 <= d_device (di s) < 2 ^ 32 -> 0 <= link_count (di s) < 2 ^ 16 -> fits (di s).
Proof.
  intros S D K. split; [exact D|]. split; [pose proof (s_size _ _ _ S); change max_size with 274432 in *; lia|]. split; [apply (s_len _ _ _ S)|]. split; [|exact K].
  apply List.Forall_forall. intros a I. apply list_elem_of_In, list_elem_of_lookup in I as (k & E). pose proof (lookup_lt_Some _ _ _ E) as Lt. rewrite (s_len _ _ _ S) in Lt.
  destruct (Z.eq_dec a 0) as [->|N]; [lia|]. assert (Sl : slot (disk s) (di s) k = a).
  { unfold slot. rewrite (proj2 (Nat.leb_le k 12)) by lia. rewrite <- (nth_lookup_Some _ _ 0 _ E). reflexivity. }
  destruct (s_slot _ _ _ S k ltac:(unfold slots; lia)) as [Dt _]; [congruence|]. rewrite Sl in Dt. pose proof (data_pos sb L a Dt). pose proof (l_size _ L) as Ls. change bitmap_bits_per_block with 8192 in Ls. lia.
Qed.

(** The slots and contents of a file do not depend on a block that is not data. *)
Lemma slot_meta R s n b x : sound sb R s -> ~ is_data n -> slot (<[n := b]> (disk s)) (di s) x = slot (disk s) (di s) x.
Proof.
  intros S N. apply slot_same. intros N0. destruct (indirect_data sb R s S N0) as [D _]. rewrite block_insert, decide_False; [reflexivity|]. intros ->. exact (N D).
Qed.

(** ** [update] *)

Lemma update_spec R s n : sound sb R s -> fits (di s) -> 0 <= n < ninodes sb ->
  exists s', update sb n s = Done tt s' /\ sound sb R s' /\ di s' = di s /\
    (forall x, block_at (disk s') x = if decide (getInodeBlock sb n = x) then splice (block_at (disk s) x) (inode_offset n) (encode (di s)) else block_at (disk s) x) /\
    (forall x, slot (disk s') (di s') x = slot (disk s) (di s) x) /\
    (forall m, 0 <= m < ninodes sb -> on_disk (disk s') m = if m =? n then di s else on_disk (disk s) m) /\
    (forall x, 0 <= x < size sb -> used (disk s') x = used (disk s) x) /\
    trace s' = trace s ++ [(getInodeBlock sb n, block_at (disk s') (getInodeBlock sb n))].
Proof.
  intros S F N. destruct (inode_block_meta n N) as [Nm Nd]. set (ib := getInodeBlock sb n) in *. set (new := splice (block_at (disk s) ib) (inode_offset n) (encode (di s))).
  set (s' := St (di s) (<[ib := new]> (disk s)) (trace s ++ [(ib, new)])).
  assert (Eq : update sb n s = Done tt s').
  { unfold update, mbind, m_bind, read_block, get_inode, change, poke, log_write, mbind, m_bind. cbn [disk di trace]. fold ib new.
    rewrite block_insert, decide_True by reflexivity. reflexivity. }
  assert (Sl : forall x, slot (disk s') (di s') x = slot (disk s) (di s) x) by (intros x; exact (slot_meta R s ib new x S Nd)).
  assert (U : forall x, 0 <= x < size sb -> used (disk s') x = used (disk s) x).
  { intros x X. unfold KInodeSpec.used, s'. cbn [disk]. rewrite block_insert. rewrite decide_False; [reflexivity|]. intros E. apply Nm. rewrite E. apply map_of. exact X. }
  assert (Gn : good new).
  { apply good_splice; [apply (s_good _ _ _ S)|apply encode_good|]. rewrite encode_length by apply F. apply offset_range. lia. }
  exists s'. split; [exact Eq|]. split; [|split; [reflexivity|split; [|split; [exact Sl|split; [|split; [exact U|]]]]]].
  - destruct S as [A1 A2 A3 A4 A5 A6 A7 A8]. split.
    + apply all_good_insert; assumption.
    + intros x X. rewrite U by (pose proof (l_data _ L); lia). apply A2, X.
    + exact A3.
    + exact A4.
    + intros k k' K K'. rewrite !Sl. apply A5; assumption.
    + intros k K. rewrite Sl. intros N0. destruct (A6 k K N0) as (D & Ub & NR). split; [exact D|]. split; [|exact NR].
      pose proof (data_pos sb L _ D). rewrite U by lia. exact Ub.
    + intros x Rx. destruct (A7 x Rx) as [D Ub]. split; [exact D|]. pose proof (data_pos sb L _ D). rewrite U by lia. exact Ub.
    + intros x D. pose proof (data_pos sb L _ D). rewrite U by lia. intros Ub. destruct (A8 x D Ub) as [Rx|(k & K & E)]; [left; exact Rx|right]. exists k. rewrite Sl. auto.
  - intros x. unfold s'. cbn [disk]. rewrite block_insert. destruct (decide (ib = x)) as [<-|]; reflexivity.
  - intros m M. apply on_disk_insert; [apply (s_good _ _ _ S)|exact F|exact N|exact M].
  - cbn [s' trace disk]. rewrite block_insert, decide_True by reflexivity. reflexivity.
Qed.

(** The block of the inodes is not one of the file: its bytes are as before. *)
Lemma update_content R s s' n : sound sb R s -> 0 <= n < ninodes sb ->
  (forall x, block_at (disk s') x = if decide (getInodeBlock sb n = x) then splice (block_at (disk s) x) (inode_offset n) (encode (di s)) else block_at (disk s) x) ->
  (forall x, slot (disk s') (di s') x = slot (disk s) (di s) x) -> forall j, 0 <= j < max_size -> content (disk s') (di s') j = content (disk s) (di s) j.
Proof.
  intros S N Bk Sl j J. unfold content. rewrite Sl. destruct (Z.eqb_spec (slot (disk s) (di s) (place (j / block_size))) 0) as [|N0]; [reflexivity|].
  rewrite Bk, decide_False; [reflexivity|]. intros E. apply (proj2 (inode_block_meta n N)). rewrite E.
  exact (proj1 (s_slot _ _ _ S _ (proj1 (place_lt _ (index_range j J))) N0)).
Qed.

(** * Reading *)

(** The blocks up to the size are there. *)
Definition dense (s : st) : Prop := forall index, 0 <= index -> index * block_size < d_size (di s) -> slot (disk s) (di s) (place index) <> 0.

(** [n] bytes of a file from [off] on. *)
Definition bytes (d : gmap Z (list Z)) (i : disk_inode) (off : Z) (n : nat) : list Z := map (fun k => content d i (off + Z.of_nat k)) (seq 0 n).

Lemma bytes_length d i off n : length (bytes d i off n) = n.
Proof. unfold bytes. rewrite length_map, length_seq. reflexivity. Qed.

Lemma file_bytes_app d i off n m : bytes d i off n ++ bytes d i (off + Z.of_nat n) m = bytes d i off (n + m).
Proof.
  apply (list_eq_nth _ _ 0); [rewrite length_app, !bytes_length; reflexivity|]. intros k K. rewrite length_app, !bytes_length in K.
  unfold bytes. rewrite (nth_map_seq _ (n + m)) by lia. destruct (Nat.lt_ge_cases k n) as [H|H].
  - rewrite app_nth1, nth_map_seq by (rewrite ?length_map, ?length_seq; exact H). reflexivity.
  - rewrite app_nth2 by (rewrite length_map, length_seq; lia). rewrite length_map, length_seq, nth_map_seq by lia. f_equal. lia.
Qed.

(** A block that is there is found, and nothing changes. *)
Lemma getBlock_there s index : length (addrs (di s)) = 13%nat -> 0 <= index < max_file_block_count -> slot (disk s) (di s) (place index) <> 0 ->
  getBlock sb index s = Done (slot (disk s) (di s) (place index)) s.
Proof.
  intros Len B N0. unfold getBlock, direct_pointer_count.
  assert (Dir : forall k, (k <= 12)%nat -> nth k (addrs (di s)) 0 <> 0 -> direct_or_new sb (Z.of_nat k) s = Done (nth k (addrs (di s)) 0) s).
  { intros k K Nk. unfold direct_or_new, getDiskBlockDirect, mbind, m_bind, get_inode, mret, m_ret, direct_pointer_count.
    rewrite (proj2 (Z.ltb_ge 12 (Z.of_nat k))) by lia. rewrite Nat2Z.id, (proj2 (Z.eqb_neq _ 0)) by exact Nk. reflexivity. }
  unfold place in *. destruct (Z.ltb_spec index 12) as [Lt|Ge].
  - assert (E : slot (disk s) (di s) (Z.to_nat index) = nth (Z.to_nat index) (addrs (di s)) 0) by (unfold slot; rewrite (proj2 (Nat.leb_le _ 12)) by lia; reflexivity).
    rewrite E in *. rewrite <- (Z2Nat.id index) at 1 by lia. apply Dir; [lia|exact N0].
  - set (k := Z.to_nat (index + 1)) in *. assert (K : (13 <= k)%nat) by lia. revert N0. unfold slot. rewrite (proj2 (Nat.leb_gt k 12)) by lia.
    destruct (Z.eqb_spec (indirect (di s)) 0) as [|Ni]; [congruence|]. intros N0.
    unfold max_file_block_count, indirect_pointer_count, direct_pointer_count, block_size in *. change (1024 / 4) with 256 in *.
    rewrite (proj2 (Z.leb_gt 256 (index - 12))) by lia. unfold mbind, m_bind. change indirect_pointer_block_index with (Z.of_nat 12).
    rewrite Dir by (lia || exact Ni). unfold read_block. replace (Z.to_nat (4 * (index - 12))) with (4 * (k - 13))%nat by lia.
    change (nth 12 (addrs (di s)) 0) with (indirect (di s)). rewrite (proj2 (Z.eqb_neq _ 0)) by exact N0. reflexivity.
Qed.

(** A piece of one block. *)
Lemma piece_bytes s cur n : all_good (disk s) -> 0 <= cur -> slot (disk s) (di s) (place (cur / block_size)) <> 0 -> 0 <= n -> cur mod block_size + n <= block_size ->
  firstn (Z.to_nat n) (skipn (Z.to_nat (cur mod block_size)) (block_at (disk s) (slot (disk s) (di s) (place (cur / block_size))))) = bytes (disk s) (di s) cur (Z.to_nat n).
Proof.
  intros G C N0 N B. change block_size with 1024 in *. set (b := slot _ _ _) in *. pose proof (proj1 (G b)) as Lb. pose proof (Z.mod_pos_bound cur 1024).
  apply (list_eq_nth _ _ 0).
  - rewrite length_firstn, length_skipn, bytes_length, Lb. lia.
  - intros k K. rewrite length_firstn, length_skipn, Lb in K. rewrite nth_firstn, nth_skipn, (proj2 (Nat.ltb_lt _ _)) by lia.
    unfold bytes. rewrite nth_map_seq by lia. unfold content. change block_size with 1024.
    assert (E : (cur + Z.of_nat k) / 1024 = cur / 1024 /\ (cur + Z.of_nat k) mod 1024 = cur mod 1024 + Z.of_nat k).
    { pose proof (Z.div_mod cur 1024 ltac:(lia)) as DM. split; [symmetry; apply Z.div_unique with (cur mod 1024 + Z.of_nat k); lia|].
      symmetry. apply Z.mod_unique with (cur / 1024); lia. }
    destruct E as [-> ->]. fold b. rewrite (proj2 (Z.eqb_neq b 0)) by exact N0. f_equal. lia.
Qed.

Definition accepts (copyOut : Z -> list Z -> bool) : Prop := forall a l, copyOut a l = true.

Lemma file_read_loop R s copyOut off total : sound sb R s -> dense s -> 0 <= off -> off + total <= d_size (di s) ->
  forall fuel w, 0 <= w <= total -> (w < total -> (off + w) mod block_size + (total - w) <= block_size * Z.of_nat fuel) ->
  match read_loop sb copyOut fuel total w (off + w) s with
  | Done l s' => s' = s /\ l = bytes (disk s) (di s) (off + w) (Z.to_nat (total - w))
  | Failed s' => s' = s /\ ~ accepts copyOut
  | Panicked => False
  end.
Proof.
  intros S D O T. pose proof (s_size _ _ _ S) as Sz. change block_size with 1024. induction fuel as [|fuel IH]; intros w W Fu; cbn [read_loop].
  - assert (w = total) as -> by (pose proof (Z.mod_pos_bound (off + w) 1024); lia). rewrite Z.sub_diag. split; reflexivity.
  - destruct (Z.ltb_spec w total) as [Lt|Ge]; [|replace (total - w) with 0 by lia; split; reflexivity]. specialize (Fu Lt).
    set (cur := off + w) in *. assert (Cr : 0 <= cur < max_size) by lia. pose proof (index_range cur Cr) as Ir. pose proof (Z.mod_pos_bound cur 1024 ltac:(lia)) as Mb.
    assert (N0 : slot (disk s) (di s) (place (cur / block_size)) <> 0).
    { apply D; [lia|]. change block_size with 1024. pose proof (Z.mul_div_le cur 1024). lia. }
    unfold mbind, m_bind, try. rewrite (getBlock_there s _ (s_len _ _ _ S) Ir N0). unfold read_block. change block_size with 1024 in *.
    set (n := Z.min (total - w) (1024 - cur mod 1024)). assert (Bn : 0 < n <= total - w /\ cur mod 1024 + n <= 1024) by lia.
    pose proof (piece_bytes s cur n (s_good _ _ _ S) (proj1 Cr) N0 ltac:(lia) ltac:(change block_size with 1024; lia)) as Pb.
    change block_size with 1024 in Pb. rewrite Pb. clear Pb.
    destruct (copyOut w _) eqn:Co; [|split; [reflexivity|intros A; rewrite A in Co; discriminate]].
    specialize (IH (w + n) ltac:(lia)). replace (off + (w + n)) with (cur + n) in IH by lia.
    assert (Fu' : w + n < total -> (cur + n) mod 1024 + (total - (w + n)) <= 1024 * Z.of_nat fuel).
    { intros Lt'. assert (cur mod 1024 + n = 1024) by lia. assert (E : (cur + n) mod 1024 = 0).
      { symmetry. apply Z.mod_unique with (cur / 1024 + 1); [lia|]. pose proof (Z.div_mod cur 1024). lia. }
      rewrite E. lia. }
    specialize (IH Fu'). unfold mbind, m_bind in IH. destruct (read_loop _ _ _ _ _ _ s) as [l s'|s'|]; [|exact IH|exact IH].
    destruct IH as [-> ->]. split; [reflexivity|]. rewrite <- (Z2Nat.id n) at 2 by lia. rewrite file_bytes_app. f_equal. lia.
Qed.

Lemma turns_enough n cur : 0 <= n -> cur mod block_size + n <= block_size * Z.of_nat (turns n).
Proof.
  intros N. unfold turns. change block_size with 1024. pose proof (Z.mod_pos_bound cur 1024). pose proof (Z.mul_succ_div_gt n 1024). pose proof (Z.div_pos n 1024). lia.
Qed.

(** [read] gives the bytes of the file from the offset, up to its end, and changes nothing; it
    fails only if the end overflows or the destination does not take a piece. *)
Lemma read_spec R s copyOut off count : sound sb R s -> dense s -> 0 <= off -> 0 <= count ->
  match read sb copyOut off count s with
  | Done l s' => s' = s /\ l = bytes (disk s) (di s) off (Z.to_nat (Z.min count (d_size (di s) - off)))
  | Failed s' => s' = s /\ (2 ^ 32 <= off + count \/ ~ accepts copyOut)
  | Panicked => False
  end.
Proof.
  intros S D O C. unfold read, mbind, m_bind, get_inode. destruct (Z.ltb_spec (d_size (di s)) off) as [Lt|Ge].
  - split; [reflexivity|]. replace (Z.to_nat _) with 0%nat by lia. reflexivity.
  - destruct (Z.leb_spec (2 ^ 32) (off + count)) as [Ov|Fit]; [split; [reflexivity|left; exact Ov]|]. cbv zeta.
    replace (if d_size (di s) <? off + count then d_size (di s) - off else count) with (Z.min count (d_size (di s) - off)) by (destruct (Z.ltb_spec (d_size (di s)) (off + count)); lia).
    set (total := Z.min count (d_size (di s) - off)).
    pose proof (file_read_loop R s copyOut off total S D O ltac:(lia) (turns total) 0 ltac:(lia) (fun _ => ltac:(rewrite Z.sub_0_r; apply turns_enough; lia))) as RL.
    rewrite Z.add_0_r, Z.sub_0_r in RL. destruct (read_loop _ _ _ _ _ _ s) as [l s'|s'|]; [exact RL| |exact RL]. destruct RL. auto.
Qed.
End Disk.

(** A source whose byte [a] is [src a], and that cannot be read from [limit] on. *)
Definition source (src : Z -> Z) (limit a n : Z) : list Z := map (fun k => src (a + Z.of_nat k)) (seq 0 (Z.to_nat (Z.min n (limit - a)))).

Lemma source_length src limit a n : len (source src limit a n) = Z.max 0 (Z.min n (limit - a)).
Proof. unfold source. rewrite length_map, length_seq. lia. Qed.

Lemma source_nth src limit a n k : (k < length (source src limit a n))%nat -> nth k (source src limit a n) 0 = src (a + Z.of_nat k).
Proof. unfold source. rewrite length_map, length_seq. intros K. exact (nth_map_seq (fun k => src (a + Z.of_nat k)) _ k 0 K). Qed.

Lemma source_good src limit a n : (forall j, is_byte (src j)) -> Forall is_byte (source src limit a n).
Proof. intros B. apply List.Forall_forall. intros x I. apply in_map_iff in I as (k & <- & _). apply B. Qed.

Lemma splice_nil b i : splice b i [] = b.
Proof. unfold splice. cbn [length app]. rewrite Nat.add_0_r. apply firstn_skipn. Qed.

(** What the log has been given, put on the disk. *)
Definition replay (tr : list (Z * list Z)) (d : gmap Z (list Z)) : gmap Z (list Z) := fold_left (fun d e => <[fst e := snd e]> d) tr d.

Section Disk.
Variable sb : super.
Context (L : laid_out sb).
Abbreviation is_data := (is_data sb).
Abbreviation is_map := (is_map sb).
Abbreviation used := (used sb).

(** A piece is copied into a block of the file. *)
Lemma poke_spec R s idx bo piece tr : sound sb R s -> 0 <= idx < max_file_block_count -> slot (disk s) (di s) (place idx) <> 0 ->
  0 <= bo -> bo + len piece <= block_size -> Forall is_byte piece ->
  let b := slot (disk s) (di s) (place idx) in
  let s' := St (di s) (<[b := splice (block_at (disk s) b) (Z.to_nat bo) piece]> (disk s)) tr in
  sound sb R s' /\ (forall k, slot (disk s') (di s') k = slot (disk s) (di s) k) /\
  forall j, 0 <= j < max_size -> content (disk s') (di s') j =
    if (idx * block_size + bo <=? j) && (j <? idx * block_size + bo + len piece) then nth (Z.to_nat (j - (idx * block_size + bo))) piece 0 else content (disk s) (di s) j.
Proof.
  intros S I N0 Bo Le Gp b s'. pose proof (place_lt idx I) as [Pl P12]. destruct (s_slot _ _ _ S _ Pl N0) as (D & U & NR). fold b in D, U, NR, N0.
  assert (Ni : indirect (di s) <> b).
  { intros E. apply P12. apply (s_inj _ _ _ S); [exact Pl|unfold slots; lia| |exact N0]. rewrite indirect_slot. symmetry. exact E. }
  assert (Gn : good (splice (block_at (disk s) b) (Z.to_nat bo) piece)).
  { apply good_splice; [apply (s_good _ _ _ S)|exact Gp|]. change block_size with 1024 in Le. lia. }
  assert (Sl : forall k, slot (disk s') (di s') k = slot (disk s) (di s) k).
  { intros k. apply slot_same. intros _. unfold s'. cbn [disk]. rewrite block_insert, decide_False by auto. reflexivity. }
  assert (Us : forall x, 0 <= x < size sb -> used (disk s') x = used (disk s) x) by (intros x X; unfold s'; cbn [disk]; apply used_data; assumption).
  split; [|split; [exact Sl|]].
  - destruct S as [A1 A2 A3 A4 A5 A6 A7 A8]. split.
    + apply all_good_insert; assumption.
    + intros x X. rewrite Us by (pose proof (l_data _ L); lia). apply A2, X.
    + exact A3.
    + exact A4.
    + intros k k' K K'. rewrite !Sl. apply A5; assumption.
    + intros k K. rewrite Sl. intros N. destruct (A6 k K N) as (Dk & Uk & Rk). split; [exact Dk|]. split; [|exact Rk]. pose proof (data_pos sb L _ Dk). rewrite Us by lia. exact Uk.
    + intros x Rx. destruct (A7 x Rx) as [Dx Ux]. split; [exact Dx|]. pose proof (data_pos sb L _ Dx). rewrite Us by lia. exact Ux.
    + intros x Dx. pose proof (data_pos sb L _ Dx). rewrite Us by lia. intros Ux. destruct (A8 x Dx Ux) as [Rx|(k & K & E)]; [left; exact Rx|right]. exists k. rewrite Sl. auto.
  - intros j J. pose proof (index_range j J) as Ij. pose proof (place_lt _ Ij) as [Plj _]. change block_size with 1024 in *. pose proof (Z.div_mod j 1024 ltac:(lia)) as DM. pose proof (Z.mod_pos_bound j 1024 ltac:(lia)) as MB.
    unfold content. rewrite Sl. change block_size with 1024. destruct (Z.eq_dec (j / 1024) idx) as [E|Ne].
    + rewrite E. fold b. rewrite (proj2 (Z.eqb_neq b 0)) by exact N0. unfold s'. cbn [disk]. rewrite block_insert, decide_True by reflexivity.
      pose proof (proj1 (s_good _ _ _ S b)) as Lb. rewrite splice_nth by (rewrite Lb; lia).
      destruct (Z.leb_spec (idx * 1024 + bo) j), (Nat.leb_spec (Z.to_nat bo) (Z.to_nat (j mod 1024))); cbn [andb]; try lia.
      destruct (Z.ltb_spec j (idx * 1024 + bo + len piece)), (Nat.ltb_spec (Z.to_nat (j mod 1024)) (Z.to_nat bo + length piece)); try lia. f_equal. lia.
    + assert (Out : (idx * 1024 + bo <=? j) && (j <? idx * 1024 + bo + len piece) = false).
      { destruct (Z.leb_spec (idx * 1024 + bo) j); cbn [andb]; [|reflexivity]. apply Z.ltb_ge. lia. }
      rewrite Out. destruct (Z.eqb_spec (slot (disk s) (di s) (place (j / 1024))) 0) as [|Nj]; [reflexivity|].
      unfold s'. cbn [disk]. rewrite block_insert, decide_False; [reflexivity|]. intros Eb. apply Ne. apply place_inj; [lia|lia|].
      apply (s_inj _ _ _ S); [exact Plj|exact Pl|symmetry; exact Eb|exact Nj].
Qed.

(** From [s] to [s'], the bytes of the file from [lo] to [hi] have become those of [f].  [W]: the
    places that were used; if [clean], the log has been given all that changed. *)
Record wrote (R : Z -> Prop) (W : list nat) (s s' : st) (lo hi : Z) (f : Z -> Z) (clean : Prop) : Prop := {
  w_sound : sound sb R s';
  w_rest n : R n -> block_at (disk s') n = block_at (disk s) n;
  w_meta n : n < bmapstart sb -> block_at (disk s') n = block_at (disk s) n;
  w_slots k : (k < slots)%nat -> slot (disk s) (di s) k <> 0 -> slot (disk s') (di s') k = slot (disk s) (di s) k;
  w_there j : lo <= j < hi -> slot (disk s') (di s') (place (j / block_size)) <> 0;
  w_content j : 0 <= j < max_size -> content (disk s') (di s') j = if (lo <=? j) && (j <? hi) then f j else content (disk s) (di s) j;
  w_size : d_size (di s') = d_size (di s);
  w_fields : d_device (di s') = d_device (di s) /\ type (di s') = type (di s) /\ link_count (di s') = link_count (di s);
  w_trace : exists tr, trace s' = trace s ++ tr /\
    (forall n, n ∈ tr.*1 -> is_map n \/ exists k, k ∈ W /\ (k < slots)%nat /\ slot (disk s') (di s') k = n /\ n <> 0) /\
    (clean -> forall n, block_at (disk s') n = block_at (replay tr (disk s)) n);
}.

Lemma keeps_wrote R W s s' lo f : sound sb R s' -> keeps sb R W s s' -> wrote R W s s' lo lo f True.
Proof.
  intros S [A1 A2 A3 A4 A5 A6 (tr & E & I & P)]. split; auto.
  - intros j J. lia.
  - intros j J. rewrite A4 by exact J. destruct (Z.leb_spec lo j), (Z.ltb_spec j lo); try lia; reflexivity.
  - exists tr. split; [exact E|]. split; [exact I|]. intros _. exact P.
Qed.

Lemma wrote_trans R W s1 s2 s3 lo mid hi f clean : 0 <= lo <= mid -> mid <= hi <= max_size -> wrote R W s1 s2 lo mid f True -> wrote R W s2 s3 mid hi f clean -> wrote R W s1 s3 lo hi f clean.
Proof.
  intros Lo Hi [A0 A1 A2 A3 At A4 A5 A6 (t1 & E1 & I1 & P1)] [B0 B1 B2 B3 Bt B4 B5 B6 (t2 & E2 & I2 & P2)]. split.
  - exact B0.
  - intros n H. rewrite B1, A1 by exact H. reflexivity.
  - intros n H. rewrite B2, A2 by exact H. reflexivity.
  - intros k K N. rewrite B3, A3; auto. rewrite A3; auto.
  - intros j J. destruct (Z.lt_ge_cases j mid) as [Lt|Ge]; [|apply Bt; lia]. pose proof (place_lt _ (index_range j ltac:(lia))) as [P _].
    rewrite B3; [apply At; lia|exact P|apply At; lia].
  - intros j J. rewrite B4, A4 by exact J. destruct (Z.leb_spec mid j), (Z.ltb_spec j hi), (Z.leb_spec lo j), (Z.ltb_spec j mid); cbn [andb]; try lia; reflexivity.
  - congruence.
  - destruct A6 as (? & ? & ?), B6 as (? & ? & ?). repeat split; congruence.
  - exists (t1 ++ t2). split; [rewrite E2, E1, app_assoc; reflexivity|]. split.
    + intros n I. rewrite fmap_app in I. apply elem_of_app in I as [I|I]; [|exact (I2 n I)].
      destruct (I1 n I) as [M|(k & K & Lt & E & N)]; [left; exact M|right]. exists k. split; [exact K|]. split; [exact Lt|].
      split; [rewrite B3; [exact E|exact Lt|rewrite E; exact N]|exact N].
    + intros Cl n. rewrite (P2 Cl). unfold replay. rewrite fold_left_app. apply replay_ext. intros x. apply P1. exact Logic.I.
Qed.

(** One turn of the loop, when the block is there: [piece] is copied, and logged if all of it could be had. *)
Lemma poke_wrote R W s off cur n src limit (logged : bool) : sound sb R s -> (forall j, is_byte (src j)) -> 0 <= off <= cur -> cur < max_size -> 0 < n -> cur mod block_size + n <= block_size ->
  slot (disk s) (di s) (place (cur / block_size)) <> 0 -> place (cur / block_size) ∈ W ->
  let b := slot (disk s) (di s) (place (cur / block_size)) in
  let piece := source src limit (cur - off) n in
  let new := splice (block_at (disk s) b) (Z.to_nat (cur mod block_size)) piece in
  let s' := St (di s) (<[b := new]> (disk s)) (trace s ++ if logged then [(b, new)] else []) in
  wrote R W s s' cur (cur + len piece) (fun j => src (j - off)) (logged = true \/ len piece = 0).
Proof.
  intros S Gs Off Cm N B N0 Wk b piece new s'. pose proof (index_range cur ltac:(lia)) as Ic. pose proof (Z.mod_pos_bound cur block_size ltac:(unfold block_size; lia)) as MB.
  pose proof (source_length src limit (cur - off) n) as Lp. fold piece in Lp. pose proof (place_lt _ Ic) as [Pl P12].
  pose proof (poke_spec R s (cur / block_size) (cur mod block_size) piece (trace s ++ if logged then [(b, new)] else []) S Ic N0 (proj1 MB) ltac:(lia) (source_good _ _ _ _ Gs)) as (S' & Sl & Co).
  fold b new s' in S', Sl, Co. destruct (s_slot _ _ _ S _ Pl N0) as (D & U & NR). fold b in D, U, NR, N0.
  assert (Ec : cur / block_size * block_size + cur mod block_size = cur) by (pose proof (Z.div_mod cur block_size ltac:(unfold block_size; lia)); lia).
  assert (Frame : forall x, x <> b -> block_at (disk s') x = block_at (disk s) x) by (intros x X; unfold s'; cbn [disk]; rewrite block_insert, decide_False by auto; reflexivity).
  split; auto.
  - intros x Rx. apply Frame. intros ->. exact (NR Rx).
  - intros x X. apply Frame. intros ->. pose proof (map_count_pos sb L). destruct D. lia.
  - intros j J. rewrite Sl. assert (E : j / block_size = cur / block_size).
    { symmetry. apply Z.div_unique with (cur mod block_size + (j - cur)); lia. }
    rewrite E. exact N0.
  - intros j J. rewrite Co by exact J. rewrite Ec. destruct (Z.leb_spec cur j), (Z.ltb_spec j (cur + len piece)); cbn [andb]; try reflexivity.
    unfold piece. rewrite source_nth by (fold piece; lia). f_equal. lia.
  - exists (if logged then [(b, new)] else []). split; [reflexivity|]. split.
    + intros x I. destruct logged; [|inversion I]. apply list_elem_of_singleton in I as ->. right. exists (place (cur / block_size)).
      split; [exact Wk|]. split; [exact Pl|]. split; [rewrite Sl; reflexivity|exact N0].
    + intros Cl x. unfold s'. cbn [disk]. destruct logged; [reflexivity|]. destruct Cl as [Cl|Cl]; [discriminate|]. cbn [replay fold_left].
      rewrite block_insert. destruct (decide (b = x)) as [<-|]; [|reflexivity]. unfold new. assert (P0 : piece = []) by (destruct piece; [reflexivity|cbn [length] in Cl; lia]). rewrite P0. apply splice_nil.
Qed.

(** The places a write of [count] bytes can use. *)
Definition touched (off count : Z) : list nat :=
  12%nat :: map (fun k => place (off / block_size + Z.of_nat k)) (seq 0 (Z.to_nat ((off + count - 1) / block_size - off / block_size + 1))).

Lemma touched_in off count j : off <= j < off + count -> place (j / block_size) ∈ touched off count.
Proof.
  intros J. change block_size with 1024. pose proof (Z.div_le_mono off j 1024 ltac:(lia) ltac:(lia)). pose proof (Z.div_le_mono j (off + count - 1) 1024 ltac:(lia) ltac:(lia)).
  apply list_elem_of_further, list_elem_of_In, in_map_iff. exists (Z.to_nat (j / 1024 - off / 1024)). change block_size with 1024. split; [f_equal; lia|].
  apply in_seq. lia.
Qed.

Lemma wrote_weaken R W s s' lo hi f (c c' : Prop) : (c' -> c) -> wrote R W s s' lo hi f c -> wrote R W s s' lo hi f c'.
Proof. intros Imp [A0 A1 A2 A3 At A4 A5 A6 (tr & E & I & P)]. split; auto. exists tr. auto. Qed.

Lemma next_piece cur n total fuel : 0 <= cur -> n = Z.min total (1024 - cur mod 1024) -> n < total -> cur mod 1024 + total <= 1024 * Z.of_nat (S fuel) ->
  (cur + n) mod 1024 + (total - n) <= 1024 * Z.of_nat fuel.
Proof.
  intros C -> Lt B. pose proof (Z.mod_pos_bound cur 1024 ltac:(lia)). assert (E : (cur + Z.min total (1024 - cur mod 1024)) mod 1024 = 0); [|rewrite E; lia].
  symmetry. apply Z.mod_unique with (cur / 1024 + 1); [lia|]. pose proof (Z.div_mod cur 1024). lia.
Qed.

Lemma write_loop_spec R off count src limit : 0 <= off -> off + count <= max_size -> (forall j, is_byte (src j)) ->
  forall fuel s w, sound sb R s -> 0 <= w <= count -> (w < count -> (off + w) mod block_size + (count - w) <= block_size * Z.of_nat fuel) ->
  match write_loop sb (source src limit) fuel count w (off + w) s with
  | Done n s' => w <= n <= count /\ (n = w \/ n <= limit) /\ (n = count \/ full sb (disk s') \/ limit < count) /\
      exists m, n <= m <= count /\ (m = n \/ m = limit /\ limit < count) /\ wrote R (touched off count) s s' (off + w) (off + m) (fun j => src (j - off)) (m = n)
  | _ => False
  end.
Proof.
  intros O C Gs. induction fuel as [|fuel IH]; intros s w S W Fu; cbn [write_loop].
  - assert (w = count) as -> by (pose proof (Z.mod_pos_bound (off + w) block_size); unfold block_size in *; lia). split; [lia|]. split; [auto|]. split; [auto|].
    exists count. split; [lia|]. split; [auto|]. apply (wrote_weaken _ _ _ _ _ _ _ True); [auto|]. apply keeps_wrote; [exact S|apply keeps_refl].
  - destruct (Z.ltb_spec w count) as [Lt|Ge].
    2:{ assert (w = count) as -> by lia. split; [lia|]. split; [auto|]. split; [auto|]. exists count. split; [lia|]. split; [auto|].
        apply (wrote_weaken _ _ _ _ _ _ _ True); [auto|]. apply keeps_wrote; [exact S|apply keeps_refl]. }
    specialize (Fu Lt). set (cur := off + w) in *. assert (Cr : 0 <= cur < max_size) by lia. pose proof (index_range cur Cr) as Ir.
    pose proof (Z.mod_pos_bound cur block_size ltac:(unfold block_size; lia)) as Mb.
    assert (Wk : place (cur / block_size) ∈ touched off count) by (apply touched_in; lia).
    assert (W12 : forall k, k ∈ [12%nat; place (cur / block_size)] -> k ∈ touched off count).
    { intros k I. apply elem_of_cons in I as [->|I]; [apply list_elem_of_here|]. apply list_elem_of_singleton in I as ->. exact Wk. }
    unfold mbind, m_bind, try. pose proof (getBlock_spec sb L R s _ S Ir) as GB. destruct (getBlock sb (cur / block_size) s) as [b s1|s1|]; [| |exact GB].
    2:{ destruct GB as (S1 & K1 & F). unfold mret, m_ret. split; [lia|]. split; [auto|]. split; [auto|]. exists w. split; [lia|]. split; [auto|].
        apply (wrote_weaken _ _ _ _ _ _ _ True); [auto|]. apply keeps_wrote; [exact S1|exact (keeps_more sb R _ _ _ _ W12 K1)]. }
    destruct GB as (S1 & K1 & -> & N0). pose proof (keeps_wrote R (touched off count) s s1 cur (fun j => src (j - off)) S1 (keeps_more sb R _ _ _ _ W12 K1)) as Wr1.
    unfold read_block, poke, log_write. cbn [disk di trace]. set (n := Z.min (count - w) (block_size - cur mod block_size)).
    assert (Bn : 0 < n <= count - w /\ cur mod block_size + n <= block_size) by lia. set (b := slot (disk s1) (di s1) (place (cur / block_size))) in *.
    pose proof (fun lg => poke_wrote R (touched off count) s1 off cur n src limit lg S1 Gs ltac:(lia) (proj2 Cr) (proj1 (proj1 Bn)) (proj2 Bn) N0 Wk) as Pk. fold b in Pk. cbn zeta in Pk.
    replace (cur - off) with w in Pk by lia. pose proof (source_length src limit w n) as Lp. destruct (Z.eqb_spec (len (source src limit w n)) n) as [Full|Short].
    + specialize (Pk true). rewrite Full in Pk. cbn [disk di trace]. rewrite block_insert, decide_True by reflexivity. set (s2 := St _ _ _) in *.
      assert (Wr2 : wrote R (touched off count) s s2 cur (cur + n) (fun j => src (j - off)) True).
      { apply (wrote_trans _ _ _ s1 _ _ cur); [lia|lia|exact Wr1|]. apply (wrote_weaken _ _ _ _ _ _ _ _ True) in Pk; [exact Pk|auto]. }
      specialize (IH s2 (w + n) (w_sound _ _ _ _ _ _ _ _ Wr2) ltac:(lia)). replace (off + (w + n)) with (cur + n) in IH by lia.
      assert (Fu' : w + n < count -> (cur + n) mod block_size + (count - (w + n)) <= block_size * Z.of_nat fuel).
      { intros Lt'. change block_size with 1024 in *. pose proof (next_piece cur n (count - w) fuel (proj1 Cr) eq_refl ltac:(lia) Fu). lia. }
      specialize (IH Fu'). destruct (write_loop _ _ _ _ _ _ s2) as [r s3|s3|]; [|exact IH|exact IH]. destruct IH as (B & Lm & En & m & Bm & Em & Wr3).
      split; [lia|]. split; [right; destruct Lm as [->|]; lia|]. split; [exact En|]. exists m. split; [lia|]. split; [exact Em|].
      apply (wrote_trans _ _ _ s2 _ _ (cur + n)); [lia|lia|exact Wr2|exact Wr3].
    + specialize (Pk false). rewrite app_nil_r in Pk. unfold mret, m_ret. set (p := len (source src limit w n)) in *. split; [lia|]. split; [auto|]. split; [right; right; lia|].
      exists (w + p). split; [lia|]. split; [lia|]. replace (off + (w + p)) with (cur + p) by lia.
      apply (wrote_trans _ _ _ s1 _ _ cur); [lia|lia|exact Wr1|]. apply (wrote_weaken _ _ _ _ _ _ _ _ (w + p = w)) in Pk; [exact Pk|]. intros. right. lia.
Qed.

(** [sound], with numbers that fit and without holes: the inode that a lock protects. *)
Record file_ok (R : Z -> Prop) (s : st) : Prop := {
  f_sound : sound sb R s;
  f_dense : dense s;
  f_device : 0 <= d_device (di s) < 2 ^ 32;
  f_links : 0 <= link_count (di s) < 2 ^ 16;
}.

(** The whole of [write]. *)
Definition written (R : Z -> Prop) (inum off count : Z) (src : Z -> Z) (limit : Z) (s : st) (n : Z) (s' : st) : Prop :=
  0 <= n <= count /\ n <= Z.max 0 limit /\ (n = count \/ full sb (disk s') \/ limit < count) /\
  file_ok R s' /\
  d_size (di s') = Z.max (d_size (di s)) (off + n) /\
  d_device (di s') = d_device (di s) /\ type (di s') = type (di s) /\ link_count (di s') = link_count (di s) /\
  (exists m, n <= m <= count /\ (m = n \/ m = limit /\ limit < count) /\
    (forall j, 0 <= j < max_size -> content (disk s') (di s') j = if (off <=? j) && (j <? off + m) then src (j - off) else content (disk s) (di s) j) /\
    exists tr, trace s' = trace s ++ tr /\
      (forall x, x ∈ tr.*1 -> is_map x \/ x = getInodeBlock sb inum \/ exists k, k ∈ touched off count /\ (k < slots)%nat /\ slot (disk s') (di s') k = x /\ x <> 0) /\
      (m = n -> forall x, block_at (disk s') x = block_at (replay tr (disk s)) x)) /\
  (forall m, 0 <= m < ninodes sb -> on_disk sb (disk s') m = if m =? inum then di s' else on_disk sb (disk s) m) /\
  (forall x, R x -> block_at (disk s') x = block_at (disk s) x) /\
  (forall x, x < bmapstart sb -> x <> getInodeBlock sb inum -> block_at (disk s') x = block_at (disk s) x).

Lemma set_size_sound R s z : sound sb R s -> 0 <= z <= max_size -> sound sb R (St (set_size z (di s)) (disk s) (trace s)).
Proof.
  intros [A1 A2 A3 A4 A5 A6 A7 A8] B. assert (Sl : forall k, slot (disk s) (set_size z (di s)) k = slot (disk s) (di s) k) by reflexivity.
  split; cbn [disk di]; auto.
Qed.

Lemma write_spec R inum off count src limit s : file_ok R s -> 0 <= inum < ninodes sb -> 0 <= off <= d_size (di s) -> 0 <= count -> off + count <= max_size -> (forall j, is_byte (src j)) ->
  exists n s', write sb inum (source src limit) off count s = Done n s' /\ written R inum off count src limit s n s'.
Proof.
  intros [S D Dv Lk] In Off Cn C Gs. unfold write, mbind, m_bind, get_inode. rewrite (proj2 (Z.ltb_ge (d_size (di s)) off)) by lia.
  rewrite (proj2 (Z.leb_gt (2 ^ 32) (off + count))) by (change max_size with 274432 in C; lia).
  change (block_size * max_file_block_count) with max_size. rewrite (proj2 (Z.ltb_ge max_size (off + count))) by exact C.
  pose proof (write_loop_spec R off count src limit ltac:(lia) C Gs (turns count) s 0 S ltac:(lia) (fun _ => ltac:(rewrite Z.sub_0_r; apply turns_enough; lia))) as WL.
  rewrite Z.add_0_r in WL. destruct (write_loop _ _ _ _ _ _ s) as [n s1|s1|]; [|destruct WL|destruct WL].
  destruct WL as (Bn & Ln & En & m & Bm & Em & Wr). pose proof Wr as [W0 W1 W2 W3 Wt W4 W5 (W6 & W7 & W8) (tr & T1 & T2 & T3)].
  set (s2 := St (if d_size (di s1) <? off + n then set_size (off + n) (di s1) else di s1) (disk s1) (trace s1)).
  assert (E2 : (if d_size (di s1) <? off + n then set_inode (set_size (off + n)) else mret tt) s1 = Done tt s2).
  { unfold s2. destruct (_ <? _); [reflexivity|]. destruct s1; reflexivity. }
  rewrite E2. assert (Sz2 : d_size (di s2) = Z.max (d_size (di s)) (off + n)).
  { unfold s2. cbn [di]. rewrite W5. destruct (Z.ltb_spec (d_size (di s)) (off + n)); cbn [set_size d_size]; [|rewrite W5]; lia. }
  pose proof (s_size _ _ _ S) as Sz. assert (S2 : sound sb R s2).
  { unfold s2. destruct (_ <? _); [apply set_size_sound; [exact W0|lia]|destruct s1; exact W0]. }
  assert (Fl2 : d_device (di s2) = d_device (di s) /\ type (di s2) = type (di s) /\ link_count (di s2) = link_count (di s)).
  { unfold s2. destruct (_ <? _); cbn [di set_size d_device type link_count]; auto. }
  destruct Fl2 as (Fd & Ft & Fk).
  assert (F2 : fits (di s2)) by (apply (sound_fits sb L R s2 S2); congruence).
  destruct (update_spec sb L R s2 inum S2 F2 In) as (s3 & U0 & S3 & Di & Bk & Sl & Od & Us & Tr). rewrite U0. unfold mret, m_ret.
  assert (Sl2 : forall k, slot (disk s2) (di s2) k = slot (disk s1) (di s1) k) by (intros k; unfold s2; destruct (_ <? _); reflexivity).
  assert (Co2 : forall j, content (disk s2) (di s2) j = content (disk s1) (di s1) j) by (intros j; unfold content; rewrite Sl2; reflexivity).
  destruct (inode_block_meta sb L inum In) as [Nm Nd].
  assert (Co3 : forall j, 0 <= j < max_size -> content (disk s3) (di s3) j = content (disk s1) (di s1) j).
  { intros j J. rewrite <- Co2. exact (update_content sb L R s2 s3 inum S2 In Bk Sl j J). }
  exists n, s3. split; [reflexivity|]. split; [lia|]. split; [lia|]. split.
  { destruct En as [En|[En|En]]; auto. right. left. intros b Db. pose proof (data_pos sb L b Db). rewrite Us by lia. exact (En b Db). }
  split; [split; [exact S3| |congruence|congruence]|].
  { intros idx I Lt. rewrite Di, Sz2 in Lt. rewrite Sl, Sl2. assert (Ix : 0 <= idx < max_file_block_count).
    { split; [exact I|]. unfold max_size in *. unfold block_size in *. nia. }
    destruct (Z.lt_ge_cases (idx * block_size) (d_size (di s))) as [Old|New].
    - rewrite W3; [apply D; assumption|apply place_lt, Ix|apply D; assumption].
    - pose proof (Wt (idx * block_size)) as T. rewrite Z_div_mult in T by (unfold block_size; lia). apply T. lia. }
  split; [congruence|]. split; [congruence|]. split; [congruence|]. split; [congruence|]. split.
  { exists m. split; [lia|]. split; [exact Em|]. split.
    - intros j J. rewrite Co3 by exact J. apply W4, J.
    - exists (tr ++ [(getInodeBlock sb inum, block_at (disk s3) (getInodeBlock sb inum))]). split; [rewrite Tr; cbn [s2 trace]; rewrite T1, app_assoc; reflexivity|]. split.
      + intros x I. rewrite fmap_app in I. apply elem_of_app in I as [I|I].
        * destruct (T2 x I) as [M|(k & K & Lt & E & N)]; [auto|right; right]. exists k. rewrite Sl, Sl2. auto.
        * apply list_elem_of_singleton in I as ->. auto.
      + intros Mn x. unfold replay. rewrite fold_left_app. cbn [fold_left fst snd]. rewrite block_insert. rewrite Bk. destruct (decide (getInodeBlock sb inum = x)) as [<-|Nx].
        * rewrite Bk, decide_True by reflexivity. reflexivity.
        * exact (T3 Mn x). }
  split.
  { intros k K. rewrite Od by exact K. rewrite Di. destruct (k =? inum); [reflexivity|]. unfold on_disk. cbn [s2 disk]. rewrite W2; [reflexivity|]. apply (inode_block sb L k K). }
  split.
  - intros x Rx. rewrite Bk, decide_False; [exact (W1 x Rx)|]. intros E. apply Nd. rewrite E. exact (proj1 (s_rest _ _ _ S x Rx)).
  - intros x X Nx. rewrite Bk, decide_False by auto. exact (W2 x X).
Qed.
End Disk.
