(* ===== verification/KInodeMain.v ===== *)
(** Files as sequences of bytes: what [write], [read], [truncate] and a loss of power
    mean for them. *)

From S2P Require Import Prelude.
From stdpp Require Import base list gmap.
From S2P Require Import KInode KInodeSpec KInodeIO.

Local Open Scope Z_scope.

(** The bytes of a file. *)
Definition contents (s : st) : list Z := bytes (disk s) (di s) 0 (Z.to_nat (d_size (di s))).

(** A source that holds [data]. *)
Definition from (data : list Z) : Z -> Z -> list Z := source (fun a => nth (Z.to_nat a) data 0) (len data).

Lemma bytes_nth d i off n k : (k < n)%nat -> nth k (bytes d i off n) 0 = content d i (off + Z.of_nat k).
Proof. intros K. exact (nth_map_seq (fun k => content d i (off + Z.of_nat k)) n k 0 K). Qed.

Lemma splice_grow (l : list Z) i d : (i <= length l)%nat -> length (splice l i d) = Nat.max (length l) (i + length d).
Proof. intros B. unfold splice. rewrite !length_app, length_firstn, length_skipn. lia. Qed.

Lemma splice_grow_nth (l : list Z) i d j : (i <= length l)%nat -> nth j (splice l i d) 0 = if (i <=? j)%nat && (j <? i + length d)%nat then nth (j - i) d 0 else nth j l 0.
Proof.
  intros B. unfold splice. destruct (Nat.leb_spec i j); cbn [andb].
  - rewrite app_nth2, length_firstn by (rewrite length_firstn; lia). replace (Nat.min i (length l)) with i by lia.
    destruct (Nat.ltb_spec j (i + length d)).
    + rewrite app_nth1 by lia. reflexivity.
    + rewrite app_nth2, nth_skipn by lia. f_equal. lia.
  - rewrite app_nth1, nth_firstn by (rewrite length_firstn; lia). destruct (Nat.ltb_spec j i); [reflexivity|lia].
Qed.

Lemma bytes_slice s off n : 0 <= off -> off + Z.of_nat n <= d_size (di s) -> bytes (disk s) (di s) off n = firstn n (skipn (Z.to_nat off) (contents s)).
Proof.
  intros O B. unfold contents. apply (list_eq_nth _ _ 0).
  - rewrite length_firstn, length_skipn, !bytes_length. lia.
  - intros k K. rewrite bytes_length in K. rewrite nth_firstn, nth_skipn, (proj2 (Nat.ltb_lt _ _) K), !bytes_nth by lia. f_equal. lia.
Qed.

Section Disk.
Variable sb : super.
Context (L : laid_out sb).

(** Another file: its blocks are among those of [R]. *)
Definition elsewhere (R : Z -> Prop) (d : gmap Z (list Z)) (i : disk_inode) : Prop := forall k, (k < slots)%nat -> slot d i k <> 0 -> R (slot d i k).

Lemma elsewhere_same R d d' i : elsewhere R d i -> (forall x, R x -> block_at d' x = block_at d x) -> forall j, 0 <= j < max_size -> content d' i j = content d i j.
Proof.
  intros El Fr j J. pose proof (place_lt _ (index_range j J)) as [P _].
  assert (Sl : forall k, slot d' i k = slot d i k) by (intros k; apply slot_same; intros N; apply Fr, (El 12%nat); [unfold slots; lia|exact N]).
  unfold content. rewrite Sl. destruct (Z.eqb_spec (slot d i (place (j / block_size))) 0) as [|N0]; [reflexivity|]. rewrite Fr; [reflexivity|]. apply El; assumption.
Qed.

(** [read] gives the bytes there are. *)
Lemma read_contents R s o c : file_ok sb R s -> 0 <= o -> 0 <= c -> o + c < 2 ^ 32 ->
  read sb (fun _ _ => true) o c s = Done (firstn (Z.to_nat c) (skipn (Z.to_nat o) (contents s))) s.
Proof.
  intros [S D _ _] O C Ov. pose proof (read_spec sb R s (fun _ _ => true) o c S D O C) as Rd. pose proof (s_size _ _ _ S) as Zs.
  destruct (read sb _ o c s) as [l s2|s2|]; [| |destruct Rd].
  + destruct Rd as [-> ->]. f_equal. destruct (Z.le_gt_cases o (d_size (di s))) as [Le|Gt].
    * rewrite bytes_slice by lia. apply (list_eq_nth _ _ 0).
      -- rewrite !length_firstn, !length_skipn. unfold contents. rewrite bytes_length. lia.
      -- intros k K. rewrite length_firstn, length_skipn in K. unfold contents in K. rewrite bytes_length in K. rewrite !nth_firstn.
         destruct (Nat.ltb_spec k (Z.to_nat (Z.min c (d_size (di s) - o)))), (Nat.ltb_spec k (Z.to_nat c)); try lia; reflexivity.
    * rewrite skipn_all2 by (unfold contents; rewrite bytes_length; lia). rewrite firstn_nil. replace (Z.to_nat _) with 0%nat by lia. reflexivity.
  + destruct Rd as [_ [Bad|Bad]]; [lia|]. destruct Bad. intros a l. reflexivity.
Qed.

(** [write] puts the bytes of its source at the offset. *)
Lemma write_contents R inum off data s (Ok : file_ok sb R s) (In : 0 <= inum < ninodes sb) (Off : 0 <= off <= d_size (di s))
    (Max : off + len data <= max_size) (Bytes : Forall is_byte data) :
  exists n s', write sb inum (from data) off (len data) s = Done n s' /\ 0 <= n <= len data /\ (n = len data \/ full sb (disk s')) /\
    file_ok sb R s' /\ contents s' = splice (contents s) (Z.to_nat off) (firstn (Z.to_nat n) data) /\
    (forall m, 0 <= m < ninodes sb -> on_disk sb (disk s') m = if m =? inum then di s' else on_disk sb (disk s) m) /\
    (forall x, R x -> block_at (disk s') x = block_at (disk s) x) /\ type (di s') = type (di s) /\ d_size (di s') = Z.max (d_size (di s)) (off + n).
Proof.
  assert (Src : forall j, is_byte (nth (Z.to_nat j) data 0)) by (intros; apply forall_nth, Bytes).
  destruct (write_spec sb L R inum off (len data) _ (len data) s Ok In Off ltac:(lia) Max Src) as (n & s' & E & Wn & _ & En & Ok' & Sz & _ & Ty & _ & (m & Bm & Em & Co & _) & Od & Fr & _).
  exists n, s'. split; [exact E|]. split; [exact Wn|]. split; [destruct En as [En|[En|En]]; auto; lia|]. split; [exact Ok'|].
  assert (m = n) as -> by lia. clear Bm Em. pose proof (s_size _ _ _ (f_sound _ _ _ Ok)) as Zs. split; [|split; [exact Od|split; [exact Fr|split; [exact Ty|exact Sz]]]].
  - apply (list_eq_nth _ _ 0).
    + rewrite splice_grow by (unfold contents; rewrite bytes_length; lia). unfold contents. rewrite !bytes_length, length_firstn, Sz. lia.
    + intros k K. unfold contents in K. rewrite bytes_length, Sz in K. rewrite splice_grow_nth by (unfold contents; rewrite bytes_length; lia).
      unfold contents at 1. rewrite bytes_nth by lia. rewrite Co by lia. rewrite Z.add_0_l, length_firstn.
      destruct (Z.leb_spec off (Z.of_nat k)), (Nat.leb_spec (Z.to_nat off) k); cbn [andb]; try lia.
      * destruct (Z.ltb_spec (Z.of_nat k) (off + n)), (Nat.ltb_spec k (Z.to_nat off + Nat.min (Z.to_nat n) (length data))); try lia.
        -- rewrite nth_firstn, (proj2 (Nat.ltb_lt _ _)) by lia. f_equal. lia.
        -- unfold contents. rewrite bytes_nth by lia. reflexivity.
      * unfold contents. rewrite bytes_nth by lia. reflexivity.
Qed.

(** C20: A file is a sequence of bytes.  [write] puts the bytes of its source at the offset, past the end if they
    reach there, and fails to write all of them only when no block is free; [read] gives the bytes from its offset
    up to the end; the inode on the disk is the one in memory, and neither the inodes nor the bytes of other files change. *)
Theorem file_is_bytes R inum off data s (Ok : file_ok sb R s) (In : 0 <= inum < ninodes sb) (Off : 0 <= off <= d_size (di s))
    (Max : off + len data <= max_size) (Bytes : Forall is_byte data) :
  exists n s', write sb inum (from data) off (len data) s = Done n s' /\ 0 <= n <= len data /\ (n = len data \/ full sb (disk s')) /\
    file_ok sb R s' /\ contents s' = splice (contents s) (Z.to_nat off) (firstn (Z.to_nat n) data) /\
    (forall m, 0 <= m < ninodes sb -> on_disk sb (disk s') m = if m =? inum then di s' else on_disk sb (disk s) m) /\
    (forall i j, elsewhere R (disk s) i -> 0 <= j < max_size -> content (disk s') i j = content (disk s) i j) /\
    (forall o c, 0 <= o -> 0 <= c -> o + c < 2 ^ 32 -> read sb (fun _ _ => true) o c s' = Done (firstn (Z.to_nat c) (skipn (Z.to_nat o) (contents s'))) s').
Proof.
  destruct (write_contents R inum off data s Ok In Off Max Bytes) as (n & s' & E & Wn & En & Ok' & Co & Od & Fr & _). exists n, s'. do 6 (split; [assumption|]). split.
  - intros i j El J. exact (elsewhere_same R (disk s) (disk s') i El Fr j J).
  - intros o c. exact (read_contents R s' o c Ok').
Qed.

(** A write whose source cannot be read to the end leaves what it could read in the file.  When the copy into a
    block fails after [limit] bytes, [write] says that none was written and gives the log no block but the one
    of the inode; the file has the [limit] bytes all the same, in the buffer cache. *)
Theorem failed_copy_is_seen R inum off count src limit s (Ok : file_ok sb R s) (In : 0 <= inum < ninodes sb) (Src : forall j, is_byte (src j)) (Lim : 0 <= limit < count)
    (Off : 0 <= off) (Inside : off + count <= d_size (di s)) (Fit : off mod block_size + count <= block_size) :
  exists s', write sb inum (source src limit) off count s = Done 0 s' /\ di s' = di s /\ (trace s').*1 = (trace s).*1 ++ [getInodeBlock sb inum] /\
    contents s' = splice (contents s) (Z.to_nat off) (map (fun k => src (Z.of_nat k)) (seq 0 (Z.to_nat limit))).
Proof.
  destruct Ok as [S D Dv Lk]. pose proof (s_size _ _ _ S) as Sz. assert (B : 0 <= off < max_size) by lia. pose proof (index_range off B) as Ix.
  assert (N0 : slot (disk s) (di s) (place (off / block_size)) <> 0).
  { apply D; [apply Z.div_pos; [lia|reflexivity]|]. pose proof (Z.div_mod off block_size ltac:(discriminate)). pose proof (Z.mod_pos_bound off block_size ltac:(reflexivity)). lia. }
  set (piece := source src limit 0 count). assert (Lp : len piece = limit) by (unfold piece; rewrite source_length; lia).
  pose proof (Z.mod_pos_bound off block_size ltac:(reflexivity)) as Mb.
  destruct (poke_spec sb L R s (off / block_size) (off mod block_size) piece (trace s) S Ix N0 ltac:(lia) ltac:(lia) (source_good _ _ _ _ Src)) as (S1 & Sl1 & Co1).
  set (b := slot (disk s) (di s) (place (off / block_size))) in *. set (s1 := St (di s) (<[b := splice (block_at (disk s) b) (Z.to_nat (off mod block_size)) piece]> (disk s)) (trace s)) in *.
  destruct (update_spec sb L R s1 inum S1) as (s2 & U & S2 & Di & Bk & Sl & _ & _ & Tr); [apply (sound_fits sb L R s1 S1); assumption|exact In|].
  exists s2. split; [|split; [exact Di|split]].
  - unfold write, mbind at 1, m_bind at 1, get_inode at 1. rewrite (proj2 (Z.ltb_ge _ _)) by lia. rewrite (proj2 (Z.leb_gt (2 ^ 32) _)) by (change max_size with 274432 in Sz; lia).
    change (block_size * max_file_block_count) with max_size. rewrite (proj2 (Z.ltb_ge max_size _)) by lia.
    replace (turns count) with (Datatypes.S (Z.to_nat (count / block_size + 1))) by (unfold turns; pose proof (Z.div_pos count block_size ltac:(lia) ltac:(reflexivity)); lia).
    cbn [write_loop]. rewrite (proj2 (Z.ltb_lt 0 count)) by lia. unfold mbind, m_bind, try. rewrite (getBlock_there sb s _ (s_len _ _ _ S) Ix N0). fold b.
    unfold read_block, poke. rewrite Z.sub_0_r, Z.min_l by lia. fold piece. rewrite Lp, (proj2 (Z.eqb_neq limit count)) by lia. fold s1. unfold mret at 1, m_ret at 1, get_inode.
    rewrite Z.add_0_r, (proj2 (Z.ltb_ge _ off)) by (cbn [s1 di]; lia). unfold mret, m_ret. rewrite U. reflexivity.
  - rewrite Tr, fmap_app. reflexivity.
  - assert (Sz2 : d_size (di s2) = d_size (di s)) by (rewrite Di; reflexivity). apply (list_eq_nth _ _ 0).
    + rewrite splice_length by (unfold contents; rewrite bytes_length, length_map, length_seq; lia). unfold contents. rewrite !bytes_length, Sz2. reflexivity.
    + intros k K. unfold contents in K. rewrite bytes_length, Sz2 in K. rewrite splice_grow_nth by (unfold contents; rewrite bytes_length; lia).
      unfold contents at 1. rewrite bytes_nth by lia. rewrite (update_content sb L R s1 s2 inum S1 In Bk Sl), Co1 by lia. rewrite length_map, length_seq, Z.add_0_l, Lp.
      rewrite (Z.mul_comm (off / block_size)), <- (Z.div_mod off block_size) by discriminate.
      destruct (Z.leb_spec off (Z.of_nat k)), (Nat.leb_spec (Z.to_nat off) k); cbn [andb]; try lia.
      * destruct (Z.ltb_spec (Z.of_nat k) (off + limit)), (Nat.ltb_spec k (Z.to_nat off + Z.to_nat limit)); try lia.
        -- unfold piece. rewrite source_nth by (fold piece; lia). rewrite (nth_map_seq (fun k => src (Z.of_nat k))) by lia. f_equal. lia.
        -- unfold contents. rewrite bytes_nth by lia. reflexivity.
      * unfold contents. rewrite bytes_nth by lia. reflexivity.
Qed.
End Disk.
