(* ===== verification/KInodeLife.v ===== *)
(** The blocks of a file given back, and the life of an inode: allocated, written, read, truncated and freed. *)

From S2P Require Import Prelude.
From stdpp Require Import base list gmap.
From S2P Require Import KInode KInodeSpec KInodeIO KInodeMain.

Local Open Scope Z_scope.

Section Disk.
Variable sb : super.
Context (L : laid_out sb).
Abbreviation is_data := (is_data sb).
Abbreviation is_map := (is_map sb).
Abbreviation used := (used sb).

(** From [s] to [s'] only the bitmap has changed, and the log has been given that. *)
Record bitmap_only (s s' : st) : Prop := {
  b_good : all_good (disk s');
  b_same n : ~ is_map n -> block_at (disk s') n = block_at (disk s) n;
  b_trace : exists tr, trace s' = trace s ++ tr /\ (forall n, n ∈ tr.*1 -> is_map n) /\ forall n, block_at (disk s') n = block_at (replay tr (disk s)) n;
}.

Lemma bitmap_refl s : all_good (disk s) -> bitmap_only s s.
Proof. intros G. split; auto. exists []. rewrite app_nil_r. split; [reflexivity|]. split; [intros n I; inversion I|reflexivity]. Qed.

Lemma bitmap_trans s1 s2 s3 : bitmap_only s1 s2 -> bitmap_only s2 s3 -> bitmap_only s1 s3.
Proof.
  intros [_ A2 (t1 & E1 & I1 & P1)] [B1 B2 (t2 & E2 & I2 & P2)]. split.
  - exact B1.
  - intros n N. rewrite B2, A2 by exact N. reflexivity.
  - exists (t1 ++ t2). split; [rewrite E2, E1, app_assoc; reflexivity|]. split.
    + intros n I. rewrite fmap_app in I. apply elem_of_app in I as [I|I]; auto.
    + intros n. rewrite P2. unfold replay. rewrite fold_left_app. apply replay_ext, P1.
Qed.

Lemma free_block_bitmap s b i : all_good (disk s) -> is_data b -> used (disk s) b = true ->
  exists s', free_block sb b s = Done tt s' /\ di s' = di s /\ bitmap_only s (St i (disk s') (trace s')) /\
    forall x, 0 <= x < size sb -> used (disk s') x = if x =? b then false else used (disk s) x.
Proof.
  intros G D U. pose proof (data_pos sb L b D). destruct (free_block_spec sb b s G D U ltac:(lia)) as (bytes & Gb & E & Us). eexists. split; [exact E|]. split; [reflexivity|].
  split; [|intros x _; apply Us]. cbn [disk trace]. split; cbn [disk trace].
  - apply all_good_insert; assumption.
  - intros n N. rewrite block_insert, decide_False; [reflexivity|]. intros <-. apply N, map_of. lia.
  - eexists. split; [reflexivity|]. split; [|reflexivity]. intros n I. apply list_elem_of_singleton in I as ->. apply map_of. lia.
Qed.

(** A list of blocks is freed; 0 stands for none. *)
Lemma free_list : forall bs s, all_good (disk s) -> (forall b, b ∈ bs -> b <> 0 -> is_data b /\ used (disk s) b = true) ->
  (forall j k b, bs !! j = Some b -> bs !! k = Some b -> b <> 0 -> j = k) ->
  exists s', for_each bs (fun b => if b =? 0 then mret tt else free_block sb b) s = Done tt s' /\ di s' = di s /\ bitmap_only s s' /\
    forall x, 0 <= x < size sb -> used (disk s') x = if decide (x <> 0 /\ x ∈ bs) then false else used (disk s) x.
Proof.
  induction bs as [|b bs IH]; intros s G Ok Nd; cbn [for_each].
  - exists s. split; [reflexivity|]. split; [reflexivity|]. split; [apply bitmap_refl, G|]. intros x _. rewrite decide_False by (intros [_ I]; inversion I). reflexivity.
  - assert (Nd' : forall j k c, bs !! j = Some c -> bs !! k = Some c -> c <> 0 -> j = k) by (intros j k c A B N; injection (Nd (S j) (S k) c A B N); auto).
    unfold mbind, m_bind. destruct (Z.eqb_spec b 0) as [->|N0].
    + destruct (IH s G (fun c I => Ok c (list_elem_of_further _ _ _ I)) Nd') as (s' & E & Di & Bm & U). exists s'. split; [exact E|]. split; [exact Di|]. split; [exact Bm|].
      intros x X. rewrite U by exact X. apply decide_ext. rewrite elem_of_cons. tauto.
    + destruct (Ok b (list_elem_of_here _ _) N0) as [D Ub]. destruct (free_block_bitmap s b (di s) G D Ub) as (s1 & E1 & D1 & B1 & U1). rewrite E1.
      replace (St (di s) (disk s1) (trace s1)) with s1 in B1 by (rewrite <- D1; destruct s1; reflexivity).
      assert (NI : b ∉ bs). { intros I. apply list_elem_of_lookup in I as (k & K). discriminate (Nd 0%nat (S k) b eq_refl K N0). }
      destruct (IH s1) as (s' & E & Di & Bm & U).
      * apply (b_good _ _ B1).
      * intros c I Nc. destruct (Ok c (list_elem_of_further _ _ _ I) Nc) as [Dc Uc]. split; [exact Dc|]. pose proof (data_pos sb L _ Dc). rewrite U1 by lia.
        destruct (Z.eqb_spec c b) as [->|_]; [destruct (NI I)|exact Uc].
      * exact Nd'.
      * exists s'. split; [exact E|]. split; [congruence|]. split; [exact (bitmap_trans _ _ _ B1 Bm)|]. intros x X. rewrite U, U1 by lia.
        destruct (Z.eqb_spec x b) as [->|Nx]; [|apply decide_ext; rewrite elem_of_cons; tauto].
        rewrite (decide_True (P := b <> 0 /\ b ∈ b :: bs)) by (split; [exact N0|apply list_elem_of_here]). destruct (decide _); reflexivity.
Qed.

(** Places of a file are emptied, and their blocks are free. *)
Lemma sound_shrink R s s' (gone : nat -> Prop) : sound sb R s -> all_good (disk s') -> length (addrs (di s')) = 13%nat -> d_size (di s') = d_size (di s) ->
  (forall k, (k < slots)%nat -> (gone k /\ slot (disk s') (di s') k = 0) \/ (~ gone k /\ slot (disk s') (di s') k = slot (disk s) (di s) k)) ->
  (forall x, 0 <= x < bmapstart sb + map_count sb -> used (disk s') x = used (disk s) x) ->
  (forall x, is_data x -> (exists k, (k < slots)%nat /\ gone k /\ slot (disk s) (di s) k = x) /\ used (disk s') x = false \/
     (forall k, (k < slots)%nat -> gone k -> slot (disk s) (di s) k <> x) /\ used (disk s') x = used (disk s) x) ->
  sound sb R s'.
Proof.
  intros S G Ln Sz Sl Um Ud. split.
  - exact G.
  - intros x X. rewrite Um by exact X. apply (s_meta _ _ _ S), X.
  - exact Ln.
  - rewrite Sz. apply (s_size _ _ _ S).
  - intros k k' K K'. destruct (Sl k K) as [[_ ->]|[_ ->]]; [congruence|]. destruct (Sl k' K') as [[_ ->]|[_ ->]]; [congruence|]. apply (s_inj _ _ _ S); assumption.
  - intros k K. destruct (Sl k K) as [[_ ->]|[Ng ->]]; [congruence|]. intros N0. destruct (s_slot _ _ _ S k K N0) as (D & U & NR). split; [exact D|]. split; [|exact NR].
    destruct (Ud _ D) as [[(k' & K' & Gk' & E) _]|[_ E]]; [|congruence]. destruct Ng. rewrite (s_inj _ _ _ S k k' K K' (eq_sym E) N0). exact Gk'.
  - intros x Rx. destruct (s_rest _ _ _ S x Rx) as [D U]. split; [exact D|]. destruct (Ud x D) as [[(k & K & _ & E) _]|[_ ->]]; [|exact U].
    exfalso. pose proof (data_pos sb L x D). destruct (s_slot _ _ _ S k K) as (_ & _ & NR); [lia|]. apply NR. rewrite E. exact Rx.
  - intros x D U. destruct (Ud x D) as [[_ F]|[Ng E]]; [congruence|]. rewrite E in U. destruct (s_all _ _ _ S x D U) as [Rx|(k & K & Ek)]; [left; exact Rx|right].
    exists k. split; [exact K|]. destruct (Sl k K) as [[Gk _]|[_ ->]]; [destruct (Ng k K Gk Ek)|exact Ek].
Qed.

(** What stays of the inode. *)
Definition fields (s s' : st) : Prop := d_size (di s') = d_size (di s) /\ d_device (di s') = d_device (di s) /\ type (di s') = type (di s) /\ link_count (di s') = link_count (di s).

(** The direct blocks. *)
Lemma free_direct_spec R s k : sound sb R s -> (k < 12)%nat ->
  exists s', free_direct sb (Z.of_nat k) s = Done tt s' /\ sound sb R s' /\ bitmap_only s s' /\
    (forall x, (x < slots)%nat -> slot (disk s') (di s') x = if (x =? k)%nat then 0 else slot (disk s) (di s) x) /\
    fields s s'.
Proof.
  intros S K. assert (Ks : slot (disk s) (di s) k = nth k (addrs (di s)) 0) by (unfold slot; rewrite (proj2 (Nat.leb_le k 12)) by lia; reflexivity).
  unfold free_direct, getDiskBlockDirect, direct_pointer_count, mbind, m_bind, get_inode, mret, m_ret. rewrite (proj2 (Z.ltb_ge 12 (Z.of_nat k))), Nat2Z.id by lia.
  destruct (Z.eqb_spec (nth k (addrs (di s)) 0) 0) as [E0|N0].
  - exists s. split; [reflexivity|]. split; [exact S|]. split; [apply bitmap_refl, (s_good _ _ _ S)|]. split; [|repeat split].
    intros x X. destruct (Nat.eqb_spec x k) as [->|]; [congruence|reflexivity].
  - rewrite <- Ks in N0. assert (Kl : (k < slots)%nat) by (unfold slots; lia). destruct (s_slot _ _ _ S k Kl N0) as (D & U & NR).
    rewrite <- Ks. set (b := slot (disk s) (di s) k) in *. set (i' := set_addr (Z.of_nat k) 0 (di s)).
    destruct (free_block_bitmap s b i' (s_good _ _ _ S) D U) as (s1 & E1 & D1 & B1 & U1). rewrite E1. unfold set_inode. rewrite D1. fold i'. set (s' := St i' (disk s1) (trace s1)) in *.
    assert (Same : forall x, slot (disk s1) (di s) x = slot (disk s) (di s) x).
    { intros x. apply slot_same. intros Ni. apply (b_same _ _ B1). intros M. exact (map_not_data sb _ M (proj1 (indirect_data sb R s S Ni))). }
    assert (Sl : forall x, (x < slots)%nat -> slot (disk s') (di s') x = if (x =? k)%nat then 0 else slot (disk s) (di s) x).
    { intros x X. unfold s', i'. cbn [disk di]. rewrite slot_direct; [rewrite Same; reflexivity|lia|apply (s_len _ _ _ S)|lia|lia|exact X]. }
    exists s'. split; [reflexivity|]. split; [|split; [exact B1|split; [exact Sl|repeat split]]].
    apply (sound_shrink R s s' (eq k) S (b_good _ _ B1)).
    + unfold s', i'. cbn [di set_addr addrs]. rewrite list_set_length. apply (s_len _ _ _ S).
    + reflexivity.
    + intros x X. rewrite Sl by exact X. destruct (Nat.eqb_spec x k) as [->|N]; [left; auto|right; auto].
    + intros x X. cbn [s' disk]. rewrite U1 by (pose proof (l_data _ L); lia). destruct (Z.eqb_spec x b) as [->|_]; [|reflexivity]. destruct D. lia.
    + intros x Dx. pose proof (data_pos sb L x Dx). cbn [s' disk]. rewrite U1 by lia. destruct (Z.eqb_spec x b) as [->|N]; [left; split; [exists k; auto|reflexivity]|right].
      split; [|reflexivity]. intros k' _ <- E. apply N. symmetry. exact E.
Qed.

Lemma fields_trans s1 s2 s3 : fields s1 s2 -> fields s2 s3 -> fields s1 s3.
Proof. unfold fields. intros (? & ? & ? & ?) (? & ? & ? & ?). repeat split; congruence. Qed.

Lemma direct_list R : forall ks s, sound sb R s -> (forall k, k ∈ ks -> (k < 12)%nat) ->
  exists s', for_each (map Z.of_nat ks) (free_direct sb) s = Done tt s' /\ sound sb R s' /\ bitmap_only s s' /\
    (forall x, (x < slots)%nat -> slot (disk s') (di s') x = if decide (x ∈ ks) then 0 else slot (disk s) (di s) x) /\ fields s s'.
Proof.
  induction ks as [|k ks IH]; intros s S Lt; cbn [for_each map].
  - exists s. split; [reflexivity|]. split; [exact S|]. split; [apply bitmap_refl, (s_good _ _ _ S)|]. split; [|repeat split].
    intros x _. destruct (decide (x ∈ [])) as [I|_]; [inversion I|reflexivity].
  - destruct (free_direct_spec R s k S (Lt k (list_elem_of_here _ _))) as (s1 & E1 & S1 & B1 & Sl1 & F1).
    destruct (IH s1 S1 (fun x I => Lt x (list_elem_of_further _ _ _ I))) as (s2 & E2 & S2 & B2 & Sl2 & F2).
    exists s2. unfold mbind, m_bind. rewrite E1. split; [exact E2|]. split; [exact S2|]. split; [exact (bitmap_trans _ _ _ B1 B2)|]. split; [|exact (fields_trans _ _ _ F1 F2)].
    intros x X. rewrite Sl2, Sl1 by exact X. destruct (decide (x ∈ ks)) as [I|I], (decide (x ∈ k :: ks)) as [I2|I2], (Nat.eqb_spec x k) as [E|N]; try reflexivity.
    + destruct I2. apply list_elem_of_further, I.
    + destruct I2. apply list_elem_of_further, I.
    + apply elem_of_cons in I2 as [E'|I2]; [destruct (N E')|destruct (I I2)].
    + destruct I2. subst x. apply list_elem_of_here.
Qed.

(** Entry [k] of the indirect block is the place [13 + k]. *)
Lemma slot_entry d i k : indirect i <> 0 -> slot d i (13 + k) = number_at 4 (block_at d (indirect i)) (4 * k).
Proof. intros N. unfold slot. rewrite (proj2 (Nat.leb_gt _ 12)), (proj2 (Z.eqb_neq _ _) N) by lia. do 2 f_equal. lia. Qed.

(** The indirect block and those in it. *)
Lemma free_indirect_spec R s : sound sb R s ->
  exists s', free_indirect sb s = Done tt s' /\ sound sb R s' /\ bitmap_only s s' /\
    (forall x, (x < slots)%nat -> slot (disk s') (di s') x = if (12 <=? x)%nat then 0 else slot (disk s) (di s) x) /\ fields s s'.
Proof.
  intros S. unfold free_indirect, getDiskBlockDirect, indirect_pointer_block_index, direct_pointer_count, mbind, m_bind, get_inode.
  change (12 <? 12) with false. change (Z.to_nat 12) with 12%nat. unfold mret at 1, m_ret at 1. cbv beta iota. fold (indirect (di s)). destruct (Z.eqb_spec (indirect (di s)) 0) as [E0|N0].
  - exists s. split; [reflexivity|]. split; [exact S|]. split; [apply bitmap_refl, (s_good _ _ _ S)|]. split; [|repeat split].
    intros x X. destruct (Nat.leb_spec 12 x); [|reflexivity]. unfold slot. destruct (Nat.leb_spec x 12); [replace x with 12%nat by lia; exact E0|]. rewrite E0. reflexivity.
  - unfold read_block. set (ib := indirect (di s)) in *. set (bs := map (fun k => number_at 4 (block_at (disk s) ib) (4 * k)) (seq 0 256)).
    assert (Bs : forall k b, bs !! k = Some b -> (k < 256)%nat /\ b = slot (disk s) (di s) (13 + k)).
    { intros k b E. unfold bs in E. apply list_lookup_fmap_Some in E as (j & -> & E). apply lookup_seq in E as [-> Lt]. rewrite slot_entry by exact N0. auto. }
    assert (Bi : forall x, x <> 0 -> x ∈ bs <-> exists k, (13 <= k < slots)%nat /\ slot (disk s) (di s) k = x).
    { intros x Nx. split.
      - intros I. apply list_elem_of_lookup in I as (k & E). destruct (Bs k x E) as [Lt ->]. exists (13 + k)%nat. unfold slots. split; [lia|reflexivity].
      - intros (k & K & <-). apply list_elem_of_lookup. exists (k - 13)%nat. unfold bs. apply list_lookup_fmap_Some. exists (k - 13)%nat. unfold slots in K. split.
        + unfold ib. rewrite <- slot_entry by exact N0. f_equal. lia.
        + apply lookup_seq. lia. }
    destruct (free_list bs s (s_good _ _ _ S)) as (s1 & E1 & D1 & B1 & U1).
    { intros b I Nb. apply (Bi b Nb) in I as (k & K & E). destruct (s_slot _ _ _ S k ltac:(lia) ltac:(congruence)) as (D & U & _). rewrite E in D, U. auto. }
    { intros j k b Ej Ek Nb. destruct (Bs j b Ej) as [Lj ->]. destruct (Bs k _ Ek) as [Lk Eq]. unfold slots in *.
      pose proof (s_inj _ _ _ S (13 + j) (13 + k) ltac:(unfold slots; lia) ltac:(unfold slots; lia) Eq Nb). lia. }
    rewrite E1. destruct (indirect_data sb R s S N0) as (Di & Ui & _). pose proof (data_pos sb L _ Di) as Pi.
    assert (NI : ib ∉ bs). { intros I. apply (Bi ib N0) in I as (k & K & E). pose proof (s_inj _ _ _ S k 12 ltac:(lia) ltac:(unfold slots; lia) E ltac:(congruence)). lia. }
    destruct (free_block_bitmap s1 ib (set_addr 12 0 (di s)) (b_good _ _ B1) Di) as (s2 & E2 & D2 & B2 & U2).
    { rewrite U1, decide_False by (tauto || lia). exact Ui. }
    rewrite E2. unfold set_inode. rewrite D2, D1. set (s' := St (set_addr 12 0 (di s)) (disk s2) (trace s2)) in *.
    pose proof (bitmap_trans _ _ _ B1 B2) as B. assert (I0 : indirect (set_addr 12 0 (di s)) = 0).
    { unfold indirect, set_addr. cbn [addrs]. apply nth_set_eq. rewrite (s_len _ _ _ S). lia. }
    assert (Sl : forall x, (x < slots)%nat -> slot (disk s') (di s') x = if (12 <=? x)%nat then 0 else slot (disk s) (di s) x).
    { intros x X. unfold s'. cbn [disk di]. destruct (Nat.leb_spec 12 x) as [Ge|Lt].
      - destruct (Nat.eq_dec x 12%nat) as [->|N]; [exact I0|]. unfold slot. rewrite (proj2 (Nat.leb_gt x 12%nat)), I0 by lia. reflexivity.
      - unfold slot. rewrite (proj2 (Nat.leb_le x 12)) by lia. apply nth_set_ne. lia. }
    exists s'. split; [reflexivity|]. split; [|split; [exact B|split; [exact Sl|repeat split]]].
    assert (Us : forall x, 0 <= x < size sb -> used (disk s') x = if x =? ib then false else if decide (x <> 0 /\ x ∈ bs) then false else used (disk s) x).
    { intros x X. cbn [s' disk]. rewrite U2, U1 by lia. reflexivity. }
    apply (sound_shrink R s s' (fun k => (12 <= k)%nat) S (b_good _ _ B)).
    + unfold s'. cbn [di set_addr addrs]. rewrite list_set_length. apply (s_len _ _ _ S).
    + reflexivity.
    + intros x X. rewrite Sl by exact X. destruct (Nat.leb_spec 12 x); [left; auto|right; split; [lia|reflexivity]].
    + intros x X. pose proof (l_data _ L). rewrite Us by lia. destruct (Z.eqb_spec x ib) as [->|_]; [destruct Di; lia|]. rewrite decide_False; [reflexivity|].
      intros [Nx I]. apply (Bi x Nx) in I as (k & K & E). destruct (s_slot _ _ _ S k ltac:(lia) ltac:(congruence)) as ([D _] & _). rewrite E in D. lia.
    + intros x Dx. pose proof (data_pos sb L x Dx). rewrite Us by lia. destruct (Z.eqb_spec x ib) as [->|N].
      * left. split; [|reflexivity]. exists 12%nat. unfold slots. split; [lia|]. split; [lia|reflexivity].
      * destruct (decide (x <> 0 /\ x ∈ bs)) as [[_ I]|I].
        -- left. split; [|reflexivity]. apply (Bi x ltac:(lia)) in I as (k & K & E). exists k. split; [lia|]. split; [lia|exact E].
        -- right. split; [|reflexivity]. intros k K Gk E. destruct (Nat.eq_dec k 12%nat) as [->|Nk]; [apply N; symmetry; exact E|]. apply I. split; [lia|]. apply (Bi x ltac:(lia)). exists k. split; [lia|exact E].
Qed.

(** ** [truncate] *)

Lemma bitmap_rest R s s' : sound sb R s -> bitmap_only s s' -> forall x, R x -> block_at (disk s') x = block_at (disk s) x.
Proof. intros S B x Rx. apply (b_same _ _ B). intros M. exact (map_not_data sb _ M (proj1 (s_rest _ _ _ S x Rx))). Qed.

Lemma truncate_spec R inum s : file_ok sb R s -> 0 <= inum < ninodes sb ->
  exists s', truncate sb inum s = Done tt s' /\ file_ok sb R s' /\
    d_size (di s') = 0 /\ (forall k, (k < slots)%nat -> slot (disk s') (di s') k = 0) /\
    d_device (di s') = d_device (di s) /\ type (di s') = type (di s) /\ link_count (di s') = link_count (di s) /\
    (forall m, 0 <= m < ninodes sb -> on_disk sb (disk s') m = if m =? inum then di s' else on_disk sb (disk s) m) /\
    (forall x, R x -> block_at (disk s') x = block_at (disk s) x) /\
    exists tr, trace s' = trace s ++ tr /\ (forall n, n ∈ tr.*1 -> is_map n \/ n = getInodeBlock sb inum) /\ forall n, block_at (disk s') n = block_at (replay tr (disk s)) n.
Proof.
  intros [S _ Dv Lk] In. unfold truncate, mbind, m_bind.
  destruct (direct_list R (seq 0 12) s S) as (s1 & E1 & S1 & B1 & Sl1 & F1); [intros k I; apply elem_of_seq in I; lia|]. rewrite E1.
  destruct (free_indirect_spec R s1 S1) as (s2 & E2 & S2 & B2 & Sl2 & F2). rewrite E2. unfold set_inode at 1.
  pose proof (bitmap_trans _ _ _ B1 B2) as B. destruct (fields_trans _ _ _ F1 F2) as (Fz & Fd & Ft & Fl). set (s3 := St (set_size 0 (di s2)) (disk s2) (trace s2)).
  assert (S3 : sound sb R s3) by (apply set_size_sound; [exact S2|change max_size with 274432; lia]).
  destruct (update_spec sb L R s3 inum S3) as (s' & U0 & S' & Di & Bk & Sl & Od & Us & Tr); [apply (sound_fits sb L R s3 S3); cbn [s3 di set_size d_device link_count]; congruence|exact In|].
  assert (Z0 : forall k, (k < slots)%nat -> slot (disk s') (di s') k = 0).
  { intros k K. rewrite Sl. transitivity (slot (disk s2) (di s2) k); [reflexivity|]. rewrite Sl2, Sl1 by exact K. destruct (Nat.leb_spec 12 k); [reflexivity|].
    apply decide_True. apply elem_of_seq. lia. }
  assert (Sz : d_size (di s') = 0) by (rewrite Di; reflexivity). destruct (inode_block_meta sb L inum In) as [Nm Nd].
  assert (Df : d_device (di s') = d_device (di s)) by (rewrite Di; exact Fd). assert (Lf : link_count (di s') = link_count (di s)) by (rewrite Di; exact Fl).
  exists s'. split; [exact U0|]. split; [|split; [exact Sz|split; [exact Z0|split; [exact Df|split; [rewrite Di; exact Ft|split; [exact Lf|split; [|split]]]]]]].
  - split; [exact S'| |rewrite Df; exact Dv|rewrite Lf; exact Lk]. intros index I Lt. rewrite Sz in Lt. unfold block_size in Lt. lia.
  - intros m M. rewrite Od, Di by exact M. destruct (m =? inum); [reflexivity|]. unfold on_disk. cbn [s3 disk]. rewrite (b_same _ _ B); [reflexivity|].
    apply (inode_block_meta sb L m M).
  - intros x Rx. rewrite Bk, decide_False; [exact (bitmap_rest R s s2 S B x Rx)|]. intros E. apply Nd. rewrite E. exact (proj1 (s_rest _ _ _ S x Rx)).
  - destruct (b_trace _ _ B) as (tr & T1 & T2 & T3). exists (tr ++ [(getInodeBlock sb inum, block_at (disk s') (getInodeBlock sb inum))]).
    split; [rewrite Tr; cbn [s3 trace]; rewrite T1, app_assoc; reflexivity|]. split.
    + intros n I. rewrite fmap_app in I. apply elem_of_app in I as [I|I]; [left; exact (T2 n I)|]. apply list_elem_of_singleton in I as ->. right. reflexivity.
    + intros n. unfold replay. rewrite fold_left_app. cbn [fold_left fst snd]. rewrite block_insert, Bk.
      destruct (decide (getInodeBlock sb inum = n)) as [<-|Nx]; [rewrite Bk, decide_True by reflexivity; reflexivity|exact (T3 n)].
Qed.

(** Without blocks of its own, the used blocks are those of the others. *)
Lemma nothing_left R s b : sound sb R s -> (forall k, (k < slots)%nat -> slot (disk s) (di s) k = 0) -> is_data b -> used (disk s) b = true <-> R b.
Proof.
  intros S Z0 D. pose proof (data_pos sb L b D). split; [|intros Rb; apply (s_rest _ _ _ S b Rb)].
  intros U. destruct (s_all _ _ _ S b D U) as [Rb|(k & K & E)]; [exact Rb|]. rewrite Z0 in E by exact K. lia.
Qed.

(** [truncate] gives back what the file has and nothing else.  It never panics; afterwards the file is empty, a block of
    data is used exactly if another file has it, the inode on the disk says so, the log was given every block that
    changed, and the other inodes and the bytes of other files are as before. *)
Theorem truncate_gives_back R inum s (Ok : file_ok sb R s) (In : 0 <= inum < ninodes sb) :
  exists s', truncate sb inum s = Done tt s' /\ file_ok sb R s' /\ contents s' = [] /\
    (forall b, is_data b -> used (disk s') b = true <-> R b) /\
    type (di s') = type (di s) /\ link_count (di s') = link_count (di s) /\
    (forall m, 0 <= m < ninodes sb -> on_disk sb (disk s') m = if m =? inum then di s' else on_disk sb (disk s) m) /\
    (forall i j, elsewhere R (disk s) i -> 0 <= j < max_size -> content (disk s') i j = content (disk s) i j) /\
    exists tr, trace s' = trace s ++ tr /\ forall n, block_at (disk s') n = block_at (replay tr (disk s)) n.
Proof.
  destruct (truncate_spec R inum s Ok In) as (s' & E & Ok' & Sz & Z0 & _ & Ty & Lk & Od & Fr & tr & T & _ & Rp). exists s'.
  split; [exact E|]. split; [exact Ok'|]. split; [unfold contents; rewrite Sz; reflexivity|]. split; [|split; [exact Ty|split; [exact Lk|split; [exact Od|split; [|eauto]]]]].
  - intros b D. exact (nothing_left R s' b (f_sound _ _ _ Ok') Z0 D).
  - intros i j El J. exact (elsewhere_same R (disk s) (disk s') i El Fr j J).
Qed.

Lemma set_type_sound R s t : sound sb R s -> sound sb R (St (set_type t (di s)) (disk s) (trace s)).
Proof. intros [A1 A2 A3 A4 A5 A6 A7 A8]. split; cbn [disk di]; auto. Qed.

(** [put] of an inode without links: it is free on the disk, and so are its blocks. *)
Lemma discard_spec R inum s : file_ok sb R s -> 0 <= inum < ninodes sb ->
  exists s', discard sb inum s = Done tt s' /\ (forall b, is_data b -> used (disk s') b = true <-> R b) /\
    (forall m, 0 <= m < ninodes sb -> if m =? inum then type (on_disk sb (disk s') m) = free else on_disk sb (disk s') m = on_disk sb (disk s) m) /\
    all_good (disk s') /\ meta_used sb (disk s') /\ (forall x, R x -> block_at (disk s') x = block_at (disk s) x).
Proof.
  intros Ok In. unfold discard, mbind, m_bind. destruct (truncate_spec R inum s Ok In) as (s1 & E1 & Ok1 & Sz & Z0 & _ & _ & _ & Od1 & Fr1 & _). rewrite E1.
  unfold set_inode at 1. set (s2 := St (set_type free (di s1)) (disk s1) (trace s1)). pose proof (set_type_sound R s1 free (f_sound _ _ _ Ok1)) as S2. fold s2 in S2.
  destruct (update_spec sb L R s2 inum S2) as (s' & E & S' & Di & Bk & Sl & Od & Us & _); [apply (sound_fits sb L R s2 S2); [apply (f_device _ _ _ Ok1)|apply (f_links _ _ _ Ok1)]|exact In|].
  exists s'. split; [exact E|]. split; [|split; [|split; [apply (s_good _ _ _ S')|split; [apply (s_meta _ _ _ S')|]]]].
  - intros b D. apply nothing_left; [exact S'| |exact D]. intros k K. rewrite Sl. exact (Z0 k K).
  - intros m M. rewrite Od by exact M. destruct (Z.eqb_spec m inum) as [->|N]; [reflexivity|]. cbn [s2 disk]. rewrite Od1, (proj2 (Z.eqb_neq _ _) N) by exact M. reflexivity.
  - intros x Rx. rewrite Bk, decide_False; [exact (Fr1 x Rx)|]. intros E'. apply (proj2 (inode_block_meta sb L inum In)). rewrite E'. exact (proj1 (s_rest _ _ _ S2 x Rx)).
Qed.
End Disk.

Section Disk.
Variable sb : super.
Context (L : laid_out sb).
Abbreviation is_data := (is_data sb).
Abbreviation is_map := (is_map sb).
Abbreviation used := (used sb).
Abbreviation on_disk := (on_disk sb).

Definition fresh (t : inode_type) : disk_inode := DiskInode 0 0 (repeat 0 13) t 0.

Lemma fresh_fits t : fits (fresh t).
Proof. unfold fits, fresh. cbn [d_device d_size addrs link_count]. repeat split; try lia. apply List.Forall_forall. intros a I. apply repeat_spec in I as ->. lia. Qed.

(** [Inode.alloc] takes the first free inode there is. *)
Lemma alloc_from_spec t s : all_good (disk s) -> forall k a, 0 <= a -> a + Z.of_nat k <= ninodes sb ->
  match alloc_from sb t (map Z.of_nat (seq (Z.to_nat a) k)) s with
  | Done n s' => a <= n < a + Z.of_nat k /\ type (on_disk (disk s) n) = free /\ (forall m, a <= m < n -> type (on_disk (disk s) m) <> free) /\
      di s' = di s /\ all_good (disk s') /\ (forall m, 0 <= m < ninodes sb -> on_disk (disk s') m = if m =? n then fresh t else on_disk (disk s) m) /\
      (forall x, x <> getInodeBlock sb n -> block_at (disk s') x = block_at (disk s) x)
  | Failed s' => s' = s /\ forall m, a <= m < a + Z.of_nat k -> type (on_disk (disk s) m) <> free
  | Panicked => False
  end.
Proof.
  intros G. induction k as [|k IH]; intros a A B; cbn [seq map alloc_from].
  - split; [reflexivity|]. intros m M. lia.
  - rewrite Z2Nat.id by exact A. unfold mbind, m_bind, read_block. fold (on_disk (disk s) a). destruct (type (on_disk (disk s) a)) eqn:Ty.
    1:{ unfold change, poke, log_write, mbind, m_bind, mret, m_ret. cbn [disk di trace]. fold (fresh t). split; [lia|]. split; [exact Ty|]. split; [intros; lia|]. split; [reflexivity|].
      split; [|split].
      - apply all_good_insert; [exact G|]. apply good_splice; [apply G|apply encode_good|]. rewrite encode_length by reflexivity. apply offset_range. exact A.
      - intros m M. apply on_disk_insert; [exact G|apply fresh_fits|lia|exact M].
      - intros x N. rewrite block_insert, decide_False by auto. reflexivity. }
    all: specialize (IH (a + 1) ltac:(lia) ltac:(lia)); rewrite Z2Nat.inj_add, Nat.add_1_r in IH by lia;
      destruct (alloc_from sb t _ s) as [n s'|s'|]; [destruct IH as (Bn & F & Low & R); split; [lia|]; split; [exact F|]; split; [|exact R] | destruct IH as [Es Low]; split; [exact Es|] | exact IH];
      intros m M; destruct (Z.eq_dec m a) as [->|N]; [congruence|apply Low; lia|congruence|apply Low; lia].
Qed.

Lemma load_spec n s : type (on_disk (disk s) n) <> free -> load sb n s = Done tt (St (on_disk (disk s) n) (disk s) (trace s)).
Proof. intros T. unfold load, mbind, m_bind, read_block, set_inode, get_inode. cbn [di]. fold (on_disk (disk s) n). destruct (type (on_disk (disk s) n)); [destruct (T eq_refl)|reflexivity..]. Qed.

(** An inode without blocks, when the blocks used are those of others. *)
Lemma fresh_ok R s t : all_good (disk s) -> meta_used sb (disk s) -> (forall b, R b <-> is_data b /\ used (disk s) b = true) -> file_ok sb R (St (fresh t) (disk s) (trace s)).
Proof.
  intros G Mt Rs. assert (Z0 : forall d k, slot d (fresh t) k = 0).
  { intros d k. unfold slot, indirect, fresh. cbn [addrs]. destruct (k <=? 12)%nat; [apply nth_repeat|reflexivity]. }
  split; cbn [disk di d_device link_count fresh]; [|intros i I Lt; cbn [di fresh d_size] in Lt; unfold block_size in Lt; lia|cbn; lia|cbn; lia].
  split; cbn [disk di fresh addrs d_size].
  - exact G.
  - exact Mt.
  - reflexivity.
  - change max_size with 274432. lia.
  - intros k k' _ _ _. rewrite Z0. lia.
  - intros k _. rewrite Z0. lia.
  - intros b. apply Rs.
  - intros b D U. left. apply Rs. auto.
Qed.

(** A file is made, written, read, and dropped. *)
Definition life (t : inode_type) (data : list Z) : M (Z * Z * list Z) :=
  n ← inode_alloc sb t;
  load sb n ;;
  w ← write sb n (from data) 0 (len data);
  l ← read sb (fun _ _ => true) 0 (len data);
  discard sb n ;;
  mret (n, w, l).

Lemma used_frame n s s' x : 0 <= n < ninodes sb -> (forall y, y <> getInodeBlock sb n -> block_at (disk s') y = block_at (disk s) y) -> 0 <= x < size sb -> used (disk s') x = used (disk s) x.
Proof.
  intros N Fr X. unfold KInodeSpec.used. rewrite Fr; [reflexivity|]. intros E. apply (proj1 (inode_block_meta sb L n N)). rewrite <- E. apply map_of. exact X.
Qed.

(** C22: Nothing is lost over the life of an inode.  Made, written, read and dropped, it had been free, what is read is
    what was written, and afterwards it is free again, every block is used that was used before and no other, the blocks
    in use have the bytes they had, and the other inodes are as they were. *)
Theorem life_leaves_nothing t data s (G : all_good (disk s)) (Mt : meta_used sb (disk s)) (T : t <> free) (Max : len data <= max_size) (Bytes : Forall is_byte data) :
  match life t data s with
  | Done (n, w, l) s' => 1 <= n < ninodes sb /\ type (on_disk (disk s) n) = free /\ 0 <= w <= len data /\ l = firstn (Z.to_nat w) data /\
      type (on_disk (disk s') n) = free /\
      (forall b, is_data b -> used (disk s') b = used (disk s) b) /\
      (forall b, is_data b -> used (disk s) b = true -> block_at (disk s') b = block_at (disk s) b) /\
      (forall m, 0 <= m < ninodes sb -> m <> n -> on_disk (disk s') m = on_disk (disk s) m)
  | Failed s' => s' = s /\ forall m, 1 <= m < ninodes sb -> type (on_disk (disk s) m) <> free
  | Panicked => False
  end.
Proof.
  unfold life, mbind, m_bind. pose proof (l_inodes _ L) as Li. set (R b := is_data b /\ used (disk s) b = true).
  pose proof (alloc_from_spec t s G (Z.to_nat (ninodes sb) - 1) 1 ltac:(lia) ltac:(lia)) as A. change (Z.to_nat 1) with 1%nat in A. fold (inode_alloc sb t) in A.
  destruct (inode_alloc sb t s) as [n s1|s1|]; [|destruct A as [-> A]; split; [reflexivity|intros m M; apply A; lia]|exact A].
  destruct A as (Bn & F & _ & _ & G1 & Od1 & Fr1). assert (In : 0 <= n < ninodes sb) by lia.
  assert (Odn : on_disk (disk s1) n = fresh t) by (rewrite Od1, Z.eqb_refl by exact In; reflexivity).
  rewrite load_spec, Odn by (rewrite Odn; exact T). set (s2 := St (fresh t) (disk s1) (trace s1)).
  assert (Us : forall x, 0 <= x < size sb -> used (disk s1) x = used (disk s) x) by (intros x X; apply (used_frame n); auto).
  pose proof (l_data _ L) as Ld. assert (Ok : file_ok sb R s2).
  { apply (fresh_ok R s1 t G1); [intros x X; rewrite Us by lia; apply Mt, X|]. intros b. unfold R. split; intros [D U]; (split; [exact D|]); pose proof (data_pos sb L b D); [rewrite Us by lia|rewrite <- Us by lia]; exact U. }
  destruct (write_contents sb L R n 0 data s2 Ok In ltac:(cbn; lia) Max Bytes) as (w & s3 & E3 & Wn & _ & Ok3 & C3 & Od3 & Fr3 & _). rewrite E3.
  assert (C0 : contents s2 = []) by reflexivity. rewrite C0 in C3. unfold splice in C3. cbn [Z.to_nat firstn skipn app] in C3. rewrite skipn_nil in C3.
  rewrite (read_contents sb R s3 0 (len data) Ok3) by (change max_size with 274432 in Max; lia). destruct (discard_spec sb L R n s3 Ok3 In) as (s4 & E4 & U4 & Od4 & _ & _ & Fr4). rewrite E4. unfold mret, m_ret.
  split; [lia|]. split; [exact F|]. split; [exact Wn|]. split; [rewrite C3, app_nil_r; cbn [Z.to_nat firstn skipn app]; apply firstn_all2; rewrite length_firstn; lia|].
  split; [pose proof (Od4 n In) as X; rewrite Z.eqb_refl in X; exact X|].
  assert (Un : forall b, is_data b -> used (disk s4) b = used (disk s) b).
  { intros b D. apply eq_true_iff_eq. rewrite (U4 b D). unfold R. tauto. }
  split; [exact Un|]. split.
  - intros b D U. assert (Rb : R b) by (split; assumption). rewrite Fr4, Fr3 by exact Rb.
    apply Fr1. intros E. apply (proj2 (inode_block_meta sb L n In)). rewrite <- E. exact D.
  - intros m M Nm. pose proof (Od4 m M) as X. rewrite (proj2 (Z.eqb_neq _ _) Nm) in X. rewrite X, Od3, (proj2 (Z.eqb_neq _ _) Nm) by exact M. cbn [s2 disk].
    rewrite Od1, (proj2 (Z.eqb_neq _ _) Nm) by exact M. reflexivity.
Qed.
End Disk.
