(* ===== verification/KInodeCrash.v ===== *)
(** A write to a file and a loss of power: the contents of files (KInode.v) on the disk
    that the log keeps (Fslog.v).  The log sees a block as 256 words of 32 bits. *)

From S2P Require Import Prelude.
From stdpp Require Import base list gmap.
From S2P Require Import Bio Fslog FslogSpec FslogCrash.
From S2P Require Import KInode KInodeSpec KInodeIO KInodeMain.

Local Open Scope Z_scope.

(** * Words and bytes *)

Definition words (b : list Z) : list Z := map (fun k => number_at 4 b (4 * k)) (seq 0 256).
Definition of_words (w : list Z) : list Z := flat_map (le_bytes 4) w.

(** The disk below the log as bytes, and the blocks an operation logs as changes of it. *)
Definition mount (d : gmap Z (list Z)) : gmap Z (list Z) := of_words <$> d.
Definition updates (tr : list (Z * list Z)) : list (Z * (list Z -> list Z)) := map (fun e => (fst e, fun _ => words (snd e))) tr.

Lemma le_bytes_of_le l : Forall is_byte l -> le_bytes (length l) (of_le l) = l.
Proof.
  induction 1 as [|b l B _ IH]; [reflexivity|]. cbn [length le_bytes of_le]. unfold is_byte in B. f_equal.
  - rewrite (Z.mul_comm 256), Z.mod_add by lia. apply Z.mod_small. lia.
  - rewrite (Z.mul_comm 256), Z.div_add by lia. rewrite Z.div_small by lia. exact IH.
Qed.

Lemma words_from m : forall b, length b = (4 * m)%nat -> Forall is_byte b -> of_words (map (fun k => number_at 4 b (4 * k)) (seq 0 m)) = b.
Proof.
  induction m as [|m IH]; intros b Lb B; [destruct b; [reflexivity|discriminate]|]. cbn [seq map of_words flat_map]. rewrite <- seq_shift, map_map.
  rewrite (map_ext _ (fun k => number_at 4 (skipn 4 b) (4 * k))).
  - fold (of_words (map (fun k => number_at 4 (skipn 4 b) (4 * k)) (seq 0 m))). rewrite IH; [|rewrite length_skipn; lia|apply Forall_drop, B].
    unfold number_at. rewrite Nat.mul_0_r, drop_0. assert (L4 : length (firstn 4 b) = 4%nat) by (rewrite length_firstn; lia).
    rewrite <- L4 at 1. rewrite le_bytes_of_le by (apply Forall_take, B). apply take_drop.
  - intros k. unfold number_at. rewrite drop_drop. do 3 f_equal. lia.
Qed.

Lemma words_bytes b : good b -> of_words (words b) = b.
Proof. intros [Lb B]. apply words_from; [rewrite Lb; reflexivity|exact B]. Qed.

Lemma block_mount d n : block_at (mount d) n = of_words (dget d n).
Proof. unfold block_at, mount, dget. rewrite lookup_fmap. destruct (d !! n); reflexivity. Qed.

(** What the log does with the updates is what the trace says, block by block. *)
Lemma updated_replay tr : forall (g : Z -> list Z) d, (forall n, good (block_at d n) -> of_words (g n) = block_at d n) ->
  forall n, good (block_at (replay tr d) n) -> of_words (updated (updates tr) g n) = block_at (replay tr d) n.
Proof.
  induction tr as [|[m b] tr IH]; intros g d Q; [exact Q|]. cbn [updates map updated fst snd]. apply IH. intros n. rewrite block_insert.
  destruct (decide (n = m)) as [->|N]; [rewrite decide_True by reflexivity; apply words_bytes|rewrite decide_False by auto; apply Q].
Qed.

Lemma updates_keys tr : (updates tr).*1 = tr.*1.
Proof. unfold updates. induction tr as [|e tr IH]; [reflexivity|]. cbn. f_equal. exact IH. Qed.

Lemma few_dups (l b : list Z) : (forall x, x ∈ l -> x ∈ b) -> (length (remove_dups l) <= length b)%nat.
Proof. intros Sub. apply NoDup_incl_length; [apply NoDup_ListNoDup, NoDup_remove_dups|]. intros x I. apply list_elem_of_In, Sub. apply elem_of_remove_dups, list_elem_of_In, I. Qed.

(** * The file on a disk *)

Section Disk.
Variable sb : super.
Context (L : laid_out sb).

(** The state of an inode that has just been read from the disk, and its bytes. *)
Definition loaded (inum : Z) (d : gmap Z (list Z)) : KInode.st := KInode.St (on_disk sb d inum) d [].
Definition file_on (inum : Z) (d : gmap Z (list Z)) : list Z := contents (loaded inum d).

Lemma file_on_same R inum d s : sound sb R s -> 0 <= inum < ninodes sb -> on_disk sb (KInode.disk s) inum = di s ->
  (forall n, inodestart sb <= n -> block_at d n = block_at (KInode.disk s) n) -> file_on inum d = contents s.
Proof.
  intros S In Od Same. pose proof (inode_block sb L inum In) as Ib.
  assert (Eo : on_disk sb d inum = di s) by (rewrite <- Od; unfold on_disk; rewrite Same by lia; reflexivity).
  unfold file_on, loaded, contents. cbn [di KInode.disk]. rewrite Eo. pose proof (s_size _ _ _ S) as Sz. apply map_ext_in. intros k K. apply in_seq in K.
  pose proof (start_pos sb L). assert (Ge : forall x, KInodeSpec.is_data sb x -> inodestart sb <= x).
  { intros x [X _]. pose proof (map_count_pos sb L). lia. }
  set (j := 0 + Z.of_nat k). assert (J : 0 <= j < max_size) by lia. pose proof (place_lt _ (index_range j J)) as [P _].
  assert (Sl : forall x, slot d (di s) x = slot (KInode.disk s) (di s) x).
  { intros x. apply slot_same. intros N0. apply Same, Ge. exact (proj1 (indirect_data sb R s S N0)). }
  unfold content. rewrite Sl. destruct (Z.eqb_spec (slot (KInode.disk s) (di s) (place (j / block_size))) 0) as [|N0]; [reflexivity|].
  rewrite Same; [reflexivity|]. apply Ge. exact (proj1 (s_slot _ _ _ S _ P N0)).
Qed.

(** The blocks that a write logs, when the bitmap is one block. *)
Definition logged_blocks (s : KInode.st) (inum off count : Z) : list Z :=
  bmapstart sb :: getInodeBlock sb inum :: map (slot (KInode.disk s) (di s)) (touched off count).

Lemma logged_few s inum off count : 0 <= off -> 0 <= count <= 3 * 1024 -> Z.of_nat (length (logged_blocks s inum off count)) <= 7.
Proof.
  intros O C. unfold logged_blocks, touched. cbn [length]. rewrite length_map. cbn [length]. rewrite length_map, length_seq. change block_size with 1024.
  assert ((off + count - 1) / 1024 - off / 1024 <= 3); [|lia].
  assert ((off + count - 1) / 1024 <= off / 1024 + 3); [|lia]. rewrite <- Z.div_add by lia. apply Z.div_le_mono; lia.
Qed.

Lemma one_map x : size sb <= bitmap_bits_per_block -> KInodeSpec.is_map sb x -> x = bmapstart sb.
Proof.
  intros Small [A B]. pose proof (size_pos sb L). assert (map_count sb < 2); [|lia]. unfold map_count. change bitmap_bits_per_block with 8192 in *.
  apply Z.div_lt_upper_bound; lia.
Qed.

(** C19: A write survives a loss of power, whole or not at all.  One write of [FileSystem.write] is at most three
    blocks long; on a file system whose bitmap is one block (8192 blocks or fewer) it logs at most seven
    different blocks, fewer than an operation may (the 2000 blocks of FSSIZE need one bitmap block).  When it is
    committed the file has the new bytes, on the disk and after every recovery; when power is lost after any
    number of disk writes the disk can be recovered, and either every recovery gives the old bytes and the old inode,
    or every one gives the new. *)
Theorem write_survives_crash dv logstart nlog l s R inum off data
    (Nz : dv <> 0) (Lo : 0 <= logstart) (Hi : logstart + log_size <= inodestart sb) (Nl : max_num_operation_blocks + 1 < nlog < 2 ^ 32) (Qt : quiet dv logstart nlog l s)
    (Ok : file_ok sb R (loaded inum (mount (Bio.disk s)))) (In : 0 <= inum < ninodes sb) (Small : size sb <= bitmap_bits_per_block)
    (Off : 0 <= off <= d_size (on_disk sb (mount (Bio.disk s)) inum)) (Len : len data <= 3 * block_size) (Max : off + len data <= max_size) (Bytes : Forall is_byte data) :
  let old := file_on inum (mount (Bio.disk s)) in
  let old_inode := on_disk sb (mount (Bio.disk s)) inum in
  let holds d f i := file_on inum (mount d) = f /\ on_disk sb (mount d) inum = i in
  let always d f i := forall d2, recovers dv logstart nlog d d2 -> holds d2 f i in
  exists n s1, KInode.write sb inum (from data) off (len data) (loaded inum (mount (Bio.disk s))) = KInode.Done n s1 /\
    let new := splice old (Z.to_nat off) (firstn (Z.to_nat n) data) in
    Z.of_nat (length (remove_dups (trace s1).*1)) <= 7 /\
    match operation l (updates (trace s1)) s with
    | Bio.Done l' s' => quiet dv logstart nlog l' s' /\ holds (Bio.disk s') new (di s1) /\ always (Bio.disk s') new (di s1)
    | Bio.Crashed d => (exists d2, recovers dv logstart nlog d d2) /\ (always d old old_inode \/ always d new (di s1))
    | Bio.Panicked => False
    end.
Proof.
  intros old old_inode holds always. set (s0 := loaded inum (mount (Bio.disk s))) in *.
  destruct (write_contents sb L R inum off data s0 Ok In Off Max Bytes) as (n & s1 & E & Wn & _ & Ok1 & C1 & Od1 & _). exists n, s1. split; [exact E|].
  destruct (write_spec sb L R inum off (len data) (fun a => nth (Z.to_nat a) data 0) (len data) s0 Ok In Off ltac:(lia) Max) as (n' & s1' & E' & W); [intros; apply forall_nth, Bytes|].
  unfold from in E. rewrite E in E'. injection E' as <- <-. destruct W as (_ & _ & _ & _ & _ & _ & _ & _ & (m & Bm & Em & _ & tr & T1 & T2 & T3) & _).
  assert (m = n) as -> by lia. specialize (T3 eq_refl). cbn [s0 loaded trace app] in T1. cbn [s0 loaded KInode.disk] in T3. rewrite T1. intros new.
  assert (Key : forall x, x ∈ tr.*1 -> x ∈ logged_blocks s1 inum off (len data) /\ inodestart sb <= x).
  { intros x I. pose proof (inode_block sb L inum In). pose proof (map_count_pos sb L). unfold logged_blocks. destruct (T2 x I) as [M|[->|(k & K & Lt & Sk & Nx)]].
    - rewrite (one_map x Small M). split; [apply list_elem_of_here|lia].
    - split; [apply list_elem_of_further, list_elem_of_here|lia].
    - split; [apply list_elem_of_further, list_elem_of_further, list_elem_of_In, in_map_iff; exists k; split; [exact Sk|apply list_elem_of_In, K]|].
      destruct (s_slot _ _ _ (f_sound _ _ _ Ok1) k Lt ltac:(congruence)) as [[D _] _]. rewrite Sk in D. lia. }
  assert (Out : forall x, inodestart sb <= x -> ~ in_log logstart x) by (intros x X [_ B]; lia).
  assert (Hi' : logstart + log_size < 2 ^ 32) by (pose proof (inode_block sb L inum In); pose proof (l_data _ L); pose proof (map_count_pos sb L); pose proof (proj2 (l_size _ L)) as Ls; change bitmap_bits_per_block with 8192 in Ls; lia).
  assert (Seven : Z.of_nat (length (remove_dups tr.*1)) <= 7).
  { pose proof (few_dups _ _ (fun x I => proj1 (Key x I))). pose proof (logged_few s1 inum off (len data) (proj1 Off)). change block_size with 1024 in Len. lia. }
  assert (Few : Z.of_nat (length (remove_dups tr.*1)) <= max_num_operation_blocks) by (unfold max_num_operation_blocks; lia).
  split; [exact Seven|].
  pose proof (operation_atomic dv logstart nlog l s (updates tr) Nz Lo Hi' Nl Qt) as A.
  rewrite updates_keys in A. cbn zeta in A.
  assert (Old : forall d, (forall x, ~ in_log logstart x -> dget d x = dget (Bio.disk s) x) -> holds d old old_inode).
  { intros d H. assert (B : forall x, inodestart sb <= x -> block_at (mount d) x = block_at (mount (Bio.disk s)) x) by (intros x X; rewrite !block_mount, H by (apply Out, X); reflexivity).
    split; [exact (file_on_same R inum (mount d) s0 (f_sound _ _ _ Ok) In eq_refl B)|]. unfold old_inode, on_disk. rewrite B by (apply (inode_block sb L inum In)). reflexivity. }
  assert (Odn : on_disk sb (KInode.disk s1) inum = di s1) by (rewrite Od1, Z.eqb_refl by exact In; reflexivity).
  assert (New : forall d, (forall x, ~ in_log logstart x -> dget d x = updated (updates tr) (dget (Bio.disk s)) x) -> holds d new (di s1)).
  { intros d H. assert (B : forall x, inodestart sb <= x -> block_at (mount d) x = block_at (KInode.disk s1) x).
    { intros x X. rewrite block_mount, H, T3 by (apply Out, X). apply updated_replay.
      - intros y _. symmetry. apply block_mount.
      - rewrite <- T3. apply (s_good _ _ _ (f_sound _ _ _ Ok1)). }
    split; [rewrite (file_on_same R inum (mount d) s1 (f_sound _ _ _ Ok1) In Odn B); exact C1|]. rewrite <- Odn. unfold on_disk. rewrite B by (apply (inode_block sb L inum In)). reflexivity. }
  destruct (operation l (updates tr) s) as [l' s'|d|].
  - destruct A as (Q & F & Al); [intros x I; apply Out, Key, I|exact Few|]. split; [exact Q|]. split; [exact (New _ F)|]. intros d2 Rc. exact (New _ (Al d2 Rc)).
  - destruct A as (Ex & Al); [intros x I; apply Out, Key, I|exact Few|]. split; [exact Ex|]. destruct Al as [Al|Al]; [left|right]; intros d2 Rc; [exact (Old _ (Al d2 Rc))|exact (New _ (Al d2 Rc))].
  - apply A; [intros x I; apply Out, Key, I|exact Few].
Qed.
End Disk.
