(* ===== verification/KDir.v ===== *)
(** Directories (directory.zig of src/kernel/filesystem, and the part of [unlink] of
    traps/sysfile.zig that empties an entry): files of 32-byte entries.

    The programs are those of KInode.v, with the inode of the directory locked.  An inode
    is returned by its number: the table of inodes is that of KFile.v. *)

From S2P Require Import Prelude.
From stdpp Require Import base list gmap.
From S2P Require Import KInode KInodeIO KInodeMain.

Local Open Scope Z_scope.

Definition entry_size : Z := 32.
Definition max_name_length : Z := entry_size - 4 - 1.

Record dir_entry : Set := DirEntry { ino : Z; name_length : Z; name_buffer : list Z }.
#[export] Instance dir_entry_eq_dec : EqDecision dir_entry.
Proof. solve_decision. Defined.

(** [name_length] is at most 27 in the directories considered. *)
Definition nameSlice (e : dir_entry) : list Z := firstn (Z.to_nat (name_length e)) (name_buffer e).
Definition matchesName (e : dir_entry) (name : list Z) : bool := bool_decide (name = nameSlice e).

Definition encode_entry (e : dir_entry) : list Z := le_bytes 4 (ino e) ++ [name_length e] ++ name_buffer e.
Definition decode_entry (b : list Z) : dir_entry := DirEntry (number_at 4 b 0) (nth 4 b 0) (firstn 27 (skipn 5 b)).

Section Disk.
Variable sb : super.
Variable inode_number : Z.

(** [inode.read] into an entry, which is in the kernel's memory. *)
Definition read_entry (offset : Z) : M dir_entry :=
  l ← try (read sb (fun _ _ => true) offset entry_size);
  match l with
  | Some l => if len l =? entry_size then mret (decode_entry l) else panic
  | None => panic
  end.

(** [get] is called for the inode of the entry; [entry_offset] is the second result. *)
Fixpoint lookup_from (fuel : nat) (name : list Z) (current_offset : Z) : M (option (Z * Z)) :=
  match fuel with
  | O => mret None
  | S fuel =>
      i ← get_inode;
      if current_offset <? d_size i then
        entry ← read_entry current_offset;
        if ino entry =? 0 then lookup_from fuel name (current_offset + entry_size)
        else if matchesName entry name then mret (Some (ino entry, current_offset))
        else lookup_from fuel name (current_offset + entry_size)
      else mret None
  end.

(** One turn for each entry, and one to see the end. *)
Definition turns_of (i : disk_inode) : nat := Z.to_nat (d_size i / entry_size + 1).
Definition lookupChild (name : list Z) : M (option (Z * Z)) := i ← get_inode; lookup_from (turns_of i) name 0.

(** The offset of the first empty entry, or the end. *)
Fixpoint empty_from (fuel : nat) (current_offset : Z) : M Z :=
  match fuel with
  | O => mret current_offset
  | S fuel =>
      i ← get_inode;
      if current_offset <? d_size i then
        entry ← read_entry current_offset;
        if ino entry =? 0 then mret current_offset else empty_from fuel (current_offset + entry_size)
      else mret current_offset
  end.

(** [@memcpy] is given the 27 bytes of the buffer and a name that may be shorter: what
    the buffer holds after the name, [beyond], is not determined. *)
Definition new_entry (beyond name : list Z) (number : Z) : dir_entry := DirEntry number (len name) (firstn 27 (name ++ beyond)).

Definition linkEntry (beyond name : list Z) (number : Z) : M unit :=
  if max_name_length <? len name then fail
  else
    existing ← lookupChild name;
    match existing with
    | Some _ => fail
    | None =>
        i ← get_inode;
        current_offset ← empty_from (turns_of i) 0;
        written_bytes ← write sb inode_number (from (encode_entry (new_entry beyond name number))) current_offset entry_size;
        if written_bytes =? entry_size then mret tt else fail
    end.

Fixpoint empty_after (fuel : nat) (index : Z) : M bool :=
  match fuel with
  | O => mret true
  | S fuel =>
      i ← get_inode;
      if index * entry_size <? d_size i then
        entry ← read_entry (index * entry_size);
        if negb (ino entry =? 0) then mret false else empty_after fuel (index + 1)
      else mret true
  end.
Definition isEmpty : M bool := i ← get_inode; empty_after (turns_of i) 2.

(** [unlink]: the entry at [offset] is overwritten with an empty one, whose buffer, [undef],
    is not initialised. *)
Definition clear_entry (undef : list Z) (offset : Z) : M unit :=
  writtenBytes ← try (write sb inode_number (from (encode_entry (DirEntry 0 0 (firstn 27 undef)))) offset entry_size);
  match writtenBytes with
  | Some n => if n =? entry_size then mret tt else panic
  | None => panic
  end.
End Disk.
