(* ===== verification/KDirSpec.v ===== *)
(** A directory is a finite map from names to the numbers of inodes; the operations on it, and the map they keep. *)

From S2P Require Import Prelude.
From stdpp Require Import base list gmap.
From S2P Require Import KInode KInodeSpec KInodeIO KInodeMain KDir.

Local Open Scope Z_scope.

(** * The entries of a directory *)

Definition entry_at (c : list Z) (k : nat) : dir_entry := decode_entry (firstn 32 (skipn (32 * k) c)).
Definition entries (c : list Z) : list dir_entry := map (entry_at c) (seq 0 (length c / 32)).

Lemma entries_length c : length (entries c) = (length c / 32)%nat.
Proof. unfold entries. rewrite length_map. apply length_seq. Qed.

Lemma entries_lookup c k : entries c !! k = if (k <? length c / 32)%nat then Some (entry_at c k) else None.
Proof.
  unfold entries. rewrite list_lookup_fmap. destruct (Nat.ltb_spec k (length c / 32)); [rewrite lookup_seq_lt by assumption; reflexivity|].
  rewrite lookup_seq_ge by assumption. reflexivity.
Qed.

Lemma entries_skip c k : (k < length c / 32)%nat -> skipn k (entries c) = entry_at c k :: skipn (S k) (entries c).
Proof. intros K. apply drop_S. rewrite entries_lookup, (proj2 (Nat.ltb_lt _ _) K). reflexivity. Qed.

Definition entry_fits (e : dir_entry) : Prop := 0 <= ino e < 2 ^ 32 /\ is_byte (name_length e) /\ length (name_buffer e) = 27%nat /\ Forall is_byte (name_buffer e).

Lemma encode_entry_length e : entry_fits e -> length (encode_entry e) = 32%nat.
Proof. intros (_ & _ & L & _). unfold encode_entry. rewrite !length_app, le_bytes_length, L. reflexivity. Qed.

Lemma encode_entry_good e : entry_fits e -> Forall is_byte (encode_entry e).
Proof. intros (_ & B & _ & F). unfold encode_entry. apply Forall_app. split; [apply le_bytes_good|]. apply Forall_cons. auto. Qed.

Lemma decode_encode_entry e : entry_fits e -> decode_entry (encode_entry e) = e.
Proof.
  destruct e as [i n b]. intros (I & _ & L & _). cbn [ino name_length name_buffer] in *. unfold decode_entry, encode_entry. cbn [ino name_length name_buffer].
  pose proof (le_bytes_length 4 i) as L4. f_equal.
  - rewrite number_head by auto. apply of_le_bytes. exact I.
  - rewrite skipn_app, skipn_all2 by lia. rewrite L4. cbn [Nat.sub app skipn]. apply firstn_all2. lia.
Qed.

(** An entry is overwritten, or put at the end. *)
Lemma entries_splice c k e : (length c mod 32 = 0)%nat -> (k <= length c / 32)%nat -> entry_fits e ->
  entries (splice c (32 * k) (encode_entry e)) = if (k <? length c / 32)%nat then <[k := e]> (entries c) else entries c ++ [e].
Proof.
  intros M K F. pose proof (encode_entry_length e F) as Le. pose proof (Nat.div_mod_eq (length c) 32) as Dm. rewrite M in Dm.
  assert (Ls : length (splice c (32 * k) (encode_entry e)) = Nat.max (length c) (32 * k + 32)) by (rewrite splice_grow, Le by lia; reflexivity).
  set (n := (length c / 32)%nat) in *.
  assert (At : forall j, (j < Nat.max n (S k))%nat -> entry_at (splice c (32 * k) (encode_entry e)) j = if (j =? k)%nat then e else entry_at c j).
  { intros j J. unfold entry_at. destruct (Nat.eqb_spec j k) as [->|N].
    - transitivity (decode_entry (encode_entry e)); [f_equal|apply decode_encode_entry, F]. apply (list_eq_nth _ _ 0); [rewrite length_firstn, length_skipn, Ls; lia|].
      intros i I. rewrite length_firstn, length_skipn in I. rewrite nth_firstn, (proj2 (Nat.ltb_lt i 32)), nth_skipn by lia. rewrite splice_grow_nth by lia. rewrite Le.
      rewrite (proj2 (Nat.leb_le _ _)), (proj2 (Nat.ltb_lt _ _)) by lia. cbn [andb]. f_equal. lia.
    - f_equal. apply (list_eq_nth _ _ 0); [rewrite !length_firstn, !length_skipn, Ls; lia|].
      intros i I. rewrite length_firstn, length_skipn in I. rewrite !nth_firstn, (proj2 (Nat.ltb_lt i 32)), !nth_skipn by lia. rewrite splice_grow_nth by lia. rewrite Le.
      destruct (Nat.leb_spec (32 * k) (32 * j + i)), (Nat.ltb_spec (32 * j + i) (32 * k + 32)); cbn [andb]; try reflexivity. lia. }
  assert (Ln : (length (splice c (32 * k) (encode_entry e)) / 32 = Nat.max n (S k))%nat).
  { rewrite Ls. symmetry. apply Nat.div_unique with 0%nat; lia. }
  apply list_eq. intros j. rewrite entries_lookup, Ln. destruct (Nat.ltb_spec k n) as [Lt|Ge].
  - rewrite list_lookup_insert, entries_length. fold n. destruct (Nat.ltb_spec j (Nat.max n (S k))).
    + rewrite At by assumption. destruct (Nat.eqb_spec j k) as [->|N].
      * rewrite decide_True by auto. reflexivity.
      * rewrite decide_False by (intros [? _]; auto). rewrite entries_lookup. fold n. rewrite (proj2 (Nat.ltb_lt j n)) by lia. reflexivity.
    + rewrite decide_False by (intros [<- ?]; lia). rewrite entries_lookup. fold n. rewrite (proj2 (Nat.ltb_ge j n)) by lia. reflexivity.
  - assert (k = n) as -> by lia. destruct (Nat.ltb_spec j (Nat.max n (S n))) as [J|J].
    + rewrite At by assumption. destruct (Nat.eqb_spec j n) as [->|N].
      * rewrite lookup_app_r by (rewrite entries_length; fold n; lia). rewrite entries_length. fold n. rewrite Nat.sub_diag. reflexivity.
      * rewrite lookup_app_l by (rewrite entries_length; fold n; lia). rewrite entries_lookup. fold n. rewrite (proj2 (Nat.ltb_lt j n)) by lia. reflexivity.
    + symmetry. apply lookup_ge_None_2. rewrite length_app, entries_length. fold n. cbn [length]. lia.
Qed.

(** * The map *)

Definition live (e : dir_entry) : bool := negb (ino e =? 0).
Definition names (es : list dir_entry) : gmap (list Z) Z := foldr (fun e m => if live e then <[nameSlice e := ino e]> m else m) ∅ es.

(** No name twice. *)
Definition distinct (es : list dir_entry) : Prop := forall j k e f, es !! j = Some e -> es !! k = Some f -> live e = true -> live f = true -> nameSlice e = nameSlice f -> j = k.

Lemma distinct_cons e es : distinct (e :: es) -> distinct es.
Proof. intros D j k a b J K La Lb E. injection (D (S j) (S k) a b J K La Lb E). auto. Qed.

Lemma names_some es name i : names es !! name = Some i -> exists k e, es !! k = Some e /\ live e = true /\ nameSlice e = name /\ ino e = i.
Proof.
  induction es as [|e es IH]; cbn [names foldr]; [intros H; rewrite lookup_empty in H; discriminate|]. fold (names es). destruct (live e) eqn:Le.
  - rewrite lookup_insert. destruct (decide (nameSlice e = name)) as [E|_].
    + intros H. injection H as <-. exists 0%nat, e. auto.
    + intros H. destruct (IH H) as (k & f & K & R). exists (S k), f. auto.
  - intros H. destruct (IH H) as (k & f & K & R). exists (S k), f. auto.
Qed.

Lemma names_none es name k e : names es !! name = None -> es !! k = Some e -> live e = true -> nameSlice e <> name.
Proof.
  revert k. induction es as [|f es IH]; intros k; cbn [names foldr]; [discriminate|]. fold (names es). intros N K L. destruct k as [|k].
  - injection K as ->. rewrite L in N. intros <-. rewrite lookup_insert_eq in N. discriminate.
  - apply (IH k); [|exact K|exact L]. destruct (live f); [|exact N]. rewrite lookup_insert in N. destruct (decide _); [discriminate|exact N].
Qed.

Lemma names_app es fs : names (es ++ fs) = names es ∪ names fs.
Proof.
  induction es as [|e es IH]; cbn [names foldr app]; [symmetry; apply (left_id_L ∅ (∪))|]. fold (names es) (names (es ++ fs)). rewrite IH.
  destruct (live e); [apply insert_union_l|reflexivity].
Qed.

(** A name that is not there is added, in an empty entry or at the end. *)
Lemma names_insert es k e f : es !! k = Some f -> live f = false -> live e = true -> names es !! nameSlice e = None -> names (<[k := e]> es) = <[nameSlice e := ino e]> (names es).
Proof.
  revert k. induction es as [|x es IH]; intros [|k] K F L N; try discriminate; cbn [names foldr] in *; fold (names es) in *.
  - injection K as ->. change (<[0%nat := e]> (f :: es)) with (e :: es). cbn [names foldr]. fold (names es). rewrite L, F. reflexivity.
  - change (<[S k := e]> (x :: es)) with (x :: <[k := e]> es). cbn [names foldr]. fold (names (<[k := e]> es)). destruct (live x) eqn:Lx.
    + rewrite lookup_insert in N. destruct (decide (nameSlice x = nameSlice e)) as [|Ne]; [discriminate|]. rewrite IH by assumption. apply insert_insert_ne. congruence.
    + apply IH; assumption.
Qed.

Lemma names_snoc es e : live e = true -> names es !! nameSlice e = None -> names (es ++ [e]) = <[nameSlice e := ino e]> (names es).
Proof.
  intros L N. rewrite names_app. cbn [names foldr]. rewrite L. rewrite <- insert_union_r by exact N. f_equal. apply (right_id_L ∅ (∪)).
Qed.

(** The entry of a name is emptied. *)
Lemma names_delete es k e z : distinct es -> es !! k = Some e -> live e = true -> live z = false -> names (<[k := z]> es) = delete (nameSlice e) (names es).
Proof.
  revert k. induction es as [|x es IH]; intros [|k] D K L Lz; try discriminate; cbn [names foldr] in *; fold (names es) in *.
  - injection K as ->. change (<[0%nat := z]> (e :: es)) with (z :: es). cbn [names foldr]. fold (names es). rewrite L, Lz. rewrite delete_insert_eq. symmetry. apply delete_id.
    destruct (names es !! nameSlice e) as [i|] eqn:E; [|reflexivity]. apply names_some in E as (j & f & J & Lf & Nf & _). discriminate (D 0%nat (S j) e f eq_refl J L Lf (eq_sym Nf)).
  - change (<[S k := z]> (x :: es)) with (x :: <[k := z]> es). cbn [names foldr]. fold (names (<[k := z]> es)). rewrite (IH k (distinct_cons _ _ D) K L Lz).
    destruct (live x) eqn:Lx; [|reflexivity]. rewrite delete_insert_ne; [reflexivity|]. intros E. discriminate (D (S k) 0%nat e x K eq_refl L Lx E).
Qed.

Lemma distinct_update es k e : distinct es -> (live e = true -> names es !! nameSlice e = None) -> distinct (<[k := e]> es).
Proof.
  intros D N i j a b I J La Lb E. rewrite list_lookup_insert in I, J. destruct (decide (k = i /\ _)) as [[<- _]|], (decide (k = j /\ _)) as [[<- _]|]; auto.
  - injection I as ->. destruct (names_none es (nameSlice a) j b (N La) J Lb). auto.
  - injection J as ->. destruct (names_none es (nameSlice b) i a (N Lb) I La). auto.
  - exact (D i j a b I J La Lb E).
Qed.

Lemma distinct_snoc es e : distinct es -> names es !! nameSlice e = None -> distinct (es ++ [e]).
Proof.
  intros D N i j a b I J La Lb E. apply lookup_snoc_Some in I as [[Li I]|[-> ->]], J as [[Lj J]|[-> ->]]; auto.
  - exact (D i j a b I J La Lb E).
  - destruct (names_none es (nameSlice b) i a N I La). auto.
  - destruct (names_none es (nameSlice a) j b N J Lb). auto.
Qed.

(** What the loops find in a list of entries whose first is at [off]. *)
Fixpoint find_name (name : list Z) (es : list dir_entry) (off : Z) : option (Z * Z) :=
  match es with
  | [] => None
  | e :: es => if live e && matchesName e name then Some (ino e, off) else find_name name es (off + 32)
  end.
Fixpoint find_empty (es : list dir_entry) (off : Z) : Z :=
  match es with [] => off | e :: es => if live e then find_empty es (off + 32) else off end.

Lemma find_name_spec name : forall es off,
  match find_name name es off with
  | Some (i, o) => names es !! name = Some i /\ exists k e, o = off + 32 * Z.of_nat k /\ es !! k = Some e /\ live e = true /\ nameSlice e = name /\ ino e = i
  | None => names es !! name = None
  end.
Proof.
  induction es as [|e es IH]; intros off; cbn [find_name names foldr]; [apply lookup_empty|]. fold (names es). unfold matchesName. destruct (live e) eqn:L; cbn [andb].
  - destruct (bool_decide_reflect (name = nameSlice e)) as [->|N].
    + split; [apply lookup_insert_eq|]. exists 0%nat, e. split; [lia|auto].
    + specialize (IH (off + 32)). rewrite lookup_insert_ne by auto. destruct (find_name name es (off + 32)) as [[i o]|]; [|exact IH].
      destruct IH as (M & k & f & -> & R). split; [exact M|]. exists (S k), f. split; [lia|exact R].
  - specialize (IH (off + 32)). destruct (find_name name es (off + 32)) as [[i o]|]; [|exact IH].
    destruct IH as (M & k & f & -> & R). split; [exact M|]. exists (S k), f. split; [lia|exact R].
Qed.

Lemma find_empty_spec : forall es off, exists k, find_empty es off = off + 32 * Z.of_nat k /\ (k <= length es)%nat /\ forall e, es !! k = Some e -> live e = false.
Proof.
  induction es as [|e es IH]; intros off; cbn [find_empty].
  - exists 0%nat. split; [lia|]. split; [cbn; lia|discriminate].
  - destruct (live e) eqn:L.
    + destruct (IH (off + 32)) as (k & -> & K & F). exists (S k). split; [lia|]. split; [cbn [length]; lia|exact F].
    + exists 0%nat. split; [lia|]. split; [cbn; lia|]. intros f E. injection E as <-. exact L.
Qed.

Section Disk.
Variable sb : super.
Context (L : laid_out sb).

Definition dir_entries (s : st) : list dir_entry := entries (contents s).

(** A directory: whole entries, no name twice, lengths of names within the buffer. *)
Record dir_ok (R : Z -> Prop) (s : st) : Prop := {
  r_file : file_ok sb R s;
  r_whole : d_size (di s) mod 32 = 0;
  r_distinct : distinct (dir_entries s);
  r_lengths : Forall (fun e => live e = true -> name_length e <= max_name_length) (dir_entries s);
}.

Section Read.
Context (R : Z -> Prop) (s : st) (Ok : dir_ok R s).

Lemma contents_size : len (contents s) = d_size (di s).
Proof. unfold contents. rewrite bytes_length. pose proof (s_size _ _ _ (f_sound _ _ _ (r_file _ _ Ok))). lia. Qed.

Lemma count_eq : d_size (di s) = 32 * Z.of_nat (length (dir_entries s)).
Proof.
  unfold dir_entries. rewrite entries_length, Nat2Z.inj_div, contents_size. pose proof (r_whole _ _ Ok). pose proof (Z.div_mod (d_size (di s)) 32). lia.
Qed.

Lemma read_entry_spec k e : dir_entries s !! k = Some e -> read_entry sb (32 * Z.of_nat k) s = Done e s.
Proof.
  intros K. pose proof (lookup_lt_Some _ _ _ K) as Lt. pose proof count_eq as C. pose proof (s_size _ _ _ (f_sound _ _ _ (r_file _ _ Ok))) as Sz. change max_size with 274432 in Sz.
  unfold dir_entries in K. rewrite entries_lookup in K. destruct (k <? _)%nat; [|discriminate]. injection K as <-.
  unfold read_entry, try, mbind, m_bind. rewrite (read_contents sb R s) by (apply (r_file _ _ Ok) || unfold entry_size; lia). pose proof contents_size.
  change (Z.to_nat entry_size) with 32%nat. rewrite (proj2 (Z.eqb_eq _ _)); [unfold entry_at, mret, m_ret; do 3 f_equal; f_equal; lia|].
  rewrite length_firstn, length_skipn. unfold entry_size. lia.
Qed.

Lemma scan_step k : (d_size (di s) <= 32 * Z.of_nat k /\ skipn k (dir_entries s) = []) \/
  exists e, 32 * Z.of_nat k < d_size (di s) /\ dir_entries s !! k = Some e /\ skipn k (dir_entries s) = e :: skipn (S k) (dir_entries s).
Proof.
  pose proof count_eq as C. destruct (dir_entries s !! k) as [e|] eqn:K.
  - right. exists e. pose proof (lookup_lt_Some _ _ _ K). split; [lia|]. split; [reflexivity|]. apply drop_S, K.
  - left. apply lookup_ge_None in K. split; [lia|]. apply skipn_all2. exact K.
Qed.

Lemma lookup_from_spec name : forall fuel k, (length (dir_entries s) < fuel + k)%nat -> lookup_from sb fuel name (32 * Z.of_nat k) s = Done (find_name name (skipn k (dir_entries s)) (32 * Z.of_nat k)) s.
Proof.
  induction fuel as [|fuel IH]; intros k F; cbn [lookup_from].
  - rewrite skipn_all2 by lia. reflexivity.
  - unfold mbind at 1, m_bind at 1, get_inode. destruct (scan_step k) as [[Ge ->]|(e & Lt & K & ->)].
    + rewrite (proj2 (Z.ltb_ge _ _) Ge). reflexivity.
    + rewrite (proj2 (Z.ltb_lt _ _) Lt). unfold mbind, m_bind. rewrite (read_entry_spec k e K). cbn [find_name]. unfold live.
      replace (32 * Z.of_nat k + entry_size) with (32 * Z.of_nat (S k)) by (unfold entry_size; lia). replace (32 * Z.of_nat k + 32) with (32 * Z.of_nat (S k)) by lia.
      destruct (ino e =? 0); cbn [negb andb]; [apply IH; lia|]. destruct (matchesName e name); [reflexivity|apply IH; lia].
Qed.

Lemma empty_from_spec : forall fuel k, (length (dir_entries s) < fuel + k)%nat -> empty_from sb fuel (32 * Z.of_nat k) s = Done (find_empty (skipn k (dir_entries s)) (32 * Z.of_nat k)) s.
Proof.
  induction fuel as [|fuel IH]; intros k F; cbn [empty_from].
  - rewrite skipn_all2 by lia. reflexivity.
  - unfold mbind at 1, m_bind at 1, get_inode. destruct (scan_step k) as [[Ge ->]|(e & Lt & K & ->)].
    + rewrite (proj2 (Z.ltb_ge _ _) Ge). reflexivity.
    + rewrite (proj2 (Z.ltb_lt _ _) Lt). unfold mbind, m_bind. rewrite (read_entry_spec k e K). cbn [find_empty]. unfold live.
      replace (32 * Z.of_nat k + entry_size) with (32 * Z.of_nat (S k)) by (unfold entry_size; lia). replace (32 * Z.of_nat k + 32) with (32 * Z.of_nat (S k)) by lia.
      destruct (ino e =? 0); cbn [negb]; [reflexivity|apply IH; lia].
Qed.

Lemma empty_after_spec : forall fuel k, (length (dir_entries s) < fuel + k)%nat -> empty_after sb fuel (Z.of_nat k) s = Done (forallb (fun e => negb (live e)) (skipn k (dir_entries s))) s.
Proof.
  induction fuel as [|fuel IH]; intros k F; cbn [empty_after].
  - rewrite skipn_all2 by lia. reflexivity.
  - unfold mbind at 1, m_bind at 1, get_inode. rewrite (Z.mul_comm (Z.of_nat k)). change entry_size with 32. destruct (scan_step k) as [[Ge ->]|(e & Lt & K & ->)].
    + rewrite (proj2 (Z.ltb_ge _ _) Ge). reflexivity.
    + rewrite (proj2 (Z.ltb_lt _ _) Lt). unfold mbind, m_bind. rewrite (read_entry_spec k e K). cbn [forallb]. unfold live at 1.
      replace (Z.of_nat k + 1) with (Z.of_nat (S k)) by lia. destruct (ino e =? 0); cbn [negb andb]; [apply IH; lia|reflexivity].
Qed.

Lemma turns_all : (length (dir_entries s) < turns_of (di s) + 0)%nat.
Proof. unfold turns_of. rewrite count_eq. change entry_size with 32. rewrite Z.mul_comm, Z.div_mul by lia. lia. Qed.

Lemma lookup_spec name : lookupChild sb name s = Done (find_name name (dir_entries s) 0) s.
Proof. exact (lookup_from_spec name _ 0 turns_all). Qed.

Lemma empty_spec : empty_from sb (turns_of (di s)) 0 s = Done (find_empty (dir_entries s) 0) s.
Proof. exact (empty_from_spec _ 0 turns_all). Qed.

Lemma isEmpty_spec : isEmpty sb s = Done (forallb (fun e => negb (live e)) (skipn 2 (dir_entries s))) s.
Proof. apply (empty_after_spec _ 2). pose proof turns_all. lia. Qed.
End Read.

(** ** Writing an entry *)

Lemma from_all data n : n = len data -> from data 0 n = data.
Proof.
  intros ->. unfold from, source. apply (list_eq_nth _ _ 0); [rewrite length_map, length_seq; lia|]. intros k K. rewrite length_map, length_seq in K.
  rewrite (nth_map_seq (fun k => nth (Z.to_nat (0 + Z.of_nat k)) data 0)) by exact K. f_equal. lia.
Qed.

(** What fits into a block is written whole or not at all. *)
Lemma write_one_piece R inum off data s n s' : sound sb R s -> 0 <= off -> off + len data <= max_size -> off mod block_size + len data <= block_size ->
  write sb inum (from data) off (len data) s = Done n s' -> n = len data \/ n = 0 /\ slot (disk s) (di s) (place (off / block_size)) = 0.
Proof.
  intros S O Mx Fit. unfold write, mbind at 1, m_bind at 1, get_inode at 1. destruct (d_size (di s) <? off); [discriminate|]. destruct (2 ^ 32 <=? off + len data); [discriminate|].
  destruct (_ <? off + len data); [discriminate|]. unfold mbind at 1, m_bind at 1.
  assert (W : match write_loop sb (from data) (turns (len data)) (len data) 0 off s with Done w _ => w = len data \/ w = 0 /\ slot (disk s) (di s) (place (off / block_size)) = 0 | _ => True end).
  { replace (turns (len data)) with (Datatypes.S (Z.to_nat (len data / block_size + 1))) by (unfold turns; change block_size with 1024; pose proof (Z.div_pos (len data) 1024 ltac:(lia) ltac:(lia)); lia).
    cbn [write_loop]. destruct (Z.ltb_spec 0 (len data)) as [Lt|]; [|left; lia]. assert (B : 0 <= off < max_size) by lia.
    unfold try, mbind at 1, m_bind at 1. pose proof (getBlock_spec sb L R s (off / block_size) S (index_range off B)) as G.
    pose proof (getBlock_there sb s (off / block_size) (s_len _ _ _ S) (index_range off B)) as Th.
    destruct (getBlock sb (off / block_size) s) as [b s1|s1|]; [| |destruct G].
    2:{ right. split; [reflexivity|]. destruct (Z.eq_dec (slot (disk s) (di s) (place (off / block_size))) 0) as [|N]; [assumption|discriminate (Th N)]. }
    rewrite Z.sub_0_r, Z.min_l, from_all by lia. unfold mbind, m_bind, read_block, poke, log_write. rewrite Z.eqb_refl.
    destruct (Z.to_nat (len data / block_size + 1)) as [|f]; cbn [write_loop]; [left; lia|]. rewrite Z.ltb_irrefl. left. reflexivity. }
  destruct (write_loop sb (from data) _ _ 0 off s) as [w s1|s1|]; [|discriminate|discriminate]. unfold mbind, m_bind, get_inode, set_inode, update, mret, m_ret.
  destruct (_ <? _); cbn; intros E; injection E as <- _; exact W.
Qed.

Lemma write_too_big inum off data s : max_size < off + len data -> write sb inum (from data) off (len data) s = Failed s.
Proof.
  intros Big. unfold write, mbind, m_bind, get_inode. destruct (d_size (di s) <? off); [reflexivity|]. destruct (2 ^ 32 <=? off + len data); [reflexivity|].
  change (block_size * max_file_block_count) with max_size. rewrite (proj2 (Z.ltb_lt _ _) Big). reflexivity.
Qed.

(** What a change of a directory leaves alone: the inodes on the disk and the bytes of other files. *)
Definition others_same (R : Z -> Prop) (inum : Z) (s s' : st) : Prop :=
  (forall m, 0 <= m < ninodes sb -> on_disk sb (disk s') m = if m =? inum then di s' else on_disk sb (disk s) m) /\
  (forall x, R x -> block_at (disk s') x = block_at (disk s) x).

Definition no_room (s s' : st) : Prop := full sb (disk s') \/ max_size < d_size (di s) + 32.

Lemma put_spec R inum k e s : dir_ok R s -> 0 <= inum < ninodes sb -> (k <= length (dir_entries s))%nat -> entry_fits e ->
  match write sb inum (from (encode_entry e)) (32 * Z.of_nat k) 32 s with
  | Done n s' => file_ok sb R s' /\ d_size (di s') mod 32 = 0 /\ others_same R inum s s' /\
      ((n = 32 /\ dir_entries s' = if (k <? length (dir_entries s))%nat then <[k := e]> (dir_entries s) else dir_entries s ++ [e]) \/
       (n = 0 /\ full sb (disk s') /\ dir_entries s' = dir_entries s /\ k = length (dir_entries s)))
  | Failed s' => s' = s /\ max_size < 32 * Z.of_nat k + 32
  | Panicked => False
  end.
Proof.
  intros Ok In K F. pose proof (encode_entry_length e F) as Le. assert (L32 : len (encode_entry e) = 32) by lia. pose proof (count_eq R s Ok) as C. pose proof (r_file _ _ Ok) as Fo.
  destruct (Z.lt_ge_cases max_size (32 * Z.of_nat k + 32)) as [Big|Fits].
  - pose proof (write_too_big inum (32 * Z.of_nat k) (encode_entry e) s) as T. rewrite L32 in T. rewrite T by exact Big. split; [reflexivity|exact Big].
  - destruct (write_contents sb L R inum (32 * Z.of_nat k) (encode_entry e) s Fo In) as (n & s' & E & Wn & En & Ok' & Co & Od & Fr & _ & Sz); [lia|lia|apply encode_entry_good, F|].
    pose proof (write_one_piece R inum (32 * Z.of_nat k) (encode_entry e) s n s' (f_sound _ _ _ Fo)) as One. rewrite L32 in *. rewrite E in *.
    assert (Md : (32 * Z.of_nat k) mod block_size = 32 * (Z.of_nat k mod 32)) by (change block_size with (32 * 32); apply Z.mul_mod_distr_l; lia).
    pose proof (Z.mod_pos_bound (Z.of_nat k) 32 ltac:(lia)). specialize (One ltac:(lia) Fits ltac:(change block_size with 1024 in *; lia) eq_refl).
    split; [exact Ok'|]. split; [|split; [split; [exact Od|exact Fr]|]].
    + rewrite Sz. destruct One as [->|[-> _]].
      2:{ rewrite Z.add_0_r, Z.max_l by lia. apply (r_whole _ _ Ok). }
      rewrite C. replace (Z.max _ _) with (Z.max (Z.of_nat (length (dir_entries s))) (Z.of_nat k + 1) * 32) by lia. apply Z.mod_mul. lia.
    + destruct One as [->|[-> Hole]]; [left|right].
      2:{ split; [reflexivity|]. split; [destruct En as [En|En]; [discriminate|exact En]|]. split.
        - unfold dir_entries. rewrite Co. f_equal. change (firstn (Z.to_nat 0) (encode_entry e)) with (@nil Z). apply splice_nil.
        - destruct (Nat.eq_dec k (length (dir_entries s))) as [|N]; [assumption|]. destruct (f_dense _ _ _ Fo (32 * Z.of_nat k / block_size)); [apply Z.div_pos; [lia|reflexivity]| |exact Hole].
          pose proof (Z.div_mod (32 * Z.of_nat k) block_size ltac:(discriminate)). lia. }
      split; [reflexivity|]. unfold dir_entries at 1. rewrite Co, firstn_all2 by lia. replace (Z.to_nat (32 * Z.of_nat k)) with (32 * k)%nat by lia.
        pose proof (contents_size R s Ok) as Cs. pose proof (r_whole _ _ Ok) as Wh. rewrite <- Cs in Wh. rewrite entries_splice; [|apply Nat2Z.inj; rewrite Nat2Z.inj_mod; exact Wh| |exact F].
        * rewrite <- entries_length. reflexivity.
        * rewrite <- entries_length. exact K.
Qed.
End Disk.
