(* ===== verification/KDirMain.v ===== *)
(** A directory refines a finite map from names to inodes. *)

From S2P Require Import Prelude.
From stdpp Require Import base list gmap.
From S2P Require Import KInode KInodeSpec KInodeIO KInodeMain KDir KDirSpec.

Local Open Scope Z_scope.

(** What the calls of sysfile.zig do with a directory; [Unlink] is what [unlink] does with
    the name it removes. *)
Variant dir_op : Set := Lookup (name : list Z) | Link (name : list Z) (number : Z) | Unlink (name : list Z).
Variant answer : Set := Found (number : option Z) | Changed | Refused.

Section Disk.
Variable sb : super.
Context (L : laid_out sb).
Variable inum : Z.
Context (In : 0 <= inum < ninodes sb).
(** What the memory behind a name and an uninitialised buffer hold. *)
Variable beyond undef : list Z.
Context (Beyond : Forall is_byte beyond /\ 27 <= len beyond) (Undef : Forall is_byte undef /\ 27 <= len undef).

Definition run_op (op : dir_op) : M answer :=
  match op with
  | Lookup name => r ← lookupChild sb name; mret (Found (option_map fst r))
  | Link name number => r ← try (linkEntry sb inum beyond name number); mret (match r with Some _ => Changed | None => Refused end)
  | Unlink name =>
      r ← lookupChild sb name;
      match r with
      | Some (_, offset) => clear_entry sb inum undef offset ;; mret Changed
      | None => mret Refused
      end
  end.

(** The operations on the map.  [full]: there is no place for one more entry. *)
Inductive map_step (full : Prop) (m : gmap (list Z) Z) : dir_op -> answer -> gmap (list Z) Z -> Prop :=
| step_lookup name : map_step full m (Lookup name) (Found (m !! name)) m
| step_link name number : m !! name = None -> len name <= max_name_length -> map_step full m (Link name number) Changed (<[name := number]> m)
| step_long name number : max_name_length < len name -> map_step full m (Link name number) Refused m
| step_exists name number : is_Some (m !! name) -> map_step full m (Link name number) Refused m
| step_full name number : m !! name = None -> full -> map_step full m (Link name number) Refused m
| step_unlink name : is_Some (m !! name) -> map_step full m (Unlink name) Changed (delete name m)
| step_missing name : m !! name = None -> map_step full m (Unlink name) Refused m.

Definition op_ok (op : dir_op) : Prop :=
  match op with Link name number => Forall is_byte name /\ 0 < number < 2 ^ 32 | _ => True end.

Definition table (s : st) : gmap (list Z) Z := names (dir_entries s).

Lemma new_entry_fits name number : len name <= max_name_length -> op_ok (Link name number) -> entry_fits (new_entry beyond name number) /\ nameSlice (new_entry beyond name number) = name /\ live (new_entry beyond name number) = true.
Proof.
  intros Ln [B N]. change max_name_length with 27 in Ln. destruct Beyond as [Bb Lb]. split; [|split].
  - split; cbn [new_entry ino name_length name_buffer]; [lia|]. split; [unfold is_byte; lia|]. split; [rewrite length_firstn, length_app; lia|]. apply Forall_take, Forall_app. auto.
  - unfold nameSlice, new_entry. cbn [name_length name_buffer]. rewrite firstn_firstn, Nat2Z.id, Nat.min_l by lia. rewrite firstn_app, Nat.sub_diag, firstn_O, app_nil_r. apply firstn_all.
  - unfold live, new_entry. cbn [ino]. rewrite (proj2 (Z.eqb_neq _ _)) by lia. reflexivity.
Qed.

Lemma empty_entry_fits : entry_fits (DirEntry 0 0 (firstn 27 undef)).
Proof. destruct Undef as [B U]. split; cbn [ino name_length name_buffer]; [lia|]. split; [unfold is_byte; lia|]. split; [rewrite length_firstn; lia|apply Forall_take, B]. Qed.

(** One entry is put into a directory. *)
Lemma dir_put R k e s s' : dir_ok sb R s -> file_ok sb R s' -> d_size (di s') mod 32 = 0 -> (live e = true -> names (dir_entries s) !! nameSlice e = None) -> (live e = true -> name_length e <= max_name_length) ->
  dir_entries s' = <[k := e]> (dir_entries s) \/ (live e = true /\ dir_entries s' = dir_entries s ++ [e]) -> dir_ok sb R s'.
Proof.
  intros Ok Fo Wh N Ln E. split; [exact Fo|exact Wh| |].
  - destruct E as [->|[Le ->]]; [apply distinct_update; [apply (r_distinct _ _ _ Ok)|exact N]|apply distinct_snoc; [apply (r_distinct _ _ _ Ok)|exact (N Le)]].
  - destruct E as [->|[Le ->]]; [apply Forall_insert; [apply (r_lengths _ _ _ Ok)|exact Ln]|apply Forall_app; split; [apply (r_lengths _ _ _ Ok)|apply Forall_singleton; exact Ln]].
Qed.

Lemma link_spec R name number s : dir_ok sb R s -> op_ok (Link name number) ->
  match linkEntry sb inum beyond name number s with
  | Done _ s' => dir_ok sb R s' /\ table s !! name = None /\ len name <= max_name_length /\ table s' = <[name := number]> (table s) /\ others_same sb R inum s s'
  | Failed s' => dir_ok sb R s' /\ table s' = table s /\ (s' = s \/ others_same sb R inum s s') /\
      (max_name_length < len name \/ is_Some (table s !! name) \/ table s !! name = None /\ no_room sb s s')
  | Panicked => False
  end.
Proof.
  intros Ok Op. unfold linkEntry. destruct (Z.ltb_spec max_name_length (len name)) as [Long|Short]; [cbn; auto|]. unfold mbind at 1, m_bind at 1. rewrite (lookup_spec sb R s Ok).
  pose proof (find_name_spec name (dir_entries s) 0) as Fn. fold (table s) in Fn. destruct (find_name name (dir_entries s) 0) as [[i o]|]; [destruct Fn as [-> _]; cbn; eauto 10|].
  unfold mbind, m_bind, get_inode. rewrite (empty_spec sb R s Ok). destruct (find_empty_spec (dir_entries s) 0) as (k & -> & K & Free). rewrite Z.add_0_l.
  destruct (new_entry_fits name number Short Op) as (F & Nm & Lv). change entry_size with 32. pose proof (put_spec sb L R inum k _ s Ok In K F) as P.
  destruct (write sb inum _ (32 * Z.of_nat k) 32 s) as [n s'|s'|]; [| |exact P].
  - destruct P as (Fo & Wh & Ot & [[-> E]|(-> & Fl & E & _)]).
    + cbn [Z.eqb Pos.eqb mret m_ret]. split; [|split; [exact Fn|split; [exact Short|split; [|exact Ot]]]].
      * apply (dir_put R k (new_entry beyond name number) s s' Ok Fo Wh); [rewrite Nm; intros _; exact Fn|intros _; exact Short|]. destruct (k <? _)%nat; [left|right]; auto.
      * unfold table. rewrite E. destruct (Nat.ltb_spec k (length (dir_entries s))) as [Lt|_].
        -- destruct (lookup_lt_is_Some_2 _ _ Lt) as [f Kf]. rewrite (names_insert _ _ _ f Kf (Free f Kf) Lv) by (rewrite Nm; exact Fn). rewrite Nm. reflexivity.
        -- rewrite names_snoc by (exact Lv || (rewrite Nm; exact Fn)). rewrite Nm. reflexivity.
    + cbn [Z.eqb]. unfold fail. split; [|split; [unfold table; rewrite E; reflexivity|split; [right; exact Ot|right; right; split; [exact Fn|left; exact Fl]]]].
      split; [exact Fo|exact Wh|rewrite E; apply (r_distinct _ _ _ Ok)|rewrite E; apply (r_lengths _ _ _ Ok)].
  - destruct P as [-> Big]. split; [exact Ok|]. split; [reflexivity|]. split; [left; reflexivity|]. right. right. split; [exact Fn|]. right. rewrite (count_eq sb R s Ok). lia.
Qed.

Lemma clear_spec R k e s : dir_ok sb R s -> dir_entries s !! k = Some e -> live e = true ->
  exists s', clear_entry sb inum undef (32 * Z.of_nat k) s = Done tt s' /\ dir_ok sb R s' /\ table s' = delete (nameSlice e) (table s) /\ others_same sb R inum s s'.
Proof.
  intros Ok K Le. pose proof (lookup_lt_Some _ _ _ K) as Lt. unfold clear_entry, try, mbind, m_bind. change entry_size with 32.
  pose proof (put_spec sb L R inum k _ s Ok In ltac:(lia) empty_entry_fits) as P. destruct (write sb inum _ (32 * Z.of_nat k) 32 s) as [n s'|s'|]; [| |destruct P].
  - destruct P as (Fo & Wh & Ot & [[-> E]|(_ & _ & _ & ->)]); [|lia]. exists s'. rewrite (proj2 (Nat.ltb_lt _ _) Lt) in E. split; [reflexivity|]. split; [|split; [|exact Ot]].
    + apply (dir_put R k (DirEntry 0 0 (firstn 27 undef)) s s' Ok Fo Wh); [discriminate|discriminate|left; exact E].
    + unfold table. rewrite E. apply names_delete; [apply (r_distinct _ _ _ Ok)|exact K|exact Le|reflexivity].
  - destruct P as [_ Big]. pose proof (count_eq sb R s Ok) as C. pose proof (s_size _ _ _ (f_sound _ _ _ (r_file _ _ _ Ok))) as Sz. lia.
Qed.

(** C21: A directory is a map.  [lookupChild], [linkEntry] and the removal of a name in [unlink] never panic and act as
    the operations of a finite map from names to inode numbers: a name that is too long or there already is refused, and
    a new one only when there is no block for it or the directory is as long as a file can be.  The directory stays
    well formed, its inode is on the disk, and the other inodes and the blocks of other files are as before. *)
Theorem directory_is_map R op s (Ok : dir_ok sb R s) (Op : op_ok op) :
  exists a s', run_op op s = Done a s' /\ dir_ok sb R s' /\ map_step (no_room sb s s') (table s) op a (table s') /\ (s' = s \/ others_same sb R inum s s').
Proof.
  pose proof (find_name_spec) as Fn. destruct op as [name|name number|name]; unfold run_op, mbind, m_bind.
  - rewrite (lookup_spec sb R s Ok). specialize (Fn name (dir_entries s) 0). exists (Found (table s !! name)), s.
    split; [|split; [exact Ok|split; [constructor|left; reflexivity]]]. unfold table, mret, m_ret.
    destruct (find_name name (dir_entries s) 0) as [[i o]|]; [rewrite (proj1 Fn)|rewrite Fn]; reflexivity.
  - unfold try. pose proof (link_spec R name number s Ok Op) as Lk. destruct (linkEntry sb inum beyond name number s) as [u s'|s'|]; [| |destruct Lk].
    + destruct Lk as (Ok' & N & Ln & E & Ot). exists Changed, s'. split; [reflexivity|]. split; [exact Ok'|]. split; [rewrite E; constructor; assumption|right; exact Ot].
    + destruct Lk as (Ok' & E & Ot & Why). exists Refused, s'. split; [reflexivity|]. split; [exact Ok'|]. split; [rewrite E|exact Ot].
      destruct Why as [Long|[Ex|[N Fl]]]; [apply step_long|apply step_exists|apply step_full]; assumption.
  - rewrite (lookup_spec sb R s Ok). specialize (Fn name (dir_entries s) 0). fold (table s) in Fn. destruct (find_name name (dir_entries s) 0) as [[i o]|].
    + destruct Fn as (M & k & e & -> & K & Le & <- & _). destruct (clear_spec R k e s Ok K Le) as (s' & E & Ok' & Tb & Ot). rewrite Z.add_0_l, E.
      exists Changed, s'. split; [reflexivity|]. split; [exact Ok'|]. split; [rewrite Tb; constructor; eauto|right; exact Ot].
    + exists Refused, s. split; [reflexivity|]. split; [exact Ok|]. split; [constructor; exact Fn|left; reflexivity].
Qed.

Lemma names_dead es : forallb (fun e => negb (live e)) es = true -> names es = ∅.
Proof.
  induction es as [|e es IH]; [reflexivity|]. cbn [forallb names foldr]. fold (names es). intros H. apply andb_prop in H as [D H]. rewrite (IH H). destruct (live e); [discriminate|reflexivity].
Qed.

(** [isEmpty] is right about directories.  In one whose first entries are [.] and [..], it holds exactly
    when these are the only names. *)
Theorem isEmpty_only_dots R s e0 e1 (Ok : dir_ok sb R s) (E0 : dir_entries s !! 0%nat = Some e0) (E1 : dir_entries s !! 1%nat = Some e1)
    (D0 : live e0 = true /\ nameSlice e0 = [46]) (D1 : live e1 = true /\ nameSlice e1 = [46; 46]) :
  exists b, isEmpty sb s = Done b s /\ (b = true <-> dom (table s) = {[ [46]; [46; 46] ]}).
Proof.
  rewrite (isEmpty_spec sb R s Ok). eexists. split; [reflexivity|]. pose proof (r_distinct _ _ _ Ok) as Ds. unfold table.
  destruct (dir_entries s) as [|a [|b es]]; try discriminate. injection E0 as ->. injection E1 as ->. destruct D0 as [L0 N0], D1 as [L1 N1]. cbn [skipn]. split.
  - intros H. cbn [names foldr]. fold (names es). rewrite (names_dead es H), L0, L1, N0, N1, !dom_insert_L, dom_empty_L. set_solver.
  - intros H. apply forallb_forall. intros f If. apply list_elem_of_In, list_elem_of_lookup in If as [k K]. destruct (live f) eqn:Lf; [|reflexivity]. exfalso.
    assert (I : nameSlice f ∈ dom (names (e0 :: e1 :: es))).
    { apply elem_of_dom. destruct (names (e0 :: e1 :: es) !! nameSlice f) eqn:E; [eauto|]. destruct (names_none _ _ (S (S k)) f E K Lf eq_refl). }
    rewrite H in I. apply elem_of_union in I as [I|I]; apply elem_of_singleton in I.
    + discriminate (Ds 0%nat (S (S k)) e0 f eq_refl K L0 Lf ltac:(congruence)).
    + discriminate (Ds 1%nat (S (S k)) e1 f eq_refl K L1 Lf ltac:(congruence)).
Qed.
End Disk.
