(* ===== verification/KInodeRuns.v ===== *)
(** The theorems about files and directories on a disk like the one that
    MakeFilesystemStep.zig makes, with all its files empty. *)

From S2P Require Import Prelude.
From stdpp Require Import base list gmap.
From S2P Require Import Bio BioSpec Fslog FslogSpec FslogCrash.
From S2P Require Import KInode KInodeSpec KInodeIO KInodeMain KInodeLife KInodeCrash KDir KDirSpec KDirMain.

Local Open Scope Z_scope.

(** 2000 blocks, 200 inodes from block 32 on, the bitmap in block 45: the first 46 blocks are used. *)
Definition sb0 : super := Super 2000 200 32 45.
Definition bitmap0 : list Z := repeat 255 5 ++ 63 :: repeat 0 1018.
(** Inode 1 is a directory, inode 2 a file. *)
Definition inodes0 : list Z := splice (splice zero_block 64 (encode (fresh directory))) 128 (encode (fresh file)).
Definition disk0 : gmap Z (list Z) := {[ 32 := inodes0; 45 := bitmap0 ]}.
Definition others0 (b : Z) : Prop := is_data sb0 b /\ used sb0 disk0 b = true.
Definition file0 : KInode.st := KInode.St (fresh file) disk0 [].
Definition dir0 : KInode.st := KInode.St (fresh directory) disk0 [].

Lemma laid_out0 : laid_out sb0.
Proof. split; vm_compute; repeat split; discriminate || reflexivity. Qed.

Lemma good_check (b : list Z) : (length b =? 1024)%nat && forallb (fun x => (0 <=? x) && (x <? 256)) b = true -> good b.
Proof.
  intros H. apply andb_prop in H as [Lb H]. split; [apply Nat.eqb_eq, Lb|]. apply List.Forall_forall. intros x I. rewrite forallb_forall in H.
  specialize (H x I). apply andb_prop in H as [A B]. apply Z.leb_le in A. apply Z.ltb_lt in B. split; assumption.
Qed.

Lemma disk0_good : all_good disk0.
Proof.
  intros n. unfold disk0. rewrite block_insert. destruct (decide (32 = n)); [apply good_check; vm_compute; reflexivity|].
  rewrite <- insert_empty, block_insert. destruct (decide (45 = n)); [apply good_check; vm_compute; reflexivity|apply good_zero].
Qed.

Lemma below (P : Z -> bool) n : forallb P (map Z.of_nat (seq 0 n)) = true -> forall x, 0 <= x < Z.of_nat n -> P x = true.
Proof. intros H x X. rewrite forallb_forall in H. apply H, in_map_iff. exists (Z.to_nat x). split; [lia|]. apply in_seq. lia. Qed.

Lemma disk0_meta : meta_used sb0 disk0.
Proof. intros x X. apply (below (used sb0 disk0) 46); [vm_compute; reflexivity|exact X]. Qed.

Lemma file0_ok : file_ok sb0 others0 file0.
Proof. apply (fresh_ok sb0 others0 file0 file disk0_good disk0_meta). intros b. reflexivity. Qed.

Lemma dir0_ok : dir_ok sb0 others0 dir0.
Proof.
  split; [apply (fresh_ok sb0 others0 dir0 directory disk0_good disk0_meta); intros b; reflexivity|reflexivity| |apply List.Forall_nil].
  intros j k e f J. discriminate J.
Qed.

Lemma small_bytes l : forallb (fun x => (0 <=? x) && (x <? 256)) l = true -> Forall is_byte l.
Proof.
  intros H. apply List.Forall_forall. intros x I. rewrite forallb_forall in H. specialize (H x I). apply andb_prop in H as [A B]. apply Z.leb_le in A. apply Z.ltb_lt in B. split; assumption.
Qed.

Definition hello : list Z := [104; 101; 108; 108; 111].

Lemma file_is_bytes_witness : exists n s', write sb0 2 (from hello) 0 5 file0 = KInode.Done n s' /\ read sb0 (fun _ _ => true) 1 2 s' = KInode.Done [101; 108] s'.
Proof.
  destruct (file_is_bytes sb0 laid_out0 others0 2 0 hello file0 file0_ok) as (n & s' & E & _ & _ & _ & _ & _ & _ & Rd);
    [vm_compute; split; congruence|vm_compute; split; discriminate|vm_compute; discriminate|apply small_bytes; reflexivity|].
  exists n, s'. split; [exact E|]. rewrite Rd by lia. assert (C : contents s' = hello); [|rewrite C; reflexivity].
  assert (Eq : match write sb0 2 (from hello) 0 5 file0 with KInode.Done _ s => contents s = hello | _ => False end) by (vm_compute; reflexivity).
  change 5 with (len hello) in Eq. rewrite E in Eq. exact Eq.
Defined.

(** The file after it was written. *)
Definition file1 : KInode.st := match write sb0 2 (from hello) 0 5 file0 with KInode.Done _ s => s | _ => file0 end.

Lemma file1_is : exists n, write sb0 2 (from hello) 0 5 file0 = KInode.Done n file1 /\ file_ok sb0 others0 file1.
Proof.
  destruct (write_contents sb0 laid_out0 others0 2 0 hello file0 file0_ok) as (n & s' & E & _ & _ & Ok & _);
    [vm_compute; split; congruence|vm_compute; split; discriminate|vm_compute; discriminate|apply small_bytes; reflexivity|].
  exists n. unfold file1. change 5 with (len hello). rewrite E. auto.
Defined.

Lemma file1_bytes : contents file1 = hello /\ d_size (di file1) = 5 /\ used sb0 (KInode.disk file1) 46 = true.
Proof. vm_compute. auto. Defined.

Lemma truncate_gives_back_witness : exists s', truncate sb0 2 file1 = KInode.Done tt s' /\ contents s' = [] /\ used sb0 (KInode.disk s') 46 = false.
Proof.
  destruct file1_is as (n & _ & Ok).
  destruct (truncate_gives_back sb0 laid_out0 others0 2 file1 Ok) as (s' & E & _ & C & U & _); [vm_compute; split; congruence|].
  exists s'. split; [exact E|]. split; [exact C|]. apply not_true_is_false. intros T. apply U in T; [|vm_compute; split; congruence].
  destruct T as [_ T]. vm_compute in T. discriminate.
Defined.

Lemma failed_copy_is_seen_witness : exists s', write sb0 2 (source (fun _ => 33) 2) 1 4 file1 = KInode.Done 0 s' /\ contents s' = [104; 33; 33; 108; 111].
Proof.
  destruct file1_is as (n & _ & Ok). destruct file1_bytes as (C & Sz & _).
  destruct (failed_copy_is_seen sb0 laid_out0 others0 2 1 4 (fun _ => 33) 2 file1 Ok) as (s' & E & _ & _ & Co);
    [vm_compute; split; congruence|intros j; vm_compute; split; congruence|lia|lia|rewrite Sz; lia|vm_compute; discriminate|].
  exists s'. split; [exact E|]. rewrite Co, C. reflexivity.
Defined.

Lemma life_leaves_nothing_witness : exists s', life sb0 file hello file0 = KInode.Done (3, 5, hello) s' /\ type (on_disk sb0 (KInode.disk s') 3) = free.
Proof.
  pose proof (life_leaves_nothing sb0 laid_out0 file hello file0 disk0_good disk0_meta ltac:(discriminate) ltac:(vm_compute; discriminate) (small_bytes hello eq_refl)) as T.
  assert (E : match life sb0 file hello file0 with KInode.Done r _ => r = (3, 5, hello) | _ => False end) by (vm_compute; reflexivity).
  destruct (life sb0 file hello file0) as [r s'|s'|]; [subst r|destruct E|destruct E]. exists s'. split; [reflexivity|]. apply T.
Defined.

(** The same disk below the log, in a machine that loses power after four writes. *)
Definition disk_words : gmap Z (list Z) := {[ 32 := words inodes0; 45 := words bitmap0 ]}.
Definition machine0 : Bio.st := Bio.St disk_words (Some 4%nat) init_array.

Lemma mounted0 n : block_at (mount disk_words) n = block_at disk0 n.
Proof.
  rewrite block_mount. unfold disk_words, disk0, dget. rewrite block_insert, lookup_insert. destruct (decide (32 = n)); [vm_compute; reflexivity|].
  rewrite <- insert_empty, lookup_insert, <- insert_empty, block_insert. destruct (decide (45 = n)); [vm_compute; reflexivity|]. rewrite lookup_empty. vm_compute. reflexivity.
Qed.

Lemma loaded0_ok : exists R, file_ok sb0 R (loaded sb0 2 (mount disk_words)).
Proof.
  assert (G : all_good (mount disk_words)) by (intros n; rewrite mounted0; apply disk0_good).
  assert (Us : forall b, used sb0 (mount disk_words) b = used sb0 disk0 b) by (intros b; unfold used; rewrite mounted0; reflexivity).
  exists (fun b => is_data sb0 b /\ used sb0 (mount disk_words) b = true). unfold loaded.
  assert (Eo : on_disk sb0 (mount disk_words) 2 = fresh file) by (vm_compute; reflexivity). rewrite Eo.
  apply (fresh_ok sb0 _ (KInode.St (fresh file) (mount disk_words) []) file); [exact G|intros x X; rewrite Us; apply disk0_meta, X|reflexivity].
Qed.

Lemma machine0_quiet : quiet 18 2 log_size (Log 2 log_size 0 false 18 (Header 0 (replicate 30 0))) machine0.
Proof.
  split; try reflexivity. split; try reflexivity.
  - apply cinv_init. lia.
  - split; [reflexivity|vm_compute; split; discriminate|]. intros n H. change (n ∈ @nil Z) in H. apply elem_of_nil in H. destruct H.
Qed.

Lemma write_survives_crash_witness : exists n s1 d d2, KInode.write sb0 2 (from hello) 0 (len hello) (loaded sb0 2 (mount disk_words)) = KInode.Done n s1 /\
  operation (Log 2 log_size 0 false 18 (Header 0 (replicate 30 0))) (updates (trace s1)) machine0 = Bio.Crashed d /\
  recovers 18 2 log_size d d2 /\ (file_on sb0 2 (mount d2) = [] \/ file_on sb0 2 (mount d2) = hello).
Proof.
  destruct loaded0_ok as [R Ok].
  destruct (write_survives_crash sb0 laid_out0 18 2 log_size _ machine0 R 2 0 hello ltac:(discriminate) ltac:(discriminate) ltac:(vm_compute; discriminate) ltac:(vm_compute; split; reflexivity)
    machine0_quiet Ok ltac:(vm_compute; split; congruence) ltac:(vm_compute; discriminate) ltac:(vm_compute; split; discriminate) ltac:(vm_compute; discriminate) ltac:(vm_compute; discriminate) (small_bytes hello eq_refl)) as (n & s1 & E & _ & T).
  assert (C : match KInode.write sb0 2 (from hello) 0 (len hello) (loaded sb0 2 (mount disk_words)) with
    | KInode.Done n s1 => n = 5 /\ match operation (Log 2 log_size 0 false 18 (Header 0 (replicate 30 0))) (updates (trace s1)) machine0 with Bio.Crashed _ => True | _ => False end
    | _ => False end) by (vm_compute; auto).
  change (Bio.disk machine0) with disk_words in E, T. rewrite E in C. destruct C as [-> C]. cbn zeta in T.
  assert (Old : file_on sb0 2 (mount disk_words) = []) by (vm_compute; reflexivity). rewrite Old in T.
  destruct (operation _ (updates (trace s1)) machine0) as [l' s'|d|] eqn:Op; [destruct C| |destruct C].
  destruct T as [[d2 Rc] [Al|Al]]; exists 5, s1, d, d2; (split; [exact E|]); (split; [exact Op|]); (split; [exact Rc|]); [left|right]; exact (proj1 (Al d2 Rc)).
Defined.

(** ** Directories *)

Definition rest27 : list Z := repeat 0 27.
Lemma rest27_ok : Forall is_byte rest27 /\ 27 <= len rest27.
Proof. split; [apply small_bytes; reflexivity|vm_compute; discriminate]. Qed.

Lemma link_ok name number : forallb (fun x => (0 <=? x) && (x <? 256)) name = true -> 0 < number < 2 ^ 32 -> op_ok (Link name number).
Proof. intros B N. split; [apply small_bytes, B|exact N]. Qed.

Lemma directory_is_map_witness : exists s', run_op sb0 1 rest27 rest27 (Link hello 2) dir0 = KInode.Done Changed s' /\ table s' = {[ hello := 2 ]}.
Proof.
  destruct (directory_is_map sb0 laid_out0 1 ltac:(vm_compute; split; congruence) rest27 rest27 rest27_ok rest27_ok others0 (Link hello 2) dir0 dir0_ok
    (link_ok hello 2 eq_refl ltac:(lia))) as (a & s' & E & _ & St & _).
  exists s'. assert (C : match run_op sb0 1 rest27 rest27 (Link hello 2) dir0 with KInode.Done Changed _ => True | _ => False end) by (vm_compute; exact I).
  rewrite E in C. destruct a as [n| |]; [destruct C| |destruct C]. split; [exact E|]. inversion St. reflexivity.
Defined.

(** A directory as [create] makes it. *)
Definition dots : KInode.M unit := linkEntry sb0 1 rest27 [46] 1 ≫= fun _ => linkEntry sb0 1 rest27 [46; 46] 1.
Definition dir2 : KInode.st := match dots dir0 with KInode.Done _ s => s | _ => dir0 end.

Lemma dir2_ok : dir_ok sb0 others0 dir2.
Proof.
  pose proof (link_spec sb0 laid_out0 1 ltac:(vm_compute; split; congruence) rest27 rest27 rest27_ok others0) as K.
  assert (C : match dots dir0 with KInode.Done _ _ => True | _ => False end) by (vm_compute; exact I).
  unfold dir2, dots, mbind, m_bind in *. pose proof (K [46] 1 dir0 dir0_ok (link_ok [46] 1 eq_refl ltac:(lia))) as K1.
  destruct (linkEntry sb0 1 rest27 [46] 1 dir0) as [u s1|s1|]; [|destruct C|destruct C].
  pose proof (K [46; 46] 1 s1 (proj1 K1) (link_ok [46; 46] 1 eq_refl ltac:(lia))) as K2.
  destruct (linkEntry sb0 1 rest27 [46; 46] 1 s1) as [u' s2|s2|]; [exact (proj1 K2)|destruct C|destruct C].
Qed.

Lemma isEmpty_only_dots_witness : exists b, isEmpty sb0 dir2 = KInode.Done b dir2 /\ (b = true <-> dom (table dir2) = {[ [46]; [46; 46] ]}).
Proof.
  apply (isEmpty_only_dots sb0 others0 dir2 (new_entry rest27 [46] 1) (new_entry rest27 [46; 46] 1) dir2_ok); [vm_compute; reflexivity|vm_compute; reflexivity|split; reflexivity|split; reflexivity].
Defined.
