(* ===== verification/KConsole.v ===== *)
(** The console: src/kernel/drivers/console.zig, the editing of the line that is typed and the
    processes that read it.

    The handler of the interrupt holds the lock of the buffer to its end; a process in
    [read] holds it from where the call begins, or wakes up, to where it sleeps or
    returns: that stretch is one turn.  The indices are [usize]s that only grow with what
    is typed, and wrap around the buffer when it is used. *)

From S2P Require Import Prelude.
From stdpp Require Import base gmap list.

Local Open Scope Z_scope.

Definition control (char : Z) : Z := char - 64.
Definition console_backspace : Z := 256.
Definition backspace : Z := 8.
Definition delete_char : Z := 127.
Definition input_buf_size : Z := 128.

Record input : Set := Input { data : list Z; readIndex : Z; writeIndex : Z; editIndex : Z }.
Definition new_input (undef : list Z) : input := Input undef 0 0 0.

Definition char_at (b : input) (i : Z) : Z := nth (Z.to_nat (i mod input_buf_size)) (data b) 0.
Definition set_edit (i : Z) (b : input) : input := Input (data b) (readIndex b) (writeIndex b) i.
Definition set_read (i : Z) (b : input) : input := Input (data b) i (writeIndex b) (editIndex b).
Definition commit (b : input) : input := Input (data b) (readIndex b) (editIndex b) (editIndex b).
Definition store (c : Z) (b : input) : input :=
  Input (list_set (data b) (Z.to_nat (editIndex b mod input_buf_size)) c) (readIndex b) (writeIndex b) (editIndex b + 1).

(** The characters sent to the uart. *)
Definition putCharacter (char : Z) : list Z := if char =? console_backspace then [backspace; 32; backspace] else [char].

(** * The interrupt *)

Fixpoint kill_line (fuel : nat) (b : input) : input * list Z :=
  match fuel with
  | O => (b, [])
  | S fuel =>
      if editIndex b =? writeIndex b then (b, [])
      else if char_at b (editIndex b - 1) =? newline then (b, [])
      else let '(b, echo) := kill_line fuel (set_edit (editIndex b - 1) b) in (b, putCharacter console_backspace ++ echo)
  end.

(** The buffer, what is echoed, and whether the readers are woken.  [control 'P'] prints
    the list of processes, which is not part of the console. *)
Definition interrupt (character : Z) (b : input) : input * list Z * bool :=
  if character =? control 80 then (b, [], false)
  else if character =? control 85 then
    let '(b, echo) := kill_line (Z.to_nat (editIndex b - writeIndex b)) b in (b, echo, false)
  else if (character =? delete_char) || (character =? control 72) then
    if editIndex b =? writeIndex b then (b, [], false)
    else (set_edit (editIndex b - 1) b, putCharacter console_backspace, false)
  else if character =? 0 then (b, [], false)
  else if input_buf_size <=? editIndex b - readIndex b then (b, [], false)
  else
    let converted_character := if character =? 13 then newline else character in
    let b := store converted_character b in
    if (converted_character =? newline) || (converted_character =? control 68)
    then (commit b, putCharacter converted_character, true)
    else (b, putCharacter converted_character, false).

(** * Reading *)

Variant outcome : Set :=
| Returned (n : Z)
| ProcessKilled
| Sleeps (charsLeft : Z).

(** [copyOut n c]: whether [c] can be copied to the [n]-th byte of the destination.  The
    third result: what was copied.  A turn consumes a character for each unit of fuel. *)
Fixpoint read_turn (fuel : nat) (copyOut : Z -> Z -> bool) (killed : bool) (target charsLeft : Z) (b : input) : outcome * input * list Z :=
  match fuel with
  | O => (Returned (target - charsLeft), b, [])
  | S fuel =>
      if charsLeft <=? 0 then (Returned (target - charsLeft), b, [])
      else if readIndex b =? writeIndex b then (if killed then ProcessKilled else Sleeps charsLeft, b, [])
      else
        let character := char_at b (readIndex b) in
        let b := set_read (readIndex b + 1) b in
        if character =? control 68 then
          (Returned (target - charsLeft), if charsLeft <? target then set_read (readIndex b - 1) b else b, [])
        else if negb (copyOut (target - charsLeft) character) then (Returned (target - charsLeft), b, [])
        else if character =? newline then (Returned (target - (charsLeft - 1)), b, [character])
        else let '(r, b, got) := read_turn fuel copyOut killed target (charsLeft - 1) b in (r, b, character :: got)
  end.
Definition read_fuel (charsLeft : Z) : nat := S (Z.to_nat charsLeft).

(** * Processes at the console *)

(** A process in [read]: how much it asked for, how much is left, and whether it sleeps. *)
Record reader : Set := Reader { r_target : Z; r_left : Z; r_asleep : bool }.
Record sys : Set := Sys { s_input : input; s_readers : gmap nat reader }.

Definition wake (r : reader) : reader := Reader (r_target r) (r_left r) false.

(** A character arrives; a process calls [read], has its turn, or is killed, which wakes it. *)
Variant event : Set :=
| Typed (character : Z)
| Called (pid : nat) (count : Z)
| Killed (pid : nat)
| Turn (pid : nat) (o : outcome) (got : list Z).

Definition after_turn (pid : nat) (target : Z) (o : outcome) (rs : gmap nat reader) : gmap nat reader :=
  match o with Sleeps n => <[pid := Reader target n true]> rs | _ => delete pid rs end.

Inductive step : sys -> event -> sys -> Prop :=
| s_typed c b rs b' echo woken : 0 <= c < 256 -> interrupt c b = (b', echo, woken) -> step (Sys b rs) (Typed c) (Sys b' (if woken then wake <$> rs else rs))
| s_called pid count b rs : rs !! pid = None -> 0 <= count < 2 ^ 32 -> step (Sys b rs) (Called pid count) (Sys b (<[pid := Reader count count false]> rs))
| s_turn pid copyOut killed target n b rs o b' got : rs !! pid = Some (Reader target n false) ->
    read_turn (read_fuel n) copyOut killed target n b = (o, b', got) -> step (Sys b rs) (Turn pid o got) (Sys b' (after_turn pid target o rs))
| s_killed pid r b rs : rs !! pid = Some r -> step (Sys b rs) (Killed pid) (Sys b (<[pid := wake r]> rs)).

Inductive steps : sys -> list event -> sys -> Prop :=
| steps_refl s : steps s [] s
| steps_next s e s1 t s' : step s e s1 -> steps s1 t s' -> steps s (e :: t) s'.
