(* ===== verification/KConsoleSpec.v ===== *)
(** The console refines an editor of lines. *)

From S2P Require Import Prelude.
From stdpp Require Import base gmap list.
From S2P Require Import KConsole.

Local Open Scope Z_scope.

(** * The editor: what can be read, and the line that is typed *)

Record editor : Set := Editor { ready : list Z; line : list Z }.

Definition erase : list Z := [8; 32; 8].

(** A key is typed: the editor, the echo, and whether a line has been completed. *)
Definition key (c : Z) (ed : editor) : editor * list Z * bool :=
  if c =? 16 then (ed, [], false)
  else if c =? 21 then (Editor (ready ed) [], concat (map (fun _ => erase) (line ed)), false)
  else if (c =? 127) || (c =? 8) then
    match line ed with [] => (ed, [], false) | l => (Editor (ready ed) (removelast l), erase, false) end
  else if (c =? 0) || (128 <=? len (ready ed ++ line ed)) then (ed, [], false)
  else
    let c := if c =? 13 then 10 else c in
    if (c =? 10) || (c =? 4) then (Editor (ready ed ++ line ed ++ [c]) [], [c], true)
    else (Editor (ready ed) (line ed ++ [c]), [c], false).

(** A turn of a reader that wants [n] more characters of [target]: up to the end of a line or to
    control-D, which is kept for the next read unless nothing has been read before it. *)
Fixpoint take_line (copyOut : Z -> Z -> bool) (killed : bool) (target : Z) (n : nat) (cs : list Z) : outcome * list Z * list Z :=
  match n with
  | O => (Returned target, cs, [])
  | S m =>
      match cs with
      | [] => (if killed then ProcessKilled else Sleeps (Z.of_nat n), [], [])
      | c :: cs' =>
          let got := target - Z.of_nat n in
          if c =? 4 then (Returned got, if Z.of_nat n <? target then cs else cs', [])
          else if negb (copyOut got c) then (Returned got, cs', [])
          else if c =? 10 then (Returned (got + 1), cs', [c])
          else let '(r, rest, l) := take_line copyOut killed target m cs' in (r, rest, c :: l)
      end
  end.

(** * The ring *)

Definition seg (b : input) (i j : Z) : list Z := map (fun k => char_at b (i + Z.of_nat k)) (seq 0 (Z.to_nat (j - i))).
#[local] Arguments seg : simpl never.
Definition abs (b : input) : editor := Editor (seg b (readIndex b) (writeIndex b)) (seg b (writeIndex b) (editIndex b)).

Record ok (b : input) : Prop := {
  ok_size : length (data b) = 128%nat;
  ok_read : 0 <= readIndex b <= writeIndex b;
  ok_write : writeIndex b <= editIndex b <= readIndex b + 128;
  ok_line : newline ∉ line (abs b);
}.

Lemma seg_length b i j : i <= j -> len (seg b i j) = j - i.
Proof. intros H. unfold seg. rewrite length_map, length_seq. lia. Qed.

Lemma seg_nil b i : seg b i i = [].
Proof. unfold seg. rewrite Z.sub_diag. reflexivity. Qed.

Lemma seg_cons b i j : i < j -> seg b i j = char_at b i :: seg b (i + 1) j.
Proof.
  intros H. unfold seg. replace (Z.to_nat (j - i)) with (S (Z.to_nat (j - (i + 1)))) by lia. cbn [seq map]. rewrite Z.add_0_r. f_equal.
  rewrite <- seq_shift, map_map. apply map_ext. intros k. f_equal. lia.
Qed.

Lemma seg_snoc b i j : i <= j -> seg b i (j + 1) = seg b i j ++ [char_at b j].
Proof.
  intros H. unfold seg. replace (Z.to_nat (j + 1 - i)) with (Z.to_nat (j - i) + 1)%nat by lia. rewrite seq_app, map_app. cbn [seq map]. do 3 f_equal. lia.
Qed.

Lemma seg_app b i j k : i <= j <= k -> seg b i k = seg b i j ++ seg b j k.
Proof.
  intros H. replace k with (j + Z.of_nat (Z.to_nat (k - j))) by lia. induction (Z.to_nat (k - j)) as [|n IH].
  - rewrite Z.add_0_r, seg_nil, app_nil_r. reflexivity.
  - rewrite Nat2Z.inj_succ, <- Z.add_1_r, Z.add_assoc, !seg_snoc, IH, app_assoc by lia. reflexivity.
Qed.

Lemma seg_data b b' i j : data b' = data b -> seg b' i j = seg b i j.
Proof. intros E. unfold seg, char_at. rewrite E. reflexivity. Qed.

(** A character is stored behind the others. *)
Lemma store_last c b : length (data b) = 128%nat -> char_at (store c b) (editIndex b) = c.
Proof. intros L. unfold char_at, store. cbn [data]. apply nth_set_eq. pose proof (Z.mod_pos_bound (editIndex b) input_buf_size ltac:(reflexivity)). change input_buf_size with 128 in *. lia. Qed.

Lemma store_before c b i j : i <= j <= editIndex b -> editIndex b - i < 128 -> seg (store c b) i j = seg b i j.
Proof.
  intros B Lt. apply map_ext_in. intros k K. apply in_seq in K. unfold char_at, store. cbn [data]. apply nth_set_ne. intros E. change input_buf_size with 128 in E.
  set (x := i + Z.of_nat k) in *. pose proof (Z.mod_pos_bound x 128 ltac:(lia)). pose proof (Z.mod_pos_bound (editIndex b) 128 ltac:(lia)).
  assert (Em : x mod 128 = editIndex b mod 128) by lia. pose proof (Z.div_mod x 128 ltac:(lia)). pose proof (Z.div_mod (editIndex b) 128 ltac:(lia)). lia.
Qed.

Lemma ready_line b : ok b -> len (ready (abs b) ++ line (abs b)) = editIndex b - readIndex b.
Proof. intros [_ R W _]. unfold abs. cbn [ready line]. rewrite <- seg_app, seg_length by lia. reflexivity. Qed.

(** * The keys *)

Lemma kill_line_spec : forall n b, editIndex b - writeIndex b = Z.of_nat n -> newline ∉ seg b (writeIndex b) (editIndex b) ->
  kill_line n b = (set_edit (writeIndex b) b, concat (map (fun _ => erase) (seg b (writeIndex b) (editIndex b)))).
Proof.
  induction n as [|n IH]; intros b E N; cbn [kill_line].
  - destruct b as [d r w e]. cbn [writeIndex editIndex] in *. replace e with w by lia. rewrite seg_nil. reflexivity.
  - rewrite (proj2 (Z.eqb_neq _ _)) by lia. assert (Sp : seg b (writeIndex b) (editIndex b) = seg b (writeIndex b) (editIndex b - 1) ++ [char_at b (editIndex b - 1)]).
    { rewrite <- seg_snoc by lia. f_equal. lia. }
    rewrite Sp in N |- *. rewrite elem_of_app, list_elem_of_singleton in N. rewrite (proj2 (Z.eqb_neq _ _)) by (intros X; apply N; right; symmetry; exact X).
    pose proof (IH (set_edit (editIndex b - 1) b)) as K. cbn [set_edit editIndex writeIndex data readIndex] in K. rewrite (seg_data b) in K by reflexivity.
    rewrite K by (lia || tauto). f_equal. rewrite map_app, concat_app. cbn [map concat]. rewrite app_nil_r.
    change (putCharacter console_backspace) with erase. clear. induction (seg b (writeIndex b) (editIndex b - 1)) as [|x l IH]; cbn [map concat app]; [reflexivity|].
    rewrite <- app_assoc. f_equal. exact IH.
Qed.

Local Ltac parts := unfold abs; cbn [set_edit set_read commit store data readIndex writeIndex editIndex ready line].

(** [interrupt] is [key]. *)
Lemma interrupt_spec c b : ok b -> 0 <= c < 256 -> let '(b', echo, woken) := interrupt c b in ok b' /\ key c (abs b) = (abs b', echo, woken).
Proof.
  intros O C. pose proof O as [Sz Rd Wr Ln]. pose proof (ready_line b O) as RL. unfold interrupt, key. change (control 80) with 16. change (control 85) with 21. change (control 72) with 8. change (control 68) with 4.
  change delete_char with 127. change newline with 10 in *. change input_buf_size with 128. rewrite RL.
  destruct (c =? 16); [auto|]. destruct (c =? 21).
  { rewrite kill_line_spec by (exact Ln || lia). split; [|parts; rewrite seg_nil; reflexivity].
    split; parts; [exact Sz|exact Rd|lia|]. rewrite seg_nil. apply not_elem_of_nil. }
  destruct ((c =? 127) || (c =? 8)).
  { unfold abs in Ln |- *. cbn [ready line] in *. destruct (Z.eqb_spec (editIndex b) (writeIndex b)) as [E|N].
    - rewrite E, seg_nil. split; [exact O|reflexivity].
    - assert (Sp : seg b (writeIndex b) (editIndex b) = seg b (writeIndex b) (editIndex b - 1) ++ [char_at b (editIndex b - 1)]) by (rewrite <- seg_snoc by lia; f_equal; lia).
      split.
      + split; parts; [exact Sz|exact Rd|lia|]. rewrite (seg_data b) by reflexivity. rewrite Sp, elem_of_app in Ln. tauto.
      + parts. rewrite !(seg_data b (set_edit _ b)) by reflexivity. rewrite Sp.
        destruct (seg b (writeIndex b) (editIndex b - 1)) as [|x l]; [reflexivity|]. cbn [app].
        rewrite app_comm_cons, removelast_last. reflexivity. }
  destruct (c =? 0); [auto|]. cbn [orb]. destruct (Z.leb_spec 128 (editIndex b - readIndex b)) as [Full|Room]; [auto|].
  set (c' := if c =? 13 then 10 else c). assert (Last : char_at (store c' b) (editIndex b) = c') by (apply store_last, Sz).
  assert (Rdy : seg (store c' b) (readIndex b) (writeIndex b) = seg b (readIndex b) (writeIndex b)) by (apply store_before; lia).
  assert (Lin : seg (store c' b) (writeIndex b) (editIndex b + 1) = seg b (writeIndex b) (editIndex b) ++ [c']) by (rewrite seg_snoc, store_before, Last by lia; reflexivity).
  assert (Len : length (data (store c' b)) = 128%nat) by (unfold store; cbn [data]; rewrite list_set_length; exact Sz).
  change (line (abs b)) with (seg b (writeIndex b) (editIndex b)) in *.
  assert (Pc : putCharacter c' = [c']) by (unfold putCharacter, console_backspace, c'; destruct (Z.eqb_spec c 13); rewrite (proj2 (Z.eqb_neq _ _)) by lia; reflexivity).
  rewrite Pc. destruct ((c' =? 10) || (c' =? 4)) eqn:End.
  - split.
    + split; parts; [exact Len|lia|lia|]. rewrite seg_nil. apply not_elem_of_nil.
    + parts. rewrite seg_nil, !(seg_data (store c' b) (commit _)) by reflexivity.
      rewrite (seg_app _ _ (writeIndex b) (editIndex b + 1)), Rdy, Lin by lia. reflexivity.
  - apply orb_false_elim in End as [N10 _]. apply Z.eqb_neq in N10. split.
    + split; parts; [exact Len|exact Rd|lia|]. fold (store c' b). rewrite Lin, elem_of_app, list_elem_of_singleton. intros [I|I]; [exact (Ln I)|exact (N10 (eq_sym I))].
    + parts. fold (store c' b). rewrite Rdy, Lin. reflexivity.
Qed.

Lemma read_turn_S fuel copyOut killed target charsLeft b : read_turn (S fuel) copyOut killed target charsLeft b =
  if charsLeft <=? 0 then (Returned (target - charsLeft), b, [])
  else if readIndex b =? writeIndex b then (if killed then ProcessKilled else Sleeps charsLeft, b, [])
  else
    let character := char_at b (readIndex b) in
    let b := set_read (readIndex b + 1) b in
    if character =? control 68 then
      (Returned (target - charsLeft), if charsLeft <? target then set_read (readIndex b - 1) b else b, [])
    else if negb (copyOut (target - charsLeft) character) then (Returned (target - charsLeft), b, [])
    else if character =? newline then (Returned (target - (charsLeft - 1)), b, [character])
    else let '(r, b, got) := read_turn fuel copyOut killed target (charsLeft - 1) b in (r, b, character :: got).
Proof. reflexivity. Qed.

(** [read_turn] is [take_line]. *)
Lemma console_turn_spec copyOut killed target : forall n b, ok b -> Z.of_nat n <= target ->
  let '(o, b', got) := read_turn (S n) copyOut killed target (Z.of_nat n) b in
  ok b' /\ line (abs b') = line (abs b) /\ take_line copyOut killed target n (ready (abs b)) = (o, ready (abs b'), got).
Proof.
  induction n as [|n IH]; intros b O Tg.
  - cbn [read_turn take_line Z.of_nat]. rewrite Z.leb_refl, Z.sub_0_r. auto.
  - rewrite read_turn_S. cbn [take_line]. cbv zeta. pose proof O as [Sz Rd Wr Ln]. rewrite (proj2 (Z.leb_gt _ _)) by lia. unfold abs in Ln |- *. cbn [ready line] in *.
    destruct (Z.eqb_spec (readIndex b) (writeIndex b)) as [E|N].
    + rewrite E, seg_nil. split; [exact O|]. split; reflexivity.
    + rewrite (seg_cons b (readIndex b) (writeIndex b)) by lia. set (c := char_at b (readIndex b)). set (b1 := set_read (readIndex b + 1) b).
      assert (O1 : ok b1) by (split; unfold b1; parts; [exact Sz|lia|lia|exact Ln]).
      change (control 68) with 4. change newline with 10. destruct (c =? 4).
      { destruct (Z.of_nat (S n) <? target).
        - replace (set_read (readIndex b1 - 1) b1) with b by (destruct b; unfold b1, set_read; cbn; f_equal; lia). split; [exact O|]. split; [reflexivity|].
          unfold c. rewrite <- seg_cons by lia. reflexivity.
        - split; [exact O1|]. split; reflexivity. }
      destruct (negb (copyOut (target - Z.of_nat (S n)) c)); [split; [exact O1|split; reflexivity]|].
      destruct (c =? 10); [split; [exact O1|split; [reflexivity|do 3 f_equal; lia]]|].
      replace (Z.of_nat (S n) - 1) with (Z.of_nat n) by lia. specialize (IH b1 O1 ltac:(lia)).
      destruct (read_turn (S n) copyOut killed target (Z.of_nat n) b1) as [[o b'] got]. destruct IH as (O' & Ll & Tk).
      change (ready (abs b1)) with (seg b (readIndex b + 1) (writeIndex b)) in Tk. rewrite Tk. split; [exact O'|]. split; [exact Ll|reflexivity].
Qed.
