(* ===== verification/KConsoleMain.v ===== *)
(** What the console promises: lines are edited as they are typed, read as they were
    completed, and no reader sleeps while there is something to read. *)

From S2P Require Import Prelude.
From stdpp Require Import base gmap list.
From S2P Require Import KConsole KConsoleSpec.

Local Open Scope Z_scope.

(** * The machine of the editor *)

Record esys : Set := ESys { e_editor : editor; e_readers : gmap nat reader }.

Inductive estep : esys -> event -> esys -> Prop :=
| e_typed c ed rs ed' echo woken : key c ed = (ed', echo, woken) -> estep (ESys ed rs) (Typed c) (ESys ed' (if woken then wake <$> rs else rs))
| e_called pid count ed rs : rs !! pid = None -> 0 <= count < 2 ^ 32 -> estep (ESys ed rs) (Called pid count) (ESys ed (<[pid := Reader count count false]> rs))
| e_turn pid copyOut killed target n ed rs o rest got : rs !! pid = Some (Reader target n false) ->
    take_line copyOut killed target (Z.to_nat n) (ready ed) = (o, rest, got) -> estep (ESys ed rs) (Turn pid o got) (ESys (Editor rest (line ed)) (after_turn pid target o rs))
| e_killed pid r ed rs : rs !! pid = Some r -> estep (ESys ed rs) (Killed pid) (ESys ed (<[pid := wake r]> rs)).

Inductive esteps : esys -> list event -> esys -> Prop :=
| esteps_refl s : esteps s [] s
| esteps_next s e s1 t s' : estep s e s1 -> esteps s1 t s' -> esteps s (e :: t) s'.

(** What a machine at the console is like, seen from the editor. *)
Definition view (s : sys) : esys := ESys (abs (s_input s)) (s_readers s).

Definition wants (r : reader) : Prop := 0 <= r_left r <= r_target r.
Record sound (s : sys) : Prop := {
  so_input : ok (s_input s);
  so_readers pid r : s_readers s !! pid = Some r -> wants r;
  so_asleep pid r : s_readers s !! pid = Some r -> r_asleep r = true -> ready (abs (s_input s)) = [];
}.

Lemma key_ready c ed ed' echo : key c ed = (ed', echo, false) -> ready ed' = ready ed.
Proof.
  unfold key. destruct (c =? 16); [congruence|]. destruct (c =? 21); [intros E; injection E as <- _; reflexivity|]. destruct (_ || _); [destruct (line ed); intros E; injection E as <- _; reflexivity|].
  destruct (_ || _); [congruence|]. destruct (_ || _); [discriminate|]. intros E. injection E as <- _. reflexivity.
Qed.

Lemma take_sleeps copyOut killed target : forall n cs o rest got, take_line copyOut killed target n cs = (o, rest, got) ->
  match o with Sleeps m => 0 <= m <= Z.of_nat n /\ rest = [] | _ => True end /\ (cs = [] -> rest = []).
Proof.
  induction n as [|n IH]; intros cs o rest got; cbn [take_line]; [intros E; injection E as <- <- _; auto|].
  destruct cs as [|c cs]; [intros E; injection E as <- <- _; destruct killed; repeat split; auto; lia|].
  destruct (c =? 4); [intros E; injection E as <- _ _; split; [exact I|discriminate]|]. destruct (negb _); [intros E; injection E as <- _ _; split; [exact I|discriminate]|].
  destruct (c =? 10); [intros E; injection E as <- _ _; split; [exact I|discriminate]|].
  destruct (take_line copyOut killed target n cs) as [[o1 rest1] got1] eqn:T. intros E. injection E as <- <- _. destruct (IH cs o1 rest1 got1 T) as [S _]. split; [|discriminate].
  destruct o1; auto. destruct S. split; [lia|assumption].
Qed.

Lemma after_turn_some pid target o rs q r : after_turn pid target o rs !! q = Some r ->
  (q <> pid /\ rs !! q = Some r) \/ exists m, o = Sleeps m /\ r = Reader target m true.
Proof.
  unfold after_turn. destruct o as [n| |m]; rewrite ?lookup_delete, ?lookup_insert; destruct (decide (pid = q)) as [<-|N]; try discriminate; auto.
  intros E. injection E as <-. right. eauto.
Qed.

Lemma step_sound s e s' : step s e s' -> sound s -> sound s' /\ estep (view s) e (view s').
Proof.
  intros St [O W A]. destruct St as [c b rs b' echo woken C Ei|pid count b rs Fr C|pid copyOut killed target n b rs o b' got L T|pid r b rs L]; unfold view; cbn [s_input s_readers] in *.
  - pose proof (interrupt_spec c b O C) as K. rewrite Ei in K. destruct K as [O' K]. split; [|eapply e_typed; exact K]. split; cbn [s_input s_readers]; [exact O'| |].
    + intros pid r. destruct woken; [|apply W]. rewrite lookup_fmap. intros E. apply fmap_Some in E as (r0 & E & ->). exact (W pid r0 E).
    + intros pid r. destruct woken.
      * rewrite lookup_fmap. intros E. apply fmap_Some in E as (r0 & _ & ->). discriminate.
      * intros E As. change (ready (e_editor (ESys (abs b') rs)) = []). cbn [e_editor]. rewrite (key_ready _ _ _ _ K). exact (A pid r E As).
  - split; [|constructor; assumption]. split; cbn [s_input s_readers]; [exact O| |]; intros q r; rewrite lookup_insert; destruct (decide (pid = q)).
    + intros E. injection E as <-. unfold wants. cbn. lia.
    + apply W.
    + intros E. injection E as <-. discriminate.
    + apply A.
  - pose proof (W pid _ L) as Wn. unfold wants in Wn. cbn [r_left r_target] in Wn. pose proof (console_turn_spec copyOut killed target (Z.to_nat n) b O) as R. rewrite Z2Nat.id in R by lia.
    unfold read_fuel in T. rewrite T in R. destruct (R ltac:(lia)) as (O' & Ln & Tk). destruct (take_sleeps _ _ _ _ _ _ _ _ Tk) as [Sl Nil]. split.
    + split; cbn [s_input s_readers]; [exact O'| |]; intros q r E; apply after_turn_some in E as [[N E]|(m & -> & ->)].
      * exact (W q r E).
      * unfold wants. cbn. lia.
      * intros As. exact (Nil (A q r E As)).
      * intros _. apply Sl.
    + replace (abs b') with (Editor (ready (abs b')) (line (abs b))) by (rewrite <- Ln; reflexivity). eapply (e_turn pid copyOut killed target n (abs b)); [exact L|exact Tk].
  - split; [|constructor; assumption]. split; cbn [s_input s_readers]; [exact O| |]; intros q x; rewrite lookup_insert; destruct (decide (pid = q)).
    + intros E. injection E as <-. exact (W pid r L).
    + apply W.
    + intros E. injection E as <-. discriminate.
    + apply A.
Qed.

Lemma steps_sound s t s' : steps s t s' -> sound s -> sound s' /\ esteps (view s) t (view s').
Proof.
  induction 1 as [s|s e s1 t s' St _ IH]; intros S; [split; [exact S|constructor]|]. destruct (step_sound _ _ _ St S) as [S1 E1]. destruct (IH S1) as [S' Es]. split; [exact S'|]. econstructor; eassumption.
Qed.

Definition boot (undef : list Z) : sys := Sys (new_input undef) ∅.

Lemma boot_sound undef : length undef = 128%nat -> sound (boot undef).
Proof.
  intros L. split; cbn [s_input s_readers boot]; [|intros pid r E; rewrite lookup_empty in E; discriminate|intros pid r E; rewrite lookup_empty in E; discriminate].
  split; cbn; [exact L|lia|lia|apply not_elem_of_nil].
Qed.

(** * Theorems *)

(** C25: The console is an editor of lines.  Whatever is typed and however processes read in between, the ring of 128
    bytes behaves as two lists, the characters that can be read and the line that is being typed: erasing
    reaches only the line, Enter and control-D complete it, a read takes what there is up to the end of a line or to a
    control-D, and together the two lists never hold more than the ring. *)
Theorem console_is_line_editor undef t s (Size : length undef = 128%nat) (St : steps (boot undef) t s) :
  esteps (ESys (Editor [] []) ∅) t (ESys (abs (s_input s)) (s_readers s)) /\ len (ready (abs (s_input s)) ++ line (abs (s_input s))) <= 128.
Proof.
  destruct (steps_sound _ _ _ St (boot_sound undef Size)) as [[O _ _] Es]. split; [exact Es|]. rewrite (ready_line _ O). pose proof (ok_write _ O). lia.
Qed.

(** No reader of the console misses a line: whenever a process is asleep in [read] there is nothing to read,
    whatever was typed and whoever else read before. *)
Theorem console_no_lost_wakeup undef t s pid r (Size : length undef = 128%nat) (St : steps (boot undef) t s) (R : s_readers s !! pid = Some r) (A : r_asleep r = true) :
  readIndex (s_input s) = writeIndex (s_input s).
Proof.
  destruct (steps_sound _ _ _ St (boot_sound undef Size)) as [[O _ As] _]. pose proof (As pid r R A) as E. pose proof (ok_read _ O).
  pose proof (seg_length (s_input s) (readIndex (s_input s)) (writeIndex (s_input s)) ltac:(lia)) as L. change (ready (abs (s_input s)) = []) in E. cbn [abs ready] in E. rewrite E in L. cbn [length] in L. lia.
Qed.

(** ** A line, from the keys to the reader *)

Definition type_all (keys : list Z) (b : input) : input := fold_left (fun b c => fst (fst (interrupt c b))) keys b.

(** The line that keys other than Enter and control-D leave. *)
Definition edited (keys : list Z) : list Z :=
  fold_left (fun l c => if (c =? 16) || (c =? 0) then l else if c =? 21 then [] else if (c =? 127) || (c =? 8) then removelast l else l ++ [c]) keys [].

Definition line_key (c : Z) : Prop := 0 <= c < 256 /\ c <> 10 /\ c <> 13 /\ c <> 4.

Lemma removelast_length {A} (l : list A) : (length (removelast l) <= length l)%nat.
Proof. induction l as [|x [|y l] IH]; cbn in *; lia. Qed.

Lemma removelast_in {A} (x : A) l : x ∈ removelast l -> x ∈ l.
Proof.
  induction l as [|y l IH]; [auto|]. destruct l as [|z l]; [intros I; inversion I|]. change (removelast (y :: z :: l)) with (y :: removelast (z :: l)). intros I. apply elem_of_cons in I as [->|I]; [apply list_elem_of_here|apply list_elem_of_further, IH, I].
Qed.

Lemma type_keys : forall keys l b, Forall line_key keys -> ok b -> abs b = Editor [] l -> (length l + length keys < 128)%nat -> (forall x, x ∈ l -> x <> 10 /\ x <> 4) ->
  let b' := type_all keys b in
  let l' := fold_left (fun l c => if (c =? 16) || (c =? 0) then l else if c =? 21 then [] else if (c =? 127) || (c =? 8) then removelast l else l ++ [c]) keys l in
  ok b' /\ abs b' = Editor [] l' /\ (length l' < 128)%nat /\ forall x, x ∈ l' -> x <> 10 /\ x <> 4.
Proof.
  induction keys as [|c keys IH]; intros l b Lk O E Len N; cbn [type_all fold_left length] in *.
  - split; [exact O|]. split; [exact E|]. split; [lia|exact N].
  - inversion Lk as [|x xs (C & N10 & N13 & N4) Lk']; subst. pose proof (interrupt_spec c b O C) as K. destruct (interrupt c b) as [[b1 echo] woken]. destruct K as [O1 K]. cbn [fst].
    remember (abs b1) as e1 eqn:Ab. rewrite E in K. unfold key in K. cbn [ready line app] in K. destruct (Z.eqb_spec c 16) as [->|N16]; cbn [orb].
    { injection K as E1 _ _. apply (IH l b1 Lk' O1); [congruence|lia|exact N]. }
    destruct (Z.eqb_spec c 21) as [->|N21].
    { injection K as E1 _ _. change (21 =? 0) with false. cbv iota. apply (IH [] b1 Lk' O1); [congruence|cbn; lia|intros x I; inversion I]. }
    destruct (Z.eqb_spec c 0) as [->|N0]; [change ((0 =? 127) || (0 =? 8)) with false in K; cbn [orb] in K; injection K as E1 _ _; apply (IH l b1 Lk' O1); [congruence|lia|exact N]|].
    destruct ((c =? 127) || (c =? 8)).
    { apply (IH (removelast l) b1 Lk' O1).
      - destruct l as [|y l]; injection K as E1 _ _; cbn [removelast]; congruence.
      - pose proof (removelast_length l). lia.
      - intros x I. apply N, removelast_in, I. }
    cbn [orb] in K. rewrite (proj2 (Z.leb_gt 128 _)) in K by lia. rewrite (proj2 (Z.eqb_neq c 13)), (proj2 (Z.eqb_neq c 10)), (proj2 (Z.eqb_neq c 4)) in K by assumption.
    cbn [orb] in K. injection K as E1 _ _. apply (IH (l ++ [c]) b1 Lk' O1); [congruence|rewrite length_app; cbn [length]; lia|].
    intros x I. apply elem_of_app in I as [I|I]; [exact (N x I)|]. apply list_elem_of_singleton in I as ->. auto.
Qed.

Lemma take_whole target : forall l n, (forall x, x ∈ l -> x <> 10 /\ x <> 4) -> (length l < n)%nat -> Z.of_nat n <= target ->
  take_line (fun _ _ => true) false target n (l ++ [10]) = (Returned (target - Z.of_nat n + len l + 1), [], l ++ [10]).
Proof.
  induction l as [|c l IH]; intros [|n] N Lt Tg; cbn [length] in Lt; try lia; cbn [app take_line negb].
  - change (10 =? 4) with false. cbn. do 4 f_equal. lia.
  - destruct (N c (list_elem_of_here _ _)) as [N10 N4]. rewrite (proj2 (Z.eqb_neq c 4)), (proj2 (Z.eqb_neq c 10)) by assumption.
    rewrite IH; [|intros x I; apply N, list_elem_of_further, I|lia|lia]. do 4 f_equal. cbn [length]. lia.
Qed.

(** C26: What is typed is what is read.  On an idle console any keys, up to 127, followed by Enter make a line: a read that
    asks for enough returns exactly the characters that remain after the erasing keys have done their work, and the end
    of the line, and leaves the console idle. *)
Theorem typed_line_is_read keys b n enter (O : ok b) (Idle : abs b = Editor [] []) (Keys : Forall line_key keys) (Few : (length keys < 128)%nat)
    (Enter : enter = 10 \/ enter = 13) (Room : len (edited keys) < n) :
  let b1 := type_all (keys ++ [enter]) b in
  exists b2, read_turn (read_fuel n) (fun _ _ => true) false n n b1 = (Returned (len (edited keys) + 1), b2, edited keys ++ [10]) /\ ok b2 /\ abs b2 = Editor [] [].
Proof.
  intros b1. destruct (type_keys keys [] b Keys O Idle ltac:(cbn; lia)) as (Ok & Ek & Lk & Nk); [intros x I; inversion I|]. fold (edited keys) in Ek, Lk, Nk.
  pose proof (interrupt_spec enter (type_all keys b) Ok ltac:(lia)) as K.
  assert (Eb : b1 = fst (fst (interrupt enter (type_all keys b)))) by (unfold b1, type_all; rewrite fold_left_app; reflexivity).
  clearbody b1. destruct (interrupt enter (type_all keys b)) as [[b' echo] woken]. cbn [fst] in Eb. subst b'. destruct K as [O1 K]. remember (abs b1) as e1 eqn:Ab.
  assert (E1 : e1 = Editor (edited keys ++ [10]) []).
  { rewrite Ek in K. unfold key in K. cbn [ready line app] in K. rewrite (proj2 (Z.leb_gt 128 _)) in K by lia. destruct Enter as [->| ->]; cbn in K; congruence. }
  rewrite Ab in E1. clear Ab K.
  pose proof (console_turn_spec (fun _ _ => true) false n (Z.to_nat n) b1 O1) as R. rewrite Z2Nat.id in R by lia. unfold read_fuel.
  destruct (read_turn (S (Z.to_nat n)) (fun _ _ => true) false n n b1) as [[o b2] got]. destruct (R ltac:(lia)) as (O2 & L2 & T). rewrite E1 in L2, T. remember (abs b2) as e2 eqn:A2. cbn [ready line] in L2, T.
  rewrite take_whole in T by (exact Nk || lia). injection T as <- Rd <-. exists b2. split; [|split; [exact O2|]].
  - do 3 f_equal. lia.
  - destruct e2 as [r l]. cbn [ready line] in *. congruence.
Qed.

(** ** A line that fills the ring *)

Definition erasing (c : Z) : Prop := c = 21 \/ c = 127 \/ c = 8.

Lemma full_key c ed : ready ed = [] -> len (line ed) = 128 -> ~ erasing c -> key c ed = (ed, [], false).
Proof.
  intros R L N. unfold key, erasing in *. rewrite R. cbn [app]. rewrite (proj2 (Z.eqb_neq c 21)), (proj2 (Z.eqb_neq c 127)), (proj2 (Z.eqb_neq c 8)) by lia. cbn [orb].
  rewrite (proj2 (Z.leb_le 128 _)), orb_true_r by lia. destruct (c =? 16); reflexivity.
Qed.

Lemma full_esteps s t s' : esteps s t s' -> ready (e_editor s) = [] -> len (line (e_editor s)) = 128 -> (forall c, Typed c ∈ t -> ~ erasing c) ->
  e_editor s' = e_editor s /\ forall pid o got, Turn pid o got ∈ t -> got = [].
Proof.
  induction 1 as [s|s e s1 t s' St _ IH]; intros R L N; [split; [reflexivity|intros pid o got I; inversion I]|].
  assert (E1 : e_editor s1 = e_editor s /\ forall pid o got, e = Turn pid o got -> got = []).
  { destruct St as [c ed rs ed' echo woken K|pid count ed rs Fr C|pid copyOut killed target n ed rs o rest got Lk T|pid r ed rs Lk]; cbn [e_editor] in *; try (split; [reflexivity|discriminate]).
    - rewrite (full_key c ed R L) in K by (apply N, list_elem_of_here). injection K as <- _ _. split; [reflexivity|discriminate].
    - rewrite R in T. destruct (Z.to_nat n) as [|k]; cbn [take_line] in T; injection T as _ <- <-; (split; [destruct ed; cbn in *; congruence|]); intros q o' got' E; injection E as _ _ <-; reflexivity. }
  destruct E1 as [E1 G1]. rewrite <- E1 in R, L. destruct (IH R L (fun c I => N c (list_elem_of_further _ _ _ I))) as [Es G]. split; [congruence|].
  intros pid o got I. apply elem_of_cons in I as [I|I]; [exact (G1 pid o got (eq_sym I))|exact (G pid o got I)].
Qed.

(** C27: A line that fills the ring can never be entered.  Once 128 characters have been typed without an end of line, every
    key but the three that erase is dropped, Enter and control-D with the others: until one of the three is used
    the line stays as it is and no read delivers anything. *)
Theorem full_line_is_stuck undef t s t' s' (Size : length undef = 128%nat) (St : steps (boot undef) t s) (Nothing : ready (abs (s_input s)) = []) (Full : len (line (abs (s_input s))) = 128)
    (St' : steps s t' s') (Keys : forall c, Typed c ∈ t' -> ~ erasing c) :
  abs (s_input s') = abs (s_input s) /\ forall pid o got, Turn pid o got ∈ t' -> got = [].
Proof.
  destruct (steps_sound _ _ _ St (boot_sound undef Size)) as [So _]. destruct (steps_sound _ _ _ St' So) as [_ Es].
  exact (full_esteps _ _ _ Es Nothing Full Keys).
Qed.

(** * Witnesses *)

Definition zeros : list Z := repeat 0 128.

Lemma typed_steps keys : forall b, Forall (fun c => 0 <= c < 256) keys -> steps (Sys b ∅) (map Typed keys) (Sys (type_all keys b) ∅).
Proof.
  induction keys as [|c keys IH]; intros b F; cbn [map type_all fold_left]; [constructor|]. inversion F as [|x xs C F']; subst.
  destruct (interrupt c b) as [[b1 echo] woken] eqn:E. econstructor; [eapply s_typed; [exact C|exact E]|].
  assert (Em : (if woken then wake <$> (∅ : gmap nat reader) else ∅) = ∅) by (destruct woken; [apply fmap_empty|reflexivity]). rewrite Em. exact (IH b1 F').
Qed.

Definition greeting : list Z := [104; 105; 120; 8; 13].

Lemma greeting_typed : steps (boot zeros) (map Typed greeting) (Sys (type_all greeting (new_input zeros)) ∅).
Proof. apply typed_steps. repeat constructor; lia. Qed.

Lemma console_is_line_editor_witness : esteps (ESys (Editor [] []) ∅) (map Typed greeting) (ESys (Editor [104; 105; 10] []) ∅).
Proof. exact (proj1 (console_is_line_editor zeros _ _ eq_refl greeting_typed)). Defined.

(** A process asks for input and goes to sleep. *)
Definition waiting : sys := Sys (new_input zeros) (<[7%nat := Reader 20 20 true]> (<[7%nat := Reader 20 20 false]> ∅)).

Lemma waiting_reached : steps (boot zeros) [Called 7 20; Turn 7 (Sleeps 20) []] waiting.
Proof.
  econstructor; [apply s_called; [reflexivity|lia]|]. econstructor; [|constructor].
  apply (s_turn 7 (fun _ _ => true) false 20 20 _ _ (Sleeps 20)); reflexivity.
Qed.

Lemma console_no_lost_wakeup_witness : readIndex (s_input waiting) = writeIndex (s_input waiting).
Proof. exact (console_no_lost_wakeup zeros _ waiting 7 (Reader 20 20 true) eq_refl waiting_reached eq_refl eq_refl). Defined.

Lemma typed_line_is_read_witness : exists b2, read_turn (read_fuel 10) (fun _ _ => true) false 10 10 (type_all greeting (new_input zeros)) = (Returned 3, b2, [104; 105; 10]).
Proof.
  destruct (typed_line_is_read [104; 105; 120; 8] (new_input zeros) 10 13) as (b2 & E & _).
  - exact (so_input _ (boot_sound zeros eq_refl)).
  - reflexivity.
  - repeat constructor; lia.
  - cbn. lia.
  - right. reflexivity.
  - cbn. lia.
  - exists b2. exact E.
Defined.

Definition long_line : list Z := repeat 97 128.

Lemma full_line_is_stuck_witness : exists s t', steps (boot zeros) (map Typed long_line) s /\ t' = map Typed [13; 10; 4; 98] /\
  abs (type_all [13; 10; 4; 98] (s_input s)) = abs (s_input s) /\ len (line (abs (s_input s))) = 128.
Proof.
  assert (F : Forall (fun c => 0 <= c < 256) long_line) by (apply List.Forall_forall; intros c I; apply repeat_spec in I as ->; lia).
  pose proof (typed_steps long_line (new_input zeros) F) as St.
  assert (N : ready (abs (type_all long_line (new_input zeros))) = []) by (vm_compute; reflexivity).
  assert (L : len (line (abs (type_all long_line (new_input zeros)))) = 128) by (vm_compute; reflexivity).
  assert (G : Forall (fun c => 0 <= c < 256) [13; 10; 4; 98]) by (repeat constructor; lia).
  generalize dependent (type_all long_line (new_input zeros)). intros b St N L.
  exists (Sys b ∅), (map Typed [13; 10; 4; 98]). split; [exact St|]. split; [reflexivity|]. split; [|exact L].
  destruct (full_line_is_stuck zeros _ (Sys b ∅) _ _ eq_refl St N L (typed_steps _ b G)) as [E _]; [|exact E].
  intros c I. unfold erasing. cbn [map] in I. repeat (apply elem_of_cons in I as [I|I]; [injection I as ->; lia|]). inversion I.
Defined.
