(* ===== verification/KLock.v ===== *)
(** Locks: src/kernel/concurrency, interrupts.zig, spinlock.zig and sleeplock.zig.

    Several processors run at once.  Each access to the memory they share is one step; what
    a processor does to its own registers and its own entry of the table of processors is
    part of the step before it, since nobody else sees it.  [isHolding] reads two fields: the
    second can be that of the processor that reads it only if it wrote it itself, so
    that the two reads are one step.  The programs that use the locks are not
    given: a processor may call what it likes, with [held] and [pushes], which
    are not in the code, recording what it has acquired and pushed and not yet given
    back. *)

From S2P Require Import Prelude.
From stdpp Require Import base list.

Local Open Scope Z_scope.

(** * Interrupts (interrupts.zig, cpu.zig) *)

Record cpu : Set := Cpu { sie : bool; pushDepth : Z; interruptsEnabled : bool }.

Definition enable (c : cpu) : cpu := Cpu true (pushDepth c) (interruptsEnabled c).
Definition disable (c : cpu) : cpu := Cpu false (pushDepth c) (interruptsEnabled c).
Definition isEnabled (c : cpu) : bool := sie c.

Definition pushOff (c : cpu) : cpu :=
  let previousInterruptState := isEnabled c in
  let c := disable c in
  let c := if pushDepth c =? 0 then Cpu (sie c) (pushDepth c) previousInterruptState else c in
  Cpu (sie c) (pushDepth c + 1) (interruptsEnabled c).

(** [None]: a panic. *)
Definition popOff (c : cpu) : option cpu :=
  if isEnabled c then None
  else if pushDepth c <? 1 then None
  else
    let c := Cpu (sie c) (pushDepth c - 1) (interruptsEnabled c) in
    Some (if (pushDepth c =? 0) && interruptsEnabled c then enable c else c).

(** * Spin locks (spinlock.zig) *)

Record spinlock : Set := SpinLock { isLocked : bool; lock_cpu : option nat }.
Definition free_lock : spinlock := SpinLock false None.
Definition isHolding (c : nat) (l : spinlock) : bool := isLocked l && bool_decide (lock_cpu l = Some c).

(** Where a processor is in a call; the number is that of the lock. *)
Variant place : Set :=
| Outside
| AcquireChecks (l : nat) | AcquireSpins (l : nat) | AcquireSets (l : nat)
| ReleaseChecks (l : nat) | ReleaseClears (l : nat) | ReleaseStores (l : nat).

Record core : Set := Core { co_cpu : cpu; co_place : place; co_held : list nat; co_pushes : Z; co_wants : bool }.

Definition upd {A} (f : nat -> A) (k : nat) (v : A) : nat -> A := fun x => if decide (x = k) then v else f x.

Record machine : Set := Machine { cores : nat -> core; locks : nat -> spinlock }.
Definition at_place (p : place) (x : core) : core := Core (co_cpu x) p (co_held x) (co_pushes x) (co_wants x).
Definition on_cpu (c : cpu) (x : core) : core := Core c (co_place x) (co_held x) (co_pushes x) (co_wants x).

(** The calls of a processor that is in none: [acquire] of any lock, [release] of one it has
    acquired, [pushOff], as many [popOff]s, and the flag of interrupts itself while
    nothing is pushed.  [co_wants] is what the flag was set to. *)
Variant call : Set := Acquire (l : nat) | Release (l : nat) | Push | Pop | SetInterrupts (on : bool).

Definition removed (l : nat) (ls : list nat) : list nat := filter (fun x => negb (x =? l)%nat) ls.

Definition begins (k : call) (x : core) : option core :=
  match k with
  | Acquire l => Some (Core (pushOff (co_cpu x)) (AcquireChecks l) (co_held x) (co_pushes x) (co_wants x))
  | Release l => if decide (l ∈ co_held x) then Some (at_place (ReleaseChecks l) x) else None
  | Push => Some (Core (pushOff (co_cpu x)) Outside (co_held x) (co_pushes x + 1) (co_wants x))
  | Pop =>
      if 0 <? co_pushes x then
        match popOff (co_cpu x) with
        | Some c => Some (Core c Outside (co_held x) (co_pushes x - 1) (co_wants x))
        | None => None
        end
      else None
  | SetInterrupts on => if pushDepth (co_cpu x) =? 0 then Some (Core ((if on then enable else disable) (co_cpu x)) Outside (co_held x) (co_pushes x) on) else None
  end.

(** One step of processor [c] in a call: the processor and the lock after it; [None]: a panic. *)
Definition advances (c : nat) (x : core) (lk : nat -> spinlock) : option (core * (nat -> spinlock)) :=
  match co_place x with
  | Outside => Some (x, lk)
  | AcquireChecks l => if isHolding c (lk l) then None else Some (at_place (AcquireSpins l) x, lk)
  | AcquireSpins l =>
      Some (if isLocked (lk l) then x else at_place (AcquireSets l) x, upd lk l (SpinLock true (lock_cpu (lk l))))
  | AcquireSets l => Some (Core (co_cpu x) Outside (l :: co_held x) (co_pushes x) (co_wants x), upd lk l (SpinLock (isLocked (lk l)) (Some c)))
  | ReleaseChecks l => if isHolding c (lk l) then Some (at_place (ReleaseClears l) x, lk) else None
  | ReleaseClears l => Some (at_place (ReleaseStores l) x, upd lk l (SpinLock (isLocked (lk l)) None))
  | ReleaseStores l =>
      match popOff (co_cpu x) with
      | Some p => Some (Core p Outside (removed l (co_held x)) (co_pushes x) (co_wants x), upd lk l (SpinLock false (lock_cpu (lk l))))
      | None => None
      end
  end.

Inductive step : machine -> machine -> Prop :=
| m_call c k m x : co_place (cores m c) = Outside -> begins k (cores m c) = Some x -> step m (Machine (upd (cores m) c x) (locks m))
| m_advance c m x lk : co_place (cores m c) <> Outside -> advances c (cores m c) (locks m) = Some (x, lk) -> step m (Machine (upd (cores m) c x) lk).

Definition fresh_core (on : bool) : core := Core (Cpu on 0 false) Outside [] 0 on.
Definition start (on : nat -> bool) : machine := Machine (fun c => fresh_core (on c)) (fun _ => free_lock).

Inductive reach (on : nat -> bool) : machine -> Prop :=
| reach_start : reach on (start on)
| reach_step m m' : reach on m -> step m m' -> reach on m'.
