(* ===== verification/KLockSpec.v ===== *)
(** Spin locks exclude each other, and give the interrupts back as they were. *)

From S2P Require Import Prelude.
From stdpp Require Import base list.
From S2P Require Import KLock.

Local Open Scope Z_scope.

(** * One processor *)

Definition acquiring (p : place) : Z := match p with AcquireChecks _ | AcquireSpins _ | AcquireSets _ => 1 | _ => 0 end.

Record cpu_ok (c : cpu) (n : Z) (wants : bool) : Prop := {
  p_depth : pushDepth c = n;
  p_pos : 0 <= n;
  p_off : 0 < n -> sie c = false /\ interruptsEnabled c = wants;
  p_on : n = 0 -> sie c = wants;
}.

Lemma pushOff_ok c n w : cpu_ok c n w -> cpu_ok (pushOff c) (n + 1) w.
Proof.
  intros [D P O N]. unfold pushOff, disable, isEnabled. cbn [pushDepth sie interruptsEnabled]. destruct (Z.eqb_spec (pushDepth c) 0) as [E|E]; split; cbn [pushDepth sie interruptsEnabled]; try lia.
  - intros _. split; [reflexivity|]. apply N. lia.
  - intros _. split; [reflexivity|]. apply O. lia.
Qed.

Lemma popOff_ok c n w : cpu_ok c n w -> 0 < n -> exists c', popOff c = Some c' /\ cpu_ok c' (n - 1) w.
Proof.
  intros [D P O N] Pos. destruct (O Pos) as [S I]. unfold popOff, isEnabled. rewrite S, (proj2 (Z.ltb_ge _ 1)) by lia. cbn [pushDepth sie interruptsEnabled]. eexists. split; [reflexivity|].
  destruct (Z.eqb_spec (pushDepth c - 1) 0) as [E|E]; cbn [andb].
  - split; [destruct (interruptsEnabled c); cbn; lia|lia|lia|]. intros _. destruct (interruptsEnabled c) eqn:Ie; cbn; congruence.
  - split; cbn; [lia|lia|auto|lia].
Qed.

Record core_ok (x : core) : Prop := {
  c_cpu : cpu_ok (co_cpu x) (len (co_held x) + co_pushes x + acquiring (co_place x)) (co_wants x);
  c_pushes : 0 <= co_pushes x;
  c_nodup : NoDup (co_held x);
  c_acquire l : co_place x = AcquireSpins l \/ co_place x = AcquireSets l -> l ∉ co_held x;
  c_release l : co_place x = ReleaseChecks l \/ co_place x = ReleaseClears l \/ co_place x = ReleaseStores l -> l ∈ co_held x;
}.

Lemma removed_in l k ls : k ∈ removed l ls <-> k ∈ ls /\ k <> l.
Proof. unfold removed. rewrite list_elem_of_filter. rewrite negb_True, Is_true_true, Nat.eqb_eq. tauto. Qed.

Lemma removed_nodup l ls : NoDup ls -> NoDup (removed l ls).
Proof. apply NoDup_filter. Qed.

Lemma removed_all l ls : l ∉ ls -> removed l ls = ls.
Proof.
  induction ls as [|k ls IH]; [reflexivity|]. intros N. apply not_elem_of_cons in N as [Nk N]. unfold removed in *. rewrite filter_cons_True; [f_equal; exact (IH N)|].
  rewrite negb_True, Is_true_true, Nat.eqb_eq. auto.
Qed.

Lemma removed_length l ls : NoDup ls -> l ∈ ls -> len (removed l ls) = len ls - 1.
Proof.
  induction ls as [|k ls IH]; intros N I; [inversion I|]. apply NoDup_cons in N as [Nk N]. unfold removed in *. destruct (Nat.eqb_spec k l) as [->|Ne].
  - rewrite filter_cons_False by (rewrite Nat.eqb_refl; auto). fold (removed l ls). rewrite removed_all by exact Nk. cbn [length]. lia.
  - apply elem_of_cons in I as [<-|I]; [destruct (Ne eq_refl)|]. rewrite filter_cons_True by (rewrite (proj2 (Nat.eqb_neq _ _) Ne); exact Logic.I). cbn [length]. specialize (IH N I). lia.
Qed.

Lemma begins_ok k x x' : core_ok x -> co_place x = Outside -> begins k x = Some x' -> core_ok x' /\ co_held x' = co_held x /\
  match k with Acquire l => co_place x' = AcquireChecks l | Release l => co_place x' = ReleaseChecks l | _ => co_place x' = Outside end.
Proof.
  intros [C P N A R] Out E. rewrite Out in C. cbn [acquiring] in C. rewrite Z.add_0_r in C. destruct k as [l|l| | |on]; cbn [begins] in E.
  - injection E as <-. split; [|auto]. split; cbn; [apply pushOff_ok, C|exact P|exact N|intros l' [?|?]; discriminate|intros l' [?|[?|?]]; discriminate].
  - destruct (decide _) as [I|]; [|discriminate]. injection E as <-. split; [|auto]. split; cbn; [rewrite Z.add_0_r; exact C|exact P|exact N|intros l' [?|?]; discriminate|intros l' [H|[?|?]]; [injection H as <-; exact I|discriminate..]].
  - injection E as <-. split; [|auto]. split; cbn; [rewrite Z.add_0_r, Z.add_assoc; apply pushOff_ok, C|lia|exact N|intros l' [?|?]; discriminate|intros l' [?|[?|?]]; discriminate].
  - destruct (Z.ltb_spec 0 (co_pushes x)) as [Pp|]; [|discriminate]. destruct (popOff_ok _ _ _ C ltac:(lia)) as (c' & Ep & C'). rewrite Ep in E. injection E as <-. split; [|auto].
    split; cbn; [replace (len (co_held x) + (co_pushes x - 1) + 0) with (len (co_held x) + co_pushes x - 1) by lia; exact C'|lia|exact N|intros l' [?|?]; discriminate|intros l' [?|[?|?]]; discriminate].
  - destruct (Z.eqb_spec (pushDepth (co_cpu x)) 0) as [D|]; [|discriminate]. injection E as <-. split; [|auto]. destruct C as [Cd Cp Co Cn].
    split; cbn; [|exact P|exact N|intros l' [?|?]; discriminate|intros l' [?|[?|?]]; discriminate]. rewrite Z.add_0_r. split; [destruct on; exact Cd|exact Cp|lia|destruct on; reflexivity].
Qed.

(** * The machine *)

(** A processor has a lock from where it has exchanged the flag to where it stores it. *)
Definition owner (x : core) (l : nat) : Prop := l ∈ co_held x \/ co_place x = AcquireSets l.

Record sound (m : machine) : Prop := {
  w_core c : core_ok (cores m c);
  w_one c c' l : owner (cores m c) l -> owner (cores m c') l -> c = c';
  w_locked l : isLocked (locks m l) = true <-> exists c, owner (cores m c) l;
  w_cpu l c : lock_cpu (locks m l) = Some c <-> l ∈ co_held (cores m c) /\ co_place (cores m c) <> ReleaseStores l;
}.

Lemma upd_at {A} (f : nat -> A) k v : upd f k v k = v.
Proof. unfold upd. apply decide_True. reflexivity. Qed.
Lemma upd_off {A} (f : nat -> A) k v x : x <> k -> upd f k v x = f x.
Proof. intros N. unfold upd. apply decide_False. exact N. Qed.

(** A step of a processor that gains and loses no lock, and does not end a release. *)
Lemma sound_same m c x lk : sound m -> core_ok x -> (forall l, owner x l <-> owner (cores m c) l) ->
  (forall l, isLocked (lk l) = isLocked (locks m l)) ->
  (forall l d, lock_cpu (lk l) = Some d <-> l ∈ co_held (upd (cores m) c x d) /\ co_place (upd (cores m) c x d) <> ReleaseStores l) ->
  sound (Machine (upd (cores m) c x) lk).
Proof.
  intros [W1 W2 W3 W4] Ok Ow Lk Cp. assert (O : forall d l, owner (upd (cores m) c x d) l <-> owner (cores m d) l).
  { intros d l. unfold upd. destruct (decide (d = c)) as [->|]; [apply Ow|reflexivity]. }
  split; cbn [cores locks].
  - intros d. unfold upd. destruct (decide (d = c)); auto.
  - intros d d' l. rewrite !O. apply W2.
  - intros l. rewrite Lk, W3. split; intros [d H]; exists d; apply O; exact H.
  - exact Cp.
Qed.

Lemma isHolding_held m c l : sound m -> isHolding c (locks m l) = true <-> l ∈ co_held (cores m c) /\ co_place (cores m c) <> ReleaseStores l.
Proof.
  intros S. unfold isHolding. rewrite andb_true_iff, bool_decide_eq_true, (w_cpu _ S). split; [tauto|]. intros H. split; [|exact H].
  apply (w_locked _ S). exists c. left. apply H.
Qed.

Lemma call_sound m c k x : sound m -> co_place (cores m c) = Outside -> begins k (cores m c) = Some x -> sound (Machine (upd (cores m) c x) (locks m)).
Proof.
  intros S Out E. destruct (begins_ok k _ x (w_core _ S c) Out E) as (Ok & Hd & Pl).
  apply (sound_same m c x (locks m) S Ok); [|reflexivity|].
  - intros l. unfold owner. rewrite Hd, Out. destruct k; rewrite Pl; split; intros [H|H]; auto; discriminate.
  - intros l d. rewrite (w_cpu _ S). unfold upd. destruct (decide (d = c)) as [->|]; [|reflexivity]. rewrite Hd, Out. destruct k; rewrite Pl; split; intros [H _]; (split; [exact H|discriminate]).
Qed.

(** In a call, only [acquire] of a lock that the processor has stops the machine. *)
Lemma advances_some m c : sound m -> match co_place (cores m c) with AcquireChecks l => l ∉ co_held (cores m c) | _ => True end -> advances c (cores m c) (locks m) <> None.
Proof.
  intros S N. pose proof (w_core _ S c) as [C P _ _ R]. unfold advances. destruct (co_place (cores m c)) as [|l|l|l|l|l|l] eqn:Pl; try discriminate.
  - destruct (isHolding c (locks m l)) eqn:H; [|discriminate]. apply (isHolding_held m c l S) in H as [H _]. destruct (N H).
  - rewrite (proj2 (isHolding_held m c l S)); [discriminate|]. split; [apply R; auto|rewrite Pl; discriminate].
  - assert (I : l ∈ co_held (cores m c)) by (apply R; auto). cbn [acquiring] in C. destruct (popOff_ok _ _ _ C) as (p & E & _); [|rewrite E; discriminate].
    destruct (co_held (cores m c)); [inversion I|cbn [length]; lia].
Qed.

(** The check of acquire. *)
Lemma acquire_checks_sound m c l x lk : sound m -> co_place (cores m c) = AcquireChecks l -> advances c (cores m c) (locks m) = Some (x, lk) -> sound (Machine (upd (cores m) c x) lk).
Proof.
  intros S Pl E. pose proof (w_core _ S c) as [C P Nd A R]. rewrite Pl in C. unfold advances in E. rewrite Pl in E.
  destruct (isHolding c (locks m l)) eqn:H; [discriminate|]. injection E as <- <-. apply sound_same; [exact S| | |reflexivity|].
  + split; cbn; [exact C|exact P|exact Nd| |intros l' [?|[?|?]]; discriminate]. intros l' [H'|H']; [|discriminate]. injection H' as <-. intros I.
    enough (isHolding c (locks m l) = true) by congruence. apply isHolding_held; [exact S|]. split; [exact I|rewrite Pl; discriminate].
  + intros l'. unfold owner. cbn [at_place co_held co_place]. rewrite Pl. split; intros [H'|H']; auto; discriminate.
  + intros l' d. rewrite (w_cpu _ S). unfold upd. destruct (decide (d = c)) as [->|]; [|reflexivity]. cbn [at_place co_held co_place]. rewrite Pl. split; intros [H' _]; (split; [exact H'|discriminate]).
Qed.

(** The exchange. *)
Lemma acquire_spins_sound m c l x lk : sound m -> co_place (cores m c) = AcquireSpins l -> advances c (cores m c) (locks m) = Some (x, lk) -> sound (Machine (upd (cores m) c x) lk).
Proof.
  intros S Pl E. pose proof (w_core _ S c) as [C P Nd A R]. rewrite Pl in C. unfold advances in E. rewrite Pl in E.
  assert (Nh : l ∉ co_held (cores m c)) by (apply A; auto). destruct (isLocked (locks m l)) eqn:Lk; injection E as <- <-.
  + apply sound_same; [exact S|apply (w_core _ S)|reflexivity| |].
    * intros l'. unfold upd. destruct (decide (l' = l)) as [->|]; [symmetry; exact Lk|reflexivity].
    * intros l' d. transitivity (lock_cpu (locks m l') = Some d); [unfold upd; destruct (decide (l' = l)) as [->|]; reflexivity|].
      rewrite (w_cpu _ S). unfold upd. destruct (decide (d = c)) as [->|]; reflexivity.
  + assert (Free : forall d, ~ owner (cores m d) l) by (intros d O; enough (isLocked (locks m l) = true) by congruence; apply (w_locked _ S); eauto).
    assert (Oc : forall d l', owner (upd (cores m) c (at_place (AcquireSets l) (cores m c)) d) l' <-> owner (cores m d) l' \/ (d = c /\ l' = l)).
    { intros d l'. unfold upd. destruct (decide (d = c)) as [->|Nc]; [|split; [auto|intros [H|[H _]]; [exact H|congruence]]]. unfold owner. cbn [at_place co_held co_place]. rewrite Pl.
      split; [intros [H|H]; [auto|injection H as <-; auto]|intros [[H|H]|[_ ->]]; auto; discriminate]. }
    split; cbn [cores locks].
    * intros d. unfold upd. destruct (decide (d = c)); [|apply (w_core _ S)]. split; cbn; [exact C|exact P|exact Nd| |intros l' [?|[?|?]]; discriminate]. intros l' [H|H]; [discriminate|injection H as <-; exact Nh].
    * intros d d' l'. rewrite !Oc. intros [H|[-> ->]] [H'|[-> H2]]; [exact (w_one _ S _ _ _ H H')|subst; destruct (Free _ H)|destruct (Free _ H')|reflexivity].
    * intros l'. unfold upd at 1. destruct (decide (l' = l)) as [->|Nl]; cbn [isLocked].
      -- split; [|reflexivity]. intros _. exists c. apply Oc. auto.
      -- rewrite (w_locked _ S). split; intros [d H]; exists d; [apply Oc; auto|]. apply Oc in H as [H|[_ H]]; [exact H|congruence].
    * intros l' d. transitivity (lock_cpu (locks m l') = Some d); [unfold upd; destruct (decide (l' = l)) as [->|]; reflexivity|].
      rewrite (w_cpu _ S). unfold upd. destruct (decide (d = c)) as [->|]; [|reflexivity]. cbn [at_place co_held co_place]. rewrite Pl. split; intros [H _]; (split; [exact H|discriminate]).
Qed.

(** The setting of the processor. *)
Lemma acquire_sets_sound m c l x lk : sound m -> co_place (cores m c) = AcquireSets l -> advances c (cores m c) (locks m) = Some (x, lk) -> sound (Machine (upd (cores m) c x) lk).
Proof.
  intros S Pl E. pose proof (w_core _ S c) as [C P Nd A R]. rewrite Pl in C. unfold advances in E. rewrite Pl in E.
  injection E as <- <-. assert (Nh : l ∉ co_held (cores m c)) by (apply A; auto). apply sound_same; [exact S| | | |].
  + split; cbn; [|exact P|apply NoDup_cons; auto|intros l' [?|?]; discriminate|intros l' [?|[?|?]]; discriminate]. cbn [acquiring] in C. replace (Z.of_nat (Datatypes.S (length (co_held (cores m c)))) + _ + 0) with (len (co_held (cores m c)) + co_pushes (cores m c) + 1) by lia. exact C.
  + intros l'. unfold owner. cbn [co_held co_place]. rewrite Pl, elem_of_cons. split; [intros [[->|H]|H]; auto; discriminate|intros [H|H]; [auto|injection H as <-; auto]].
  + intros l'. unfold upd. destruct (decide (l' = l)) as [->|]; reflexivity.
  + intros l' d. unfold upd at 1. destruct (decide (l' = l)) as [->|Nl]; cbn [lock_cpu].
    * split.
      -- intros H. injection H as <-. rewrite upd_at. cbn [co_held co_place]. split; [apply list_elem_of_here|discriminate].
      -- intros [H _]. f_equal. apply (w_one _ S c d l); [right; exact Pl|]. unfold upd in H. destruct (decide (d = c)) as [->|]; [right; exact Pl|left; exact H].
    * rewrite (w_cpu _ S). unfold upd. destruct (decide (d = c)) as [->|]; [|reflexivity]. cbn [co_held co_place]. rewrite Pl, elem_of_cons. split; [intros [H _]; split; [auto|discriminate]|intros [[H|H] _]; [congruence|split; [exact H|discriminate]]].
Qed.

(** The check of release. *)
Lemma release_checks_sound m c l x lk : sound m -> co_place (cores m c) = ReleaseChecks l -> advances c (cores m c) (locks m) = Some (x, lk) -> sound (Machine (upd (cores m) c x) lk).
Proof.
  intros S Pl E. pose proof (w_core _ S c) as [C P Nd A R]. rewrite Pl in C. unfold advances in E. rewrite Pl in E.
  destruct (isHolding c (locks m l)) eqn:H; [|discriminate]. injection E as <- <-. apply sound_same; [exact S| | |reflexivity|].
  + split; cbn; [exact C|exact P|exact Nd|intros l' [?|?]; discriminate|]. intros l' [H'|[H'|H']]; try discriminate. injection H' as <-. apply R. auto.
  + intros l'. unfold owner. cbn [at_place co_held co_place]. rewrite Pl. split; intros [H'|H']; auto; discriminate.
  + intros l' d. rewrite (w_cpu _ S). unfold upd. destruct (decide (d = c)) as [->|]; [|reflexivity]. cbn [at_place co_held co_place]. rewrite Pl. split; intros [H' _]; (split; [exact H'|discriminate]).
Qed.

(** The clearing of the processor. *)
Lemma release_clears_sound m c l x lk : sound m -> co_place (cores m c) = ReleaseClears l -> advances c (cores m c) (locks m) = Some (x, lk) -> sound (Machine (upd (cores m) c x) lk).
Proof.
  intros S Pl E. pose proof (w_core _ S c) as [C P Nd A R]. rewrite Pl in C. unfold advances in E. rewrite Pl in E.
  injection E as <- <-. assert (I : l ∈ co_held (cores m c)) by (apply R; auto). apply sound_same; [exact S| | | |].
  + split; cbn; [exact C|exact P|exact Nd|intros l' [?|?]; discriminate|]. intros l' [H'|[H'|H']]; try discriminate. injection H' as <-. exact I.
  + intros l'. unfold owner. cbn [at_place co_held co_place]. rewrite Pl. split; intros [H'|H']; auto; discriminate.
  + intros l'. unfold upd. destruct (decide (l' = l)) as [->|]; reflexivity.
  + intros l' d. unfold upd at 1. destruct (decide (l' = l)) as [->|Nl]; cbn [lock_cpu].
    * split; [discriminate|]. intros [H N]. unfold upd in H, N. destruct (decide (d = c)) as [->|Nc]; [destruct (N eq_refl)|].
      destruct Nc. apply (w_one _ S d c l); left; assumption.
    * rewrite (w_cpu _ S). unfold upd. destruct (decide (d = c)) as [->|]; [|reflexivity]. cbn [at_place co_held co_place]. rewrite Pl. split; intros [H _]; (split; [exact H|congruence]).
Qed.

(** The storing of the flag. *)
Lemma release_stores_sound m c l x lk : sound m -> co_place (cores m c) = ReleaseStores l -> advances c (cores m c) (locks m) = Some (x, lk) -> sound (Machine (upd (cores m) c x) lk).
Proof.
  intros S Pl E. pose proof (w_core _ S c) as [C P Nd A R]. rewrite Pl in C. unfold advances in E. rewrite Pl in E.
  assert (I : l ∈ co_held (cores m c)) by (apply R; auto). cbn [acquiring] in C. destruct (popOff_ok _ _ _ C) as (p & Ep & C'); [destruct (co_held (cores m c)); [inversion I|cbn [length]; lia]|].
  rewrite Ep in E. injection E as <- <-.
  assert (Oc : forall d l', owner (upd (cores m) c (Core p Outside (removed l (co_held (cores m c))) (co_pushes (cores m c)) (co_wants (cores m c))) d) l' <-> owner (cores m d) l' /\ l' <> l).
  { intros d l'. unfold upd. destruct (decide (d = c)) as [->|Nc].
    - unfold owner. cbn [co_held co_place]. rewrite Pl, removed_in. split; [intros [H|H]; [split; [left|]; apply H|discriminate]|intros [[H|H] N]; [left; auto|discriminate]].
    - split; [|tauto]. intros H. split; [exact H|]. intros ->. apply Nc. apply (w_one _ S d c l H). left. exact I. }
  split; cbn [cores locks].
  + intros d. unfold upd. destruct (decide (d = c)); [|apply (w_core _ S)]. split; cbn; [|exact P|apply removed_nodup, Nd|intros l' [?|?]; discriminate|intros l' [?|[?|?]]; discriminate].
    rewrite removed_length by assumption. replace (len (co_held (cores m c)) - 1 + co_pushes (cores m c) + 0) with (len (co_held (cores m c)) + co_pushes (cores m c) + 0 - 1) by lia. exact C'.
  + intros d d' l'. rewrite !Oc. intros [H _] [H' _]. exact (w_one _ S _ _ _ H H').
  + intros l'. unfold upd at 1. destruct (decide (l' = l)) as [->|Nl]; cbn [isLocked].
    * split; [discriminate|]. intros [d H]. apply Oc in H as [_ H]. destruct (H eq_refl).
    * rewrite (w_locked _ S). split; intros [d H]; exists d; apply Oc in H || apply Oc; tauto.
  + intros l' d. transitivity (lock_cpu (locks m l') = Some d); [unfold upd; destruct (decide (l' = l)) as [->|]; reflexivity|].
    rewrite (w_cpu _ S). unfold upd. destruct (decide (d = c)) as [->|Nc]; [|reflexivity]. cbn [co_held co_place]. rewrite Pl, removed_in. split.
    * intros [H N]. split; [split; [exact H|congruence]|discriminate].
    * intros [[H N] _]. split; [exact H|congruence].
Qed.

Lemma advance_sound m c x lk : sound m -> co_place (cores m c) <> Outside -> advances c (cores m c) (locks m) = Some (x, lk) -> sound (Machine (upd (cores m) c x) lk).
Proof.
  intros S In E. destruct (co_place (cores m c)) as [|l|l|l|l|l|l] eqn:Pl; [destruct (In eq_refl)|..];
    eauto using acquire_checks_sound, acquire_spins_sound, acquire_sets_sound, release_checks_sound, release_clears_sound, release_stores_sound.
Qed.

Lemma reach_sound on m : reach on m -> sound m.
Proof.
  induction 1 as [|m m' _ IH St].
  - split; cbn [start cores locks fresh_core co_held co_place co_cpu co_pushes co_wants].
    + intros c. split; cbn; [split; cbn; auto; lia|lia|constructor|intros l [?|?]; discriminate|intros l [?|[?|?]]; discriminate].
    + intros c c' l [H|H]; [inversion H|discriminate].
    + intros l. split; [discriminate|]. intros [c [H|H]]; [inversion H|discriminate].
    + intros l c. split; [discriminate|]. intros [H _]. inversion H.
  - destruct St as [c k m x Out E|c m x lk In E]; [exact (call_sound m c k x IH Out E)|exact (advance_sound m c x lk IH In E)].
Qed.

(** * Theorems *)

(** C23: A spin lock has one holder.  With any number of processors that acquire, release, push and pop as they like, at
    every moment at most one of them is between the return of [acquire] and the end of [release] of a lock;
    [isHolding] says of the processor that asks whether it is; and a call stops the kernel only if it acquires a lock that the
    processor has already. *)
Theorem spin_lock_excludes on m (Rc : reach on m) :
  (forall c c' l, l ∈ co_held (cores m c) -> l ∈ co_held (cores m c') -> c = c') /\
  (forall c l, isHolding c (locks m l) = true <-> l ∈ co_held (cores m c) /\ co_place (cores m c) <> ReleaseStores l) /\
  (forall c, co_place (cores m c) <> Outside -> advances c (cores m c) (locks m) = None <-> exists l, co_place (cores m c) = AcquireChecks l /\ l ∈ co_held (cores m c)).
Proof.
  pose proof (reach_sound on m Rc) as S. split; [|split].
  - intros c c' l H H'. apply (w_one _ S c c' l); left; assumption.
  - intros c l. exact (isHolding_held m c l S).
  - intros c In. split.
    + intros E. destruct (co_place (cores m c)) as [|l|l|l|l|l|l] eqn:Pl; [destruct (In eq_refl)|..]; try (destruct (advances_some m c S); [rewrite Pl; exact Logic.I|exact E]).
      exists l. split; [reflexivity|]. destruct (decide (l ∈ co_held (cores m c))) as [|N]; [assumption|]. destruct (advances_some m c S); [rewrite Pl; exact N|exact E].
    + intros (l & Pl & I). unfold advances. rewrite Pl, (proj2 (isHolding_held m c l S)); [reflexivity|]. split; [exact I|rewrite Pl; discriminate].
Qed.

(** Interrupts are off on a processor that has a lock or is getting one, and come back as they were: when all that was
    acquired and pushed has been given back, in whatever order, the flag is what it was set to before; and a [popOff] that
    answers a [pushOff] never panics. *)
Theorem interrupts_nest on m c (Rc : reach on m) :
  let x := cores m c in
  (co_held x <> [] \/ 0 < co_pushes x \/ acquiring (co_place x) = 1 -> isEnabled (co_cpu x) = false) /\
  (co_held x = [] /\ co_pushes x = 0 /\ co_place x = Outside -> isEnabled (co_cpu x) = co_wants x) /\
  (co_place x = Outside -> 0 < co_pushes x -> begins Pop x <> None).
Proof.
  intros x. destruct (w_core _ (reach_sound on m Rc) c) as [C P _ _ _]. fold x in C, P. assert (Ac : 0 <= acquiring (co_place x)) by (destruct (co_place x); cbn; lia). split; [|split].
  - intros H. apply (p_off _ _ _ C). destruct H as [H|H]; [destruct (co_held x); [congruence|cbn [length]; lia]|lia].
  - intros (H & N & O). apply (p_on _ _ _ C). rewrite H, N, O. reflexivity.
  - intros O N. cbn [begins]. rewrite (proj2 (Z.ltb_lt _ _) N). rewrite O in C. destruct (popOff_ok _ _ _ C ltac:(cbn; lia)) as (p & E & _). rewrite E. discriminate.
Qed.

(** * Runs *)

(** What processor [c] does next: a call, or a step of the call it is in. *)
Definition does (c : nat) (k : option call) (m : machine) : option machine :=
  match k, co_place (cores m c) with
  | Some k, Outside => x ← begins k (cores m c); Some (Machine (upd (cores m) c x) (locks m))
  | None, Outside | Some _, _ => None
  | None, _ => '(x, lk) ← advances c (cores m c) (locks m); Some (Machine (upd (cores m) c x) lk)
  end.

Fixpoint does_all (ds : list (nat * option call)) (m : machine) : option machine :=
  match ds with [] => Some m | (c, k) :: ds => m ← does c k m; does_all ds m end.

Lemma does_step c k m m' : does c k m = Some m' -> step m m'.
Proof.
  unfold does. destruct k as [k|].
  - destruct (co_place (cores m c)) eqn:Pl; try discriminate. destruct (begins k (cores m c)) as [x|] eqn:E; [|discriminate]. cbn. intros H. injection H as <-. exact (m_call c k m x Pl E).
  - intros H. assert (N : co_place (cores m c) <> Outside) by (intros E; rewrite E in H; discriminate).
    assert (H' : (advances c (cores m c) (locks m) ≫= fun '(x, lk) => Some (Machine (upd (cores m) c x) lk)) = Some m') by (destruct (co_place (cores m c)); [destruct (N eq_refl)|exact H..]).
    destruct (advances c (cores m c) (locks m)) as [[x lk]|] eqn:E; [|discriminate]. injection H' as <-. exact (m_advance c m x lk N E).
Qed.

Lemma does_all_reach on ds : forall m m', reach on m -> does_all ds m = Some m' -> reach on m'.
Proof.
  induction ds as [|[c k] ds IH]; intros m m' Rc; cbn [does_all]; [congruence|]. destruct (does c k m) as [m1|] eqn:E; [|discriminate]. cbn. apply IH.
  exact (reach_step on m m1 Rc (does_step c k m m1 E)).
Qed.

(** Processor 0 pushes, has lock 5 and acquires it once more; processor 1, whose interrupts were off, spins on it. *)
Definition two_cores : machine :=
  default (start (fun c => (c =? 0)%nat))
    (does_all [(0%nat, Some Push); (0%nat, Some (Acquire 5)); (1%nat, Some (Acquire 5)); (0%nat, None); (1%nat, None); (0%nat, None); (1%nat, None); (0%nat, None); (1%nat, None); (0%nat, Some (Acquire 5))]
       (start (fun c => (c =? 0)%nat))).

Lemma two_cores_reached : reach (fun c => (c =? 0)%nat) two_cores.
Proof.
  unfold two_cores. destruct (does_all _ _) as [m|] eqn:E; [exact (does_all_reach _ _ _ m (reach_start _) E)|apply reach_start].
Qed.

Lemma spin_lock_excludes_witness :
  isHolding 0 (locks two_cores 5) = true /\ isHolding 1 (locks two_cores 5) <> true /\ co_place (cores two_cores 1) = AcquireSpins 5 /\
  advances 0 (cores two_cores 0) (locks two_cores) = None.
Proof.
  destruct (spin_lock_excludes _ two_cores two_cores_reached) as (_ & H & P). split; [|split; [|split]].
  - apply H. vm_compute. split; [constructor|discriminate].
  - rewrite H. vm_compute. intros [I _]. inversion I.
  - reflexivity.
  - apply P; [discriminate|]. exists 5%nat. vm_compute. split; [reflexivity|constructor].
Defined.

Lemma interrupts_nest_witness :
  isEnabled (co_cpu (cores two_cores 0)) = false /\ isEnabled (co_cpu (cores two_cores 2)) = false /\ isEnabled (co_cpu (cores (start (fun _ => true)) 2)) = true /\ co_wants (cores two_cores 0) = true.
Proof.
  split; [|split; [|split; [|reflexivity]]].
  - apply (interrupts_nest _ two_cores 0 two_cores_reached). left. discriminate.
  - refine (proj1 (proj2 (interrupts_nest _ two_cores 2 two_cores_reached)) _). auto.
  - refine (proj1 (proj2 (interrupts_nest _ _ 2 (reach_start (fun _ => true)))) _). auto.
Defined.
