(* ===== verification/KSleep.v ===== *)
(** Sleep locks: src/kernel/concurrency/sleeplock.zig.

    All of [acquire], [release] and [isHolding] runs under the spin lock of the sleep lock, and
    [sleepWithLock] gives that lock up in the moment the process is asleep, so that a turn between
    two sleeps is one step.  A process that sleeps becomes runnable again when somebody calls
    [wakeup] or kills it; it has its turn when the scheduler takes it. *)

From S2P Require Import Prelude.
From stdpp Require Import base gmap.

Local Open Scope Z_scope.

Record sleeplock : Set := SleepLock { sleep_isLocked : bool; sleep_pid : option Z }.
Definition free_sleeplock : sleeplock := SleepLock false None.

(** One turn of the loop of [acquire]; [None]: the process goes to sleep on the lock. *)
Definition acquire_turn (pid : Z) (l : sleeplock) : option sleeplock :=
  if sleep_isLocked l then None else Some (SleepLock true (Some pid)).

(** [release] without its [wakeup]. *)
Definition release (l : sleeplock) : sleeplock := SleepLock false None.

Definition sleep_isHolding (pid : Z) (l : sleeplock) : bool := sleep_isLocked l && bool_decide (sleep_pid l = Some pid).

(** A process that has called [acquire] and not yet [release]: it is runnable, asleep, or has the lock. *)
Variant waiter : Set := Runs | Sleeps | Has.
#[export] Instance waiter_dec : EqDecision waiter.
Proof. solve_decision. Defined.

Record sleepers : Set := Sleepers { sl_lock : sleeplock; sl_procs : gmap Z waiter }.

Definition awake (w : waiter) : waiter := match w with Sleeps => Runs | _ => w end.

(** [wakeup] passes over the process that calls it. *)
Definition wake_others (current : Z) (ps : gmap Z waiter) : gmap Z waiter :=
  map_imap (fun pid w => Some (if decide (pid = current) then w else awake w)) ps.

Definition take_turn (pid : Z) (s : sleepers) : sleepers :=
  match acquire_turn pid (sl_lock s) with
  | None => Sleepers (sl_lock s) (<[pid := Sleeps]> (sl_procs s))
  | Some l => Sleepers l (<[pid := Has]> (sl_procs s))
  end.

Definition give_back (pid : Z) (s : sleepers) : sleepers :=
  Sleepers (release (sl_lock s)) (delete pid (wake_others pid (sl_procs s))).

(** The processes that use the lock release only what they have. *)
Inductive sleep_step : sleepers -> sleepers -> Prop :=
| sl_calls pid l ps : ps !! pid = None -> sleep_step (Sleepers l ps) (Sleepers l (<[pid := Runs]> ps))
| sl_turn pid s : sl_procs s !! pid = Some Runs -> sleep_step s (take_turn pid s)
| sl_release pid s : sl_procs s !! pid = Some Has -> sleep_step s (give_back pid s)
| sl_kill pid w l ps : ps !! pid = Some w -> sleep_step (Sleepers l ps) (Sleepers l (<[pid := awake w]> ps)).

Inductive sleep_reach : sleepers -> Prop :=
| slr_start : sleep_reach (Sleepers free_sleeplock ∅)
| slr_step s s' : sleep_reach s -> sleep_step s s' -> sleep_reach s'.

(** * What always holds *)

Record sleep_ok (s : sleepers) : Prop := {
  sl_has pid : sl_procs s !! pid = Some Has <-> sleep_isHolding pid (sl_lock s) = true;
  sl_free : sleep_isLocked (sl_lock s) = false -> forall pid, sl_procs s !! pid <> Some Sleeps;
  sl_taken : sleep_isLocked (sl_lock s) = true -> exists pid, sleep_pid (sl_lock s) = Some pid;
}.

Lemma isHolding_taken pid pid' : sleep_isHolding pid (SleepLock true (Some pid')) = true <-> pid = pid'.
Proof. unfold sleep_isHolding. cbn [sleep_isLocked sleep_pid andb]. rewrite bool_decide_eq_true. split; congruence. Qed.

Lemma isHolding_free pid l : sleep_isLocked l = false -> sleep_isHolding pid l = false.
Proof. unfold sleep_isHolding. intros ->. reflexivity. Qed.

Lemma wake_others_lookup current ps pid : wake_others current ps !! pid = (fun w => if decide (pid = current) then w else awake w) <$> ps !! pid.
Proof. unfold wake_others. rewrite map_lookup_imap. destruct (ps !! pid); reflexivity. Qed.

Lemma awake_runs w : awake w <> Sleeps.
Proof. destruct w; discriminate. Qed.

Lemma take_turn_ok pid s : sleep_ok s -> sl_procs s !! pid = Some Runs -> sleep_ok (take_turn pid s).
Proof.
  intros [H F T] R. unfold take_turn, acquire_turn. destruct (sleep_isLocked (sl_lock s)) eqn:L; split; cbn [sl_lock sl_procs].
  - intros q. rewrite <- H, lookup_insert. case_decide as D; [subst; rewrite R; split; discriminate|reflexivity].
  - congruence.
  - intros _. exact (T eq_refl).
  - intros q. rewrite isHolding_taken, lookup_insert. case_decide as D; [subst; tauto|]. rewrite H, isHolding_free by exact L. split; [discriminate|congruence].
  - discriminate.
  - eauto.
Qed.

Lemma give_back_ok pid s : sleep_ok s -> sl_procs s !! pid = Some Has -> sleep_ok (give_back pid s).
Proof.
  intros [H F T] R. unfold give_back. split; cbn [sl_lock sl_procs release sleep_isLocked]; [..|discriminate].
  - intros q. rewrite isHolding_free by reflexivity. split; [|discriminate]. rewrite lookup_delete. case_decide as D; [discriminate|].
    rewrite wake_others_lookup. destruct (sl_procs s !! q) as [w|] eqn:W; [|discriminate]. cbn. rewrite decide_False by congruence. intros E.
    assert (w = Has) as -> by (destruct w; cbn in E; congruence). destruct D. apply H in W, R. revert W R. unfold sleep_isHolding. rewrite !andb_true_iff, !bool_decide_eq_true. intros [_ ?] [_ ?]. congruence.
  - intros _ q. rewrite lookup_delete. case_decide as D; [discriminate|]. rewrite wake_others_lookup. destruct (sl_procs s !! q) as [w|]; cbn; [|discriminate]. rewrite decide_False by congruence. destruct w; discriminate.
Qed.

Lemma sleep_step_ok s s' : sleep_ok s -> sleep_step s s' -> sleep_ok s'.
Proof.
  intros Ok St. destruct St as [pid l ps N|pid s R|pid s R|pid w l ps W]; [|exact (take_turn_ok pid s Ok R)|exact (give_back_ok pid s Ok R)|]; destruct Ok as [H F T]; cbn [sl_lock sl_procs] in *; split; cbn [sl_lock sl_procs]; try exact T.
  - intros q. rewrite <- H, lookup_insert. case_decide as D; [subst; rewrite N; split; discriminate|reflexivity].
  - intros L q. rewrite lookup_insert. case_decide; [discriminate|apply F, L].
  - intros q. rewrite <- H, lookup_insert. case_decide as D; [subst; rewrite W; destruct w; split; cbn; congruence|reflexivity].
  - intros L q. rewrite lookup_insert. case_decide; [destruct w; discriminate|apply F, L].
Qed.

Lemma sleep_reach_ok s : sleep_reach s -> sleep_ok s.
Proof.
  induction 1 as [|s s' _ IH St]; [|exact (sleep_step_ok s s' IH St)]. split; cbn; [|intros _ q; rewrite lookup_empty; discriminate|discriminate].
  intros q. rewrite lookup_empty. split; discriminate.
Qed.

(** * Theorem *)

(** C24: A sleep lock has one holder, and no process sleeps for ever.  However processes come, are killed and take their
    turns, [isHolding] says of each process whether it has the lock, so that two never have it; when nobody has it no
    process that waits is asleep; and from any state every process that waits can get the lock: after the holder's release,
    if there is one, at its own next turn. *)
Theorem sleep_lock_excludes s (Rc : sleep_reach s) :
  (forall pid pid', sl_procs s !! pid = Some Has -> sl_procs s !! pid' = Some Has -> pid = pid') /\
  (forall pid, sl_procs s !! pid = Some Has <-> sleep_isHolding pid (sl_lock s) = true) /\
  (forall pid, sl_procs s !! pid = Some Sleeps -> exists holder, holder <> pid /\ sl_procs s !! holder = Some Has) /\
  (forall pid w, sl_procs s !! pid = Some w -> w <> Has ->
     exists s1, (s1 = s \/ exists holder, sl_procs s !! holder = Some Has /\ s1 = give_back holder s) /\
       sl_procs s1 !! pid = Some Runs /\ sl_procs (take_turn pid s1) !! pid = Some Has).
Proof.
  destruct (sleep_reach_ok s Rc) as [H F T]. split; [|split; [exact H|split]].
  - intros p q Hp Hq. apply H in Hp, Hq. revert Hp Hq. unfold sleep_isHolding. rewrite !andb_true_iff, !bool_decide_eq_true. intros [_ ?] [_ ?]. congruence.
  - intros p Sp. destruct (sleep_isLocked (sl_lock s)) eqn:L; [|destruct (F eq_refl p Sp)]. destruct (T eq_refl) as [q Q]. exists q. assert (Hq : sl_procs s !! q = Some Has) by (apply H; unfold sleep_isHolding; rewrite L, Q; apply bool_decide_eq_true_2; reflexivity).
    split; [congruence|exact Hq].
  - intros p w W N. destruct (sleep_isLocked (sl_lock s)) eqn:L.
    + destruct (T eq_refl) as [q Q]. assert (Hq : sl_procs s !! q = Some Has) by (apply H; unfold sleep_isHolding; rewrite L, Q; apply bool_decide_eq_true_2; reflexivity).
      exists (give_back q s). split; [right; eauto|]. split.
      * unfold give_back. cbn [sl_procs]. rewrite lookup_delete_ne by congruence. rewrite wake_others_lookup, W. cbn. rewrite decide_False by congruence. destruct w; [reflexivity..|destruct (N eq_refl)].
      * unfold take_turn, acquire_turn, give_back. cbn [sl_lock release sleep_isLocked sl_procs]. apply lookup_insert_eq.
    + exists s. split; [auto|]. split; [destruct w; [exact W|destruct (F eq_refl p W)|destruct (N eq_refl)]|].
      unfold take_turn, acquire_turn. rewrite L. apply lookup_insert_eq.
Qed.

(** Process 4 has the lock, 7 sleeps for it. *)
Definition one_asleep : sleepers := Sleepers (SleepLock true (Some 4)) {[4 := Has; 7 := Sleeps]}.

Lemma one_asleep_reached : sleep_reach one_asleep.
Proof.
  assert (R : sleep_reach (take_turn 7 (Sleepers (SleepLock true (Some 4)) (<[7 := Runs]> {[4 := Has]})))); [|exact R].
  apply (slr_step (Sleepers (SleepLock true (Some 4)) (<[7 := Runs]> {[4 := Has]}))); [|apply (sl_turn 7); reflexivity].
  apply (slr_step (take_turn 4 (Sleepers free_sleeplock {[4 := Runs]}))); [|apply (sl_calls 7); reflexivity].
  apply (slr_step (Sleepers free_sleeplock {[4 := Runs]})); [|apply (sl_turn 4); reflexivity].
  apply (slr_step (Sleepers free_sleeplock ∅)); [apply slr_start|apply (sl_calls 4); reflexivity].
Qed.

Lemma sleep_lock_excludes_witness :
  sleep_isHolding 4 (sl_lock one_asleep) = true /\ sl_procs one_asleep !! 7 = Some Sleeps /\
  exists s1, (s1 = one_asleep \/ exists holder, sl_procs one_asleep !! holder = Some Has /\ s1 = give_back holder one_asleep) /\
    sl_procs s1 !! 7 = Some Runs /\ sl_procs (take_turn 7 s1) !! 7 = Some Has.
Proof.
  split; [reflexivity|]. split; [reflexivity|]. refine (proj2 (proj2 (proj2 (sleep_lock_excludes one_asleep one_asleep_reached))) 7 Sleeps _ _); [reflexivity|discriminate].
Defined.
