(* ===== verification/KDisk.v ===== *)
(** The driver of the disk: src/kernel/drivers/virtio, diskdriver.zig with the structures of queue.zig
    and disk.zig.

    The driver and the device share descriptors, a ring in which the driver makes chains of descriptors
    available and one in which the device says which it has used.  A turn of a process, from where it gets the
    lock of the disk to where it sleeps or returns, is one step, and so is one round of the loop of the
    interrupt, during which the lock is held; the device moves at any time in between.  An address is
    named by what it points to.  [None]: a panic. *)

From S2P Require Import Prelude Mem.
From stdpp Require Import base gmap list functions.

Local Open Scope Z_scope.

Definition queue_size : nat := 8.
Definition block_size : Z := 1024.
Definition sector_size : Z := 512.

(** * Descriptors and requests *)

Variant address : Set := Nowhere | Operation (i : nat) | Data (buffer : nat) | Status (i : nat).
Record descriptor : Set := Descriptor { d_address : address; d_length : Z; d_next : bool; d_write : bool; next_index : nat }.
Definition no_descriptor : descriptor := Descriptor Nowhere 0 false false 0.
Record request : Set := Request { out : bool; sector : Z }.
Definition ok_status : Z := 0.
Definition pending : Z := 255.

Record buffer : Set := Buffer { number : Z; data : list Z; disk_owned : bool }.

(** What the driver keeps for itself; [table] is the descriptors, [info] the buffers of the requests under way. *)
Record driver : Set := Driver { table : nat -> descriptor; free : nat -> bool; used_idx : Z; info : nat -> option nat; operations : nat -> request }.
(** What the driver and the device both write: the rings, with their indices of 16 bits, and the status of each request. *)
Record rings : Set := Rings { avail_idx : Z; avail : nat -> nat; dev_used_idx : Z; used : nat -> nat; status : nat -> Z }.
Definition slot (idx : Z) : nat := Z.to_nat (idx mod Z.of_nat queue_size).
Definition u16 (x : Z) : Z := x mod 2 ^ 16.

Definition set_free (f : nat -> bool) (d : driver) : driver := Driver (table d) f (used_idx d) (info d) (operations d).
Definition set_info (f : nat -> option nat) (d : driver) : driver := Driver (table d) (free d) (used_idx d) f (operations d).

Definition allocDescriptor (d : driver) : option (nat * driver) :=
  match find (free d) (seq 0 queue_size) with
  | Some index => Some (index, set_free (<[index := false]> (free d)) d)
  | None => None
  end.

Definition freeDescriptor (index : nat) (d : driver) : option driver :=
  if (queue_size <=? index)%nat then None
  else if free d index then None
  else Some (Driver (<[index := no_descriptor]> (table d)) (<[index := true]> (free d)) (used_idx d) (info d) (operations d)).

Fixpoint freeDescriptorChain (fuel index : nat) (d : driver) : option driver :=
  match fuel with
  | O => None
  | S fuel =>
      let flags := d_next (table d index) in
      let next := next_index (table d index) in
      d ← freeDescriptor index d;
      if flags then freeDescriptorChain fuel next d else Some d
  end.

Fixpoint free_all (l : list nat) (d : driver) : option driver :=
  match l with [] => Some d | i :: l => d ← freeDescriptor i d; free_all l d end.

(** The descriptors, or [None] when there are too few and those taken have been given back. *)
Fixpoint allocDescriptorsSlice (n : nat) (got : list nat) (d : driver) : option (option (list nat) * driver) :=
  match n with
  | O => Some (Some got, d)
  | S n =>
      match allocDescriptor d with
      | Some (i, d) => allocDescriptorsSlice n (got ++ [i]) d
      | None => d ← free_all got d; Some (None, d)
      end
  end.

(** [readOrWrite] between its two waits. *)
Definition submit (b i0 i1 i2 : nat) (do_write : bool) (d : driver) (r : rings) (bs : nat -> buffer) : driver * rings * (nat -> buffer) :=
  let sector := number (bs b) * (block_size / sector_size) in
  let operations := <[i0 := Request do_write sector]> (operations d) in
  let t := <[i0 := Descriptor (Operation i0) 16 true false i1]> (table d) in
  let t := <[i1 := Descriptor (Data b) block_size true (negb do_write) i2]> t in
  let st := <[i0 := pending]> (status r) in
  let t := <[i2 := Descriptor (Status i0) 1 false true 0]> t in
  let bs := <[b := Buffer (number (bs b)) (data (bs b)) true]> bs in
  let info := <[i0 := Some b]> (info d) in
  (Driver t (free d) (used_idx d) info operations,
   Rings (u16 (avail_idx r + 1)) (<[slot (avail_idx r) := i0]> (avail r)) (dev_used_idx r) (used r) st, bs).

(** One round of the loop of [interrupt]; the result names the buffer whose sleepers are woken. *)
Definition handle (d : driver) (r : rings) (bs : nat -> buffer) : option (nat * driver * (nat -> buffer)) :=
  let id := used r (slot (used_idx d)) in
  if (queue_size <=? id)%nat then None
  else if negb (status r id =? ok_status) then None
  else
    match info d id with
    | None => None
    | Some b => Some (b, Driver (table d) (free d) (u16 (used_idx d + 1)) (info d) (operations d), <[b := Buffer (number (bs b)) (data (bs b)) false]> bs)
    end.

(** * Processes *)

(** A process in [readOrWrite]: it needs descriptors, or it has handed a request over and waits for the
    buffer, with the indices of its descriptors. *)
Variant pstate : Set :=
| Wants (b : nat) (do_write : bool) (asleep : bool)
| Posted (b : nat) (do_write : bool) (i0 i1 i2 : nat) (asleep : bool).
Definition buffer_of (p : pstate) : nat := match p with Wants b _ _ | Posted b _ _ _ _ _ => b end.

Definition wake_free (p : pstate) : pstate := match p with Wants b w _ => Wants b w false | _ => p end.
Definition wake_buffer (b : nat) (p : pstate) : pstate :=
  match p with Posted b' w i0 i1 i2 a => Posted b' w i0 i1 i2 (a && negb (b' =? b)%nat) | _ => p end.

(** * The device *)

(** How far it has read the available ring, the chains it has taken from there, and the disk. *)
Record device : Type := Device { seen : Z; taken : list nat; disk : mem }.

(** It carries the request of a chain out: the status is [ok], and the chain is put into the used ring.  [None]: it is
    given a chain that is none of a disk request. *)
Definition transfer (head : nat) (d : driver) (r : rings) (v : device) (bs : nat -> buffer) : option (rings * device * (nat -> buffer)) :=
  let d0 := table d head in let d1 := table d (next_index d0) in let d2 := table d (next_index d1) in
  match d_address d0, d_address d1, d_address d2 with
  | Operation o, Data b, Status s =>
      let q := operations d o in
      if (d_length d0 =? 16) && d_next d0 && negb (d_write d0) && d_next d1 && Bool.eqb (d_write d1) (negb (out q)) && (d_length d2 =? 1) && negb (d_next d2) && d_write d2 then
        let r := Rings (avail_idx r) (avail r) (u16 (dev_used_idx r + 1)) (<[slot (dev_used_idx r) := head]> (used r)) (<[s := ok_status]> (status r)) in
        let at_ := sector q * sector_size in
        let n := Z.to_nat (d_length d1) in
        let rest := filter (fun h => h <> head) (taken v) in
        Some (if out q then (r, Device (seen v) rest (store (disk v) at_ (firstn n (data (bs b)))), bs)
              else (r, Device (seen v) rest (disk v), <[b := Buffer (number (bs b)) (load (disk v) at_ n) (disk_owned (bs b))]> bs))
      else None
  | _, _, _ => None
  end.

(** * The machine *)

Record st : Type := St { drv : driver; shr : rings; dev : device; bufs : nat -> buffer; procs : gmap nat pstate; interrupted : bool }.

Definition unused (b : nat) (ps : gmap nat pstate) : Prop := forall pid p, ps !! pid = Some p -> buffer_of p <> b.

(** A turn of a process that needs descriptors. *)
Definition start_turn (pid b : nat) (do_write : bool) (s : st) : option st :=
  match allocDescriptorsSlice 3 [] (drv s) with
  | Some (Some [i0; i1; i2], d) =>
      let '(d, r, bs) := submit b i0 i1 i2 do_write d (shr s) (bufs s) in
      Some (St d r (dev s) bs (<[pid := Posted b do_write i0 i1 i2 true]> (procs s)) (interrupted s))
  | Some (None, d) =>
      let ps := if existsb (free (drv s)) (seq 0 queue_size) then wake_free <$> procs s else procs s in
      Some (St d (shr s) (dev s) (bufs s) (<[pid := Wants b do_write true]> ps) (interrupted s))
  | _ => None
  end.

(** A turn of a process that waits for its buffer; the second result: whether [readOrWrite] returns. *)
Definition wait_turn (pid b : nat) (do_write : bool) (i0 i1 i2 : nat) (s : st) : option (st * bool) :=
  if disk_owned (bufs s b) then Some (St (drv s) (shr s) (dev s) (bufs s) (<[pid := Posted b do_write i0 i1 i2 true]> (procs s)) (interrupted s), false)
  else
    match freeDescriptorChain queue_size i0 (set_info (<[i0 := None]> (info (drv s))) (drv s)) with
    | Some d => Some (St d (shr s) (dev s) (bufs s) (delete pid (wake_free <$> procs s)) (interrupted s), true)
    | None => None
    end.

Variant event : Set :=
| Called (pid b : nat) (do_write : bool)
| Moved (pid : nat)
| Returned (pid : nat)
| Changed (b : nat) (n : Z) (l : list Z)
| Internal.

(** The buffers of processes in the driver are theirs alone: each is locked by the process that calls.
    [Changed]: the others may be used for other blocks meanwhile. *)
Inductive step : st -> event -> st -> Prop :=
| k_changed b n l d r v bs ps it : unused b ps -> 0 <= n < 2 ^ 31 -> length l = Z.to_nat block_size -> step (St d r v bs ps it) (Changed b n l) (St d r v (<[b := Buffer n l false]> bs) ps it)
| k_called pid b w d r v bs ps it : ps !! pid = None -> unused b ps -> step (St d r v bs ps it) (Called pid b w) (St d r v bs (<[pid := Wants b w false]> ps) it)
| k_start pid b w s s' : interrupted s = false -> procs s !! pid = Some (Wants b w false) -> start_turn pid b w s = Some s' -> step s Internal s'
| k_wait pid b w i0 i1 i2 s s' ret : interrupted s = false -> procs s !! pid = Some (Posted b w i0 i1 i2 false) -> wait_turn pid b w i0 i1 i2 s = Some (s', ret) ->
    step s (if ret then Returned pid else Internal) s'
| k_interrupt d r v bs ps : step (St d r v bs ps false) Internal (St d r v bs ps true)
| k_handle d r v bs ps b d' bs' : used_idx d <> dev_used_idx r -> handle d r bs = Some (b, d', bs') ->
    step (St d r v bs ps true) Internal (St d' r v bs' (wake_buffer b <$> ps) true)
| k_handled d r v bs ps : used_idx d = dev_used_idx r -> step (St d r v bs ps true) Internal (St d r v bs ps false)
| k_take d r v bs ps it : seen v <> avail_idx r -> step (St d r v bs ps it) Internal (St d r (Device (u16 (seen v + 1)) (taken v ++ [avail r (slot (seen v))]) (disk v)) bs ps it)
| k_transfer pid b w i0 i1 i2 a d r v bs ps it r' v' bs' : ps !! pid = Some (Posted b w i0 i1 i2 a) -> i0 ∈ taken v -> transfer i0 d r v bs = Some (r', v', bs') ->
    step (St d r v bs ps it) (Moved pid) (St d r' v' bs' ps it).

Inductive steps : st -> list event -> st -> Prop :=
| steps_refl s : steps s [] s
| steps_next s e s1 t s' : step s e s1 -> steps s1 t s' -> steps s (e :: t) s'.

(** The state after [init]: the queue's pages are zeroed, what is undefined is arbitrary. *)
Definition boot (undef : driver) (undef_status : nat -> Z) (m : mem) (bs : nat -> buffer) : st :=
  St (Driver (fun _ => no_descriptor) (fun i => (i <? queue_size)%nat) 0 (info undef) (operations undef)) (Rings 0 (fun _ => O) 0 (fun _ => O) undef_status) (Device 0 [] m) bs ∅ false.
