(* ===== verification/KDiskSpec.v ===== *)
(** What holds of the driver of the disk and its device at every moment. *)

From S2P Require Import Prelude Mem.
From stdpp Require Import base gmap functions list.
From S2P Require Import KDisk.

Local Open Scope Z_scope.

Ltac in_list := repeat first [apply list_elem_of_here | apply list_elem_of_further].

(** * Rings *)

(** The entries between two indices of a ring. *)
Definition window (ring : nat -> nat) (from to : Z) : list nat :=
  map (fun k => ring (slot (from + Z.of_nat k))) (seq 0 (Z.to_nat (u16 (to - from)))).

Definition in_u16 (x : Z) : Prop := 0 <= x < 2 ^ 16.

Lemma u16_range x : in_u16 (u16 x).
Proof. unfold in_u16, u16. apply Z.mod_pos_bound. reflexivity. Qed.

Lemma slot_eq x y : slot x = slot y <-> x mod 8 = y mod 8.
Proof. unfold slot. change (Z.of_nat queue_size) with 8. pose proof (Z.mod_pos_bound x 8) as Bx. pose proof (Z.mod_pos_bound y 8) as By. split; [intros E; apply Z2Nat.inj in E; lia|intros ->; reflexivity]. Qed.

Lemma slot_u16 x : slot (u16 x) = slot x.
Proof. apply slot_eq. unfold u16. change (2 ^ 16) with 65536. Z.to_euclidean_division_equations; lia. Qed.

Lemma window_length ring from to : length (window ring from to) = Z.to_nat (u16 (to - from)).
Proof. unfold window. rewrite length_map, length_seq. reflexivity. Qed.

Lemma window_same ring from : window ring from from = [].
Proof. unfold window. rewrite Z.sub_diag. reflexivity. Qed.

Lemma window_pop ring from to : in_u16 from -> in_u16 to -> from <> to -> window ring from to = ring (slot from) :: window ring (u16 (from + 1)) to.
Proof.
  unfold in_u16, window. change (2 ^ 16) with 65536. intros F T N. assert (E : u16 (to - from) = u16 (to - u16 (from + 1)) + 1) by (unfold u16; change (2 ^ 16) with 65536; Z.to_euclidean_division_equations; lia).
  rewrite E. pose proof (u16_range (to - u16 (from + 1))) as R. unfold in_u16 in R. rewrite Z2Nat.inj_add by lia. rewrite Nat.add_comm. change (Z.to_nat 1) with 1%nat. cbn [Nat.add seq map]. f_equal; [f_equal; f_equal; lia|].
  rewrite <- seq_shift, map_map. apply map_ext. intros k. f_equal. apply slot_eq. unfold u16. change (2 ^ 16) with 65536. Z.to_euclidean_division_equations; lia.
Qed.

Lemma window_push ring from to h : in_u16 from -> in_u16 to -> (length (window ring from to) < queue_size)%nat ->
  window (<[slot to := h]> ring) from (u16 (to + 1)) = window ring from to ++ [h].
Proof.
  rewrite window_length. unfold in_u16. change queue_size with 8%nat. change (2 ^ 16) with 65536. intros F T L. pose proof (u16_range (to - from)) as R. unfold in_u16 in R.
  unfold window. assert (E : u16 (u16 (to + 1) - from) = u16 (to - from) + 1) by (unfold u16 in *; change (2 ^ 16) with 65536 in *; Z.to_euclidean_division_equations; lia).
  rewrite E, Z2Nat.inj_add by lia. change (Z.to_nat 1) with 1%nat. rewrite seq_app, map_app. cbn [map seq Nat.add]. rewrite Z2Nat.id by lia. f_equal.
  - apply map_ext_in. intros k K. apply in_seq in K. apply fn_lookup_insert_ne. rewrite slot_eq. unfold u16 in *. change (2 ^ 16) with 65536 in *. Z.to_euclidean_division_equations; lia.
  - f_equal. replace (slot (from + u16 (to - from))) with (slot to); [apply fn_lookup_insert|]. apply slot_eq. unfold u16. change (2 ^ 16) with 65536. Z.to_euclidean_division_equations; lia.
Qed.

(** * Descriptors *)

(** [l] is given back. *)
Record freed (l : list nat) (d d' : driver) : Prop := {
  f_free j : free d' j = free d j || bool_decide (j ∈ l);
  f_table j : j ∉ l -> table d' j = table d j;
  f_used : used_idx d' = used_idx d;
  f_info : info d' = info d;
  f_operations : operations d' = operations d;
}.

Lemma free_all_freed : forall l d, NoDup l -> (forall i, i ∈ l -> (i < queue_size)%nat /\ free d i = false) -> exists d', free_all l d = Some d' /\ freed l d d'.
Proof.
  induction l as [|i l IH]; intros d N B; cbn [free_all].
  - exists d. split; [reflexivity|]. split; auto. intros j. rewrite bool_decide_eq_false_2 by apply not_elem_of_nil. rewrite orb_false_r. reflexivity.
  - apply NoDup_cons in N as [Ni N]. destruct (B i (list_elem_of_here _ _)) as [Lt F]. unfold freeDescriptor at 1. rewrite (proj2 (Nat.leb_gt _ _) Lt), F. cbn [mbind option_bind].
    edestruct (IH (Driver (<[i:=no_descriptor]> (table d)) (<[i:=true]> (free d)) (used_idx d) (info d) (operations d)) N) as (d' & E & [Ff Ft Fu Fi Fo]).
    + intros j J. destruct (B j (list_elem_of_further _ _ _ J)) as [Lj Fj]. split; [exact Lj|]. cbn [free]. rewrite fn_lookup_insert_ne; [exact Fj|]. intros ->. exact (Ni J).
    + exists d'. split; [exact E|]. split; [| |exact Fu|exact Fi|exact Fo]; cbn [free table] in *.
      * intros j. rewrite Ff. destruct (decide (i = j)) as [->|Ne].
        -- rewrite fn_lookup_insert. rewrite (bool_decide_eq_true_2 (j ∈ j :: l)) by apply list_elem_of_here. rewrite orb_true_r. reflexivity.
        -- rewrite fn_lookup_insert_ne by exact Ne. f_equal. apply bool_decide_ext. rewrite elem_of_cons. split; [auto|intros [H|H]; [congruence|exact H]].
      * intros j J. apply not_elem_of_cons in J as [Ne J]. rewrite Ft by exact J. apply fn_lookup_insert_ne. congruence.
Qed.

Definition free_count (d : driver) : nat := length (List.filter (free d) (seq 0 queue_size)).

(** [l] is taken out of what is free in [d]. *)
Record taken_from (d : driver) (l : list nat) (d' : driver) : Prop := {
  t_driver : d' = set_free (free d') d;
  t_nodup : NoDup l;
  t_free i : i ∈ l -> (i < queue_size)%nat /\ free d i = true;
  t_left j : free d' j = free d j && negb (bool_decide (j ∈ l));
}.

(** The driver is as before; what free descriptors hold does not matter. *)
Definition as_before (d d' : driver) : Prop :=
  (forall j, free d' j = free d j) /\ (forall j, free d j = false -> table d' j = table d j) /\ used_idx d' = used_idx d /\ info d' = info d /\ operations d' = operations d.

Lemma alloc_slice d : forall n got d1, taken_from d got d1 ->
  exists r d2, allocDescriptorsSlice n got d1 = Some (r, d2) /\
    match r with Some l => taken_from d l d2 /\ length l = (length got + n)%nat | None => as_before d d2 /\ (free_count d < length got + n)%nat end.
Proof.
  induction n as [|n IH]; intros got d1 T; cbn [allocDescriptorsSlice].
  - exists (Some got), d1. split; [reflexivity|]. split; [exact T|lia].
  - destruct T as [D N B L]. unfold allocDescriptor. destruct (find (free d1) (seq 0 queue_size)) as [i|] eqn:E.
    + apply find_some in E as [In F]. apply in_seq in In. rewrite L in F. apply andb_true_iff in F as [F Ni]. apply negb_true_iff, bool_decide_eq_false in Ni.
      destruct (IH (got ++ [i]) (set_free (<[i:=false]> (free d1)) d1)) as (r & d2 & E2 & R).
      * split; cbn [set_free free].
        -- rewrite D. reflexivity.
        -- apply NoDup_app. split; [exact N|]. split; [|apply NoDup_singleton]. intros j J Ji. apply list_elem_of_singleton in Ji as ->. exact (Ni J).
        -- intros j J. apply elem_of_app in J as [J|J]; [exact (B j J)|]. apply list_elem_of_singleton in J as ->. split; [lia|exact F].
        -- intros j. destruct (decide (i = j)) as [->|Ne].
           ++ rewrite fn_lookup_insert, (bool_decide_eq_true_2 (j ∈ got ++ [j])) by (apply elem_of_app; right; apply list_elem_of_here). rewrite andb_false_r. reflexivity.
           ++ rewrite fn_lookup_insert_ne by exact Ne. rewrite L. do 2 f_equal. apply bool_decide_ext. rewrite elem_of_app, list_elem_of_singleton. split; [auto|intros [H|H]; [exact H|congruence]].
      * exists r, d2. split; [exact E2|]. rewrite length_app in R. cbn [length] in R. replace (length got + S n)%nat with (length got + 1 + n)%nat by lia. exact R.
    + destruct (free_all_freed got d1 N) as (d2 & E2 & [Ff Ft Fu Fi Fo]).
      { intros i I. split; [apply B, I|]. rewrite L, (bool_decide_eq_true_2 (i ∈ got)) by exact I. apply andb_false_r. }
      rewrite E2. exists None, d2. split; [reflexivity|]. split.
      * rewrite D in Fu, Fi, Fo. cbn [set_free used_idx info operations] in *. split; [|split; [|auto]].
        -- intros j. rewrite Ff, L. destruct (bool_decide_reflect (j ∈ got)) as [J|]; [|rewrite andb_true_r, orb_false_r; reflexivity]. rewrite (proj2 (B j J)). reflexivity.
        -- intros j F. rewrite Ft; [rewrite D; reflexivity|]. intros J. rewrite (proj2 (B j J)) in F. discriminate.
      * enough (free_count d <= length got)%nat by lia. apply NoDup_incl_length; [apply List.NoDup_filter, seq_NoDup|]. intros i I. apply filter_In in I as [In F].
        pose proof (find_none _ _ E i In) as Fn. rewrite L, F in Fn. apply negb_false_iff, bool_decide_eq_true in Fn. apply list_elem_of_In, Fn.
Qed.

(** * The state without who sleeps *)

Record call : Set := Call { c_buffer : nat; c_write : bool; c_chain : list nat }.
Definition calm (p : pstate) : call :=
  match p with Wants b w _ => Call b w [] | Posted b w i0 i1 i2 _ => Call b w [i0; i1; i2] end.

(** The chains the device has not read yet, has taken, and has used without the driver having seen it. *)
Definition queued (r : rings) (v : device) : list nat := window (avail r) (seen v) (avail_idx r).
Definition done (d : driver) (r : rings) : list nat := window (used r) (used_idx d) (dev_used_idx r).
Definition flight (d : driver) (r : rings) (v : device) : list nat := (queued r v ++ taken v) ++ done d r.

Lemma flight_in d r v h : h ∈ flight d r v <-> h ∈ queued r v \/ h ∈ taken v \/ h ∈ done d r.
Proof. unfold flight. rewrite !elem_of_app. tauto. Qed.

(** The descriptors of a request, as [submit] makes them. *)
Definition chain_ok (d : driver) (bs : nat -> buffer) (c : call) : Prop :=
  exists i0 i1 i2, c_chain c = [i0; i1; i2] /\
    table d i0 = Descriptor (Operation i0) 16 true false i1 /\
    table d i1 = Descriptor (Data (c_buffer c)) block_size true (negb (c_write c)) i2 /\
    table d i2 = Descriptor (Status i0) 1 false true 0 /\
    info d i0 = Some (c_buffer c) /\ operations d i0 = Request (c_write c) (number (bs (c_buffer c)) * 2).

Definition on_its_way (bs : nat -> buffer) (qs : gmap nat call) (h : nat) : Prop :=
  exists pid c l, qs !! pid = Some c /\ c_chain c = h :: l /\ disk_owned (bs (c_buffer c)) = true.

Record core (d : driver) (r : rings) (v : device) (bs : nat -> buffer) (qs : gmap nat call) : Prop := {
  k_chain pid c : qs !! pid = Some c -> c_chain c = [] \/ chain_ok d bs c;
  k_inside pid c i : qs !! pid = Some c -> i ∈ c_chain c -> (i < queue_size)%nat /\ free d i = false;
  k_nodup pid c : qs !! pid = Some c -> NoDup (c_chain c);
  k_apart pid pid' c c' i : qs !! pid = Some c -> qs !! pid' = Some c' -> i ∈ c_chain c -> i ∈ c_chain c' -> pid = pid';
  k_buffers pid pid' c c' : qs !! pid = Some c -> qs !! pid' = Some c' -> c_buffer c = c_buffer c' -> pid = pid';
  k_busy i : (i < queue_size)%nat -> free d i = false -> exists pid c, qs !! pid = Some c /\ i ∈ c_chain c;
  k_indices : in_u16 (seen v) /\ in_u16 (avail_idx r) /\ in_u16 (used_idx d) /\ in_u16 (dev_used_idx r);
  k_flight : NoDup (flight d r v);
  k_heads h : h ∈ flight d r v <-> on_its_way bs qs h;
  k_status h : h ∈ done d r -> status r h = ok_status;
}.

Lemma way_inside d r v bs qs h : core d r v bs qs -> on_its_way bs qs h -> (h < queue_size)%nat /\ free d h = false.
Proof. intros C (pid & c & l & Q & E & _). apply (k_inside _ _ _ _ _ C pid c h Q). rewrite E. apply list_elem_of_here. Qed.

(** Fewer than eight chains are under way, whatever part of them one looks at. *)
Lemma flight_room d r v bs qs (l : list nat) i : core d r v bs qs -> NoDup l -> (forall h, h ∈ l -> h ∈ flight d r v) -> (i < queue_size)%nat -> i ∉ l -> (length l < queue_size)%nat.
Proof.
  intros C N Sub Lt Ni. enough (length (i :: l) <= length (seq 0 queue_size))%nat by (rewrite length_seq in *; cbn [length] in *; lia).
  apply NoDup_incl_length; [constructor; [rewrite <- list_elem_of_In; exact Ni|apply NoDup_ListNoDup, N]|].
  intros h [<-|H]; apply in_seq; [lia|]. apply list_elem_of_In in H. apply Sub in H. apply (k_heads _ _ _ _ _ C) in H. apply (way_inside _ _ _ _ _ _ C) in H as [? _]. lia.
Qed.

(** ** Changes that chains do not notice *)

Lemma way_insert bs qs b x h : disk_owned x = disk_owned (bs b) \/ (forall pid c, qs !! pid = Some c -> c_buffer c = b -> c_chain c = []) ->
  on_its_way (<[b := x]> bs) qs h <-> on_its_way bs qs h.
Proof.
  intros S. enough (forall pid c l, qs !! pid = Some c -> c_chain c = h :: l -> disk_owned (<[b := x]> bs (c_buffer c)) = disk_owned (bs (c_buffer c))) as E.
  { unfold on_its_way. split; intros (pid & c & l & Q & Ch & O); exists pid, c, l; (split; [exact Q|split; [exact Ch|]]); [rewrite <- (E pid c l Q Ch)|rewrite (E pid c l Q Ch)]; exact O. }
  intros pid c l Q Ch. destruct (decide (b = c_buffer c)) as [->|N]; [|rewrite fn_lookup_insert_ne by exact N; reflexivity]. rewrite fn_lookup_insert.
  destruct S as [S|S]; [exact S|]. rewrite (S pid c Q eq_refl) in Ch. discriminate.
Qed.

Lemma chain_number d bs bs' c : chain_ok d bs c -> number (bs' (c_buffer c)) = number (bs (c_buffer c)) -> chain_ok d bs' c.
Proof. intros (i0 & i1 & i2 & H) E. exists i0, i1, i2. rewrite E. exact H. Qed.

Lemma core_changed d r v bs qs b x : core d r v bs qs -> (forall pid c, qs !! pid = Some c -> c_buffer c <> b) -> core d r v (<[b := x]> bs) qs.
Proof.
  intros C U. pose proof C as [C1 C2 C3 C4 C5 C6 C7 C8 C9 C10]. split; try assumption.
  - intros pid c Q. destruct (C1 pid c Q) as [E|Ok]; [left; exact E|right]. apply (chain_number _ _ _ _ Ok). rewrite fn_lookup_insert_ne; [reflexivity|]. intros ->. exact (U pid c Q eq_refl).
  - intros h. rewrite C9. symmetry. apply way_insert. right. intros pid c Q E. destruct (U pid c Q E).
Qed.

(** The data of a buffer change, but neither its block nor its owner. *)
Lemma core_data d r v bs qs b l : core d r v bs qs -> core d r v (<[b := Buffer (number (bs b)) l (disk_owned (bs b))]> bs) qs.
Proof.
  intros C. pose proof C as [C1 C2 C3 C4 C5 C6 C7 C8 C9 C10]. split; try assumption.
  - intros pid c Q. destruct (C1 pid c Q) as [E|Ok]; [left; exact E|right]. apply (chain_number _ _ _ _ Ok). destruct (decide (b = c_buffer c)) as [<-|N]; [rewrite fn_lookup_insert|rewrite fn_lookup_insert_ne by exact N]; reflexivity.
  - intros h. rewrite C9. symmetry. apply way_insert. left. reflexivity.
Qed.

Lemma core_called d r v bs qs pid b w : core d r v bs qs -> qs !! pid = None -> (forall pid' c, qs !! pid' = Some c -> c_buffer c <> b) -> core d r v bs (<[pid := Call b w []]> qs).
Proof.
  intros [C1 C2 C3 C4 C5 C6 C7 C8 C9 C10] Fr U. split; try assumption.
  - intros p c. rewrite lookup_insert. case_decide; [intros E; injection E as <-; left; reflexivity|apply C1].
  - intros p c i. rewrite lookup_insert. case_decide; [intros E I; injection E as <-; inversion I|apply C2].
  - intros p c. rewrite lookup_insert. case_decide; [intros E; injection E as <-; constructor|apply C3].
  - intros p p' c c' i. rewrite !lookup_insert. case_decide; [intros E _ I; injection E as <-; inversion I|]. case_decide; [intros _ E _ I; injection E as <-; inversion I|apply C4].
  - intros p p' c c'. rewrite !lookup_insert. case_decide as D; case_decide as D'; intros E E' B.
    + congruence.
    + injection E as <-. destruct (U p' c' E'). symmetry. exact B.
    + injection E' as <-. destruct (U p c E). exact B.
    + exact (C5 p p' c c' E E' B).
  - intros i Lt F. destruct (C6 i Lt F) as (p & c & Q & I). exists p, c. split; [|exact I]. rewrite lookup_insert_ne; [exact Q|]. intros ->. congruence.
  - intros h. rewrite C9. unfold on_its_way. split; intros (p & c & l & Q & Ch & O); exists p, c, l; (split; [|split; assumption]); revert Q; rewrite lookup_insert; case_decide; try congruence; auto.
    intros E. injection E as <-. discriminate.
Qed.

Lemma core_as_before d d' r v bs qs : core d r v bs qs -> as_before d d' -> core d' r v bs qs.
Proof.
  intros [C1 C2 C3 C4 C5 C6 C7 C8 C9 C10] (Ff & Ft & Fu & Fi & Fo).
  split; try assumption; unfold flight, done in *; rewrite ?Fu; try assumption; [|intros pid c i; rewrite Ff; apply C2|intros i; rewrite Ff; apply C6].
  intros pid c Q. destruct (C1 pid c Q) as [E|(i0 & i1 & i2 & Ch & T0 & T1 & T2 & I & O)]; [left; exact E|right].
  assert (B : forall i, i ∈ c_chain c -> table d' i = table d i) by (intros i J; apply Ft, (C2 pid c i Q J)). rewrite Ch in B.
  exists i0, i1, i2. rewrite !B by in_list. rewrite Fi, Fo. auto 10.
Qed.

(** ** A request is handed over *)

Lemma submitted_chain d r bs b i0 i1 i2 w : NoDup [i0; i1; i2] ->
  let '(d', _, bs') := submit b i0 i1 i2 w d r bs in
  chain_ok d' bs' (Call b w [i0; i1; i2]) /\ (forall i, i ∉ [i0; i1; i2] -> table d' i = table d i) /\ (forall i, i <> i0 -> info d' i = info d i /\ operations d' i = operations d i).
Proof.
  intros N. apply NoDup_cons in N as [N0 N]. apply NoDup_cons in N as [N1 _]. apply not_elem_of_cons in N0 as [N01 N02]. assert (N2 : i0 <> i2) by (intros ->; apply N02, list_elem_of_here). assert (N12 : i1 <> i2) by (intros ->; apply N1, list_elem_of_here).
  unfold submit, block_size, sector_size. split; [|split; cbn [table info operations]].
  - exists i0, i1, i2. cbn [c_chain c_buffer c_write table info operations]. repeat first [rewrite fn_lookup_insert | rewrite fn_lookup_insert_ne by congruence]. repeat (split; [reflexivity|]). reflexivity.
  - intros i I. rewrite !not_elem_of_cons in I. repeat rewrite fn_lookup_insert_ne by naive_solver. reflexivity.
  - intros i I. repeat rewrite fn_lookup_insert_ne by auto. auto.
Qed.

(** A chain that is made available goes behind those that are queued. *)
Lemma submit_queued d r v bs qs i0 : core d r v bs qs -> (i0 < queue_size)%nat -> i0 ∉ flight d r v ->
  queued (Rings (u16 (avail_idx r + 1)) (<[slot (avail_idx r) := i0]> (avail r)) (dev_used_idx r) (used r) (<[i0 := pending]> (status r))) v = queued r v ++ [i0].
Proof.
  intros C Lt Ni. pose proof (k_indices _ _ _ _ _ C) as (S1 & S2 & _). apply window_push; [exact S1|exact S2|].
  pose proof (k_flight _ _ _ _ _ C) as N. unfold flight in N. apply NoDup_app in N as [N _]. apply NoDup_app in N as [N _].
  apply (flight_room d r v bs qs (queued r v) i0 C N); [intros h I; apply flight_in; auto|exact Lt|intros I; apply Ni, flight_in; auto].
Qed.

Lemma core_submit d d1 r v bs qs pid b w i0 i1 i2 : core d r v bs qs -> taken_from d [i0; i1; i2] d1 -> qs !! pid = Some (Call b w []) ->
  let '(d', r', bs') := submit b i0 i1 i2 w d1 r bs in core d' r' v bs' (<[pid := Call b w [i0; i1; i2]]> qs).
Proof.
  intros C T Q. pose proof C as [C1 C2 C3 C4 C5 C6 C7 C8 C9 C10]. destruct T as [D N B L].
  assert (In0 : i0 ∈ [i0; i1; i2]) by apply list_elem_of_here. destruct (B i0 In0) as [Lt0 F0].
  assert (Ni0 : i0 ∉ flight d r v) by (rewrite C9; intros W; apply (way_inside _ _ _ _ _ _ C) in W as [_ W]; congruence).
  assert (Apart : forall p c i, qs !! p = Some c -> i ∈ c_chain c -> i ∉ [i0; i1; i2]) by (intros p c i Qp I J; destruct (C2 p c i Qp I) as [_ F]; destruct (B i J); congruence).
  pose proof (submitted_chain d1 r bs b i0 i1 i2 w N) as S. unfold submit in *. destruct S as (Ok & St & Si).
  assert (Tab : table d1 = table d /\ used_idx d1 = used_idx d /\ info d1 = info d /\ operations d1 = operations d) by (rewrite D; auto). destruct Tab as (Et & Eu & Ei & Eo).
  pose proof (submit_queued d r v bs qs i0 C Lt0 Ni0) as Push.
  split; cbn [used_idx dev_used_idx avail_idx free].
  - intros p c. rewrite lookup_insert. case_decide; [intros E; injection E as <-; right; exact Ok|]. intros E. destruct (C1 p c E) as [Nil|(j0 & j1 & j2 & Ch & T0 & T1 & T2 & I & O)]; [left; exact Nil|right].
    assert (Nb : b <> c_buffer c) by (intros ->; pose proof (C5 p pid c _ E Q eq_refl); congruence).
    assert (Ap : forall i, i ∈ [j0; j1; j2] -> i ∉ [i0; i1; i2]) by (intros i J; rewrite <- Ch in J; exact (Apart p c i E J)).
    exists j0, j1, j2. rewrite !St by (apply Ap; in_list). destruct (Si j0) as [-> ->]; [intros ->; apply (Ap i0); in_list|]. rewrite fn_lookup_insert_ne by exact Nb. rewrite Et, Ei, Eo. auto 10.
  - intros p c i. rewrite lookup_insert, L. case_decide; intros E I.
    + injection E as <-. cbn [c_chain] in I. split; [apply B, I|]. rewrite (bool_decide_eq_true_2 (i ∈ _)) by exact I. apply andb_false_r.
    + destruct (C2 p c i E I) as [Lt F]. rewrite F. auto.
  - intros p c. rewrite lookup_insert. case_decide; [intros E; injection E as <-; exact N|apply C3].
  - intros p p' c c' i. rewrite !lookup_insert. case_decide; case_decide; intros E E' I I'; subst.
    + reflexivity.
    + injection E as <-. destruct (Apart p' c' i E' I' I).
    + injection E' as <-. destruct (Apart p c i E I I').
    + exact (C4 p p' c c' i E E' I I').
  - intros p p' c c'. rewrite !lookup_insert. case_decide; case_decide; intros E E' Eb; subst; auto.
    + injection E as <-. exact (C5 p p' _ c' Q E' Eb).
    + injection E' as <-. exact (C5 p p' c _ E Q Eb).
    + exact (C5 p p' c c' E E' Eb).
  - intros i Lt F. rewrite L in F. apply andb_false_iff in F as [F|F].
    + destruct (C6 i Lt F) as (p & c & Qp & I). exists p, c. split; [|exact I]. rewrite lookup_insert_ne; [exact Qp|]. intros ->. rewrite Q in Qp. injection Qp as <-. inversion I.
    + apply negb_false_iff, bool_decide_eq_true in F. exists pid, (Call b w [i0; i1; i2]). split; [apply lookup_insert_eq|exact F].
  - rewrite Eu. split; [apply C7|]. split; [apply u16_range|]. split; apply C7.
  - unfold flight, done. rewrite Push. cbn [used_idx dev_used_idx used]. rewrite Eu. change (window (used r) (used_idx d) (dev_used_idx r)) with (done d r).
    assert (P : ((queued r v ++ [i0]) ++ taken v) ++ done d r ≡ₚ i0 :: flight d r v) by (unfold flight; solve_Permutation). rewrite P. constructor; assumption.
  - intros h. assert (M : h ∈ flight d r v \/ h = i0 <-> on_its_way (<[b := Buffer (number (bs b)) (data (bs b)) true]> bs) (<[pid := Call b w [i0; i1; i2]]> qs) h).
    { rewrite C9. unfold on_its_way. split.
      - intros [(p & c & l & Qp & Ch & O)| ->]; [|exists pid, (Call b w [i0; i1; i2]), [i1; i2]; rewrite lookup_insert_eq; cbn [c_buffer]; rewrite fn_lookup_insert; auto].
        assert (Np : pid <> p) by (intros ->; rewrite Q in Qp; injection Qp as <-; discriminate). exists p, c, l. rewrite lookup_insert_ne by exact Np. split; [exact Qp|]. split; [exact Ch|].
        rewrite fn_lookup_insert_ne; [exact O|]. intros ->. apply Np. symmetry. exact (C5 p pid c _ Qp Q eq_refl).
      - intros (p & c & l & Qp & Ch & O). revert Qp. rewrite lookup_insert. case_decide; intros E; [injection E as <-; cbn in Ch; right; congruence|]. left. exists p, c, l. split; [exact E|]. split; [exact Ch|].
        rewrite fn_lookup_insert_ne in O; [exact O|]. intros ->. pose proof (C5 p pid c _ E Q eq_refl). congruence. }
    rewrite <- M, (flight_in d r v). unfold flight, done. rewrite Push. cbn [used_idx dev_used_idx used]. rewrite Eu. change (window (used r) (used_idx d) (dev_used_idx r)) with (done d r). rewrite !elem_of_app, list_elem_of_singleton. tauto.
  - intros h. unfold done. cbn [used_idx dev_used_idx used status]. rewrite Eu. intros I. rewrite fn_lookup_insert_ne; [apply C10, I|]. intros ->. apply Ni0, flight_in. auto.
Qed.

(** ** A request is over *)

Lemma core_returned d d' r v bs qs pid c : core d r v bs qs -> qs !! pid = Some c -> c_chain c <> [] -> disk_owned (bs (c_buffer c)) = false ->
  freed (c_chain c) (set_info (<[hd O (c_chain c) := None]> (info d)) d) d' -> core d' r v bs (delete pid qs).
Proof.
  intros C Q Nn Nd [Ff Ft Fu Fi Fo]. pose proof C as [C1 C2 C3 C4 C5 C6 C7 C8 C9 C10]. cbn [set_info table free used_idx info operations] in *.
  assert (Ap : forall p c' i, delete pid qs !! p = Some c' -> i ∈ c_chain c' -> qs !! p = Some c' /\ i ∉ c_chain c).
  { intros p c' i. rewrite lookup_delete. case_decide as D; [discriminate|]. intros E I. split; [exact E|]. intros J. exact (D (C4 pid p c c' i Q E J I)). }
  assert (Sub : forall p c', delete pid qs !! p = Some c' -> qs !! p = Some c') by (intros p c'; rewrite lookup_delete; case_decide; [discriminate|auto]).
  split; unfold flight, done in *; rewrite ?Fu; try assumption.
  - intros p c' E. destruct (C1 p c' (Sub p c' E)) as [Nil|(i0 & i1 & i2 & Ch & T0 & T1 & T2 & I & O)]; [left; exact Nil|right].
    assert (A : forall i, i ∈ [i0; i1; i2] -> i ∉ c_chain c) by (intros i J; rewrite <- Ch in J; exact (proj2 (Ap p c' i E J))).
    exists i0, i1, i2. rewrite !Ft by (apply A; in_list). rewrite Fi, Fo, fn_lookup_insert_ne; [auto 10|]. intros H. apply (A i0); [in_list|]. rewrite <- H. destruct (c_chain c); [destruct (Nn eq_refl)|in_list].
  - intros p c' i E I. destruct (Ap p c' i E I) as [E' Ni]. destruct (C2 p c' i E' I) as [Lt F]. split; [exact Lt|]. rewrite Ff, F. apply bool_decide_eq_false_2, Ni.
  - intros p c' E. exact (C3 p c' (Sub p c' E)).
  - intros p p' c1 c2 i E E'. exact (C4 p p' c1 c2 i (Sub _ _ E) (Sub _ _ E')).
  - intros p p' c1 c2 E E'. exact (C5 p p' c1 c2 (Sub _ _ E) (Sub _ _ E')).
  - intros i Lt. rewrite Ff. intros F. apply orb_false_iff in F as [F Ni]. apply bool_decide_eq_false in Ni. destruct (C6 i Lt F) as (p & c' & E & I). exists p, c'. split; [|exact I].
    rewrite lookup_delete_ne; [exact E|]. intros ->. rewrite Q in E. injection E as <-. exact (Ni I).
  - intros h. rewrite C9. unfold on_its_way. split; intros (p & c' & l & E & Ch & O); exists p, c', l; (split; [|auto]); [|exact (Sub _ _ E)].
    rewrite lookup_delete_ne; [exact E|]. intros ->. congruence.
Qed.

(** ** The interrupt *)

Lemma done_pop d r : in_u16 (used_idx d) -> in_u16 (dev_used_idx r) -> used_idx d <> dev_used_idx r -> done d r = used r (slot (used_idx d)) :: window (used r) (u16 (used_idx d + 1)) (dev_used_idx r).
Proof. intros. apply window_pop; assumption. Qed.

Lemma core_handle d r v bs qs : core d r v bs qs -> used_idx d <> dev_used_idx r ->
  exists b d' bs', handle d r bs = Some (b, d', bs') /\ core d' r v bs' qs /\ free d' = free d /\ done d r = used r (slot (used_idx d)) :: done d' r /\
    bs' = <[b := Buffer (number (bs b)) (data (bs b)) false]> bs.
Proof.
  intros C Ne. pose proof C as [C1 C2 C3 C4 C5 C6 C7 C8 C9 C10]. destruct C7 as (S1 & S2 & S3 & S4). pose proof (done_pop d r S3 S4 Ne) as Pop. set (h := used r (slot (used_idx d))) in *.
  assert (Hd : h ∈ done d r) by (rewrite Pop; in_list). pose proof (proj2 (flight_in d r v h) (or_intror (or_intror Hd))) as Hf.
  pose proof (proj1 (C9 h) Hf) as (pid & c & l & Q & Ch & O). destruct (C2 pid c h Q) as [Lt _]; [rewrite Ch; in_list|].
  destruct (C1 pid c Q) as [Nil|(i0 & i1 & i2 & Ch' & T0 & T1 & T2 & I & Op)]; [congruence|]. assert (i0 = h) as -> by congruence.
  unfold handle. fold h. rewrite (proj2 (Nat.leb_gt _ _) Lt), (C10 h Hd), Z.eqb_refl, I. cbn [negb]. do 3 eexists. split; [reflexivity|]. split; [|auto].
  assert (P : flight d r v ≡ₚ h :: (queued r v ++ taken v) ++ window (used r) (u16 (used_idx d + 1)) (dev_used_idx r)) by (unfold flight; rewrite Pop; solve_Permutation).
  pose proof C8 as N. rewrite P in N. apply NoDup_cons in N as [Nh N].
  split; unfold flight, done; cbn [used_idx free table info operations]; try assumption.
  - intros p c' E. destruct (C1 p c' E) as [Nil|Ok]; [left; exact Nil|right]. apply (chain_number _ bs); [exact Ok|]. destruct (decide (c_buffer c = c_buffer c')) as [<-|Nb]; [rewrite fn_lookup_insert|rewrite fn_lookup_insert_ne by exact Nb]; reflexivity.
  - split; [exact S1|]. split; [exact S2|]. split; [apply u16_range|exact S4].
  - intros k. transitivity (k ∈ flight d r v /\ k <> h).
    + rewrite P, elem_of_cons. split; [intros K; split; [auto|intros ->; exact (Nh K)]|intros [[K|K] Nk]; [congruence|exact K]].
    + rewrite C9. unfold on_its_way. split.
      * intros [(p & c' & l' & E & Ch2 & O2) Nk]. exists p, c', l'. split; [exact E|]. split; [exact Ch2|]. rewrite fn_lookup_insert_ne; [exact O2|]. intros Eb. pose proof (C5 pid p c c' Q E Eb). congruence.
      * intros (p & c' & l' & E & Ch2 & O2). destruct (decide (c_buffer c = c_buffer c')) as [Eb|Nb].
        -- rewrite Eb, fn_lookup_insert in O2. discriminate.
        -- rewrite fn_lookup_insert_ne in O2 by exact Nb. split; [eauto 10|]. intros ->. apply Nb. f_equal. pose proof (C4 pid p c c' h Q E ltac:(rewrite Ch; in_list) ltac:(rewrite Ch2; in_list)). congruence.
  - intros k K. apply C10. rewrite Pop. apply list_elem_of_further, K.
Qed.

(** ** The device *)

Lemma core_take d r v bs qs : core d r v bs qs -> seen v <> avail_idx r -> core d r (Device (u16 (seen v + 1)) (taken v ++ [avail r (slot (seen v))]) (disk v)) bs qs.
Proof.
  intros [C1 C2 C3 C4 C5 C6 C7 C8 C9 C10] Ne. destruct C7 as (S1 & S2 & S3 & S4).
  assert (Pop : queued r v = avail r (slot (seen v)) :: window (avail r) (u16 (seen v + 1)) (avail_idx r)) by (apply window_pop; assumption).
  assert (P : flight d r v ≡ₚ flight d r (Device (u16 (seen v + 1)) (taken v ++ [avail r (slot (seen v))]) (disk v))) by (unfold flight; rewrite Pop; unfold queued; cbn [seen taken]; solve_Permutation).
  split; try assumption.
  - split; [apply u16_range|]. auto.
  - rewrite <- P. exact C8.
  - intros h. rewrite <- P. apply C9.
Qed.

Lemma core_transfer d r v bs qs h : core d r v bs qs -> h ∈ taken v ->
  exists pid c l r' v' bs', qs !! pid = Some c /\ c_chain c = h :: l /\ transfer h d r v bs = Some (r', v', bs') /\ core d r' v' bs' qs /\
    queued r' v' = queued r v /\ done d r' = done d r ++ [h] /\ taken v' = filter (fun k => k <> h) (taken v) /\
    (if c_write c then disk v' = store (disk v) (1024 * number (bs (c_buffer c))) (firstn 1024 (data (bs (c_buffer c)))) /\ bs' = bs
     else disk v' = disk v /\ bs' = <[c_buffer c := Buffer (number (bs (c_buffer c))) (load (disk v) (1024 * number (bs (c_buffer c))) 1024) (disk_owned (bs (c_buffer c)))]> bs).
Proof.
  intros C Ht. pose proof C as [C1 C2 C3 C4 C5 C6 C7 C8 C9 C10]. pose proof (proj2 (flight_in d r v h) (or_intror (or_introl Ht))) as Hf.
  pose proof (proj1 (C9 h) Hf) as (pid & c & l & Q & Ch & O). destruct (C2 pid c h Q) as [Lt _]; [rewrite Ch; in_list|].
  destruct (C1 pid c Q) as [Nil|(i0 & i1 & i2 & Ch' & T0 & T1 & T2 & I & Op)]; [congruence|]. assert (i0 = h) as -> by congruence.
  set (r' := Rings (avail_idx r) (avail r) (u16 (dev_used_idx r + 1)) (<[slot (dev_used_idx r) := h]> (used r)) (<[h := ok_status]> (status r))).
  assert (Dn : done d r' = done d r ++ [h]).
  { unfold done, r'. cbn [used dev_used_idx]. apply window_push; [apply C7..|]. pose proof C8 as N. unfold flight in N. apply NoDup_app in N as (Nqt & Dj & N).
    apply (flight_room d r v bs qs _ h C N); [intros k K; apply flight_in; auto|exact Lt|apply Dj, elem_of_app; auto]. }
  assert (K : forall m, core d r' (Device (seen v) (filter (fun k => k <> h) (taken v)) m) bs qs).
  { intros m. assert (Nt : NoDup (taken v)) by (pose proof C8 as N; unfold flight in N; apply NoDup_app in N as [N _]; apply NoDup_app in N as (_ & _ & N); exact N).
    assert (Pt : taken v ≡ₚ h :: filter (fun k => k <> h) (taken v)).
    { apply NoDup_Permutation; [exact Nt|apply NoDup_cons; split; [rewrite list_elem_of_filter; tauto|apply NoDup_filter, Nt]|]. intros k. rewrite elem_of_cons, list_elem_of_filter. destruct (decide (k = h)) as [->|]; tauto. }
    assert (P : flight d r v ≡ₚ flight d r' (Device (seen v) (filter (fun k => k <> h) (taken v)) m)).
    { unfold flight. rewrite Dn. change (queued r' _) with (queued r v). cbn [taken]. rewrite Pt at 1. solve_Permutation. }
    split; try assumption.
    - cbn [r' avail_idx dev_used_idx seen]. destruct C7 as (S1 & S2 & S3 & S4). split; [exact S1|]. split; [exact S2|]. split; [exact S3|apply u16_range].
    - rewrite <- P. exact C8.
    - intros k. rewrite <- P. apply C9.
    - intros k. rewrite Dn, elem_of_app, list_elem_of_singleton. cbn [r' status]. destruct (decide (h = k)) as [->|Nk]; [intros _; apply fn_lookup_insert|]. rewrite fn_lookup_insert_ne by exact Nk. intros [D|D]; [apply C10, D|congruence]. }
  exists pid, c, l. unfold transfer. rewrite T0. cbn [next_index d_address d_length d_next d_write]. rewrite T1. cbn [next_index d_address d_length d_next d_write]. rewrite T2. cbn [next_index d_address d_length d_next d_write].
  rewrite Op. cbn [out sector]. rewrite Bool.eqb_reflx. cbn [Z.eqb Pos.eqb andb negb]. replace (number (bs (c_buffer c)) * 2 * sector_size) with (1024 * number (bs (c_buffer c))) by (unfold sector_size; lia). fold r'. change (Z.to_nat block_size) with 1024%nat.
  destruct (c_write c); do 3 eexists; (split; [exact Q|]); (split; [exact Ch|]); (split; [reflexivity|]); (split; [|split; [reflexivity|split; [exact Dn|split; [reflexivity|split; reflexivity]]]]); [apply K|apply core_data, K].
Qed.
