(* ===== verification/KDiskMain.v ===== *)
(** The driver of the disk makes a block device of the rings and the interrupts. *)

From S2P Require Import Prelude Mem.
From stdpp Require Import base gmap functions list.
From S2P Require Import KDisk KDiskSpec.

Local Open Scope Z_scope.

(** * A block device *)

(** Processes ask for a block to be read into a buffer or written from it; at some moment between the call and the
    return the whole block is moved, once. *)
Record block_call : Set := BlockCall { o_buffer : nat; o_write : bool; o_done : bool }.
Record block_device : Type := BlockDevice { b_disk : mem; b_buffer : nat -> Z * list Z; b_calls : gmap nat block_call }.

Definition move (w : bool) (b : nat) (m : mem) (f : nat -> Z * list Z) : mem * (nat -> Z * list Z) :=
  let '(n, l) := f b in
  if w then (store m (1024 * n) (firstn 1024 l), f) else (m, <[b := (n, load m (1024 * n) 1024)]> f).

Inductive block_step : block_device -> event -> block_device -> Prop :=
| b_changed b n l m f ops : (forall pid o, ops !! pid = Some o -> o_buffer o <> b) -> block_step (BlockDevice m f ops) (Changed b n l) (BlockDevice m (<[b := (n, l)]> f) ops)
| b_called pid b w m f ops : ops !! pid = None -> block_step (BlockDevice m f ops) (Called pid b w) (BlockDevice m f (<[pid := BlockCall b w false]> ops))
| b_moved pid b w m f ops m' f' : ops !! pid = Some (BlockCall b w false) -> move w b m f = (m', f') ->
    block_step (BlockDevice m f ops) (Moved pid) (BlockDevice m' f' (<[pid := BlockCall b w true]> ops))
| b_returned pid b w m f ops : ops !! pid = Some (BlockCall b w true) -> block_step (BlockDevice m f ops) (Returned pid) (BlockDevice m f (delete pid ops))
| b_internal a : block_step a Internal a.

Inductive block_steps : block_device -> list event -> block_device -> Prop :=
| block_steps_refl a : block_steps a [] a
| block_steps_next a e a1 t a' : block_step a e a1 -> block_steps a1 t a' -> block_steps a (e :: t) a'.

(** A request is done once its chain is neither queued nor with the device. *)
Definition finished (r : rings) (v : device) (c : call) : bool :=
  match c_chain c with [] => false | h :: _ => bool_decide (h ∉ queued r v ++ taken v) end.
Definition op_of (r : rings) (v : device) (c : call) : block_call := BlockCall (c_buffer c) (c_write c) (finished r v c).

Record shows (s : st) (a : block_device) : Prop := {
  sh_disk : b_disk a = disk (dev s);
  sh_buffer b : b_buffer a b = (number (bufs s b), data (bufs s b));
  sh_calls pid : b_calls a !! pid = op_of (shr s) (dev s) <$> (calm <$> procs s) !! pid;
}.

(** * What always holds *)

Record asleep_ok (s : st) : Prop := {
  a_posted pid b w i0 i1 i2 : procs s !! pid = Some (Posted b w i0 i1 i2 true) -> disk_owned (bufs s b) = true;
  a_wants pid b w : procs s !! pid = Some (Wants b w true) -> (free_count (drv s) < 3)%nat;
}.
Definition inv (s : st) : Prop := core (drv s) (shr s) (dev s) (bufs s) (calm <$> procs s) /\ asleep_ok s.

Lemma calm_wake_free ps : calm <$> (wake_free <$> ps) = calm <$> (ps : gmap nat pstate).
Proof. rewrite <- map_fmap_compose. apply map_fmap_ext. intros pid p _. destruct p; reflexivity. Qed.
Lemma calm_wake_buffer b ps : calm <$> (wake_buffer b <$> ps) = calm <$> (ps : gmap nat pstate).
Proof. rewrite <- map_fmap_compose. apply map_fmap_ext. intros pid p _. destruct p; reflexivity. Qed.
Lemma calm_same pid p p' ps : ps !! pid = Some p -> calm p' = calm p -> calm <$> <[pid := p']> ps = calm <$> (ps : gmap nat pstate).
Proof. intros Q E. rewrite fmap_insert, E. apply insert_id. rewrite lookup_fmap, Q. reflexivity. Qed.
Lemma calm_lookup pid p (ps : gmap nat pstate) : ps !! pid = Some p -> (calm <$> ps) !! pid = Some (calm p).
Proof. intros Q. rewrite lookup_fmap, Q. reflexivity. Qed.
Lemma calm_buffer p : c_buffer (calm p) = buffer_of p.
Proof. destruct p; reflexivity. Qed.
Lemma calm_unused b (ps : gmap nat pstate) : unused b ps -> forall pid c, (calm <$> ps) !! pid = Some c -> c_buffer c <> b.
Proof. intros U pid c. rewrite lookup_fmap. intros E. apply fmap_Some in E as (p & Q & ->). rewrite calm_buffer. exact (U pid p Q). Qed.

Lemma free_count_le d d' : (forall j, free d' j = true -> free d j = true) -> (free_count d' <= free_count d)%nat.
Proof.
  intros S. unfold free_count. apply NoDup_incl_length; [apply List.NoDup_filter, seq_NoDup|]. intros i I. apply filter_In in I as [I F]. apply filter_In. auto.
Qed.

Lemma free_count_chain d l : NoDup l -> (forall i, i ∈ l -> (i < queue_size)%nat /\ free d i = true) -> (length l <= free_count d)%nat.
Proof.
  intros N S. apply NoDup_incl_length; [apply NoDup_ListNoDup, N|]. intros i I. apply list_elem_of_In in I. destruct (S i I). apply filter_In. split; [apply in_seq; lia|assumption].
Qed.

(** ** Turns of processes *)

Lemma none_taken d : taken_from d [] d.
Proof. split; [destruct d; reflexivity|constructor|intros i I; inversion I|]. intros j. rewrite bool_decide_eq_false_2 by apply not_elem_of_nil. rewrite andb_true_r. reflexivity. Qed.

(** A process that wants descriptors hands its request over or goes to sleep. *)
Lemma start_turn_spec s pid b w : inv s -> procs s !! pid = Some (Wants b w false) ->
  exists s', start_turn pid b w s = Some s' /\ inv s' /\ dev s' = dev s /\ interrupted s' = interrupted s /\
    (forall x, number (bufs s' x) = number (bufs s x) /\ data (bufs s' x) = data (bufs s x)) /\
    ((exists i0 i1 i2, calm <$> procs s' = <[pid := Call b w [i0; i1; i2]]> (calm <$> procs s) /\ i0 ∉ flight (drv s) (shr s) (dev s) /\ queued (shr s') (dev s') = queued (shr s) (dev s) ++ [i0] /\
       procs s' !! pid = Some (Posted b w i0 i1 i2 true)) \/
     (free_count (drv s) < 3)%nat /\ calm <$> procs s' = calm <$> procs s /\ queued (shr s') (dev s') = queued (shr s) (dev s)).
Proof.
  intros [C [A1 A2]] Q. pose proof (calm_lookup pid _ _ Q) as Qc. unfold start_turn. destruct (alloc_slice (drv s) 3 [] (drv s) (none_taken _)) as (o & d1 & E & R). rewrite E. destruct o as [l|].
  - destruct R as [T L]. destruct l as [|i0 [|i1 [|i2 [|]]]]; try discriminate L. pose proof (core_submit _ _ _ _ _ _ _ b w i0 i1 i2 C T Qc) as C'.
    destruct (t_free _ _ _ T i0) as [Lt0 F0]; [in_list|]. assert (Ni0 : i0 ∉ flight (drv s) (shr s) (dev s)).
    { rewrite (k_heads _ _ _ _ _ C). intros W. apply (way_inside _ _ _ _ _ _ C) in W as [_ W]. congruence. }
    pose proof (submit_queued _ _ _ _ _ i0 C Lt0 Ni0) as Push. unfold submit in *. eexists. split; [reflexivity|]. cbn [dev interrupted bufs procs shr].
    split; [split; cbn [drv shr dev bufs procs]; [rewrite fmap_insert; exact C'|split; cbn [procs bufs drv]]|].
    + intros p b' w' j0 j1 j2. rewrite lookup_insert. case_decide as D; intros Ep; [injection Ep as <- _ _ _ _; rewrite fn_lookup_insert; reflexivity|].
      rewrite fn_lookup_insert_ne; [exact (A1 p _ _ _ _ _ Ep)|]. intros ->. apply D. exact (k_buffers _ _ _ _ _ C pid p _ _ Qc (calm_lookup p _ _ Ep) eq_refl).
    + intros p b' w'. rewrite lookup_insert. case_decide; intros Ep; [discriminate|]. apply (Nat.le_lt_trans _ (free_count (drv s))); [|exact (A2 p b' w' Ep)].
      apply free_count_le. cbn [free]. intros j. rewrite (t_left _ _ _ T). intros F. apply andb_true_iff in F. apply F.
    + split; [reflexivity|]. split; [reflexivity|]. split; [|left; exists i0, i1, i2; rewrite fmap_insert, lookup_insert_eq; auto].
      intros x. destruct (decide (b = x)) as [->|N]; [rewrite fn_lookup_insert|rewrite fn_lookup_insert_ne by exact N]; auto.
  - destruct R as [Ab Lt]. eexists. split; [reflexivity|]. cbn [dev interrupted bufs procs shr].
    set (ps := if existsb _ _ then _ else _). assert (Cp : calm <$> ps = calm <$> procs s) by (unfold ps; destruct (existsb _ _); [apply calm_wake_free|reflexivity]).
    assert (Sl : forall p b' w' i0 i1 i2 a, ps !! p = Some (Posted b' w' i0 i1 i2 a) -> procs s !! p = Some (Posted b' w' i0 i1 i2 a)).
    { intros p b' w' i0 i1 i2 a. unfold ps. destruct (existsb _ _); [|auto]. rewrite lookup_fmap. intros H. apply fmap_Some in H as (x & H & Ex). destruct x; cbn in Ex; [discriminate|]. congruence. }
    assert (Cs : calm <$> <[pid:=Wants b w true]> ps = calm <$> procs s) by (rewrite fmap_insert, Cp; apply insert_id; exact Qc).
    assert (Fc : free_count d1 = free_count (drv s)) by (unfold free_count; f_equal; apply List.filter_ext; apply Ab).
    split; [split; cbn [drv shr dev bufs procs]; [rewrite Cs; exact (core_as_before _ _ _ _ _ _ C Ab)|split; cbn [procs bufs drv]]|].
    + intros p b' w' i0 i1 i2. rewrite lookup_insert. case_decide; intros Ep; [discriminate|]. exact (A1 p _ _ _ _ _ (Sl _ _ _ _ _ _ _ Ep)).
    + intros p b' w' _. rewrite Fc. cbn [length] in Lt. lia.
    + cbn [length] in Lt. auto 10.
Qed.

(** The links of a request lead through its three descriptors. *)
Lemma chain_freed d i0 i1 i2 : NoDup [i0; i1; i2] -> d_next (table d i0) = true -> next_index (table d i0) = i1 -> d_next (table d i1) = true -> next_index (table d i1) = i2 -> d_next (table d i2) = false ->
  freeDescriptorChain queue_size i0 d = free_all [i0; i1; i2] d.
Proof.
  intros N E0 N0 E1 N1 E2. apply NoDup_cons in N as [D0 N]. apply NoDup_cons in N as [D1 _].
  assert (N01 : i0 <> i1) by (intros ->; apply D0; in_list). assert (N02 : i0 <> i2) by (intros ->; apply D0; in_list). assert (N12 : i1 <> i2) by (intros ->; apply D1; in_list).
  assert (Tb : forall i d1 d2 j, freeDescriptor i d1 = Some d2 -> i <> j -> table d2 j = table d1 j).
  { intros i d1 d2 j. unfold freeDescriptor. destruct (_ <=? _)%nat; [discriminate|]. destruct (free d1 i); [discriminate|]. intros E Nj. injection E as <-. cbn [table]. apply fn_lookup_insert_ne, Nj. }
  cbn [queue_size freeDescriptorChain free_all]. rewrite E0, N0. destruct (freeDescriptor i0 d) as [d1|] eqn:F0; [|reflexivity]. cbn [mbind option_bind].
  rewrite (Tb _ _ _ i1 F0 N01), E1, N1. destruct (freeDescriptor i1 d1) as [d2|] eqn:F1; [|reflexivity]. cbn [mbind option_bind].
  rewrite (Tb _ _ _ i2 F1 N12), (Tb _ _ _ i2 F0 N02), E2. destruct (freeDescriptor i2 d2); reflexivity.
Qed.

Definition same_but_procs (s s' : st) : Prop := shr s' = shr s /\ dev s' = dev s /\ bufs s' = bufs s /\ interrupted s' = interrupted s.

(** A process whose buffer the disk still has sleeps again; the others return. *)
Lemma disk_wait_spec s pid b w i0 i1 i2 : inv s -> procs s !! pid = Some (Posted b w i0 i1 i2 false) ->
  exists s', wait_turn pid b w i0 i1 i2 s = Some (s', negb (disk_owned (bufs s b))) /\ inv s' /\ same_but_procs s s' /\
    if disk_owned (bufs s b) then calm <$> procs s' = calm <$> procs s
    else calm <$> procs s' = delete pid (calm <$> procs s) /\ i0 ∉ flight (drv s) (shr s) (dev s) /\ (3 <= free_count (drv s'))%nat.
Proof.
  intros [C [A1 A2]] Q. pose proof (calm_lookup pid _ _ Q) as Qc. unfold wait_turn. destruct (disk_owned (bufs s b)) eqn:O.
  - eexists. split; [reflexivity|]. pose proof (calm_same pid _ (Posted b w i0 i1 i2 true) _ Q eq_refl) as Cs. split; [|split; [repeat split|exact Cs]].
    split; cbn [drv shr dev bufs procs]; [rewrite Cs; exact C|]. split; cbn [procs bufs drv].
    + intros p b' w' j0 j1 j2. rewrite lookup_insert. case_decide; intros Ep; [injection Ep as <- _ _ _ _; exact O|exact (A1 p _ _ _ _ _ Ep)].
    + intros p b' w'. rewrite lookup_insert. case_decide; intros Ep; [discriminate|exact (A2 p _ _ Ep)].
  - destruct (k_chain _ _ _ _ _ C pid _ Qc) as [|(j0 & j1 & j2 & Ch & T0 & T1 & T2 & _ & _)]; [discriminate|]. cbn [calm c_chain] in Ch. injection Ch as <- <- <-.
    pose proof (k_nodup _ _ _ _ _ C pid _ Qc) as N. cbn [calm c_chain] in N.
    destruct (free_all_freed [i0; i1; i2] (set_info (<[i0 := None]> (info (drv s))) (drv s)) N) as (d' & E & Fr); [intros i I; exact (k_inside _ _ _ _ _ C pid _ i Qc I)|].
    rewrite chain_freed with (i1 := i1) (i2 := i2), E; [|exact N|cbn [set_info table]; rewrite ?T0, ?T1, ?T2; reflexivity..].
    eexists. split; [reflexivity|]. assert (Cs : calm <$> delete pid (wake_free <$> procs s) = delete pid (calm <$> procs s)) by (rewrite fmap_delete, calm_wake_free; reflexivity).
    split; [|split; [repeat split|]]; [split; cbn [drv shr dev bufs procs]|split; [exact Cs|split]].
    + rewrite Cs. exact (core_returned _ _ _ _ _ _ pid _ C Qc ltac:(discriminate) O Fr).
    + split; cbn [procs bufs drv]; intros p b' w'; [intros j0 j1 j2|]; rewrite lookup_delete; (case_decide; [discriminate|]); rewrite lookup_fmap; intros Ep; apply fmap_Some in Ep as (x & Ex & Wx); destruct x; cbn in Wx; try discriminate.
      injection Wx as -> -> -> -> -> <-. exact (A1 p _ _ _ _ _ Ex).
    + rewrite (k_heads _ _ _ _ _ C). intros (p & c & l & Qp & Ch & Op). pose proof (k_apart _ _ _ _ _ C pid p _ c i0 Qc Qp ltac:(cbn; in_list) ltac:(rewrite Ch; in_list)) as <-. rewrite Qc in Qp. injection Qp as <-. cbn in Op. congruence.
    + apply (free_count_chain _ [i0; i1; i2] N). intros i I. split; [apply (k_inside _ _ _ _ _ C pid _ i Qc I)|]. cbn [drv]. rewrite (f_free _ _ _ Fr), (bool_decide_eq_true_2 (i ∈ _)) by exact I. apply orb_true_r.
Qed.

(** ** The handler and the device *)

Lemma handle_spec s : inv s -> interrupted s = true -> used_idx (drv s) <> dev_used_idx (shr s) ->
  exists b d' bs', handle (drv s) (shr s) (bufs s) = Some (b, d', bs') /\ let s' := St d' (shr s) (dev s) bs' (wake_buffer b <$> procs s) true in
    inv s' /\ (forall x, number (bs' x) = number (bufs s x) /\ data (bs' x) = data (bufs s x)) /\ exists h, done (drv s) (shr s) = h :: done d' (shr s).
Proof.
  intros [C [A1 A2]] It Ne. destruct (core_handle _ _ _ _ _ C Ne) as (b & d' & bs' & E & C' & F & D & ->). exists b, d', (<[b := Buffer (number (bufs s b)) (data (bufs s b)) false]> (bufs s)). split; [exact E|]. split; [|split; [|eexists; exact D]].
  - split; cbn [drv shr dev bufs procs]; [rewrite calm_wake_buffer; exact C'|]. split; cbn [drv bufs procs].
    + intros p b' w i0 i1 i2. rewrite lookup_fmap. intros Ep. apply fmap_Some in Ep as (x & Ex & Wx). destruct x; cbn in Wx; [discriminate|]. injection Wx as -> -> -> -> -> Wa. symmetry in Wa. apply andb_true_iff in Wa as [-> Nb].
      apply negb_true_iff, Nat.eqb_neq in Nb. rewrite fn_lookup_insert_ne by congruence. exact (A1 p _ _ _ _ _ Ex).
    + intros p b' w. rewrite lookup_fmap. intros Ep. apply fmap_Some in Ep as (x & Ex & Wx). destruct x; cbn in Wx; [|discriminate]. injection Wx as -> -> <-. unfold free_count. rewrite F. exact (A2 p _ _ Ex).
  - intros x. destruct (decide (b = x)) as [->|N]; [rewrite fn_lookup_insert|rewrite fn_lookup_insert_ne by exact N]; auto.
Qed.

Lemma transfer_spec s h : inv s -> h ∈ taken (dev s) ->
  exists pid b w i1 i2 a r' v' bs', procs s !! pid = Some (Posted b w h i1 i2 a) /\ transfer h (drv s) (shr s) (dev s) (bufs s) = Some (r', v', bs') /\
    inv (St (drv s) r' v' bs' (procs s) (interrupted s)) /\ queued r' v' = queued (shr s) (dev s) /\ done (drv s) r' = done (drv s) (shr s) ++ [h] /\ taken v' = filter (fun k => k <> h) (taken (dev s)) /\
    (if w then disk v' = store (disk (dev s)) (1024 * number (bufs s b)) (firstn 1024 (data (bufs s b))) /\ bs' = bufs s
     else disk v' = disk (dev s) /\ bs' = <[b := Buffer (number (bufs s b)) (load (disk (dev s)) (1024 * number (bufs s b)) 1024) (disk_owned (bufs s b))]> (bufs s)).
Proof.
  intros [C [A1 A2]] Ht. destruct (core_transfer _ _ _ _ _ h C Ht) as (pid & c & l & r' & v' & bs' & Q & Ch & E & C' & Eq & Ed & Et & M).
  rewrite lookup_fmap in Q. apply fmap_Some in Q as (x & Q & ->). destruct x as [b w a|b w i0 i1 i2 a]; [discriminate Ch|]. cbn [calm c_chain c_buffer c_write] in *. injection Ch as -> <-.
  exists pid, b, w, i1, i2, a, r', v', bs'. split; [exact Q|]. split; [exact E|]. split; [split; [exact C'|]|auto]. split; cbn [procs bufs drv]; [|exact A2].
  intros p b' w' j0 j1 j2 Ep. destruct w; destruct M as [_ ->]; [exact (A1 p _ _ _ _ _ Ep)|]. destruct (decide (b = b')) as [->|N]; [rewrite fn_lookup_insert|rewrite fn_lookup_insert_ne by exact N]; exact (A1 p _ _ _ _ _ Ep).
Qed.

(** * The simulation *)

(** Nothing a block device can see has changed. *)
Lemma shows_same s s' a : shows s a -> disk (dev s') = disk (dev s) -> (forall b, number (bufs s' b) = number (bufs s b) /\ data (bufs s' b) = data (bufs s b)) ->
  calm <$> procs s' = calm <$> procs s -> (forall pid c, (calm <$> procs s) !! pid = Some c -> finished (shr s') (dev s') c = finished (shr s) (dev s) c) -> shows s' a.
Proof.
  intros [D B P] Ed Eb Ep Ef. split; [congruence|intros b; rewrite B; destruct (Eb b) as [-> ->]; reflexivity|]. intros pid. rewrite P, Ep. destruct (_ !! pid) as [c|] eqn:Q; [|reflexivity]. cbn.
  unfold op_of. rewrite (Ef pid c Q). reflexivity.
Qed.

Lemma finished_same r v r' v' c : (forall h, h ∈ queued r' v' ++ taken v' <-> h ∈ queued r v ++ taken v) -> finished r' v' c = finished r v c.
Proof. intros E. unfold finished. destruct (c_chain c) as [|h l]; [reflexivity|]. apply bool_decide_ext. rewrite E. reflexivity. Qed.

Lemma shows_submit s s' a pid b w i0 i1 i2 : core (drv s) (shr s) (dev s) (bufs s) (calm <$> procs s) -> shows s a -> procs s !! pid = Some (Wants b w false) -> dev s' = dev s ->
  (forall x, number (bufs s' x) = number (bufs s x) /\ data (bufs s' x) = data (bufs s x)) ->
  calm <$> procs s' = <[pid := Call b w [i0; i1; i2]]> (calm <$> procs s) -> i0 ∉ flight (drv s) (shr s) (dev s) -> (forall p c, (calm <$> procs s) !! p = Some c -> i0 ∉ c_chain c) ->
  queued (shr s') (dev s') = queued (shr s) (dev s) ++ [i0] -> shows s' a.
Proof.
  intros C [D B P] Q Ev Eb Ep Nf Ap Eq. split; [congruence|intros x; rewrite B; destruct (Eb x) as [-> ->]; reflexivity|].
  intros p. rewrite P, Ep, lookup_insert. case_decide as De.
  - subst p. rewrite (calm_lookup pid _ _ Q). cbn. unfold op_of, finished. cbn [c_buffer c_write c_chain]. do 2 f_equal. symmetry. apply bool_decide_eq_false. rewrite Eq, !elem_of_app, list_elem_of_singleton. tauto.
  - destruct ((calm <$> procs s) !! p) as [c|] eqn:Qp; [|reflexivity]. cbn. unfold op_of, finished. do 2 f_equal. destruct (c_chain c) as [|h l] eqn:Ch; [reflexivity|]. apply bool_decide_ext.
    rewrite Eq, Ev, !elem_of_app, list_elem_of_singleton. assert (h <> i0); [|tauto]. intros ->. apply (Ap p c Qp). rewrite Ch. in_list.
Qed.

(** What a step does, the block device does as well. *)
Definition simulated (e : event) (s' : st) (a : block_device) : Prop := inv s' /\ exists a', block_step a e a' /\ shows s' a'.

Lemma sim_changed a b n l d r v bs ps it (U : unused b ps) (s := St d r v bs ps it) : inv s -> shows s a -> simulated (Changed b n l) (St d r v (<[b := Buffer n l false]> bs) ps it) a.
Proof.
  intros I Sh. subst s. destruct I as [C [A1 A2]], Sh as [D B P], a as [m f ops]. cbn [drv shr dev bufs procs b_disk b_buffer b_calls] in *. split.
  + split; cbn [drv shr dev bufs procs]; [apply core_changed; [exact C|exact (calm_unused b ps U)]|]. split; cbn [procs bufs drv]; [|exact A2].
    intros p b' w i0 i1 i2 Ep. rewrite fn_lookup_insert_ne; [exact (A1 p _ _ _ _ _ Ep)|]. intros ->. exact (U p _ Ep eq_refl).
  + eexists. split; [constructor|split; cbn [b_disk b_buffer b_calls dev bufs procs shr]; [exact D| |exact P]].
    * intros pid o. rewrite P. intros Eo. apply fmap_Some in Eo as (c & Qc & ->). exact (calm_unused b ps U pid c Qc).
    * intros x. destruct (decide (b = x)) as [->|N]; [rewrite !fn_lookup_insert; reflexivity|rewrite !fn_lookup_insert_ne by exact N; apply B].
Qed.

Lemma sim_called a pid b w d r v bs ps it (Fr : ps !! pid = None) (U : unused b ps) (s := St d r v bs ps it) : inv s -> shows s a -> simulated (Called pid b w) (St d r v bs (<[pid := Wants b w false]> ps) it) a.
Proof.
  intros I Sh. subst s. destruct I as [C [A1 A2]], Sh as [D B P], a as [m f ops]. cbn [drv shr dev bufs procs b_disk b_buffer b_calls] in *. split.
  + split; cbn [drv shr dev bufs procs]; [rewrite fmap_insert; apply core_called; [exact C|rewrite lookup_fmap, Fr; reflexivity|exact (calm_unused b ps U)]|].
    split; cbn [procs bufs drv]; intros p b' w'; [intros i0 i1 i2|]; rewrite lookup_insert; (case_decide; [discriminate|]); [apply A1|apply A2].
  + eexists. split; [constructor; rewrite P, lookup_fmap, Fr; reflexivity|]. split; cbn [b_disk b_buffer b_calls dev bufs procs shr]; [exact D|exact B|].
    intros p. rewrite fmap_insert, !lookup_insert. case_decide; [reflexivity|apply P].
Qed.

Lemma sim_start a pid b w s s' : procs s !! pid = Some (Wants b w false) -> start_turn pid b w s = Some s' -> inv s -> shows s a -> simulated Internal s' a.
Proof.
  intros Q E I Sh. destruct (start_turn_spec s pid b w I Q) as (s1 & E1 & I1 & Ev & _ & Eb & R). rewrite E in E1. injection E1 as <-. split; [exact I1|]. exists a. split; [constructor|].
  destruct R as [(i0 & i1 & i2 & Ec & Nf & Eq & _)|(_ & Ec & Eq)].
  + pose proof I1 as [C1 _]. rewrite Ec in C1. apply (shows_submit s s' a pid b w i0 i1 i2 (proj1 I) Sh Q Ev Eb Ec Nf); [|exact Eq]. intros p c Qp In.
    assert (Np : p <> pid) by (intros ->; rewrite (calm_lookup _ _ _ Q) in Qp; injection Qp as <-; inversion In).
    apply Np. symmetry. eapply (k_apart _ _ _ _ _ C1 pid p _ c i0); [apply lookup_insert_eq|rewrite lookup_insert_ne by congruence; exact Qp|cbn; in_list|exact In].
  + apply (shows_same s); [exact Sh|congruence|exact Eb|exact Ec|]. intros p c _. apply finished_same. intros h. rewrite Eq, Ev. reflexivity.
Qed.

Lemma sim_wait a pid b w i0 i1 i2 s s' (ret : bool) : procs s !! pid = Some (Posted b w i0 i1 i2 false) -> wait_turn pid b w i0 i1 i2 s = Some (s', ret) -> inv s -> shows s a -> simulated (if ret then Returned pid else Internal) s' a.
Proof.
  intros Q E I Sh. destruct (disk_wait_spec s pid b w i0 i1 i2 I Q) as (s1 & E1 & I1 & (Es & Ev & Eb & _) & R). rewrite E in E1. injection E1 as <- Er. split; [exact I1|]. subst ret. destruct (disk_owned (bufs s b)); cbn [negb].
  + exists a. split; [constructor|]. apply (shows_same s); [exact Sh|congruence|intros x; rewrite Eb; auto|exact R|]. intros p c _. rewrite Es, Ev. reflexivity.
  + destruct R as (Ec & Nf & _), Sh as [D B P], a as [m f ops]. cbn [b_disk b_buffer b_calls] in *. eexists. split; [eapply (b_returned pid b w)|split; cbn [b_disk b_buffer b_calls]; [congruence|intros x; rewrite Eb; apply B|]].
    * rewrite P, (calm_lookup _ _ _ Q). cbn. unfold op_of, finished. cbn [c_buffer c_write c_chain]. do 2 f_equal. apply bool_decide_eq_true. rewrite flight_in in Nf. rewrite elem_of_app. tauto.
    * intros p. rewrite Ec, Es, Ev, !lookup_delete. case_decide; [reflexivity|apply P].
Qed.

Lemma sim_handle a d r v bs ps b d' bs' (Ne : used_idx d <> dev_used_idx r) (E : handle d r bs = Some (b, d', bs')) (s := St d r v bs ps true) : inv s -> shows s a -> simulated Internal (St d' r v bs' (wake_buffer b <$> ps) true) a.
Proof.
  intros I Sh. subst s. destruct (handle_spec _ I eq_refl Ne) as (b1 & d1 & bs1 & E1 & I1 & Eb & _). cbn [drv shr dev bufs procs] in *. rewrite E in E1. injection E1 as <- <- <-. split; [exact I1|]. exists a. split; [constructor|].
  apply (shows_same (St d r v bs ps true)); [exact Sh|reflexivity|exact Eb|exact (calm_wake_buffer b ps)|reflexivity].
Qed.

Lemma sim_take a d r v bs ps it (Ne : seen v <> avail_idx r) (s := St d r v bs ps it) : inv s -> shows s a -> simulated Internal (St d r (Device (u16 (seen v + 1)) (taken v ++ [avail r (slot (seen v))]) (disk v)) bs ps it) a.
Proof.
  intros I Sh. subst s. destruct I as [C A]. pose proof (core_take _ _ _ _ _ C Ne) as C'. split; [split; [exact C'|destruct A; split; assumption]|]. exists a. split; [constructor|].
  eapply shows_same; [exact Sh|reflexivity|auto|reflexivity|]. intros p c _. apply finished_same. intros h. cbn [dev shr taken]. destruct (k_indices _ _ _ _ _ C) as (S1 & S2 & _). cbn [shr dev] in *.
  unfold queued. cbn [seen]. rewrite (window_pop (avail r) (seen v) (avail_idx r) S1 S2 Ne). rewrite !elem_of_app, !elem_of_cons, elem_of_nil. tauto.
Qed.

Lemma sim_transfer a pid b w i0 i1 i2 t d r v bs ps it r' v' bs' (Q : ps !! pid = Some (Posted b w i0 i1 i2 t)) (Ht : i0 ∈ taken v) (E : transfer i0 d r v bs = Some (r', v', bs')) (s := St d r v bs ps it) : inv s -> shows s a -> simulated (Moved pid) (St d r' v' bs' ps it) a.
Proof.
  intros I Sh. subst s. destruct (transfer_spec _ _ I Ht) as (p1 & b1 & w1 & j1 & j2 & t1 & r1 & v1 & bs1 & Q1 & E1 & I1 & Eq & _ & Et & M). cbn [drv shr dev bufs procs interrupted] in *. rewrite E in E1. injection E1 as <- <- <-. split; [exact I1|]. destruct I as [C _].
  assert (p1 = pid) as -> by (eapply (k_apart _ _ _ _ _ C p1 pid _ _ i0 (calm_lookup _ _ _ Q1) (calm_lookup _ _ _ Q)); cbn; in_list). rewrite Q in Q1. injection Q1 as <- <- <- <- <-.
  pose proof Sh as [D B P]. destruct a as [m f ops]. cbn [b_disk b_buffer b_calls dev bufs procs shr] in *. pose proof (B b) as Bb.
  assert (Fin : forall p, <[pid := BlockCall b w true]> ops !! p = op_of r' v' <$> (calm <$> ps) !! p).
  { intros p. rewrite lookup_insert. case_decide as De.
    - subst p. rewrite (calm_lookup _ _ _ Q). cbn. unfold op_of, finished. cbn [c_buffer c_write c_chain]. do 2 f_equal. symmetry. apply bool_decide_eq_true. rewrite Eq, Et, elem_of_app, list_elem_of_filter.
      pose proof (k_flight _ _ _ _ _ C) as N. cbn [drv shr dev] in N. unfold flight in N. apply NoDup_app in N as [N _]. apply NoDup_app in N as (_ & N & _). intros [H|[H _]]; [exact (N _ H Ht)|exact (H eq_refl)].
    - rewrite P. destruct ((calm <$> ps) !! p) as [c|] eqn:Qp; [|reflexivity]. cbn. unfold op_of, finished. do 2 f_equal. destruct (c_chain c) as [|h l] eqn:Ch; [reflexivity|]. apply bool_decide_ext.
      rewrite Eq, Et, !elem_of_app, list_elem_of_filter. assert (h <> i0); [|tauto]. intros ->. apply De. eapply (k_apart _ _ _ _ _ C pid p _ c i0 (calm_lookup _ _ _ Q) Qp); [cbn; in_list|rewrite Ch; in_list]. }
  destruct w, M as [Dm ->]; eexists; (split; [eapply (b_moved pid b); [rewrite P, (calm_lookup _ _ _ Q); cbn; unfold op_of, finished; cbn [c_buffer c_write c_chain]; do 2 f_equal; apply bool_decide_eq_false; intros H; apply H, elem_of_app; auto|unfold move; rewrite Bb; reflexivity]|]);
    (split; cbn [b_disk b_buffer b_calls dev bufs procs shr]; [congruence| |exact Fin]).
  + exact B.
  + intros x. destruct (decide (b = x)) as [->|N]; [rewrite !fn_lookup_insert|rewrite !fn_lookup_insert_ne by exact N; apply B]. rewrite D. reflexivity.
Qed.

Lemma step_sim s e s' a : step s e s' -> inv s -> shows s a -> simulated e s' a.
Proof.
  intros St I Sh. destruct St as [b n l d r v bs ps it U Wn Ll|pid b w d r v bs ps it Fr U|pid b w s s' It Q E|pid b w i0 i1 i2 s s' ret It Q E|d r v bs ps|d r v bs ps b d' bs' Ne E|d r v bs ps Eq|d r v bs ps it Ne|pid b w i0 i1 i2 t d r v bs ps it r' v' bs' Q Ht E];
    eauto using sim_changed, sim_called, sim_start, sim_wait, sim_handle, sim_take, sim_transfer; (split; [destruct I as [C [A1 A2]]; split; [exact C|split; assumption]|]; exists a; split; [constructor|]; destruct Sh; split; assumption).
Qed.

Lemma steps_sim s t s' : steps s t s' -> forall a, inv s -> shows s a -> inv s' /\ exists a', block_steps a t a' /\ shows s' a'.
Proof.
  induction 1 as [s|s e s1 t s' St _ IH]; intros a I Sh; [split; [exact I|]; exists a; split; [constructor|exact Sh]|].
  destruct (step_sim _ _ _ _ St I Sh) as (I1 & a1 & B1 & Sh1). destruct (IH a1 I1 Sh1) as (I' & a' & B & Sh'). split; [exact I'|]. exists a'. split; [econstructor; eassumption|exact Sh'].
Qed.

Definition boot_device (m : mem) (bs : nat -> buffer) : block_device := BlockDevice m (fun b => (number (bs b), data (bs b))) ∅.

Lemma boot_inv undef st0 m bs : inv (boot undef st0 m bs).
Proof.
  assert (No : forall pid c, (calm <$> (∅ : gmap nat pstate)) !! pid = Some c -> False) by (intros pid c; rewrite fmap_empty, lookup_empty; discriminate).
  split; [split|split]; cbn [drv shr dev bufs procs boot free].
  - intros pid c Q. destruct (No _ _ Q).
  - intros pid c i Q. destruct (No _ _ Q).
  - intros pid c Q. destruct (No _ _ Q).
  - intros pid pid' c c' i Q. destruct (No _ _ Q).
  - intros pid pid' c c' Q. destruct (No _ _ Q).
  - intros i Lt F. apply Nat.ltb_ge in F. lia.
  - unfold in_u16. cbn. lia.
  - constructor.
  - intros h. split; [intros H; inversion H|]. intros (pid & c & l & Q & _). destruct (No _ _ Q).
  - intros h H. inversion H.
  - intros pid b w i0 i1 i2. rewrite lookup_empty. discriminate.
  - intros pid b w. rewrite lookup_empty. discriminate.
Qed.

Lemma boot_shows undef st0 m bs : shows (boot undef st0 m bs) (boot_device m bs).
Proof. split; cbn; [reflexivity|reflexivity|]. intros pid. rewrite fmap_empty, !lookup_empty. reflexivity. Qed.

(** The places where the driver, or a device given something else than a request, would stop. *)
Variant stops (s : st) : Prop :=
| stops_start pid b w : interrupted s = false -> procs s !! pid = Some (Wants b w false) -> start_turn pid b w s = None -> stops s
| stops_wait pid b w i0 i1 i2 : interrupted s = false -> procs s !! pid = Some (Posted b w i0 i1 i2 false) -> wait_turn pid b w i0 i1 i2 s = None -> stops s
| stops_handle : interrupted s = true -> used_idx (drv s) <> dev_used_idx (shr s) -> handle (drv s) (shr s) (bufs s) = None -> stops s
| stops_transfer h : h ∈ taken (dev s) -> transfer h (drv s) (shr s) (dev s) (bufs s) = None -> stops s.

Lemma inv_goes_on s : inv s -> ~ stops s.
Proof.
  intros I [pid b w It Q E|pid b w i0 i1 i2 It Q E|It Ne E|h Ht E].
  - destruct (start_turn_spec s pid b w I Q) as (s' & E' & _). congruence.
  - destruct (disk_wait_spec s pid b w i0 i1 i2 I Q) as (s' & E' & _). congruence.
  - destruct (handle_spec s I It Ne) as (b & d' & bs' & E' & _). congruence.
  - destruct (transfer_spec s h I Ht) as (pid & b & w & i1 & i2 & a & r' & v' & bs' & _ & E' & _). congruence.
Qed.

(** * Every request comes to its end *)

(** Steps of the device and of the interrupt alone. *)
Definition drained (s s' : st) : Prop := inv s' /\ calm <$> procs s' = calm <$> procs s /\ free (drv s') = free (drv s).

Definition load_of (s : st) : nat :=
  (4 * length (queued (shr s) (dev s)) + 3 * length (taken (dev s)) + 2 * length (done (drv s) (shr s)) + if interrupted s then 0 else 1)%nat.

Lemma window_empty ring from to : in_u16 from -> in_u16 to -> window ring from to = [] -> from = to.
Proof. intros F T E. destruct (decide (from = to)) as [|N]; [assumption|]. rewrite window_pop in E by assumption. discriminate. Qed.

(** While a request is under way something is left to do for the device or the interrupt. *)
Lemma drain_step s : inv s -> flight (drv s) (shr s) (dev s) <> [] -> exists e s', step s e s' /\ drained s s' /\ (load_of s' < load_of s)%nat.
Proof.
  intros I Nf. pose proof I as [C [A1 A2]]. pose proof (k_indices _ _ _ _ _ C) as (S1 & S2 & S3 & S4). destruct (decide (seen (dev s) = avail_idx (shr s))) as [Es|Ns].
  2: { destruct s as [d r v bs ps it]. cbn [drv shr dev bufs procs] in *. do 2 eexists. split; [apply k_take, Ns|]. split; [split; [split; [exact (core_take _ _ _ _ _ C Ns)|split; assumption]|auto]|].
    unfold load_of. cbn [drv shr dev interrupted taken]. unfold queued. cbn [seen]. rewrite (window_pop (avail r) (seen v) (avail_idx r) S1 S2 Ns), length_app. cbn [length]. lia. }
  destruct (taken (dev s)) as [|h rest] eqn:Et.
  - destruct (decide (used_idx (drv s) = dev_used_idx (shr s))) as [Eu|Nu].
    { destruct Nf. unfold flight, queued, done. rewrite Es, Eu, !window_same, Et. reflexivity. }
    destruct (interrupted s) eqn:It.
    + destruct (handle_spec s I It Nu) as (b & d' & bs' & E & I' & _ & h & D). destruct s as [d r v bs ps it]. cbn [drv shr dev bufs procs interrupted] in *. subst it.
      do 2 eexists. split; [exact (k_handle d r v bs ps b d' bs' Nu E)|]. split; [split; [exact I'|split; [apply calm_wake_buffer|]]|].
      * cbn [drv]. unfold handle in E. destruct (_ <=? _)%nat; [discriminate|]. destruct (negb _); [discriminate|]. destruct (info d _); [|discriminate]. injection E as _ <- _. reflexivity.
      * unfold load_of. cbn [drv shr dev interrupted]. rewrite D. cbn [length]. lia.
    + destruct s as [d r v bs ps it]. cbn [interrupted] in It. subst it. do 2 eexists. split; [apply k_interrupt|]. split; [split; [split; [exact C|split; assumption]|auto]|]. unfold load_of. cbn [drv shr dev interrupted]. lia.
  - assert (Ht : h ∈ taken (dev s)) by (rewrite Et; in_list). destruct (transfer_spec s h I Ht) as (pid & b & w & i1 & i2 & a & r' & v' & bs' & Q & E & I' & Eq & Ld & Ev & _). rewrite Et in Ev.
    destruct s as [d r v bs ps it]. cbn [drv shr dev bufs procs interrupted] in *. do 2 eexists. split; [eapply k_transfer; [exact Q|exact Ht|exact E]|]. split; [split; [exact I'|auto]|].
    unfold load_of. cbn [drv shr dev interrupted]. rewrite Eq, Ev, Et, Ld, length_app. pose proof (length_filter (fun k => k <> h) rest) as Lf. rewrite filter_cons_False by auto. cbn [length]. lia.
Qed.

Lemma steps_app s t s1 t' s' : steps s t s1 -> steps s1 t' s' -> steps s (t ++ t') s'.
Proof. induction 1; [auto|]. intros H'. cbn [app]. econstructor; eauto. Qed.
Lemma steps_one s e s' : step s e s' -> steps s [e] s'.
Proof. intros St. econstructor; [exact St|constructor]. Qed.

Lemma drained_trans s s1 s2 : drained s s1 -> drained s1 s2 -> drained s s2.
Proof. intros (_ & P1 & F1) (I & P2 & F2). split; [exact I|]. split; congruence. Qed.

(** The device and the interrupt, left alone, bring all requests to their ends. *)
Lemma drain s : inv s -> exists t s', steps s t s' /\ drained s s' /\ flight (drv s') (shr s') (dev s') = [] /\ interrupted s' = false.
Proof.
  remember (load_of s) as k eqn:K. revert s K. induction (lt_wf k) as [k _ IH]. intros s -> I.
  destruct (decide (flight (drv s) (shr s) (dev s) = [])) as [Nil|Nf].
  - destruct (interrupted s) eqn:It; [|exists [], s; split; [constructor|split; [split; auto|auto]]].
    pose proof I as [C [A1 A2]]. pose proof (k_indices _ _ _ _ _ C) as (_ & _ & S3 & S4). pose proof Nil as Nd. unfold flight in Nd. apply app_eq_nil in Nd as [_ Nd]. apply (window_empty _ _ _ S3 S4) in Nd.
    destruct s as [d r v bs ps it]. cbn [drv shr dev bufs procs interrupted] in *. subst it. exists [Internal], (St d r v bs ps false). split; [apply steps_one, k_handled, Nd|].
    split; [split; [split; [exact C|split; assumption]|auto]|auto].
  - destruct (drain_step s I Nf) as (e & s1 & St & D & Lt). destruct (IH _ Lt s1 eq_refl (proj1 D)) as (t & s' & Ss & D' & R).
    exists (e :: t), s'. split; [econstructor; eassumption|]. split; [exact (drained_trans _ _ _ D D')|exact R].
Qed.

Lemma posted_returns s pid c : inv s -> (calm <$> procs s) !! pid = Some c -> c_chain c <> [] ->
  exists t s', steps s (t ++ [Returned pid]) s' /\ inv s' /\ calm <$> procs s' = delete pid (calm <$> procs s) /\ (3 <= free_count (drv s'))%nat /\ interrupted s' = false.
Proof.
  intros I Q Nn. destruct (drain s I) as (t & s1 & St & (I1 & P1 & _) & Nil & It). rewrite <- P1 in Q. pose proof I1 as [C1 [A1 _]]. pose proof Q as Qs. rewrite lookup_fmap in Qs. apply fmap_Some in Qs as (p & Qs & ->).
  destruct p as [b w a|b w i0 i1 i2 a]; [destruct (Nn eq_refl)|]. assert (O : disk_owned (bufs s1 b) = false).
  { apply not_true_iff_false. intros O. enough (i0 ∈ flight (drv s1) (shr s1) (dev s1)) as H by (rewrite Nil in H; inversion H). apply (k_heads _ _ _ _ _ C1). exists pid, (calm (Posted b w i0 i1 i2 a)), [i1; i2]. auto. }
  destruct a; [pose proof (A1 pid _ _ _ _ _ Qs); congruence|]. destruct (disk_wait_spec s1 pid b w i0 i1 i2 I1 Qs) as (s' & E & I' & (_ & _ & _ & It') & R). rewrite O in E, R. destruct R as (P' & _ & Fc).
  exists t, s'. split; [apply (steps_app _ _ _ _ _ St), steps_one; exact (k_wait pid b w i0 i1 i2 s1 s' true It Qs E)|]. split; [exact I'|]. split; [congruence|]. split; [exact Fc|congruence].
Qed.

Lemma busy_descriptor d : (free_count d < 3)%nat -> exists i, (i < queue_size)%nat /\ free d i = false.
Proof.
  intros Lt. destruct (find (fun i => negb (free d i)) (seq 0 queue_size)) as [i|] eqn:E.
  - apply find_some in E as [I F]. apply in_seq in I. exists i. split; [lia|]. destruct (free d i); [discriminate|reflexivity].
  - enough (length (seq 0 queue_size) <= free_count d)%nat by (rewrite length_seq in *; unfold queue_size in *; lia).
    apply NoDup_incl_length; [apply seq_NoDup|]. intros i I. apply filter_In. split; [exact I|]. pose proof (find_none _ _ E i I) as F. cbv beta in F. destruct (free d i); [reflexivity|discriminate].
Qed.

(** A process that waits for descriptors finds them once some request has returned. *)
Lemma wants_served s pid b w : inv s -> (calm <$> procs s) !! pid = Some (Call b w []) ->
  exists t s', steps s t s' /\ inv s' /\ procs s' !! pid = Some (Wants b w false) /\ (3 <= free_count (drv s'))%nat /\ interrupted s' = false.
Proof.
  intros I Q. assert (Aw : forall s', inv s' -> (calm <$> procs s') !! pid = Some (Call b w []) -> (3 <= free_count (drv s'))%nat -> procs s' !! pid = Some (Wants b w false)).
  { intros s' [_ [_ A]] Q' Fc. rewrite lookup_fmap in Q'. apply fmap_Some in Q' as ([b' w' a|] & Q' & E); [|discriminate]. injection E as -> ->. destruct a; [|exact Q']. pose proof (A pid _ _ Q'). lia. }
  destruct (drain s I) as (t & s1 & St & (I1 & P1 & _) & _ & It). rewrite <- P1 in Q. destruct (decide (3 <= free_count (drv s1))%nat) as [Fc|Few]; [exists t, s1; auto 10|].
  destruct (busy_descriptor (drv s1) ltac:(lia)) as (i & Lt & F). destruct (k_busy _ _ _ _ _ (proj1 I1) i Lt F) as (pid' & c & Q' & In).
  destruct (posted_returns s1 pid' c I1 Q') as (t' & s' & St' & I' & P' & Fc & It'); [intros E; rewrite E in In; inversion In|].
  exists (t ++ t' ++ [Returned pid']), s'. split; [exact (steps_app _ _ _ _ _ St St')|]. split; [exact I'|]. split; [|auto]. apply (Aw s' I'); [|exact Fc].
  rewrite P', lookup_delete_ne; [exact Q|]. intros ->. rewrite Q in Q'. injection Q' as <-. inversion In.
Qed.

Lemma wants_returns s pid b w : inv s -> (calm <$> procs s) !! pid = Some (Call b w []) -> exists t s', steps s (t ++ [Returned pid]) s'.
Proof.
  intros I Q. destruct (wants_served s pid b w I Q) as (t & s1 & St & I1 & Q1 & Fc & It). destruct (start_turn_spec s1 pid b w I1 Q1) as (s2 & E & I2 & _ & _ & _ & R).
  destruct R as [(i0 & i1 & i2 & P2 & _)|(Lt & _)]; [|lia]. destruct (posted_returns s2 pid (Call b w [i0; i1; i2]) I2) as (t' & s' & St' & _); [rewrite P2; apply lookup_insert_eq|discriminate|].
  exists (t ++ [Internal] ++ t'), s'. rewrite <- !app_assoc. apply (steps_app _ _ _ _ _ St). apply (steps_app _ [Internal] s2 _ _); [apply steps_one; exact (k_start pid b w s1 s2 It Q1 E)|exact St'].
Qed.

(** * Theorems *)

(** C28: The driver of the disk is a block device.  However processes, the device and the interrupts interleave, what happens
    is what happens at a device that moves the whole block of each request once, at one moment between the call and the
    return, and nothing else; neither the driver nor the device finds anything that stops it, with the indices of the
    rings running over and with more requests than there are descriptors for. *)
Theorem disk_is_block_device undef st0 m bs t s (St : steps (boot undef st0 m bs) t s) :
  (exists a, block_steps (boot_device m bs) t a /\ shows s a) /\ ~ stops s.
Proof.
  destruct (steps_sim _ _ _ St _ (boot_inv undef st0 m bs) (boot_shows undef st0 m bs)) as (I & a & B & Sh). split; [eauto|exact (inv_goes_on s I)].
Qed.

(** C29: Every request can come to its end.  A process sleeps for its buffer only while the disk has it, and for descriptors only
    while fewer than three are free; and from every state that can be reached every process in the driver can return. *)
Theorem disk_requests_return undef st0 m bs t s pid p (St : steps (boot undef st0 m bs) t s) (Q : procs s !! pid = Some p) :
  match p with Posted b _ _ _ _ true => disk_owned (bufs s b) = true | Wants _ _ true => (free_count (drv s) < 3)%nat | _ => True end /\
  exists t' s', steps s (t' ++ [Returned pid]) s'.
Proof.
  destruct (steps_sim _ _ _ St _ (boot_inv undef st0 m bs) (boot_shows undef st0 m bs)) as (I & _). pose proof I as [_ [A1 A2]]. pose proof (calm_lookup pid _ _ Q) as Qc. split.
  - destruct p as [b w []|b w i0 i1 i2 []]; try exact Logic.I; [exact (A2 pid b w Q)|exact (A1 pid _ _ _ _ _ Q)].
  - destruct p as [b w a|b w i0 i1 i2 a]; [exact (wants_returns s pid b w I Qc)|]. destruct (posted_returns s pid _ I Qc) as (t' & s' & S' & _); [discriminate|eauto].
Qed.

(** * Runs *)

Variant action : Set := Call_ (pid b : nat) (w : bool) | Turn (pid : nat) | Interrupt | Take | Transfer (pid : nat).

(** [Interrupt] begins, makes a round, or ends. *)
Definition act (k : action) (s : st) : option (event * st) :=
  match k with
  | Call_ pid b w =>
      if bool_decide (procs s !! pid = None /\ map_Forall (fun _ p => buffer_of p <> b) (procs s)) then Some (Called pid b w, St (drv s) (shr s) (dev s) (bufs s) (<[pid := Wants b w false]> (procs s)) (interrupted s)) else None
  | Turn pid =>
      if interrupted s then None
      else match procs s !! pid with
      | Some (Wants b w false) => s' ← start_turn pid b w s; Some (Internal, s')
      | Some (Posted b w i0 i1 i2 false) => '(s', ret) ← wait_turn pid b w i0 i1 i2 s; Some (if ret : bool then Returned pid else Internal, s')
      | _ => None
      end
  | Interrupt =>
      if interrupted s then
        if decide (used_idx (drv s) = dev_used_idx (shr s)) then Some (Internal, St (drv s) (shr s) (dev s) (bufs s) (procs s) false)
        else '(b, d, bs) ← handle (drv s) (shr s) (bufs s); Some (Internal, St d (shr s) (dev s) bs (wake_buffer b <$> procs s) true)
      else Some (Internal, St (drv s) (shr s) (dev s) (bufs s) (procs s) true)
  | Take => if decide (seen (dev s) = avail_idx (shr s)) then None else Some (Internal, St (drv s) (shr s) (Device (u16 (seen (dev s) + 1)) (taken (dev s) ++ [avail (shr s) (slot (seen (dev s)))]) (disk (dev s))) (bufs s) (procs s) (interrupted s))
  | Transfer pid =>
      match procs s !! pid with
      | Some (Posted b w i0 i1 i2 a) => if decide (i0 ∈ taken (dev s)) then '(r, v, bs) ← transfer i0 (drv s) (shr s) (dev s) (bufs s); Some (Moved pid, St (drv s) r v bs (procs s) (interrupted s)) else None
      | _ => None
      end
  end.

Lemma act_step k s e s' : act k s = Some (e, s') -> step s e s'.
Proof.
  destruct k as [pid b w|pid| | |pid]; cbn [act].
  - case_bool_decide as B; [|discriminate]. intros E. injection E as <- <-. destruct B as [N U]. destruct s as [d r v bs ps it]. apply k_called; [exact N|]. intros p x Qx. exact (U p x Qx).
  - destruct (interrupted s) eqn:It; [discriminate|]. destruct (procs s !! pid) as [[b w []|b w i0 i1 i2 []]|] eqn:Q; try discriminate.
    + destruct (start_turn pid b w s) as [s1|] eqn:E1; [|discriminate]. intros E. injection E as <- <-. exact (k_start pid b w s s1 It Q E1).
    + destruct (wait_turn pid b w i0 i1 i2 s) as [[s1 ret]|] eqn:E1; [|discriminate]. intros E. injection E as <- <-. exact (k_wait pid b w i0 i1 i2 s s1 ret It Q E1).
  - destruct s as [d r v bs ps it]. cbn [interrupted drv shr dev bufs procs]. destruct it; [|intros E; injection E as <- <-; apply k_interrupt]. destruct (decide _) as [Eu|Nu]; [intros E; injection E as <- <-; apply k_handled, Eu|].
    destruct (handle d r bs) as [[[b d'] bs']|] eqn:E1; [|discriminate]. intros E. injection E as <- <-. exact (k_handle d r v bs ps b d' bs' Nu E1).
  - destruct s as [d r v bs ps it]. cbn [interrupted drv shr dev bufs procs]. destruct (decide _) as [|N]; [discriminate|]. intros E. injection E as <- <-. apply k_take, N.
  - destruct s as [d r v bs ps it]. cbn [interrupted drv shr dev bufs procs]. destruct (ps !! pid) as [[|b w i0 i1 i2 a]|] eqn:Q; try discriminate. destruct (decide _) as [I|]; [|discriminate].
    destruct (transfer i0 d r v bs) as [[[r' v'] bs']|] eqn:E1; [|discriminate]. intros E. injection E as <- <-. exact (k_transfer pid b w i0 i1 i2 a d r v bs ps it r' v' bs' Q I E1).
Qed.

Fixpoint act_all (ks : list action) (s : st) : list event * st :=
  match ks with
  | [] => ([], s)
  | k :: ks => match act k s with Some (e, s1) => let '(t, s') := act_all ks s1 in (e :: t, s') | None => ([], s) end
  end.

Lemma act_all_steps ks : forall s, steps s (fst (act_all ks s)) (snd (act_all ks s)).
Proof.
  induction ks as [|k ks IH]; intros s; cbn [act_all]; [constructor|]. destruct (act k s) as [[e s1]|] eqn:E; [|constructor]. specialize (IH s1). destruct (act_all ks s1) as [t s'].
  econstructor; [exact (act_step k s e s1 E)|exact IH].
Qed.

(** Block 5 is written from buffer 4 and read into buffer 6, while a third process waits for descriptors. *)
Definition undef_driver : driver := Driver (fun _ => no_descriptor) (fun _ => true) 9 (fun _ => None) (fun _ => Request true 3).
Definition two_buffers (b : nat) : buffer := match b with 4%nat => Buffer 5 (repeat 7 1024) false | 6%nat => Buffer 5 (repeat 1 1024) false | _ => Buffer 2 (repeat 0 1024) false end.
Definition start_state : st := boot undef_driver (fun _ => 1) (fun _ => 0) two_buffers.
Definition schedule : list action :=
  [Call_ 1 4 true; Call_ 2 6 false; Call_ 3 8 false; Turn 1; Turn 2; Turn 3; Take; Take; Transfer 1; Interrupt; Transfer 2; Interrupt; Interrupt; Interrupt; Turn 1; Turn 2].

Lemma disk_is_block_device_witness : exists t s a, steps start_state t s /\ block_steps (boot_device (fun _ => 0) two_buffers) t a /\ t <> [] /\ snd (b_buffer a 6) = repeat 7 1024 /\ ~ stops s.
Proof.
  pose proof (act_all_steps schedule start_state) as St. destruct (disk_is_block_device undef_driver (fun _ => 1) (fun _ => 0) two_buffers _ _ St) as [(a & B & Sh) Ns].
  exists (fst (act_all schedule start_state)), (snd (act_all schedule start_state)), a. split; [exact St|]. split; [exact B|]. split; [vm_compute; discriminate|]. split; [|exact Ns].
  rewrite (sh_buffer _ _ Sh). vm_compute. reflexivity.
Defined.

Lemma disk_requests_return_witness : let s := snd (act_all (firstn 6 schedule) start_state) in
  procs s !! 3%nat = Some (Wants 8 false true) /\ (free_count (drv s) < 3)%nat /\ exists t' s', steps s (t' ++ [Returned 3]) s'.
Proof.
  intros s. pose proof (act_all_steps (firstn 6 schedule) start_state) as St. assert (Q : procs s !! 3%nat = Some (Wants 8 false true)) by (vm_compute; reflexivity).
  split; [exact Q|]. exact (disk_requests_return undef_driver (fun _ => 1) (fun _ => 0) two_buffers _ s 3 (Wants 8 false true) St Q).
Defined.
