(* ===== verification/KUvm.v ===== *)
(** Whole page tables: createPagetable, freePageTable, clearUser and copyPageTable of
    src/kernel/memory/user_memory.zig, over the page tables of Kmem.v.

    A page table is kept as Kmem.v has it, with the free list; a function that makes or destroys one
    gives the free list that is left.  [fork_memory] is what fork and its [init] and [free] of
    src/kernel/execution/process.zig do with pages. *)

From S2P Require Import Prelude Mem.
From stdpp Require Import base gmap list.
From S2P Require Import Kmem.

Local Open Scope Z_scope.

(** [allocPage] with [.zeroed] fills each page it takes; these are the pages that were at the head of
    the free list. *)
Definition zero_page : list Z := repeat 0 (Z.to_nat page_size).
Definition zero_pages (ps : list Z) (m : mem) : mem := fold_left (fun m p => store m p zero_page) ps m.
Definition taken (before after : list Z) : list Z := firstn (length before - length after) before.

Definition rx : perms := Perms true false true.

Section Kernel.
Context (kernel_end physical_stop : Z).

(** * Freeing *)

(** The tables in the order in which [freeWalk] frees them: each after those below it. *)
Definition entries_of (m : gmap Z Z) (first : Z) : list Z := omap (fun i => m !! (first + i)) (List.map Z.of_nat (seq 0 512)).
Definition walk_order (t : ptable) : list Z :=
  flat_map (fun i => match pt_mids t !! i with None => [] | Some p => entries_of (pt_lows t) (512 * i) ++ [p] end) (List.map Z.of_nat (seq 0 512)) ++ [pt_root t].

Fixpoint free_pages (ps : list Z) (l : list Z) : option (list Z) :=
  match ps with [] => Some l | p :: ps => l ← freePage kernel_end physical_stop l p; free_pages ps l end.

Definition freeWalk (s : vm) : res unit * list Z :=
  if decide (pt_leaves (pt s) = ∅) then
    match free_pages (walk_order (pt s)) (fl s) with Some l => (Ok tt, l) | None => (Panic, fl s) end
  else (Panic, fl s).

Definition free (s : vm) (size : Z) : res unit * list Z :=
  let '(r, s) := if 0 <? size then unmap kernel_end physical_stop s 0 (pageRoundUp size / page_size) true else (Ok tt, s) in
  match r with Ok _ => freeWalk s | _ => (Panic, fl s) end.

Definition freePageTable (s : vm) (size : Z) : res unit * list Z :=
  match unmap kernel_end physical_stop s trampoline_virtual_address 1 false with
  | (Ok _, s) =>
      match unmap kernel_end physical_stop s trapframe_virtual_address 1 false with
      | (Ok _, s) => free s size
      | (_, s) => (Panic, fl s)
      end
  | (_, s) => (Panic, fl s)
  end.

(** * Making *)

Definition undone (e : kerr) (r : res unit * list Z) : res ptable * list Z :=
  match r with (Ok _, l) => (Err e, l) | (_, l) => (Panic, l) end.

(** [trampoline]: the page of the code that enters and leaves the kernel. *)
Definition createPagetable (trampoline trapframe : Z) (l : list Z) : res ptable * list Z :=
  match allocPage l with
  | None => (Err OutOfMemory, l)
  | Some (root, l) =>
      match map (Vm l (PTable root ∅ ∅ ∅)) trampoline_virtual_address trampoline page_size rx false with
      | (Ok _, s) =>
          match map s trapframe_virtual_address trapframe page_size rw false with
          | (Ok _, s) => (Ok (pt s), fl s)
          | (Err e, s) =>
              match unmap kernel_end physical_stop s trampoline_virtual_address 1 false with
              | (Ok _, s) => undone e (free s 0)
              | (_, s) => (Panic, fl s)
              end
          | (Panic, s) => (Panic, fl s)
          end
      | (Err e, s) => undone e (free s 0)
      | (Panic, s) => (Panic, fl s)
      end
  end.

(** The entry of the page is made invisible to the process. *)
Definition clearUser (s : vm) (v : Z) : res unit * vm :=
  match walk false s v with
  | (Ok k, s) => (Ok tt, match pt_leaves (pt s) !! k with Some e => set_leaf s k (Pte (pte_page e) (pte_perms e) false) | None => s end)
  | (_, s) => (Panic, s)
  end.
End Kernel.

(** * fork *)

Section Kernel.
Context (kernel_end physical_stop : Z).

(** The child as it grows: its page table with the free list, and physical memory. *)
Definition copy_undo (s : vm) (m : mem) (pageAddr : Z) (e : kerr) : res unit * vm * mem :=
  match unmap kernel_end physical_stop s 0 (pageAddr / page_size) true with
  | (Ok _, s) => (Err e, s, m)
  | (_, s) => (Panic, s, m)
  end.

Fixpoint copy_loop (fuel : nat) (old : ptable) (s : vm) (m : mem) (pageAddr size : Z) : res unit * vm * mem :=
  match fuel with
  | O => (Panic, s, m)
  | S fuel =>
      if pageAddr <? size then
        match walk false (Vm (fl s) old) pageAddr with
        | (Ok k, _) =>
            match pt_leaves old !! k with
            | None => (Panic, s, m)
            | Some e =>
                match allocPage (fl s) with
                | None => copy_undo s m pageAddr OutOfMemory
                | Some (newPage, l) =>
                    let m := store m newPage (load m (pte_page e) (Z.to_nat page_size)) in
                    match map (Vm l (pt s)) pageAddr newPage page_size (pte_perms e) (pte_user e) with
                    | (Ok _, s) => copy_loop fuel old s m (u64 (pageAddr + page_size)) size
                    | (Err x, s) =>
                        match freePage kernel_end physical_stop (fl s) newPage with
                        | Some l => copy_undo (Vm l (pt s)) m pageAddr x
                        | None => (Panic, s, m)
                        end
                    | (Panic, s) => (Panic, s, m)
                    end
                end
            end
        | (_, _) => (Panic, s, m)
        end
      else (Ok tt, s, m)
  end.
Definition copyPageTable (old : ptable) (s : vm) (m : mem) (size : Z) : res unit * vm * mem :=
  copy_loop (S (Z.to_nat ((size + 4095) / page_size))) old s m 0 size.

(** The trap frame and the page table of the child; an error gives back both. *)
Definition fork_memory (trampoline : Z) (parent : ptable) (size : Z) (l : list Z) (m : mem) : res (Z * ptable) * list Z * mem :=
  match allocPage l with
  | None => (Err OutOfMemory, l, m)
  | Some (trapFrame, l) =>
      match createPagetable kernel_end physical_stop trampoline trapFrame l with
      | (Ok t, l) =>
          match copyPageTable parent (Vm l t) m size with
          | (Ok _, s, m) => (Ok (trapFrame, pt s), fl s, m)
          | (Err e, s, m) =>
              match freePage kernel_end physical_stop (fl s) trapFrame with
              | Some l =>
                  match freePageTable kernel_end physical_stop (Vm l (pt s)) 0 with
                  | (Ok _, l) => (Err e, l, m)
                  | (_, l) => (Panic, l, m)
                  end
              | None => (Panic, fl s, m)
              end
          | (Panic, s, m) => (Panic, fl s, m)
          end
      | (Err e, l) =>
          match freePage kernel_end physical_stop l trapFrame with
          | Some l => (Err e, l, m)
          | None => (Panic, l, m)
          end
      | (Panic, l) => (Panic, l, m)
      end
  end.
End Kernel.
