(* ===== verification/KUvmSpec.v ===== *)
(** Page tables are made and destroyed without the loss of a page. *)

From S2P Require Import Prelude Mem.
From stdpp Require Import base gmap list.
From S2P Require Import Kmem KmemSpec KUvm.

Local Open Scope Z_scope.

(** * Tables *)

(** Each table below the root hangs in one above it. *)
Record tables_ok (t : ptable) : Prop := {
  to_mid k p : pt_mids t !! k = Some p -> 0 <= k < 512;
  to_low k p : pt_lows t !! k = Some p -> 0 <= k < 512 * 512 /\ is_Some (pt_mids t !! (k / 512));
}.

Lemma omap_insert (m : gmap Z Z) k p ks : NoDup ks -> k ∈ ks -> m !! k = None -> omap (fun i => <[k := p]> m !! i) ks ≡ₚ p :: omap (fun i => m !! i) ks.
Proof.
  induction ks as [|i ks IH]; intros N I L; [inversion I|]. apply NoDup_cons in N as [Ni N]. destruct (decide (k = i)) as [->|Ne].
  - cbn. rewrite lookup_insert_eq, L. constructor. assert (E : omap (fun j => <[i := p]> m !! j) ks = omap (fun j => m !! j) ks); [|rewrite E; reflexivity].
    clear IH N I. induction ks as [|j ks IH]; [reflexivity|]. apply not_elem_of_cons in Ni as [Nj Ni]. cbn. rewrite lookup_insert_ne by exact Nj. rewrite (IH Ni). reflexivity.
  - apply elem_of_cons in I as [I|I]; [congruence|]. specialize (IH N I L). cbn. rewrite lookup_insert_ne by exact Ne. destruct (m !! i); rewrite IH; [apply perm_swap|reflexivity].
Qed.

(** All entries of a map, looked up one after the other. *)
Lemma entries_all (m : gmap Z Z) ks : NoDup ks -> (forall k p, m !! k = Some p -> k ∈ ks) -> omap (fun i => m !! i) ks ≡ₚ (map_to_list m).*2.
Proof.
  intros N. induction m as [|k p m L IH] using map_ind; intros S.
  - rewrite map_to_list_empty. cbn. clear. induction ks as [|i ks IH]; [reflexivity|]. cbn. rewrite lookup_empty. exact IH.
  - rewrite map_to_list_insert by exact L. cbn. rewrite omap_insert; [|exact N|exact (S k p (lookup_insert_eq _ _ _))|exact L].
    rewrite IH; [reflexivity|]. intros j q J. apply (S j q). rewrite lookup_insert_ne; [exact J|]. intros ->. congruence.
Qed.

Definition indices : list Z := List.map Z.of_nat (seq 0 512).

Lemma indices_in k : k ∈ indices <-> 0 <= k < 512.
Proof.
  unfold indices. rewrite list_elem_of_In, in_map_iff. split; [intros (i & <- & I); apply in_seq in I; lia|]. intros B. exists (Z.to_nat k). split; [lia|]. apply in_seq. lia.
Qed.

Lemma indices_nodup : NoDup indices.
Proof. unfold indices. apply NoDup_fmap_2; [intros a b; lia|apply NoDup_ListNoDup, seq_NoDup]. Qed.

Lemma entries_eq m first : entries_of m first = omap (fun i => m !! (first + i)) indices.
Proof. reflexivity. Qed.

Lemma walk_order_eq t : walk_order t = flat_map (fun i => match pt_mids t !! i with None => [] | Some p => entries_of (pt_lows t) (512 * i) ++ [p] end) indices ++ [pt_root t].
Proof. reflexivity. Qed.

#[local] Opaque indices.

Definition index_pairs : list Z := flat_map (fun i => List.map (fun j => 512 * i + j) indices) indices.

Lemma index_pairs_in k : 0 <= k < 512 * 512 -> k ∈ index_pairs.
Proof.
  intros B. unfold index_pairs. apply list_elem_of_In, in_flat_map. exists (k / 512). split; [apply list_elem_of_In, indices_in; Z.to_euclidean_division_equations; lia|].
  apply in_map_iff. exists (k mod 512). split; [Z.to_euclidean_division_equations; lia|]. apply list_elem_of_In, indices_in. apply Z.mod_pos_bound. lia.
Qed.

Lemma index_pairs_nodup : NoDup index_pairs.
Proof.
  unfold index_pairs. assert (S : forall i, i ∈ indices -> 0 <= i) by (intros i I; apply indices_in in I; lia). pose proof indices_nodup as N. revert S N. generalize indices at 1 2 4. intros ks. induction ks as [|i ks IH]; intros S N; [constructor|].
  apply NoDup_cons in N as [Ni N]. cbn [flat_map]. apply NoDup_app. split; [apply NoDup_fmap_2; [intros a b; lia|apply indices_nodup]|]. split; [|apply IH; [intros j J; apply S, list_elem_of_further, J|exact N]].
  intros k K K'. apply list_elem_of_In, in_map_iff in K as (j & <- & J). apply list_elem_of_In, in_flat_map in K' as (i' & I' & K'). apply in_map_iff in K' as (j' & E & J').
  apply list_elem_of_In, indices_in in J, J'. assert (i' = i) as -> by lia. apply Ni, list_elem_of_In, I'.
Qed.

#[local] Opaque entries_of.

Lemma order_below (mids lows : gmap Z Z) ks : (forall i, i ∈ ks -> mids !! i = None -> entries_of lows (512 * i) = []) ->
  flat_map (fun i => match mids !! i with None => [] | Some p => entries_of lows (512 * i) ++ [p] end) ks ≡ₚ omap (fun i => mids !! i) ks ++ flat_map (fun i => entries_of lows (512 * i)) ks.
Proof.
  induction ks as [|i ks IH]; intros S; [reflexivity|]. specialize (IH (fun j J => S j (list_elem_of_further _ _ _ J))). pose proof (S i (list_elem_of_here _ _)) as Si.
  change (omap (fun j => mids !! j) (i :: ks)) with (match mids !! i with Some y => y :: omap (fun j => mids !! j) ks | None => omap (fun j => mids !! j) ks end).
  cbn [flat_map]. generalize dependent (flat_map (fun i => match mids !! i with None => [] | Some p => entries_of lows (512 * i) ++ [p] end) ks). intros below IH. destruct (mids !! i) as [p|].
  - rewrite IH. generalize (entries_of lows (512 * i)). intros here. solve_Permutation.
  - rewrite (Si eq_refl). exact IH.
Qed.

Lemma row_below (lows : gmap Z Z) first js : omap (fun i => lows !! i) (List.map (fun j => first + j) js) = omap (fun j => lows !! (first + j)) js.
Proof. induction js as [|j js IH]; [reflexivity|]. cbn. destruct (lows !! (first + j)); rewrite IH; reflexivity. Qed.

Lemma pairs_below (lows : gmap Z Z) ks : omap (fun i => lows !! i) (flat_map (fun i => List.map (fun j => 512 * i + j) indices) ks) = flat_map (fun i => entries_of lows (512 * i)) ks.
Proof.
  induction ks as [|i ks IH]; [reflexivity|]. cbn [flat_map]. rewrite omap_app, IH, row_below, entries_eq. reflexivity.
Qed.

Lemma no_entries (lows : gmap Z Z) i : (forall k p, lows !! k = Some p -> 0 <= k -> k / 512 <> i) -> 0 <= i -> entries_of lows (512 * i) = [].
Proof.
  intros No I. rewrite entries_eq. assert (Sj : forall j, j ∈ indices -> 0 <= j < 512) by (intros j; apply indices_in). revert Sj. generalize indices. intros js. induction js as [|j js IHj]; intros Sj; [reflexivity|].
  pose proof (Sj j (list_elem_of_here _ _)). cbn. destruct (lows !! (512 * i + j)) as [q|] eqn:Eq; [|apply IHj; intros x X; apply Sj, list_elem_of_further, X].
  destruct (No _ _ Eq); Z.to_euclidean_division_equations; lia.
Qed.

Lemma walk_order_tables t : tables_ok t -> walk_order t ≡ₚ tables t.
Proof.
  intros [M L]. rewrite walk_order_eq. unfold tables. rewrite Permutation_app_comm. cbn [app]. constructor.
  rewrite <- (entries_all (pt_lows t) index_pairs index_pairs_nodup) by (intros k p K; apply index_pairs_in, (L k p K)). unfold index_pairs. rewrite pairs_below.
  rewrite <- (entries_all (pt_mids t) indices indices_nodup) by (intros k p K; apply indices_in, (M k p K)). apply order_below.
  intros i I Ei. apply indices_in in I. apply no_entries; [|lia]. intros k p K _ Ek. destruct (L k p K) as (_ & x & X). rewrite Ek in X. congruence.
Qed.

(** * What the operations keep *)

(** Tables stay in order, pages leave the free list at its head, and what is mapped anew lies in those pages. *)
Record allots (s s' : vm) : Prop := {
  al_tables : tables_ok (pt s) -> tables_ok (pt s');
  al_taken : exists ps, fl s = ps ++ fl s' /\ forall k e, pt_leaves (pt s') !! k = Some e -> pt_leaves (pt s) !! k = Some e \/ pte_user e = false \/ pte_page e ∈ ps;
}.

Lemma allots_refl s : allots s s.
Proof. split; [auto|]. exists []. split; [reflexivity|auto]. Qed.

Lemma allots_trans s s1 s2 : allots s s1 -> allots s1 s2 -> allots s s2.
Proof.
  intros [T1 (p1 & F1 & L1)] [T2 (p2 & F2 & L2)]. split; [auto|]. exists (p1 ++ p2). split; [rewrite F1, F2, app_assoc; reflexivity|].
  intros k e E. destruct (L2 k e E) as [E1|[U|I]]; [|auto|right; right; apply elem_of_app; auto]. destruct (L1 k e E1) as [|[|]]; auto. right. right. apply elem_of_app. auto.
Qed.

Lemma walk_mid_allots s k b : 0 <= k < 512 -> allots s (snd (walk_mid b s k)).
Proof.
  intros B. unfold walk_mid. destruct (pt_mids (pt s) !! k) as [x|] eqn:E; [apply allots_refl|]. destruct b; cbn [negb]; [|apply allots_refl]. destruct (fl s) as [|p l] eqn:F; [apply allots_refl|]. cbn [allocPage snd].
  split; cbn [pt pt_mids pt_lows pt_leaves fl].
  - intros [M L]. split; cbn.
    + intros j q. rewrite lookup_insert. case_decide; [lia|apply M].
    + intros j q Eq. destruct (L j q Eq) as (Bj & x & X). split; [exact Bj|]. rewrite lookup_insert. case_decide; [eauto|exists x; exact X].
  - exists [p]. split; [rewrite F; reflexivity|auto].
Qed.

Lemma walk_low_allots s k b : 0 <= k < 512 * 512 -> is_Some (pt_mids (pt s) !! (k / 512)) -> allots s (snd (walk_low b s k)).
Proof.
  intros B Md. unfold walk_low. destruct (pt_lows (pt s) !! k) as [x|] eqn:E; [apply allots_refl|]. destruct b; cbn [negb]; [|apply allots_refl]. destruct (fl s) as [|p l] eqn:F; [apply allots_refl|]. cbn [allocPage snd].
  split; cbn [pt pt_mids pt_lows pt_leaves fl].
  - intros [M L]. split; cbn; [exact M|]. intros j q. rewrite lookup_insert. case_decide; [subst; auto|apply L].
  - exists [p]. split; [rewrite F; reflexivity|auto].
Qed.

Lemma path_bounds v : 0 <= path2 v < 512 /\ 0 <= path1 v < 512 * 512 /\ path1 v / 512 = path2 v.
Proof.
  assert (B : forall l, 0 <= pageIndex v l < 512) by (intros l; unfold pageIndex; change 511 with (Z.ones 9); rewrite Z.land_ones by lia; apply Z.mod_pos_bound; reflexivity).
  unfold path1, path2. pose proof (B 2) as B2. pose proof (B 1) as B1. clear B. generalize dependent (pageIndex v 2). generalize dependent (pageIndex v 1). intros a Ba b Bb.
  split; [exact Bb|]. split; [lia|]. rewrite Z.div_add_l by lia. rewrite Z.div_small by exact Ba. lia.
Qed.

Lemma walk_mid_some b s k u s1 : walk_mid b s k = (Ok u, s1) -> is_Some (pt_mids (pt s1) !! k).
Proof.
  unfold walk_mid. destruct (pt_mids (pt s) !! k) as [x|] eqn:X; [intros E; injection E as _ <-; rewrite X; eauto|]. destruct b; cbn [negb]; [|discriminate].
  destruct (fl s) as [|q l]; cbn [allocPage]; [discriminate|]. intros E. injection E as _ <-. cbn [pt pt_mids]. rewrite lookup_insert_eq. eauto.
Qed.

Lemma walk_mid_leaves b s k : pt_leaves (pt (snd (walk_mid b s k))) = pt_leaves (pt s).
Proof. unfold walk_mid. destruct (_ !! _); [reflexivity|]. destruct (negb b); [reflexivity|]. destruct (fl s); reflexivity. Qed.

Lemma walk_low_leaves b s k : pt_leaves (pt (snd (walk_low b s k))) = pt_leaves (pt s).
Proof. unfold walk_low. destruct (_ !! _); [reflexivity|]. destruct (negb b); [reflexivity|]. destruct (fl s); reflexivity. Qed.

Lemma walk_leaves b s v : pt_leaves (pt (snd (walk b s v))) = pt_leaves (pt s).
Proof.
  unfold walk. destruct (isOutOfRange v); [reflexivity|]. generalize (path2 v) (path1 v) (path0 v). intros k2 k1 k0. pose proof (walk_mid_leaves b s k2) as M. destruct (walk_mid b s k2) as [[]s1]; cbn [snd] in *; try exact M.
  pose proof (walk_low_leaves b s1 k1) as W. destruct (walk_low b s1 k1) as [[]s2]; cbn [snd] in *; congruence.
Qed.

Lemma walk_allots s v b : allots s (snd (walk b s v)).
Proof.
  destruct (path_bounds v) as (B2 & B1 & E1). unfold walk. destruct (isOutOfRange v); [apply allots_refl|]. pose proof (walk_mid_allots s (path2 v) b B2) as A. destruct (walk_mid b s (path2 v)) as [r s1] eqn:E. cbn [snd] in A.
  destruct r; [|exact A|exact A]. assert (Md : is_Some (pt_mids (pt s1) !! (path1 v / 512))).
  { rewrite E1. exact (walk_mid_some _ _ _ _ _ E). }
  pose proof (walk_low_allots s1 (path1 v) b B1 Md) as A2. destruct (walk_low b s1 (path1 v)) as [r2 s2]. cbn [snd] in A2. destruct r2; exact (allots_trans _ _ _ A A2).
Qed.

(** [map] of one page. *)
Lemma map_allots s v pa pm user : coveringPages v page_size = 1 -> let s' := snd (map s v pa page_size pm user) in
  (tables_ok (pt s) -> tables_ok (pt s')) /\ exists ps, fl s = ps ++ fl s' /\ forall k e, pt_leaves (pt s') !! k = Some e -> pt_leaves (pt s) !! k = Some e \/ e = Pte (pageRoundDown (u64 (pa + 0))) pm user.
Proof.
  intros Cv. unfold map. change (page_size =? 0) with false. rewrite Cv. change (Z.to_nat 1) with 1%nat. cbn [map_loop]. change (0 * page_size) with 0.
  pose proof (walk_allots s (u64 (v + 0)) true) as [T (ps & F & _)]. pose proof (walk_leaves true s (u64 (v + 0))) as Lv. destruct (walk true s (u64 (v + 0))) as [[k| |] s1]; cbn [snd] in *.
  2,3: split; [exact T|]; exists ps; split; [exact F|]; rewrite Lv; auto.
  destruct (pt_leaves (pt s1) !! k) eqn:K; cbn [snd]; (split; [intros O; destruct (T O); split; assumption|]; exists ps; split; [exact F|]).
  - rewrite Lv. auto.
  - cbn [set_leaf pt pt_leaves]. intros j e. rewrite lookup_insert. case_decide; [intros Ee; injection Ee as <-; auto|]. rewrite Lv. auto.
Qed.

Lemma walk_false_same s v : snd (walk false s v) = s.
Proof.
  unfold walk. destruct (isOutOfRange v); [reflexivity|]. generalize (path2 v) (path1 v) (path0 v). intros k2 k1 k0. assert (M : snd (walk_mid false s k2) = s) by (unfold walk_mid; destruct (_ !! _); reflexivity).
  destruct (walk_mid false s k2) as [[]s1]; cbn [snd] in *; try exact M. subst s1. assert (W : snd (walk_low false s k1) = s) by (unfold walk_low; destruct (_ !! _); reflexivity).
  destruct (walk_low false s k1) as [[]s2]; exact W.
Qed.

Section Kernel.
Context (kernel_end physical_stop : Z) (Stop : 0 <= kernel_end /\ physical_stop <= 2 ^ 63).
#[local] Abbreviation in_memory := (in_memory kernel_end physical_stop).

Lemma unmap_loop_tables n : forall i s v b, pt_mids (pt (snd (unmap_loop kernel_end physical_stop n i s v b))) = pt_mids (pt s) /\ pt_lows (pt (snd (unmap_loop kernel_end physical_stop n i s v b))) = pt_lows (pt s).
Proof.
  induction n as [|n IH]; intros i s v b; cbn [unmap_loop]; [auto|]. pose proof (walk_false_same s (u64 (v + page_size * i))) as W. destruct (walk false s _) as [[k| |] s1]; cbn [snd] in W; subst s1; try (split; reflexivity).
  destruct (pt_leaves (pt s) !! k) as [e|]; [|auto]. destruct (isBranch _); [auto|]. destruct b; [|apply (IH (i + 1) (clear_leaf s k))]. destruct (freePage _ _ _ _) as [l|]; [|auto].
  apply (IH (i + 1) (clear_leaf (Vm l (pt s)) k)).
Qed.

Lemma tables_same t t' : pt_mids t' = pt_mids t -> pt_lows t' = pt_lows t -> tables_ok t -> tables_ok t'.
Proof. intros E1 E2 [M L]. split; rewrite ?E1, ?E2; assumption. Qed.

Lemma dealloc_tables s old new : tables_ok (pt s) -> tables_ok (pt (snd (dealloc kernel_end physical_stop s old new))).
Proof.
  intros O. unfold dealloc. destruct (old <=? new); [exact O|]. destruct (_ <? _); [|exact O]. unfold unmap. destruct (negb _); [exact O|].
  pose proof (unmap_loop_tables (Z.to_nat ((pageRoundUp old - pageRoundUp new) / page_size)) 0 s (pageRoundUp new) true) as [E1 E2]. destruct (unmap_loop _ _ _ _ _ _ _) as [[]s1]; cbn [snd] in *; exact (tables_same _ _ E1 E2 O).
Qed.

Lemma undo_tables s cur old e : tables_ok (pt s) -> tables_ok (pt (snd (alloc_undo kernel_end physical_stop s cur old e))).
Proof. intros O. unfold alloc_undo. pose proof (dealloc_tables s cur old O) as D. destruct (dealloc _ _ _ _ _) as [[]s1]; exact D. Qed.

(** The pages that [alloc] maps are among those it takes, and tables are in order whatever it returns. *)
Lemma alloc_loop_allots pm old new fuel : forall k s, new <= 4096 * (pages_max - 2) -> 0 <= k -> (forall p, p ∈ fl s -> in_memory p) ->
  let '(r, s') := alloc_loop kernel_end physical_stop fuel s (4096 * k) old new pm in
  (tables_ok (pt s) -> tables_ok (pt s')) /\ match r with Ok _ => allots s s' | _ => True end.
Proof.
  induction fuel as [|fuel IH]; intros k s Nw K F; cbn [alloc_loop]; [auto|]. destruct (Z.ltb_spec (4096 * k) new) as [Lt|]; [|split; [auto|apply allots_refl]].
  destruct (fl s) as [|page l] eqn:Fl; cbn [allocPage]; [pose proof (undo_tables s (4096 * k) old OutOfMemory) as U; destruct (alloc_undo _ _ _ _ _ _) as [[]s'] eqn:E; cbn [snd] in U; split; auto; unfold alloc_undo in E; destruct (dealloc _ _ _ _ _) as [[]?]; discriminate|].
  unfold pages_max in Nw. assert (Cv : coveringPages (4096 * k) page_size = 1) by (apply covering_page; unfold pages_max; lia).
  destruct (F page (list_elem_of_here _ _)) as [Pr Pa]. assert (Rp : pageRoundDown (u64 (page + 0)) = page) by (rewrite Z.add_0_r, u64_small by lia; rewrite <- Pa at 1; rewrite round_down_page by lia; lia).
  pose proof (map_allots (Vm l (pt s)) (4096 * k) page pm true Cv) as A. rewrite Rp in A. destruct (map (Vm l (pt s)) (4096 * k) page page_size pm true) as [r s1]. cbn [snd fl pt] in A. destruct A as [T (ps & El & L)].
  destruct r as [[]|e|]; [| |auto].
  - replace (u64 (4096 * k + page_size)) with (4096 * (k + 1)) by (change page_size with 4096; rewrite u64_small by lia; lia).
    specialize (IH (k + 1) s1 Nw ltac:(lia)). destruct (alloc_loop _ _ _ _ _ _ _ _) as [r s'] eqn:E'.
    assert (F1 : forall p, p ∈ fl s1 -> in_memory p) by (intros p I; apply F; apply list_elem_of_further; rewrite El; apply elem_of_app; auto).
    destruct (IH F1) as [T' A']. split; [auto|]. destruct r; try exact Logic.I. apply (allots_trans s s1 s'); [|exact A']. split; [exact T|]. exists (page :: ps). split; [rewrite Fl, El; reflexivity|].
    intros j x Ex. destruct (L j x Ex) as [|Ep]; [auto|]. subst x. right. right. apply list_elem_of_here.
  - destruct (freePage _ _ _ _) as [l'|]; [|auto]. pose proof (undo_tables (Vm l' (pt s1)) (4096 * k) old e) as U. destruct (alloc_undo _ _ _ _ _ _) as [[]s'] eqn:E; cbn [snd pt] in U; split; auto.
    unfold alloc_undo in E. destruct (dealloc _ _ _ _ _) as [[]?]; discriminate.
Qed.

(** * Taking a page table apart *)


Lemma free_pages_all ps : forall l, (forall p, p ∈ ps -> in_memory p) -> free_pages kernel_end physical_stop ps l = Some (rev ps ++ l).
Proof.
  induction ps as [|p ps IH]; intros l M; cbn [free_pages]; [reflexivity|]. rewrite freePage_ok by (apply M, list_elem_of_here). cbn [mbind option_bind].
  rewrite IH by (intros q Q; apply M, list_elem_of_further, Q). cbn [rev]. rewrite <- app_assoc. reflexivity.
Qed.

Lemma freeWalk_all s : wf kernel_end physical_stop s -> tables_ok (pt s) -> pt_leaves (pt s) = ∅ -> exists l, freeWalk kernel_end physical_stop s = (Ok tt, l) /\ l ≡ₚ all_pages s.
Proof.
  intros W O E. unfold freeWalk. rewrite decide_True by exact E. pose proof (walk_order_tables (pt s) O) as P.
  rewrite free_pages_all; [|intros p I; rewrite P in I; apply (wf_pages _ _ s W), elem_of_app; auto]. eexists. split; [reflexivity|].
  unfold all_pages. rewrite <- (Permutation_rev (walk_order (pt s))), P. apply Permutation_app_comm.
Qed.

(** [es] from page [k] on. *)
Fixpoint lay (k : Z) (es : list pte) (m : gmap Z pte) : gmap Z pte :=
  match es with [] => m | e :: es => <[k := e]> (lay (k + 1) es m) end.

Lemma lay_lookup es : forall k m j, lay k es m !! j = if decide (k <= j < k + len es) then es !! Z.to_nat (j - k) else m !! j.
Proof.
  induction es as [|e es IH]; intros k m j; cbn [lay length]; [rewrite decide_False by lia; reflexivity|]. rewrite lookup_insert. case_decide as D.
  - subst j. rewrite decide_True by lia. replace (Z.to_nat (k - k)) with O by lia. reflexivity.
  - rewrite IH. destruct (decide (k + 1 <= j < k + 1 + len es)).
    + rewrite decide_True by lia. replace (Z.to_nat (j - k)) with (S (Z.to_nat (j - (k + 1)))) by lia. reflexivity.
    + rewrite decide_False by lia. reflexivity.
Qed.

Definition own_page (e : pte) : Prop := isBranch (pte_perms e) = false /\ in_memory (pte_page e).

Lemma clear_wf s k : wf kernel_end physical_stop s -> wf kernel_end physical_stop (clear_leaf s k).
Proof. intros [W1 W2]. split; cbn; [|exact W2]. intros j e. rewrite lookup_delete. case_decide; [discriminate|apply W1]. Qed.

Lemma unmap_lay es : forall i s m, wf kernel_end physical_stop s -> pt_leaves (pt s) = lay i es m -> 0 <= i -> (forall e, e ∈ es -> own_page e) -> (forall j, i <= j < i + len es -> m !! j = None) ->
  exists s', unmap_loop kernel_end physical_stop (length es) i s 0 true = (Ok tt, s') /\ wf kernel_end physical_stop s' /\ fl s' = rev (List.map pte_page es) ++ fl s /\ pt_leaves (pt s') = m /\
    pt_root (pt s') = pt_root (pt s) /\ pt_mids (pt s') = pt_mids (pt s) /\ pt_lows (pt s') = pt_lows (pt s).
Proof.
  induction es as [|e es IH]; intros i s m W E I Ok Nm; cbn [length unmap_loop]; [exists s; cbn in *; auto 10|].
  assert (Lk : pt_leaves (pt s) !! i = Some e) by (rewrite E; cbn [lay]; apply lookup_insert_eq). destruct (wf_leaves _ _ _ W _ _ Lk) as (B & _). unfold pages_max in B. destruct (Ok e (list_elem_of_here _ _)) as [Br [Rp Al]].
  rewrite Z.add_0_l. change page_size with 4096. rewrite u64_small by lia. rewrite (walk_present _ _ _ _ _ W Lk), Lk, Br. rewrite freePage_ok by (split; assumption).
  destruct (IH (i + 1) (clear_leaf (Vm (pte_page e :: fl s) (pt s)) i) m) as (s' & Eq & W' & Fl & Lv & Rt & Md & Lw).
  - apply clear_wf. destruct W as [W1 W2]. split; [exact W1|]. cbn. intros q. rewrite elem_of_cons. intros [->|Hq]; [split; assumption|exact (W2 q Hq)].
  - cbn. rewrite E. cbn [lay]. apply delete_insert_id. rewrite lay_lookup, decide_False by lia. apply Nm. cbn [length]. lia.
  - lia.
  - intros x X. apply Ok, list_elem_of_further, X.
  - intros j J. apply Nm. cbn [length]. lia.
  - exists s'. split; [exact Eq|]. split; [exact W'|]. split; [rewrite Fl; cbn [List.map rev fl clear_leaf]; rewrite <- app_assoc; reflexivity|auto].
Qed.

(** * A whole page table *)

Section Process.
Context (trampoline trapframe : Z).
Definition address_ok (p : Z) : Prop := 0 <= p < 2 ^ 63 /\ 4096 * (p / 4096) = p.
Context (Tramp : address_ok trampoline) (Frame : address_ok trapframe).

(** The two pages at the top. *)
Definition top_page : Z := 2 ^ 26 - 1.
Definition fixed : gmap Z pte := <[top_page - 1 := Pte trapframe rw false]> {[top_page := Pte trampoline rx false]}.

(** [es] are the pages from address 0 on; nothing else is mapped. *)
Record uvm (es : list pte) (s : vm) : Prop := {
  uv_wf : wf kernel_end physical_stop s;
  uv_tables : tables_ok (pt s);
  uv_leaves : pt_leaves (pt s) = lay 0 es fixed;
  uv_size : len es <= pages_max - 2;
  uv_own e : e ∈ es -> own_page e;
}.

Lemma fixed_low j : 0 <= j < pages_max - 2 -> fixed !! j = None.
Proof. unfold fixed, top_page, pages_max. intros B. rewrite lookup_insert_ne, lookup_singleton_ne by lia. reflexivity. Qed.

Lemma map_one s k p pm user : wf kernel_end physical_stop s -> tables_ok (pt s) -> 0 <= k < pages_max -> address_ok p -> pt_leaves (pt s) !! k = None ->
  exists s', wf kernel_end physical_stop s' /\ tables_ok (pt s') /\ all_pages s' ≡ₚ all_pages s /\
    ((exists e, map s (4096 * k) p page_size pm user = (Err e, s') /\ pt_leaves (pt s') = pt_leaves (pt s)) \/
     map s (4096 * k) p page_size pm user = (Ok tt, s') /\ pt_leaves (pt s') = <[k := Pte p pm user]> (pt_leaves (pt s))).
Proof.
  intros W O B [Bp Al] N. pose proof (map_allots s (4096 * k) p pm user (covering_page k B)) as [T _].
  destruct (map_page kernel_end physical_stop s k p pm user W B Bp Al) as (s1 & G & E & [(e & Em)|(_ & Em & W1)]).
  - exists s1. rewrite Em in T. split; [exact (wf_grows _ _ _ _ W G E)|]. split; [exact (T O)|]. split; [symmetry; apply G|]. left. eauto.
  - exists (set_leaf s1 k (Pte p pm user)). rewrite Em in T. split; [exact W1|]. split; [exact (T O)|]. split; [symmetry; exact (gr_pages _ _ G)|]. right. split; [exact Em|]. cbn. rewrite E. reflexivity.
Qed.

Lemma unmap_one s k e : wf kernel_end physical_stop s -> pt_leaves (pt s) !! k = Some e -> isBranch (pte_perms e) = false -> 0 <= k ->
  unmap kernel_end physical_stop s (4096 * k) 1 false = (Ok tt, clear_leaf s k).
Proof.
  intros W L Br K. destruct (wf_leaves _ _ _ W _ _ L) as (B & _). unfold pages_max in B. unfold unmap, isPageAligned, pageOffset. rewrite land_4095, (Z.mul_comm 4096 k), Z.mod_mul by lia. change (negb (0 =? 0)) with false. cbv iota. change (Z.to_nat 1) with 1%nat. cbn [unmap_loop].
  change (page_size * 0) with 0. rewrite Z.add_0_r, u64_small by lia. rewrite (Z.mul_comm k). rewrite (walk_present _ _ _ _ _ W L), L, Br. reflexivity.
Qed.

Lemma free_none s : wf kernel_end physical_stop s -> tables_ok (pt s) -> pt_leaves (pt s) = ∅ -> forall e, exists l, undone e (free kernel_end physical_stop s 0) = (Err e, l) /\ l ≡ₚ all_pages s.
Proof. intros W O E e. unfold free. cbn [Z.ltb Z.compare]. destruct (freeWalk_all s W O E) as (l & -> & P). exists l. auto. Qed.

(** A new page table, or an error after which all pages are free again. *)
Lemma create_spec l : (forall p, p ∈ l -> in_memory p) ->
  (exists s, createPagetable kernel_end physical_stop trampoline trapframe l = (Ok (pt s), fl s) /\ uvm [] s /\ l ≡ₚ all_pages s) \/
  (exists e l', createPagetable kernel_end physical_stop trampoline trapframe l = (Err e, l') /\ l ≡ₚ l').
Proof.
  intros M. unfold createPagetable. destruct l as [|root l]; cbn [allocPage]; [right; eauto|]. set (s0 := Vm l (PTable root ∅ ∅ ∅)).
  assert (W0 : wf kernel_end physical_stop s0).
  { split; cbn; [intros k e; rewrite lookup_empty; discriminate|]. intros p. unfold tables. cbn. rewrite !map_to_list_empty. cbn. intros I. apply M. apply elem_of_app in I as [I|I]; [apply list_elem_of_further, I|]. apply list_elem_of_singleton in I as ->. apply list_elem_of_here. }
  assert (T0 : tables_ok (pt s0)) by (split; cbn; intros k p; rewrite lookup_empty; discriminate).
  assert (P0 : root :: l ≡ₚ all_pages s0) by (unfold all_pages, tables; cbn; rewrite !map_to_list_empty; cbn; apply Permutation_cons_append).
  assert (L0 : pt_leaves (pt s0) = ∅) by reflexivity.
  change trampoline_virtual_address with (4096 * top_page). change trapframe_virtual_address with (4096 * (top_page - 1)). clearbody s0. clear M.
  destruct (map_one s0 top_page trampoline rx false W0 T0 ltac:(unfold top_page, pages_max; lia) Tramp) as (s1 & W1 & T1 & P1 & [(e & -> & L1)|(-> & L1)]); [rewrite L0; apply lookup_empty| |].
  { right. destruct (free_none s1 W1 T1 ltac:(congruence) e) as (l' & -> & P'). exists e, l'. split; [reflexivity|]. rewrite P0, P', P1. reflexivity. }
  destruct (map_one s1 (top_page - 1) trapframe rw false W1 T1 ltac:(unfold top_page, pages_max; lia) Frame) as (s2 & W2 & T2 & P2 & [(e & -> & L2)|(-> & L2)]).
  - rewrite L1, L0, lookup_insert_ne by (unfold top_page; lia). apply lookup_empty.
  - right. assert (Lt : pt_leaves (pt s2) !! top_page = Some (Pte trampoline rx false)) by (rewrite L2, L1; apply lookup_insert_eq).
    rewrite (unmap_one s2 top_page _ W2 Lt eq_refl) by (unfold top_page; lia). assert (Lc : pt_leaves (pt (clear_leaf s2 top_page)) = ∅).
    { cbn [clear_leaf pt pt_leaves]. rewrite L2, L1, L0. apply delete_insert_id, lookup_empty. }
    destruct (free_none (clear_leaf s2 top_page) (clear_wf s2 top_page W2) (tables_same (pt s2) (pt (clear_leaf s2 top_page)) eq_refl eq_refl T2) Lc e) as (l' & -> & P'). exists e, l'. split; [reflexivity|].
    rewrite P0, P'. change (all_pages (clear_leaf s2 top_page)) with (all_pages s2). rewrite P2, P1. reflexivity.
  - left. exists s2. split; [reflexivity|]. split; [|rewrite P0, P2, P1; reflexivity]. split; [exact W2|exact T2| |cbn; unfold pages_max; lia|intros e I; inversion I].
    rewrite L2, L1, L0. reflexivity.
Qed.

(** [alloc] gives a process pages behind those it has, taken from the free list, or an error and nothing. *)
Lemma alloc_uvm es s old new pm : uvm es s -> 0 <= old -> (old + 4095) / 4096 = len es -> old <= new <= 4096 * (pages_max - 2) -> isBranch pm = false ->
  exists s' news, uvm (es ++ List.map (fun p => Pte p pm true) news) s' /\ all_pages s ≡ₚ news ++ all_pages s' /\
    ((alloc kernel_end physical_stop s old new pm = (Ok new, s') /\ len es + len news = (new + 4095) / 4096 /\ (exists ps, fl s = ps ++ fl s' /\ forall p, p ∈ news -> p ∈ ps)) \/
     (exists e, alloc kernel_end physical_stop s old new pm = (Err e, s') /\ news = [])).
Proof.
  intros [W O L Sz Own] Old Er Nw Br. destruct (alloc_spec kernel_end physical_stop Stop s old new pm W Br ltac:(lia) ltac:(lia)) as (s' & news & G & R). cbv zeta in G, R. rewrite Er in G, R. exists s', news.
  assert (A : (tables_ok (pt s) -> tables_ok (pt s')) /\ match fst (alloc kernel_end physical_stop s old new pm) with Ok _ => allots s s' | _ => True end).
  { assert (Es : snd (alloc kernel_end physical_stop s old new pm) = s') by (destruct R as [[-> _]|[_ [e ->]]]; reflexivity). unfold alloc in *. rewrite (proj2 (Z.ltb_ge new old)) in * by lia.
    replace (pageRoundUp old) with (4096 * len es) in * by (rewrite pageRoundUp_eq by (unfold pages_max in *; lia); rewrite Er; lia).
    pose proof (alloc_loop_allots pm old new (S (Z.to_nat ((new - old) / page_size + 1))) (len es) s ltac:(lia) ltac:(lia) (fun p I => free_in_memory _ _ s p W I)) as A. destruct (alloc_loop _ _ _ _ _ _ _ _) as [r s1]. cbn [fst snd] in *. subst s1. exact A. }
  destruct G as [W' L' Fr News P]. assert (Bn : len es + len news <= pages_max - 2) by (destruct R as [[_ R]|[-> _]]; [rewrite R; unfold pages_max in *; Z.to_euclidean_division_equations; lia|cbn; lia]).
  split; [|split; [exact P|]].
  - split; [exact W'|apply A, O| |rewrite length_app, length_map; lia|].
    + apply map_eq. intros j. rewrite L', put_lookup, lay_lookup, length_app, length_map, L, lay_lookup. destruct (decide (len es <= j < len es + len news)).
      * rewrite decide_True by lia. rewrite lookup_app_r by lia. rewrite list_lookup_fmap. replace (Z.to_nat (j - 0) - length es)%nat with (Z.to_nat (j - len es)) by lia. destruct (news !! _); reflexivity.
      * destruct (decide (0 <= j < 0 + len es)); [rewrite decide_True by lia; rewrite lookup_app_l by lia; reflexivity|rewrite decide_False by lia; reflexivity].
    + intros e. rewrite elem_of_app. intros [I|I]; [exact (Own e I)|]. apply list_elem_of_fmap in I as (p & -> & I). split; [exact Br|exact (News p I)].
  - destruct R as [[E R]|[-> [e E]]]; [left|right; eauto]. split; [exact E|]. split; [exact R|]. rewrite E in A. cbn [fst] in A. destruct A as [_ [_ (ps & F & T)]]. exists ps. split; [exact F|].
    intros p I. apply list_elem_of_lookup in I as (i & I). pose proof (lookup_lt_Some _ _ _ I) as Li. assert (Lk : pt_leaves (pt s') !! (len es + Z.of_nat i) = Some (Pte p pm true)).
    { rewrite L', put_lookup, decide_True by lia. replace (Z.to_nat (len es + Z.of_nat i - len es)) with i by lia. rewrite I. reflexivity. }
    destruct (T _ _ Lk) as [T1|[T1|T1]]; [rewrite (Fr (len es + Z.of_nat i) ltac:(lia)) in T1; discriminate|discriminate|exact T1].
Qed.

(** A page table is freed with all its pages. *)
Lemma free_uvm es s size : uvm es s -> 0 <= size < 2 ^ 62 -> (size + 4095) / 4096 = len es ->
  exists l, freePageTable kernel_end physical_stop s size = (Ok tt, l) /\ l ≡ₚ List.map pte_page es ++ all_pages s.
Proof.
  intros [W O L Sz Own] Bs Er. unfold freePageTable. change trampoline_virtual_address with (4096 * top_page). change trapframe_virtual_address with (4096 * (top_page - 1)).
  assert (Lt : pt_leaves (pt s) !! top_page = Some (Pte trampoline rx false)) by (rewrite L, lay_lookup, decide_False by (unfold top_page, pages_max in *; lia); unfold fixed; rewrite lookup_insert_ne by lia; apply lookup_singleton_eq).
  rewrite (unmap_one s top_page _ W Lt eq_refl) by (unfold top_page; lia). pose proof (clear_wf s top_page W) as W1. set (s1 := clear_leaf s top_page) in *.
  assert (Lf : pt_leaves (pt s1) !! (top_page - 1) = Some (Pte trapframe rw false)).
  { cbn. rewrite lookup_delete_ne by lia. rewrite L, lay_lookup, decide_False by (unfold top_page, pages_max in *; lia). apply lookup_insert_eq. }
  rewrite (unmap_one s1 (top_page - 1) _ W1 Lf eq_refl) by (unfold top_page; lia). pose proof (clear_wf s1 (top_page - 1) W1) as W2. set (s2 := clear_leaf s1 (top_page - 1)) in *.
  assert (L2 : pt_leaves (pt s2) = lay 0 es ∅).
  { cbn. rewrite L. apply map_eq. intros j. rewrite lay_lookup, !lookup_delete, lay_lookup. unfold fixed, top_page, pages_max in *. destruct (decide (0 <= j < 0 + len es)); [rewrite !decide_False by lia; reflexivity|].
    rewrite lookup_empty. case_decide; [reflexivity|]. case_decide; [reflexivity|]. rewrite lookup_insert_ne, lookup_singleton_ne by auto. reflexivity. }
  assert (Run : exists s3, (if 0 <? size then unmap kernel_end physical_stop s2 0 (pageRoundUp size / page_size) true else (Ok tt, s2)) = (Ok tt, s3) /\ wf kernel_end physical_stop s3 /\ pt_leaves (pt s3) = ∅ /\
    fl s3 = rev (List.map pte_page es) ++ fl s2 /\ pt_root (pt s3) = pt_root (pt s2) /\ pt_mids (pt s3) = pt_mids (pt s2) /\ pt_lows (pt s3) = pt_lows (pt s2)).
  { destruct (Z.ltb_spec 0 size) as [Lt0|Ge0].
    - destruct (unmap_lay es 0 s2 ∅ W2 L2 ltac:(lia) Own) as (s3 & E & W3 & F & Lv & Rt & Md & Lw); [intros j _; apply lookup_empty|]. exists s3. split; [|auto 10].
      unfold unmap. change (negb (isPageAligned 0)) with false. cbv iota. rewrite pageRoundUp_eq by lia. change page_size with 4096. rewrite Z.div_mul by lia. rewrite Er, Nat2Z.id. exact E.
    - assert (size = 0) as -> by lia. destruct es; [|cbn [length] in Er; change ((0 + 4095) / 4096) with 0 in Er; lia]. exists s2. split; [reflexivity|]. auto 10. }
  destruct Run as (s3 & E & W3 & L3 & F3 & Rt & Md & Lw). unfold free. rewrite E. destruct (freeWalk_all s3 W3 (tables_same (pt s) _ Md Lw O) L3) as (l & -> & P). exists l. split; [reflexivity|].
  rewrite P. unfold all_pages, tables. rewrite F3, Rt, Md, Lw. rewrite <- Permutation_rev, <- app_assoc. reflexivity.
Qed.

(** The page of an address, for the process. *)
Lemma translate_uvm es s v e : uvm es s -> 0 <= v -> es !! Z.to_nat (v / 4096) = Some e -> pte_user e = true -> translateAddress s (4096 * (v / 4096)) = Ok (pte_page e).
Proof.
  intros [W O L Sz Own] V Le Us. pose proof (lookup_lt_Some _ _ _ Le) as Lt. assert (Q : 0 <= v / 4096) by (apply Z.div_pos; lia). unfold pages_max in Sz.
  assert (Lk : pt_leaves (pt s) !! (v / 4096) = Some e) by (rewrite L, lay_lookup, decide_True by lia; rewrite Z.sub_0_r; exact Le).
  unfold translateAddress, isOutOfRange, max_virtual_address. rewrite (proj2 (Z.leb_gt _ _)) by lia. rewrite (walk_present _ _ _ _ _ W Lk), Lk, Us. reflexivity.
Qed.
End Process.
End Kernel.
