(* ===== verification/KExec.v ===== *)
(** exec: src/kernel/filesystem/exec.zig and elf.zig, and the call of src/kernel/traps/sysfile.zig around it.

    The new page table is built from the free list, the program is read from its inode (KInode.v) into the
    pages of physical memory, and the arguments are copied (Boundary.v) to the new stack.  The inode is the one
    the path leads to, locked; [None] when there is none.  What a file holds decides how far exec gets:
    each number is read from the bytes of its headers.  A header whose type is not [load] is passed over, as the
    comparison in the source means it.  The junk that the page allocator writes to free pages is left out.

    The call fetches the arguments from the memory of the process, each into a page of its own, and gives these
    pages back in the end.  They are read only while exec runs, so that the list of the strings stands for them. *)

From S2P Require Import Prelude Mem.
From stdpp Require Import base gmap list.
From S2P Require Import Kmem Boundary KUvm KInode.

Local Open Scope Z_scope.

Definition MAXARG : Z := 32.

(** * ELF (elf.zig) *)

Definition correctMagic : Z := 0x464C457F.
Definition elf_header_size : Z := 64.
Definition program_header_size : Z := 56.

Record elf_header : Set := ElfHeader { magic : Z; entry : Z; programHeaderOffset : Z; programHeaderEntryNum : Z }.
Definition elf_header_of (b : list Z) : elf_header := ElfHeader (number_at 4 b 0) (number_at 8 b 24) (number_at 8 b 32) (number_at 2 b 56).
Definition isValid (h : elf_header) : bool := magic h =? correctMagic.

Record program_header : Set := ProgramHeader { ph_type : Z; ph_flags : Z; ph_offset : Z; virtualAddress : Z; fileSize : Z; memorySize : Z }.
Definition program_header_of (b : list Z) : program_header :=
  ProgramHeader (number_at 4 b 0) (number_at 4 b 4) (number_at 8 b 8) (number_at 8 b 16) (number_at 8 b 32) (number_at 8 b 40).
Definition load_type : Z := 1.
Definition toPagePermissions (flags : Z) : perms := Perms (Z.testbit flags 2) (Z.testbit flags 1) (Z.testbit flags 0).

(** * Results *)

Variant xerr : Set :=
| TooManyArguments | NoPageTable | CouldNotResolvePath | CouldNotReadElfHeader | CorruptedElfHeader | CouldNotReadProgramHeader
| NotEnoughMemory | MemoryAddressOverflow | MemoryNotPageAligned | CouldNotAlloc | CouldNotRead
| OutOfArgumentSpace | OutOfArgumentPointerSpace | CouldNotCopy.

(** [Halts]: a panic, or an operation that Zig leaves illegal: an overflow, a number that does not fit. *)
Variant xres (A : Type) : Type := Good (a : A) | Bad (e : xerr) | Halts.
Arguments Good {A}. Arguments Bad {A}. Arguments Halts {A}.

(** The new process while it is made: its page table with the free list, physical memory, its size; and the inode. *)
Record image : Type := Image { x_vm : vm; x_mem : mem; x_size : Z; x_file : option st }.

Section Kernel.
Context (kernel_end physical_stop : Z) (sb : super).

(** [inode.read] of [count] bytes into kernel memory. *)
Definition inode_read (offset count : Z) (x : image) : xres (list Z) * image :=
  match x_file x with
  | None => (Bad CouldNotResolvePath, x)
  | Some f =>
      match read sb (fun _ _ => true) offset count f with
      | Done l f => (Good l, Image (x_vm x) (x_mem x) (x_size x) (Some f))
      | Failed f => (Bad CouldNotRead, Image (x_vm x) (x_mem x) (x_size x) (Some f))
      | Panicked => (Halts, x)
      end
  end.

(** * Segments *)

Fixpoint loadSegment (fuel : nat) (virtualAddress offset size currentPage : Z) (x : image) : xres unit * image :=
  match fuel with
  | O => (Halts, x)
  | S fuel =>
      if currentPage <? size then
        match translateAddress (x_vm x) (virtualAddress + currentPage) with
        | Ok physicalAddress =>
            let readCount := if size - currentPage <? page_size then size - currentPage else page_size in
            if 2 ^ 32 <=? offset + currentPage then (Halts, x)
            else
              match inode_read (offset + currentPage) readCount x with
              | (Good l, x) =>
                  let x := Image (x_vm x) (store (x_mem x) physicalAddress l) (x_size x) (x_file x) in
                  if negb (len l =? readCount) then (Bad CouldNotRead, x)
                  else if 2 ^ 32 <=? currentPage + page_size then (Halts, x)
                  else loadSegment fuel virtualAddress offset size (currentPage + page_size) x
              | (Bad e, x) => (Bad e, x)
              | (Halts, x) => (Halts, x)
              end
        | _ => (Halts, x)
        end
      else (Good tt, x)
  end.
Definition segment_fuel (size : Z) : nat := S (Z.to_nat (size / page_size + 1)).

(** [user.alloc], which fills the pages it takes with zeros. *)
Definition grow (newSize : Z) (p : perms) (x : image) : xres unit * image :=
  match alloc kernel_end physical_stop (x_vm x) (x_size x) newSize p with
  | (Ok n, s) => (Good tt, Image s (zero_pages (taken (fl (x_vm x)) (fl s)) (x_mem x)) n (x_file x))
  | (Err _, s) => (Bad CouldNotAlloc, Image s (x_mem x) (x_size x) (x_file x))
  | (Panic, s) => (Halts, Image s (x_mem x) (x_size x) (x_file x))
  end.

Definition load_one (h : program_header) (x : image) : xres unit * image :=
  if negb (ph_type h =? load_type) then (Good tt, x)
  else if memorySize h <? fileSize h then (Bad NotEnoughMemory, x)
  else if 2 ^ 64 <=? virtualAddress h + memorySize h then (Bad MemoryAddressOverflow, x)
  else if negb (isPageAligned (virtualAddress h)) then (Bad MemoryNotPageAligned, x)
  else
    match grow (virtualAddress h + memorySize h) (toPagePermissions (ph_flags h)) x with
    | (Good _, x) =>
        if (2 ^ 32 <=? ph_offset h) || (2 ^ 32 <=? fileSize h) then (Halts, x)
        else loadSegment (segment_fuel (fileSize h)) (virtualAddress h) (ph_offset h) (fileSize h) 0 x
    | r => r
    end.

(** The program headers from number [index] on, [n] of them. *)
Fixpoint load_all (n : nat) (first index : Z) (x : image) : xres unit * image :=
  match n with
  | O => (Good tt, x)
  | S n =>
      let offset := first + index * program_header_size in
      if 2 ^ 32 <=? offset then (Halts, x)
      else
        match inode_read offset program_header_size x with
        | (Good b, x) =>
            if negb (len b =? program_header_size) then (Bad CouldNotReadProgramHeader, x)
            else
              match load_one (program_header_of b) x with
              | (Good _, x) => load_all n first (index + 1) x
              | r => r
              end
        | (Bad e, x) => (Bad e, x)
        | (Halts, x) => (Halts, x)
        end
  end.

(** The part under the log and the lock of the inode; the result is where the program begins. *)
Definition load_program (x : image) : xres Z * image :=
  match inode_read 0 elf_header_size x with
  | (Good b, x) =>
      if negb (len b =? elf_header_size) then (Bad CouldNotReadElfHeader, x)
      else
        let h := elf_header_of b in
        if negb (isValid h) then (Bad CorruptedElfHeader, x)
        else
          match load_all (Z.to_nat (programHeaderEntryNum h)) (programHeaderOffset h) 0 x with
          | (Good _, x) => (Good (entry h), x)
          | (Bad e, x) => (Bad e, x)
          | (Halts, x) => (Halts, x)
          end
  | (Bad e, x) => (Bad e, x)
  | (Halts, x) => (Halts, x)
  end.

(** * The stack *)

(** Two pages above the program: one that the process cannot reach, and the stack. *)
Definition make_stack (x : image) : xres unit * image :=
  let aligned := pageRoundUp (x_size x) in
  match grow (aligned + 2 * page_size) rw (Image (x_vm x) (x_mem x) aligned (x_file x)) with
  | (Good _, x) =>
      match clearUser (x_vm x) (x_size x - 2 * page_size) with
      | (Ok _, s) => (Good tt, Image s (x_mem x) (x_size x) (x_file x))
      | (_, s) => (Halts, Image s (x_mem x) (x_size x) (x_file x))
      end
  | (r, x') => (r, Image (x_vm x') (x_mem x') (x_size x) (x_file x))
  end.

(** The strings, each below the one before; the result are their addresses and the stack pointer. *)
Fixpoint push_strings (tr : translation) (base : Z) (argv : list (list Z)) (sp : Z) (m : mem) : xres (list Z * Z) * mem :=
  match argv with
  | [] => (Good ([], sp), m)
  | arg :: argv =>
      let sp := sp - (len arg + 1) in
      if sp <? 0 then (Halts, m)
      else
        let sp := sp - sp mod 16 in
        if sp <? base then (Bad OutOfArgumentSpace, m)
        else
          match copyOutTerminated tr m sp arg with
          | (m, true) =>
              match push_strings tr base argv sp m with
              | (Good (ps, sp'), m) => (Good (sp :: ps, sp'), m)
              | r => r
              end
          | (m, false) => (Bad CouldNotCopy, m)
          end
  end.

Definition pointer_bytes (ps : list Z) : list Z := flat_map (le_bytes 8) ps.

Definition push_arguments (argv : list (list Z)) (x : image) : xres Z * image :=
  let tr := translation_of (x_vm x) in
  let base := x_size x - page_size in
  match push_strings tr base argv (x_size x) (x_mem x) with
  | (Good (ps, sp), m) =>
      let sp := sp - (len argv + 1) * 8 in
      if sp <? 0 then (Halts, Image (x_vm x) m (x_size x) (x_file x))
      else
        let sp := sp - sp mod 16 in
        if sp <? base then (Bad OutOfArgumentPointerSpace, Image (x_vm x) m (x_size x) (x_file x))
        else
          match copyOut tr m sp (pointer_bytes (ps ++ [0])) with
          | (m, true) => (Good sp, Image (x_vm x) m (x_size x) (x_file x))
          | (m, false) => (Bad CouldNotCopy, Image (x_vm x) m (x_size x) (x_file x))
          end
  | (Bad e, m) => (Bad e, Image (x_vm x) m (x_size x) (x_file x))
  | (Halts, m) => (Halts, Image (x_vm x) m (x_size x) (x_file x))
  end.

(** * exec *)

Record process : Type := Process { pr_size : Z; pr_table : ptable; pr_epc : Z; pr_sp : Z; pr_a1 : Z; pr_name : list Z }.
(** The process that calls, the free list and physical memory. *)
Record kernel : Type := Kernel { k_proc : process; k_free : list Z; k_mem : mem }.

Definition slash : Z := 47.
Definition name_size : nat := 15.
(** What follows the last slash. *)
Fixpoint last_name (path name : list Z) : list Z :=
  match path with [] => name | c :: path => last_name path (if c =? slash then path else name) end.

Definition build (argv : list (list Z)) (x : image) : xres (Z * Z) * image :=
  match load_program x with
  | (Good start, x) =>
      match make_stack x with
      | (Good _, x) =>
          match push_arguments argv x with
          | (Good sp, x) => (Good (start, sp), x)
          | (Bad e, x) => (Bad e, x)
          | (Halts, x) => (Halts, x)
          end
      | (Bad e, x) => (Bad e, x)
      | (Halts, x) => (Halts, x)
      end
  | (Bad e, x) => (Bad e, x)
  | (Halts, x) => (Halts, x)
  end.

Definition exec (trampoline trapframe : Z) (path : list Z) (file : option st) (argv : list (list Z)) (k : kernel) : xres Z * kernel :=
  if MAXARG <? len argv then (Bad TooManyArguments, k)
  else
    match createPagetable kernel_end physical_stop trampoline trapframe (k_free k) with
    | (Ok t, l) =>
        match build argv (Image (Vm l t) (k_mem k) 0 file) with
        | (Good (start, sp), x) =>
            let old := k_proc k in
            let p := Process (x_size x) (pt (x_vm x)) start sp sp (firstn name_size (last_name path path)) in
            match freePageTable kernel_end physical_stop (Vm (fl (x_vm x)) (pr_table old)) (pr_size old) with
            | (Ok _, l) => (Good (len argv), Kernel p l (x_mem x))
            | (_, l) => (Halts, Kernel p l (x_mem x))
            end
        | (Bad e, x) =>
            match freePageTable kernel_end physical_stop (x_vm x) (x_size x) with
            | (Ok _, l) => (Bad e, Kernel (k_proc k) l (x_mem x))
            | (_, l) => (Halts, Kernel (k_proc k) l (x_mem x))
            end
        | (Halts, x) => (Halts, Kernel (k_proc k) (fl (x_vm x)) (x_mem x))
        end
    | (Err _, l) => (Bad NoPageTable, Kernel (k_proc k) l (k_mem k))
    | (Panic, l) => (Halts, Kernel (k_proc k) l (k_mem k))
    end.
End Kernel.

(** * The call *)

Definition MAXPATH : nat := 128.

(** [fetchAddr] of sysargs.zig. *)
Definition fetchAddr (tr : translation) (m : mem) (size address : Z) : option Z :=
  if (size <=? address) || (size <? address + 8) then None
  else match copyIn tr m address 8 with (b, true) => Some (of_le b) | _ => None end.

Variant call_error : Set := FailedGetProgPath | FailedGetArgv | TooManyArgs | FailedGetArgAddr | FailedGetMem | FailedGetArgData | FailedExec (e : xerr).
Variant call_result : Set := Returns (n : Z) | Fails (e : call_error) | Stops.

(** The arguments from the [n]th last on, the pages taken for them, and the free pages that are left. *)
Fixpoint fetch_arguments (n : nat) (tr : translation) (m : mem) (size array : Z) (l : list Z) : (list (list Z) + call_error) * list Z * list Z :=
  match n with
  | O => (inr TooManyArgs, [], l)
  | S n =>
      match fetchAddr tr m size array with
      | None => (inr FailedGetArgAddr, [], l)
      | Some userArg =>
          if userArg =? 0 then (inl [], [], l)
          else
            match allocPage l with
            | None => (inr FailedGetMem, [], l)
            | Some (page, l) =>
                match copyInString tr m userArg (Z.to_nat page_size) with
                | None => (inr FailedGetArgData, [page], l)
                | Some arg =>
                    match fetch_arguments n tr m size (array + 8) l with
                    | (inl argv, pages, l) => (inl (arg :: argv), page :: pages, l)
                    | (inr e, pages, l) => (inr e, page :: pages, l)
                    end
                end
            end
      end
  end.

Definition set_free (k : kernel) (l : list Z) : kernel := Kernel (k_proc k) l (k_mem k).

Section Kernel.
Context (kernel_end physical_stop : Z) (sb : super) (trampoline trapframe : Z).
(** The locked inode that a path leads to. *)
Context (resolvePath : list Z -> option st).

Definition sys_exec (a0 a1 : Z) (k : kernel) : call_result * kernel :=
  let tr := translation_of (Vm (k_free k) (pr_table (k_proc k))) in
  match (if a0 =? 0 then None else copyInString tr (k_mem k) a0 MAXPATH) with
  | None => (Fails FailedGetProgPath, k)
  | Some path =>
      if a1 =? 0 then (Fails FailedGetArgv, k)
      else
        let '(fetched, buffers, l) := fetch_arguments (Z.to_nat MAXARG) tr (k_mem k) (pr_size (k_proc k)) a1 (k_free k) in
        let '(r, k) :=
          match fetched with
          | inr e => (Fails e, set_free k l)
          | inl argv =>
              match exec kernel_end physical_stop sb trampoline trapframe path (resolvePath path) argv (set_free k l) with
              | (Good n, k) => (Returns n, k)
              | (Bad e, k) => (Fails (FailedExec e), k)
              | (Halts, k) => (Stops, k)
              end
          end in
        match free_pages kernel_end physical_stop buffers (k_free k) with
        | Some l => (r, set_free k l)
        | None => (Stops, k)
        end
  end.
End Kernel.
