(* ===== verification/KExecSpec.v ===== *)
(** What exec does to memory: the process while it is made, its arguments, segments and stack. *)

From S2P Require Import Prelude Mem.
From stdpp Require Import base gmap list.
From S2P Require Import KInode KInodeSpec KInodeIO KInodeMain.
From S2P Require Import Kmem KmemSpec Boundary KUvm KUvmSpec KExec.

Local Open Scope Z_scope.

(** * Pages of physical memory *)

Definition page_of (a : Z) : Z := 4096 * (a / 4096).

Lemma page_of_in p j : 4096 * (p / 4096) = p -> 0 <= j < 4096 -> page_of (p + j) = p.
Proof. unfold page_of. intros A B. rewrite <- A at 1. rewrite (Z.mul_comm 4096 (p / 4096)), Z.div_add_l, (Z.div_small j) by lia. lia. Qed.

Lemma zero_page_at m p a : store m p zero_page a = if (p <=? a) && (a <? p + 4096) then 0 else m a.
Proof.
  assert (L : length zero_page = 4096%nat) by apply repeat_length. destruct (Z.leb_spec p a), (Z.ltb_spec a (p + 4096)); cbn [andb]; try (apply store_out; rewrite L; lia).
  rewrite store_in by (rewrite L; lia). unfold zero_page. apply nth_repeat.
Qed.

Lemma zero_pages_at ps : forall m a, (forall p, p ∈ ps -> 4096 * (p / 4096) = p) -> zero_pages ps m a = if decide (page_of a ∈ ps) then 0 else m a.
Proof.
  induction ps as [|p ps IH]; intros m a A; [reflexivity|]. change (zero_pages (p :: ps) m) with (zero_pages ps (store m p zero_page)). rewrite IH by (intros q Q; apply A, list_elem_of_further, Q). rewrite zero_page_at.
  pose proof (A p (list_elem_of_here _ _)) as Ap. destruct (decide (page_of a ∈ ps)) as [I|N]; [rewrite decide_True by (apply list_elem_of_further, I); reflexivity|].
  destruct (Z.leb_spec p a), (Z.ltb_spec a (p + 4096)); cbn [andb]; (destruct (decide (page_of a ∈ p :: ps)) as [I'|N']; [|try reflexivity]).
  - reflexivity.
  - destruct N'. replace (page_of a) with p; [apply list_elem_of_here|]. replace a with (p + (a - p)) by lia. symmetry. apply page_of_in; [exact Ap|lia].
  - apply elem_of_cons in I' as [E|]; [|contradiction]. unfold page_of in E. exfalso. clear - E H H0. Z.to_euclidean_division_equations; lia.
  - apply elem_of_cons in I' as [E|]; [|contradiction]. unfold page_of in E. exfalso. clear - E H H0. Z.to_euclidean_division_equations; lia.
  - apply elem_of_cons in I' as [E|]; [|contradiction]. unfold page_of in E. exfalso. clear - E H H0. Z.to_euclidean_division_equations; lia.
Qed.

Lemma taken_app ps l : taken (ps ++ l) l = ps.
Proof. unfold taken. rewrite length_app. replace (length ps + length l - length l)%nat with (length ps) by lia. apply firstn_app_exact || (rewrite firstn_app, Nat.sub_diag, firstn_all, app_nil_r; reflexivity). Qed.

(** * A process while it is made *)

Section Kernel.
Context (kernel_end physical_stop : Z) (Stop : 0 <= kernel_end /\ physical_stop <= 2 ^ 63).
Context (trampoline trapframe : Z).

(** The byte of a process at an address. *)
Definition byte_at (es : list pte) (m : mem) (v : Z) : Z := match es !! Z.to_nat (v / 4096) with Some e => m (pte_page e + v mod 4096) | None => 0 end.

Section Made.
(** The pages that were free in the beginning, and memory then. *)
Context (pages0 : list Z) (m0 : mem) (Nodup0 : NoDup pages0).

Record made (img : Z -> Z) (es : list pte) (x : image) : Prop := {
  mk_uvm : uvm kernel_end physical_stop trampoline trapframe es (x_vm x);
  mk_size : 0 <= x_size x <= 4096 * (pages_max - 2);
  mk_len : (x_size x + 4095) / 4096 = len es;
  mk_pages : pages0 ≡ₚ List.map pte_page es ++ all_pages (x_vm x);
  mk_mem a : page_of a ∉ pages0 -> x_mem x a = m0 a;
  mk_bytes v : 0 <= v < 4096 * len es -> byte_at es (x_mem x) v = img v;
  mk_zero v : x_size x <= v -> img v = 0;
}.

Lemma made_aligned img es x p : made img es x -> p ∈ pages0 -> 4096 * (p / 4096) = p.
Proof.
  intros M I. rewrite (mk_pages _ _ _ M) in I. apply elem_of_app in I as [I|I]; [|apply (wf_pages _ _ _ (uv_wf _ _ _ _ _ _ (mk_uvm _ _ _ M)) p I)].
  apply list_elem_of_fmap in I as (e & -> & I). apply (uv_own _ _ _ _ _ _ (mk_uvm _ _ _ M) e I).
Qed.

(** The page of an address of the process. *)
Lemma made_page img es x v : made img es x -> 0 <= v < 4096 * len es -> exists e, es !! Z.to_nat (v / 4096) = Some e /\ e ∈ es /\ 4096 * (pte_page e / 4096) = pte_page e.
Proof.
  intros M B. destruct (lookup_lt_is_Some_2 es (Z.to_nat (v / 4096))) as [e E]; [Z.to_euclidean_division_equations; lia|]. exists e. split; [exact E|].
  assert (I : e ∈ es) by (apply list_elem_of_lookup; eauto). split; [exact I|]. apply (uv_own _ _ _ _ _ _ (mk_uvm _ _ _ M) e I).
Qed.

(** ** Growing *)

Lemma grow_made img es x new pm : made img es x -> x_size x <= new <= 4096 * (pages_max - 2) -> isBranch pm = false ->
  exists x', x_file x' = x_file x /\
    ((exists news, grow kernel_end physical_stop new pm x = (Good tt, x') /\ x_size x' = new /\ made img (es ++ List.map (fun p => Pte p pm true) news) x') \/
     (grow kernel_end physical_stop new pm x = (Bad CouldNotAlloc, x') /\ made img es x')).
Proof.
  intros M Nw Br. pose proof M as [U Sz Le P Mm Mb Mz]. destruct (alloc_uvm kernel_end physical_stop Stop trampoline trapframe es (x_vm x) (x_size x) new pm U ltac:(lia) Le Nw Br) as (s' & news & U' & P' & [(E & Ln & ps & F & T)|(e & E & ->)]); unfold grow; rewrite E.
  - eexists. split; [|left; exists news; split; [reflexivity|split; [reflexivity|]]]; [reflexivity|]. rewrite F, taken_app.
    assert (Pp : forall p, p ∈ ps -> p ∈ pages0) by (intros p I; rewrite P, elem_of_app; right; unfold all_pages; rewrite elem_of_app, F, elem_of_app; auto).
    assert (Al : forall p, p ∈ ps -> 4096 * (p / 4096) = p) by (intros p I; exact (made_aligned _ _ _ _ M (Pp p I))).
    assert (Old : forall e, e ∈ es -> pte_page e ∉ ps).
    { intros e I J. pose proof Nodup0 as N. rewrite P in N. apply NoDup_app in N as (_ & D & _). apply (D (pte_page e)); [apply list_elem_of_fmap_2, I|]. unfold all_pages. rewrite elem_of_app, F, elem_of_app. auto. }
    split; cbn [x_vm x_mem x_size].
    + exact U'.
    + lia.
    + rewrite length_app, length_map. lia.
    + rewrite P, P', map_app, map_map. cbn [pte_page]. rewrite map_id. rewrite <- app_assoc. reflexivity.
    + intros a N. rewrite zero_pages_at by exact Al. rewrite decide_False by (intros I; exact (N (Pp _ I))). exact (Mm a N).
    + intros v B. rewrite length_app, length_map in B. unfold byte_at. destruct (Z.lt_ge_cases v (4096 * len es)) as [Lt|Ge].
      * destruct (made_page img es x v M ltac:(lia)) as (e & Ee & I & Ap). rewrite lookup_app_l by (apply lookup_lt_Some in Ee; exact Ee). rewrite Ee.
        rewrite zero_pages_at by exact Al. rewrite (page_of_in _ _ Ap (Z.mod_pos_bound v 4096 ltac:(lia))), decide_False by exact (Old e I).
        rewrite <- (Mb v ltac:(lia)). unfold byte_at. rewrite Ee. reflexivity.
      * assert (Q : len es <= v / 4096 < len es + len news) by (Z.to_euclidean_division_equations; lia). rewrite lookup_app_r by lia. rewrite list_lookup_fmap.
        destruct (lookup_lt_is_Some_2 news (Z.to_nat (v / 4096) - length es)) as [p Ep]; [lia|]. rewrite Ep. cbn [fmap option_fmap option_map pte_page].
        assert (Ip : p ∈ ps) by (apply T, list_elem_of_lookup; eauto). rewrite zero_pages_at by exact Al. rewrite (page_of_in p _ (Al p Ip) (Z.mod_pos_bound v 4096 ltac:(lia))), decide_True by exact Ip.
        symmetry. apply Mz. Z.to_euclidean_division_equations; lia.
    + intros v B. apply Mz. lia.
  - eexists. split; [|right; split; [reflexivity|]]; [reflexivity|]. cbn [List.map] in U'. rewrite app_nil_r in U'. split; cbn [x_vm x_mem x_size]; auto. rewrite P, P'. reflexivity.
Qed.

(** Another limit when it is smaller: nothing happens. *)
Lemma grow_any img es x new pm : made img es x -> 0 <= new <= 4096 * (pages_max - 2) -> isBranch pm = false ->
  exists x', x_file x' = x_file x /\
    ((exists news, grow kernel_end physical_stop new pm x = (Good tt, x') /\ x_size x' = Z.max (x_size x) new /\ made img (es ++ List.map (fun p => Pte p pm true) news) x') \/
     (grow kernel_end physical_stop new pm x = (Bad CouldNotAlloc, x') /\ made img es x')).
Proof.
  intros M Nw Br. destruct (Z.le_gt_cases (x_size x) new) as [Le|Gt].
  - destruct (grow_made img es x new pm M ltac:(lia) Br) as (x' & F & [(news & E & Sz & M')|B]); exists x'; (split; [exact F|]); [left|right; exact B]. exists news. rewrite Z.max_r by lia. auto.
  - exists x. split; [reflexivity|]. left. exists []. cbn [List.map]. rewrite app_nil_r, Z.max_l by lia. split; [|auto]. unfold grow, alloc. rewrite (proj2 (Z.ltb_lt _ _)) by lia. unfold taken. rewrite Nat.sub_diag. destruct x. reflexivity.
Qed.

(** ** Writing *)

Lemma made_distinct img es x i j e e' : made img es x -> es !! i = Some e -> es !! j = Some e' -> pte_page e = pte_page e' -> i = j.
Proof.
  intros M I J E. pose proof Nodup0 as N. rewrite (mk_pages _ _ _ M) in N. apply NoDup_app in N as (N & _). apply (NoDup_lookup _ _ _ (pte_page e) N); rewrite list_lookup_fmap; [rewrite I|rewrite J]; cbn; congruence.
Qed.

Lemma made_write img img' es x m' i e : made img es x -> es !! i = Some e -> (forall a, page_of a <> pte_page e -> m' a = x_mem x a) ->
  (forall j, 0 <= j < 4096 -> img' (4096 * Z.of_nat i + j) = m' (pte_page e + j)) -> (forall v, v / 4096 <> Z.of_nat i -> img' v = img v) -> (forall v, x_size x <= v -> img' v = 0) ->
  made img' es (Image (x_vm x) m' (x_size x) (x_file x)).
Proof.
  intros M I Fr In Out Z0. pose proof M as [U Sz Le P Mm Mb Mz]. split; cbn [x_vm x_mem x_size]; auto.
  - intros a N. rewrite Fr; [exact (Mm a N)|]. intros E. apply N. rewrite E, P. apply elem_of_app. left. apply list_elem_of_fmap_2. apply list_elem_of_lookup. eauto.
  - intros v B. destruct (made_page img es x v M B) as (e' & Ee & Ie & Ap). unfold byte_at. rewrite Ee. pose proof (Z.mod_pos_bound v 4096 ltac:(lia)) as Mo. pose proof (Z.div_pos v 4096 ltac:(lia) ltac:(lia)) as Dv. destruct (decide (v / 4096 = Z.of_nat i)) as [E|N].
    + rewrite E, Nat2Z.id in Ee. assert (e' = e) as -> by congruence. rewrite <- In by lia. f_equal. rewrite <- E. symmetry. apply Z.div_mod. lia.
    + rewrite (Out v N), <- (Mb v B). unfold byte_at. rewrite Ee. apply Fr. rewrite (page_of_in _ _ Ap Mo). intros Eq. apply N. rewrite <- (made_distinct img es x _ _ _ _ M Ee I Eq). lia.
Qed.

Lemma made_ext img img' es x : made img es x -> (forall v, img' v = img v) -> made img' es x.
Proof. intros [U Sz Le P Mm Mb Mz] E. split; auto; intros v B; rewrite E; auto. Qed.

Definition write_at (img : Z -> Z) (v : Z) (l : list Z) : Z -> Z := fun u => if (v <=? u) && (u <? v + len l) then nth (Z.to_nat (u - v)) l 0 else img u.

(** Bytes stored at the beginning of a page. *)
Lemma made_store img es x v e l : made img es x -> 0 <= v -> v mod 4096 = 0 -> es !! Z.to_nat (v / 4096) = Some e -> len l <= 4096 -> v + len l <= x_size x ->
  made (write_at img v l) es (Image (x_vm x) (store (x_mem x) (pte_page e) l) (x_size x) (x_file x)).
Proof.
  intros M V Al Ee Ll Sl. pose proof M as [U Sz Le P Mm Mb Mz]. assert (Bv : 0 <= v < 4096 * len es) by (apply lookup_lt_Some in Ee; Z.to_euclidean_division_equations; lia).
  destruct (made_page img es x v M Bv) as (e' & Ee' & Ie & Ap). rewrite Ee in Ee'. injection Ee' as <-. pose proof (Z.div_mod v 4096 ltac:(lia)) as Dv. pose proof (Z.div_pos v 4096 ltac:(lia) ltac:(lia)) as Dp.
  apply (made_write img _ es x _ (Z.to_nat (v / 4096)) e M Ee).
  - intros a N. apply store_out. destruct (Z.lt_ge_cases a (pte_page e)) as [|G]; [lia|]. destruct (Z.lt_ge_cases a (pte_page e + len l)); [|lia]. destruct N. replace a with (pte_page e + (a - pte_page e)) by lia. apply page_of_in; [exact Ap|lia].
  - intros j J. rewrite Z2Nat.id by exact Dp. replace (4096 * (v / 4096) + j) with (v + j) by lia. unfold write_at. rewrite (proj2 (Z.leb_le _ _)) by lia. cbn [andb]. destruct (Z.ltb_spec (v + j) (v + len l)).
    + rewrite store_in by lia. f_equal. lia.
    + rewrite store_out by lia. rewrite <- Mb by lia. unfold byte_at. replace ((v + j) / 4096) with (v / 4096) by (Z.to_euclidean_division_equations; lia). rewrite Ee. f_equal. Z.to_euclidean_division_equations; lia.
  - intros u Nu. unfold write_at. destruct (Z.leb_spec v u); [|reflexivity]. destruct (Z.ltb_spec u (v + len l)); [|reflexivity]. destruct Nu. rewrite Z2Nat.id by exact Dp. Z.to_euclidean_division_equations; lia.
  - intros u Bu. unfold write_at. rewrite (proj2 (Z.ltb_ge u _)) by lia. rewrite andb_false_r. apply Mz, Bu.
Qed.

(** The page of an address of the process, as the process sees it. *)
Lemma place_uvm es s v e : uvm kernel_end physical_stop trampoline trapframe es s -> 0 <= v -> es !! Z.to_nat (v / 4096) = Some e -> place (translation_of s) v = if pte_user e then Some (pte_page e + v mod 4096) else None.
Proof.
  intros U V Ee. unfold place, translation_of. destruct (pte_user e) eqn:Us.
  - rewrite (translate_uvm _ _ _ _ _ _ _ _ U V Ee Us). reflexivity.
  - destruct U as [W O L Sz Own]. pose proof (lookup_lt_Some _ _ _ Ee) as Lt. assert (Q : 0 <= v / 4096) by (apply Z.div_pos; lia). unfold pages_max in Sz.
    assert (Lk : pt_leaves (pt s) !! (v / 4096) = Some e) by (rewrite L, lay_lookup, decide_True by lia; rewrite Z.sub_0_r; exact Ee).
    unfold translateAddress, isOutOfRange, max_virtual_address. rewrite (proj2 (Z.leb_gt _ _)) by lia. rewrite (walk_present _ _ _ _ _ W Lk), Lk, Us. reflexivity.
Qed.

(** ** The guard page *)

Definition no_user (e : pte) : pte := Pte (pte_page e) (pte_perms e) false.

Lemma clear_uvm es s i e : uvm kernel_end physical_stop trampoline trapframe es s -> es !! i = Some e ->
  exists s', clearUser s (4096 * Z.of_nat i) = (Ok tt, s') /\ uvm kernel_end physical_stop trampoline trapframe (<[i := no_user e]> es) s' /\ all_pages s' = all_pages s.
Proof.
  intros [W O L Sz Own] Ee. pose proof (lookup_lt_Some _ _ _ Ee) as Lt.
  assert (Lk : pt_leaves (pt s) !! (Z.of_nat i) = Some e) by (rewrite L, lay_lookup, decide_True by lia; replace (Z.to_nat (Z.of_nat i - 0)) with i by lia; exact Ee).
  unfold clearUser. rewrite (walk_present _ _ _ _ _ W Lk), Lk. eexists. split; [reflexivity|]. split; [|reflexivity].
  split; [|destruct O; split; assumption| |rewrite length_insert; exact Sz|].
  - destruct W as [W1 W2]. split; cbn; [|exact W2]. intros k f. rewrite lookup_insert. case_decide; [subst; intros _; exact (W1 _ _ Lk)|apply W1].
  - cbn. rewrite L. apply map_eq. intros j. rewrite lookup_insert, !lay_lookup, length_insert. case_decide; [subst j; rewrite decide_True by lia; replace (Z.to_nat (Z.of_nat i - 0)) with i by lia; symmetry; apply list_lookup_insert_eq, Lt|].
    destruct (decide (0 <= j < 0 + len es)); [|reflexivity]. rewrite list_lookup_insert_ne by lia. reflexivity.
  - intros f I. apply list_elem_of_lookup in I as (j & I). destruct (decide (j = i)) as [->|N]; [rewrite list_lookup_insert_eq in I by exact Lt; injection I as <-; exact (Own e (list_elem_of_lookup_2 _ _ _ Ee))|].
    rewrite list_lookup_insert_ne in I by auto. apply Own, (list_elem_of_lookup_2 _ _ _ I).
Qed.

Lemma clear_made img es x i e : made img es x -> es !! i = Some e ->
  exists s', clearUser (x_vm x) (4096 * Z.of_nat i) = (Ok tt, s') /\ made img (<[i := no_user e]> es) (Image s' (x_mem x) (x_size x) (x_file x)).
Proof.
  intros M Ee. pose proof M as [U Sz Le P Mm Mb Mz]. destruct (clear_uvm es (x_vm x) i e U Ee) as (s' & E & U' & Pg). exists s'. split; [exact E|].
  assert (Ei : List.map pte_page (<[i := no_user e]> es) = List.map pte_page es).
  { change (pte_page <$> <[i := no_user e]> es = pte_page <$> es). rewrite list_fmap_insert. apply list_insert_id. rewrite list_lookup_fmap, Ee. reflexivity. }
  split; cbn [x_vm x_mem x_size]; auto.
  - rewrite length_insert. exact Le.
  - rewrite Ei, Pg. exact P.
  - intros v B. rewrite length_insert in B. rewrite <- (Mb v B). unfold byte_at. destruct (decide (Z.to_nat (v / 4096) = i)) as [->|N]; [rewrite list_lookup_insert_eq, Ee by exact (lookup_lt_Some _ _ _ Ee); reflexivity|rewrite list_lookup_insert_ne by auto; reflexivity].
Qed.
End Made.
End Kernel.

(** Memory is the same but for the bytes from [a] to [b]. *)
Definition same_but (m m' : mem) (a b : Z) : Prop := forall x, x < a \/ b <= x -> m' x = m x.

Lemma same_but_trans m m1 m2 a b a' b' : same_but m m1 a b -> same_but m1 m2 a' b' -> same_but m m2 (Z.min a a') (Z.max b b').
Proof. intros F G x X. rewrite (G x), (F x) by lia. reflexivity. Qed.

Lemma same_but_weaken m m' a b a' b' : same_but m m' a b -> a' <= a -> b <= b' -> same_but m m' a' b'.
Proof. intros F A B x X. apply F. lia. Qed.

Lemma pointer_bytes_length ps : len (pointer_bytes ps) = 8 * len ps.
Proof. induction ps as [|p ps IH]; [reflexivity|]. unfold pointer_bytes in *. cbn [flat_map length]. rewrite length_app, le_bytes_length. lia. Qed.

Section Stack.
(** The page of the stack: its addresses begin at [base], the page is [q]. *)
Context (tr : translation) (base q : Z).
Context (Page : forall j, 0 <= j < 4096 -> Boundary.place tr (base + j) = Some (q + j)) (Above : 4096 <= base) (Aligned : base mod 16 = 0).

Lemma stack_place v : base <= v < base + 4096 -> Boundary.place tr v = Some (q + (v - base)).
Proof. intros B. rewrite <- Page by lia. f_equal. lia. Qed.

Lemma stack_separate v n : base <= v -> v + n <= base + 4096 -> separate tr v n.
Proof. intros V N i j p I J. rewrite !stack_place by lia. intros [= <-] [= E]. lia. Qed.

(** What lies in memory at an address of the stack. *)
Definition lies (m : mem) (v : Z) (l : list Z) : Prop := forall j, 0 <= j < len l -> m (q + (v - base) + j) = nth (Z.to_nat j) l 0.

Lemma lies_kept m m' v l a b : lies m v l -> same_but m m' a b -> b <= q + (v - base) \/ q + (v - base) + len l <= a -> lies m' v l.
Proof. intros H F B j J. rewrite F by lia. apply H, J. Qed.

Lemma copied_out m v l : base <= v -> v + len l <= base + 4096 -> exists m', copyOut tr m v l = (m', true) /\ lies m' v l /\ same_but m m' (q + (v - base)) (q + (v - base) + len l).
Proof.
  intros V L. destruct (bytes_out_spec tr l m v) as (pm & E & In & Out); [intros i I; rewrite stack_place by lia; eauto|apply stack_separate; lia|].
  pose proof (copyOut_loop_bytes tr (S (length l)) m v l ltac:(lia)) as K. rewrite E in K. unfold copyOut. destruct (copyOut_loop _ _ _ _ _) as [m' b]. destruct K as [K1 K2]. cbn [fst snd] in K1, K2. subst b. exists m'. split; [reflexivity|]. split.
  - intros j J. rewrite K1. apply In; [exact J|]. rewrite stack_place by lia. f_equal. lia.
  - intros x X. rewrite K1. apply Out. intros i I. rewrite stack_place by lia. intros [= E']. lia.
Qed.

Lemma string_out m v l : base <= v -> v + len l + 1 <= base + 4096 -> exists m', copyOutTerminated tr m v l = (m', true) /\ lies m' v (l ++ [0]) /\ same_but m m' (q + (v - base)) (q + (v - base) + len l + 1).
Proof.
  intros V L. destruct (copied_out m v l V ltac:(lia)) as (m1 & E1 & L1 & F1). destruct (copied_out m1 (v + len l) [0] ltac:(lia)) as (m2 & E2 & L2 & F2); [cbn [length]; lia|]. exists m2. unfold copyOutTerminated. rewrite E1. split; [exact E2|]. cbn [length] in *. split.
  - intros j J. rewrite length_app in J. cbn [length] in J. destruct (Z.lt_ge_cases j (len l)).
    + rewrite F2 by lia. rewrite app_nth1 by lia. apply L1. lia.
    + replace j with (len l) by lia. rewrite app_nth2 by lia. rewrite Nat2Z.id, Nat.sub_diag. change (nth 0 [0] 0) with (nth (Z.to_nat 0) [0] 0). rewrite <- (L2 0) by (cbn; lia). f_equal. lia.
  - eapply same_but_weaken; [exact (same_but_trans _ _ _ _ _ _ _ F1 F2)|lia|lia].
Qed.

Definition has_string (m : mem) (low high : Z) (arg : list Z) (p : Z) : Prop := low <= p /\ p + len arg + 1 <= high /\ lies m p (arg ++ [0]).

(** Room that is enough for the strings, however they are aligned. *)
Fixpoint string_room (argv : list (list Z)) : Z := match argv with [] => 0 | arg :: argv => len arg + 16 + string_room argv end.

Lemma string_room_pos argv : 0 <= string_room argv.
Proof. induction argv; cbn; lia. Qed.

Lemma push_strings_spec argv : forall sp m, base <= sp <= base + 4096 -> sp mod 16 = 0 -> Forall (fun arg => len arg < 4096) argv ->
  (exists ps sp' m', push_strings tr base argv sp m = (Good (ps, sp'), m') /\ base <= sp' <= sp /\ sp - sp' <= string_room argv /\ sp' mod 16 = 0 /\ length ps = length argv /\
    same_but m m' (q + (sp' - base)) (q + (sp - base)) /\ Forall2 (has_string m' sp' sp) argv ps) \/
  (exists e m', push_strings tr base argv sp m = (Bad e, m') /\ sp - base < string_room argv /\ same_but m m' q (q + (sp - base))).
Proof.
  induction argv as [|arg argv IH]; intros sp m B Al Sh; cbn [push_strings].
  - left. exists [], sp, m. split; [reflexivity|]. split; [lia|]. split; [cbn; lia|]. split; [exact Al|]. split; [reflexivity|]. split; [intros x _; reflexivity|constructor].
  - apply Forall_cons_iff in Sh as [S1 Sh]. rewrite (proj2 (Z.ltb_ge _ _)) by lia. set (v := sp - (len arg + 1)). pose proof (Z.mod_pos_bound v 16 ltac:(lia)) as Mv. set (sp1 := v - v mod 16).
    destruct (Z.ltb_spec sp1 base) as [|Ge]; [right; exists OutOfArgumentSpace, m; split; [reflexivity|split; [cbn [string_room]; pose proof (string_room_pos argv); lia|intros x _; reflexivity]]|].
    assert (Al1 : sp1 mod 16 = 0) by (unfold sp1; clear; Z.to_euclidean_division_equations; lia).
    destruct (string_out m sp1 arg Ge ltac:(lia)) as (m1 & -> & L1 & F1).
    destruct (IH sp1 m1 ltac:(lia) Al1 Sh) as [(ps & sp2 & m2 & -> & B2 & Rm & Al2 & Ln & F2 & H2)|(e & m2 & -> & Rm & F2)].
    + left. exists (sp1 :: ps), sp2, m2. split; [reflexivity|]. split; [lia|]. split; [cbn [string_room]; lia|]. split; [exact Al2|]. split; [cbn; congruence|]. split; [eapply same_but_weaken; [exact (same_but_trans _ _ _ _ _ _ _ F1 F2)|lia|lia]|].
      constructor.
      * split; [lia|]. split; [lia|]. apply (lies_kept _ _ _ _ _ _ L1 F2). lia.
      * eapply Forall2_impl; [exact H2|]. intros a p (P1 & P2 & P3). split; [lia|]. split; [lia|exact P3].
    + right. exists e, m2. split; [reflexivity|]. split; [cbn [string_room]; lia|]. eapply same_but_weaken; [exact (same_but_trans _ _ _ _ _ _ _ F1 F2)|lia|lia].
Qed.

(** The strings, and the pointers to them below. *)
Definition arguments_at (m : mem) (sp : Z) (argv : list (list Z)) (ps : list Z) : Prop :=
  base <= sp /\ sp + 8 * (len argv + 1) <= base + 4096 /\ sp mod 16 = 0 /\ lies m sp (pointer_bytes (ps ++ [0])) /\ Forall2 (has_string m base (base + 4096)) argv ps.
End Stack.

Definition argument_room (argv : list (list Z)) : Z := string_room argv + 8 * (len argv + 1) + 15.

Lemma push_arguments_spec argv x q (tr := translation_of (x_vm x)) (base := x_size x - 4096) :
  (forall j, 0 <= j < 4096 -> Boundary.place tr (base + j) = Some (q + j)) -> 4096 <= base -> base mod 16 = 0 -> len argv <= MAXARG -> Forall (fun arg => len arg < 4096) argv ->
  exists m', same_but (x_mem x) m' q (q + 4096) /\
    ((exists sp ps, push_arguments argv x = (Good sp, Image (x_vm x) m' (x_size x) (x_file x)) /\ arguments_at base q m' sp argv ps) \/
     (exists e, push_arguments argv x = (Bad e, Image (x_vm x) m' (x_size x) (x_file x)) /\ 4096 < argument_room argv)).
Proof.
  intros Page Ab Al Mx Sh. unfold push_arguments. fold tr. change (x_size x - page_size) with base. unfold MAXARG in Mx.
  destruct (push_strings_spec tr base q Page Ab argv (x_size x) (x_mem x) ltac:(lia)) as [(ps & sp & m1 & -> & B & Rm & A1 & Ln & F1 & H1)|(e & m1 & -> & Rm & F1)]; [unfold base in *; Z.to_euclidean_division_equations; lia|exact Sh| |].
  - rewrite (proj2 (Z.ltb_ge _ _)) by lia. set (v := sp - (len argv + 1) * 8). pose proof (Z.mod_pos_bound v 16 ltac:(lia)) as Mv. set (sp1 := v - v mod 16).
    destruct (Z.ltb_spec sp1 base) as [|Ge]; [exists m1; split; [eapply same_but_weaken; [exact F1|lia|lia]|right; eexists; split; [reflexivity|unfold argument_room; lia]]|].
    assert (Lp : len (pointer_bytes (ps ++ [0])) = 8 * (len argv + 1)) by (rewrite pointer_bytes_length, length_app, Ln; cbn [length]; lia).
    destruct (copied_out tr base q Page m1 sp1 (pointer_bytes (ps ++ [0])) Ge ltac:(lia)) as (m2 & -> & L2 & F2). rewrite Lp in F2. exists m2. split; [eapply same_but_weaken; [exact (same_but_trans _ _ _ _ _ _ _ F1 F2)|lia|lia]|]. left. exists sp1, ps. split; [reflexivity|].
    split; [exact Ge|]. split; [lia|]. split; [unfold sp1; clear; Z.to_euclidean_division_equations; lia|]. split; [exact L2|].
    eapply Forall2_impl; [exact H1|]. intros a p (P1 & P2 & P3). split; [lia|]. split; [lia|]. apply (lies_kept _ _ _ _ _ _ _ _ P3 F2). lia.
  - exists m1. split; [eapply same_but_weaken; [exact F1|lia|lia]|]. right. exists e. split; [reflexivity|unfold argument_room; lia].
Qed.

(** * The program that a file holds *)

Definition slice (c : list Z) (offset count : Z) : list Z := firstn (Z.to_nat count) (skipn (Z.to_nat offset) c).

(** A segment put at its address. *)
Definition place_segment (c : list Z) (va offset size : Z) (img : Z -> Z) : Z -> Z := fun u => if (va <=? u) && (u <? va + size) then nth (Z.to_nat (offset + (u - va))) c 0 else img u.
Definition place_header (c : list Z) (img : Z -> Z) (h : program_header) : Z -> Z := if ph_type h =? load_type then place_segment c (virtualAddress h) (ph_offset h) (fileSize h) img else img.

Definition header_at (c : list Z) (first index : Z) : program_header := program_header_of (slice c (first + index * program_header_size) program_header_size).
Definition headers (c : list Z) : list program_header :=
  let h := elf_header_of (slice c 0 elf_header_size) in List.map (fun i => header_at c (programHeaderOffset h) (Z.of_nat i)) (seq 0 (Z.to_nat (programHeaderEntryNum h))).
(** The bytes of the program: those of its segments, and zeros. *)
Definition program (c : list Z) : Z -> Z := fold_left (place_header c) (headers c) (fun _ => 0).

(** Numbers that exec can work with. *)
Record loadable (h : program_header) : Prop := {
  lo_address : 0 <= virtualAddress h;
  lo_offset : 0 <= ph_offset h;
  lo_size : 0 <= fileSize h;
  lo_end : virtualAddress h + memorySize h <= 4096 * (pages_max - 4);
  lo_file : ph_offset h + fileSize h + page_size <= 2 ^ 32;
  lo_flags : isBranch (toPagePermissions (ph_flags h)) = false;
}.
Record sane (c : list Z) : Prop := {
  sa_first : let h := elf_header_of (slice c 0 elf_header_size) in 0 <= programHeaderOffset h /\ 0 <= programHeaderEntryNum h /\ programHeaderOffset h + programHeaderEntryNum h * program_header_size < 2 ^ 32;
  sa_headers h : h ∈ headers c -> ph_type h = load_type -> loadable h;
}.

(** All that the headers say is in the file, and can be loaded. *)
Record whole_segment (c : list Z) (h : program_header) : Prop := {
  ws_size : fileSize h <= memorySize h;
  ws_aligned : virtualAddress h mod page_size = 0;
  ws_file : ph_offset h + fileSize h <= len c;
}.
Record complete (c : list Z) : Prop := {
  co_header : elf_header_size <= len c;
  co_valid : isValid (elf_header_of (slice c 0 elf_header_size)) = true;
  co_table : let h := elf_header_of (slice c 0 elf_header_size) in programHeaderOffset h + programHeaderEntryNum h * program_header_size <= len c;
  co_segments h : h ∈ headers c -> ph_type h = load_type -> whole_segment c h;
}.

Lemma slice_length c o n : 0 <= o -> 0 <= n -> len (slice c o n) = Z.max 0 (Z.min n (len c - o)).
Proof. intros O N. unfold slice. rewrite length_firstn, length_skipn. lia. Qed.

Lemma slice_nth c o n i : 0 <= o -> 0 <= i < n -> nth (Z.to_nat i) (slice c o n) 0 = nth (Z.to_nat (o + i)) c 0.
Proof. intros O I. unfold slice. rewrite nth_firstn, (proj2 (Nat.ltb_lt _ _)), nth_skipn by lia. f_equal. lia. Qed.

Section Kernel.
Context (kernel_end physical_stop : Z) (Stop : 0 <= kernel_end /\ physical_stop <= 2 ^ 63).
Context (trampoline trapframe : Z) (pages0 : list Z) (m0 : mem) (Nodup0 : NoDup pages0).
Context (sb : super) (R : Z -> Prop) (f : st) (Fok : file_ok sb R f).

#[local] Abbreviation made := (made kernel_end physical_stop trampoline trapframe pages0 m0).
#[local] Abbreviation c := (contents f).
Definition for_user (es : list pte) : Prop := forall e, e ∈ es -> pte_user e = true.

(** What every step leaves: a process that can be taken apart. *)
Definition holds (max : Z) (img : Z -> Z) (es : list pte) (x : image) : Prop := made img es x /\ for_user es /\ x_file x = Some f /\ x_size x <= max.
Definition stopped {A} (max : Z) (whole : Prop) (r : xres A * image) : Prop := exists e img es, fst r = Bad e /\ (whole -> e = CouldNotAlloc) /\ holds max img es (snd r).

Lemma inode_read_ok o n x : x_file x = Some f -> 0 <= o -> 0 <= n -> o + n < 2 ^ 32 -> inode_read sb o n x = (Good (slice c o n), x).
Proof. intros F O N B. unfold inode_read. rewrite F, (read_contents sb R f o n Fok O N B). destruct x. cbn in F. subst. reflexivity. Qed.

Lemma loadSegment_spec max va off size fuel : forall cur img es x, holds max img es x -> 0 <= va -> va mod 4096 = 0 -> 0 <= off -> off + size + page_size <= 2 ^ 32 -> 0 <= cur -> cur mod 4096 = 0 ->
  va + size <= x_size x -> size - cur <= 4096 * (Z.of_nat fuel - 1) -> (0 < fuel)%nat ->
  (exists x', loadSegment sb fuel va off size cur x = (Good tt, x') /\ x_size x' = x_size x /\ holds max (place_segment c (va + cur) (off + cur) (size - cur) img) es x') \/ stopped max (off + size <= len c) (loadSegment sb fuel va off size cur x).
Proof.
  change page_size with 4096. induction fuel as [|fuel IH]; intros cur img es x (M & Us & F & Mx) V Va O Bo C Ca Sx Fu Pf; [lia|]. cbn [loadSegment]. destruct (Z.ltb_spec cur size) as [Lt|Ge].
  - assert (Av : (va + cur) mod 4096 = 0) by (Z.to_euclidean_division_equations; lia). pose proof (mk_size _ _ _ _ _ _ _ _ _ M) as Sz. pose proof (mk_len _ _ _ _ _ _ _ _ _ M) as Ln.
    destruct (made_page _ _ _ _ _ _ img es x (va + cur) M) as (e & Ee & Ie & Ap); [Z.to_euclidean_division_equations; lia|].
    assert (Tr : translateAddress (x_vm x) (va + cur) = Kmem.Ok (pte_page e)).
    { rewrite <- (translate_uvm _ _ _ _ es (x_vm x) (va + cur) e (mk_uvm _ _ _ _ _ _ _ _ _ M) ltac:(lia) Ee (Us e Ie)). f_equal. Z.to_euclidean_division_equations; lia. }
    rewrite Tr. change page_size with 4096. set (n := if size - cur <? 4096 then size - cur else 4096).
    assert (Bn : 0 < n <= 4096 /\ n <= size - cur /\ (n = 4096 \/ n = size - cur)) by (unfold n; destruct (Z.ltb_spec (size - cur) 4096); lia). clearbody n.
    rewrite (proj2 (Z.leb_gt _ _)) by lia. rewrite (inode_read_ok (off + cur) n x F) by lia. set (l := slice c (off + cur) n).
    assert (Ll : len l <= n) by (unfold l; rewrite slice_length by lia; lia).
    pose proof (made_store _ _ _ _ _ _ Nodup0 img es x (va + cur) e l M ltac:(lia) Av Ee ltac:(lia) ltac:(lia)) as M'. set (x1 := Image (x_vm x) _ _ _) in *.
    assert (H1 : holds max (write_at img (va + cur) l) es x1) by (split; [exact M'|auto]).
    destruct (Z.eqb_spec (len l) n) as [El|Nl]; cbn [negb]; [|right; exists CouldNotRead, (write_at img (va + cur) l), es; split; [reflexivity|]; split; [intros W; unfold l in Nl; rewrite slice_length in Nl by lia; lia|exact H1]]. rewrite (proj2 (Z.leb_gt _ _)) by lia.
    destruct (IH (cur + 4096) (write_at img (va + cur) l) es x1 H1) as [(x' & E & S' & (M2 & H2))|St]; try lia; [Z.to_euclidean_division_equations; lia|exact Sx| |right; exact St].
    left. exists x'. split; [exact E|]. split; [exact S'|]. split; [|exact H2]. apply (made_ext _ _ _ _ _ _ _ _ _ _ M2). intros u. unfold place_segment, write_at.
    destruct (Z.leb_spec (va + cur) u), (Z.ltb_spec u (va + cur + (size - cur))), (Z.leb_spec (va + (cur + 4096)) u), (Z.ltb_spec u (va + (cur + 4096) + (size - (cur + 4096)))), (Z.ltb_spec u (va + cur + len l)); cbn [andb]; try lia; try reflexivity.
    + apply (f_equal (fun i => nth (Z.to_nat i) c 0)). lia.
    + unfold l. rewrite slice_nth by lia. apply (f_equal (fun i => nth (Z.to_nat i) c 0)). lia.
  - left. exists x. split; [reflexivity|]. split; [reflexivity|]. split; [|auto]. apply (made_ext _ _ _ _ _ _ _ _ _ _ M). intros u. unfold place_segment.
    destruct (Z.leb_spec (va + cur) u), (Z.ltb_spec u (va + cur + (size - cur))); cbn [andb]; try reflexivity. lia.
Qed.

(** ** Headers *)

Definition program_max : Z := 4096 * (pages_max - 4).

Lemma for_user_grown es pm news : for_user es -> for_user (es ++ List.map (fun p => Pte p pm true) news).
Proof. intros U e. rewrite elem_of_app. intros [I|I]; [exact (U e I)|]. apply list_elem_of_fmap in I as (p & -> & _). reflexivity. Qed.

Lemma load_one_spec h img es x : holds program_max img es x -> (ph_type h = load_type -> loadable h) ->
  (exists es' x', load_one kernel_end physical_stop sb h x = (Good tt, x') /\ holds program_max (place_header c img h) es' x') \/ stopped program_max (ph_type h = load_type -> whole_segment c h) (load_one kernel_end physical_stop sb h x).
Proof.
  intros H Lo. assert (Bad_here : forall e (W : Prop), (W -> e = CouldNotAlloc) -> stopped (A := unit) program_max W (Bad e, x)) by (intros e W Y; exists e, img, es; split; [reflexivity|split; [exact Y|exact H]]).
  unfold load_one, place_header. destruct (Z.eqb_spec (ph_type h) load_type) as [Ty|Nt]; cbn [negb]; [|left; eauto]. destruct (Lo Ty) as [Va O Fs En Fi Fl]. clear Lo.
  destruct (Z.ltb_spec (memorySize h) (fileSize h)) as [Lt|Ge]; [right; apply Bad_here; intros W; destruct (W Ty); lia|]. destruct (Z.leb_spec (2 ^ 64) (virtualAddress h + memorySize h)); [unfold pages_max in En; lia|].
  unfold isPageAligned. rewrite offset_mod. destruct (Z.eqb_spec (virtualAddress h mod 4096) 0) as [Al|Na]; cbn [negb]; [|right; apply Bad_here; intros W; destruct (W Ty); contradiction]. destruct H as (M & Us & F & Mx).
  destruct (grow_any _ _ Stop _ _ _ _ Nodup0 img es x (virtualAddress h + memorySize h) _ M ltac:(lia) Fl) as (x1 & F1 & [(news & E & S1 & M1)|(E & M1)]); rewrite E.
  - rewrite (proj2 (Z.leb_gt _ _)), (proj2 (Z.leb_gt _ _)) by (change page_size with 4096 in *; lia). cbn [orb].
    assert (H1 : holds program_max img (es ++ List.map (fun p => Pte p (toPagePermissions (ph_flags h)) true) news) x1) by (split; [exact M1|]; split; [apply for_user_grown, Us|]; split; [congruence|unfold program_max in *; lia]).
    destruct (loadSegment_spec program_max (virtualAddress h) (ph_offset h) (fileSize h) (segment_fuel (fileSize h)) 0 img _ x1 H1 Va Al O) as [(x2 & E2 & _ & H2)|St]; try lia; [reflexivity| |unfold segment_fuel; lia| |right; destruct St as (e & img' & es' & E' & W' & H'); exists e, img', es'; split; [exact E'|]; split; [intros W; apply W', (W Ty)|exact H']].
    + unfold segment_fuel. change page_size with 4096. Z.to_euclidean_division_equations; lia.
    + left. rewrite !Z.add_0_r, Z.sub_0_r in H2. eauto.
  - right. exists CouldNotAlloc, img, es. split; [reflexivity|]. split; [reflexivity|]. split; [exact M1|]. split; [exact Us|]. split; [cbn; congruence|]. pose proof (mk_len _ _ _ _ _ _ _ _ _ M). cbn [snd].
    unfold grow in E. destruct (alloc _ _ _ _ _ _) as [[]]; try discriminate. injection E as <-. exact Mx.
Qed.

Lemma load_all_spec n : forall first index img es x, holds program_max img es x -> 0 <= first -> 0 <= index -> first + (index + Z.of_nat n) * program_header_size < 2 ^ 32 ->
  (forall i, (i < n)%nat -> let h := header_at c first (index + Z.of_nat i) in ph_type h = load_type -> loadable h) ->
  (exists es' x', load_all kernel_end physical_stop sb n first index x = (Good tt, x') /\
    holds program_max (fold_left (place_header c) (List.map (fun i => header_at c first (index + Z.of_nat i)) (seq 0 n)) img) es' x') \/
    stopped program_max (first + (index + Z.of_nat n) * program_header_size <= len c /\ forall i, (i < n)%nat -> let h := header_at c first (index + Z.of_nat i) in ph_type h = load_type -> whole_segment c h) (load_all kernel_end physical_stop sb n first index x).
Proof.
  induction n as [|n IH]; intros first index img es x H F0 I0 B Lo; [left; exists es, x; split; [reflexivity|exact H]|]. cbn [load_all]. change program_header_size with 56 in *. rewrite (proj2 (Z.leb_gt _ _)) by lia. pose proof H as (_ & _ & F & _).
  rewrite (inode_read_ok _ _ x F) by lia. destruct (Z.eqb_spec (len (slice c (first + index * 56) 56)) 56) as [El|Nl]; cbn [negb]; [|right; exists CouldNotReadProgramHeader, img, es; split; [reflexivity|split; [intros [W _]; rewrite slice_length in Nl by lia; lia|exact H]]].
  pose proof (Lo O ltac:(lia)) as L0. cbv zeta in L0. rewrite Z.add_0_r in L0. destruct (load_one_spec (header_at c first index) img es x H L0) as [(es1 & x1 & E & H1)|St].
  - change (program_header_of (slice c (first + index * 56) 56)) with (header_at c first index). rewrite E. destruct (IH first (index + 1) _ es1 x1 H1 F0 ltac:(lia) ltac:(lia)) as [(es2 & x2 & E2 & H2)|St]; [| |right; destruct St as (e & img' & es' & E' & W' & H'); exists e, img', es'; split; [exact E'|]; split; [|exact H']].
    + intros i Bi. specialize (Lo (S i) ltac:(lia)). replace (index + 1 + Z.of_nat i) with (index + Z.of_nat (S i)) by lia. exact Lo.
    + left. exists es2, x2. split; [exact E2|]. cbn [seq List.map fold_left]. rewrite <- seq_shift, map_map, Z.add_0_r. erewrite map_ext; [exact H2|]. intros i. cbn beta. f_equal. lia.
    + intros [W1 W2]. apply W'. split; [lia|]. intros i Bi. specialize (W2 (S i) ltac:(lia)). replace (index + 1 + Z.of_nat i) with (index + Z.of_nat (S i)) by lia. exact W2.
  - change (program_header_of (slice c (first + index * 56) 56)) with (header_at c first index). destruct St as (e & img' & es' & E & W' & H'). destruct (load_one _ _ _ _ _) as [r x1]. cbn [fst snd] in E, H'. subst r. right. exists e, img', es'. split; [reflexivity|].
    split; [|exact H']. intros [_ W2]. apply W'. specialize (W2 O ltac:(lia)). cbv zeta in W2. rewrite Z.add_0_r in W2. exact W2.
Qed.

(** The whole program. *)
Lemma load_program_spec es x : sane c -> holds program_max (fun _ => 0) es x ->
  (exists es' x', load_program kernel_end physical_stop sb x = (Good (entry (elf_header_of (slice c 0 elf_header_size))), x') /\ isValid (elf_header_of (slice c 0 elf_header_size)) = true /\ holds program_max (program c) es' x') \/
  stopped program_max (complete c) (load_program kernel_end physical_stop sb x).
Proof.
  intros [Sf Sh] H. pose proof H as (_ & _ & F & _). assert (Bad_here : forall e (W : Prop), (W -> e = CouldNotAlloc) -> stopped (A := Z) program_max W (Bad e, x)) by (intros e W Y; exists e, (fun _ => 0), es; split; [reflexivity|split; [exact Y|exact H]]).
  unfold load_program. rewrite (inode_read_ok _ _ x F) by (change elf_header_size with 64; lia). destruct (Z.eqb_spec (len (slice c 0 elf_header_size)) elf_header_size) as [El|Nl]; cbn [negb]; [|right; apply Bad_here; intros [W _ _ _]; rewrite slice_length in Nl by (change elf_header_size with 64; lia); change elf_header_size with 64 in *; lia].
  assert (Co : complete c -> let h := elf_header_of (slice c 0 elf_header_size) in isValid h = true /\ programHeaderOffset h + programHeaderEntryNum h * program_header_size <= len c /\
    forall i, (i < Z.to_nat (programHeaderEntryNum h))%nat -> let h' := header_at c (programHeaderOffset h) (Z.of_nat i) in ph_type h' = load_type -> whole_segment c h').
  { intros [_ W1 W2 W3]. cbv zeta in *. split; [exact W1|]. split; [exact W2|]. intros i Bi. apply W3. unfold headers. cbv zeta. apply list_elem_of_In, in_map_iff. exists i. split; [reflexivity|]. apply in_seq. lia. }
  cbv zeta in Sf, Co. unfold program, headers in *. cbv zeta in *. set (h := elf_header_of (slice c 0 elf_header_size)) in *. destruct (isValid h); cbn [negb]; [|right; apply Bad_here; intros W; destruct (Co W); discriminate].
  destruct (load_all_spec (Z.to_nat (programHeaderEntryNum h)) (programHeaderOffset h) 0 (fun _ => 0) es x H ltac:(lia) ltac:(lia)) as [(es' & x' & E & H')|St].
  - change program_header_size with 56 in *. lia.
  - intros i Bi h'. apply Sh. apply list_elem_of_In, in_map_iff. exists i. split; [reflexivity|]. apply in_seq. lia.
  - left. exists es', x'. rewrite E. split; [reflexivity|]. split; [reflexivity|exact H'].
  - destruct St as (e & img' & es' & E & W' & H'). destruct (load_all _ _ _ _ _ _ _) as [r x1]. cbn [fst snd] in E, H'. subst r. right. exists e, img', es'. split; [reflexivity|].
    split; [|exact H']. intros W. apply W'. destruct (Co W) as (_ & W2 & W3). split; [change program_header_size with 56 in *; lia|exact W3].
Qed.

(** * The stack *)

Lemma made_size img es x n fo : made img es x -> 0 <= n <= 4096 * (pages_max - 2) -> (n + 4095) / 4096 = len es -> (forall v, n <= v -> img v = 0) -> made img es (Image (x_vm x) (x_mem x) n fo).
Proof. intros [U Sz Le P Mm Mb Mz] B L Z0. split; cbn [x_vm x_mem x_size]; auto. Qed.

(** A page out of reach, and above it the stack. *)
Definition with_stack (es : list pte) (g q : Z) : list pte := es ++ [Pte g rw false; Pte q rw true].

Lemma make_stack_spec img es x : holds program_max img es x ->
  (exists g q x', make_stack kernel_end physical_stop x = (Good tt, x') /\ made img (with_stack es g q) x' /\ x_size x' = 4096 * len (with_stack es g q)) \/
  (exists x', make_stack kernel_end physical_stop x = (Bad CouldNotAlloc, x') /\ made img es x').
Proof.
  intros (M & Us & F & Mx). pose proof (mk_size _ _ _ _ _ _ _ _ _ M) as Sz. pose proof (mk_len _ _ _ _ _ _ _ _ _ M) as Ln. pose proof (mk_zero _ _ _ _ _ _ _ _ _ M) as Mz. unfold make_stack. unfold program_max, pages_max in *.
  rewrite pageRoundUp_eq by lia. change page_size with 4096. assert (Up : x_size x <= (x_size x + 4095) / 4096 * 4096 <= 4096 * (2 ^ 26 - 4)) by (Z.to_euclidean_division_equations; lia).
  rewrite Ln in *. set (x0 := Image _ _ _ _). assert (M0 : made img es x0) by (apply made_size; [exact M|unfold pages_max; lia|Z.to_euclidean_division_equations; lia|intros v V; apply Mz; lia]).
  destruct (grow_made _ _ Stop _ _ _ _ Nodup0 img es x0 (len es * 4096 + 2 * 4096) rw M0) as (x1 & F1 & [(news & E & S1 & M1)|(E & M1)]); [cbn [x0 x_size]; unfold pages_max; lia|reflexivity| |]; rewrite E.
  - pose proof (mk_len _ _ _ _ _ _ _ _ _ M1) as L1. rewrite length_app, length_map, S1 in L1. assert (Nn : length news = 2%nat) by (Z.to_euclidean_division_equations; lia).
    destruct news as [|g [|q []]]; cbn in Nn; try lia. cbn [List.map] in M1.
    destruct (clear_made _ _ _ _ _ _ img _ x1 (length es) (Pte g rw true) M1) as (s' & Ec & M2); [rewrite lookup_app_r by lia; rewrite Nat.sub_diag; reflexivity|].
    rewrite S1. replace (len es * 4096 + 2 * 4096 - 2 * 4096) with (4096 * len es) by lia. rewrite Ec. left. exists g, q. eexists. split; [rewrite <- S1; reflexivity|]. unfold with_stack.
    rewrite insert_app_r_alt in M2 by lia. rewrite Nat.sub_diag in M2. split; [exact M2|]. cbn [x_size]. rewrite S1, length_app. cbn [length]. lia.
  - right. eexists. split; [reflexivity|]. apply (made_size img es x1); [exact M1|unfold pages_max; lia|exact Ln|exact Mz].
Qed.
End Kernel.
