(* ===== verification/KExecMain.v ===== *)
(** exec starts the program of a file with the arguments of its caller, and loses nothing when it cannot. *)

From S2P Require Import Prelude Mem.
From stdpp Require Import base gmap list.
From S2P Require Import KInode KInodeSpec KInodeIO KInodeMain.
From S2P Require Import Kmem KmemSpec Boundary KUvm KUvmSpec KExec KExecSpec.

Local Open Scope Z_scope.

Lemma forall2_with {A B : Type} (P : A -> Prop) (Q W : A -> B -> Prop) l k : Forall P l -> Forall2 Q l k -> (forall a b, P a -> Q a b -> W a b) -> Forall2 W l k.
Proof. intros F G I. induction G as [|a b l k H _ IH]; constructor; apply Forall_cons_iff in F as [Fa F]; auto. Qed.

Section Kernel.
Context (kernel_end physical_stop : Z) (Stop : 0 <= kernel_end /\ physical_stop <= 2 ^ 63).
Context (trampoline trapframe : Z) (Tramp : address_ok trampoline) (Frame : address_ok trapframe).

#[local] Abbreviation uvm := (uvm kernel_end physical_stop trampoline trapframe).

Definition table_of (k : kernel) : vm := Vm (k_free k) (pr_table (k_proc k)).
(** All pages of the process and of the free list. *)
Definition pages_of (es : list pte) (k : kernel) : list Z := List.map pte_page es ++ all_pages (table_of k).

(** A process with the pages [es], and a free list. *)
Record kernel_ok (es : list pte) (k : kernel) : Prop := {
  ko_uvm : uvm es (table_of k);
  ko_size : 0 <= pr_size (k_proc k) < 2 ^ 62 /\ (pr_size (k_proc k) + 4095) / 4096 = len es;
  ko_nodup : NoDup (pages_of es k);
}.

Lemma uvm_free es l t l' : uvm es (Vm l t) -> (forall p, p ∈ l' -> in_memory kernel_end physical_stop p) -> uvm es (Vm l' t).
Proof.
  intros [W O L Sz Own] I. split; try assumption. destruct W as [W1 W2]. split; [exact W1|]. cbn [fl pt] in *. intros p. rewrite elem_of_app. intros [J|J]; [exact (I p J)|apply W2, elem_of_app; auto].
Qed.

Lemma free_list_ok es k : kernel_ok es k -> NoDup (k_free k) /\ forall p, p ∈ k_free k -> in_memory kernel_end physical_stop p.
Proof.
  intros [U _ N]. split; [apply NoDup_app in N as (_ & _ & N); apply NoDup_app in N as (N & _); exact N|]. intros p I. exact (free_in_memory _ _ (table_of k) p (uv_wf _ _ _ _ _ _ U) I).
Qed.

Section Program.
Context (sb : super) (R : Z -> Prop) (f : st) (Fok : file_ok sb R f) (Sane : sane (contents f)).
Context (argv : list (list Z)) (Short : Forall (fun arg => len arg < 4096 /\ nonul arg) argv).

#[local] Abbreviation c := (contents f).
Definition enough_room : Prop := complete c /\ argument_room argv <= 4096.

(** The image that is built. *)
Record built (pages0 : list Z) (m0 : mem) (sp : Z) (es : list pte) (g q : Z) (x : image) : Prop := {
  bu_made : exists img, made kernel_end physical_stop trampoline trapframe pages0 m0 img (with_stack es g q) x /\ forall v, v < 4096 * len es -> img v = program c v;
  bu_user : for_user es;
  bu_size : x_size x = 4096 * len es + 8192;
  bu_rest v : 4096 * len es <= v -> program c v = 0;
  bu_args : exists ps, arguments_at (4096 * len es + 4096) q (x_mem x) sp argv ps;
}.

Lemma build_spec pages0 m0 x : NoDup pages0 -> holds kernel_end physical_stop trampoline trapframe pages0 m0 f program_max (fun _ => 0) [] x -> len argv <= MAXARG ->
  (exists sp x' es g q, build kernel_end physical_stop sb argv x = (Good (entry (elf_header_of (slice c 0 elf_header_size)), sp), x') /\
    isValid (elf_header_of (slice c 0 elf_header_size)) = true /\ built pages0 m0 sp es g q x') \/
  (exists e x' img es, build kernel_end physical_stop sb argv x = (Bad e, x') /\ (enough_room -> e = CouldNotAlloc) /\ made kernel_end physical_stop trampoline trapframe pages0 m0 img es x').
Proof.
  intros N0 H Mx. unfold build. destruct (load_program_spec _ _ Stop trampoline trapframe pages0 m0 N0 sb R f Fok [] x Sane H) as [(es & x1 & -> & Va & H1)|(e & img & es & E & W & (M & _))].
  2: { right. destruct (load_program _ _ _ _) as [r x1]. cbn [fst snd] in E, M. subst r. exists e, x1, img, es. split; [reflexivity|]. split; [intros [Co _]; exact (W Co)|exact M]. }
  destruct (make_stack_spec _ _ Stop trampoline trapframe pages0 m0 N0 f (program c) es x1 H1) as [(g & q & x2 & -> & M2 & S2)|(x2 & -> & M2)]; [|right; exists CouldNotAlloc, x2, (program c), es; auto].
  assert (Ls : len (with_stack es g q) = len es + 2) by (unfold with_stack; rewrite length_app; cbn [length]; lia). rewrite Ls in S2.
  assert (Base : x_size x2 - 4096 = 4096 * len es + 4096) by lia. assert (Eq : with_stack es g q !! S (length es) = Some (Pte q rw true)) by (unfold with_stack; rewrite lookup_app_r by lia; replace (S (length es) - length es)%nat with 1%nat by lia; reflexivity).
  pose proof (mk_uvm _ _ _ _ _ _ _ _ _ M2) as U2. assert (Al : 4096 * (q / 4096) = q) by (apply (uv_own _ _ _ _ _ _ U2 (Pte q rw true) (list_elem_of_lookup_2 _ _ _ Eq))).
  assert (Pos : 0 <= len es) by lia.
  destruct (push_arguments_spec argv x2 q) as (m' & F & Args); [|lia|rewrite Base; clear; Z.to_euclidean_division_equations; lia|exact Mx|eapply Forall_impl; [exact Short|intros a [A _]; exact A]|].
  { intros j J. rewrite Base. rewrite (place_uvm _ _ _ _ (with_stack es g q) (x_vm x2) (4096 * len es + 4096 + j) (Pte q rw true) U2); [|lia|].
    - cbn [pte_user pte_page]. do 2 f_equal. clear - J. Z.to_euclidean_division_equations; lia.
    - rewrite <- Eq. f_equal. clear - J. Z.to_euclidean_division_equations; lia. }
  set (img' := fun v => if v / 4096 =? len es + 1 then m' (q + v mod 4096) else program c v).
  assert (M3 : made kernel_end physical_stop trampoline trapframe pages0 m0 img' (with_stack es g q) (Image (x_vm x2) m' (x_size x2) (x_file x2))).
  { apply (made_write _ _ _ _ _ _ N0 (program c) img' _ x2 m' (S (length es)) (Pte q rw true) M2 Eq); cbn [pte_page].
    - intros a Na. apply F. destruct (Z.lt_ge_cases a q); [auto|]. destruct (Z.lt_ge_cases a (q + 4096)); [|auto]. destruct Na. replace a with (q + (a - q)) by lia. apply page_of_in; [exact Al|lia].
    - intros j J. unfold img'. replace ((4096 * Z.of_nat (S (length es)) + j) / 4096) with (len es + 1) by (clear - J; Z.to_euclidean_division_equations; lia). rewrite Z.eqb_refl. do 2 f_equal. clear - J. Z.to_euclidean_division_equations; lia.
    - intros v Nv. unfold img'. destruct (Z.eqb_spec (v / 4096) (len es + 1)); [lia|reflexivity].
    - intros v V. unfold img'. destruct (Z.eqb_spec (v / 4096) (len es + 1)) as [E|]; [exfalso; clear - V E S2; Z.to_euclidean_division_equations; lia|]. apply (mk_zero _ _ _ _ _ _ _ _ _ M2 v V). }
  destruct Args as [(sp & ps & -> & A)|(e & -> & Rm)].
  - left. exists sp. eexists. exists es, g, q. split; [reflexivity|]. split; [exact Va|]. destruct H1 as (M1 & Us & _). split; cbn [x_size x_mem x_vm].
    + exists img'. split; [exact M3|]. intros v V. unfold img'. destruct (Z.eqb_spec (v / 4096) (len es + 1)) as [E|]; [|reflexivity]. exfalso. clear - V E. Z.to_euclidean_division_equations; lia.
    + exact Us.
    + lia.
    + intros v V. apply (mk_zero _ _ _ _ _ _ _ _ _ M1). pose proof (mk_len _ _ _ _ _ _ _ _ _ M1). clear - V H0. Z.to_euclidean_division_equations; lia.
    + exists ps. rewrite <- Base. exact A.
  - right. exists e. eexists. exists img', (with_stack es g q). split; [reflexivity|]. split; [intros [_ Y]; lia|exact M3].
Qed.

(** ** What the new program finds *)

(** Addresses are translated by the page table alone; the free list plays no part. *)
Record started (k : kernel) (size sp : Z) (ps : list Z) (tr := translation_of (Vm [] (pr_table (k_proc k)))) : Prop := {
  st_valid : isValid (elf_header_of (slice c 0 elf_header_size)) = true;
  st_entry : pr_epc (k_proc k) = entry (elf_header_of (slice c 0 elf_header_size));
  st_size : 0 <= size /\ size mod page_size = 0 /\ pr_size (k_proc k) = size + 2 * page_size;
  st_program : copyIn tr (k_mem k) 0 (Z.to_nat size) = (List.map (fun i => program c (Z.of_nat i)) (seq 0 (Z.to_nat size)), true);
  st_rest v : size <= v -> program c v = 0;
  st_guard v : size <= v < size + page_size -> Boundary.place tr v = None;
  st_stack : size + page_size <= sp /\ sp mod 16 = 0 /\ pr_sp (k_proc k) = sp /\ pr_a1 (k_proc k) = sp;
  st_pointers : copyIn tr (k_mem k) sp (8 * (length argv + 1)) = (pointer_bytes (ps ++ [0]), true);
  st_strings : Forall2 (fun arg p => size + page_size <= p /\ copyInString tr (k_mem k) p (S (length arg)) = Some arg) argv ps;
}.

Lemma started_of k sp ps es g q : let size := 4096 * len es in
  uvm (with_stack es g q) (Vm [] (pr_table (k_proc k))) -> for_user es -> isValid (elf_header_of (slice c 0 elf_header_size)) = true -> pr_epc (k_proc k) = entry (elf_header_of (slice c 0 elf_header_size)) ->
  pr_size (k_proc k) = size + 8192 -> (forall v, 0 <= v < size -> byte_at (with_stack es g q) (k_mem k) v = program c v) -> (forall v, size <= v -> program c v = 0) ->
  pr_sp (k_proc k) = sp -> pr_a1 (k_proc k) = sp -> arguments_at (size + 4096) q (k_mem k) sp argv ps -> started k size sp ps.
Proof.
  intros size U Us Va En Sz Pr Re Sp A1 (B1 & B2 & Al & Lp & Ls). pose proof (eq_sym (Forall2_length _ _ _ Ls)) as Ln. set (tr := translation_of (Vm [] (pr_table (k_proc k)))).
  assert (Low : forall v, 0 <= v < size -> Boundary.place tr v = Some ((match with_stack es g q !! Z.to_nat (v / 4096) with Some e => pte_page e | None => 0 end) + v mod 4096)).
  { intros v V. assert (Hv : (Z.to_nat (v / 4096) < length es)%nat) by (unfold size in V; clear - V; Z.to_euclidean_division_equations; lia). destruct (lookup_lt_is_Some_2 es _ Hv) as [e Ee].
    assert (Ew : with_stack es g q !! Z.to_nat (v / 4096) = Some e) by (unfold with_stack; rewrite lookup_app_l by exact Hv; exact Ee). unfold tr. rewrite (place_uvm _ _ _ _ _ _ v e U (proj1 V) Ew), Ew, (Us e (list_elem_of_lookup_2 _ _ _ Ee)). reflexivity. }
  assert (High : forall j, 0 <= j < 4096 -> Boundary.place tr (size + 4096 + j) = Some (q + j)).
  { intros j J. unfold tr. rewrite (place_uvm _ _ _ _ _ _ (size + 4096 + j) (Pte q rw true) U).
    - cbn [pte_user pte_page]. do 2 f_equal. unfold size. clear - J. Z.to_euclidean_division_equations; lia.
    - unfold size. lia.
    - unfold with_stack. replace (Z.to_nat ((size + 4096 + j) / 4096)) with (length es + 1)%nat by (unfold size; clear - J; Z.to_euclidean_division_equations; lia). rewrite lookup_app_r by lia. replace (length es + 1 - length es)%nat with 1%nat by lia. reflexivity. }
  change page_size with 4096. split; change page_size with 4096; fold tr.
  - exact Va.
  - exact En.
  - split; [unfold size; lia|]. split; [unfold size; rewrite Z.mul_comm; apply Z.mod_mul; lia|lia].
  - unfold copyIn. rewrite copyIn_loop_bytes by lia. set (l := List.map _ _). assert (Ll : length l = Z.to_nat size) by (unfold l; rewrite length_map, length_seq; reflexivity). rewrite <- Ll. apply bytes_in_all.
    intros i I. rewrite Z.add_0_l. eexists. split; [apply Low; lia|]. unfold l. rewrite (nth_map_seq (fun i => program c (Z.of_nat i))) by lia. rewrite Z2Nat.id by lia. rewrite <- Pr by lia. unfold byte_at.
    destruct (lookup_lt_is_Some_2 (with_stack es g q) (Z.to_nat (i / 4096))) as [e ->]; [unfold with_stack; rewrite length_app; unfold size in *; clear - I Ll; Z.to_euclidean_division_equations; lia|reflexivity].
  - exact Re.
  - intros v V. unfold tr. rewrite (place_uvm _ _ _ _ _ _ v (Pte g rw false) U); [reflexivity|unfold size in *; lia|]. unfold with_stack. replace (Z.to_nat (v / 4096)) with (length es) by (unfold size in V; clear - V; Z.to_euclidean_division_equations; lia). rewrite lookup_app_r by lia. rewrite Nat.sub_diag. reflexivity.
  - auto.
  - unfold copyIn. rewrite copyIn_loop_bytes by lia. assert (Lb : length (pointer_bytes (ps ++ [0])) = (8 * (length argv + 1))%nat) by (pose proof (pointer_bytes_length (ps ++ [0])) as P; rewrite length_app, Ln in P; cbn [length] in P; lia).
    rewrite <- Lb. apply bytes_in_all. intros i I. exists (q + (sp + i - (size + 4096))). split; [|rewrite <- (Lp i I); f_equal; lia].
    replace (sp + i) with (size + 4096 + (sp + i - (size + 4096))) at 1 by lia. apply High. lia.
  - clear Lp Ln. eapply forall2_with; [exact Short|exact Ls|].
    intros arg p [_ Na] (P1 & P2 & P3). split; [exact P1|]. unfold copyInString. rewrite copyInString_loop_bytes by lia. apply string_in_all; [exact Na|]. intros i I.
    exists (q + (p + i - (size + 4096))). split; [replace (p + i) with (size + 4096 + (p + i - (size + 4096))) at 1 by lia; apply High; lia|].
    rewrite <- P3 by (rewrite length_app; cbn [length]; lia). f_equal. lia.
Qed.

(** ** exec *)

#[local] Abbreviation exec := (exec kernel_end physical_stop sb trampoline trapframe).

(** A page table that is built holds pages that were free. *)
Lemma made_free_in pages0 m0 img es x : (forall p, p ∈ pages0 -> in_memory kernel_end physical_stop p) -> made kernel_end physical_stop trampoline trapframe pages0 m0 img es x -> forall p, p ∈ fl (x_vm x) -> in_memory kernel_end physical_stop p.
Proof. intros I M p J. apply I. rewrite (mk_pages _ _ _ _ _ _ _ _ _ M). apply elem_of_app. right. apply elem_of_app. left. exact J. Qed.

Lemma free_pages_ok old es k k' : kernel_ok old k -> uvm es (table_of k') -> 0 <= pr_size (k_proc k') < 2 ^ 62 -> (pr_size (k_proc k') + 4095) / 4096 = len es -> pages_of es k' ≡ₚ pages_of old k -> kernel_ok es k'.
Proof. intros [_ _ N] U S1 S2 P. split; [exact U|split; assumption|]. rewrite P. exact N. Qed.

(** Nothing has happened to the process, and the same pages are free. *)
Record unchanged (old : list pte) (k k' : kernel) : Prop := {
  un_proc : k_proc k' = k_proc k;
  un_ok : kernel_ok old k';
  un_free : k_free k' ≡ₚ k_free k;
  un_mem a : page_of a ∉ k_free k -> k_mem k' a = k_mem k a;
}.

Lemma unchanged_free old k l m' : kernel_ok old k -> l ≡ₚ k_free k -> (forall a, page_of a ∉ k_free k -> m' a = k_mem k a) -> unchanged old k (Kernel (k_proc k) l m').
Proof.
  intros K P M. destruct (free_list_ok old k K) as [_ I0]. pose proof K as [Uk [Bk Lk] _]. split; [reflexivity| |exact P|exact M].
  apply (free_pages_ok old old k); [exact K| |exact Bk|exact Lk|unfold pages_of, all_pages, table_of; cbn; rewrite P; reflexivity]. apply (uvm_free old (k_free k) (pr_table (k_proc k)) l Uk). intros p J. apply I0. rewrite <- P. exact J.
Qed.

Lemma exec_unwinds old k path file s e x img es : kernel_ok old k -> len argv <= MAXARG -> createPagetable kernel_end physical_stop trampoline trapframe (k_free k) = (Ok (pt s), fl s) ->
  build kernel_end physical_stop sb argv (Image s (k_mem k) 0 file) = (Bad e, x) -> made kernel_end physical_stop trampoline trapframe (k_free k) (k_mem k) img es x -> exists k', exec path file argv k = (Bad e, k') /\ unchanged old k k'.
Proof.
  intros K Mx Ec Eb M. unfold KExec.exec. rewrite (proj2 (Z.ltb_ge _ _)) by lia. rewrite Ec. replace (Vm (fl s) (pt s)) with s by (destruct s; reflexivity). rewrite Eb.
  destruct (free_uvm kernel_end physical_stop trampoline trapframe es (x_vm x) (x_size x) (mk_uvm _ _ _ _ _ _ _ _ _ M)) as (l & -> & Pl).
  - pose proof (mk_size _ _ _ _ _ _ _ _ _ M). unfold pages_max in *. lia.
  - exact (mk_len _ _ _ _ _ _ _ _ _ M).
  - eexists. split; [reflexivity|]. apply (unchanged_free old k l _ K); [|exact (mk_mem _ _ _ _ _ _ _ _ _ M)]. rewrite Pl. symmetry. exact (mk_pages _ _ _ _ _ _ _ _ _ M).
Qed.

Lemma made_nothing old k s file : kernel_ok old k -> uvm [] s -> k_free k ≡ₚ all_pages s -> made kernel_end physical_stop trampoline trapframe (k_free k) (k_mem k) (fun _ => 0) [] (Image s (k_mem k) 0 file).
Proof. intros K U P. split; cbn [x_vm x_mem x_size]; [exact U|unfold pages_max; lia|reflexivity|exact P|reflexivity|intros v B; cbn in B; lia|reflexivity]. Qed.

(** A path that leads nowhere. *)
Lemma exec_nowhere old k path : kernel_ok old k -> exists e k', exec path None argv k = (Bad e, k') /\ unchanged old k k'.
Proof.
  intros K. destruct (free_list_ok old k K) as [_ I0]. destruct (Z.le_gt_cases (len argv) MAXARG) as [Mx|Gt].
  - destruct (create_spec _ _ trampoline trapframe Tramp Frame (k_free k) I0) as [(s & E & U & P)|(e & l' & E & P)].
    + exists CouldNotResolvePath. exact (exec_unwinds old k path None s _ _ _ [] K Mx E eq_refl (made_nothing old k s None K U P)).
    + exists NoPageTable. unfold KExec.exec. rewrite (proj2 (Z.ltb_ge _ _)), E by lia. eexists. split; [reflexivity|]. apply (unchanged_free old k l' _ K); [symmetry; exact P|reflexivity].
  - exists TooManyArguments, k. unfold KExec.exec. rewrite (proj2 (Z.ltb_lt _ _)) by lia. split; [reflexivity|]. destruct k. apply (unchanged_free old (Kernel _ _ _) _ _ K); reflexivity.
Qed.

(** What exec does, whatever comes of it. *)
Lemma exec_result old k path (K : kernel_ok old k) : exists r k', exec path (Some f) argv k = (r, k') /\
  match r with
  | Good n => n = len argv /\ (exists size sp ps, started k' size sp ps) /\ (exists es, kernel_ok es k' /\ pages_of es k' ≡ₚ pages_of old k) /\ forall a, page_of a ∉ k_free k -> k_mem k' a = k_mem k a
  | Bad e => unchanged old k k' /\ (enough_room -> len argv <= MAXARG -> e = CouldNotAlloc \/ e = NoPageTable)
  | Halts => False
  end.
Proof.
  destruct (free_list_ok old k K) as [N0 I0]. pose proof K as [Uk [Bk Lk] Nk]. destruct (Z.lt_ge_cases MAXARG (len argv)) as [Lt|Mx].
  { exists (Bad TooManyArguments), k. unfold KExec.exec. rewrite (proj2 (Z.ltb_lt _ _)) by lia. split; [reflexivity|]. split; [destruct k; apply (unchanged_free old (Kernel _ _ _) _ _ K); reflexivity|intros _ ?; lia]. }
  destruct (create_spec _ _ trampoline trapframe Tramp Frame (k_free k) I0) as [(s & Ec & U & P)|(e & l' & Ec & P)].
  2: { exists (Bad NoPageTable). unfold KExec.exec. rewrite (proj2 (Z.ltb_ge _ _)), Ec by lia. eexists. split; [reflexivity|]. split; [apply (unchanged_free old k l' _ K); [symmetry; exact P|reflexivity]|auto]. }
  pose proof (made_nothing old k s (Some f) K U P) as M0.
  destruct (build_spec (k_free k) (k_mem k) (Image s (k_mem k) 0 (Some f)) N0) as [(sp & x & es & g & q & Eb & Va & B)|(e & x & img & es & Eb & Er & M)]; [|exact Mx| |].
  - split; [exact M0|]. split; [intros e I; inversion I|]. split; [reflexivity|cbn; unfold program_max, pages_max; lia].
  - destruct B as [(img & M & Pr) Us Sz Re (ps & A)]. pose proof (mk_uvm _ _ _ _ _ _ _ _ _ M) as Ux. pose proof (mk_pages _ _ _ _ _ _ _ _ _ M) as Px.
    unfold KExec.exec. rewrite (proj2 (Z.ltb_ge _ _)), Ec by lia. replace (Vm (fl s) (pt s)) with s by (destruct s; reflexivity). rewrite Eb. cbv zeta.
    destruct (free_uvm kernel_end physical_stop trampoline trapframe old (Vm (fl (x_vm x)) (pr_table (k_proc k))) (pr_size (k_proc k))) as (l & -> & Pl); [|lia|exact Lk|].
    { apply (uvm_free old (k_free k) (pr_table (k_proc k))); [exact Uk|]. apply (made_free_in _ _ _ _ _ I0 M). }
    set (k' := Kernel _ l (x_mem x)). exists (Good (len argv)), k'. split; [reflexivity|].
    assert (Cons : pages_of (with_stack es g q) k' ≡ₚ pages_of old k).
    { unfold pages_of, all_pages, table_of in *. cbn [k' k_free k_proc pr_table fl pt] in *. rewrite Px, Pl. unfold all_pages. generalize (List.map pte_page (with_stack es g q)) (List.map pte_page old) (fl (x_vm x)) (tables (pt (x_vm x))) (tables (pr_table (k_proc k))). intros. solve_Permutation. }
    assert (U' : uvm (with_stack es g q) (table_of k')).
    { unfold table_of. cbn [k' k_free k_proc pr_table]. apply (uvm_free _ (fl (x_vm x))); [destruct (x_vm x); exact Ux|]. intros p J. rewrite Pl in J. apply elem_of_app in J as [J|J].
      - apply list_elem_of_fmap in J as (e & -> & J). apply (uv_own _ _ _ _ _ _ Uk e J).
      - apply elem_of_app in J as [J|J]; [exact (made_free_in _ _ _ _ _ I0 M p J)|]. apply (wf_pages _ _ _ (uv_wf _ _ _ _ _ _ Uk)). apply elem_of_app. right. exact J. }
    split; [reflexivity|]. split; [|split; [|exact (mk_mem _ _ _ _ _ _ _ _ _ M)]].
    + exists (4096 * len es), sp, ps. apply (started_of k' sp ps es g q (uvm_free _ _ _ [] U' (fun p J => False_ind _ (not_elem_of_nil p J))) Us Va); cbn [k' k_proc k_mem pr_epc pr_size pr_sp pr_a1]; auto. intros v V. rewrite <- Pr by lia. apply (mk_bytes _ _ _ _ _ _ _ _ _ M). unfold with_stack. rewrite length_app. cbn [length]. lia.
    + exists (with_stack es g q). split; [|exact Cons]. apply (free_pages_ok old _ k); [exact K|exact U'| | |exact Cons]; cbn [k' k_proc pr_size].
      * pose proof (mk_size _ _ _ _ _ _ _ _ _ M). unfold pages_max in *. lia.
      * exact (mk_len _ _ _ _ _ _ _ _ _ M).
  - destruct (exec_unwinds old k path (Some f) s e x img es K Mx Ec Eb M) as (k' & E & Un). exists (Bad e), k'. split; [exact E|]. split; [exact Un|]. intros W _. left. exact (Er W).
Qed.
End Program.
End Kernel.

(** * What is fetched *)

Lemma string_in_ok tr m n : forall v s, string_in tr m v n = Some s -> nonul s /\ (length s < n)%nat.
Proof.
  induction n as [|n IH]; intros v s; cbn [string_in]; [discriminate|]. destruct (Boundary.place tr v) as [p|]; [|discriminate]. destruct (Z.eqb_spec (m p) 0) as [|N]; [intros [= <-]; split; [constructor|cbn; lia]|].
  destruct (string_in tr m (v + 1) n) as [r|] eqn:E; [|discriminate]. intros [= <-]. destruct (IH _ _ E). split; [constructor; assumption|cbn; lia].
Qed.

Lemma copyInString_ok tr m v n s : copyInString tr m v n = Some s -> nonul s /\ (length s < n)%nat.
Proof. unfold copyInString. rewrite copyInString_loop_bytes by lia. apply string_in_ok. Qed.

Section Fetch.
Context (tr : translation) (m : mem) (size : Z).

(** The array of pointers at an address, ended by 0, names these strings. *)
Fixpoint named (array : Z) (argv : list (list Z)) : Prop :=
  match argv with
  | [] => fetchAddr tr m size array = Some 0
  | arg :: argv => exists p, fetchAddr tr m size array = Some p /\ p <> 0 /\ copyInString tr m p (Z.to_nat page_size) = Some arg /\ named (array + 8) argv
  end.

Lemma fetch_spec n : forall array l, let '(r, pages, l') := fetch_arguments n tr m size array l in l = pages ++ l' /\
  match r with
  | inl argv => named array argv /\ Forall (fun arg => len arg < 4096 /\ nonul arg) argv /\ (length argv < n)%nat
  | inr e => forall argv, named array argv -> (length argv < n)%nat -> e = FailedGetMem
  end.
Proof.
  induction n as [|n IH]; intros array l; cbn [fetch_arguments]; [split; [reflexivity|intros argv _ L; lia]|].
  destruct (fetchAddr tr m size array) as [p|] eqn:E; [|split; [reflexivity|]; intros [|a argv]; cbn [named]; rewrite E; [discriminate|]; intros (p & Ep & _); discriminate].
  destruct (Z.eqb_spec p 0) as [->|N0]; [split; [reflexivity|]; split; [exact E|]; split; [constructor|cbn; lia]|]. destruct l as [|page l]; cbn [allocPage]; [split; [reflexivity|auto]|].
  destruct (copyInString tr m p (Z.to_nat page_size)) as [arg|] eqn:Ea.
  - specialize (IH (array + 8) l). destruct (fetch_arguments n tr m size (array + 8) l) as [[[argv|e] pages] l']; destruct IH as [-> H]; (split; [reflexivity|]).
    + destruct H as (Nm & Fa & Ln). split; [exists p; auto|]. split; [|cbn; lia]. constructor; [|exact Fa]. destruct (copyInString_ok _ _ _ _ _ Ea) as [Na La]. split; [change (Z.to_nat page_size) with (Z.to_nat 4096) in La; lia|exact Na].
    + intros [|a argv]; cbn [named]; [rewrite E; intros [= X]; contradiction|]. intros (p' & Ep & _ & _ & Nm) L. apply (H argv Nm). cbn in L. lia.
  - split; [reflexivity|]. intros [|a argv]; cbn [named]; [rewrite E; intros [= X]; contradiction|]. intros (p' & Ep & _ & Ea' & _). rewrite E in Ep. injection Ep as <-. congruence.
Qed.

Lemma named_unique argv : forall array argv', named array argv -> named array argv' -> argv = argv'.
Proof.
  induction argv as [|a argv IH]; intros array [|a' argv']; cbn [named]; auto.
  - intros E (p & E' & N & _). congruence.
  - intros (p & E' & N & _) E. congruence.
  - intros (p & E & _ & S & H) (p' & E' & _ & S' & H'). assert (p' = p) as -> by congruence. f_equal; [congruence|exact (IH _ _ H H')].
Qed.
End Fetch.

(** * The whole call *)

Section Process.
Context (kernel_end physical_stop : Z) (Stop : 0 <= kernel_end /\ physical_stop <= 2 ^ 63).
Context (trampoline trapframe : Z) (Tramp : address_ok trampoline) (Frame : address_ok trapframe).
Context (sb : super) (resolvePath : list Z -> option st).
(** What a path leads to is a file with headers that the kernel can work with. *)
Context (Files : forall path f, resolvePath path = Some f -> exists R, file_ok sb R f /\ sane (contents f)).

#[local] Abbreviation kernel_ok := (kernel_ok kernel_end physical_stop trampoline trapframe).

(** The pages of the buffers are set aside. *)
Lemma set_aside old k pages l : kernel_ok old k -> k_free k = pages ++ l -> kernel_ok old (set_free k l) /\ forall p, p ∈ pages -> in_memory kernel_end physical_stop p.
Proof.
  intros K E. destruct (free_list_ok _ _ _ _ old k K) as [_ I0]. rewrite E in I0. split; [|intros p I; apply I0, elem_of_app; auto]. pose proof K as [U S N]. split; [|exact S|].
  - apply (uvm_free _ _ _ _ old (k_free k)); [exact U|]. intros p I. apply I0, elem_of_app. auto.
  - unfold pages_of, all_pages, table_of in *. cbn [set_free k_free k_proc fl pt] in *. rewrite E in N. rewrite (Permutation_app_comm pages l), <- !app_assoc in N. 
    assert (P : List.map pte_page old ++ l ++ pages ++ tables (pr_table (k_proc k)) ≡ₚ pages ++ (List.map pte_page old ++ l ++ tables (pr_table (k_proc k)))) by solve_Permutation.
    rewrite P in N. apply NoDup_app in N. apply N.
Qed.

(** And given back. *)
Lemma put_back old es k k1 pages l : kernel_ok old k -> k_free k = pages ++ l -> kernel_ok es k1 -> pages_of es k1 ≡ₚ pages_of old (set_free k l) ->
  kernel_ok es (set_free k1 (rev pages ++ k_free k1)) /\ pages_of es (set_free k1 (rev pages ++ k_free k1)) ≡ₚ pages_of old k.
Proof.
  intros K E K1 P. destruct (set_aside old k pages l K E) as [_ Ip]. destruct (free_list_ok _ _ _ _ es k1 K1) as [_ I1].
  assert (Pk : pages_of es (set_free k1 (rev pages ++ k_free k1)) ≡ₚ pages_of old k).
  { transitivity (pages ++ pages_of es k1); [|rewrite P]; unfold pages_of, all_pages, table_of; cbn [set_free k_free k_proc fl pt]; [rewrite <- Permutation_rev|rewrite E]; solve_Permutation. }
  split; [|exact Pk]. destruct K1 as [U1 S1 _]. destruct K as [_ _ N]. split; [|exact S1|rewrite Pk; exact N]. apply (uvm_free _ _ _ _ es (k_free k1)); [exact U1|]. intros p I. apply elem_of_app in I as [I|I]; [|exact (I1 p I)]. apply Ip. apply list_elem_of_In. apply in_rev. apply list_elem_of_In, I.
Qed.

Definition path_of (k : kernel) (a0 : Z) : option (list Z) := if a0 =? 0 then None else copyInString (translation_of (table_of k)) (k_mem k) a0 MAXPATH.
Definition names (k : kernel) (a1 : Z) (argv : list (list Z)) : Prop := a1 <> 0 /\ named (translation_of (table_of k)) (k_mem k) (pr_size (k_proc k)) a1 argv.

(** What the call does, whatever comes of it. *)
Lemma sys_exec_result old k a0 a1 : kernel_ok old k -> exists r k', sys_exec kernel_end physical_stop sb trampoline trapframe resolvePath a0 a1 k = (r, k') /\
  match r with
  | Returns n => (exists path f argv, path_of k a0 = Some path /\ resolvePath path = Some f /\ names k a1 argv /\ n = len argv /\ exists size sp ps, started f argv k' size sp ps) /\
      (exists es, kernel_ok es k' /\ pages_of es k' ≡ₚ pages_of old k) /\ forall a, page_of a ∉ k_free k -> k_mem k' a = k_mem k a
  | Fails e => unchanged kernel_end physical_stop trampoline trapframe old k k' /\
      forall path f argv, path_of k a0 = Some path -> resolvePath path = Some f -> names k a1 argv -> (length argv < 32)%nat -> enough_room f argv -> e = FailedGetMem \/ e = FailedExec CouldNotAlloc \/ e = FailedExec NoPageTable
  | Stops => False
  end.
Proof.
  intros K. assert (Same : unchanged kernel_end physical_stop trampoline trapframe old k k) by (split; auto). unfold KExec.sys_exec. fold (table_of k). fold (path_of k a0). destruct (path_of k a0) as [path|] eqn:Pa.
  2: { do 2 eexists. split; [reflexivity|]. split; [exact Same|]. intros; discriminate. }
  destruct (Z.eqb_spec a1 0) as [Z1|N1]; [do 2 eexists; split; [reflexivity|]; split; [exact Same|]; intros ? ? ? _ _ [N _]; contradiction|].
  pose proof (fetch_spec (translation_of (table_of k)) (k_mem k) (pr_size (k_proc k)) (Z.to_nat MAXARG) a1 (k_free k)) as Fe. destruct (fetch_arguments _ _ _ _ _ _) as [[[argv|e] pages] l]; destruct Fe as [El Fe];
    destruct (set_aside old k pages l K El) as [Kl Ip].
  - destruct Fe as (Nm & Fa & Ln). change (Z.to_nat MAXARG) with 32%nat in Ln. set (kl := set_free k l) in *.
    assert (Back : forall k1, unchanged kernel_end physical_stop trampoline trapframe old kl k1 -> unchanged kernel_end physical_stop trampoline trapframe old k (set_free k1 (rev pages ++ k_free k1))).
    { intros k1 [Up Uo Uf Um]. destruct (put_back old old k k1 pages l K El Uo) as [K' _]; [unfold pages_of, all_pages, table_of; cbn [kl set_free k_free k_proc fl pt] in *; rewrite Up, Uf; reflexivity|].
      split; [exact Up|exact K'|cbn [set_free k_free]; rewrite Uf, El, <- Permutation_rev; reflexivity|]. intros a N. apply Um. intros I. apply N. rewrite El. apply elem_of_app. right. exact I. }
    destruct (resolvePath path) as [f|] eqn:Rp.
    + destruct (Files path f Rp) as (R & Fok & Sane). destruct (exec_result kernel_end physical_stop Stop trampoline trapframe Tramp Frame sb R f Fok Sane argv Fa old kl path Kl) as (r & k1 & -> & H). destruct r as [n|e|]; [| |destruct H].
      * destruct H as (-> & (size & sp & ps & St) & (es & K1 & P1) & Mm). destruct (put_back old es k k1 pages l K El K1 P1) as [K' P']. rewrite (free_pages_all _ _ pages (k_free k1) Ip). do 2 eexists. split; [reflexivity|]. split; [|split].
        -- exists path, f, argv. split; [reflexivity|]. split; [exact Rp|]. split; [split; assumption|]. split; [reflexivity|]. exists size, sp, ps. destruct St. split; assumption.
        -- exists es. split; assumption.
        -- intros a N. apply Mm. intros I. apply N. rewrite El. apply elem_of_app. right. exact I.
      * destruct H as [Un Er]. rewrite (free_pages_all _ _ pages (k_free k1) Ip). do 2 eexists. split; [reflexivity|]. split; [exact (Back k1 Un)|].
        intros path' f' argv' Ep Ef [_ Nm'] L' Room. injection Ep as <-. rewrite Rp in Ef. injection Ef as <-. rewrite <- (named_unique _ _ _ _ _ _ Nm Nm') in Room. destruct (Er Room) as [->| ->]; [unfold MAXARG; lia|auto|auto].
    + destruct (exec_nowhere kernel_end physical_stop trampoline trapframe Tramp Frame sb argv old kl path Kl) as (e & k1 & -> & Un). rewrite (free_pages_all _ _ pages (k_free k1) Ip). do 2 eexists. split; [reflexivity|].
      split; [exact (Back k1 Un)|]. intros path' f' argv' Ep Ef. injection Ep as <-. congruence.
  - rewrite (free_pages_all _ _ pages (k_free (set_free k l)) Ip). do 2 eexists. split; [reflexivity|]. split.
    + destruct (put_back old old k (set_free k l) pages l K El Kl ltac:(reflexivity)) as [K' P']. split; [reflexivity|exact K'| |reflexivity]. cbn [set_free k_free]. rewrite El, <- Permutation_rev. reflexivity.
    + intros path' f' argv' _ _ [_ Nm'] L' _. left. exact (Fe argv' Nm' L').
Qed.

(** C12: the exec call starts the program of a file with the arguments of its caller.  When it returns n, the path
    in the caller's memory led to a file, the array at a1 named n strings, and the new process finds its program, a
    page it cannot touch, an aligned stack and exactly these strings, through the pointers at its a1: from address 0 up
    to its size it reads the bytes of the segments, with zeros where the file says nothing.  When the array names fewer
    than 32 strings that fit the stack and the file is whole, only a lack of memory makes the call fail; it never
    stops the kernel.  All this for a process without ring buffers mapped ([kernel_ok]) and for files whose headers
    hold numbers that the kernel can work with ([sane], of every file a path leads to). *)
Theorem sys_exec_starts_program old k a0 a1 : kernel_ok old k -> exists r k', sys_exec kernel_end physical_stop sb trampoline trapframe resolvePath a0 a1 k = (r, k') /\
  match r with
  | Returns n => exists path f argv, path_of k a0 = Some path /\ resolvePath path = Some f /\ names k a1 argv /\ n = len argv /\ exists size sp ps, started f argv k' size sp ps
  | Fails e => forall path f argv, path_of k a0 = Some path -> resolvePath path = Some f -> names k a1 argv -> (length argv < 32)%nat -> enough_room f argv ->
      e = FailedGetMem \/ e = FailedExec CouldNotAlloc \/ e = FailedExec NoPageTable
  | Stops => False
  end.
Proof.
  intros K. destruct (sys_exec_result old k a0 a1 K) as (r & k' & E & H). exists r, k'. split; [exact E|].
  destruct r; [apply H|apply H|exact H].
Qed.

(** C13: the exec call loses no page and spoils no memory, for any two numbers as its arguments, by a process without
    ring buffers mapped ([kernel_ok]) and when every file a path leads to has headers with numbers that the kernel can
    work with ([sane]); another file can stop the kernel ([flagless_segment_stops] of KExecRuns.v).  Of the pages in
    use before and after, no byte changes.  When it fails, at any point, the process is as it was and the same pages are free; when
    it succeeds, the pages of the process and of the free list are together those from before. *)
Theorem sys_exec_loses_nothing old k a0 a1 : kernel_ok old k -> exists r k', sys_exec kernel_end physical_stop sb trampoline trapframe resolvePath a0 a1 k = (r, k') /\ (forall a, page_of a ∉ k_free k -> page_of a ∉ k_free k' -> k_mem k' a = k_mem k a) /\
  match r with
  | Returns _ => exists es, kernel_ok es k' /\ pages_of es k' ≡ₚ pages_of old k
  | Fails _ => k_proc k' = k_proc k /\ kernel_ok old k' /\ k_free k' ≡ₚ k_free k
  | Stops => False
  end.
Proof.
  intros K. destruct (sys_exec_result old k a0 a1 K) as (r & k' & E & H). exists r, k'. split; [exact E|]. destruct r as [n|e|]; [| |destruct H].
  - destruct H as (_ & P & M). split; [intros a A _; exact (M a A)|exact P].
  - destruct H as [[Up Uo Uf Um] _]. split; [intros a A _; exact (Um a A)|]. auto.
Qed.
End Process.
