(* ===== verification/KForkSpec.v ===== *)
(** fork gives the child a copy of the memory of its parent. *)

From S2P Require Import Prelude Mem.
From stdpp Require Import base gmap list.
From S2P Require Import Kmem KmemSpec Boundary KUvm KUvmSpec KExec KExecSpec KExecMain.

Local Open Scope Z_scope.

Section Kernel.
Context (kernel_end physical_stop : Z) (Stop : 0 <= kernel_end /\ physical_stop <= 2 ^ 63).

#[local] Abbreviation in_memory := (in_memory kernel_end physical_stop).

Section Table.
Context (trampoline trapframe : Z).
#[local] Abbreviation uvm := (uvm kernel_end physical_stop trampoline trapframe).

(** One more page at the end. *)
Lemma uvm_push es s p l pm user : uvm es s -> fl s = p :: l -> len es < pages_max - 2 -> isBranch pm = false ->
  exists s', all_pages s ≡ₚ p :: all_pages s' /\
    ((map (Vm l (pt s)) (4096 * len es) p page_size pm user = (Ok tt, s') /\ uvm (es ++ [Pte p pm user]) s') \/
     (exists e, map (Vm l (pt s)) (4096 * len es) p page_size pm user = (Err e, s') /\ uvm es s')).
Proof.
  intros U F Sz Br. assert (Ip : in_memory p) by (apply (free_in_memory _ _ s p (uv_wf _ _ _ _ _ _ U)); rewrite F; apply list_elem_of_here).
  assert (U1 : uvm es (Vm l (pt s))).
  { apply (uvm_free _ _ _ _ es (fl s)); [destruct s; exact U|]. intros q I. apply (free_in_memory _ _ s q (uv_wf _ _ _ _ _ _ U)). rewrite F. apply list_elem_of_further, I. }
  destruct U1 as [W O L Z0 Own]. cbn [pt] in *. assert (P0 : all_pages s = p :: all_pages (Vm l (pt s))) by (unfold all_pages; rewrite F; reflexivity). rewrite P0.
  assert (Nk : pt_leaves (pt s) !! len es = None) by (rewrite L, lay_lookup, decide_False by lia; apply fixed_low; lia).
  destruct Ip as [Rp Ap]. destruct (map_one _ _ (Vm l (pt s)) (len es) p pm user W O ltac:(unfold pages_max in *; lia)) as (s' & W' & O' & P' & [(e & E & L')|(E & L')]); [split; [lia|exact Ap]|exact Nk| |]; exists s'; rewrite E, P'; (split; [reflexivity|]).
  - right. exists e. split; [reflexivity|]. split; auto. rewrite L'. exact L.
  - left. split; [reflexivity|]. split; [exact W'|exact O'| |rewrite length_app; cbn [length]; lia|].
    + rewrite L'. cbn [pt]. rewrite L. apply map_eq. intros j. rewrite lookup_insert, !lay_lookup, length_app. cbn [length]. case_decide as Ej; [subst j; rewrite decide_True by lia; rewrite lookup_app_r by lia; replace (Z.to_nat (len es - 0) - length es)%nat with 0%nat by lia; reflexivity|].
      destruct (decide (0 <= j < 0 + len es)); [rewrite decide_True by lia; rewrite lookup_app_l by lia; reflexivity|rewrite decide_False by lia; reflexivity].
    + intros e. rewrite elem_of_app. intros [I|I]; [exact (Own e I)|]. apply list_elem_of_singleton in I as ->. split; [exact Br|split; assumption].
Qed.

(** All pages of the process are given back. *)
Lemma unmap_uvm es s : uvm es s -> exists s', unmap kernel_end physical_stop s 0 (len es) true = (Ok tt, s') /\ uvm [] s' /\ List.map pte_page es ++ all_pages s ≡ₚ all_pages s'.
Proof.
  intros [W O L Sz Own]. destruct (unmap_lay _ _ es 0 s (fixed trampoline trapframe) W L ltac:(lia) Own) as (s' & E & W' & F & L' & Rt & Md & Lw); [intros j J; apply fixed_low; lia|].
  exists s'. split; [unfold unmap; change (negb (isPageAligned 0)) with false; cbv iota; rewrite Nat2Z.id; exact E|]. split.
  - split; [exact W'|exact (tables_same _ _ Md Lw O)|exact L'|cbn; unfold pages_max; lia|intros e I; inversion I].
  - unfold all_pages, tables. rewrite F, Rt, Md, Lw. rewrite <- Permutation_rev, app_assoc. reflexivity.
Qed.

(** What lies above the pages of a process is out of its reach. *)
Lemma place_above es s v : uvm es s -> 4096 * len es <= v -> Boundary.place (translation_of s) v = None.
Proof.
  intros [W O L Sz Own] V. unfold Boundary.place, translation_of, translateAddress. destruct (isOutOfRange (4096 * (v / 4096))) eqn:Or; [reflexivity|]. unfold isOutOfRange, max_virtual_address in Or. apply Z.leb_gt in Or.
  set (k := v / 4096) in *. assert (Bk : len es <= k < pages_max) by (unfold pages_max, k in *; Z.to_euclidean_division_equations; lia). clearbody k.
  destruct (pt_leaves (pt s) !! k) as [e|] eqn:Lk.
  - rewrite (walk_present _ _ _ _ _ W Lk), Lk. rewrite L, lay_lookup, decide_False in Lk by lia. unfold fixed in Lk. rewrite lookup_insert in Lk. case_decide; [injection Lk as <-; reflexivity|].
    apply lookup_singleton_Some in Lk as [_ <-]. reflexivity.
  - destruct (paths k ltac:(lia)) as (_ & _ & P0). unfold walk. destruct (isOutOfRange (4096 * k)); [reflexivity|]. rewrite P0. destruct (walk_mid _ _ _) as [[]s1]; [|reflexivity|reflexivity]. destruct (walk_low _ _ _) as [[]s2]; try reflexivity. rewrite Lk. reflexivity.
Qed.
End Table.

(** * Copying *)

(** The child has the same permissions for each page. *)
Definition same_rights (e e' : pte) : Prop := pte_perms e' = pte_perms e /\ pte_user e' = pte_user e.

Section Copy.
Context (trampoline frame0 frame : Z) (pages0 : list Z) (m0 : mem) (Nodup0 : NoDup pages0).
(** The parent, whose pages are not among those that are free. *)
Context (es : list pte) (old : ptable) (l0 : list Z) (Parent : uvm kernel_end physical_stop trampoline frame0 es (Vm l0 old)) (Apart : forall e, e ∈ es -> pte_page e ∉ pages0).
Context (In0 : forall p, p ∈ pages0 -> in_memory p).

#[local] Abbreviation made := (made kernel_end physical_stop trampoline frame pages0 m0).
Definition copied (i : Z) (v : Z) : Z := if v <? 4096 * i then byte_at es m0 v else 0.

(** The byte at [j] of a page after another page has been filled from it. *)
Lemma filled m p q a : 4096 * (p / 4096) = p -> store m p (load m q (Z.to_nat page_size)) a = if decide (page_of a = p) then m (q + (a - p)) else m a.
Proof.
  intros Al. assert (Ll : len (load m q (Z.to_nat page_size)) = 4096) by (rewrite load_length; reflexivity). case_decide as D.
  - assert (B : p <= a < p + 4096) by (unfold page_of in D; Z.to_euclidean_division_equations; lia). rewrite store_in by lia. rewrite load_nth by (change (Z.to_nat page_size) with (Z.to_nat 4096); lia). f_equal. lia.
  - apply store_out. rewrite Ll. destruct (Z.lt_ge_cases a p); [auto|]. destruct (Z.lt_ge_cases a (p + 4096)); [|auto]. destruct D. replace a with (p + (a - p)) by lia. apply page_of_in; [exact Al|lia].
Qed.

Lemma copied_page x done e p s' : made (copied (len done)) done x -> x_size x = 4096 * len done -> es !! length done = Some e -> p ∈ pages0 -> all_pages (x_vm x) ≡ₚ p :: all_pages s' -> 
  uvm kernel_end physical_stop trampoline frame (done ++ [Pte p (pte_perms e) (pte_user e)]) s' -> len es <= pages_max - 2 ->
  made (copied (len done + 1)) (done ++ [Pte p (pte_perms e) (pte_user e)]) (Image s' (store (x_mem x) p (load (x_mem x) (pte_page e) (Z.to_nat page_size))) (4096 * (len done + 1)) None).
Proof.
  intros M Sz Ee Ip Pp U' Mx. destruct (In0 p Ip) as [_ Al]. pose proof (lookup_lt_Some _ _ _ Ee) as Lt. pose proof (list_elem_of_lookup_2 _ _ _ Ee) as Ie. pose proof (mk_pages _ _ _ _ _ _ _ _ _ M) as P.
  assert (Fresh : forall d, d ∈ done -> pte_page d <> p).
  { intros d D E. pose proof Nodup0 as N. rewrite P, Pp in N. apply NoDup_app in N as (_ & N & _). apply (N (pte_page d)); [apply list_elem_of_fmap_2, D|rewrite E; apply list_elem_of_here]. }
  split; cbn [x_vm x_mem x_size].
  - exact U'.
  - lia.
  - rewrite length_app. cbn [length]. Z.to_euclidean_division_equations; lia.
  - rewrite P, Pp, map_app. cbn [List.map pte_page]. rewrite <- app_assoc. reflexivity.
  - intros a N. rewrite filled by exact Al. case_decide as D; [subst p; contradiction|]. exact (mk_mem _ _ _ _ _ _ _ _ _ M a N).
  - intros v B. rewrite length_app in B. cbn [length] in B. unfold byte_at, copied. rewrite (proj2 (Z.ltb_lt v _)) by lia. destruct (Z.lt_ge_cases v (4096 * len done)) as [L|G].
    + destruct (made_page _ _ _ _ _ _ _ _ x v M) as (d & Ed & D & Ad); [lia|]. rewrite lookup_app_l by (apply lookup_lt_Some in Ed; exact Ed). rewrite Ed. rewrite filled by exact Al.
      rewrite (page_of_in _ _ Ad (Z.mod_pos_bound v 4096 ltac:(lia))), decide_False by exact (Fresh d D). pose proof (mk_bytes _ _ _ _ _ _ _ _ _ M v ltac:(lia)) as Bv. unfold byte_at at 1 in Bv. rewrite Ed in Bv. rewrite Bv. unfold copied. rewrite (proj2 (Z.ltb_lt v _)) by lia. reflexivity.
    + assert (Ev : v / 4096 = len done) by (Z.to_euclidean_division_equations; lia). unfold byte_at. rewrite Ev, Nat2Z.id, Ee. rewrite lookup_app_r, Nat.sub_diag by lia. cbn [lookup list_lookup pte_page]. rewrite filled by exact Al.
      rewrite (page_of_in _ _ Al (Z.mod_pos_bound v 4096 ltac:(lia))), decide_True by reflexivity. rewrite (mk_mem _ _ _ _ _ _ _ _ _ M); [f_equal; lia|].
      replace (pte_page e + (p + v mod 4096 - p)) with (pte_page e + v mod 4096) by lia. destruct (uv_own _ _ _ _ _ _ Parent e Ie) as [_ [_ Ae]]. rewrite (page_of_in _ _ Ae (Z.mod_pos_bound v 4096 ltac:(lia))). exact (Apart e Ie).
  - intros v V. unfold copied. rewrite (proj2 (Z.ltb_ge v _)) by lia. reflexivity.
Qed.

(** What is left after an error. *)
Definition undone (s : vm) (m : mem) : Prop := uvm kernel_end physical_stop trampoline frame [] s /\ pages0 ≡ₚ all_pages s /\ forall a, page_of a ∉ pages0 -> m a = m0 a.

Lemma copy_undo_spec done s m e : uvm kernel_end physical_stop trampoline frame done s -> pages0 ≡ₚ List.map pte_page done ++ all_pages s -> (forall a, page_of a ∉ pages0 -> m a = m0 a) ->
  exists s', copy_undo kernel_end physical_stop s m (4096 * len done) e = (Err e, s', m) /\ undone s' m.
Proof.
  intros U P M. unfold copy_undo. change page_size with 4096. rewrite Z.mul_comm, Z.div_mul by lia. destruct (unmap_uvm _ _ _ _ U) as (s' & -> & U' & P'). exists s'. split; [reflexivity|]. split; [exact U'|]. split; [rewrite P, P'; reflexivity|exact M].
Qed.

Lemma copy_loop_spec size fuel : forall done x, made (copied (len done)) done x -> x_size x = 4096 * len done -> Forall2 same_rights (take (length done) es) done -> (length done <= length es)%nat ->
  0 <= size -> (size + 4095) / 4096 = len es -> len es - len done < Z.of_nat fuel ->
  exists s' m', (copy_loop kernel_end physical_stop fuel old (x_vm x) (x_mem x) (4096 * len done) size = (Ok tt, s', m') /\ exists es', made (copied (len es)) es' (Image s' m' (4096 * len es) None) /\ Forall2 same_rights es es') \/
    (exists e, copy_loop kernel_end physical_stop fuel old (x_vm x) (x_mem x) (4096 * len done) size = (Err e, s', m') /\ undone s' m').
Proof.
  pose proof (uv_size _ _ _ _ _ _ Parent) as Mx. unfold pages_max in Mx. induction fuel as [|fuel IH]; intros done x M Sz Rt Ln Ps Ru Fu; [lia|]. cbn [copy_loop]. destruct (Z.ltb_spec (4096 * len done) size) as [Lt|Ge].
  - assert (Hd : (length done < length es)%nat) by (Z.to_euclidean_division_equations; lia). destruct (lookup_lt_is_Some_2 es (length done) Hd) as [e Ee]. pose proof (list_elem_of_lookup_2 _ _ _ Ee) as Ie.
    pose proof (mk_uvm _ _ _ _ _ _ _ _ _ M) as U. pose proof (mk_pages _ _ _ _ _ _ _ _ _ M) as P. pose proof (mk_mem _ _ _ _ _ _ _ _ _ M) as Mm.
    assert (Up : uvm kernel_end physical_stop trampoline frame0 es (Vm (fl (x_vm x)) old)) by (apply (uvm_free _ _ _ _ es l0); [exact Parent|apply (made_free_in _ _ _ _ pages0 m0 _ done x In0 M)]).
    assert (Lk : pt_leaves (pt (Vm (fl (x_vm x)) old)) !! len done = Some e) by (rewrite (uv_leaves _ _ _ _ _ _ Up), lay_lookup, decide_True by lia; replace (Z.to_nat (len done - 0)) with (length done) by lia; exact Ee).
    rewrite (walk_present _ _ _ _ _ (uv_wf _ _ _ _ _ _ Up) Lk). cbn [pt] in Lk. rewrite Lk. destruct (fl (x_vm x)) as [|p l] eqn:F; cbn [allocPage].
    { destruct (copy_undo_spec done (x_vm x) (x_mem x) OutOfMemory U P Mm) as (s' & E & Un). exists s', (x_mem x). right. eauto. }
    assert (Ip : p ∈ pages0) by (rewrite P, elem_of_app; right; unfold all_pages; rewrite F; apply list_elem_of_here). destruct (In0 p Ip) as [Rp Ap].
    destruct (uv_own _ _ _ _ _ _ Parent e Ie) as [Br _].
    destruct (uvm_push _ _ done (x_vm x) p l (pte_perms e) (pte_user e) U F ltac:(unfold pages_max; lia) Br) as (s' & P' & [(E & U')|(x' & E & U')]); cbv zeta; rewrite E.
    + pose proof (copied_page x done e p s' M Sz Ee Ip P' U' (uv_size _ _ _ _ _ _ Parent)) as M'. set (d' := done ++ [Pte p (pte_perms e) (pte_user e)]) in *. assert (Ld : len d' = len done + 1) by (unfold d'; rewrite length_app; cbn [length]; lia).
      replace (u64 (4096 * len done + page_size)) with (4096 * len d') by (change page_size with 4096; rewrite u64_small by lia; lia). rewrite <- Ld in M'.
      apply (IH d' _ M'); cbn [x_size]; try lia. unfold d'. rewrite length_app. cbn [length]. rewrite Nat.add_1_r, (take_S_r _ _ _ Ee). apply Forall2_app; [exact Rt|]. constructor; [split; reflexivity|constructor].
    + rewrite freePage_ok by (split; assumption). destruct (copy_undo_spec done (Vm (p :: fl s') (pt s')) (store (x_mem x) p (load (x_mem x) (pte_page e) (Z.to_nat page_size))) x') as (s2 & E2 & Un).
      * apply (uvm_free _ _ _ _ done (fl s')); [destruct s'; exact U'|]. intros q I. apply elem_of_cons in I as [->|I]; [split; assumption|]. exact (free_in_memory _ _ s' q (uv_wf _ _ _ _ _ _ U') I).
      * rewrite P, P'. reflexivity.
      * intros a N. rewrite filled by exact Ap. case_decide as D; [subst p; contradiction|]. exact (Mm a N).
      * exists s2. eexists. right. exists x'. split; [exact E2|exact Un].
  - assert (length done = length es) as Le by (Z.to_euclidean_division_equations; lia). exists (x_vm x), (x_mem x). left. split; [reflexivity|]. exists done. rewrite Le in *. split; [|rewrite firstn_all in Rt; exact Rt].
    rewrite <- Sz. destruct M. split; assumption.
Qed.
End Copy.

(** * fork *)

(** Two processes that find the same bytes, each in its own pages. *)
Definition same_place (m m' : mem) (p p' : option Z) : Prop := match p, p' with Some a, Some a' => m' a' = m a | None, None => True | _, _ => False end.

Lemma copyIn_same tr tr' m m' n v : 0 <= v -> (forall u, 0 <= u -> same_place m m' (Boundary.place tr u) (Boundary.place tr' u)) -> copyIn tr' m' v n = copyIn tr m v n.
Proof.
  intros V S. unfold copyIn. rewrite !copyIn_loop_bytes by lia. revert v V. induction n as [|n IH]; intros v V; [reflexivity|]. cbn [bytes_in]. pose proof (S v V) as Sv. unfold same_place in Sv.
  destruct (Boundary.place tr v), (Boundary.place tr' v); try contradiction; [|reflexivity]. rewrite IH, Sv by lia. reflexivity.
Qed.

Context (trampoline frame0 : Z) (Tramp : address_ok trampoline).

Lemma copy_same es es' s s' m m' frame : uvm kernel_end physical_stop trampoline frame0 es s -> uvm kernel_end physical_stop trampoline frame es' s' -> Forall2 same_rights es es' ->
  (forall v, 0 <= v < 4096 * len es -> byte_at es' m' v = byte_at es m v) -> forall v n, 0 <= v -> copyIn (translation_of s') m' v n = copyIn (translation_of s) m v n.
Proof.
  intros U U' Rt B v n V. apply copyIn_same; [exact V|]. clear v n V. intros v V. pose proof (Forall2_length _ _ _ Rt) as Ln. destruct (Z.lt_ge_cases v (4096 * len es)) as [Lt|Ge].
  - assert (Hv : (Z.to_nat (v / 4096) < length es)%nat) by (Z.to_euclidean_division_equations; lia). destruct (lookup_lt_is_Some_2 es _ Hv) as [e Ee]. destruct (Forall2_lookup_l _ _ _ _ _ Rt Ee) as (e' & Ee' & _ & Ru).
    rewrite (place_uvm _ _ _ _ _ _ v e U V Ee), (place_uvm _ _ _ _ _ _ v e' U' V Ee'), Ru. destruct (pte_user e); [|exact Logic.I]. specialize (B v ltac:(lia)). unfold byte_at in B. rewrite Ee, Ee' in B. exact B.
  - rewrite (place_above _ _ _ _ _ U Ge), (place_above _ _ es' _ _ U') by lia. exact Logic.I.
Qed.

End Kernel.
