(* ===== verification/KExecRuns.v ===== *)
(** A process executes a small program, with a page of code and a page of data, and forks. *)

From S2P Require Import Prelude Mem.
From stdpp Require Import base gmap list.
From S2P Require Import KInode KInodeSpec KInodeIO KInodeMain KInodeRuns.
From S2P Require Import Kmem KmemSpec Boundary KUvm KUvmSpec KExec KExecSpec KExecMain KForkSpec.

Local Open Scope Z_scope.

(** The code at address 0, the data at address 4096, with three zeros behind them. *)
Definition code : list Z := [19; 5; 16; 0; 115].
Definition data_bytes : list Z := [104; 105].
Definition elf_of (offset : Z) : list Z :=
  le_bytes 4 correctMagic ++ repeat 0 20 ++ le_bytes 8 2 ++ le_bytes 8 64 ++ repeat 0 16 ++ le_bytes 2 2 ++ repeat 0 6 ++
  le_bytes 4 1 ++ le_bytes 4 5 ++ le_bytes 8 176 ++ le_bytes 8 0 ++ le_bytes 8 0 ++ le_bytes 8 5 ++ le_bytes 8 5 ++ le_bytes 8 4096 ++
  le_bytes 4 1 ++ le_bytes 4 6 ++ le_bytes 8 offset ++ le_bytes 8 4096 ++ le_bytes 8 0 ++ le_bytes 8 2 ++ le_bytes 8 5 ++ le_bytes 8 4096 ++
  code ++ data_bytes.
Definition elf0 : list Z := elf_of 181.
Definition program0 : KInode.st := match write sb0 2 (from elf0) 0 (len elf0) file0 with KInode.Done _ s => s | _ => file0 end.

Lemma program0_ok : file_ok sb0 others0 program0.
Proof.
  destruct (write_contents sb0 laid_out0 others0 2 0 elf0 file0 file0_ok) as (n & s' & E & _ & _ & Ok & _);
    [vm_compute; split; congruence|vm_compute; split; discriminate|vm_compute; discriminate|apply small_bytes; vm_compute; reflexivity|]. unfold program0. rewrite E. exact Ok.
Defined.

Lemma program0_bytes : contents program0 = elf0.
Proof. vm_compute. reflexivity. Defined.

Lemma headers0 : headers elf0 = [ProgramHeader 1 5 176 0 5 5; ProgramHeader 1 6 181 4096 2 5].
Proof. vm_compute. reflexivity. Defined.

Lemma program0_sane : sane (contents program0).
Proof.
  rewrite program0_bytes. split; [vm_compute; split; [congruence|split; [congruence|reflexivity]]|]. rewrite headers0. intros h I _. apply elem_of_cons in I as [->|I]; [|apply list_elem_of_singleton in I as ->]; split; vm_compute; congruence.
Defined.

(** Twenty-four free pages, of which a process without memory has taken five. *)
Definition kernel_end0 : Z := 0x80020000.
Definition stop0 : Z := 0x88000000.
Definition free0 : list Z := List.map (fun i => kernel_end0 + 4096 * Z.of_nat i) (seq 0 24).
Definition table0 : ptable * list Z := match createPagetable kernel_end0 stop0 0x80001000 0x80030000 free0 with (Ok t, l) => (t, l) | (_, l) => (PTable 0 ∅ ∅ ∅, l) end.
Definition kernel0 : kernel := Kernel (Process 0 (fst table0) 0 0 0 []) (snd table0) (fun a => a mod 7).

Lemma stop0_ok : 0 <= kernel_end0 /\ stop0 <= 2 ^ 63.
Proof. vm_compute. split; congruence. Defined.

Lemma pages0_ok : address_ok 0x80001000 /\ address_ok 0x80030000.
Proof. vm_compute. repeat split; congruence. Defined.

Lemma kernel0_ok : kernel_ok kernel_end0 stop0 0x80001000 0x80030000 [] kernel0.
Proof.
  assert (I0 : forall p, p ∈ free0 -> in_memory kernel_end0 stop0 p).
  { intros p I. unfold free0 in I. apply list_elem_of_In, in_map_iff in I as (i & <- & I). apply in_seq in I. split; [unfold kernel_end0, stop0; lia|]. unfold kernel_end0. Z.to_euclidean_division_equations; lia. }
  destruct (create_spec kernel_end0 stop0 0x80001000 0x80030000 (proj1 pages0_ok) (proj2 pages0_ok) free0 I0) as [(s & E & U & P)|(e & l' & E & _)]; [|exfalso; vm_compute in E; discriminate].
  assert (Ek : table_of kernel0 = s) by (unfold kernel0, table0, table_of; rewrite E; destruct s; reflexivity). split.
  - rewrite Ek. exact U.
  - vm_compute. split; [split; congruence|reflexivity].
  - unfold pages_of. rewrite Ek. cbn [List.map app]. rewrite <- P. apply NoDup_ListNoDup. vm_compute. repeat constructor; cbn; intuition discriminate.
Qed.

(** A file that ends before its second segment does: the process keeps its program, and all pages are free again. *)
Definition program1 : KInode.st := match write sb0 2 (from (elf_of 182)) 0 (len elf0) file0 with KInode.Done _ s => s | _ => file0 end.

Lemma program1_ok : file_ok sb0 others0 program1.
Proof.
  destruct (write_contents sb0 laid_out0 others0 2 0 (elf_of 182) file0 file0_ok) as (n & s' & E & _ & _ & Ok & _);
    [vm_compute; split; congruence|vm_compute; split; discriminate|vm_compute; discriminate|apply small_bytes; vm_compute; reflexivity|]. change (len (elf_of 182)) with (len elf0) in E. unfold program1. rewrite E. exact Ok.
Defined.

Lemma program1_sane : sane (contents program1).
Proof.
  assert (Eq : contents program1 = elf_of 182) by (vm_compute; reflexivity). rewrite Eq. split; [vm_compute; split; [congruence|split; [congruence|reflexivity]]|].
  assert (Hs : headers (elf_of 182) = [ProgramHeader 1 5 176 0 5 5; ProgramHeader 1 6 182 4096 2 5]) by (vm_compute; reflexivity). rewrite Hs.
  intros h I _. apply elem_of_cons in I as [->|I]; [|apply list_elem_of_singleton in I as ->]; split; vm_compute; congruence.
Defined.

(** A process of two pages: at address 0 the array of two pointers, behind it the strings and the path. *)
Definition grown0 : vm := snd (Kmem.alloc kernel_end0 stop0 (table_of kernel0) 0 5000 rw).
Definition page0 : Z := match translation_of grown0 0 with Some p => p | None => 0 end.
Definition caller : list Z := pointer_bytes [64; 80; 0] ++ repeat 0 (64 - 24) ++ [108; 115] ++ repeat 0 14 ++ [45; 97] ++ repeat 0 14 ++ [47; 108; 115] ++ repeat 0 13.
Definition kernel1 : kernel := Kernel (Process 5000 (pt grown0) 0 0 0 []) (fl grown0) (store (fun a => a mod 7) (page0 + 8) caller).

Lemma kernel1_ok : exists es, length es = 2%nat /\ kernel_ok kernel_end0 stop0 0x80001000 0x80030000 es kernel1.
Proof.
  pose proof kernel0_ok as [U _ N]. destruct (alloc_uvm kernel_end0 stop0 stop0_ok 0x80001000 0x80030000 [] (table_of kernel0) 0 5000 rw U) as (s & news & U' & P & R);
    [lia|reflexivity|unfold pages_max; lia|reflexivity|].
  assert (G : fst (Kmem.alloc kernel_end0 stop0 (table_of kernel0) 0 5000 rw) = Ok 5000) by (vm_compute; reflexivity).
  destruct R as [(E & Ln & _)|(e & E & _)]; rewrite E in G; [|discriminate G]. assert (Es : s = grown0) by (unfold grown0; rewrite E; reflexivity). subst s.
  assert (L2 : length news = 2%nat) by (cbn [length] in Ln; change ((5000 + 4095) / 4096) with 2 in Ln; lia).
  exists ([] ++ List.map (fun p => Pte p rw true) news). cbn [app]. split; [rewrite length_map; exact L2|]. assert (Et : table_of kernel1 = grown0) by (unfold table_of, kernel1; cbn; destruct grown0; reflexivity). split.
  - rewrite Et. exact U'.
  - rewrite length_map, L2. vm_compute. split; [split; congruence|reflexivity].
  - unfold pages_of in *. rewrite Et, map_map. cbn [pte_page]. rewrite map_id, <- P. exact N.
Qed.

Definition run (f : KInode.st) (a0 a1 : Z) : call_result * kernel := sys_exec kernel_end0 stop0 sb0 0x80001000 0x80030000 (fun path => if decide (path = [47; 108; 115]) then Some f else None) a0 a1 kernel1.

Lemma files_ok f : file_ok sb0 others0 f -> sane (contents f) -> forall path f', (fun path => if decide (path = [47; 108; 115]) then Some f else None) path = Some f' -> exists R, file_ok sb0 R f' /\ sane (contents f').
Proof. intros O S path f' E. cbn beta in E. destruct (decide _); [|discriminate E]. injection E as <-. eauto. Qed.

Lemma run_returns : fst (run program0 104 8) = Returns 2.
Proof. vm_compute. reflexivity. Defined.

Lemma sys_exec_starts_program_witness : exists argv size sp ps, names kernel1 8 argv /\ started program0 argv (snd (run program0 104 8)) size sp ps.
Proof.
  destruct kernel1_ok as (es & _ & K). destruct (sys_exec_starts_program kernel_end0 stop0 stop0_ok 0x80001000 0x80030000 (proj1 pages0_ok) (proj2 pages0_ok) sb0 _ (files_ok program0 program0_ok program0_sane) es kernel1 104 8 K) as (r & k' & E & H).
  pose proof run_returns as G. unfold run in *. rewrite E in *. cbn [fst snd] in *. subst r. destruct H as (path & f & argv & _ & Ef & Nm & _ & size & sp & ps & St). destruct (decide _); [|discriminate Ef]. apply (Some_inj program0 f) in Ef. rewrite <- Ef in St. exists argv, size, sp, ps. split; [exact Nm|exact St].
Defined.

(** The second segment of [program1] ends behind the file. *)
Lemma sys_exec_loses_nothing_witness : exists k', run program1 104 8 = (Fails (FailedExec CouldNotRead), k') /\ k_proc k' = k_proc kernel1 /\ k_free k' ≡ₚ k_free kernel1.
Proof.
  destruct kernel1_ok as (es & _ & K). destruct (sys_exec_loses_nothing kernel_end0 stop0 stop0_ok 0x80001000 0x80030000 (proj1 pages0_ok) (proj2 pages0_ok) sb0 _ (files_ok program1 program1_ok program1_sane) es kernel1 104 8 K) as (r & k' & E & _ & H).
  assert (G : fst (run program1 104 8) = Fails (FailedExec CouldNotRead)) by (vm_compute; reflexivity). unfold run in *. rewrite E in *. cbn [fst] in G. subst r. exists k'. split; [reflexivity|]. split; apply H.
Defined.

Definition fork0 : res (Z * ptable) * list Z * mem := fork_memory kernel_end0 stop0 0x80001000 (pr_table (k_proc kernel1)) (pr_size (k_proc kernel1)) (k_free kernel1) (k_mem kernel1).


(** A file of any process can stop the kernel: the first segment has no flags, so that its page looks like a table,
    and when the second one cannot be read the new page table is freed. *)
Definition flagless : KInode.st := let l := splice (elf_of 182) 68 [0] in match write sb0 2 (from l) 0 (len l) file0 with KInode.Done _ s => s | _ => file0 end.

Lemma flagless_segment_stops : fst (run flagless 104 8) = Stops.
Proof. vm_compute. reflexivity. Qed.
