(* ===== verification/RbDemos.v ===== *)
(** The ring-buffer demonstrations rb_basic.c and rb_wipe.c: programs that use the
    buffer the kernel maps for them as plain memory. *)

From ITree Require Import ITree.
From S2P Require Import Prelude Mem Sys Ulib Printf Tools Tests Grind Utests.
Import ITreeNotations.
Local Open Scope itree_scope.
Local Open Scope zm_scope.

(** A word of [n] bytes, stored or loaded through a pointer. *)
Definition store_word (a n v : Z) : prog unit :=
  r <- sysret (CAccess a n (Some v)) ;; if r <? 0 then abort else Ret tt.
Definition load_word (a n : Z) : prog Z :=
  r <- sysret (CAccess a n None) ;; if r <? 0 then abort else Ret r.

(** The words of a buffer of 16 pages. *)
Definition words : Z := 4096 * 16 / 4.

Section Programs.
Variable fmt_ptr : Z -> list Z.
(** What [addr] holds before the call. *)
Variable junk : Z.
Abbreviation printf := (printf fmt_ptr).

(** * rb_basic.c *)

(** [ringbuf(name, op, &addr)]: its result and [addr] afterwards. *)
Definition ringbuf (name : list Z) (op addr : Z) : prog (Z * Z) :=
  r <- sys (CRingbuf name op addr) ;; Ret (r_ret r, nth 0 (r_out r) addr).

Definition parent : prog unit :=
  r <- ringbuf ($"basic_test") 1 junk ;;
  let '(ret, addr) := r in
  (if ret <? 0 then printf (line "ERORR OPENING IN PARENT") [] else Ret tt) ;;
  for_ (Z.to_nat words) 0 (fun i => store_word (u64 (addr + 4 * i)) 4 i).

Definition check_word (addr at_ i : Z) : prog unit :=
  v <- load_word (u64 (addr + 4 * at_)) 4 ;;
  if v <>? i then printf ($"F") [] else Ret tt.

Definition child : prog unit :=
  run_call (CSleep 1) ;;
  r <- ringbuf ($"basic_test") 1 junk ;;
  let '(ret, addr) := r in
  (if ret <? 0 then printf (line "ERROR OPENING IN CHILD") [] else Ret tt) ;;
  for_ 2 0 (fun is_magic_buf => for_ (Z.to_nat words) 0 (fun i => check_word addr (is_magic_buf * words + i) i)) ;;
  for_ (Z.to_nat words) 0 (fun i => check_word addr i i).

Definition rb_basic_main : prog Z :=
  pid <- sysret CFork ;;
  (if pid >? 0 then parent else child) ;;
  run_call (CSleep 10) ;;
  Ret 0.

(** * rb_wipe.c *)

(** The results of the calls are not looked at. *)
Definition rb_wipe_main : prog Z :=
  r <- ringbuf ($"info_wiped") 1 junk ;;
  let addr := snd r in
  store_word addr 4 1337 ;;
  r <- ringbuf ($"info_wiped") 0 addr ;;
  r <- ringbuf ($"info_wiped") 1 (snd r) ;;
  let addr := snd r in
  v <- load_word addr 4 ;;
  if v =? 1337 then printf ($"Failure. Address was not wiped") [] ;; Ret (-1)
  else
    let addr_copy := addr in
    run_call (CRingbuf ($"info_wiped") 0 addr) ;;
    printf (line "Now should segfault") [] ;;
    c <- load_word addr_copy 1 ;;
    store_word addr_copy 1 (u8 (c + 1)) ;;
    Ret (-1).
End Programs.
